(* ===== verification/_CoqProject ===== *)
-Q . S2P
Prelude.v
KeyedStore.v
AtomicHashMap.v
CacheBuffer.v
ChannelBuffer.v
DataPath.v
Interleave.v
AsyncLogger.v
BoundedQueue.v
AtomicRWLock.v
ReentrantRWLock.v
TimingWheel.v
Timer.v
WireFormat.v
ShmBlock.v
ShmConf.v
Segment.v
ConditionNotifier.v
History.v
Graph.v
GlobalData.v
Warehouse.v
Topology.v
TopologyManager.v
CRoutine.v
Poller.v
PollHandler.v
WakeUp.v
Scheduler.v
Choreography.v
ObjectPool.v
UnboundedQueue.v
Signal.v
ListenerHandler.v
IntraDispatcher.v
HybridTransport.v
ShmTransport.v
RtpsTransport.v
Service.v
Parameter.v
ArenaTree.v
ArenaAllocator.v
Time.v
Blocker.v
Reader.v
ReaderMailbox.v
Node.v
NodeLinks.v
NodeBoard.v
RecordFile.v
RecordWriter.v
RecordReader.v
Player.v
RecordTools.v
RecordSegments.v
RecordViewer.v
