(* ===== verification/Prelude.v ===== *)
(** * CyberRT: a verification library

    CyberRT (src/cyber) runs components of a robot as coroutines and moves messages
    between them.  A message published on a channel reaches a process through the
    transport (shared memory, RTPS or a direct call); the data path puts it into the
    buffers of the channel's readers and notifies their tasks; the scheduler resumes a
    task's coroutine, which fetches the message through its data visitor and runs the
    user's callback.  Around this path, the topology says which process holds which
    writers and readers, and timers run callbacks at given times.  This library models
    those parts as executable definitions and proves what makes each of them correct.

    ** Conventions

    Machine integers are [Z] with the wrap-around written out ([u64], [u32], [i32],
    [i64] below).  A C++ object shared by pointer is an identifier into a store that the
    state carries.  A function that can fail returns [option] or a pair with its bool.
    Where a result depends on code outside the repository (std::hash, the operating
    system, the clock, sizeof) it is an argument.  In the concurrent models one step is
    one atomic access of one thread, with sequentially consistent memory; spurious
    failures of weak compare-exchanges and the calls clients make are choices of the
    step ([Interleave]).

    ** Files, in dependency order

    Shared: Prelude (this file: integers, lists, tactics), KeyedStore (the interface of
    a map that hands out pointers to its values), Interleave (any number of threads over
    a shared state, and the induction principle for their invariants).

    base: AtomicHashMap (atomic_hash_map.h; implements KeyedStore), BoundedQueue
    (bounded_queue.h, both interleaved and alone), AtomicRWLock (atomic_rw_lock.h,
    rw_lock_guard.h), ReentrantRWLock (reentrant_rw_lock.h), ObjectPool (object_pool.h,
    and concurrent_object_pool.h interleaved), UnboundedQueue (unbounded_queue.h), Signal
    (signal.h).

    time: Time (time.cc, duration.cc, rate.cc, clock.cc).

    blocker: Blocker (blocker.h, intra_writer.h, intra_reader.h, blocker_manager.h).

    record: RecordFile (bytes and sections; the interfaces [Codec] of the protobuf
    messages and [Stream] of the parser; file/record_file_base, section.h), RecordWriter
    (file/record_file_writer.cc), RecordReader (file/record_file_reader.cc,
    record_reader.cc), RecordTools (tools/cyber_recorder/spliter.cc, recoverer.cc),
    RecordSegments (record_writer.cc), RecordViewer (record_viewer.cc), Player
    (tools/cyber_recorder/player/play_task, play_task_buffer, play_task_producer.cc and
    play_task_consumer.cc: producer, consumer and the user's commands interleaved).

    io: Poller (io/poller.cc, poll_data.h; the kernel's epoll is the interface [Epoll] with
    the laws [EpollLaws]), PollHandler (io/poll_handler.cc, session.cc, over Poller and
    CRoutine).  logger: AsyncLogger (logger/async_logger.cc, logger.cc, logger_util.h,
    interleaved).

    data: CacheBuffer (cache_buffer.h), ChannelBuffer (channel_buffer.h), DataPath
    (data_notifier.h, data_dispatcher.h, fusion/all_latest.h, data_visitor.h), which uses
    the two channel tables through KeyedStore.

    timer: TimingWheel (timing_wheel.cc, timer_bucket.h, timer_task.h), Timer (timer.cc).

    transport: WireFormat (common/identity, message/message_info, shm/readable_info),
    ShmBlock (shm/block.cc), ShmConf (shm/shm_conf.cc), Segment (shm/state, segment,
    xsi_segment, posix_segment), ConditionNotifier (shm/condition_notifier), History
    (message/history.h), ListenerHandler (message/listener_handler.h, over Signal),
    IntraDispatcher (dispatcher/intra_dispatcher.h, transmitter/intra_transmitter.h,
    receiver/intra_receiver.h), HybridTransport (transmitter/hybrid_transmitter.h,
    receiver/hybrid_receiver.h: the choice of transport), ShmTransport
    (transmitter/shm_transmitter.h, dispatcher/shm_dispatcher: from the writer's message to
    the reader's listener, over Segment, ConditionNotifier and WireFormat), RtpsTransport
    (transmitter/rtps_transmitter.h, rtps/publisher.cc, dispatcher/subscriber_listener.cc,
    dispatcher/rtps_dispatcher), ArenaTree and ArenaAllocator (the red-black tree kept in
    shared memory by shm/arena_address_allocator.cc, and its allocation of addresses).

    service: Service (service/service.h, client.h, as a transition system of clients,
    services and the network).  parameter: Parameter (parameter.cc, parameter_server.cc,
    parameter_client.cc, over the calls of services).

    node: Reader (reader.h from the receiver's listener to the user's callback, with the
    scheduler and the data path under it), ReaderMailbox (that each reader is a mailbox),
    Node (node.cc, node_channel_impl.h, writer.h, reader.h and reader_base.h: the objects
    of a process put together with Topology, HybridTransport, IntraDispatcher and Reader),
    NodeLinks (receivers and dispatcher seen from the channels), NodeBoard (the invariant
    of the whole process, and its behaviour as a switchboard).

    service_discovery and common: Graph (container/graph.cc), GlobalData
    (common/global_data.cc, over KeyedStore), Warehouse (role, container), Topology
    (specific_manager), TopologyManager (topology_manager.cc).

    scheduler and croutine: CRoutine (croutine.h, croutine.cc, routine_factory.h), WakeUp
    (processor.cc, classic_context.cc and the notification of scheduler_classic.cc,
    interleaved), Scheduler (scheduler.cc, scheduler_classic.cc, classic_context.cc, one
    call after the other), Choreography (scheduler_choreography.cc,
    choreography_context.cc, likewise).

    ** What the theorems show

    - The containers implement their specifications: [ahm_refines_finite_map] (a finite
      map), [bounded_queue_fifo] (a FIFO queue of bounded length, in every
      interleaving), [unbounded_queue_refines_list] (a list), [cache_buffer_window],
      [history_window] and [intra_window] (the last messages).
    - The locks exclude: [rw_lock_mutual_exclusion], [reentrant_mutual_exclusion],
      [block_mutual_exclusion], in every interleaving; the pools hand an object to one
      thread at a time: [cc_pool_exclusive], [object_pool_partition].
    - Messages arrive: [dispatch_delivers], [all_latest_refines] (fusion produces the
      tuples its specification computes), [visitor_in_order], [notifications_delivered],
      [message_info_roundtrip].  [signal_emission]: an emission calls the slots that are
      connected when it begins, in order.  [shm_delivers] (from Transmit in one process to
      the listeners in another), [rtps_delivers] (from Transmit to the listeners of the
      channel over the network), [intra_delivers], [hybrid_serves] (each kind of reader is
      served while there is one), [hybrid_receiver_balanced].
    - The parts fit together: [reader_is_mailbox] (whatever happens in a process, a reader's
      callback gets what a mailbox yields), [process_switchboard] (whatever nodes, writers
      and readers come and go, the mailbox of a reader is fed by the writers that a
      switchboard connects).
    - Calls are answered: [responses_match] (a client gets the response to its own
      request), [request_is_answered] (and it can get it), [parameters_linearize] (the
      calls of parameter clients behave like operations of one map), [parameter_values] (a
      parameter's type says which of its values is set).
    - Recordings say what happened: [record_roundtrip] (what was written is what a reader
      shows), [record_window] (a window shows the messages a filter of all of them shows),
      [record_segments] (the files of a split recording hold the messages in turn),
      [viewer_plays_in_order] (the iterator merges the files by time, if each is in the
      order of its times), [player_plays_in_order] (what is played, and when; without
      preloading).  The tools keep what they should: [split_copies_window],
      [recover_torn_file] (of a recording that was cut off), [recover_finished_file],
      [recover_ends].  Where the order of messages matters, the provisos are that they
      were recorded in the order of their times and that the flush thread kept up with
      the chunks ([RecordWriter.prompt]); what happens otherwise is among the last theorems
      listed below.
    - Tasks run: [wakeup_not_lost] and [single_processor_wakes] (no interleaving of
      dispatchers and processors forgets a message), [scheduler_consistent],
      [next_routine_highest], [shutdown_empties], [choreography_consistent],
      [choreography_next].
    - Waiting for input and output ends as it should: [watches_requests] (the kernel watches
      what is registered), [timeout_answered_once], [block_answers_response],
      [response_wakes], [transfer_spec].  [async_logs_as_sync]: the asynchronous logger
      writes what the synchronous one would, in every interleaving.
    - Shared memory is laid out and handed out well: [shm_layout_tiles],
      [next_writable_finds], [acquire_block_to_write_ok] (the block was free and only it
      has changed), [allocator_refines_book] (the
      red-black tree behaves like a map from arenas to addresses, and no pointer of it
      dangles), [arena_ranges_apart] (addresses of different arenas do not overlap).
    - Timers are on time: [timing_wheel_refines_agenda] (every task fires exactly on its
      due tick), [periodic_timer_no_drift], [rate_keeps_grid], [time_duration_affine],
      [clock_now].
    - The topology is what was announced: [channel_manager_refines_roster],
      [module_leave_exact], [participant_loss_reaches_managers], [direction_of_flow],
      [earliest_node_survives], [registry_ids].
    - Theorems about behaviour the code hardly intends: [enqueue_spurious_refusal],
      [reentrant_unlock_race], [pool_wakeup_delayed], [remove_task_collision],
      [timing_wheel_boundary_race], [message_info_string_refused],
      [oversized_message_accepted], [read_index_checked_too_early],
      [failed_remap_dereferences_null], [posix_open_only_fails],
      [first_notification_lost], [edge_key_collision], [shared_edge_lost],
      [duplicate_leave_evicts], [unbounded_queue_double_release], [late_flush_reorders],
      [full_disk_unnoticed], [reader_depth_ignored], [first_leave_silences],
      [one_leaves_all_silent], [first_fetch_skips], [reader_name_collision], [notifiers_stay],
      [intra_remove_evicts], [arena_listeners_pile_up], [intra_heard_twice],
      [history_channel_collision], [arena_block_stays_locked], [balanced_calls_leak],
      [rtps_collision_misroutes], [untyped_parameter_hides], [given_up_stays],
      [spliter_spins], [double_register_unwatched], [reregister_keeps_events],
      [early_response_lost], [second_blocker_steals], [stale_response_counts],
      [preload_first_twice], [black_channel_underflow], [late_write_lost],
      [unbracketed_follows_last], [unknown_level_keeps_flag], [segment_key_collision],
      [quick_polls_hasten], [reversed_recording_loses], [recover_late_flush],
      [recover_stale_file], [late_flush_refuses_range].

    ** Fuel and bounds

    [Segment.next_writable] takes fuel; [next_writable_finds] shows that the number of
    blocks is enough whenever a block is free.  [GlobalData.find_id] takes fuel;
    [registry_ids] shows that one more than the number of names registered is enough.
    The breadth-first search of [Graph] takes one more than the number of edges as its
    fuel and [direction_of_flow] shows that it answers.  The loops of [RecordReader] take
    the length of the file: every section has at least 16 bytes, and [record_roundtrip]
    and [record_window] show that they answer; [recover_ends] does for any bytes.  Those of
    [RecordViewer] take the number of
    windows and of messages, and [viewer_plays_in_order] says how much is enough.  The
    fuel of Node and Reader is that of [GlobalData.find_id] again: [reader_is_mailbox] asks
    for one more than the number of calls, [process_switchboard] for twice the square of
    their number plus one ([enough]).  The walks of [ArenaAllocator]
    take two more than the number of nodes handed out ([fuel_of]), and
    [allocator_refines_book] shows that they end within it.  [Segment.Posix_OpenOnly] takes fuel for
    the loop that [posix_open_only_fails] shows not to end.  Loops over bounded ranges
    are folds.  Results on 64-bit counters hold for runs shorter than their range and say
    so; those on 32-bit lock counters for fewer threads, or steps, than [2 ^ 31].

    ** Not modelled

    Fast RTPS (RtpsTransport models what CyberRT does with its publishers and subscribers,
    the discovery messages come to the managers as arguments), the threads that resend a
    history to late readers, protobuf messages (in [RecordFile] an interface: what is parsed
    back is what was serialized) and their arenas, conversions to double, the reading of
    configuration files, thread affinity and priorities, stacks and context switching
    (assembly), the calls of sockets (their results are arguments of PollHandler), loading of
    shared libraries, log files with their rotation, statistics, the Python bindings and
    the tools but the spliter, the recoverer and the threads of the player.  In Node, a process is alone (roles and messages of other
    processes are in Topology, ShmTransport and RtpsTransport), in reality mode (the
    simulation's readers and writers are in Blocker), and its calls come one after the other
    (their interleavings are in WakeUp, BoundedQueue, the locks and ObjectPool). *)

From stdpp Require Import base numbers list gmap strings.
From Stdlib Require Import ZArith Lia.

Open Scope Z_scope.

(** ** Machine integers *)

Definition u64_max : Z := 2 ^ 64.
Definition u32_max : Z := 2 ^ 32.

(** Conversion to an unsigned 64-bit, unsigned 32-bit and signed 32/64-bit
    integer (two's complement). *)
Definition u64 (z : Z) : Z := z mod 2 ^ 64.
Definition u32 (z : Z) : Z := z mod 2 ^ 32.
Definition i32 (z : Z) : Z := (z + 2 ^ 31) mod 2 ^ 32 - 2 ^ 31.
Definition i64 (z : Z) : Z := (z + 2 ^ 63) mod 2 ^ 64 - 2 ^ 63.

Definition is_u64 (z : Z) : Prop := 0 <= z < 2 ^ 64.
Definition is_u32 (z : Z) : Prop := 0 <= z < 2 ^ 32.
Definition is_i32 (z : Z) : Prop := - 2 ^ 31 <= z < 2 ^ 31.
Definition is_i64 (z : Z) : Prop := - 2 ^ 63 <= z < 2 ^ 63.

Create HintDb cyber discriminated.

Lemma u64_small z : is_u64 z → u64 z = z.
Proof. intros H. unfold u64. apply Z.mod_small, H. Qed.

Lemma u32_small z : is_u32 z → u32 z = z.
Proof. intros H. unfold u32. apply Z.mod_small, H. Qed.

Lemma i32_small z : is_i32 z → i32 z = z.
Proof. unfold is_i32, i32. intros H. rewrite Z.mod_small by lia. lia. Qed.

Lemma i64_small z : is_i64 z → i64 z = z.
Proof. unfold is_i64, i64. intros H. rewrite Z.mod_small by lia. lia. Qed.

Lemma u64_range z : is_u64 (u64 z).
Proof. unfold is_u64, u64. apply Z.mod_pos_bound. lia. Qed.

Lemma u32_range z : is_u32 (u32 z).
Proof. unfold is_u32, u32. apply Z.mod_pos_bound. lia. Qed.

#[export] Hint Resolve u64_range u32_range : cyber.
#[export] Hint Unfold is_u64 is_u32 is_i32 is_i64 : cyber.

(** Case analysis on the scrutinee of a [match] or [if]. *)
Ltac destruct_match :=
  match goal with
  | |- context [match ?x with _ => _ end] => destruct x eqn:?
  | H : context [match ?x with _ => _ end] |- _ => destruct x eqn:?
  end.

(** Boolean comparisons to propositions, everywhere. *)
Ltac zbool :=
  repeat match goal with
  | H : (_ <? _) = true |- _ => apply Z.ltb_lt in H
  | H : (_ <? _) = false |- _ => apply Z.ltb_ge in H
  | H : (_ <=? _) = true |- _ => apply Z.leb_le in H
  | H : (_ <=? _) = false |- _ => apply Z.leb_gt in H
  | H : (_ =? _) = true |- _ => apply Z.eqb_eq in H
  | H : (_ =? _) = false |- _ => apply Z.eqb_neq in H
  | H : (_ && _) = true |- _ => apply andb_true_iff in H as [? ?]
  | H : (_ || _) = false |- _ => apply orb_false_iff in H as [? ?]
  | H : negb _ = true |- _ => apply negb_true_iff in H
  | H : negb _ = false |- _ => apply negb_false_iff in H
  end.

(** ** Filtering *)

Lemma filter_all {A} (P : A → Prop) `{∀ x, Decision (P x)} (l : list A) :
  (∀ x, x ∈ l → P x) → filter P l = l.
Proof.
  induction l as [|x l IH]; intros Hl; [done|].
  rewrite filter_cons_True by (apply Hl; set_solver). f_equal. apply IH. set_solver.
Qed.

Lemma filter_none {A} (P : A → Prop) `{∀ x, Decision (P x)} (l : list A) :
  (∀ x, x ∈ l → ¬ P x) → filter P l = [].
Proof.
  induction l as [|x l IH]; intros Hl; [done|].
  rewrite filter_cons_False by (apply Hl; set_solver). apply IH. set_solver.
Qed.

Lemma filter_ext_in {A} (P Q : A → Prop) `{∀ x, Decision (P x)} `{∀ x, Decision (Q x)}
    (l : list A) : (∀ x, x ∈ l → P x ↔ Q x) → filter P l = filter Q l.
Proof.
  induction l as [|x l IH]; intros Hl; [done|]. assert (P x ↔ Q x) as Hx by (apply Hl; set_solver).
  assert (filter P l = filter Q l) as He by (apply IH; set_solver).
  destruct (decide (P x)).
  - rewrite !filter_cons_True by tauto. by rewrite He.
  - by rewrite !filter_cons_False by tauto.
Qed.

Lemma Forall_filter_sub {A} (P Q : A → Prop) `{∀ x, Decision (Q x)} (l : list A) :
  Forall P l → Forall P (filter Q l).
Proof.
  rewrite !Forall_forall. intros Hl x Hx. apply Hl. by apply list_elem_of_filter in Hx as [_ ?].
Qed.

(** ** Ring indices: position [p] of a ring of [n] slots *)

Definition ring_idx (n p : Z) : nat := Z.to_nat (p mod n).

Section ring.
Context (n : Z) (Hn : 0 < n).

Lemma ring_idx_lt p : (ring_idx n p < Z.to_nat n)%nat.
Proof using Hn.
  unfold ring_idx. pose proof (Z.mod_pos_bound p n Hn). lia.
Qed.

Lemma ring_idx_add p : ring_idx n (p + n) = ring_idx n p.
Proof using Hn.
  unfold ring_idx. f_equal. rewrite <- (Z.mul_1_l n) at 1.
  apply Z.mod_add. lia.
Qed.

(** Two positions less than a turn apart share a slot only when equal. *)
Lemma ring_idx_inj p q :
  ring_idx n p = ring_idx n q → - n < p - q < n → p = q.
Proof using Hn.
  unfold ring_idx. intros He Hd.
  pose proof (Z.mod_pos_bound p n Hn). pose proof (Z.mod_pos_bound q n Hn).
  assert (p mod n = q mod n) as Hm by lia.
  pose proof (Z_div_mod_eq_full p n). pose proof (Z_div_mod_eq_full q n).
  assert (p - q = n * (p / n - q / n)) as Hq.
  { rewrite Z.mul_sub_distr_l. clear - H1 H2 Hm. lia. }
  clear - Hq Hd Hn. generalize dependent (p / n - q / n). intros k Hk.
  assert (k = 0) by nia. nia.
Qed.

Lemma ring_idx_mod_eq p q :
  ring_idx n p = ring_idx n q ↔ p mod n = q mod n.
Proof using Hn.
  unfold ring_idx.
  pose proof (Z.mod_pos_bound p n Hn). pose proof (Z.mod_pos_bound q n Hn).
  lia.
Qed.
End ring.
