(* ===== verification/KeyedStore.v ===== *)
(** * KeyedStore: the interface of a map that hands out value pointers

    [DataDispatcher] and [DataNotifier] use [base::AtomicHashMap] through four
    operations: look a key up and receive a pointer to its value, read through
    the pointer, write through the pointer, and set a key.  [KeyedStore] names
    the operations, [KeyedStoreLaws] states what the clients rely on, and
    AtomicHashMap.v discharges the laws. *)

From stdpp Require Import base numbers.
From Stdlib Require Import ZArith.
From S2P Require Import Prelude.

Open Scope Z_scope.

Class KeyedStore (M V : Type) := {
  ks_empty : M;
  ks_get : M → Z → option Z;
  ks_load : M → Z → option V;
  ks_store : M → Z → V → M;
  ks_set : M → Z → V → M;
  ks_inv : M → Prop
}.

(** The value a key is bound to: the pointer, dereferenced. *)
Definition ks_view `{KeyedStore M V} (m : M) (k : Z) : option V :=
  match ks_get m k with Some p => ks_load m p | None => None end.

Class KeyedStoreLaws (M V : Type) `{KeyedStore M V} := {
  ks_empty_inv : ks_inv ks_empty;
  ks_empty_get k : ks_get ks_empty k = None;
  ks_set_inv m k v : ks_inv m → is_u64 k → ks_inv (ks_set m k v);
  ks_set_view m k v k' : ks_inv m → is_u64 k → is_u64 k' →
    ks_view (ks_set m k v) k' = if decide (k = k') then Some v else ks_view m k';
  ks_get_live m k p : ks_inv m → ks_get m k = Some p →
    is_Some (ks_load m p);
  ks_store_inv m k p v : ks_inv m → ks_get m k = Some p →
    ks_inv (ks_store m p v);
  ks_store_view m k p v k' : ks_inv m → is_u64 k → is_u64 k' →
    ks_get m k = Some p →
    ks_view (ks_store m p v) k' = if decide (k = k') then Some v else ks_view m k'
}.

Section facts.
Context `{KeyedStoreLaws M V}.

(** A bound key is one [Get] finds. *)
Lemma ks_get_view (m : M) k :
  ks_inv m → is_Some (ks_get m k) ↔ is_Some (ks_view m k).
Proof.
  intros Hi. unfold ks_view. split.
  - intros [p Hp]. rewrite Hp. by eapply ks_get_live.
  - destruct (ks_get m k); [eauto|]. by intros [? [=]].
Qed.

Lemma ks_get_None (m : M) k : ks_inv m → ks_get m k = None ↔ ks_view m k = None.
Proof.
  intros Hi. rewrite !eq_None_not_Some. by rewrite ks_get_view.
Qed.

Lemma ks_empty_view k : ks_view (ks_empty : M) k = None.
Proof. unfold ks_view. by rewrite ks_empty_get. Qed.
End facts.
