(* ===== verification/AtomicHashMap.v ===== *)
(** * AtomicHashMap (cyber/base/atomic_hash_map.h)

    The fixed-size hash map with one key-sorted chain of entries per bucket.
    A value lives behind a pointer ([value_ptr]): [Get] hands that pointer to
    its caller, who may write through it, and [Set] on an existing key swaps
    the pointer and frees the old value.  The model therefore keeps a heap of
    values and lets entries hold addresses.  Operations are modelled as they
    run without interference, where every compare-exchange succeeds at its
    first attempt. *)

From stdpp Require Import base numbers list gmap sorting.
From Stdlib Require Import ZArith Lia.
From S2P Require Import Prelude KeyedStore.

Open Scope Z_scope.

(** [struct Entry]: the [next] link is the position in the bucket's list. *)
Record Entry := mkEntry { key : Z; value_ptr : Z }.

(** A bucket is the chain after the sentinel [head_]. *)
Abbreviation Bucket := (list Entry).

Definition TableSize : Z := 128.

Record AtomicHashMap (V : Type) := mkAtomicHashMap {
  table_ : list Bucket;
  capacity_ : Z;
  mode_num_ : Z;
  heap : gmap Z V;
  next_addr : Z
}.
Arguments mkAtomicHashMap {V} _ _ _ _ _.
Arguments table_ {V} _.
Arguments capacity_ {V} _.
Arguments mode_num_ {V} _.
Arguments heap {V} _.
Arguments next_addr {V} _.

(** [AtomicHashMap()]: [TableSize] empty buckets. *)
Definition AtomicHashMap_new {V} : AtomicHashMap V :=
  mkAtomicHashMap (replicate (Z.to_nat TableSize) []) TableSize
    (TableSize - 1) ∅ 1.

(** ** Bucket operations *)

(** [Bucket::Has]. *)
Fixpoint Bucket_Has (k : Z) (b : Bucket) : bool :=
  match b with
  | [] => false
  | target :: b' => if key target <? k then Bucket_Has k b' else key target =? k
  end.

(** [Bucket::Find]: the number of entries up to [prev], the target and
    whether the key was found. *)
Fixpoint Bucket_Find (k : Z) (b : Bucket) : nat * option Entry * bool :=
  match b with
  | [] => (0%nat, None, false)
  | target :: b' =>
      if key target =? k then (0%nat, Some target, true)
      else if key target >? k then (0%nat, Some target, false)
      else let '(i, t, f) := Bucket_Find k b' in (S i, t, f)
  end.

(** [Bucket::Insert(key, const V&)] with the new value already at [addr]:
    the new chain and the address to free. *)
Definition Bucket_Insert (k addr : Z) (b : Bucket) : Bucket * option Z :=
  match Bucket_Find k b with
  | (i, Some target, true) =>
      (<[i := mkEntry k addr]> b, Some (value_ptr target))
  | (i, _, _) => (take i b ++ mkEntry k addr :: drop i b, None)
  end.

(** [Bucket::Get]: the pointer stored in [*value]. *)
Definition Bucket_Get (k : Z) (b : Bucket) : option Z :=
  match Bucket_Find k b with
  | (_, Some target, true) => Some (value_ptr target)
  | _ => None
  end.

(** ** Map operations *)

Section ops.
Context {V : Type}.
Implicit Types (m : AtomicHashMap V) (k p : Z) (v : V).

Definition bucket_index (m : AtomicHashMap V) (k : Z) : nat :=
  Z.to_nat (Z.land k (mode_num_ m)).

Definition bucket_of (m : AtomicHashMap V) (k : Z) : Bucket :=
  default [] (table_ m !! bucket_index m k).

Definition Has (m : AtomicHashMap V) (k : Z) : bool :=
  Bucket_Has k (bucket_of m k).

(** [bool Get(K, V** )]: [Some p] when it returns true with [*value = p]. *)
Definition Get_ptr (m : AtomicHashMap V) (k : Z) : option Z :=
  Bucket_Get k (bucket_of m k).

(** Reading [*p] and writing [*p = v] through a pointer given by [Get_ptr]. *)
Definition load_ptr (m : AtomicHashMap V) (p : Z) : option V := heap m !! p.

Definition store_ptr (m : AtomicHashMap V) (p : Z) (v : V) : AtomicHashMap V :=
  mkAtomicHashMap (table_ m) (capacity_ m) (mode_num_ m)
    (<[p := v]> (heap m)) (next_addr m).

(** [bool Get(K, V* )]: copies the value out. *)
Definition Get (m : AtomicHashMap V) (k : Z) : option V :=
  match Get_ptr m k with
  | Some p => load_ptr m p
  | None => None
  end.

(** [void Set(K, const V&)], which inserts in the key's bucket. *)
Definition Set_ (m : AtomicHashMap V) (k : Z) (v : V) : AtomicHashMap V :=
  let '(b, old) := Bucket_Insert k (next_addr m) (bucket_of m k) in
  let h := <[next_addr m := v]> (heap m) in
  mkAtomicHashMap (<[bucket_index m k := b]> (table_ m)) (capacity_ m)
    (mode_num_ m)
    (match old with Some a => delete a h | None => h end)
    (next_addr m + 1).

(** [void Set(K)], which stores [V()]. *)
Definition Set_default (dflt : V) (m : AtomicHashMap V) (k : Z)
  : AtomicHashMap V := Set_ m k dflt.

(** ** Well-formedness *)

Definition bucket_sorted (b : Bucket) : Prop :=
  StronglySorted Z.lt (key <$> b).

Record ahm_wf (m : AtomicHashMap V) : Prop := {
  wf_len : length (table_ m) = Z.to_nat TableSize;
  wf_mode : mode_num_ m = TableSize - 1;
  wf_sorted : ∀ i b, table_ m !! i = Some b → bucket_sorted b;
  wf_home : ∀ i b e, table_ m !! i = Some b → e ∈ b →
    bucket_index m (key e) = i;
  wf_alloc : ∀ i b e, table_ m !! i = Some b → e ∈ b →
    is_Some (heap m !! value_ptr e);
  wf_fresh : ∀ a, is_Some (heap m !! a) → a < next_addr m;
  wf_inj : ∀ i b e i' b' e', table_ m !! i = Some b → e ∈ b →
    table_ m !! i' = Some b' → e' ∈ b' →
    value_ptr e = value_ptr e' → key e = key e'
}.
End ops.

(** ** Bucket lemmas *)

Lemma bucket_sorted_tail e b : bucket_sorted (e :: b) → bucket_sorted b.
Proof. unfold bucket_sorted. cbn. intros H. by apply StronglySorted_inv in H as [? _]. Qed.

Lemma bucket_sorted_head e b e' :
  bucket_sorted (e :: b) → e' ∈ b → key e < key e'.
Proof.
  unfold bucket_sorted. cbn. intros [_ H]%StronglySorted_inv He.
  rewrite Forall_forall in H. apply H. by apply list_elem_of_fmap_2.
Qed.

(** What [Find] returns on a sorted chain. *)
Lemma Bucket_Find_spec k b i t f :
  bucket_sorted b → Bucket_Find k b = (i, t, f) →
  (i ≤ length b)%nat ∧ t = b !! i ∧
  (∀ e, e ∈ take i b → key e < k) ∧
  (if f then ∃ e, t = Some e ∧ key e = k
   else ∀ e, e ∈ drop i b → k < key e).
Proof.
  revert i t f. induction b as [|e b IH]; intros i t f Hs; cbn.
  - intros [= <- <- <-]. cbn. split; [lia|].
    repeat split; intros e' He'; set_solver.
  - destruct (key e =? k) eqn:E1; zbool.
    { intros [= <- <- <-]. cbn. split; [lia|]. split; [done|].
      split; [set_solver|]. by exists e. }
    destruct (key e >? k) eqn:E2; rewrite Z.gtb_ltb in E2; zbool.
    { intros [= <- <- <-]. cbn. split; [lia|]. split; [done|].
      split; [set_solver|]. intros e' [->|He']%elem_of_cons; [lia|].
      pose proof (bucket_sorted_head _ _ _ Hs He'). lia. }
    destruct (Bucket_Find k b) as [[i' t'] f'] eqn:F. intros [= <- <- <-].
    destruct (IH _ _ _ (bucket_sorted_tail _ _ Hs) eq_refl) as (?&?&Hb&Hf).
    cbn. split; [lia|]. split; [done|]. split; [|done].
    intros e' [->|He']%elem_of_cons; [lia|]. by apply Hb.
Qed.

Lemma bucket_sorted_unique b e e' :
  bucket_sorted b → e ∈ b → e' ∈ b → key e = key e' → e = e'.
Proof.
  induction b as [|e0 b IH]; [set_solver|]. intros Hs He He' Hk.
  apply elem_of_cons in He as [->|He], He' as [->|He'].
  - done.
  - pose proof (bucket_sorted_head _ _ _ Hs He'). lia.
  - pose proof (bucket_sorted_head _ _ _ Hs He). lia.
  - apply IH; eauto using bucket_sorted_tail.
Qed.

(** A key that [Find] misses is on neither side of the split. *)
Lemma Bucket_Find_missing k b i t e :
  bucket_sorted b → Bucket_Find k b = (i, t, false) → e ∈ b → key e ≠ k.
Proof.
  intros Hs F He. destruct (Bucket_Find_spec _ _ _ _ _ Hs F) as (_&_&Hlt&Hf).
  rewrite <- (take_drop i b) in He.
  apply elem_of_app in He as [He|He]; [specialize (Hlt e He)|specialize (Hf e He)]; lia.
Qed.

Lemma Bucket_Get_spec k b p :
  bucket_sorted b →
  Bucket_Get k b = Some p ↔ ∃ e, e ∈ b ∧ key e = k ∧ value_ptr e = p.
Proof.
  intros Hs. unfold Bucket_Get.
  destruct (Bucket_Find k b) as [[i t] f] eqn:F.
  destruct (Bucket_Find_spec _ _ _ _ _ Hs F) as (Hi&->&Hlt&Hf).
  destruct f.
  - destruct Hf as (e&He&Hk). rewrite He.
    apply list_elem_of_lookup_2 in He. split.
    + intros [= <-]. by exists e.
    + intros (e'&He'&Hk'&<-). do 2 f_equal.
      eapply bucket_sorted_unique; eauto. congruence.
  - split; [by destruct (b !! i)|].
    intros (e&He&Hk&_). exfalso. by eapply Bucket_Find_missing.
Qed.

Lemma Bucket_Has_spec k b :
  bucket_sorted b → Bucket_Has k b = true ↔ ∃ e, e ∈ b ∧ key e = k.
Proof.
  induction b as [|e0 b IH]; cbn; intros Hs.
  { split; [done|set_solver]. }
  specialize (IH (bucket_sorted_tail _ _ Hs)).
  destruct (key e0 <? k) eqn:E; zbool.
  - rewrite IH. split; [set_solver|].
    intros (e&[->|He]%elem_of_cons&Hk); [lia|eauto].
  - rewrite Z.eqb_eq. split; [set_solver|].
    intros (e&[->|He]%elem_of_cons&Hk); [done|].
    pose proof (bucket_sorted_head _ _ _ Hs He). lia.
Qed.

(** Splitting the chain at the position [Find] returns. *)
Lemma Bucket_Insert_split k a b :
  bucket_sorted b →
  ∃ l r, (Bucket_Insert k a b).1 = l ++ mkEntry k a :: r ∧
    (∀ e, e ∈ l → key e < k) ∧ (∀ e, e ∈ r → k < key e) ∧
    ((b = l ++ r ∧ (Bucket_Insert k a b).2 = None) ∨
     ∃ e, b = l ++ e :: r ∧ key e = k ∧
       (Bucket_Insert k a b).2 = Some (value_ptr e)).
Proof.
  intros Hs. unfold Bucket_Insert.
  destruct (Bucket_Find k b) as [[i t] f] eqn:F.
  destruct (Bucket_Find_spec _ _ _ _ _ Hs F) as (Hi&->&Hlt&Hf).
  destruct f.
  - destruct Hf as (e&He&Hk). rewrite He. cbn.
    pose proof (take_drop_middle _ _ _ He) as Hmid.
    exists (take i b), (drop (S i) b). split; [|split; [done|split]].
    + trans (<[i := mkEntry k a]> (take i b ++ e :: drop (S i) b)).
      { by rewrite Hmid. }
      rewrite insert_app_r_alt; rewrite length_take_le by done; [|lia].
      by rewrite Nat.sub_diag.
    + intros e' He'. rewrite <- Hmid in Hs. unfold bucket_sorted in Hs.
      rewrite fmap_app in Hs. apply StronglySorted_app in Hs as (_&_&Hs).
      fold (bucket_sorted (e :: drop (S i) b)) in Hs.
      rewrite <- Hk. by eapply bucket_sorted_head.
    + right. exists e. by rewrite Hmid.
  - exists (take i b), (drop i b).
    destruct (b !! i); cbn; (split; [done|]; split; [done|]; split; [done|]);
      left; by rewrite take_drop.
Qed.

Lemma Bucket_Insert_elem k a b e :
  bucket_sorted b →
  e ∈ (Bucket_Insert k a b).1 ↔ e = mkEntry k a ∨ (e ∈ b ∧ key e ≠ k).
Proof.
  intros Hs. destruct (Bucket_Insert_split k a b Hs) as (l&r&->&Hl&Hr&Hb).
  assert (e ∈ l ∨ e ∈ r → key e ≠ k) by naive_solver lia.
  destruct Hb as [(->&_)|(e0&->&Hk&_)];
    rewrite !elem_of_app, !elem_of_cons; naive_solver.
Qed.

Lemma Bucket_Insert_sorted k a b :
  bucket_sorted b → bucket_sorted (Bucket_Insert k a b).1.
Proof.
  intros Hs. destruct (Bucket_Insert_split k a b Hs) as (l&r&->&Hl&Hr&Hb).
  assert (bucket_sorted l ∧ bucket_sorted r) as [Hsl Hsr].
  { unfold bucket_sorted in *. destruct Hb as [(->&_)|(e0&->&_&_)];
      rewrite fmap_app in Hs; apply StronglySorted_app in Hs as (_&?&Hr');
      (split; [done|]); [done|]. by apply StronglySorted_inv in Hr' as [? _]. }
  unfold bucket_sorted in *. rewrite fmap_app, fmap_cons. cbn.
  apply StronglySorted_app. split; [|split; [done|]].
  - intros x y Hx Hy. apply list_elem_of_fmap in Hx as (e&->&He).
    specialize (Hl _ He). apply elem_of_cons in Hy as [->|Hy]; [done|].
    apply list_elem_of_fmap in Hy as (e'&->&He'). specialize (Hr _ He'). lia.
  - constructor; [done|]. apply Forall_forall. intros y Hy.
    apply list_elem_of_fmap in Hy as (e'&->&He'). by apply Hr.
Qed.

Lemma Bucket_Insert_old k a b :
  bucket_sorted b → (Bucket_Insert k a b).2 = Bucket_Get k b.
Proof.
  intros Hs. destruct (Bucket_Insert_split k a b Hs) as (l&r&_&Hl&Hr&Hb).
  destruct Hb as [(->&->)|(e&->&Hk&->)]; symmetry.
  - destruct (Bucket_Get k (l ++ r)) as [p|] eqn:G; [exfalso|done].
    apply Bucket_Get_spec in G as (e&He&Hk&_); [|done].
    apply elem_of_app in He as [He|He]; [apply Hl in He|apply Hr in He]; lia.
  - apply Bucket_Get_spec; [done|]. exists e. set_solver.
Qed.

(** ** Map lemmas *)

Section map_lemmas.
Context {V : Type}.
Implicit Types (m : AtomicHashMap V) (k p : Z) (v : V).

Lemma bucket_index_lt m k :
  ahm_wf m → is_u64 k → (bucket_index m k < length (table_ m))%nat.
Proof.
  intros Hwf Hk. unfold bucket_index. rewrite (wf_len _ Hwf), (wf_mode _ Hwf).
  change (TableSize - 1) with (Z.ones 7). rewrite Z.land_ones by lia.
  pose proof (Z.mod_pos_bound k (2 ^ 7)). unfold TableSize. lia.
Qed.

Lemma bucket_of_lookup m k :
  ahm_wf m → is_u64 k → table_ m !! bucket_index m k = Some (bucket_of m k).
Proof.
  intros Hwf Hk. unfold bucket_of.
  by destruct (lookup_lt_is_Some_2 _ _ (bucket_index_lt m k Hwf Hk)) as [b ->].
Qed.

Lemma bucket_of_sorted m k : ahm_wf m → bucket_sorted (bucket_of m k).
Proof.
  intros Hwf. unfold bucket_of.
  destruct (table_ m !! bucket_index m k) eqn:E; cbn; [by eapply wf_sorted|].
  constructor.
Qed.

(** The pointer [Get] returns is the one of the only entry with that key. *)
Lemma Get_ptr_spec m k p :
  ahm_wf m →
  Get_ptr m k = Some p ↔
    ∃ i b e, table_ m !! i = Some b ∧ e ∈ b ∧ key e = k ∧ value_ptr e = p.
Proof.
  intros Hwf. unfold Get_ptr.
  rewrite Bucket_Get_spec by (by apply bucket_of_sorted). unfold bucket_of. split.
  - intros (e&He&Hk&Hp).
    destruct (table_ m !! bucket_index m k) as [b|] eqn:E; cbn in He; [|set_solver].
    by exists (bucket_index m k), b, e.
  - intros (i&b&e&Hb&He&<-&<-). exists e.
    by rewrite (wf_home _ Hwf _ _ _ Hb He), Hb.
Qed.

Lemma Has_Get_ptr m k : ahm_wf m → Has m k = true ↔ is_Some (Get_ptr m k).
Proof.
  intros Hwf. unfold Has, Get_ptr.
  rewrite Bucket_Has_spec by (by apply bucket_of_sorted). split.
  - intros (e&He&Hk). exists (value_ptr e).
    apply Bucket_Get_spec; [by apply bucket_of_sorted|]. eauto.
  - intros [p Hp]. apply Bucket_Get_spec in Hp; [|by apply bucket_of_sorted].
    naive_solver.
Qed.

Lemma ahm_new_wf : ahm_wf (@AtomicHashMap_new V).
Proof.
  assert (∀ i b, replicate (Z.to_nat TableSize) ([] : Bucket) !! i = Some b → b = []) as Hr.
  { intros i b. by intros [-> _]%lookup_replicate. }
  constructor; cbn.
  - done.
  - done.
  - intros i b ->%Hr. constructor.
  - intros i b e ->%Hr. set_solver.
  - intros i b e ->%Hr. set_solver.
  - intros a. rewrite lookup_empty. by intros [? [=]].
  - intros i b e i' b' e' ->%Hr. set_solver.
Qed.

(** Entries of the table after [Set]: the new entry and the old entries of
    the other keys. *)
Lemma Set_entries m k v i b e :
  ahm_wf m → is_u64 k → table_ (Set_ m k v) !! i = Some b → e ∈ b →
  (i = bucket_index m k ∧ e = mkEntry k (next_addr m)) ∨
  (key e ≠ k ∧ ∃ b0, table_ m !! i = Some b0 ∧ e ∈ b0).
Proof.
  intros Hwf Hk. unfold Set_.
  pose proof (bucket_of_sorted m k Hwf) as Hs.
  pose proof (Bucket_Insert_elem k (next_addr m) (bucket_of m k) e Hs) as Hel.
  destruct (Bucket_Insert k (next_addr m) (bucket_of m k)) as [b' old] eqn:EI.
  cbn in *. rewrite list_lookup_insert_Some. intros [(<-&<-&_)|(Hne&Hb)] He.
  - apply Hel in He as [->|[He Hke]]; [by left|right].
    split; [done|]. eexists; split; [by apply bucket_of_lookup|done].
  - right. split; [|eauto]. intros Hke. apply Hne.
    rewrite <- Hke. by eapply wf_home.
Qed.

(** [Set] frees the value the key had and allocates the new one. *)
Lemma Set_heap m k v a :
  ahm_wf m →
  heap (Set_ m k v) !! a =
    if decide (a = next_addr m) then Some v
    else if decide (Get_ptr m k = Some a) then None else heap m !! a.
Proof.
  intros Hwf. unfold Set_, Get_ptr.
  pose proof (Bucket_Insert_old k (next_addr m) _ (bucket_of_sorted m k Hwf)) as Ho.
  destruct (Bucket_Insert _ _ _) as [b' old]. cbn in *. rewrite <- Ho.
  assert (old ≠ Some (next_addr m)) as Hfr.
  { intros ->. symmetry in Ho.
    apply (Get_ptr_spec m k) in Ho as (i&b&e&Hb&He&_&Hp); [|done].
    destruct (wf_alloc _ Hwf _ _ _ Hb He) as [w Hw]. rewrite Hp in Hw.
    assert (next_addr m < next_addr m) by (apply (wf_fresh _ Hwf); eauto). lia. }
  destruct old as [p|]; rewrite ?lookup_delete, lookup_insert;
    repeat case_decide; subst; naive_solver.
Qed.

Lemma Set_wf m k v : ahm_wf m → is_u64 k → ahm_wf (Set_ m k v).
Proof.
  intros Hwf Hk.
  assert (mode_num_ (Set_ m k v) = mode_num_ m) as Hmode
    by (unfold Set_; by destruct (Bucket_Insert _ _ _)).
  assert (next_addr (Set_ m k v) = next_addr m + 1) as Hnext
    by (unfold Set_; by destruct (Bucket_Insert _ _ _)).
  assert (∀ i b e, table_ m !! i = Some b → e ∈ b → value_ptr e < next_addr m) as Hlt.
  { intros i b e Hb He. apply (wf_fresh _ Hwf). by eapply wf_alloc. }
  constructor.
  - unfold Set_. destruct (Bucket_Insert _ _ _); cbn.
    rewrite length_insert. apply Hwf.
  - rewrite Hmode. apply Hwf.
  - intros i b. unfold Set_.
    pose proof (Bucket_Insert_sorted k (next_addr m) _ (bucket_of_sorted m k Hwf)) as Hs.
    destruct (Bucket_Insert _ _ _) as [b' old]; cbn in *.
    rewrite list_lookup_insert_Some. intros [(_&<-&_)|(_&Hb)]; [done|].
    by eapply wf_sorted.
  - intros i b e Hb He. unfold bucket_index. rewrite Hmode.
    destruct (Set_entries _ _ _ _ _ _ Hwf Hk Hb He) as [[-> ->]|(_&b0&Hb0&He0)]; [done|].
    by eapply wf_home.
  - intros i b e Hb He. rewrite Set_heap by done.
    destruct (Set_entries _ _ _ _ _ _ Hwf Hk Hb He) as [[-> ->]|(Hne&b0&Hb0&He0)]; cbn.
    { by rewrite decide_True. }
    pose proof (Hlt _ _ _ Hb0 He0). rewrite decide_False by lia.
    rewrite decide_False; [by eapply wf_alloc|].
    intros (i'&b'&e'&Hb'&He'&Hk'&Hp')%Get_ptr_spec; [|done].
    apply Hne. rewrite <- Hk'. apply (wf_inj m Hwf i b0 e i' b' e'); congruence || done.
  - intros a. rewrite Set_heap, Hnext by done.
    case_decide; [lia|]. case_decide; [by intros [? [=]]|].
    intros Ha. pose proof (wf_fresh _ Hwf _ Ha). lia.
  - intros i b e i' b' e' Hb He Hb' He' Hp.
    destruct (Set_entries _ _ _ _ _ _ Hwf Hk Hb He) as [[_ ->]|(_&b0&Hb0&He0)],
      (Set_entries _ _ _ _ _ _ Hwf Hk Hb' He') as [[_ ->]|(_&b1&Hb1&He1)]; cbn in *.
    + done.
    + pose proof (Hlt _ _ _ Hb1 He1). lia.
    + pose proof (Hlt _ _ _ Hb0 He0). lia.
    + by apply (wf_inj m Hwf i b0 e i' b1 e').
Qed.

Lemma Set_Get_ptr m k v k' :
  ahm_wf m → is_u64 k →
  Get_ptr (Set_ m k v) k' =
    if decide (k = k') then Some (next_addr m) else Get_ptr m k'.
Proof.
  intros Hwf Hk. pose proof (Set_wf m k v Hwf Hk) as Hwf'.
  apply option_eq. intros p. rewrite Get_ptr_spec by done. split.
  - intros (i&b&e&Hb&He&<-&<-).
    destruct (Set_entries _ _ _ _ _ _ Hwf Hk Hb He) as [[-> ->]|(Hne&b0&Hb0&He0)]; cbn.
    + by rewrite decide_True.
    + rewrite decide_False by done. apply Get_ptr_spec; [done|]. naive_solver.
  - intros Hp.
    assert (∃ e, (e ∈ (Bucket_Insert k (next_addr m) (bucket_of m k)).1 ∨
              (∃ i b, i ≠ bucket_index m k ∧ table_ m !! i = Some b ∧ e ∈ b)) ∧
              key e = k' ∧ value_ptr e = p) as (e&He&Hke&Hpe).
    { case_decide as Hkk.
      - injection Hp as <-. exists (mkEntry k (next_addr m)).
        split; [left|done]. apply Bucket_Insert_elem; [by apply bucket_of_sorted|by left].
      - apply Get_ptr_spec in Hp as (i&b&e&Hb&He&Hke&Hpe); [|done].
        exists e. split; [|done]. destruct (decide (i = bucket_index m k)) as [->|Hi].
        + left. apply Bucket_Insert_elem; [by apply bucket_of_sorted|right].
          rewrite bucket_of_lookup in Hb by done. injection Hb as <-.
          split; [done|congruence].
        + right. by exists i, b. }
    unfold Set_. destruct (Bucket_Insert _ _ _) as [b' old] eqn:EI. cbn in *.
    destruct He as [He|(i&b&Hi&Hb&He)].
    + exists (bucket_index m k), b', e. split; [|done].
      apply list_lookup_insert_eq. by apply bucket_index_lt.
    + exists i, b, e. split; [|done]. by rewrite list_lookup_insert_ne.
Qed.

Lemma Set_Get m k v k' :
  ahm_wf m → is_u64 k →
  Get (Set_ m k v) k' = if decide (k = k') then Some v else Get m k'.
Proof.
  intros Hwf Hk. unfold Get, load_ptr. rewrite Set_Get_ptr by done.
  case_decide as Hkk.
  - rewrite Set_heap by done. by rewrite decide_True.
  - destruct (Get_ptr m k') as [p|] eqn:Hp; [|done].
    rewrite Set_heap by done.
    pose proof Hp as (i&b&e&Hb&He&Hke&Hpe)%Get_ptr_spec; [|done].
    pose proof (wf_alloc _ Hwf _ _ _ Hb He) as Ha. rewrite Hpe in Ha.
    pose proof (wf_fresh _ Hwf _ Ha). rewrite decide_False by lia.
    rewrite decide_False; [done|].
    intros (i'&b'&e'&Hb'&He'&Hk'&Hp')%Get_ptr_spec; [|done].
    apply Hkk. rewrite <- Hk', <- Hke.
    apply (wf_inj m Hwf i' b' e' i b e); congruence || done.
Qed.

Lemma store_ptr_wf m k p v :
  ahm_wf m → Get_ptr m k = Some p → ahm_wf (store_ptr m p v).
Proof.
  intros Hwf (i0&b0&e0&Hb0&He0&_&Hp0)%Get_ptr_spec; [|done].
  constructor; cbn; try apply Hwf.
  - intros i b e Hb He. rewrite lookup_insert. case_decide; [done|by eapply wf_alloc].
  - intros a. rewrite lookup_insert. case_decide as Hap; [|apply Hwf].
    intros _. subst a. apply (wf_fresh _ Hwf). rewrite <- Hp0. by eapply wf_alloc.
Qed.

Lemma store_ptr_Get m k p v k' :
  ahm_wf m → Get_ptr m k = Some p →
  Get (store_ptr m p v) k' = if decide (k = k') then Some v else Get m k'.
Proof.
  intros Hwf Hp. unfold Get, load_ptr.
  change (Get_ptr (store_ptr m p v) k') with (Get_ptr m k'). cbn.
  case_decide as Hkk.
  - subst k'. rewrite Hp. apply lookup_insert_eq.
  - destruct (Get_ptr m k') as [p'|] eqn:Hp'; [|done].
    apply lookup_insert_ne. intros ->.
    apply Get_ptr_spec in Hp as (i&b&e&?&?&?&?); [|done].
    apply Get_ptr_spec in Hp' as (i'&b'&e'&?&?&?&?); [|done].
    apply Hkk. subst. by apply (wf_inj m Hwf i b e i' b' e').
Qed.
End map_lemmas.

(** ** The map implements the [KeyedStore] interface *)

#[export] Instance ahm_store (V : Type) : KeyedStore (AtomicHashMap V) V := {
  ks_empty := AtomicHashMap_new;
  ks_get := Get_ptr;
  ks_load := load_ptr;
  ks_store := store_ptr;
  ks_set := Set_;
  ks_inv := ahm_wf
}.

#[export] Instance ahm_laws (V : Type) : KeyedStoreLaws (AtomicHashMap V) V.
Proof.
  constructor.
  - apply ahm_new_wf.
  - intros k. apply eq_None_not_Some. intros [p Hp].
    apply (Get_ptr_spec (@AtomicHashMap_new V)) in Hp as (i&b&e&Hb&He&_);
      [|apply ahm_new_wf].
    apply lookup_replicate in Hb as [-> _]. set_solver.
  - intros m k v. apply Set_wf.
  - intros m k v k' Hwf Hk _. by apply (Set_Get m k v k').
  - intros m k p Hwf (i&b&e&Hb&He&_&<-)%Get_ptr_spec; [|done]. by eapply wf_alloc.
  - intros m k p v. apply store_ptr_wf.
  - intros m k p v k' Hwf _ _ Hp. by apply (store_ptr_Get m k p v k').
Qed.

(** ** Main properties *)

(** Running a list of [Set(k, v)] calls on a map. *)
Definition set_all {V} (m : AtomicHashMap V) (ops : list (Z * V))
  : AtomicHashMap V := foldl (λ m kv, Set_ m kv.1 kv.2) m ops.

Lemma set_all_wf {V} (m : AtomicHashMap V) ops :
  ahm_wf m → Forall (λ kv, is_u64 kv.1) ops → ahm_wf (set_all m ops).
Proof.
  revert m. induction ops as [|[k v] ops IH]; intros m Hwf Hk; [done|].
  inversion Hk; subst. cbn. apply IH; [|done]. by apply Set_wf.
Qed.

Lemma set_all_Get {V} (m : AtomicHashMap V) ops k :
  ahm_wf m → Forall (λ kv, is_u64 kv.1) ops →
  Get (set_all m ops) k =
    match (list_to_map (reverse ops) : gmap Z V) !! k with
    | Some v => Some v
    | None => Get m k
    end.
Proof.
  revert m. induction ops as [|[k0 v0] ops IH] using rev_ind; intros m Hwf Hk.
  - done.
  - apply Forall_app in Hk as [Hk Hk0]. inversion Hk0; subst; cbn in *.
    unfold set_all in *. rewrite foldl_app, reverse_app. cbn.
    rewrite Set_Get by (done || by apply (set_all_wf m ops)).
    rewrite lookup_insert. case_decide; [done|]. by apply IH.
Qed.

(** [C29] A map built by any sequence of [Set] calls on 64-bit keys answers
    [Get] as the finite map those bindings define: the last value set for the
    key, and nothing for a key never set; [Has] agrees with [Get]; and the
    table keeps every chain sorted with each entry in its key's bucket. *)
Theorem ahm_refines_finite_map {V} (ops : list (Z * V)) :
  Forall (λ kv, is_u64 kv.1) ops →
  let m := set_all AtomicHashMap_new ops in
  ahm_wf m ∧
  (∀ k, Get m k = (list_to_map (reverse ops) : gmap Z V) !! k) ∧
  (∀ k, Has m k = bool_decide (is_Some (Get m k))).
Proof.
  intros Hk m.
  assert (ahm_wf m) as Hwf by (apply set_all_wf; [apply ahm_new_wf|done]).
  split; [done|]. split.
  - intros k. unfold m. rewrite set_all_Get by (apply ahm_new_wf || done).
    destruct (list_to_map _ !! k); [done|].
    exact (ks_empty_view (M := AtomicHashMap V) (V := V) k).
  - intros k. apply eq_bool_prop_intro. rewrite bool_decide_spec.
    rewrite Is_true_true, Has_Get_ptr by done.
    exact (ks_get_view (M := AtomicHashMap V) (V := V) m k Hwf).
Qed.

Lemma ahm_refines_finite_map_witness :
  Get (set_all AtomicHashMap_new [(1, 10); (129, 20); (1, 30)]) 1 = Some 30.
Proof.
  destruct (ahm_refines_finite_map [(1, 10); (129, 20); (1, 30)])
    as (_ & HG & _).
  - repeat constructor; unfold is_u64; cbn; lia.
  - rewrite HG. reflexivity.
Defined.

(** The pointer [Get(K, V** )] returns: a [Set] of another key leaves it
    valid, still the key's pointer and with its value; a [Set] of the same key
    replaces it and frees what it pointed to, so it must not be used again. *)
Theorem ahm_pointer_stability {V} (m : AtomicHashMap V) (k k' p : Z) (v : V) :
  ahm_wf m → is_u64 k → is_u64 k' → Get_ptr m k = Some p →
  (k ≠ k' → Get_ptr (Set_ m k' v) k = Some p ∧
            load_ptr (Set_ m k' v) p = load_ptr m p) ∧
  (Get_ptr (Set_ m k v) k ≠ Some p ∧ load_ptr (Set_ m k v) p = None).
Proof.
  intros Hwf Hk Hk' Hp.
  assert (p ≠ next_addr m) as Hne.
  { pose proof (ks_get_live (M := AtomicHashMap V) m k p Hwf Hp) as Hl.
    pose proof (wf_fresh m Hwf _ Hl). lia. }
  split.
  - intros Hkk. rewrite Set_Get_ptr by done. rewrite decide_False by done.
    split; [done|]. pose proof (Set_Get m k' v k Hwf Hk') as HG.
    rewrite decide_False in HG by done. unfold Get in HG.
    rewrite Set_Get_ptr, decide_False, Hp in HG by done. done.
  - rewrite Set_Get_ptr, decide_True by done. split; [congruence|].
    unfold load_ptr. rewrite Set_heap by done.
    rewrite decide_False by done. by rewrite decide_True.
Qed.

Lemma ahm_pointer_stability_witness :
  let m := Set_ (Set_ AtomicHashMap_new 5 50) 133 60 in
  load_ptr (Set_ m 5 51) 1 = None.
Proof.
  apply (ahm_pointer_stability _ 5 133 1 51).
  - apply Set_wf; [apply Set_wf; [apply ahm_new_wf|]|]; unfold is_u64; lia.
  - unfold is_u64; lia.
  - unfold is_u64; lia.
  - reflexivity.
Defined.
