(* ===== verification/CacheBuffer.v ===== *)
(** * CacheBuffer (cyber/data/cache_buffer.h)

    The ring buffer behind every reader: [capacity_ = size + 1] slots, counters
    [head_] and [tail_] that only grow, message number [p] (counted from 1) in
    slot [p % capacity_].  [T] is the element type (a [shared_ptr]), [F] the
    type of installed fusion callbacks. *)

From stdpp Require Import base numbers list.
From Stdlib Require Import ZArith Lia.
From S2P Require Import Prelude.

Open Scope Z_scope.

Record CacheBuffer (T F : Type) := mkCacheBuffer {
  head_ : Z;
  tail_ : Z;
  capacity_ : Z;
  buffer_ : list T;
  fusion_callback_ : option F
}.
Arguments mkCacheBuffer {T F} _ _ _ _ _.
Arguments head_ {T F} _.
Arguments tail_ {T F} _.
Arguments capacity_ {T F} _.
Arguments buffer_ {T F} _.
Arguments fusion_callback_ {T F} _.

Section ops.
Context {T F : Type}.
Implicit Types (b : CacheBuffer T F) (v : T) (pos : Z).

(** [CacheBuffer(uint64_t size)]: [buffer_.resize(capacity_)] fills the slots
    with the null pointer. *)
Definition CacheBuffer_new (null : T) (size : Z) : CacheBuffer T F :=
  let capacity := u64 (size + 1) in
  mkCacheBuffer 0 0 capacity (replicate (Z.to_nat capacity) null) None.

(** [CacheBuffer(const CacheBuffer& rhs)] copies every field. *)
Definition CacheBuffer_copy (rhs : CacheBuffer T F) : CacheBuffer T F :=
  mkCacheBuffer (head_ rhs) (tail_ rhs) (capacity_ rhs) (buffer_ rhs)
    (fusion_callback_ rhs).

Definition GetIndex (b : CacheBuffer T F) (pos : Z) : Z := pos mod capacity_ b.

(** [operator[]] and [at]. *)
Definition at_ (b : CacheBuffer T F) (pos : Z) : option T :=
  buffer_ b !! Z.to_nat (GetIndex b pos).

Definition Head (b : CacheBuffer T F) : Z := u64 (head_ b + 1).
Definition Tail (b : CacheBuffer T F) : Z := tail_ b.
Definition Size (b : CacheBuffer T F) : Z := u64 (tail_ b - head_ b).

Definition Front (b : CacheBuffer T F) : option T := at_ b (u64 (head_ b + 1)).
Definition Back (b : CacheBuffer T F) : option T := at_ b (tail_ b).

Definition Empty (b : CacheBuffer T F) : bool := tail_ b =? 0.
Definition Full (b : CacheBuffer T F) : bool :=
  u64 (capacity_ b - 1) =? u64 (tail_ b - head_ b).
Definition Capacity (b : CacheBuffer T F) : Z := capacity_ b.

Definition SetFusionCallback (b : CacheBuffer T F) (callback : F)
  : CacheBuffer T F :=
  mkCacheBuffer (head_ b) (tail_ b) (capacity_ b) (buffer_ b) (Some callback).

(** [buffer_[GetIndex(pos)] = v], the counters given. *)
Definition write_slot (b : CacheBuffer T F) (pos : Z) (v : T) (head tail : Z)
  : CacheBuffer T F :=
  mkCacheBuffer head tail (capacity_ b)
    (<[Z.to_nat (GetIndex b pos) := v]> (buffer_ b)) (fusion_callback_ b).

(** [Fill]: with a callback installed the value goes to the callback (the
    second component) and the ring is untouched; otherwise the value is written
    over the oldest slot when full and after the newest when not. *)
Definition Fill (b : CacheBuffer T F) (v : T) : CacheBuffer T F * option F :=
  match fusion_callback_ b with
  | Some f => (b, Some f)
  | None =>
      if Full b then
        (write_slot b (head_ b) v (u64 (head_ b + 1)) (u64 (tail_ b + 1)), None)
      else
        (write_slot b (u64 (tail_ b + 1)) v (head_ b) (u64 (tail_ b + 1)), None)
  end.

(** ** The buffer as a window on the messages received so far *)

(** [represents b hist]: [b] has received exactly the messages of [hist], in
    order, and retains the last [capacity_ - 1] of them, each in the slot of
    its number. *)
Record represents (b : CacheBuffer T F) (hist : list T) : Prop := {
  rep_cap : 0 < capacity_ b < 2 ^ 64;
  rep_len : Z.of_nat (length (buffer_ b)) = capacity_ b;
  rep_tail : tail_ b = Z.of_nat (length hist);
  rep_head : head_ b = Z.max 0 (tail_ b - (capacity_ b - 1));
  rep_bound : tail_ b < 2 ^ 64 - 1;
  rep_slots : ∀ p, head_ b < p ≤ tail_ b →
    buffer_ b !! ring_idx (capacity_ b) p = hist !! Z.to_nat (p - 1)
}.

(** The retained part of the history. *)
Definition window (b : CacheBuffer T F) (hist : list T) : list T :=
  drop (length hist - Z.to_nat (capacity_ b - 1))%nat hist.
End ops.

Section lemmas.
Context {T F : Type}.
Implicit Types (b : CacheBuffer T F) (v : T) (hist : list T).

Lemma CacheBuffer_new_represents (null : T) size :
  0 ≤ size < 2 ^ 64 - 1 → represents (CacheBuffer_new (F := F) null size) [].
Proof.
  intros Hs. unfold CacheBuffer_new. rewrite u64_small by (unfold is_u64; lia).
  constructor; cbn [capacity_ buffer_ tail_ head_ length]; try lia.
  rewrite length_replicate. lia.
Qed.

Lemma represents_Size b hist :
  represents b hist → Size b = Z.min (Z.of_nat (length hist)) (capacity_ b - 1).
Proof.
  intros H. unfold Size. pose proof (rep_cap _ _ H). pose proof (rep_bound _ _ H).
  rewrite (rep_head _ _ H), (rep_tail _ _ H) in *.
  rewrite u64_small by (unfold is_u64; lia). lia.
Qed.

Lemma represents_Empty b hist :
  represents b hist → Empty b = bool_decide (hist = []).
Proof.
  intros H. unfold Empty. rewrite (rep_tail _ _ H).
  destruct hist; [done|]. cbn [length].
  rewrite bool_decide_false by done. apply Z.eqb_neq. lia.
Qed.

Lemma represents_at b hist p :
  represents b hist → head_ b < p ≤ tail_ b →
  at_ b p = hist !! Z.to_nat (p - 1) ∧ is_Some (at_ b p).
Proof.
  intros H Hp. unfold at_, GetIndex.
  change (Z.to_nat (p mod capacity_ b)) with (ring_idx (capacity_ b) p).
  rewrite (rep_slots _ _ H p Hp). split; [done|].
  apply lookup_lt_is_Some_2. pose proof (rep_tail _ _ H).
  pose proof (rep_head _ _ H). lia.
Qed.

(** Writing message number [tail_ + 1] keeps the representation. *)
Lemma write_slot_represents b hist v pos head :
  represents b hist → Z.of_nat (length hist) + 1 < 2 ^ 64 - 1 →
  ring_idx (capacity_ b) pos = ring_idx (capacity_ b) (tail_ b + 1) →
  head = Z.max 0 (tail_ b + 1 - (capacity_ b - 1)) →
  represents (write_slot b pos v head (tail_ b + 1)) (hist ++ [v]).
Proof.
  intros H Hb Hpos Hh.
  pose proof (rep_cap _ _ H). pose proof (rep_head _ _ H) as Hhd.
  pose proof (rep_tail _ _ H) as Ht. pose proof (rep_len _ _ H).
  unfold write_slot.
  constructor; cbn [capacity_ buffer_ tail_ head_].
  - done.
  - rewrite length_insert. done.
  - rewrite length_app. cbn. lia.
  - lia.
  - lia.
  - unfold GetIndex. fold (ring_idx (capacity_ b) pos). rewrite Hpos.
    intros p Hp. destruct (decide (p = tail_ b + 1)) as [->|Hne].
    + rewrite list_lookup_insert_eq.
      * rewrite lookup_app_r by lia. by replace (_ - _)%nat with 0%nat by lia.
      * pose proof (ring_idx_lt (capacity_ b) ltac:(lia) (tail_ b + 1)). lia.
    + rewrite list_lookup_insert_ne.
      * rewrite lookup_app_l by lia. apply (rep_slots _ _ H). lia.
      * intros Heq. apply Hne. symmetry.
        apply (ring_idx_inj (capacity_ b) ltac:(lia)); [done|lia].
Qed.

Lemma Fill_represents b hist v :
  represents b hist → fusion_callback_ b = None →
  Z.of_nat (length hist) + 1 < 2 ^ 64 - 1 →
  represents (Fill b v).1 (hist ++ [v]) ∧ (Fill b v).2 = None ∧
  fusion_callback_ (Fill b v).1 = None ∧
  capacity_ (Fill b v).1 = capacity_ b.
Proof.
  intros H Hf Hb. unfold Fill. rewrite Hf.
  pose proof (rep_cap _ _ H). pose proof (rep_head _ _ H) as Hhd.
  pose proof (rep_tail _ _ H) as Ht.
  unfold Full. rewrite !u64_small by (unfold is_u64; lia).
  destruct (capacity_ b - 1 =? tail_ b - head_ b) eqn:E; zbool; cbn [fst snd].
  - split; [|done]. apply write_slot_represents; [done|done| |lia].
    replace (tail_ b + 1) with (head_ b + capacity_ b) by lia.
    symmetry. apply ring_idx_add. lia.
  - split; [|done]. apply write_slot_represents; [done|done|done|lia].
Qed.

(** Filling a list of messages, no callback installed. *)
Definition fill_all (b : CacheBuffer T F) (msgs : list T) : CacheBuffer T F :=
  foldl (λ b v, (Fill b v).1) b msgs.

Lemma fill_all_represents b hist msgs :
  represents b hist → fusion_callback_ b = None →
  Z.of_nat (length hist + length msgs) < 2 ^ 64 - 1 →
  represents (fill_all b msgs) (hist ++ msgs) ∧
  fusion_callback_ (fill_all b msgs) = None ∧
  capacity_ (fill_all b msgs) = capacity_ b.
Proof.
  revert b hist. induction msgs as [|v msgs IH]; intros b hist H Hf Hb.
  - by rewrite app_nil_r.
  - change (fill_all b (v :: msgs)) with (fill_all (Fill b v).1 msgs).
    cbn [length] in Hb.
    destruct (Fill_represents b hist v H Hf ltac:(lia)) as (H'&_&Hf'&Hc).
    destruct (IH _ _ H' Hf') as (H''&Hf''&Hc'').
    { rewrite length_app. cbn. lia. }
    rewrite <- app_assoc in H''. split; [done|]. split; [done|congruence].
Qed.
End lemmas.

(** A buffer of [size] messages, after receiving any list of messages,
    has received exactly those: its tail counts them, its size is the smaller
    of their number and [size], and position [p] between head and tail reads
    back the [p]-th message received - the last [size] messages and no other. *)
Theorem cache_buffer_window {T F} (null : T) (size : Z) (msgs : list T) :
  0 ≤ size < 2 ^ 64 - 1 → Z.of_nat (length msgs) < 2 ^ 64 - 1 →
  let b := fill_all (CacheBuffer_new (F := F) null size) msgs in
  Tail b = Z.of_nat (length msgs) ∧
  Size b = Z.min (Z.of_nat (length msgs)) size ∧
  (∀ p, Z.of_nat (length msgs) - size < p → 1 ≤ p ≤ Z.of_nat (length msgs) →
    at_ b p = msgs !! Z.to_nat (p - 1)) ∧
  (0 < size → msgs ≠ [] → Back b = last msgs).
Proof.
  intros Hs Hl b.
  destruct (fill_all_represents (CacheBuffer_new (F := F) null size) [] msgs)
    as (H&_&Hc).
  { by apply CacheBuffer_new_represents. } { done. } { cbn. lia. }
  rewrite app_nil_l in H. fold b in H, Hc.
  assert (capacity_ b = size + 1) as Hcap.
  { rewrite Hc. cbn. apply u64_small. unfold is_u64. lia. }
  pose proof (rep_tail _ _ H) as Ht. pose proof (rep_head _ _ H) as Hh.
  split; [done|]. split.
  { rewrite (represents_Size _ _ H), Hcap. f_equal. lia. }
  split.
  - intros p Hp Hp'. apply (represents_at b msgs p H). lia.
  - intros Hz Hm. unfold Back.
    destruct (represents_at b msgs (tail_ b) H) as [-> _].
    { assert (length msgs ≠ 0%nat) by (by intros ?%length_zero_iff_nil). lia. }
    rewrite Ht, last_lookup. f_equal. lia.
Qed.

Lemma cache_buffer_window_witness :
  at_ (fill_all (CacheBuffer_new (F := unit) 0 2) [7; 8; 9]) 3 = Some 9.
Proof.
  destruct (cache_buffer_window (F := unit) 0 2 [7; 8; 9]) as (_&_&H&_);
    [lia|cbn; lia|]. apply (H 3); cbn; lia.
Defined.
