(* ===== verification/ChannelBuffer.v ===== *)
(** * ChannelBuffer (cyber/data/channel_buffer.h)

    The reader's view of a [CacheBuffer]: fetch the next message after a
    private index, the latest message, or the last few.  Each operation runs
    under the buffer's mutex, so it is one step on the buffer. *)

From stdpp Require Import base numbers list.
From Stdlib Require Import ZArith Lia.
From S2P Require Import Prelude CacheBuffer.

Open Scope Z_scope.

Section ops.
Context {T F : Type}.
Implicit Types (b : CacheBuffer T F).

(** [Fetch(index, m)]: [None] when it returns false (index and message
    untouched), [Some (index', m)] when it returns true. *)
Definition Fetch (b : CacheBuffer T F) (index : Z) : option (Z * T) :=
  if Empty b then None
  else
    let read (i : Z) :=
      match at_ b i with Some m => Some (i, m) | None => None end in
    if index =? 0 then read (Tail b)
    else if index =? u64 (Tail b + 1) then None
    else if index <? Head b then read (Tail b)
    else read index.

(** [Latest(m)]. *)
Definition Latest (b : CacheBuffer T F) : option T :=
  if Empty b then None else Back b.

(** The loop of [FetchMulti]: [for (index; index <= Tail(); ++index)
    vec->emplace_back(at(index))].  [None] when the fuel runs out or a slot is
    missing. *)
Fixpoint fetch_loop (fuel : nat) (b : CacheBuffer T F) (index : Z)
    (vec : list T) : option (list T) :=
  if index <=? Tail b then
    match fuel with
    | O => None
    | S fuel =>
        match at_ b index with
        | Some m => fetch_loop fuel b (u64 (index + 1)) (vec ++ [m])
        | None => None
        end
    end
  else Some vec.

(** [FetchMulti(fetch_size, vec)]: [None] when it returns false; otherwise the
    vector afterwards.  The loop runs [num <= Size()] times. *)
Definition FetchMulti (b : CacheBuffer T F) (fetch_size : Z) (vec : list T)
  : option (list T) :=
  if Empty b then None
  else
    let num := Z.min (Size b) fetch_size in
    fetch_loop (Z.to_nat num) b (u64 (Tail b - num + 1)) vec.

Lemma Latest_spec b hist :
  represents b hist → 1 < capacity_ b → Latest b = last hist.
Proof.
  intros H Hc. unfold Latest. rewrite (represents_Empty _ _ H).
  case_bool_decide as Hh; [by subst|].
  assert (length hist ≠ 0%nat) by (by intros ?%length_zero_iff_nil).
  pose proof (rep_tail _ _ H) as Ht. pose proof (rep_head _ _ H).
  unfold Back. destruct (represents_at b hist (tail_ b) H) as [-> _]; [lia|].
  rewrite Ht, last_lookup. f_equal. lia.
Qed.

(** What [Fetch] does on each branch, in terms of the messages received. *)
Lemma Fetch_spec b hist index :
  represents b hist → 1 < capacity_ b →
  0 ≤ index ≤ Z.of_nat (length hist) + 1 →
  let n := Z.of_nat (length hist) in
  let oldest := Z.max 0 (n - (capacity_ b - 1)) + 1 in
  match Fetch b index with
  | None => hist = [] ∨ index = n + 1
  | Some (i, m) =>
      hist !! Z.to_nat (i - 1) = Some m ∧ oldest ≤ i ≤ n ∧
      i = if decide (index = 0 ∨ index < oldest) then n else index
  end.
Proof.
  intros H Hc Hi n oldest.
  pose proof (rep_tail _ _ H) as Ht. pose proof (rep_head _ _ H) as Hh.
  pose proof (rep_bound _ _ H) as Hb. pose proof (rep_cap _ _ H).
  unfold Fetch. rewrite (represents_Empty _ _ H).
  case_bool_decide as Hnil; [by left|].
  assert (length hist ≠ 0%nat) by (by intros ?%length_zero_iff_nil).
  assert (∀ p, oldest ≤ p ≤ n → ∃ m, at_ b p = Some m ∧
    hist !! Z.to_nat (p - 1) = Some m) as Hat.
  { intros p Hp. destruct (represents_at b hist p H) as [<- [m Hm]]; [lia|].
    eauto. }
  unfold Head, Tail. rewrite Ht in *. fold n in Hb, Hh |- *.
  rewrite !u64_small by (unfold is_u64; lia).
  destruct (index =? 0) eqn:E0; zbool.
  { destruct (Hat n) as (m&->&Hm); [lia|]. split; [done|].
    rewrite decide_True by lia. lia. }
  destruct (index =? n + 1) eqn:E1; zbool; [by right|].
  destruct (index <? head_ b + 1) eqn:E2; zbool.
  - destruct (Hat n) as (m&->&Hm); [lia|]. split; [done|].
    rewrite decide_True by lia. lia.
  - destruct (Hat index) as (m&->&Hm); [lia|]. split; [done|].
    rewrite decide_False by lia. lia.
Qed.

Lemma fetch_loop_spec b hist k index vec :
  represents b hist → Z.of_nat k + index = tail_ b + 1 → head_ b < index →
  fetch_loop k b index vec =
    Some (vec ++ drop (Z.to_nat (index - 1)) hist).
Proof.
  intros H. revert index vec. induction k as [|k IH]; intros index vec Hk Hi.
  - cbn. unfold Tail. destruct (index <=? tail_ b) eqn:E; zbool; [lia|].
    pose proof (rep_tail _ _ H). rewrite drop_ge by lia. by rewrite app_nil_r.
  - cbn [fetch_loop]. unfold Tail. destruct (index <=? tail_ b) eqn:E; zbool; [|lia].
    pose proof (rep_head _ _ H). pose proof (rep_bound _ _ H).
    destruct (represents_at b hist index H) as [Hat [m Hm]]; [lia|].
    rewrite Hm. rewrite u64_small by (unfold is_u64; lia).
    rewrite IH by lia. rewrite <- app_assoc. do 2 f_equal.
    rewrite Hat in Hm. rewrite (drop_S _ m (Z.to_nat (index - 1))) by done.
    cbn. do 2 f_equal. lia.
Qed.
End ops.

(** [FetchMulti] on a non-empty buffer appends to the vector the last
    [min(fetch_size, retained)] messages received, oldest first, and its loop
    terminates; on an empty buffer it returns false. *)
Theorem fetch_multi_last {T F} (b : CacheBuffer T F) hist fetch_size vec :
  represents b hist → 1 < capacity_ b → 0 ≤ fetch_size →
  FetchMulti b fetch_size vec =
    if decide (hist = []) then None
    else
      let num := Z.to_nat (Z.min fetch_size (capacity_ b - 1)) in
      Some (vec ++ drop (length hist - num)%nat hist).
Proof.
  intros H Hc Hf. unfold FetchMulti. rewrite (represents_Empty _ _ H).
  case_bool_decide as Hnil; [by rewrite decide_True|].
  rewrite decide_False by done.
  assert (length hist ≠ 0%nat) by (by intros ?%length_zero_iff_nil).
  pose proof (rep_tail _ _ H) as Ht. pose proof (rep_head _ _ H).
  pose proof (rep_bound _ _ H).
  rewrite (represents_Size _ _ H). unfold Tail.
  rewrite u64_small by (unfold is_u64; lia).
  rewrite (fetch_loop_spec b hist) by (done || lia).
  cbn zeta. do 3 f_equal. lia.
Qed.

Lemma fetch_multi_last_witness :
  FetchMulti (fill_all (CacheBuffer_new (F := unit) 0 2) [7; 8; 9]) 5 [] =
  Some [8; 9].
Proof.
  rewrite (fetch_multi_last _ [7; 8; 9]); [reflexivity| |reflexivity|lia].
  apply (fill_all_represents (CacheBuffer_new (F := unit) 0 2) [] [7; 8; 9]);
    [by apply CacheBuffer_new_represents|done|cbn; lia].
Defined.
