(* ===== verification/DataPath.v ===== *)
(** * DataPath: from a dispatched message to a component's inputs
    (cyber/data: data_notifier.h, data_dispatcher.h, fusion/all_latest.h,
    data_visitor_base.h, data_visitor.h)

    Buffers are shared: a [DataVisitor], the [AllLatest] fusion object built on
    it and the [DataDispatcher] of the message type all refer to the same
    [CacheBuffer].  The model keeps the buffers in a store and passes their
    identifiers around; a [weak_ptr] is an identifier that may be gone from the
    store.  The two channel tables are used through the [KeyedStore] interface. *)

From stdpp Require Import base numbers list gmap sorting.
From Stdlib Require Import ZArith Lia.
From S2P Require Import Prelude KeyedStore AtomicHashMap CacheBuffer ChannelBuffer.

Open Scope Z_scope.

(** A [shared_ptr] to a message: null, a message, or the tuple the fusion
    builds. *)
Inductive Ptr :=
| Null
| Msg (id : Z)
| Tuple (ms : list Ptr).

(** The closure [AllLatest] installs on [buffer_m0_]: it captures the buffers
    of the other channels and the fusion buffer. *)
Record FusionCallback := mkFusionCallback {
  fc_others : list Z;
  fc_fusion : Z
}.

Abbreviation Buffer := (CacheBuffer Ptr FusionCallback).
Abbreviation Store := (gmap Z Buffer).

(** ** Filling a buffer of the store *)

(** [ChannelBuffer::Latest] on each buffer in turn, stopping at the first that
    has nothing. *)
Fixpoint latest_all (σ : Store) (ids : list Z) : option (list Ptr) :=
  match ids with
  | [] => Some []
  | i :: ids' =>
      match σ !! i with
      | Some b =>
          match Latest b with
          | Some m =>
              match latest_all σ ids' with
              | Some ms => Some (m :: ms)
              | None => None
              end
          | None => None
          end
      | None => None
      end
  end.

(** The fusion callback: give up unless every other channel has a message;
    otherwise fill the fusion buffer with the tuple. *)
Definition fusion_callback (σ : Store) (f : FusionCallback) (m0 : Ptr) : Store :=
  match latest_all σ (fc_others f) with
  | None => σ
  | Some ms =>
      match σ !! fc_fusion f with
      | Some b => <[fc_fusion f := (Fill b (Tuple (m0 :: ms))).1]> σ
      | None => σ
      end
  end.

(** [buffer->Fill(msg)] on a buffer of the store. *)
Definition store_fill (σ : Store) (id : Z) (m : Ptr) : Store :=
  match σ !! id with
  | None => σ
  | Some b =>
      match Fill b m with
      | (b', None) => <[id := b']> σ
      | (_, Some f) => fusion_callback σ f m
      end
  end.

(** [AllLatest(buffer_0, buffer_1, ...)]: a fresh fusion buffer as large as the
    first one, and the callback set on the first. *)
Definition AllLatest_new (σ : Store) (b0 : Z) (others : list Z) (fusion : Z)
  : Store :=
  match σ !! b0 with
  | None => σ
  | Some b =>
      <[b0 := SetFusionCallback b (mkFusionCallback others fusion)]>
        (<[fusion := CacheBuffer_new Null (u64 (Capacity b - 1))]> σ)
  end.

(** [AllLatest::Fusion]: fetch from the fusion buffer and unpack the tuple. *)
Definition Fusion (σ : Store) (fusion : Z) (index : Z)
  : option (Z * list Ptr) :=
  match σ !! fusion with
  | None => None
  | Some b =>
      match Fetch b index with
      | Some (i, Tuple ms) => Some (i, ms)
      | _ => None
      end
  end.

Section channels.
Context {M : Type} `{KeyedStoreLaws M (list Z)}.

(** ** DataNotifier *)

(** [AddNotifier]: append to the channel's vector through the pointer, or set
    a one-element vector. *)
Definition AddNotifier (m : M) (channel_id notifier : Z) : M :=
  match ks_get m channel_id with
  | Some p =>
      match ks_load m p with
      | Some notifies => ks_store m p (notifies ++ [notifier])
      | None => m
      end
  | None => ks_set m channel_id [notifier]
  end.

(** The callbacks [Notify] runs for a vector of notifiers: those that exist and
    have a callback, in order. *)
Definition notify_calls (objs : gmap Z (option Z)) (notifies : list Z) : list Z :=
  omap (λ n, match objs !! n with Some (Some cb) => Some cb | _ => None end)
    notifies.

(** [Notify]: the callbacks run and the result. *)
Definition Notify (m : M) (objs : gmap Z (option Z)) (channel_id : Z)
  : list Z * bool :=
  match ks_get m channel_id with
  | Some p =>
      match ks_load m p with
      | Some notifies => (notify_calls objs notifies, true)
      | None => ([], true)
      end
  | None => ([], false)
  end.

(** ** DataDispatcher *)

(** [AddBuffer]. *)
Definition AddBuffer (m : M) (channel_id buffer : Z) : M :=
  match ks_get m channel_id with
  | Some p =>
      match ks_load m p with
      | Some buffers => ks_store m p (buffers ++ [buffer])
      | None => m
      end
  | None => ks_set m channel_id [buffer]
  end.

(** The state the data path shares: the buffers, the [DataDispatcher] of each
    message type, the [DataNotifier], the notifier objects with their
    callbacks, the callbacks run so far and the shutdown flag. *)
Record World := mkWorld {
  buffers : Store;
  dispatchers : gmap Z M;
  notifies_map_ : M;
  notifiers : gmap Z (option Z);
  called : list Z;
  is_shutdown : bool;
  next_id : Z
}.

Definition dispatcher (w : World) (ty : Z) : M :=
  default ks_empty (dispatchers w !! ty).

Definition set_buffers (w : World) (σ : Store) : World :=
  mkWorld σ (dispatchers w) (notifies_map_ w) (notifiers w) (called w)
    (is_shutdown w) (next_id w).

(** [DataDispatcher<ty>::Dispatch]. *)
Definition Dispatch (w : World) (ty channel_id : Z) (m : Ptr) : World * bool :=
  if is_shutdown w then (w, false)
  else
    match ks_get (dispatcher w ty) channel_id with
    | None => (w, false)
    | Some p =>
        let ids := default [] (ks_load (dispatcher w ty) p) in
        let σ := foldl (λ σ id, store_fill σ id m) (buffers w) ids in
        let '(calls, ok) := Notify (notifies_map_ w) (notifiers w) channel_id in
        (mkWorld σ (dispatchers w) (notifies_map_ w) (notifiers w)
           (called w ++ calls) (is_shutdown w) (next_id w), ok)
    end.

(** ** DataVisitor *)

Record VisitorConfig := mkVisitorConfig {
  msg_type : Z;
  channel_id : Z;
  queue_size : Z
}.

(** [next_msg_index_], the notifier and the buffer [TryFetch] reads. *)
Record DataVisitor := mkDataVisitor {
  next_msg_index_ : Z;
  notifier_ : Z;
  fetch_buffer : Z
}.

(** [new BufferType<M>(queue_size)] followed by [AddBuffer]. *)
Definition add_channel (w : World) (c : VisitorConfig) : World * Z :=
  let id := next_id w in
  (mkWorld (<[id := CacheBuffer_new Null (queue_size c)]> (buffers w))
     (<[msg_type c :=
        AddBuffer (dispatcher w (msg_type c)) (channel_id c) id]>
        (dispatchers w))
     (notifies_map_ w) (notifiers w) (called w) (is_shutdown w)
     (next_id w + 1), id).

(** [DataVisitorBase()]: a notifier without callback; then
    [data_notifier_->AddNotifier]. *)
Definition add_visitor_notifier (w : World) (chan : Z) : World * Z :=
  let n := next_id w in
  (mkWorld (buffers w) (dispatchers w) (AddNotifier (notifies_map_ w) chan n)
     (<[n := None]> (notifiers w)) (called w) (is_shutdown w)
     (next_id w + 1), n).

(** [DataVisitor<M0>(channel_id, queue_size)]. *)
Definition DataVisitor1_new (w : World) (c : VisitorConfig)
  : World * DataVisitor :=
  let '(w, b) := add_channel w c in
  let '(w, n) := add_visitor_notifier w (channel_id c) in
  (w, mkDataVisitor 0 n b).

(** The constructors with two to four channels: every channel's buffer, the
    notifier on the first channel, the fusion object. *)
Definition visitor_fused (w : World) (c0 : VisitorConfig)
    (cs : list VisitorConfig) : World * DataVisitor :=
  let '(w, b0) := add_channel w c0 in
  let '(w, others) :=
    foldl (λ acc c, let '(w, ids) := acc in
                    let '(w, id) := add_channel w c in (w, ids ++ [id]))
      (w, []) cs in
  let '(w, n) := add_visitor_notifier w (channel_id c0) in
  let fusion := next_id w in
  (mkWorld (AllLatest_new (buffers w) b0 others fusion) (dispatchers w)
     (notifies_map_ w) (notifiers w) (called w) (is_shutdown w)
     (next_id w + 1), mkDataVisitor 0 n fusion).

Definition DataVisitor2_new (w : World) (c0 c1 : VisitorConfig) :=
  visitor_fused w c0 [c1].
Definition DataVisitor3_new (w : World) (c0 c1 c2 : VisitorConfig) :=
  visitor_fused w c0 [c1; c2].
Definition DataVisitor4_new (w : World) (c0 c1 c2 c3 : VisitorConfig) :=
  visitor_fused w c0 [c1; c2; c3].

(** [RegisterNotifyCallback]. *)
Definition RegisterNotifyCallback (w : World) (v : DataVisitor) (cb : Z) : World :=
  mkWorld (buffers w) (dispatchers w) (notifies_map_ w)
    (<[notifier_ v := Some cb]> (notifiers w)) (called w) (is_shutdown w)
    (next_id w).

(** [TryFetch] with one channel. *)
Definition TryFetch1 (w : World) (v : DataVisitor) : option (DataVisitor * Ptr) :=
  match buffers w !! fetch_buffer v with
  | None => None
  | Some b =>
      match Fetch b (next_msg_index_ v) with
      | Some (i, m) =>
          Some (mkDataVisitor (u64 (i + 1)) (notifier_ v) (fetch_buffer v), m)
      | None => None
      end
  end.

(** [TryFetch] with several channels: the components of the fused tuple. *)
Definition TryFetchN (w : World) (v : DataVisitor)
  : option (DataVisitor * list Ptr) :=
  match Fusion (buffers w) (fetch_buffer v) (next_msg_index_ v) with
  | Some (i, ms) =>
      Some (mkDataVisitor (u64 (i + 1)) (notifier_ v) (fetch_buffer v), ms)
  | None => None
  end.

(** ** Registration *)

(** [AddBuffer] and [AddNotifier] are the same append on the channel's entry. *)
Lemma append_view (m : M) k x k' :
  ks_inv m → is_u64 k → is_u64 k' →
  let m' := match ks_get m k with
            | Some p => match ks_load m p with
                        | Some l => ks_store m p (l ++ [x])
                        | None => m
                        end
            | None => ks_set m k [x]
            end in
  ks_inv m' ∧
  ks_view m' k' = if decide (k = k') then Some (default [] (ks_view m k) ++ [x])
                  else ks_view m k'.
Proof.
  intros Hi Hk Hk'. cbn zeta.
  destruct (ks_get m k) as [p|] eqn:Hp.
  - destruct (ks_get_live m k p Hi Hp) as [l Hl]. rewrite Hl. split.
    + by eapply ks_store_inv.
    + rewrite (ks_store_view m k p) by done. unfold ks_view at 2.
      by rewrite Hp, Hl.
  - split; [by apply ks_set_inv|]. rewrite ks_set_view by done.
    unfold ks_view at 2. by rewrite Hp.
Qed.

Lemma AddBuffer_inv (m : M) k x :
  ks_inv m → is_u64 k → ks_inv (AddBuffer m k x).
Proof. intros Hi Hk. by destruct (append_view m k x k Hi Hk Hk). Qed.

Lemma AddNotifier_inv (m : M) k x :
  ks_inv m → is_u64 k → ks_inv (AddNotifier m k x).
Proof. exact (AddBuffer_inv m k x). Qed.

(** Registering a buffer (or a notifier) on a channel appends it to that
    channel's vector, creating the vector for a new channel, and leaves every
    other channel's vector as it was; the table's invariant is kept. *)
Theorem registration_appends (m : M) (k x k' : Z) :
  ks_inv m → is_u64 k → is_u64 k' →
  ks_inv (AddBuffer m k x) ∧ ks_inv (AddNotifier m k x) ∧
  ks_view (AddBuffer m k x) k' = ks_view (AddNotifier m k x) k' ∧
  ks_view (AddBuffer m k x) k' =
    if decide (k = k') then Some (default [] (ks_view m k) ++ [x])
    else ks_view m k'.
Proof.
  intros Hi Hk Hk'. destruct (append_view m k x k' Hi Hk Hk') as [Hinv Hv].
  split; [done|]. split; [done|]. split; [done|]. exact Hv.
Qed.

Lemma Notify_spec (m : M) objs ch :
  ks_inv m →
  Notify m objs ch = match ks_view m ch with
                     | Some l => (notify_calls objs l, true)
                     | None => ([], false)
                     end.
Proof.
  intros Hi. unfold Notify, ks_view.
  destruct (ks_get m ch) as [p|] eqn:Hp; [|done].
  by destruct (ks_get_live m ch p Hi Hp) as [l ->].
Qed.

Lemma Dispatch_spec (w : World) ty ch m :
  ks_inv (dispatcher w ty) → ks_inv (notifies_map_ w) →
  Dispatch w ty ch m =
    if is_shutdown w then (w, false)
    else match ks_view (dispatcher w ty) ch with
         | None => (w, false)
         | Some ids =>
             let '(calls, ok) := Notify (notifies_map_ w) (notifiers w) ch in
             (mkWorld (foldl (λ σ id, store_fill σ id m) (buffers w) ids)
                (dispatchers w) (notifies_map_ w) (notifiers w)
                (called w ++ calls) (is_shutdown w) (next_id w), ok)
         end.
Proof.
  intros Hd Hn. unfold Dispatch, ks_view. destruct (is_shutdown w); [done|].
  destruct (ks_get (dispatcher w ty) ch) as [p|] eqn:Hp; [|done].
  by destruct (ks_get_live _ ch p Hd Hp) as [l ->].
Qed.
End channels.

(** ** The buffer store *)

(** The fusion buffer a buffer forwards to, if it has a callback. *)
Definition fusion_target (σ : Store) (id : Z) : option Z :=
  match σ !! id with
  | Some b => fc_fusion <$> fusion_callback_ b
  | None => None
  end.

Lemma Fill_callback (b : Buffer) m :
  fusion_callback_ (Fill b m).1 = fusion_callback_ b.
Proof. unfold Fill. destruct (fusion_callback_ b) eqn:E; [done|]. by destruct (Full b). Qed.

Lemma store_fill_frame σ id m j :
  j ≠ id → fusion_target σ id ≠ Some j → store_fill σ id m !! j = σ !! j.
Proof.
  intros Hj Ht. unfold store_fill, fusion_target in *.
  destruct (σ !! id) as [b|] eqn:Hb; [|done].
  unfold Fill. destruct (fusion_callback_ b) as [f|] eqn:Hf; cbn in Ht.
  - unfold fusion_callback. destruct (latest_all σ (fc_others f)); [|done].
    destruct (σ !! fc_fusion f); [|done]. apply lookup_insert_ne. congruence.
  - destruct (Full b); by rewrite lookup_insert_ne.
Qed.

Lemma store_fill_callbacks σ id m j :
  fusion_callback_ <$> (store_fill σ id m !! j) = fusion_callback_ <$> (σ !! j).
Proof.
  unfold store_fill. destruct (σ !! id) as [b|] eqn:Hb; [|done].
  pose proof (Fill_callback b m) as Hc.
  destruct (Fill b m) as [b' [f|]]; cbn in Hc.
  - unfold fusion_callback. destruct (latest_all σ (fc_others f)) as [l|]; [|done].
    destruct (σ !! fc_fusion f) as [b2|] eqn:H2; [|done].
    rewrite lookup_insert. case_decide; subst; [|done].
    rewrite H2. cbn. by rewrite Fill_callback.
  - rewrite lookup_insert. case_decide; subst; [|done]. rewrite Hb. cbn. by rewrite Hc.
Qed.

Lemma store_fill_targets σ id m j :
  fusion_target (store_fill σ id m) j = fusion_target σ j.
Proof.
  unfold fusion_target. pose proof (store_fill_callbacks σ id m j) as H.
  destruct (store_fill σ id m !! j), (σ !! j); cbn in *; congruence.
Qed.

Lemma store_fill_plain σ id m b hist :
  σ !! id = Some b → fusion_callback_ b = None → represents b hist →
  Z.of_nat (length hist) + 1 < 2 ^ 64 - 1 →
  ∃ b', store_fill σ id m !! id = Some b' ∧ represents b' (hist ++ [m]) ∧
        fusion_callback_ b' = None ∧ capacity_ b' = capacity_ b.
Proof.
  intros Hb Hf Hr Hl. unfold store_fill. rewrite Hb.
  destruct (Fill_represents b hist m Hr Hf Hl) as (?&?&?&?).
  destruct (Fill b m) as [b' o]; cbn in *; subst.
  exists b'. by rewrite lookup_insert_eq.
Qed.

(** Delivering one message to a list of buffers. *)
Lemma fill_list_frame σ ids m j :
  j ∉ ids → (∀ i, i ∈ ids → fusion_target σ i ≠ Some j) →
  foldl (λ σ id, store_fill σ id m) σ ids !! j = σ !! j.
Proof.
  revert σ. induction ids as [|i ids IH]; intros σ Hj Ht; [done|]. cbn.
  rewrite IH.
  - apply store_fill_frame; [set_solver|]. apply Ht. set_solver.
  - set_solver.
  - intros i' Hi'. rewrite store_fill_targets. apply Ht. set_solver.
Qed.

Lemma fill_list_callbacks σ ids m j :
  fusion_callback_ <$> (foldl (λ σ id, store_fill σ id m) σ ids !! j) = fusion_callback_ <$> (σ !! j).
Proof.
  revert σ. induction ids as [|i ids IH]; intros σ; [done|]. cbn. rewrite IH. apply store_fill_callbacks.
Qed.

Lemma fill_list_delivers σ ids m j b hist :
  NoDup ids → j ∈ ids → (∀ i, i ∈ ids → fusion_target σ i ≠ Some j) →
  σ !! j = Some b → fusion_callback_ b = None → represents b hist →
  Z.of_nat (length hist) + 1 < 2 ^ 64 - 1 →
  ∃ b', foldl (λ σ id, store_fill σ id m) σ ids !! j = Some b' ∧
        represents b' (hist ++ [m]) ∧ fusion_callback_ b' = None ∧
        capacity_ b' = capacity_ b.
Proof.
  intros Hnd Hj. revert σ. induction ids as [|i ids IH]; [set_solver|].
  intros σ Ht Hb Hf Hr Hl. apply NoDup_cons in Hnd as [Hi Hnd]. cbn.
  apply elem_of_cons in Hj as [->|Hj].
  - destruct (store_fill_plain σ i m b hist Hb Hf Hr Hl) as (b'&Hb'&?).
    exists b'. split; [|done]. rewrite fill_list_frame; [done|done|].
    intros i' Hi'. rewrite store_fill_targets. apply Ht. set_solver.
  - apply IH; try done.
    + intros i' Hi'. rewrite store_fill_targets. apply Ht. set_solver.
    + rewrite store_fill_frame; [done|set_solver|]. apply Ht. set_solver.
Qed.

(** A world over [AtomicHashMap] tables for the closed examples: two readers of
    channel 7 (queue sizes 1 and 2), the first with callback 40. *)
Definition demo_world : World (M := AtomicHashMap (list Z)) :=
  let w := mkWorld ∅ ∅ ks_empty ∅ [] false 1 in
  let '(w, v) := DataVisitor1_new w (mkVisitorConfig 0 7 1) in
  let w := RegisterNotifyCallback w v 40 in
  (DataVisitor1_new w (mkVisitorConfig 0 7 2)).1.

Lemma demo_world_inv :
  ks_inv (dispatcher demo_world 0) ∧ ks_inv (notifies_map_ demo_world).
Proof.
  split.
  - change (ks_inv (AddBuffer (AddBuffer (ks_empty : AtomicHashMap (list Z)) 7 1) 7 3)).
    do 2 (apply AddBuffer_inv; [|unfold is_u64; lia]). apply ks_empty_inv.
  - change (ks_inv (AddNotifier (AddNotifier (ks_empty : AtomicHashMap (list Z)) 7 2) 7 4)).
    do 2 (apply AddNotifier_inv; [|unfold is_u64; lia]). apply ks_empty_inv.
Qed.

Lemma registration_appends_witness :
  ks_view (AddBuffer (ks_empty : AtomicHashMap (list Z)) 7 1) 7 = Some [1].
Proof.
  destruct (registration_appends (ks_empty : AtomicHashMap (list Z)) 7 1 7)
    as (_&_&_&->); [apply ks_empty_inv|unfold is_u64; lia|unfold is_u64; lia|].
  reflexivity.
Defined.

(** ** Fusion *)

Definition is_tuple (p : Ptr) : Prop :=
  match p with Tuple _ => True | _ => False end.

(** [holds σ id hist]: a plain buffer of at least one message with history
    [hist]. *)
Definition holds (σ : Store) (id : Z) (hist : list Ptr) : Prop :=
  ∃ b, σ !! id = Some b ∧ fusion_callback_ b = None ∧ 1 < capacity_ b ∧
       represents b hist.

(** A fused visitor's buffers: the first channel's buffer [b0] forwards to the
    fusion buffer [fb] (history [fh], tuples only) and the other channels'
    buffers have histories [hs]. *)
Record fused (b0 fb : Z) (others : list Z) (σ : Store)
    (hs : list (list Ptr)) (fh : list Ptr) : Prop := {
  fused_first : ∃ b, σ !! b0 = Some b ∧
    fusion_callback_ b = Some (mkFusionCallback others fb);
  fused_fusion : holds σ fb fh;
  fused_tuples : Forall is_tuple fh;
  fused_others : Forall2 (holds σ) others hs;
  fused_nodup : NoDup (b0 :: fb :: others)
}.

(** A message arriving on the first channel, or on the [i]-th other one. *)
Inductive delivery :=
| OnFirst (m : Ptr)
| OnOther (i : nat) (m : Ptr).

(** What the buffers do with it. *)
Definition deliver (b0 : Z) (others : list Z) (σ : Store) (d : delivery) : Store :=
  match d with
  | OnFirst m => store_fill σ b0 m
  | OnOther i m =>
      match others !! i with Some id => store_fill σ id m | None => σ end
  end.

(** The specification: the other channels remember what they received; a
    message on the first channel yields one tuple with the latest message of
    each other channel, or nothing while some channel has none. *)
Definition fuse_spec (s : list (list Ptr) * list Ptr) (d : delivery)
  : list (list Ptr) * list Ptr :=
  match d with
  | OnFirst m =>
      match mapM last s.1 with
      | Some xs => (s.1, s.2 ++ [Tuple (m :: xs)])
      | None => s
      end
  | OnOther i m => (alter (λ h, h ++ [m]) i s.1, s.2)
  end.

Lemma holds_Latest σ id h b :
  holds σ id h → σ !! id = Some b → Latest b = last h.
Proof.
  intros (b'&Hb'&_&Hc&Hr) Hb. assert (b' = b) as -> by congruence.
  by apply Latest_spec.
Qed.

Lemma latest_all_spec σ ids hs :
  Forall2 (holds σ) ids hs → latest_all σ ids = mapM last hs.
Proof.
  induction 1 as [|id h ids hs Hh _ IH]; [done|]. cbn.
  pose proof Hh as (b&Hb&_). rewrite Hb, (holds_Latest _ _ _ _ Hh Hb).
  destruct (last h); [|done]. cbn. rewrite IH. by destruct (mapM last hs).
Qed.

Lemma holds_frame σ σ' id h : σ' !! id = σ !! id → holds σ id h → holds σ' id h.
Proof. intros He (b&?&?). exists b. by rewrite He. Qed.

Lemma holds_all_frame σ σ' ids hs :
  (∀ id, id ∈ ids → σ' !! id = σ !! id) →
  Forall2 (holds σ) ids hs → Forall2 (holds σ') ids hs.
Proof.
  intros He Hh. induction Hh; constructor.
  - eapply holds_frame; [apply He; set_solver|done].
  - apply IHHh. intros id Hid. apply He. set_solver.
Qed.

Lemma holds_fill σ id h m :
  holds σ id h → Z.of_nat (length h) + 1 < 2 ^ 64 - 1 →
  holds (store_fill σ id m) id (h ++ [m]).
Proof.
  intros (b&Hb&Hf&Hc&Hr) Hl.
  destruct (store_fill_plain σ id m b h Hb Hf Hr Hl) as (b'&?&?&?&?).
  exists b'. split; [done|]. split; [done|]. split; [lia|done].
Qed.

(** Filling a plain buffer touches no other buffer. *)
Lemma holds_fill_other σ id h m j :
  holds σ id h → j ≠ id → store_fill σ id m !! j = σ !! j.
Proof.
  intros (b&Hb&Hf&_) Hj. apply store_fill_frame; [done|].
  unfold fusion_target. rewrite Hb, Hf. done.
Qed.

(** ** Dispatching *)

(** Among buffers filled in turn, one with a fusion callback forwards the message: its
    fusion buffer gets the tuple with the latest message of each other channel. *)
Lemma fill_list_fuses σ ids m j b others fb hs fh :
  NoDup ids → j ∈ ids → σ !! j = Some b → fusion_callback_ b = Some (mkFusionCallback others fb) →
  Forall2 (holds σ) others hs → holds σ fb fh → Z.of_nat (length fh) + 1 < 2 ^ 64 - 1 →
  (∀ i, i ∈ fb :: others → i ∉ ids) →
  (∀ i o, i ∈ ids → i ≠ j → o ∈ fb :: others → fusion_target σ i ≠ Some o) →
  holds (foldl (λ σ id, store_fill σ id m) σ ids) fb
    match mapM last hs with Some xs => fh ++ [Tuple (m :: xs)] | None => fh end.
Proof.
  intros Hnd Hj Hb Hf Hoth Hfb Hl Hout Htar.
  apply list_elem_of_split in Hj as (l1 & l2 & ->). apply NoDup_app in Hnd as (Hn1 & Hn12 & Hn2).
  apply NoDup_cons in Hn2 as [Hj2 Hn2].
  assert (j ∉ l1) as Hj1 by (intros Hx; specialize (Hn12 j Hx); set_solver).
  rewrite foldl_app. cbn [foldl]. set (σ1 := foldl _ σ l1).
  assert (∀ i, i ∈ fb :: others → σ1 !! i = σ !! i) as Hσ1.
  { intros o Ho. apply fill_list_frame; [specialize (Hout o Ho); set_solver|].
    intros i Hi. apply Htar; [set_solver|intros ->; done|done]. }
  assert (∃ b1, σ1 !! j = Some b1 ∧ fusion_callback_ b1 = Some (mkFusionCallback others fb)) as (b1 & Hb1 & Hf1).
  { pose proof (fill_list_callbacks σ l1 m j) as H. fold σ1 in H. rewrite Hb in H. cbn in H.
    destruct (σ1 !! j) as [b1|]; [|done]. exists b1. split; [done|]. cbn in H. congruence. }
  assert (holds (store_fill σ1 j m) fb match mapM last hs with Some xs => fh ++ [Tuple (m :: xs)] | None => fh end) as H2.
  { unfold store_fill. rewrite Hb1. unfold Fill. rewrite Hf1. unfold fusion_callback. cbn.
    rewrite (latest_all_spec σ1 others hs); [|eapply holds_all_frame; [|done]; intros i Hi; apply Hσ1; set_solver].
    assert (holds σ1 fb fh) as Hfb1 by (eapply holds_frame; [apply Hσ1; set_solver|done]).
    destruct (mapM last hs) as [xs|]; [|done]. pose proof Hfb1 as (bf & Hbf & Hcf & _ & _). rewrite Hbf.
    pose proof (holds_fill σ1 fb fh (Tuple (m :: xs)) Hfb1 Hl) as H. unfold store_fill in H. rewrite Hbf in H.
    unfold Fill in *. rewrite Hcf in *. by destruct (Full bf). }
  eapply holds_frame; [|exact H2]. apply fill_list_frame; [pose proof (Hout fb ltac:(set_solver)); set_solver|].
  intros i Hi. rewrite store_fill_targets. fold σ1. assert (fusion_target σ1 i = fusion_target σ i) as ->.
  { unfold fusion_target. pose proof (fill_list_callbacks σ l1 m i) as H. fold σ1 in H.
    destruct (σ1 !! i), (σ !! i); cbn in *; congruence. }
  apply Htar; [set_solver|intros ->; done|set_solver].
Qed.

(** [C4] [Dispatch] on a channel that has registered buffers, before shutdown: a live
    buffer registered for the channel that is a reader's own receives the message exactly
    once, at the end of its history; one that is the first of a fused reader's forwards
    it: the reader's fusion buffer receives exactly once the tuple of the message and the
    latest one of each other channel, and nothing while one of these has none; every
    buffer that is neither registered nor a fusion buffer of a registered one is
    untouched; the callbacks of the channel's notifiers run in registration order; and
    the result is whether the channel has notifiers.  After shutdown, or on a channel
    nobody registered, nothing changes and the result is false. *)
Theorem dispatch_delivers {M} `{KeyedStoreLaws M (list Z)}
    (w : World (M := M)) (ty ch : Z) (m : Ptr) :
  ks_inv (dispatcher w ty) → ks_inv (notifies_map_ w) →
  match Dispatch w ty ch m with
  | (w', ok) =>
      match is_shutdown w, ks_view (dispatcher w ty) ch with
      | false, Some ids =>
          NoDup ids →
          (∀ j b hist, j ∈ ids → buffers w !! j = Some b →
            fusion_callback_ b = None → represents b hist →
            (∀ i, i ∈ ids → fusion_target (buffers w) i ≠ Some j) →
            Z.of_nat (length hist) + 1 < 2 ^ 64 - 1 →
            ∃ b', buffers w' !! j = Some b' ∧ represents b' (hist ++ [m])) ∧
          (∀ j b others fb hs fh, j ∈ ids → buffers w !! j = Some b →
            fusion_callback_ b = Some (mkFusionCallback others fb) →
            Forall2 (holds (buffers w)) others hs → holds (buffers w) fb fh →
            Z.of_nat (length fh) + 1 < 2 ^ 64 - 1 →
            (∀ i, i ∈ fb :: others → i ∉ ids) →
            (∀ i o, i ∈ ids → i ≠ j → o ∈ fb :: others → fusion_target (buffers w) i ≠ Some o) →
            holds (buffers w') fb
              match mapM last hs with Some xs => fh ++ [Tuple (m :: xs)] | None => fh end) ∧
          (∀ j, j ∉ ids →
            (∀ i, i ∈ ids → fusion_target (buffers w) i ≠ Some j) →
            buffers w' !! j = buffers w !! j) ∧
          called w' = called w ++
            notify_calls (notifiers w) (default [] (ks_view (notifies_map_ w) ch)) ∧
          ok = bool_decide (is_Some (ks_view (notifies_map_ w) ch))
      | _, _ => w' = w ∧ ok = false
      end
  end.
Proof.
  intros Hd Hn. rewrite Dispatch_spec, Notify_spec by done.
  destruct (is_shutdown w) eqn:Es; [done|].
  destruct (ks_view (dispatcher w ty) ch) as [ids|] eqn:Ev; [|done].
  destruct (ks_view (notifies_map_ w) ch) as [l|]; cbn [fst snd];
    (intros Hnd; split; [|split; [|split; [|split]]]); cbn [buffers called default];
    try (by intros; by apply fill_list_frame); try done;
    try (intros j b others fb hs fh; intros; by eapply fill_list_fuses);
    intros j b hist Hj Hb Hf Hr Ht Hl;
    destruct (fill_list_delivers (buffers w) ids m j b hist) as (b'&?&?&_);
    eauto.
Qed.

(** A reader of channel 7, and one of the channels 7 and 8, after a message on 8. *)
Definition fused_world : World (M := AtomicHashMap (list Z)) :=
  let w := (DataVisitor1_new (mkWorld ∅ ∅ ks_empty ∅ [] false 1) (mkVisitorConfig 0 7 1)).1 in
  let w := (DataVisitor2_new w (mkVisitorConfig 0 7 2) (mkVisitorConfig 0 8 2)).1 in
  (Dispatch w 0 8 (Msg 4)).1.

Lemma fused_world_inv : ks_inv (dispatcher fused_world 0) ∧ ks_inv (notifies_map_ fused_world).
Proof.
  split.
  - change (ks_inv (AddBuffer (AddBuffer (AddBuffer (ks_empty : AtomicHashMap (list Z)) 7 1) 7 3) 8 4)).
    do 3 (apply AddBuffer_inv; [|unfold is_u64; lia]). apply ks_empty_inv.
  - change (ks_inv (AddNotifier (AddNotifier (ks_empty : AtomicHashMap (list Z)) 7 2) 7 5)).
    do 2 (apply AddNotifier_inv; [|unfold is_u64; lia]). apply ks_empty_inv.
Qed.

Lemma dispatch_delivers_witness :
  (∃ b', buffers (Dispatch fused_world 0 7 (Msg 5)).1 !! 1 = Some b' ∧ represents b' [Msg 5]) ∧
  holds (buffers (Dispatch fused_world 0 7 (Msg 5)).1) 6 [Tuple [Msg 5; Msg 4]].
Proof.
  pose proof (dispatch_delivers fused_world 0 7 (Msg 5)
    (proj1 fused_world_inv) (proj2 fused_world_inv)) as Hd.
  destruct (Dispatch fused_world 0 7 (Msg 5)) as [w' ok].
  change (is_shutdown fused_world) with false in Hd.
  change (ks_view (dispatcher fused_world 0) 7) with (Some [1; 3]) in Hd.
  destruct Hd as (Hplain & Hfused & _); [by apply (bool_decide_unpack _); vm_compute|]. split.
  - apply (Hplain 1 (CacheBuffer_new Null 1) []).
    + by apply (bool_decide_unpack _).
    + reflexivity.
    + reflexivity.
    + apply CacheBuffer_new_represents. lia.
    + clear. intros i Hi. apply elem_of_cons in Hi as [->|Hi%list_elem_of_singleton]; [by vm_compute|subst; by vm_compute].
    + cbn; lia.
  - apply (Hfused 3 (SetFusionCallback (CacheBuffer_new Null 2) (mkFusionCallback [4] 6)) [4] 6 [[Msg 4]] []).
    + by apply (bool_decide_unpack _).
    + vm_compute. reflexivity.
    + reflexivity.
    + constructor; [|constructor]. exists (Fill (CacheBuffer_new Null 2) (Msg 4)).1.
      split; [vm_compute; reflexivity|]. split; [reflexivity|]. split; [by vm_compute|].
      apply (Fill_represents _ []); [apply CacheBuffer_new_represents; lia|reflexivity|cbn; lia].
    + exists (CacheBuffer_new Null 2). split; [vm_compute; reflexivity|]. split; [reflexivity|].
      split; [by vm_compute|]. apply CacheBuffer_new_represents. lia.
    + cbn; lia.
    + clear. intros i Hi. apply elem_of_cons in Hi as [->|Hi%list_elem_of_singleton]; subst; by apply (bool_decide_unpack _).
    + clear. intros i o Hi Hne Ho. apply elem_of_cons in Hi as [->|Hi%list_elem_of_singleton]; [by vm_compute|done].
Defined.

(** ** The fused reader *)

Lemma fused_first_step b0 fb others σ hs fh m :
  fused b0 fb others σ hs fh → Z.of_nat (length fh) + 1 < 2 ^ 64 - 1 →
  let s := fuse_spec (hs, fh) (OnFirst m) in
  fused b0 fb others (store_fill σ b0 m) s.1 s.2.
Proof.
  intros [(b&Hb&Hf) Hfb Htup Hoth Hnd] Hl. cbn.
  unfold store_fill. rewrite Hb. unfold Fill. rewrite Hf.
  unfold fusion_callback. cbn. rewrite (latest_all_spec _ _ _ Hoth).
  destruct (mapM last hs) as [xs|]; cbn; [|by constructor; eauto].
  pose proof Hfb as (bf&Hbf&Hcf&_&_). rewrite Hbf.
  set (σ' := <[fb := _]> σ).
  assert (σ' = store_fill σ fb (Tuple (m :: xs))) as Hσ'.
  { unfold σ', store_fill. rewrite Hbf. unfold Fill. rewrite Hcf.
    by destruct (Full bf). }
  rewrite !NoDup_cons in Hnd. constructor.
  - exists b. split; [|done]. unfold σ'. rewrite lookup_insert_ne; [done|set_solver].
  - rewrite Hσ'. by apply holds_fill.
  - apply Forall_app. by repeat constructor.
  - eapply holds_all_frame; [|done]. intros id Hid. unfold σ'.
    rewrite lookup_insert_ne; [done|set_solver].
  - by rewrite !NoDup_cons.
Qed.

Lemma fused_other_step b0 fb others σ hs fh i m :
  fused b0 fb others σ hs fh →
  Forall (λ h, Z.of_nat (length h) + 1 < 2 ^ 64 - 1) hs →
  let s := fuse_spec (hs, fh) (OnOther i m) in
  fused b0 fb others (deliver b0 others σ (OnOther i m)) s.1 s.2.
Proof.
  intros Hfu Hl. pose proof Hfu as [(b&Hb&Hf) Hfb Htup Hoth Hnd]. cbn.
  destruct (others !! i) as [id|] eqn:Hid.
  - destruct (Forall2_lookup_l _ _ _ _ _ Hoth Hid) as (h&Hh&Hho).
    pose proof (list_elem_of_lookup_2 _ _ _ Hid) as Hin.
    pose proof Hnd as Hnd'. rewrite !NoDup_cons in Hnd'.
    destruct Hnd' as (Hn0&Hn1&Hn2).
    assert (∀ j, j ≠ id → store_fill σ id m !! j = σ !! j) as Hfr
      by (intros j Hj; by eapply holds_fill_other).
    constructor.
    + exists b. rewrite Hfr; [done|set_solver].
    + eapply holds_frame; [apply Hfr; set_solver|done].
    + done.
    + apply Forall2_same_length_lookup. split.
      { rewrite length_alter. by eapply Forall2_length. }
      intros j id' h' Hj Hh'. destruct (decide (j = i)) as [->|Hji].
      * rewrite list_lookup_alter_eq, Hh in Hh'. injection Hh' as <-.
        assert (id' = id) as -> by congruence. apply holds_fill; [done|].
        by eapply (Forall_lookup_1 _ _ _ _ Hl).
      * rewrite list_lookup_alter_ne in Hh' by done.
        eapply holds_frame; [apply Hfr|].
        { intros ->. apply Hji. by eapply NoDup_lookup. }
        by eapply (Forall2_lookup_lr _ _ _ _ _ _ Hoth).
    + done.
  - assert (alter (λ h, h ++ [m]) i hs = hs) as ->; [|done].
    apply list_eq. intros j. rewrite list_lookup_alter.
    case_decide as Hj; [|done]. subst j. rewrite lookup_ge_None_2; [done|].
    apply lookup_ge_None in Hid. by rewrite <- (Forall2_length _ _ _ Hoth).
Qed.

(** Room for [n] more messages in every history. *)
Definition room (n : nat) (s : list (list Ptr) * list Ptr) : Prop :=
  Forall (λ h, Z.of_nat (length h + n) < 2 ^ 64 - 1) s.1 ∧
  Z.of_nat (length s.2 + n) < 2 ^ 64 - 1.

Lemma room_step n s d : room (S n) s → room n (fuse_spec s d).
Proof.
  intros [Hhs Hfh]. destruct d as [m|i m]; cbn.
  - destruct (mapM last s.1); cbn; split; cbn;
      try (eapply Forall_impl; [exact Hhs|]; cbn; lia); try lia.
    rewrite length_app. cbn. lia.
  - split; cbn; [|lia]. apply Forall_lookup. intros j h. rewrite list_lookup_alter.
    case_decide.
    + subst j. destruct (s.1 !! i) as [h0|] eqn:E; [|done]. intros [= <-].
      pose proof (Forall_lookup_1 _ _ _ _ Hhs E) as Hh. cbn in Hh.
      rewrite length_app. cbn. lia.
    + intros E. pose proof (Forall_lookup_1 _ _ _ _ Hhs E) as Hh. cbn in Hh. lia.
Qed.

Lemma fused_step b0 fb others σ s d n :
  fused b0 fb others σ s.1 s.2 → room (S n) s →
  fused b0 fb others (deliver b0 others σ d) (fuse_spec s d).1 (fuse_spec s d).2.
Proof.
  intros Hf [Hhs Hfh]. destruct s as [hs fh]. destruct d as [m|i m].
  - apply fused_first_step; [done|]. cbn in *. lia.
  - apply (fused_other_step b0 fb others σ hs fh i m Hf).
    eapply Forall_impl; [exact Hhs|]. cbn. lia.
Qed.

Lemma fused_steps b0 fb others ds : ∀ σ s,
  fused b0 fb others σ s.1 s.2 → room (length ds) s →
  let s' := foldl fuse_spec s ds in
  fused b0 fb others (foldl (deliver b0 others) σ ds) s'.1 s'.2.
Proof.
  induction ds as [|d ds IH]; intros σ s Hf Hr; [done|]. cbn.
  apply IH; [by eapply fused_step|by apply room_step].
Qed.

(** [AllLatest]'s constructor on fresh buffers. *)
Lemma AllLatest_new_fused σ b0 fb others :
  NoDup (b0 :: fb :: others) → Forall (λ id, holds σ id []) (b0 :: others) →
  fused b0 fb others (AllLatest_new σ b0 others fb) ((λ _, []) <$> others) [].
Proof.
  intros Hnd Hh. inversion_clear Hh as [|? ? (b&Hb&_&Hc&Hr) Ho].
  pose proof Hnd as Hnd'. rewrite !NoDup_cons in Hnd'. destruct Hnd' as (Hn0&Hn1&_).
  unfold AllLatest_new, Capacity. rewrite Hb.
  pose proof (rep_cap _ _ Hr).
  rewrite u64_small by (unfold is_u64; lia). constructor.
  - rewrite lookup_insert_eq. eexists. split; [done|done].
  - exists (CacheBuffer_new Null (capacity_ b - 1)).
    rewrite lookup_insert_ne by set_solver. rewrite lookup_insert_eq.
    split; [done|]. split; [done|]. split.
    + cbn. rewrite u64_small by (unfold is_u64; lia). lia.
    + apply CacheBuffer_new_represents. lia.
  - constructor.
  - apply Forall2_fmap_r, Forall_Forall2_diag, Forall_forall. intros id Hid.
    rewrite Forall_forall in Ho. eapply holds_frame; [|by apply Ho].
    rewrite !lookup_insert_ne; [done|set_solver|set_solver].
  - done.
Qed.

(** [C5] The fusion refines its specification: from freshly built buffers,
    after any interleaving of deliveries on the first and the other channels,
    the fusion buffer has received exactly the tuples the specification
    computes - one per first-channel message that arrived when every other
    channel had a message, carrying that message and the latest of each other
    channel at that time - and [Fusion] reads them by number. *)
Theorem all_latest_refines (σ : Store) (b0 fb : Z) (others : list Z)
    (ds : list delivery) :
  NoDup (b0 :: fb :: others) → Forall (λ id, holds σ id []) (b0 :: others) →
  Z.of_nat (length ds) < 2 ^ 64 - 1 →
  let σ' := foldl (deliver b0 others) (AllLatest_new σ b0 others fb) ds in
  let fh := (foldl fuse_spec ((λ _, []) <$> others, []) ds).2 in
  holds σ' fb fh ∧
  ∀ index, 0 ≤ index ≤ Z.of_nat (length fh) + 1 →
    match Fusion σ' fb index with
    | Some (i, ms) =>
        fh !! Z.to_nat (i - 1) = Some (Tuple ms) ∧
        (index = 0 → i = Z.of_nat (length fh)) ∧ index ≤ i
    | None => fh = [] ∨ index = Z.of_nat (length fh) + 1
    end.
Proof.
  intros Hnd Hh Hl σ' fh.
  pose proof (fused_steps b0 fb others ds _ ((λ _, []) <$> others, [])
    (AllLatest_new_fused σ b0 fb others Hnd Hh)) as Hf.
  assert (room (length ds) (((λ _, []) <$> others, []))) as Hroom.
  { split; [|cbn; lia]. apply Forall_fmap, Forall_true. intros ?. cbn. lia. }
  specialize (Hf Hroom). fold σ' fh in Hf. destruct Hf as [_ Hfb Htup _ _].
  split; [done|]. intros index Hi. pose proof Hfb as (b&Hb&_&Hc&Hr).
  unfold Fusion. rewrite Hb. pose proof (Fetch_spec b fh index Hr Hc Hi) as HF.
  destruct (Fetch b index) as [[i p]|]; [|done].
  destruct HF as (Hp&Hi'&Hidx).
  pose proof (Forall_lookup_1 _ _ _ _ Htup Hp) as Ht.
  destruct p as [| |ms]; [done..|]. split; [done|].
  case_decide; [lia|]. split; [lia|]. lia.
Qed.

Lemma all_latest_refines_witness :
  let σ := <[1 := CacheBuffer_new Null 4]> (<[2 := CacheBuffer_new Null 1]> ∅) in
  let ds := [OnFirst (Msg 1); OnOther 0 (Msg 2); OnFirst (Msg 3)] in
  holds (foldl (deliver 1 [2]) (AllLatest_new σ 1 [2] 3) ds) 3
    [Tuple [Msg 3; Msg 2]].
Proof.
  intros σ ds.
  refine (proj1 (all_latest_refines σ 1 3 [2] ds _ _ _)).
  - apply (bool_decide_unpack _). by vm_compute.
  - repeat constructor;
      (eexists; split; [reflexivity|]; split; [reflexivity|];
       split; [reflexivity|]; apply CacheBuffer_new_represents; lia).
  - cbn. lia.
Defined.

(** ** Delivery order at a single-channel visitor *)

(** The visitor's buffer receives a message, or the visitor polls. *)
Inductive visit_op :=
| Arrive (m : Ptr)
| Poll.

(** Running the operations in a world: a message arrives at the visitor's
    buffer, or the visitor polls with [TryFetch]; the last component records
    what was fetched, as (message number, message). *)
Definition visit_step {M} (s : World (M := M) * DataVisitor * list (Z * Ptr))
    (o : visit_op) : World (M := M) * DataVisitor * list (Z * Ptr) :=
  let '(w, v, got) := s in
  match o with
  | Arrive m =>
      (set_buffers w (store_fill (buffers w) (fetch_buffer v) m), v, got)
  | Poll =>
      match TryFetch1 w v with
      | Some (v', m) => (w, v', got ++ [(next_msg_index_ v' - 1, m)])
      | None => s
      end
  end.

Definition arrived (ops : list visit_op) : list Ptr :=
  omap (λ o, match o with Arrive m => Some m | Poll => None end) ops.

(** What holds of the buffer [b], the index [next] and the messages [got]
    between operations, [hist] being the messages that arrived. *)
Record visit_inv (size : Z) (b : Buffer) (next : Z) (got : list (Z * Ptr))
    (hist : list Ptr) : Prop := {
  vi_rep : represents b hist;
  vi_plain : fusion_callback_ b = None;
  vi_cap : capacity_ b = size + 1;
  vi_size : 0 < size;
  vi_next : 0 ≤ next ≤ Z.of_nat (length hist) + 1;
  vi_first : next = 0 → got = [];
  vi_msgs : Forall (λ im, 1 ≤ im.1 ∧ hist !! Z.to_nat (im.1 - 1) = Some im.2) got;
  vi_lt : 0 < next → Forall (λ im, im.1 < next) got;
  vi_sorted : StronglySorted Z.lt (fst <$> got)
}.

Lemma visit_arrive size b next got hist m :
  visit_inv size b next got hist → Z.of_nat (length hist) + 1 < 2 ^ 64 - 1 →
  visit_inv size (Fill b m).1 next got (hist ++ [m]).
Proof.
  intros [Hr Hp Hc Hsz Hn H0 Hm Hlt Hs] Hl.
  destruct (Fill_represents b hist m Hr Hp Hl) as (Hr'&_&Hp'&Hc').
  constructor; try done; try lia.
  - rewrite length_app. cbn. lia.
  - eapply Forall_impl; [exact Hm|]. intros [i x] [Hi Hx]; cbn in *.
    split; [done|]. by apply lookup_app_l_Some.
Qed.

Lemma visit_poll size b next got hist i m :
  visit_inv size b next got hist → Fetch b next = Some (i, m) →
  u64 (i + 1) = i + 1 ∧ visit_inv size b (i + 1) (got ++ [(i, m)]) hist.
Proof.
  intros [Hr Hp Hc Hsz Hn H0 Hm Hlt Hs] HF'.
  pose proof (Fetch_spec b hist next Hr ltac:(lia) Hn) as HF. rewrite HF' in HF.
  destruct HF as (Hi&Hrange&Hidx).
  pose proof (rep_bound _ _ Hr). rewrite (rep_tail _ _ Hr) in *.
  split; [apply u64_small; unfold is_u64; lia|].
  assert (Forall (λ im, im.1 < i) got) as Hgot.
  { destruct (decide (next = 0)) as [Hz|Hz]; [rewrite H0 by done; constructor|].
    eapply Forall_impl; [apply Hlt; lia|]. cbn. intros ? ?. case_decide; lia. }
  constructor; try done; try lia.
  - apply Forall_app. split; [done|]. repeat constructor; cbn; [lia|done].
  - intros _. apply Forall_app. split.
    + eapply Forall_impl; [exact Hgot|]. cbn. lia.
    + repeat constructor. cbn. lia.
  - rewrite fmap_app. apply StronglySorted_app. split; [|split; [done|]].
    + intros x y Hx Hy. apply list_elem_of_fmap in Hx as (im&->&Him).
      cbn in Hy. apply list_elem_of_singleton in Hy as ->.
      rewrite Forall_forall in Hgot. by apply Hgot.
    + repeat constructor.
Qed.

(** The invariant in a world. *)
Definition visit_world_inv {M} (size : Z)
    (s : World (M := M) * DataVisitor * list (Z * Ptr))
    (hist : list Ptr) : Prop :=
  let '(w, v, got) := s in
  ∃ b, buffers w !! fetch_buffer v = Some b ∧
       visit_inv size b (next_msg_index_ v) got hist.

Lemma visit_run {M} size ops : ∀ (s : World (M := M) * DataVisitor * list (Z * Ptr)) hist,
  visit_world_inv size s hist → Z.of_nat (length hist + length ops) < 2 ^ 64 - 1 →
  visit_world_inv size (foldl visit_step s ops) (hist ++ arrived ops).
Proof.
  induction ops as [|o ops IH]; intros [[w v] got] hist (b&Hb&Hv) Hl; cbn in Hl.
  { cbn. rewrite app_nil_r. by exists b. }
  change (foldl visit_step (w, v, got) (o :: ops))
    with (foldl visit_step (visit_step (w, v, got) o) ops).
  destruct o as [m|].
  - change (arrived (Arrive m :: ops)) with (m :: arrived ops).
    replace (hist ++ m :: arrived ops) with ((hist ++ [m]) ++ arrived ops)
      by (by rewrite <- app_assoc).
    apply IH; [|rewrite length_app; cbn; lia]. cbn.
    exists (Fill b m).1. split; [|apply visit_arrive; [done|lia]].
    unfold store_fill. rewrite Hb. pose proof (vi_plain _ _ _ _ _ Hv) as Hp.
    unfold Fill. rewrite Hp. destruct (Full b); by rewrite lookup_insert_eq.
  - change (arrived (Poll :: ops)) with (arrived ops).
    apply IH; [|lia]. cbn. unfold TryFetch1. rewrite Hb.
    destruct (Fetch b (next_msg_index_ v)) as [[i m]|] eqn:HF; [|by exists b].
    destruct (visit_poll _ _ _ _ _ _ _ Hv HF) as [Hu Hv']. exists b. cbn.
    rewrite Hu. replace (i + 1 - 1) with i by lia. done.
Qed.


