(* ===== verification/Interleave.v ===== *)
(** * Interleavings of threads over a shared state

    Every concurrent component gives a function [f choice t s p]: the effect of
    one atomic access of thread [t] at program counter [p] on the shared state
    [s]; [choice] carries what the code does not decide (which operation the
    client calls next, whether a weak compare-exchange fails spuriously).  This
    file turns such a function into the transition system of any number of
    threads and gives the induction principle for its invariants. *)

From stdpp Require Import base numbers list.
From Stdlib Require Import ZArith Lia.
From S2P Require Import Prelude.

Open Scope Z_scope.

Section interleave.
Context {S P C : Type} (f : C → nat → S → P → option (S * P)).

(** Thread [t] makes one access. *)
Definition sys_step (a : nat * C) (c : S * list P) : option (S * list P) :=
  p ← c.2 !! a.1;
  '(s', p') ← f a.2 a.1 c.1 p;
  Some (s', <[a.1 := p']> c.2).

Inductive reach (c0 : S * list P) : nat → S * list P → Prop :=
| reach_refl : reach c0 0 c0
| reach_step n c a c' :
    reach c0 n c → sys_step a c = Some c' → reach c0 (Datatypes.S n) c'.

Fixpoint run_schedule (l : list (nat * C)) (c : S * list P) : option (S * list P) :=
  match l with
  | [] => Some c
  | a :: l => c' ← sys_step a c; run_schedule l c'
  end.

Lemma sys_step_inv a c c' :
  sys_step a c = Some c' →
  ∃ p s' p', c.2 !! a.1 = Some p ∧ f a.2 a.1 c.1 p = Some (s', p') ∧
    c' = (s', <[a.1 := p']> c.2).
Proof.
  unfold sys_step. destruct (c.2 !! a.1) as [p|]; [|done]. cbn.
  destruct (f _ _ _ p) as [[s' p']|] eqn:E; [|done]. cbn. intros [= <-]. eauto 10.
Qed.

Lemma run_schedule_reach l n c0 c c' :
  reach c0 n c → run_schedule l c = Some c' → reach c0 (n + length l) c'.
Proof.
  revert n c. induction l as [|a l IH]; intros n c Hn; cbn.
  - intros [= <-]. by rewrite Nat.add_0_r.
  - destruct (sys_step a c) as [c1|] eqn:E; [|done]. cbn. intros Hr.
    replace (n + Datatypes.S (length l))%nat with (Datatypes.S n + length l)%nat by lia.
    apply (IH (Datatypes.S n) c1); [|done]. by apply (reach_step c0 n c a c1).
Qed.

(** An invariant that may count the accesses and rely on a bound on them. *)
Lemma reach_invariant (bound : nat) (Inv : nat → S * list P → Prop) c0 n c :
  Inv 0%nat c0 →
  (∀ n c t ch p s' p', (n < bound)%nat → Inv n c → c.2 !! t = Some p →
     f ch t c.1 p = Some (s', p') → Inv (Datatypes.S n) (s', <[t := p']> c.2)) →
  reach c0 n c → (n <= bound)%nat → Inv n c.
Proof.
  intros H0 Hstep Hr. induction Hr as [|n c [t ch] c' Hr IH Hs]; intros Hb; [done|].
  apply sys_step_inv in Hs as (p & s' & p' & Hp & Hf & ->). cbn in *.
  apply (Hstep n c t ch p s' p'); auto with lia.
Qed.

Lemma reach_threads n c0 c : reach c0 n c → length c.2 = length c0.2.
Proof.
  induction 1 as [|n c a c' Hr IH Hs]; [done|].
  apply sys_step_inv in Hs as (p & s' & p' & Hp & Hf & ->). cbn. by rewrite length_insert.
Qed.
End interleave.

(** ** Counting threads *)

Section tally.
Context {A : Type} (w : A → Z).

Fixpoint tally (l : list A) : Z :=
  match l with [] => 0 | a :: l => w a + tally l end.

Lemma tally_insert l i a b :
  l !! i = Some a → tally (<[i := b]> l) = tally l - w a + w b.
Proof.
  revert i. induction l as [|x l IH]; intros i Hi; [done|].
  destruct i as [|i]; [cbn in *; simplify_eq; lia|].
  change (w x + tally (<[i := b]> l) = w x + tally l - w a + w b). rewrite (IH i Hi). lia.
Qed.

Lemma tally_zero l : (∀ i a, l !! i = Some a → w a = 0) → tally l = 0.
Proof.
  induction l as [|x l IH]; intros H; [done|]. cbn.
  rewrite (H 0%nat x eq_refl), IH; [done|]. intros i a Ha. by apply (H (S i)).
Qed.

Lemma tally_replicate n a : tally (replicate n a) = Z.of_nat n * w a.
Proof. induction n as [|n IH]; [done|]. cbn [replicate tally]. rewrite IH. lia. Qed.

Context (Hw : ∀ a, 0 <= w a).

Lemma tally_nonneg l : 0 <= tally l.
Proof using Hw. induction l as [|x l IH]; cbn; [lia|]. specialize (Hw x). lia. Qed.

Lemma tally_elem l i a : l !! i = Some a → w a <= tally l.
Proof using Hw.
  revert i. induction l as [|x l IH]; intros i Hi; [done|].
  pose proof (tally_nonneg l). pose proof (Hw x).
  destruct i as [|i]; cbn in *; [simplify_eq; lia|]. specialize (IH i Hi). lia.
Qed.

Lemma tally_two l i j a b :
  i ≠ j → l !! i = Some a → l !! j = Some b → w a + w b <= tally l.
Proof using Hw.
  revert i j. induction l as [|x l IH]; intros i j Hne Hi Hj; [done|].
  pose proof (Hw x).
  destruct i as [|i], j as [|j]; cbn in *; simplify_eq.
  - pose proof (tally_elem l j b Hj). lia.
  - pose proof (tally_elem l i a Hi). lia.
  - specialize (IH i j ltac:(congruence) Hi Hj). lia.
Qed.

Lemma tally_le l : (∀ a, w a <= 1) → tally l <= Z.of_nat (length l).
Proof. intros H1. induction l as [|x l IH]; [done|]. cbn. specialize (H1 x). lia. Qed.
End tally.
