(* ===== verification/AsyncLogger.v ===== *)
(** * Logging (cyber/logger/async_logger, logger.cc, logger_util.h)

    The asynchronous logger keeps messages in a buffer and has a thread of its own swap
    and flush it; the synchronous one writes each message when it is logged.  Both find
    the module in the first brackets of a message and write to a file of the module's;
    a file is the list of what was written to it.  In the interleaved model a step is one
    access of one thread: a client that logs, the log thread, or the one that stops it. *)

From stdpp Require Import base numbers list gmap strings.
From Stdlib Require Import ZArith Lia Ascii String.
From S2P Require Import Prelude Interleave.

Open Scope Z_scope.

(** ** Messages and modules *)

Definition Text := list ascii.
Definition text (s : string) : Text := list_ascii_of_string s.

Definition LEFT_BRACKET : ascii := "["%char.
Definition RIGHT_BRACKET : ascii := "]"%char.

(** The text before and behind the first such character. *)
Fixpoint split_first (ch : ascii) (l : Text) : option (Text * Text) :=
  match l with
  | [] => None
  | x :: l => if Ascii.eqb x ch then Some ([], l) else '(pre, post) ← split_first ch l; Some (x :: pre, post)
  end.

(** What is in the first brackets, and the text without them. *)
Definition brackets (message : Text) : option (Text * Text) :=
  '(pre, post) ← split_first LEFT_BRACKET message;
  '(name, rest) ← split_first RIGHT_BRACKET post;
  Some (name, pre ++ rest).

Record Msg := mkMsg { ts : Z; message : Text; level : Z }.

(** [log_level_map.at(c)], which throws for other characters. *)
Definition log_level (c : ascii) : option Z :=
  if Ascii.eqb c "F" then Some 3 else if Ascii.eqb c "E" then Some 2
  else if Ascii.eqb c "W" then Some 1 else if Ascii.eqb c "I" then Some 0 else None.

(** The files of the modules: what was written, with its time and whether it was
    flushed at once. *)
Definition Files := gmap Text (list (bool * Z * Text)).
Definition file_write (f : Files) (name : Text) (force_flush : bool) (ts : Z) (m : Text) : Files :=
  <[name := default [] (f !! name) ++ [(force_flush, ts, m)]]> f.

Section logger.
Context (process_group : Text).

(** [FindModuleName(log_message, module_name)]. *)
Definition FindModuleName (log_message module_name : Text) : Text * Text :=
  let '(m, name) :=
    match brackets log_message with
    | Some (name, rest) => (rest, name)
    | None => (log_message, module_name)
    end in
  (m, if bool_decide (name = []) then process_group else name).

(** [Logger::Write]. *)
Definition Logger_Write (f : Files) (force_flush : bool) (ts : Z) (m : Text) : Files :=
  let '(m, name) := FindModuleName m [] in file_write f name force_flush ts m.

(** ** AsyncLogger *)

Inductive LogState := INITTED | RUNNING | STOPPED.
#[global] Instance LogState_eq_dec : EqDecision LogState.
Proof. solve_decision. Defined.

(** [ended_] is set when the log thread returns; [appended_] and [taken_], for the
    statements, are all messages put into a buffer and all taken out of one. *)
Record AsyncLogger := mkLogger {
  state_ : LogState; flag_ : bool; active_buf_ : list Msg; flushing_buf_ : list Msg; module_logger_map_ : Files;
  ended_ : bool; appended_ : list Msg; taken_ : list Msg
}.

(** After [Start()]. *)
Definition AsyncLogger_started : AsyncLogger := mkLogger RUNNING false [] [] ∅ false [] [].

Definition set_flag (s : AsyncLogger) (b : bool) : AsyncLogger :=
  mkLogger (state_ s) b (active_buf_ s) (flushing_buf_ s) (module_logger_map_ s) (ended_ s) (appended_ s) (taken_ s).
Definition append (s : AsyncLogger) (m : Msg) : AsyncLogger :=
  mkLogger (state_ s) (flag_ s) (active_buf_ s ++ [m]) (flushing_buf_ s) (module_logger_map_ s) (ended_ s)
    (appended_ s ++ [m]) (taken_ s).
Definition swap (s : AsyncLogger) : AsyncLogger :=
  mkLogger (state_ s) (flag_ s) (flushing_buf_ s) (active_buf_ s) (module_logger_map_ s) (ended_ s) (appended_ s) (taken_ s).

(** One message of [FlushBuffer]: the files and the module's name for the next. *)
Definition flush_message (f : Files) (module_name : Text) (m : Msg) : Files * Text :=
  let '(t, name) := FindModuleName (message m) module_name in
  (file_write f name (0 <? level m) (ts m) t, name).

(** Where a thread is: a client in [Write], the log thread in [RunThread], a client in
    [Stop], which [Write] calls too when it is given no message, no time and
    [force_flush]. *)
Inductive Pc :=
  | WReady | WPassed (t : Z) (m : Text) | WHolds (t : Z) (m : Text) | WClears | WThrew
  | LLoop | LAcquire | LSwap | LClear | LFlush (module_name : Text) | LSleep | LEnd
  | SReady | SJoin | SFlush (module_name : Text) | SEnd.

(** What a client does next. *)
Inductive Choice := CWrite (t : Z) (m : Text) | CStop.

Definition log_step (ch : Choice) (t : nat) (s : AsyncLogger) (p : Pc) : option (AsyncLogger * Pc) :=
  match p with
  | WReady =>
      match ch with
      | CWrite t m =>
          if bool_decide (state_ s = RUNNING) && negb (bool_decide (m = [])) then Some (s, WPassed t m) else Some (s, WReady)
      | CStop => None
      end
  | WPassed t m => if flag_ s then Some (s, WPassed t m) else Some (set_flag s true, WHolds t m)
  | WHolds t m =>
      match m with
      | [] => None
      | c :: _ =>
          match log_level c with
          | Some level => Some (append s (mkMsg t m level), WClears)
          | None => Some (s, WThrew)
          end
      end
  | WClears => Some (set_flag s false, WReady)
  | WThrew => None
  | LLoop =>
      if bool_decide (state_ s = RUNNING) then Some (s, LAcquire)
      else Some (mkLogger (state_ s) (flag_ s) (active_buf_ s) (flushing_buf_ s) (module_logger_map_ s) true (appended_ s) (taken_ s), LEnd)
  | LAcquire => if flag_ s then Some (s, LAcquire) else Some (set_flag s true, LSwap)
  | LSwap => Some (swap s, LClear)
  | LClear => Some (set_flag s false, LFlush [])
  | LFlush module_name =>
      match flushing_buf_ s with
      | [] => Some (s, LSleep)
      | m :: rest =>
          let '(f, name) := flush_message (module_logger_map_ s) module_name m in
          Some (mkLogger (state_ s) (flag_ s) (active_buf_ s) rest f (ended_ s) (appended_ s) (taken_ s ++ [m]), LFlush name)
      end
  | LSleep => Some (s, LLoop)
  | LEnd => None
  | SReady =>
      match ch with
      | CStop => Some (mkLogger STOPPED (flag_ s) (active_buf_ s) (flushing_buf_ s) (module_logger_map_ s) (ended_ s) (appended_ s) (taken_ s), SJoin)
      | _ => None
      end
  | SJoin => if ended_ s then Some (s, SFlush []) else Some (s, SJoin)
  | SFlush module_name =>
      match active_buf_ s with
      | [] => Some (s, SEnd)
      | m :: rest =>
          let '(f, name) := flush_message (module_logger_map_ s) module_name m in
          Some (mkLogger (state_ s) (flag_ s) rest (flushing_buf_ s) f (ended_ s) (appended_ s) (taken_ s ++ [m]), SFlush name)
      end
  | SEnd => None
  end.

(** The log thread, a client that stops it, and [n] clients that log. *)
Definition log_system (n : nat) : AsyncLogger * list Pc :=
  (AsyncLogger_started, LLoop :: SReady :: replicate n WReady).

(** ** The log of the synchronous logger *)

Definition sync_log (l : list Msg) : Files :=
  foldl (λ f m, Logger_Write f (0 <? level m) (ts m) (message m)) ∅ l.

Definition bracketed (m : Msg) : Prop := is_Some (brackets (message m)).

(** ** Nothing is lost or reordered *)

Lemma sync_log_snoc l m :
  sync_log (l ++ [m]) = Logger_Write (sync_log l) (0 <? level m) (ts m) (message m).
Proof. unfold sync_log. by rewrite foldl_app. Qed.

(** Where a message has brackets, the module of the one before does not matter. *)
Lemma flush_bracketed f name m :
  bracketed m → (flush_message f name m).1 = Logger_Write f (0 <? level m) (ts m) (message m).
Proof.
  intros [[b r] Hb]. unfold flush_message, Logger_Write, FindModuleName. rewrite Hb. done.
Qed.

(** The part a thread plays, by its place in the list. *)
Definition role (p : Pc) : nat :=
  match p with
  | LLoop | LAcquire | LSwap | LClear | LFlush _ | LSleep | LEnd => 0
  | SReady | SJoin | SFlush _ | SEnd => 1
  | _ => 2
  end.

(** Whether a thread holds the flag. *)
Definition holds (p : Pc) : Z :=
  match p with WHolds _ _ | WClears | WThrew | LSwap | LClear => 1 | _ => 0 end.

Definition flushes (p : Pc) : bool := match p with LClear | LFlush _ => true | _ => false end.

Record log_inv (c : AsyncLogger * list Pc) : Prop := {
  lo_role : ∀ t p, c.2 !! t = Some p → role p = Nat.min t 2;
  lo_flag : tally holds c.2 = if flag_ c.1 then 1 else 0;
  lo_all : appended_ c.1 = taken_ c.1 ++ flushing_buf_ c.1 ++ active_buf_ c.1;
  lo_flushing : ∀ p, c.2 !! 0%nat = Some p → flushes p = false → flushing_buf_ c.1 = [];
  lo_ended : ended_ c.1 = true → c.2 !! 0%nat = Some LEnd;
  lo_stopper : ∀ p, c.2 !! 1%nat = Some p → (∃ m, p = SFlush m) ∨ p = SEnd → ended_ c.1 = true;
  lo_files : Forall bracketed (taken_ c.1) → module_logger_map_ c.1 = sync_log (taken_ c.1)
}.

Lemma log_inv_start n : log_inv (log_system n).
Proof.
  split; cbn; try done.
  - intros t p Hp. destruct t as [|[|t]]; [by injection Hp as <-|by injection Hp as <-|].
    apply lookup_replicate in Hp as [-> _]. cbn. lia.
  - rewrite tally_replicate. cbn. lia.
  - intros p [= <-] [[m ?]|?]; done.
Qed.

(** The files after one more message. *)
Lemma files_flush f l name m g name' :
  (Forall bracketed l → f = sync_log l) → flush_message f name m = (g, name') →
  Forall bracketed (l ++ [m]) → g = sync_log (l ++ [m]).
Proof.
  intros Hf Hm Hl. apply Forall_app in Hl as [Hl Hb]. rewrite Forall_singleton in Hb.
  rewrite sync_log_snoc, <- (Hf Hl). pose proof (flush_bracketed f name m Hb) as H. by rewrite Hm in H.
Qed.

(** A client's step. *)
Lemma log_inv_client s ps ch t p s' p' :
  log_inv (s, ps) → ps !! t = Some p → role p = 2%nat → log_step ch t s p = Some (s', p') → log_inv (s', <[t := p']> ps).
Proof.
  intros [H1 H2 H3 H4 H5 H6 H7] Hp Hrole Hs. cbn in *. pose proof (H1 t p Hp) as Ht. rewrite Hrole in Ht.
  assert (t ≠ 0%nat ∧ t ≠ 1%nat) as [Ht0 Ht1] by (split; intros ->; cbn in Ht; lia).
  assert (role p' = 2%nat ∧ flushing_buf_ s' = flushing_buf_ s ∧ ended_ s' = ended_ s ∧ taken_ s' = taken_ s ∧
    module_logger_map_ s' = module_logger_map_ s ∧ appended_ s' = taken_ s ++ flushing_buf_ s ++ active_buf_ s' ∧
    (if flag_ s' then 1 else 0) = (if flag_ s then 1 else 0) - holds p + holds p') as (E1 & E2 & E3 & E4 & E5 & E6 & E7).
  { pose proof (tally_elem holds ltac:(by intros []) ps t p Hp) as Hge. rewrite H2 in Hge.
    destruct p; try done; cbn in Hs, Hge; repeat case_match; try done; simplify_eq; cbn; split_and!; try done;
      rewrite ?H3, <- ?app_assoc; try done; cbn in *; first [lia|congruence]. }
  split; cbn.
  - intros u q. destruct (decide (u = t)) as [->|Hne]; [|rewrite list_lookup_insert_ne by done; apply H1].
    rewrite list_lookup_insert_eq by (by eapply lookup_lt_Some). intros [= <-]. congruence.
  - rewrite (tally_insert _ _ _ _ _ Hp), H2. lia.
  - by rewrite E4, E2.
  - rewrite list_lookup_insert_ne by done. rewrite E2. apply H4.
  - rewrite list_lookup_insert_ne, E3 by done. apply H5.
  - rewrite list_lookup_insert_ne, E3 by done. apply H6.
  - rewrite E4, E5. apply H7.
Qed.

(** A step of the log thread. *)
Lemma log_inv_thread s ps ch p s' p' :
  log_inv (s, ps) → ps !! 0%nat = Some p → log_step ch 0 s p = Some (s', p') → log_inv (s', <[0%nat := p']> ps).
Proof.
  intros [H1 H2 H3 H4 H5 H6 H7] Hp Hs. cbn in *. pose proof (H1 0%nat p Hp) as Hrole. cbn in Hrole.
  pose proof (H4 p Hp) as Hfl.
  assert (role p' = 0%nat ∧ (ended_ s' = true → p' = LEnd) ∧ (ended_ s = true → ended_ s' = true) ∧
    appended_ s' = taken_ s' ++ flushing_buf_ s' ++ active_buf_ s' ∧ (flushes p' = false → flushing_buf_ s' = []) ∧
    (Forall bracketed (taken_ s') → module_logger_map_ s' = sync_log (taken_ s')) ∧
    (if flag_ s' then 1 else 0) = (if flag_ s then 1 else 0) - holds p + holds p') as (E1 & E2 & E3 & E4 & E5 & E6 & E7).
  { pose proof (tally_elem holds ltac:(by intros []) ps 0%nat p Hp) as Hge. rewrite H2 in Hge.
    assert (ended_ s = true → p = LEnd) as He by (intros E; specialize (H5 E); congruence).
    destruct p; try done; cbn in Hs, Hge, Hfl.
    - case_bool_decide; simplify_eq; cbn; split_and!; try done; try lia; auto. intros E. by specialize (He E).
    - destruct (flag_ s) eqn:Ef; simplify_eq; cbn; rewrite ?Ef; split_and!; try done; auto; intros E; by specialize (He E).
    - simplify_eq. cbn. rewrite (Hfl eq_refl), app_nil_r in *. split_and!; try done; auto; try lia. intros E. by specialize (He E).
    - destruct (flag_ s); simplify_eq; cbn; split_and!; try done; auto; try lia; intros E; by specialize (He E).
    - destruct (flushing_buf_ s) as [|m rest] eqn:Eb.
      + simplify_eq. split_and!; try done; auto; try (cbn; lia); [|by rewrite Eb]. intros E. by specialize (He E).
      + destruct (flush_message _ _ m) as [g name'] eqn:Em. simplify_eq. cbn. split_and!; try done; auto; try lia.
        * intros E. by specialize (He E).
        * by rewrite H3, <- app_assoc.
        * by apply (files_flush (module_logger_map_ s) (taken_ s) module_name m g name').
    - simplify_eq. split_and!; try done; auto; [|cbn; lia]. intros E. by specialize (He E). }
  split; cbn.
  - intros u q. destruct (decide (u = 0%nat)) as [->|Hne]; [|rewrite list_lookup_insert_ne by done; apply H1].
    rewrite list_lookup_insert_eq by (by eapply lookup_lt_Some). by intros [= <-].
  - rewrite (tally_insert _ _ _ _ _ Hp), H2. lia.
  - done.
  - rewrite list_lookup_insert_eq by (by eapply lookup_lt_Some). by intros q [= <-].
  - rewrite list_lookup_insert_eq by (by eapply lookup_lt_Some). intros E. by rewrite (E2 E).
  - rewrite list_lookup_insert_ne by done. intros q Hq Hx. apply E3. by apply (H6 q).
  - done.
Qed.

(** A step of the one that stops the logger. *)
Lemma log_inv_stopper s ps ch p s' p' :
  log_inv (s, ps) → ps !! 1%nat = Some p → log_step ch 1 s p = Some (s', p') → log_inv (s', <[1%nat := p']> ps).
Proof.
  intros [H1 H2 H3 H4 H5 H6 H7] Hp Hs. cbn in *. pose proof (H1 1%nat p Hp) as Hrole. cbn in Hrole. pose proof (H6 p Hp) as Hen.
  assert (role p' = 1%nat ∧ ended_ s' = ended_ s ∧ flushing_buf_ s' = flushing_buf_ s ∧
    appended_ s' = taken_ s' ++ flushing_buf_ s' ++ active_buf_ s' ∧
    ((∃ m, p' = SFlush m) ∨ p' = SEnd → ended_ s = true) ∧
    (Forall bracketed (taken_ s') → module_logger_map_ s' = sync_log (taken_ s')) ∧
    flag_ s' = flag_ s ∧ holds p = 0 ∧ holds p' = 0) as (E1 & E2 & E3 & E4 & E5 & E6 & E7 & E8 & E9).
  { destruct p; try done; cbn in Hs.
    - destruct ch; simplify_eq. cbn. split_and!; try done. intros [[m ?]|?]; done.
    - destruct (ended_ s) eqn:Ee; simplify_eq; rewrite ?Ee; split_and!; try done; auto.
    - destruct (active_buf_ s) as [|m rest] eqn:Eb.
      + simplify_eq. split_and!; try done; auto; [by rewrite Eb|]. intros _. apply Hen. left. by eexists.
      + destruct (flush_message _ _ m) as [g name'] eqn:Em. simplify_eq. cbn.
        assert (ended_ s = true) as Ee by (apply Hen; eauto).
        assert (flushing_buf_ s = []) as Ef by (by apply (H4 LEnd (H5 Ee))).
        split_and!; try done.
        * by rewrite H3, Ef, <- app_assoc.
        * by apply (files_flush (module_logger_map_ s) (taken_ s) module_name m g name'). }
  split; cbn.
  - intros u q. destruct (decide (u = 1%nat)) as [->|Hne]; [|rewrite list_lookup_insert_ne by done; apply H1].
    rewrite list_lookup_insert_eq by (by eapply lookup_lt_Some). by intros [= <-].
  - rewrite (tally_insert _ _ _ _ _ Hp), H2, E7. lia.
  - done.
  - rewrite list_lookup_insert_ne, E3 by done. apply H4.
  - rewrite list_lookup_insert_ne, E2 by done. apply H5.
  - rewrite list_lookup_insert_eq by (by eapply lookup_lt_Some). rewrite E2. by intros q [= <-].
  - done.
Qed.

Lemma log_inv_step c t ch p s' p' :
  log_inv c → c.2 !! t = Some p → log_step ch t c.1 p = Some (s', p') → log_inv (s', <[t := p']> c.2).
Proof.
  destruct c as [s ps]. cbn. intros Hi Hp Hs. pose proof (lo_role _ Hi t p Hp) as Hr. cbn in Hr.
  destruct t as [|[|t]].
  - by apply (log_inv_thread s ps ch p).
  - by apply (log_inv_stopper s ps ch p).
  - apply (log_inv_client s ps ch (S (S t)) p); [done|done| |done]. cbn in Hr. lia.
Qed.

Lemma log_inv_reach n k c : reach log_step (log_system n) k c → log_inv c.
Proof.
  intros Hr. apply (reach_invariant log_step k (λ _, log_inv) (log_system n) k c); [apply log_inv_start| |done|lia].
  intros i d t ch p s' p' _ Hd Hp Hf. by apply (log_inv_step d t ch p).
Qed.

(** [C27] The asynchronous logger logs what the synchronous one would: in every
    interleaving of clients, the log thread and the one that stops it, at most one
    thread holds the buffers' flag; what was logged is, in order, what was written to
    the files, what is being flushed and what is in the active buffer; if the messages
    have module brackets, each module's file is the one [Logger::Write] gives for the
    messages taken so far; and once [Stop] has returned nothing is left half-flushed,
    and with the active buffer empty the files hold the whole log. *)
Theorem async_logs_as_sync n k c :
  reach log_step (log_system n) k c →
  (∀ i j p q, i ≠ j → c.2 !! i = Some p → c.2 !! j = Some q → holds p + holds q <= 1) ∧
  appended_ c.1 = taken_ c.1 ++ flushing_buf_ c.1 ++ active_buf_ c.1 ∧
  (Forall bracketed (appended_ c.1) → module_logger_map_ c.1 = sync_log (taken_ c.1)) ∧
  (c.2 !! 1%nat = Some SEnd → flushing_buf_ c.1 = [] ∧
     (active_buf_ c.1 = [] → Forall bracketed (appended_ c.1) → module_logger_map_ c.1 = sync_log (appended_ c.1))).
Proof.
  intros Hr. pose proof (log_inv_reach n k c Hr) as [H1 H2 H3 H4 H5 H6 H7].
  assert (Forall bracketed (appended_ c.1) → module_logger_map_ c.1 = sync_log (taken_ c.1)) as Hf.
  { rewrite H3. intros [Ht _]%Forall_app. by apply H7. }
  split_and!; [|done|done|].
  - intros i j p q Hne Hi Hj. pose proof (tally_two holds ltac:(by intros []) c.2 i j p q Hne Hi Hj).
    destruct (flag_ c.1); lia.
  - intros Hs. assert (flushing_buf_ c.1 = []) as Hb.
    { apply (H4 LEnd); [|done]. apply H5, (H6 SEnd); auto. }
    split; [done|]. intros Ha Hl. rewrite Hf by done. by rewrite H3, Hb, Ha, !app_nil_r.
Qed.

End logger.

(** ** Runs *)

Definition demo_group : Text := text "mainboard".
Definition hello : Text := text "I[planning]hello".
Definition world : Text := text "Eworld[planning]".

(** Two clients log, the log thread swaps in between, and the logger is stopped. *)
Definition log_schedule : list (nat * Choice) :=
  [(2, CWrite 5 hello); (2, CStop); (3, CWrite 6 world); (3, CStop); (2, CStop); (0, CStop); (2, CStop); (0, CStop);
   (3, CStop); (0, CStop); (0, CStop); (0, CStop); (0, CStop); (3, CStop); (3, CStop); (3, CStop); (0, CStop);
   (0, CStop); (1, CStop)]%nat ++ replicate 7 (0%nat, CStop) ++ replicate 2 (1%nat, CStop).

Definition log_run (l : list (nat * Choice)) : AsyncLogger * list Pc :=
  default (log_system 2) (run_schedule (log_step demo_group) l (log_system 2)).

Lemma async_logs_as_sync_witness :
  let c := log_run log_schedule in
  c.2 !! 1%nat = Some SEnd ∧ active_buf_ c.1 = [] ∧
  module_logger_map_ c.1 = sync_log demo_group (appended_ c.1) ∧
  module_logger_map_ c.1 !! text "planning" = Some [(false, 5, text "Ihello"); (true, 6, text "Eworld")].
Proof.
  destruct (async_logs_as_sync demo_group 2 (0 + List.length log_schedule) (log_run log_schedule)) as (_ & _ & _ & H).
  - apply (run_schedule_reach _ _ _ _ (log_system 2)); [constructor|by vm_compute].
  - destruct H as [_ H]; [by vm_compute|]. split_and!; [by vm_compute|by vm_compute| |by vm_compute].
    apply H; [by vm_compute|].
    replace (appended_ (log_run log_schedule).1) with [mkMsg 5 hello 0; mkMsg 6 world 2] by by vm_compute.
    repeat constructor; vm_compute; by eexists.
Defined.

(** A message whose writer has passed the test of the state when [Stop] is called is
    put into the active buffer after its flush, and never written. *)
Example late_write_lost :
  let c := log_run ([(2, CWrite 5 hello); (1, CStop); (0, CStop)]%nat ++
                    replicate 2 (1%nat, CStop) ++ replicate 3 (2%nat, CStop)) in
  c.2 !! 1%nat = Some SEnd ∧ c.2 !! 0%nat = Some LEnd ∧ c.2 !! 2%nat = Some WReady ∧
  active_buf_ c.1 = [mkMsg 5 hello 0] ∧ module_logger_map_ c.1 = ∅.
Proof. by vm_compute. Qed.

(** A message without brackets goes to the module of the message flushed before it;
    the synchronous logger writes it to the process group's. *)
Example unbracketed_follows_last :
  let m := mkMsg 6 (text "Ibye") 0 in
  let '(f, name) := flush_message demo_group ∅ [] (mkMsg 5 hello 0) in
  name = text "planning" ∧
  (flush_message demo_group f name m).1 !! text "planning" = Some [(false, 5, text "Ihello"); (false, 6, text "Ibye")] ∧
  Logger_Write demo_group f false 6 (message m) !! text "mainboard" = Some [(false, 6, text "Ibye")].
Proof. by vm_compute. Qed.

(** A message whose first character is no level throws with the flag set: every later
    writer, and the log thread, spin on it. *)
Example unknown_level_keeps_flag :
  let c := log_run ([(2, CWrite 5 (text "hello")); (2, CStop); (2, CStop); (3, CWrite 6 hello)]%nat ++
                    replicate 9 (3%nat, CStop) ++ replicate 9 (0%nat, CStop)) in
  flag_ c.1 = true ∧ c.2 !! 2%nat = Some WThrew ∧ c.2 !! 3%nat = Some (WPassed 6 hello) ∧ c.2 !! 0%nat = Some LAcquire.
Proof. by vm_compute. Qed.
