(* ===== verification/BoundedQueue.v ===== *)
(** * BoundedQueue (cyber/base/bounded_queue.h)

    The lock-free bounded queue used by the task manager and the thread pool.
    [head_], [tail_] and [commit_] are counters that only grow; slot [p] of the
    ring is [p % pool_size_].  A producer reserves a position by advancing
    [tail_], writes it, then publishes it by advancing [commit_]; a consumer
    reads the slot after [head_] and takes it by advancing [head_].

    [Enqueue] and [Dequeue] are the operations as they run alone; [thread_step] gives
    every thread's operation as a program counter with one transition per atomic access, for
    interleavings.  [NotifyOne] and the waiting inside a [WaitStrategy] do not
    touch the queue and are left to the caller's oracle. *)

From stdpp Require Import base numbers list gmap.
From Stdlib Require Import ZArith Lia.
From S2P Require Import Prelude.

Open Scope Z_scope.

Record BoundedQueue (T : Type) := mkBoundedQueue {
  head_ : Z;
  tail_ : Z;
  commit_ : Z;
  pool_size_ : Z;
  pool_ : list T;
  break_all_wait_ : bool
}.
Arguments mkBoundedQueue {T} _ _ _ _ _ _.
Arguments head_ {T} _.
Arguments tail_ {T} _.
Arguments commit_ {T} _.
Arguments pool_size_ {T} _.
Arguments pool_ {T} _.
Arguments break_all_wait_ {T} _.

Section basic.
Context {T : Type}.
Implicit Types (q : BoundedQueue T) (x : T).

Definition set_head (q : BoundedQueue T) (h : Z) : BoundedQueue T :=
  mkBoundedQueue h (tail_ q) (commit_ q) (pool_size_ q) (pool_ q) (break_all_wait_ q).
Definition set_tail (q : BoundedQueue T) (t : Z) : BoundedQueue T :=
  mkBoundedQueue (head_ q) t (commit_ q) (pool_size_ q) (pool_ q) (break_all_wait_ q).
Definition set_commit (q : BoundedQueue T) (c : Z) : BoundedQueue T :=
  mkBoundedQueue (head_ q) (tail_ q) c (pool_size_ q) (pool_ q) (break_all_wait_ q).
Definition set_pool (q : BoundedQueue T) (p : list T) : BoundedQueue T :=
  mkBoundedQueue (head_ q) (tail_ q) (commit_ q) (pool_size_ q) p (break_all_wait_ q).

(** [Init(size)] on a fresh queue ([calloc] succeeding): [size + 2] default
    elements. *)
Definition Init (dflt : T) (size : Z) : BoundedQueue T :=
  let pool_size := u64 (size + 2) in
  mkBoundedQueue 0 1 1 pool_size (replicate (Z.to_nat pool_size) dflt) false.

Definition GetIndex (q : BoundedQueue T) (num : Z) : Z :=
  num - (num / pool_size_ q) * pool_size_ q.

Definition Size (q : BoundedQueue T) : Z := u64 (tail_ q - head_ q - 1).
Definition Empty (q : BoundedQueue T) : bool := Size q =? 0.

Definition read_pool (q : BoundedQueue T) (pos : Z) : option T :=
  pool_ q !! Z.to_nat (GetIndex q pos).

Definition write_pool (q : BoundedQueue T) (pos : Z) (x : T) : BoundedQueue T :=
  set_pool q (<[Z.to_nat (GetIndex q pos) := x]> (pool_ q)).

Definition BreakAllWait (q : BoundedQueue T) : BoundedQueue T :=
  mkBoundedQueue (head_ q) (tail_ q) (commit_ q) (pool_size_ q) (pool_ q) true.

(** ** Sequential operations *)

(** [Enqueue] with no other thread: both compare-exchanges succeed at once. *)
Definition Enqueue (q : BoundedQueue T) (x : T) : BoundedQueue T * bool :=
  let old_tail := tail_ q in
  let new_tail := u64 (old_tail + 1) in
  if GetIndex q new_tail =? GetIndex q (head_ q) then (q, false)
  else
    let q := set_tail q new_tail in
    let q := write_pool q old_tail x in
    (set_commit q new_tail, true).

(** [Dequeue] with no other thread. *)
Definition Dequeue (q : BoundedQueue T) : BoundedQueue T * option T :=
  let old_head := head_ q in
  let new_head := u64 (old_head + 1) in
  if new_head =? commit_ q then (q, None)
  else
    match read_pool q new_head with
    | Some v => (set_head q new_head, Some v)
    | None => (q, None)
    end.

(** [WaitEnqueue] and [WaitDequeue]: [waits] lists, for each [EmptyWait] call,
    its result and the queue other threads leave behind meanwhile. *)
Fixpoint WaitEnqueue (waits : list (bool * BoundedQueue T)) (q : BoundedQueue T) (x : T)
  : BoundedQueue T * bool :=
  if break_all_wait_ q then (q, false)
  else
    match Enqueue q x with
    | (q', true) => (q', true)
    | (q', false) =>
        match waits with
        | (true, q'') :: waits => WaitEnqueue waits q'' x
        | (false, q'') :: _ => (q'', false)
        | [] => (q', false)
        end
    end.

Fixpoint WaitDequeue (waits : list (bool * BoundedQueue T)) (q : BoundedQueue T)
  : BoundedQueue T * option T :=
  if break_all_wait_ q then (q, None)
  else
    match Dequeue q with
    | (q', Some v) => (q', Some v)
    | (q', None) =>
        match waits with
        | (true, q'') :: waits => WaitDequeue waits q''
        | (false, q'') :: _ => (q'', None)
        | [] => (q', None)
        end
    end.
End basic.

(** ** Concurrent operations *)

(** Where a thread is in [Enqueue(element)] or [Dequeue(element)]. *)
Inductive pc (T : Type) :=
| EnqLoad (x : T)                    (* before [tail_.load] *)
| EnqCheck (x : T) (old_tail : Z)    (* top of the do loop: read [head_] *)
| EnqCas (x : T) (old_tail : Z)      (* [tail_.compare_exchange_weak] *)
| EnqWrite (x : T) (old_tail : Z)    (* [pool_[GetIndex(old_tail)] = element] *)
| EnqCommit (x : T) (old_tail : Z)   (* [commit_.compare_exchange_weak] *)
| EnqDone (ok : bool)
| DeqLoad                            (* before [head_.load] *)
| DeqCheck (old_head : Z)            (* top of the do loop: read [commit_] *)
| DeqRead (old_head : Z)             (* [*element = pool_[GetIndex(new_head)]] *)
| DeqCas (old_head : Z) (v : T)      (* [head_.compare_exchange_weak] *)
| DeqDone (r : option T).
Arguments EnqLoad {T} _.
Arguments EnqCheck {T} _ _.
Arguments EnqCas {T} _ _.
Arguments EnqWrite {T} _ _.
Arguments EnqCommit {T} _ _.
Arguments EnqDone {T} _.
Arguments DeqLoad {T}.
Arguments DeqCheck {T} _.
Arguments DeqRead {T} _.
Arguments DeqCas {T} _ _.
Arguments DeqDone {T} _.

(** One atomic access of a thread; [spurious] makes a weak compare-exchange
    fail although the values match. *)
Definition thread_step {T} (spurious : bool) (q : BoundedQueue T) (p : pc T)
  : option (BoundedQueue T * pc T) :=
  match p with
  | EnqLoad x => Some (q, EnqCheck x (tail_ q))
  | EnqCheck x old_tail =>
      let new_tail := u64 (old_tail + 1) in
      if GetIndex q new_tail =? GetIndex q (head_ q)
      then Some (q, EnqDone false)
      else Some (q, EnqCas x old_tail)
  | EnqCas x old_tail =>
      if negb spurious && (tail_ q =? old_tail)
      then Some (set_tail q (u64 (old_tail + 1)), EnqWrite x old_tail)
      else Some (q, EnqCheck x (tail_ q))
  | EnqWrite x old_tail => Some (write_pool q old_tail x, EnqCommit x old_tail)
  | EnqCommit x old_tail =>
      if negb spurious && (commit_ q =? old_tail)
      then Some (set_commit q (u64 (old_tail + 1)), EnqDone true)
      else Some (q, EnqCommit x old_tail)
  | EnqDone _ => None
  | DeqLoad => Some (q, DeqCheck (head_ q))
  | DeqCheck old_head =>
      let new_head := u64 (old_head + 1) in
      if new_head =? commit_ q then Some (q, DeqDone None)
      else Some (q, DeqRead old_head)
  | DeqRead old_head =>
      match read_pool q (u64 (old_head + 1)) with
      | Some v => Some (q, DeqCas old_head v)
      | None => None
      end
  | DeqCas old_head v =>
      if negb spurious && (head_ q =? old_head)
      then Some (set_head q (u64 (old_head + 1)), DeqDone (Some v))
      else Some (q, DeqCheck (head_ q))
  | DeqDone _ => None
  end.

(** The queue, the threads, and the values published and taken so far. *)
Record Conf (T : Type) := mkConf {
  queue : BoundedQueue T;
  threads : gmap nat (pc T);
  enq_log : list T;
  deq_log : list T
}.
Arguments mkConf {T} _ _ _ _.
Arguments queue {T} _.
Arguments threads {T} _.
Arguments enq_log {T} _.
Arguments deq_log {T} _.

(** Values an access publishes ([commit_] advanced) or takes ([head_]
    advanced). *)
Definition published {T} (p p' : pc T) : list T :=
  match p, p' with EnqCommit x _, EnqDone true => [x] | _, _ => [] end.
Definition taken {T} (p p' : pc T) : list T :=
  match p, p' with DeqCas _ v, DeqDone (Some _) => [v] | _, _ => [] end.

Definition idle {T} (P : gmap nat (pc T)) (t : nat) : Prop :=
  match P !! t with
  | None | Some (EnqDone _) | Some (DeqDone _) => True
  | _ => False
  end.

Definition is_call {T} (p : pc T) : Prop :=
  match p with EnqLoad _ | DeqLoad => True | _ => False end.

Inductive step {T} : Conf T → Conf T → Prop :=
| step_call c t p : idle (threads c) t → is_call p →
    step c (mkConf (queue c) (<[t := p]> (threads c)) (enq_log c) (deq_log c))
| step_thread c t p sp q' p' :
    threads c !! t = Some p → thread_step sp (queue c) p = Some (q', p') →
    step c (mkConf q' (<[t := p']> (threads c)) (enq_log c ++ published p p')
              (deq_log c ++ taken p p')).

Inductive steps {T} : nat → Conf T → Conf T → Prop :=
| steps_refl c : steps 0 c c
| steps_next n c c' c'' : steps n c c' → step c' c'' → steps (S n) c c''.

Definition init_conf {T} (dflt : T) (size : Z) : Conf T :=
  mkConf (Init dflt size) ∅ [] [].

(** The published elements not yet taken: positions [head_ + 1 .. commit_ - 1]. *)
Definition contents {T} (q : BoundedQueue T) : list T :=
  omap (λ i, read_pool q (head_ q + 1 + Z.of_nat i))
    (seq 0 (Z.to_nat (commit_ q - head_ q - 1))).

(** ** Ring facts *)

Section ring_facts.
Context {T : Type}.
Implicit Types (q : BoundedQueue T).

Lemma GetIndex_mod q p : 0 < pool_size_ q → GetIndex q p = p mod pool_size_ q.
Proof.
  intros Hn. unfold GetIndex. pose proof (Z_div_mod_eq_full p (pool_size_ q)). lia.
Qed.

Lemma GetIndex_eq_iff q p r :
  0 < pool_size_ q → - pool_size_ q < p - r < pool_size_ q →
  GetIndex q p = GetIndex q r ↔ p = r.
Proof.
  intros Hn Hd. rewrite !GetIndex_mod by done. split; [|by intros ->].
  intros He. apply (ring_idx_inj (pool_size_ q) Hn); [|done].
  by apply ring_idx_mod_eq.
Qed.

Lemma GetIndex_turn q p :
  0 < pool_size_ q → GetIndex q (p + pool_size_ q) = GetIndex q p.
Proof.
  intros Hn. rewrite !GetIndex_mod by done.
  rewrite <- (Z.mul_1_l (pool_size_ q)) at 1. apply Z.mod_add. lia.
Qed.

Lemma GetIndex_lt q p :
  0 < pool_size_ q → length (pool_ q) = Z.to_nat (pool_size_ q) →
  (Z.to_nat (GetIndex q p) < length (pool_ q))%nat.
Proof.
  intros Hn ->. rewrite GetIndex_mod by done.
  pose proof (Z.mod_pos_bound p (pool_size_ q) Hn). lia.
Qed.

Lemma read_pool_is_Some q p :
  0 < pool_size_ q → length (pool_ q) = Z.to_nat (pool_size_ q) →
  is_Some (read_pool q p).
Proof. intros Hn Hl. apply lookup_lt_is_Some, GetIndex_lt; done. Qed.

Lemma read_write_same q p x :
  0 < pool_size_ q → length (pool_ q) = Z.to_nat (pool_size_ q) →
  read_pool (write_pool q p x) p = Some x.
Proof. intros Hn Hl. apply list_lookup_insert_eq, (GetIndex_lt q p); done. Qed.

Lemma read_write_other q p r x :
  0 < pool_size_ q → - pool_size_ q < p - r < pool_size_ q → p ≠ r →
  read_pool (write_pool q p x) r = read_pool q r.
Proof.
  intros Hn Hd Hne. apply list_lookup_insert_ne. intros He. apply Hne.
  apply (GetIndex_eq_iff q p r Hn Hd).
  change (Z.to_nat (GetIndex q p) = Z.to_nat (GetIndex q r)) in He.
  rewrite !GetIndex_mod in He |- * by done.
  pose proof (Z.mod_pos_bound p (pool_size_ q) Hn).
  pose proof (Z.mod_pos_bound r (pool_size_ q) Hn). lia.
Qed.
End ring_facts.

(** ** The concurrent invariant *)

Section invariant.
Context {T : Type}.
Implicit Types (q : BoundedQueue T) (p : pc T) (c : Conf T).

(** The ring, with the published and taken values [elog] and [dlog]; at most
    [k] reservations so far. *)
Record queue_inv (k : nat) (q : BoundedQueue T) (elog dlog : list T) : Prop := {
  qi_size : 2 <= pool_size_ q;
  qi_len : length (pool_ q) = Z.to_nat (pool_size_ q);
  qi_order : 0 <= head_ q < commit_ q ∧ commit_ q <= tail_ q;
  qi_window : tail_ q - head_ q <= pool_size_ q - 1;
  qi_bound : tail_ q <= Z.of_nat k + 1;
  qi_enq : Z.of_nat (length elog) = commit_ q - 1;
  qi_deq : dlog = take (Z.to_nat (head_ q)) elog;
  qi_slots : ∀ pos, head_ q < pos < commit_ q →
    read_pool q pos = elog !! Z.to_nat (pos - 1)
}.

(** What a thread knows at each program counter. *)
Definition thread_ok (q : BoundedQueue T) (p : pc T) : Prop :=
  match p with
  | EnqCheck _ t => 1 <= t <= tail_ q
  | EnqCas _ t =>
      1 <= t <= tail_ q ∧ (t = tail_ q → t + 1 - head_ q <= pool_size_ q - 1)
  | EnqWrite _ t => commit_ q <= t < tail_ q
  | EnqCommit x t => commit_ q <= t < tail_ q ∧ read_pool q t = Some x
  | DeqCheck h => 0 <= h <= head_ q
  | DeqRead h => 0 <= h <= head_ q ∧ (h = head_ q → h + 1 < commit_ q)
  | DeqCas h v =>
      0 <= h <= head_ q ∧
      (h = head_ q → h + 1 < commit_ q ∧ read_pool q (h + 1) = Some v)
  | _ => True
  end.

(** The position a producer has reserved and not yet published. *)
Definition owned (p : pc T) : option Z :=
  match p with EnqWrite _ t | EnqCommit _ t => Some t | _ => None end.

Record conf_inv (k : nat) (c : Conf T) : Prop := {
  ci_queue : queue_inv k (queue c) (enq_log c) (deq_log c);
  ci_threads : ∀ i p, threads c !! i = Some p → thread_ok (queue c) p;
  ci_owners : ∀ i j p p' t, threads c !! i = Some p → threads c !! j = Some p' →
    owned p = Some t → owned p' = Some t → i = j
}.

(** What one access may change under the other threads: [mine] is the position
    its thread had reserved. *)
Record evolves (mine : option Z) (q q' : BoundedQueue T) : Prop := {
  ev_size : pool_size_ q' = pool_size_ q;
  ev_head : head_ q <= head_ q';
  ev_tail : tail_ q <= tail_ q';
  ev_commit : commit_ q <= commit_ q';
  ev_published : ∀ t, commit_ q <= t < commit_ q' → mine = Some t;
  ev_slots : ∀ pos, head_ q < pos < tail_ q → mine ≠ Some pos →
    read_pool q' pos = read_pool q pos
}.

Lemma evolves_refl mine q : evolves mine q q.
Proof. split; intros; try done; try reflexivity; lia. Qed.

Lemma thread_ok_evolves k q q' elog dlog mine p :
  queue_inv k q elog dlog → evolves mine q q' →
  (∀ t, mine = Some t → commit_ q <= t) →
  (∀ t, owned p = Some t → mine ≠ Some t) →
  thread_ok q p → thread_ok q' p.
Proof.
  intros [] [] Hmine Hown Hp.
  assert (∀ t, owned p = Some t → commit_ q <= t → commit_ q' <= t) as Hc.
  { intros t Ho Ht. destruct (Z_lt_ge_dec t (commit_ q')) as [Hlt|]; [|lia].
    exfalso. apply (Hown t Ho), ev_published0. lia. }
  destruct p; cbn in *; try done.
  - lia.
  - rewrite ev_size0. split; [lia|]. intros. assert (old_tail = tail_ q) by lia. lia.
  - specialize (Hc old_tail eq_refl). lia.
  - destruct Hp as [Hp Hr]. specialize (Hc old_tail eq_refl). split; [lia|].
    rewrite ev_slots0; [done|lia|by apply Hown].
  - lia.
  - split; [lia|]. intros. assert (old_head = head_ q) by lia. lia.
  - destruct Hp as [Hh Hp]. split; [lia|]. intros.
    destruct Hp as [Hlt Hr]; [lia|]. split; [lia|].
    rewrite ev_slots0; [done|lia|]. intros Hm%Hmine. lia.
Qed.

(** One access of a thread keeps the ring invariant, its own knowledge, and
    changes nothing another thread relies on. *)
Definition step_ok (k : nat) (q q' : BoundedQueue T) (p p' : pc T) (elog dlog : list T) : Prop :=
  queue_inv (S k) q' (elog ++ published p p') (dlog ++ taken p p') ∧
  thread_ok q' p' ∧ evolves (owned p) q q' ∧
  (∀ t, owned p' = Some t → owned p = Some t ∨ t = tail_ q).

Lemma step_ok_same k q p p' elog dlog :
  queue_inv k q elog dlog → published p p' = [] → taken p p' = [] →
  thread_ok q p' → (∀ t, owned p' = Some t → owned p = Some t) →
  step_ok k q q p p' elog dlog.
Proof.
  intros Hq Hp Ht Hok Ho. unfold step_ok. rewrite Hp, Ht, !app_nil_r.
  split; [|split; [done|split; [apply evolves_refl|eauto]]].
  destruct Hq. split; try done. lia.
Qed.

Lemma enq_reserve_ok k q x t elog dlog :
  queue_inv k q elog dlog → thread_ok q (EnqCas x t) → t = tail_ q →
  step_ok k q (set_tail q (t + 1)) (EnqCas x t) (EnqWrite x t) elog dlog.
Proof.
  intros Hq [Ht Hroom] ->. specialize (Hroom eq_refl). destruct Hq.
  unfold step_ok. cbn. rewrite !app_nil_r. split; [|split; [|split]].
  - split; cbn; try done; lia.
  - lia.
  - split; cbn; intros; try done; try lia.
  - intros ? [= <-]. by right.
Qed.

Lemma enq_write_ok k q x t elog dlog :
  queue_inv k q elog dlog → thread_ok q (EnqWrite x t) →
  step_ok k q (write_pool q t x) (EnqWrite x t) (EnqCommit x t) elog dlog.
Proof.
  intros Hq Ht. cbn in Ht. destruct Hq.
  unfold step_ok. cbn [published taken owned]. rewrite !app_nil_r.
  split; [|split; [|split]].
  - split; try done.
    + cbn. by rewrite length_insert.
    + cbn. lia.
    + intros pos Hpos. cbn in Hpos. rewrite read_write_other by lia. by apply qi_slots0.
  - split; [done|]. apply read_write_same; [lia|done].
  - split; cbn; intros; try done; try lia.
    apply read_write_other; [lia|lia|congruence].
  - intros ? [= <-]. by left.
Qed.

Lemma enq_commit_ok k q x t elog dlog :
  queue_inv k q elog dlog → thread_ok q (EnqCommit x t) → commit_ q = t →
  step_ok k q (set_commit q (t + 1)) (EnqCommit x t) (EnqDone true) elog dlog.
Proof.
  intros Hq [Ht Hx] Hc. destruct Hq.
  unfold step_ok. cbn [published taken owned]. rewrite !app_nil_r.
  split; [|split; [done|split]].
  - split; try done; cbn.
    + lia.
    + lia.
    + rewrite length_app. cbn. lia.
    + rewrite take_app_le by lia. done.
    + intros pos Hpos. change (read_pool q pos = (elog ++ [x]) !! Z.to_nat (pos - 1)).
      destruct (decide (pos = t)) as [->|].
      * rewrite Hx. rewrite lookup_app_r by lia.
        replace (Z.to_nat (t - 1) - length elog)%nat with 0%nat by lia. done.
      * rewrite lookup_app_l by lia. apply qi_slots0. lia.
  - split; cbn; intros; try done; try lia. f_equal. lia.
  - done.
Qed.

Lemma deq_take_ok k q h v elog dlog :
  queue_inv k q elog dlog → thread_ok q (DeqCas h v) → head_ q = h →
  step_ok k q (set_head q (h + 1)) (DeqCas h v) (DeqDone (Some v)) elog dlog.
Proof.
  intros Hq [Hh Hp] He. destruct (Hp (eq_sym He)) as [Hlt Hr]. destruct Hq.
  unfold step_ok. cbn [published taken owned]. rewrite !app_nil_r.
  split; [|split; [done|split]].
  - split; try done; cbn; try lia.
    + rewrite qi_deq0. replace (Z.to_nat (h + 1)) with (S (Z.to_nat (head_ q))) by lia.
      symmetry. apply take_S_r. rewrite <- Hr, qi_slots0 by lia. f_equal. lia.
    + intros pos Hpos. apply qi_slots0. lia.
  - split; cbn; intros; try done; try lia.
  - done.
Qed.

Lemma thread_step_ok k q p q' p' sp elog dlog :
  Z.of_nat k + 2 < 2 ^ 64 → queue_inv k q elog dlog → thread_ok q p →
  thread_step sp q p = Some (q', p') → step_ok k q q' p p' elog dlog.
Proof.
  intros Hk Hq Hp Hs. pose proof Hq as [].
  destruct p; cbn in Hs; try discriminate.
  - simplify_eq. apply step_ok_same; try done. cbn. lia.
  - cbn in Hp. rewrite u64_small in Hs by (unfold is_u64; lia).
    destruct (_ =? _) eqn:E in Hs; simplify_eq; apply step_ok_same; try done.
    cbn. split; [done|]. intros ->. zbool.
    destruct (decide (tail_ q' + 1 - head_ q' = pool_size_ q')) as [Heq|]; [|lia].
    exfalso. apply E. rewrite <- (GetIndex_turn q' (head_ q')) by lia. f_equal. lia.
  - destruct Hp as [Ht Hroom]. rewrite u64_small in Hs by (unfold is_u64; lia).
    destruct (negb sp && _) eqn:E; simplify_eq.
    + zbool. by apply enq_reserve_ok.
    + apply step_ok_same; try done. cbn. lia.
  - simplify_eq. by apply enq_write_ok.
  - pose proof Hp as [Ht _]. rewrite u64_small in Hs by (unfold is_u64; lia).
    destruct (negb sp && _) eqn:E; simplify_eq.
    + zbool. by apply enq_commit_ok.
    + by apply step_ok_same.
  - simplify_eq. apply step_ok_same; try done. cbn. lia.
  - cbn in Hp. rewrite u64_small in Hs by (unfold is_u64; lia).
    destruct (_ =? _) eqn:E in Hs; simplify_eq; apply step_ok_same; try done.
    cbn. zbool. lia.
  - destruct Hp as [Hh Hlt]. rewrite u64_small in Hs by (unfold is_u64; lia).
    destruct (read_pool q (old_head + 1)) as [v|] eqn:E; simplify_eq.
    apply step_ok_same; try done. cbn. auto.
  - pose proof Hp as [Hh _]. rewrite u64_small in Hs by (unfold is_u64; lia).
    destruct (negb sp && _) eqn:E; simplify_eq.
    + zbool. by apply deq_take_ok.
    + apply step_ok_same; try done. cbn. lia.
Qed.

Lemma thread_ok_owned q p t : thread_ok q p → owned p = Some t → commit_ q <= t < tail_ q.
Proof. destruct p; cbn; intros; simplify_eq; tauto. Qed.

Lemma step_inv k c c' :
  Z.of_nat k + 2 < 2 ^ 64 → conf_inv k c → step c c' → conf_inv (S k) c'.
Proof.
  intros Hk Hc Hs. destruct Hs as [c i p Hidle Hcall|c i p sp q' p' Hi Hs].
  - destruct Hc as [Hq Ht Ho]. assert (owned p = None) as Hn by (by destruct p).
    split; cbn.
    + destruct Hq. split; try done. lia.
    + intros j p' [[<- <-]|[_ Hj]]%lookup_insert_Some; [by destruct p|eauto].
    + intros i' j' p1 p2 t [[<- <-]|[_ H1]]%lookup_insert_Some
        [[<- <-]|[_ H2]]%lookup_insert_Some Ho1 Ho2; simplify_eq; eauto; congruence.
  - destruct Hc as [Hq Ht Ho].
    destruct (thread_step_ok k _ p q' p' sp _ _ Hk Hq (Ht _ _ Hi) Hs) as (Hq' & Hok & Hev & Hown).
    assert (∀ j p2 t, j ≠ i → threads c !! j = Some p2 → owned p2 = Some t →
      owned p ≠ Some t ∧ owned p' ≠ Some t) as Hsep.
    { intros j p2 t Hne Hj Ho2. pose proof (thread_ok_owned _ _ _ (Ht _ _ Hj) Ho2).
      assert (owned p ≠ Some t) by (intros Ho1; apply Hne; eauto).
      split; [done|]. intros [?| ->]%Hown; [done|lia]. }
    split; cbn.
    + done.
    + intros j p2 [[<- <-]|[Hne Hj]]%lookup_insert_Some; [done|].
      apply (thread_ok_evolves k (queue c) _ _ _ (owned p) p2 Hq Hev).
      * intros t Hot. apply (thread_ok_owned _ p t); eauto.
      * intros t Hot. destruct (Hsep j p2 t) as [? _]; eauto.
      * eauto.
    + intros i' j' p1 p2 t [[<- <-]|[? H1]]%lookup_insert_Some
        [[<- <-]|[? H2]]%lookup_insert_Some Ho1 Ho2; eauto; exfalso.
      * by destruct (Hsep j' p2 t).
      * by destruct (Hsep i' p1 t).
Qed.

Lemma init_inv (dflt : T) size :
  0 <= size → size + 2 < 2 ^ 64 → conf_inv 0 (init_conf dflt size).
Proof.
  intros Hs Hb. split; cbn; [|set_solver..].
  split; cbn; rewrite ?u64_small, ?length_replicate by (unfold is_u64; lia);
    try done; try lia.
Qed.

Lemma steps_inv k (dflt : T) size c :
  0 <= size → size + 2 < 2 ^ 64 → Z.of_nat k + 2 < 2 ^ 64 →
  steps k (init_conf dflt size) c → conf_inv k c.
Proof.
  intros Hs Hb Hk Hsteps. remember (init_conf dflt size) as c0 eqn:E.
  induction Hsteps as [c|k c c' c'' H IH Hst]; subst.
  - by apply init_inv.
  - apply (step_inv k c'); [lia| |done]. apply IH; [lia|done].
Qed.
End invariant.

Section results.
Context {T : Type}.
Implicit Types (q : BoundedQueue T) (c : Conf T).

Lemma thread_step_pool_size sp q p q' p' :
  thread_step sp q p = Some (q', p') → pool_size_ q' = pool_size_ q.
Proof.
  destruct p; cbn; intros; repeat destruct_match; by simplify_eq.
Qed.

Lemma steps_pool_size k c c' : steps k c c' → pool_size_ (queue c') = pool_size_ (queue c).
Proof.
  induction 1 as [|k c c' c'' H IH Hs]; [done|]. rewrite <- IH.
  destruct Hs; [done|]. by eapply thread_step_pool_size.
Qed.

Lemma contents_drop k q elog dlog :
  queue_inv k q elog dlog → contents q = drop (Z.to_nat (head_ q)) elog.
Proof.
  intros []. unfold contents.
  assert (∀ i, (i < Z.to_nat (commit_ q - head_ q - 1))%nat →
    read_pool q (head_ q + 1 + Z.of_nat i) = drop (Z.to_nat (head_ q)) elog !! i) as Hr.
  { intros i Hi. rewrite qi_slots0, lookup_drop by lia. f_equal. lia. }
  assert (length (drop (Z.to_nat (head_ q)) elog) = Z.to_nat (commit_ q - head_ q - 1)) as Hl
    by (rewrite length_drop; lia).
  rewrite <- Hl in Hr |- *. clear -Hr.
  assert (∀ l s (f : nat → option T), (∀ i, (i < length l)%nat → f (s + i)%nat = l !! i) →
    omap f (seq s (length l)) = l) as Hgen.
  { induction l as [|a l IH]; intros s f Hf; [done|]. cbn.
    pose proof (Hf 0%nat ltac:(cbn; lia)) as H0. rewrite Nat.add_0_r in H0. cbn in H0.
    rewrite H0. f_equal. apply IH. intros i Hi.
    transitivity (f (s + S i)%nat); [f_equal; lia|]. apply (Hf (S i)). cbn. lia. }
  apply Hgen. intros i Hi. by apply Hr.
Qed.

(** [C2] First in, first out under every interleaving: whatever the threads
    calling [Enqueue] and [Dequeue] and the order of their atomic accesses
    (spurious failures of the weak compare-exchange included), the values
    published so far are exactly the values taken so far followed by the values
    in the ring between [head_] and [commit_], so nothing is lost, duplicated or
    reordered, and the ring never holds more than [size] of them.  The counters
    are 64-bit; the bound is on the number of accesses, one per nanosecond for
    584 years. *)
Theorem bounded_queue_fifo (dflt : T) size k c :
  0 <= size → size + 2 < 2 ^ 64 → Z.of_nat k + 2 < 2 ^ 64 →
  steps k (init_conf dflt size) c →
  enq_log c = deq_log c ++ contents (queue c) ∧
  Z.of_nat (length (contents (queue c))) <= size.
Proof.
  intros Hs Hb Hk Hst. pose proof (steps_inv k dflt size c Hs Hb Hk Hst) as [Hq _ _].
  pose proof (steps_pool_size _ _ _ Hst) as Hps. cbn in Hps.
  rewrite u64_small in Hps by (unfold is_u64; lia).
  rewrite (contents_drop _ _ _ _ Hq). destruct Hq. split.
  - rewrite qi_deq0 at 1. by rewrite take_drop.
  - rewrite length_drop. lia.
Qed.

(** When [Dequeue] returns false, the queue holds no published element at
    the moment it reads [commit_]; when [Enqueue] returns false, either every
    one of the [size] slots is reserved at the moment it reads [head_], or its
    copy of [tail_] was already out of date. *)
Theorem bounded_queue_refusals (dflt : T) size k c i q' :
  0 <= size → size + 2 < 2 ^ 64 → Z.of_nat k + 2 < 2 ^ 64 →
  steps k (init_conf dflt size) c →
  (∀ h, threads c !! i = Some (DeqCheck h) →
    thread_step false (queue c) (DeqCheck h) = Some (q', DeqDone None) →
    contents (queue c) = []) ∧
  (∀ x t, threads c !! i = Some (EnqCheck x t) →
    thread_step false (queue c) (EnqCheck x t) = Some (q', EnqDone false) →
    tail_ (queue c) - head_ (queue c) - 1 = size ∨ t < tail_ (queue c)).
Proof.
  intros Hs Hb Hk Hst. pose proof (steps_inv k dflt size c Hs Hb Hk Hst) as [Hq Ht _].
  pose proof (steps_pool_size _ _ _ Hst) as Hps. cbn in Hps.
  rewrite u64_small in Hps by (unfold is_u64; lia). pose proof Hq as [].
  split.
  - intros h Hi Hd. pose proof (Ht _ _ Hi) as Hh. cbn in Hh, Hd.
    rewrite u64_small in Hd by (unfold is_u64; lia).
    destruct (_ =? _) eqn:E in Hd; simplify_eq. zbool.
    unfold contents. by replace (Z.to_nat _) with 0%nat by lia.
  - intros x t Hi Hd. pose proof (Ht _ _ Hi) as Hh. cbn in Hh, Hd.
    rewrite u64_small in Hd by (unfold is_u64; lia).
    destruct (_ =? _) eqn:E in Hd; simplify_eq. zbool.
    destruct (decide (t < tail_ (queue c))); [by right|left].
    destruct (decide (t + 1 - head_ (queue c) = pool_size_ (queue c))); [lia|].
    apply GetIndex_eq_iff in E; lia.
Qed.
End results.

(** ** Running schedules *)

(** A schedule: calls and accesses, in order. *)
Inductive action (T : Type) :=
| Call (t : nat) (p : pc T)
| Access (t : nat) (spurious : bool).
Arguments Call {T} _ _.
Arguments Access {T} _ _.

Definition run_action {T} (c : Conf T) (a : action T) : option (Conf T) :=
  match a with
  | Call t p =>
      match threads c !! t, p with
      | (None | Some (EnqDone _) | Some (DeqDone _)), (EnqLoad _ | DeqLoad) =>
          Some (mkConf (queue c) (<[t := p]> (threads c)) (enq_log c) (deq_log c))
      | _, _ => None
      end
  | Access t sp =>
      p ← threads c !! t;
      '(q', p') ← thread_step sp (queue c) p;
      Some (mkConf q' (<[t := p']> (threads c)) (enq_log c ++ published p p')
              (deq_log c ++ taken p p'))
  end.

Fixpoint run {T} (c : Conf T) (l : list (action T)) : option (Conf T) :=
  match l with
  | [] => Some c
  | a :: l => c' ← run_action c a; run c' l
  end.

Lemma run_action_step {T} (c c' : Conf T) a : run_action c a = Some c' → step c c'.
Proof.
  destruct a as [t p|t sp]; cbn; intros H.
  - assert (idle (threads c) t ∧ is_call p) as [Hi Hp].
    { unfold idle. destruct (threads c !! t) as [[]|], p; by simplify_eq. }
    assert (Some c' = Some (mkConf (queue c) (<[t := p]> (threads c)) (enq_log c) (deq_log c)))
      as [= ->].
    { rewrite <- H. unfold idle in Hi. by destruct (threads c !! t) as [[]|], p. }
    by constructor.
  - destruct (threads c !! t) as [p|] eqn:Ht; [|done]. cbn in H.
    destruct (thread_step sp (queue c) p) as [[q' p']|] eqn:Hs; [|done]. cbn in H.
    simplify_eq. by econstructor.
Qed.

Lemma run_steps {T} (l : list (action T)) k c0 c c' :
  steps k c0 c → run c l = Some c' → steps (k + length l) c0 c'.
Proof.
  revert k c. induction l as [|a l IH]; intros k c Hk; cbn.
  - intros [= <-]. by rewrite Nat.add_0_r.
  - destruct (run_action c a) as [c1|] eqn:E; [|done]. cbn. intros Hr.
    replace (k + S (length l))%nat with (S k + length l)%nat by lia.
    apply (IH (S k) c1); [|done]. econstructor; [done|]. by apply (run_action_step _ _ a).
Qed.

(** Thread [t] runs a whole [Enqueue(x)] (five accesses) or a whole
    [Dequeue] (four) without interruption. *)
Definition enqueue_alone {T} (t : nat) (x : T) : list (action T) :=
  Call t (EnqLoad x) :: replicate 5 (Access t false).
Definition dequeue_alone {T} (t : nat) : list (action T) :=
  Call t DeqLoad :: replicate 4 (Access t false).

(** Thread 1 loads [tail_] and stops; thread 2 enqueues and dequeues twice;
    thread 1 goes on. *)
Definition stale_tail_schedule : list (action Z) :=
  [Call 1 (EnqLoad 7); Access 1 false] ++
  enqueue_alone 2 5 ++ dequeue_alone 2 ++ enqueue_alone 2 6 ++ dequeue_alone 2 ++
  [Access 1 false].

Lemma bounded_queue_fifo_witness :
  ∃ c, steps 14 (init_conf 0 2) c ∧ enq_log c = [5; 6] ∧
    enq_log c = deq_log c ++ contents (queue c) ∧
    Z.of_nat (length (contents (queue c))) <= 2.
Proof.
  assert (∃ c, run (init_conf 0 2) (enqueue_alone 1%nat 5 ++ enqueue_alone 2%nat 6 ++
    [Call 3%nat DeqLoad; Access 3%nat false]) = Some c ∧ enq_log c = [5; 6]) as (c & Hr & He)
    by (eexists; split; [vm_compute; reflexivity|reflexivity]).
  pose proof (run_steps _ 0 _ _ _ (steps_refl _) Hr) as Hst.
  exists c. split; [exact Hst|]. split; [exact He|].
  apply (bounded_queue_fifo 0 2 14 c); [lia|lia|lia|exact Hst].
Defined.

Lemma bounded_queue_refusals_witness :
  ∃ c, steps 2 (init_conf 0 1) c ∧ threads c !! 3%nat = Some (DeqCheck 0) ∧
    contents (queue c) = [].
Proof.
  assert (∃ c, run (init_conf 0 1) [Call 3%nat DeqLoad; Access 3%nat false] = Some c ∧
    threads c !! 3%nat = Some (DeqCheck 0) ∧
    thread_step false (queue c) (DeqCheck 0) = Some (queue c, DeqDone None))
    as (c & Hr & Ht & Hd)
    by (eexists; split; [vm_compute; reflexivity|split; reflexivity]).
  pose proof (run_steps _ 0 _ _ _ (steps_refl _) Hr) as Hst.
  exists c. split; [exact Hst|]. split; [exact Ht|].
  apply (bounded_queue_refusals 0 1 2 c 3%nat (queue c)) with (h := 0);
    [lia|lia|lia|exact Hst|exact Ht|exact Hd].
Defined.

(** [Enqueue] may return false on an empty queue: with one slot, a thread
    that loaded [tail_] and was overtaken by two enqueue/dequeue pairs compares
    its stale position with the new [head_] and reports a full queue. *)
Theorem enqueue_spurious_refusal :
  ∃ c, run (init_conf 0 1) stale_tail_schedule = Some c ∧
    threads c !! 1%nat = Some (EnqDone false) ∧ Size (queue c) = 0 ∧
    contents (queue c) = [] ∧ deq_log c = [5; 6].
Proof. eexists. split; [vm_compute; reflexivity|]. repeat split; vm_compute; reflexivity. Qed.

(** ** The sequential queue *)

Section sequential.
Context {T : Type}.
Implicit Types (q : BoundedQueue T).

(** The queue as a list: every reservation published. *)
Record models (q : BoundedQueue T) (l : list T) : Prop := {
  m_size : 2 <= pool_size_ q;
  m_len : length (pool_ q) = Z.to_nat (pool_size_ q);
  m_head : 0 <= head_ q;
  m_tail : tail_ q = head_ q + 1 + Z.of_nat (length l);
  m_commit : commit_ q = tail_ q;
  m_room : Z.of_nat (length l) <= pool_size_ q - 2;
  m_slots : ∀ i, (i < length l)%nat → read_pool q (head_ q + 1 + Z.of_nat i) = l !! i
}.

Lemma models_Init (dflt : T) size :
  0 <= size → size + 2 < 2 ^ 64 → models (Init dflt size) [].
Proof.
  intros. split; cbn; rewrite ?u64_small, ?length_replicate by (unfold is_u64; lia);
    try done; try lia.
Qed.

Lemma Enqueue_models q l x :
  models q l → tail_ q + 1 < 2 ^ 64 →
  if Z.of_nat (length l) <? pool_size_ q - 2
  then (Enqueue q x).2 = true ∧ models (Enqueue q x).1 (l ++ [x])
  else Enqueue q x = (q, false).
Proof.
  intros [] Hb. unfold Enqueue. rewrite u64_small by (unfold is_u64; lia).
  destruct (_ <? _) eqn:E; zbool.
  - destruct (_ =? _) eqn:E' in |- *; zbool.
    { apply GetIndex_eq_iff in E'; lia. }
    split; [done|]. cbn [fst]. split; cbn; rewrite ?length_app, ?length_insert; try done; cbn; try lia.
    intros i Hi. change (read_pool (write_pool q (tail_ q) x) (head_ q + 1 + Z.of_nat i) = (l ++ [x]) !! i).
    destruct (decide (i = length l)) as [->|].
    + rewrite lookup_app_r, Nat.sub_diag, <- m_tail0 by lia. by apply read_write_same; [lia|].
    + rewrite lookup_app_l by lia. rewrite read_write_other by lia. apply m_slots0. lia.
  - replace (tail_ q + 1) with (head_ q + pool_size_ q) by lia.
    rewrite GetIndex_turn by lia. by rewrite Z.eqb_refl.
Qed.

Lemma Dequeue_models q l :
  models q l → tail_ q + 1 < 2 ^ 64 →
  match l with
  | [] => Dequeue q = (q, None)
  | x :: l' => (Dequeue q).2 = Some x ∧ models (Dequeue q).1 l'
  end.
Proof.
  intros [] Hb. unfold Dequeue. rewrite u64_small by (unfold is_u64; lia).
  destruct l as [|x l]; cbn in *.
  - replace (head_ q + 1 =? commit_ q) with true by (symmetry; apply Z.eqb_eq; lia). done.
  - replace (head_ q + 1 =? commit_ q) with false by (symmetry; apply Z.eqb_neq; lia).
    pose proof (m_slots0 0%nat ltac:(lia)) as H0. rewrite Z.add_0_r in H0. rewrite H0. cbn.
    split; [done|]. split; cbn; try done; try lia.
    intros i Hi. change (read_pool q (head_ q + 1 + 1 + Z.of_nat i) = l !! i).
    transitivity (read_pool q (head_ q + 1 + Z.of_nat (S i))); [f_equal; lia|].
    apply (m_slots0 (S i)). lia.
Qed.

Lemma Size_models q l :
  models q l → tail_ q + 1 < 2 ^ 64 → Size q = Z.of_nat (length l).
Proof. intros [] Hb. unfold Size. rewrite u64_small; unfold is_u64; lia. Qed.

(** A client's calls, the answers of the queue, and those of a list of at most
    [cap] elements. *)
Inductive op := OpEnqueue (x : T) | OpDequeue | OpSize.
Inductive answer := Accepted (b : bool) | Taken (r : option T) | Held (n : Z).

Definition queue_op (q : BoundedQueue T) (o : op) : BoundedQueue T * answer :=
  match o with
  | OpEnqueue x => let '(q', b) := Enqueue q x in (q', Accepted b)
  | OpDequeue => let '(q', r) := Dequeue q in (q', Taken r)
  | OpSize => (q, Held (Size q))
  end.

Definition list_op (cap : Z) (l : list T) (o : op) : list T * answer :=
  match o with
  | OpEnqueue x =>
      if Z.of_nat (length l) <? cap then (l ++ [x], Accepted true) else (l, Accepted false)
  | OpDequeue => match l with [] => ([], Taken None) | x :: l' => (l', Taken (Some x)) end
  | OpSize => (l, Held (Z.of_nat (length l)))
  end.

Fixpoint answers {S} (f : S → op → S * answer) (s : S) (os : list op) : list answer :=
  match os with
  | [] => []
  | o :: os => let '(s', a) := f s o in a :: answers f s' os
  end.

Lemma queue_op_models q l o :
  models q l → tail_ q + 1 < 2 ^ 64 →
  (queue_op q o).2 = (list_op (pool_size_ q - 2) l o).2 ∧
  models (queue_op q o).1 (list_op (pool_size_ q - 2) l o).1 ∧
  pool_size_ (queue_op q o).1 = pool_size_ q ∧ tail_ (queue_op q o).1 <= tail_ q + 1.
Proof.
  intros Hm Hb. destruct o as [x| |]; cbn [queue_op list_op].
  - pose proof (Enqueue_models q l x Hm Hb) as He.
    assert (pool_size_ (Enqueue q x).1 = pool_size_ q ∧ tail_ (Enqueue q x).1 <= tail_ q + 1) as [? ?].
    { unfold Enqueue. rewrite u64_small by (destruct Hm; unfold is_u64; lia).
      destruct_match; cbn; lia. }
    destruct (_ <? _); destruct (Enqueue q x) as [q' b]; cbn in *.
    + destruct He as [-> ?]. done.
    + by simplify_eq.
  - pose proof (Dequeue_models q l Hm Hb) as Hd.
    assert (pool_size_ (Dequeue q).1 = pool_size_ q ∧ tail_ (Dequeue q).1 <= tail_ q + 1) as [? ?].
    { unfold Dequeue. repeat destruct_match; cbn; lia. }
    destruct l as [|x l]; destruct (Dequeue q) as [q' r]; cbn in *.
    + by simplify_eq.
    + destruct Hd as [-> ?]. done.
  - cbn. rewrite (Size_models q l Hm Hb). split; [done|]. split; [done|]. split; [done|lia].
Qed.

Lemma answers_models os q l :
  models q l → tail_ q + Z.of_nat (length os) < 2 ^ 64 →
  answers queue_op q os = answers (list_op (pool_size_ q - 2)) l os.
Proof.
  revert q l. induction os as [|o os IH]; intros q l Hm Hb; [done|]. cbn [answers length] in *.
  destruct (queue_op_models q l o Hm ltac:(lia)) as (Ha & Hm' & Hp & Ht).
  destruct (queue_op q o) as [q' a], (list_op _ l o) as [l' a']. cbn in *. subst a'.
  f_equal. rewrite <- Hp. apply IH; [done|lia].
Qed.

(** Used by one thread, the queue of [Init(size)] answers every sequence of
    [Enqueue], [Dequeue] and [Size] calls as a list that accepts at most [size]
    elements. *)
Theorem bounded_queue_refines_list (dflt : T) size os :
  0 <= size → size + 2 < 2 ^ 64 → Z.of_nat (length os) + 1 < 2 ^ 64 →
  answers queue_op (Init dflt size) os = answers (list_op size) [] os.
Proof.
  intros Hs Hb Hl. rewrite (answers_models os _ [] (models_Init dflt size Hs Hb)).
  - cbn. rewrite u64_small by (unfold is_u64; lia). f_equal. f_equal. lia.
  - cbn. lia.
Qed.
End sequential.
Arguments op : clear implicits.
Arguments answer : clear implicits.

Lemma bounded_queue_refines_list_witness :
  answers queue_op (Init 0 1) [OpEnqueue 5; OpEnqueue 6; OpDequeue; OpDequeue; OpSize]
  = [Accepted true; Accepted false; Taken (Some 5); Taken None; Held 0].
Proof.
  rewrite (bounded_queue_refines_list 0 1 [OpEnqueue 5; OpEnqueue 6; OpDequeue; OpDequeue; OpSize]);
    [reflexivity|lia|lia|cbn; lia].
Defined.
