(* ===== verification/AtomicRWLock.v ===== *)
(** * AtomicRWLock (cyber/base/atomic_rw_lock.h) and its guards
    (cyber/base/rw_lock_guard.h)

    The spinning reader/writer lock: [lock_num_] counts the readers, or is
    [WRITE_EXCLUSIVE] under a writer; [write_lock_wait_num_] counts the writers
    waiting, to which readers give way when [write_first_].  A thread takes the
    lock only through [ReadLockGuard] and [WriteLockGuard], so that it unlocks
    what it locked; each program counter below is one atomic access. *)

From stdpp Require Import base numbers list.
From Stdlib Require Import ZArith Lia.
From S2P Require Import Prelude Interleave.

Open Scope Z_scope.

Definition RW_LOCK_FREE : Z := 0.
Definition WRITE_EXCLUSIVE : Z := -1.
Definition MAX_RETRY_TIMES : Z := 5.

Record AtomicRWLock := mkAtomicRWLock {
  write_lock_wait_num_ : Z;   (* uint32_t *)
  lock_num_ : Z;              (* int32_t *)
  write_first_ : bool
}.

Definition AtomicRWLock_new (write_first : bool) : AtomicRWLock :=
  mkAtomicRWLock 0 0 write_first.

Definition set_lock_num (l : AtomicRWLock) (v : Z) : AtomicRWLock :=
  mkAtomicRWLock (write_lock_wait_num_ l) v (write_first_ l).
Definition set_wait_num (l : AtomicRWLock) (v : Z) : AtomicRWLock :=
  mkAtomicRWLock v (lock_num_ l) (write_first_ l).

Inductive pc :=
| Idle
| ReadLoad (retry_times : Z)                  (* [lock_num_.load] *)
| ReadCheck (lock_num retry_times : Z)        (* the inner while's condition *)
| ReadCas (lock_num retry_times : Z)          (* compare-exchange *)
| ReadHeld                                    (* inside a ReadLockGuard *)
| WriteAdd                                    (* [write_lock_wait_num_.fetch_add] *)
| WriteCas (retry_times : Z)                  (* compare-exchange *)
| WriteSub                                    (* [write_lock_wait_num_.fetch_sub] *)
| WriteHeld.                                  (* inside a WriteLockGuard *)

(** What the code does not decide: the guard the client builds next, and
    whether a weak compare-exchange fails spuriously. *)
Inductive choice := WantRead | WantWrite | Spurious | Regular.

(** [if (++retry_times == MAX_RETRY_TIMES) { yield; retry_times = 0; }] *)
Definition next_retry (retry_times : Z) : Z :=
  let r := u32 (retry_times + 1) in if r =? MAX_RETRY_TIMES then 0 else r.

Definition is_spurious (ch : choice) : bool :=
  match ch with Spurious => true | _ => false end.

Definition ReadLock_step (ch : choice) (l : AtomicRWLock) (p : pc)
  : option (AtomicRWLock * pc) :=
  match p with
  | ReadLoad r => Some (l, ReadCheck (lock_num_ l) r)
  | ReadCheck v r =>
      if (v <? RW_LOCK_FREE) || (write_first_ l && (0 <? write_lock_wait_num_ l))
      then Some (l, ReadLoad (next_retry r))
      else Some (l, ReadCas v r)
  | ReadCas v r =>
      if negb (is_spurious ch) && (lock_num_ l =? v)
      then Some (set_lock_num l (i32 (v + 1)), ReadHeld)
      else Some (l, ReadCheck (lock_num_ l) r)
  | _ => None
  end.

Definition WriteLock_step (ch : choice) (l : AtomicRWLock) (p : pc)
  : option (AtomicRWLock * pc) :=
  match p with
  | WriteAdd => Some (set_wait_num l (u32 (write_lock_wait_num_ l + 1)), WriteCas 0)
  | WriteCas r =>
      if negb (is_spurious ch) && (lock_num_ l =? RW_LOCK_FREE)
      then Some (set_lock_num l WRITE_EXCLUSIVE, WriteSub)
      else Some (l, WriteCas (next_retry r))
  | WriteSub => Some (set_wait_num l (u32 (write_lock_wait_num_ l - 1)), WriteHeld)
  | _ => None
  end.

Definition ReadUnlock (l : AtomicRWLock) : AtomicRWLock :=
  set_lock_num l (i32 (lock_num_ l - 1)).
Definition WriteUnlock (l : AtomicRWLock) : AtomicRWLock :=
  set_lock_num l (i32 (lock_num_ l + 1)).

(** One access of a thread: building a guard enters the lock operation, leaving
    its scope unlocks. *)
Definition guard_step (ch : choice) (t : nat) (l : AtomicRWLock) (p : pc)
  : option (AtomicRWLock * pc) :=
  match p with
  | Idle =>
      match ch with
      | WantRead => Some (l, ReadLoad 0)
      | WantWrite => Some (l, WriteAdd)
      | _ => None
      end
  | ReadHeld => Some (ReadUnlock l, Idle)
  | WriteHeld => Some (WriteUnlock l, Idle)
  | ReadLoad _ | ReadCheck _ _ | ReadCas _ _ => ReadLock_step ch l p
  | WriteAdd | WriteCas _ | WriteSub => WriteLock_step ch l p
  end.

(** ** The invariant *)

Definition reading (p : pc) : Z := match p with ReadHeld => 1 | _ => 0 end.
Definition writing (p : pc) : Z :=
  match p with WriteSub | WriteHeld => 1 | _ => 0 end.
Definition waiting (p : pc) : Z :=
  match p with WriteCas _ | WriteSub => 1 | _ => 0 end.

Lemma reading_nonneg p : 0 <= reading p. Proof. by destruct p. Qed.
Lemma writing_nonneg p : 0 <= writing p. Proof. by destruct p. Qed.
Lemma waiting_nonneg p : 0 <= waiting p. Proof. by destruct p. Qed.

(** A compare-exchange of a reader is only tried with a non-negative value. *)
Definition pc_ok (p : pc) : Prop :=
  match p with ReadCas v _ => 0 <= v | _ => True end.

Record lock_inv (c : AtomicRWLock * list pc) : Prop := {
  li_writers : 0 <= tally writing c.2 <= 1;
  li_excl : tally writing c.2 = 1 → tally reading c.2 = 0;
  li_num : lock_num_ c.1 = tally reading c.2 - tally writing c.2;
  li_wait : write_lock_wait_num_ c.1 = tally waiting c.2;
  li_bound : Z.of_nat (length c.2) < 2 ^ 31 - 1;
  li_pcs : ∀ i p, c.2 !! i = Some p → pc_ok p
}.

Lemma lock_inv_init write_first n :
  Z.of_nat n < 2 ^ 31 - 1 → lock_inv (AtomicRWLock_new write_first, replicate n Idle).
Proof.
  intros Hn. split; cbn; rewrite ?tally_replicate, ?length_replicate; cbn; try lia.
  intros i p [-> _]%lookup_replicate. done.
Qed.

Lemma pcs_ok_insert (ps : list pc) t p' :
  (∀ i p, ps !! i = Some p → pc_ok p) → pc_ok p' →
  ∀ i p, <[t := p']> ps !! i = Some p → pc_ok p.
Proof.
  intros H Hp i p Hi. apply list_lookup_insert_Some in Hi as [(_ & -> & _)|[_ Hi]]; eauto.
Qed.

Lemma lock_inv_step c t ch p l' p' :
  lock_inv c → c.2 !! t = Some p → guard_step ch t c.1 p = Some (l', p') →
  lock_inv (l', <[t := p']> c.2).
Proof.
  intros [] Ht Hs. destruct c as [l ps]. cbn in *.
  pose proof (tally_elem reading reading_nonneg ps t p Ht) as Hr.
  pose proof (tally_elem writing writing_nonneg ps t p Ht) as Hw.
  pose proof (tally_elem waiting waiting_nonneg ps t p Ht) as Hwt.
  pose proof (tally_le reading ps ltac:(by intros [])) as Hr1.
  pose proof (tally_le waiting ps ltac:(by intros [])) as Hw1.
  pose proof (tally_nonneg reading reading_nonneg ps) as Hr0.
  pose proof (li_pcs0 t p Ht) as Hpc.
  assert (∀ p2, tally reading (<[t := p2]> ps) = tally reading ps - reading p + reading p2 ∧
    tally writing (<[t := p2]> ps) = tally writing ps - writing p + writing p2 ∧
    tally waiting (<[t := p2]> ps) = tally waiting ps - waiting p + waiting p2) as Htl.
  { intros p2. by rewrite !(tally_insert _ ps t p p2 Ht). }
  assert (∀ p2, pc_ok p2 → ∀ i p0, <[t := p2]> ps !! i = Some p0 → pc_ok p0) as Hpcs.
  { intros p2. by apply pcs_ok_insert. }
  destruct (Htl p') as (Htr & Htw & Htt).
  assert (Hgoal : ∀ (A : pc_ok p'),
    (0 <= tally writing ps - writing p + writing p' <= 1) →
    (tally writing ps - writing p + writing p' = 1 → tally reading ps - reading p + reading p' = 0) →
    lock_num_ l' = tally reading ps - reading p + reading p' - (tally writing ps - writing p + writing p') →
    write_lock_wait_num_ l' = tally waiting ps - waiting p + waiting p' →
    lock_inv (l', <[t := p']> ps)).
  { intros A B D E F. split; cbn; rewrite ?Htr, ?Htw, ?Htt, ?length_insert; auto.
    by apply Hpcs. }
  clear Htl Hpcs Htr Htw Htt.
  destruct p; cbn in Hs, Hr, Hw, Hwt, Hpc.
  - destruct ch; simplify_eq; apply Hgoal; cbn; try done; lia.
  - simplify_eq. apply Hgoal; cbn; try done; lia.
  - destruct (_ || _) eqn:E in Hs; simplify_eq; zbool; apply Hgoal; cbn; try done; lia.
  - destruct (_ && _) eqn:E in Hs; simplify_eq; zbool; apply Hgoal; cbn; try done; try lia.
    rewrite i32_small by (unfold is_i32; lia). lia.
  - simplify_eq. apply Hgoal; cbn; try done; try lia.
    rewrite i32_small by (unfold is_i32; lia). lia.
  - simplify_eq. apply Hgoal; cbn; try done; try lia.
    rewrite u32_small by (unfold is_u32; lia). lia.
  - destruct (_ && _) eqn:E in Hs; simplify_eq; zbool; apply Hgoal; cbn; try done; unfold RW_LOCK_FREE, WRITE_EXCLUSIVE in *; lia.
  - simplify_eq. apply Hgoal; cbn; try done; try lia.
    rewrite u32_small by (unfold is_u32; lia). lia.
  - simplify_eq. apply Hgoal; cbn; try done; try lia.
    rewrite i32_small by (unfold is_i32; lia). lia.
Qed.

Lemma reach_lock_inv write_first n k c :
  Z.of_nat n < 2 ^ 31 - 1 →
  reach guard_step (AtomicRWLock_new write_first, replicate n Idle) k c → lock_inv c.
Proof.
  intros Hn Hr.
  apply (reach_invariant guard_step k (λ _, lock_inv) _ k c (lock_inv_init write_first n Hn)); [|done|lia].
  intros. by eapply lock_inv_step.
Qed.

Lemma tally_all_zero (w : pc → Z) ps :
  (∀ p, 0 <= w p) → tally w ps = 0 → ∀ i p, ps !! i = Some p → w p = 0.
Proof.
  intros Hw H0 i p Hi. pose proof (tally_elem w Hw ps i p Hi). specialize (Hw p). lia.
Qed.

(** [C36] Mutual exclusion: in every interleaving of any number of threads using
    the guards, spurious failures of the compare-exchange included, a thread
    inside a [WriteLockGuard] (or past its winning compare-exchange) excludes
    every other reader and writer, and [lock_num_] is then [WRITE_EXCLUSIVE];
    otherwise [lock_num_] is the number of threads inside a [ReadLockGuard]. *)
Theorem rw_lock_mutual_exclusion write_first n k l ps :
  Z.of_nat n < 2 ^ 31 - 1 →
  reach guard_step (AtomicRWLock_new write_first, replicate n Idle) k (l, ps) →
  (∀ i j p p', ps !! i = Some p → ps !! j = Some p' → i ≠ j →
     writing p = 1 → writing p' = 0 ∧ reading p' = 0) ∧
  lock_num_ l = (if tally writing ps =? 1 then WRITE_EXCLUSIVE else tally reading ps).
Proof.
  intros Hn Hr. pose proof (reach_lock_inv _ _ _ _ Hn Hr) as []. cbn in *. split.
  - intros i j p p' Hi Hj Hne Hw.
    pose proof (tally_two writing writing_nonneg ps i j p p' Hne Hi Hj).
    pose proof (writing_nonneg p'). assert (tally writing ps = 1) as H1 by lia.
    split; [lia|]. apply (tally_all_zero reading ps reading_nonneg (li_excl0 H1) j p' Hj).
  - unfold WRITE_EXCLUSIVE. destruct (_ =? _) eqn:E; zbool; lia.
Qed.

(** Thread [t] makes [k] accesses with no other thread running. *)
Definition runs_alone (t k : nat) (c : AtomicRWLock * list pc) : option (AtomicRWLock * list pc) :=
  run_schedule guard_step (replicate k (t, Regular)) c.

Lemma alone_step (t : nat) (c : AtomicRWLock * list pc) p l' p' :
  c.2 !! t = Some p → guard_step Regular t c.1 p = Some (l', p') →
  sys_step guard_step (t, Regular) c = Some (l', <[t := p']> c.2).
Proof. intros Ht Hf. unfold sys_step. cbn. rewrite Ht. cbn. by rewrite Hf. Qed.

Lemma alone_cons (t k : nat) (c : AtomicRWLock * list pc) p l' p' :
  c.2 !! t = Some p → guard_step Regular t c.1 p = Some (l', p') →
  runs_alone t (S k) c = runs_alone t k (l', <[t := p']> c.2).
Proof.
  intros Ht Hf. unfold runs_alone. cbn [replicate run_schedule].
  by rewrite (alone_step t c p l' p' Ht Hf).
Qed.

(** The lock is available again once every guard is gone: whatever happened
    before, when no thread holds it [lock_num_] is [RW_LOCK_FREE]; a writer then
    enters after three accesses of its own, and a reader after three when no
    writer waits. *)
Theorem rw_lock_available write_first n k l ps t :
  Z.of_nat n < 2 ^ 31 - 1 →
  reach guard_step (AtomicRWLock_new write_first, replicate n Idle) k (l, ps) →
  (∀ i p, ps !! i = Some p → writing p = 0 ∧ reading p = 0) →
  lock_num_ l = RW_LOCK_FREE ∧
  (ps !! t = Some WriteAdd →
    ∃ c, runs_alone t 3 (l, ps) = Some c ∧ c.2 !! t = Some WriteHeld) ∧
  (ps !! t = Some (ReadLoad 0) → write_lock_wait_num_ l = 0 →
    ∃ c, runs_alone t 3 (l, ps) = Some c ∧ c.2 !! t = Some ReadHeld).
Proof.
  intros Hn Hr Hfree. pose proof (reach_lock_inv _ _ _ _ Hn Hr) as []. cbn [fst snd] in *.
  assert (tally writing ps = 0) by (apply tally_zero; intros; by apply Hfree with i).
  assert (tally reading ps = 0) by (apply tally_zero; intros; by apply Hfree with i).
  assert (lock_num_ l = 0) as Hl by lia. split; [done|].
  split; intros Ht; [|intros Hw]; pose proof (lookup_lt_Some _ _ _ Ht) as Hlt.
  - erewrite alone_cons; [|exact Ht|reflexivity]. cbn [fst snd].
    erewrite alone_cons; [|by apply list_lookup_insert_eq|cbn; rewrite Hl; reflexivity].
    erewrite alone_cons; [|apply list_lookup_insert_eq; cbn [fst snd]; by rewrite length_insert|reflexivity].
    cbn [fst snd]. eexists. split; [reflexivity|].
    apply list_lookup_insert_eq. by rewrite !length_insert.
  - erewrite alone_cons; [|exact Ht|reflexivity]. cbn [fst snd].
    erewrite alone_cons;
      [|by apply list_lookup_insert_eq|cbn; rewrite Hl, Hw; cbn; rewrite andb_false_r; reflexivity].
    erewrite alone_cons;
      [|apply list_lookup_insert_eq; cbn [fst snd]; by rewrite length_insert|cbn; rewrite Hl; reflexivity].
    cbn [fst snd]. eexists. split; [reflexivity|].
    apply list_lookup_insert_eq. by rewrite !length_insert.
Qed.

(** Two readers, then a writer that has to wait. *)
Definition sample_schedule : list (nat * choice) :=
  [(0, WantRead); (0, Regular); (0, Regular); (0, Regular);
   (1, WantWrite); (1, Regular); (1, Regular);
   (0, Regular); (1, Regular)]%nat.

Lemma rw_lock_mutual_exclusion_witness :
  ∃ l ps, reach guard_step (AtomicRWLock_new true, replicate 2 Idle) 9 (l, ps) ∧
    ps !! 1%nat = Some WriteSub ∧ lock_num_ l = -1 ∧
    (∀ i j p p', ps !! i = Some p → ps !! j = Some p' → i ≠ j →
     writing p = 1 → writing p' = 0 ∧ reading p' = 0).
Proof.
  assert (∃ l ps, run_schedule guard_step sample_schedule (AtomicRWLock_new true, replicate 2 Idle)
    = Some (l, ps) ∧ ps !! 1%nat = Some WriteSub ∧ lock_num_ l = -1) as (l & ps & Hr & Hp & Hl)
    by (eexists _, _; split; [vm_compute; reflexivity|split; reflexivity]).
  pose proof (run_schedule_reach guard_step _ 0 _ _ _ (reach_refl _ _) Hr) as Hreach.
  exists l, ps. split; [exact Hreach|]. split; [exact Hp|]. split; [exact Hl|].
  apply (rw_lock_mutual_exclusion true 2 9 l ps); [reflexivity|exact Hreach].
Defined.

Lemma rw_lock_available_witness :
  ∃ l ps c, reach guard_step (AtomicRWLock_new true, replicate 2 Idle) 6 (l, ps) ∧
    runs_alone 1 3 (l, ps) = Some c ∧ c.2 !! 1%nat = Some WriteHeld.
Proof.
  assert (∃ l ps, run_schedule guard_step
    [(0, WantRead); (0, Regular); (0, Regular); (0, Regular); (1, WantWrite); (0, Regular)]%nat
    (AtomicRWLock_new true, replicate 2 Idle) = Some (l, ps) ∧
    ps = [Idle; WriteAdd]) as (l & ps & Hr & Hps)
    by (eexists _, _; split; [vm_compute; reflexivity|reflexivity]).
  pose proof (run_schedule_reach guard_step _ 0 _ _ _ (reach_refl _ _) Hr) as Hreach.
  assert (∀ i p, ps !! i = Some p → writing p = 0 ∧ reading p = 0) as Hfree.
  { rewrite Hps. intros [|[|[|i]]] p; cbn; intros; simplify_eq; done. }
  assert (ps !! 1%nat = Some WriteAdd) as Ht by (by rewrite Hps).
  destruct (proj1 (proj2 (rw_lock_available true 2 6 l ps 1 eq_refl Hreach Hfree)) Ht)
    as (c & Hc & Hh).
  exists l, ps, c. done.
Defined.
