(* ===== verification/ReentrantRWLock.v ===== *)
(** * ReentrantRWLock (cyber/base/reentrant_rw_lock.h)

    The reader/writer lock whose writer may lock again: [write_thread_id_]
    remembers the writing thread, a nested write lowers [lock_num_] further, a
    nested read does nothing.  [write_thread_id_] is a plain field; its reads and
    writes are accesses of their own here, in program order.  A thread holds the
    lock through nested guards (cyber/base/rw_lock_guard.h), so it releases in
    the reverse order: [guards] lists them, innermost first. *)

From stdpp Require Import base numbers list.
From Stdlib Require Import ZArith Lia.
From S2P Require Import Prelude Interleave.

Open Scope Z_scope.

Definition RW_LOCK_FREE : Z := 0.
Definition WRITE_EXCLUSIVE : Z := -1.
Definition MAX_RETRY_TIMES : Z := 5.

Record ReentrantRWLock := mkReentrantRWLock {
  write_thread_id_ : option nat;   (* [None]: NULL_THREAD_ID *)
  write_lock_wait_num_ : Z;        (* uint32_t *)
  lock_num_ : Z;                   (* int32_t *)
  write_first_ : bool
}.

Definition ReentrantRWLock_new (write_first : bool) : ReentrantRWLock :=
  mkReentrantRWLock None 0 0 write_first.

Definition set_id (l : ReentrantRWLock) (v : option nat) : ReentrantRWLock :=
  mkReentrantRWLock v (write_lock_wait_num_ l) (lock_num_ l) (write_first_ l).
Definition set_wait_num (l : ReentrantRWLock) (v : Z) : ReentrantRWLock :=
  mkReentrantRWLock (write_thread_id_ l) v (lock_num_ l) (write_first_ l).
Definition set_lock_num (l : ReentrantRWLock) (v : Z) : ReentrantRWLock :=
  mkReentrantRWLock (write_thread_id_ l) (write_lock_wait_num_ l) v (write_first_ l).

Inductive mode := R | W.
#[global] Instance mode_eq_dec : EqDecision mode.
Proof. solve_decision. Defined.

Inductive pc :=
| Client
| ReadId                                (* ReadLock: compare [write_thread_id_] *)
| ReadLoad (retry_times : Z)
| ReadCheck (lock_num retry_times : Z)
| ReadCas (lock_num retry_times : Z)
| WriteId                               (* WriteLock: compare [write_thread_id_] *)
| WriteNest                             (* the nested [lock_num_.fetch_sub] *)
| WriteAdd
| WriteCas (retry_times : Z)
| WriteSetId                            (* [write_thread_id_ = this_thread_id] *)
| WriteSub
| ReadUnlockId                          (* ReadUnlock: compare [write_thread_id_] *)
| ReadUnlockSub
| WriteUnlockAdd
| WriteUnlockClear.                     (* [write_thread_id_ = NULL_THREAD_ID] *)

Record thread := mkThread { at_ : pc; guards : list mode }.

Inductive choice := WantRead | WantWrite | Leave | Spurious | Regular.

Definition is_spurious (ch : choice) : bool :=
  match ch with Spurious => true | _ => false end.

Definition next_retry (retry_times : Z) : Z :=
  let r := u32 (retry_times + 1) in if r =? MAX_RETRY_TIMES then 0 else r.

Definition is_writer (l : ReentrantRWLock) (t : nat) : bool :=
  bool_decide (write_thread_id_ l = Some t).

Definition ReadLock_step (ch : choice) (t : nat) (l : ReentrantRWLock) (p : pc) (g : list mode)
  : option (ReentrantRWLock * thread) :=
  match p with
  | ReadId =>
      if is_writer l t then Some (l, mkThread Client (R :: g))
      else Some (l, mkThread (ReadLoad 0) g)
  | ReadLoad r => Some (l, mkThread (ReadCheck (lock_num_ l) r) g)
  | ReadCheck v r =>
      if (v <? RW_LOCK_FREE) || (write_first_ l && (0 <? write_lock_wait_num_ l))
      then Some (l, mkThread (ReadLoad (next_retry r)) g)
      else Some (l, mkThread (ReadCas v r) g)
  | ReadCas v r =>
      if negb (is_spurious ch) && (lock_num_ l =? v)
      then Some (set_lock_num l (i32 (v + 1)), mkThread Client (R :: g))
      else Some (l, mkThread (ReadCheck (lock_num_ l) r) g)
  | _ => None
  end.

Definition WriteLock_step (ch : choice) (t : nat) (l : ReentrantRWLock) (p : pc) (g : list mode)
  : option (ReentrantRWLock * thread) :=
  match p with
  | WriteId => Some (l, mkThread (if is_writer l t then WriteNest else WriteAdd) g)
  | WriteNest => Some (set_lock_num l (i32 (lock_num_ l - 1)), mkThread Client (W :: g))
  | WriteAdd => Some (set_wait_num l (u32 (write_lock_wait_num_ l + 1)), mkThread (WriteCas 0) g)
  | WriteCas r =>
      if negb (is_spurious ch) && (lock_num_ l =? RW_LOCK_FREE)
      then Some (set_lock_num l WRITE_EXCLUSIVE, mkThread WriteSetId (W :: g))
      else Some (l, mkThread (WriteCas (next_retry r)) g)
  | WriteSetId => Some (set_id l (Some t), mkThread WriteSub g)
  | WriteSub => Some (set_wait_num l (u32 (write_lock_wait_num_ l - 1)), mkThread Client g)
  | _ => None
  end.

(** [ReadUnlock] and [WriteUnlock], leaving the innermost guard. *)
Definition ReadUnlock_step (t : nat) (l : ReentrantRWLock) (p : pc) (g : list mode)
  : option (ReentrantRWLock * thread) :=
  match p with
  | ReadUnlockId =>
      if is_writer l t then Some (l, mkThread Client (tail g))
      else Some (l, mkThread ReadUnlockSub g)
  | ReadUnlockSub => Some (set_lock_num l (i32 (lock_num_ l - 1)), mkThread Client (tail g))
  | _ => None
  end.

Definition WriteUnlock_step (t : nat) (l : ReentrantRWLock) (p : pc) (g : list mode)
  : option (ReentrantRWLock * thread) :=
  match p with
  | WriteUnlockAdd =>
      Some (set_lock_num l (i32 (lock_num_ l + 1)),
            mkThread (if lock_num_ l =? WRITE_EXCLUSIVE then WriteUnlockClear else Client)
              (tail g))
  | WriteUnlockClear => Some (set_id l None, mkThread Client g)
  | _ => None
  end.

Definition guard_step (ch : choice) (t : nat) (l : ReentrantRWLock) (th : thread)
  : option (ReentrantRWLock * thread) :=
  let g := guards th in
  match at_ th with
  | Client =>
      match ch with
      | WantRead => Some (l, mkThread ReadId g)
      | WantWrite => Some (l, mkThread WriteId g)
      | Leave =>
          match g with
          | [] => None
          | R :: _ => Some (l, mkThread ReadUnlockId g)
          | W :: _ => Some (l, mkThread WriteUnlockAdd g)
          end
      | _ => None
      end
  | ReadId | ReadLoad _ | ReadCheck _ _ | ReadCas _ _ => ReadLock_step ch t l (at_ th) g
  | WriteId | WriteNest | WriteAdd | WriteCas _ | WriteSetId | WriteSub =>
      WriteLock_step ch t l (at_ th) g
  | ReadUnlockId | ReadUnlockSub => ReadUnlock_step t l (at_ th) g
  | WriteUnlockAdd | WriteUnlockClear => WriteUnlock_step t l (at_ th) g
  end.

Definition idle_thread : thread := mkThread Client [].

(** ** The invariant *)

(** Write guards among [g]. *)
Fixpoint writes (g : list mode) : Z :=
  match g with [] => 0 | W :: g => 1 + writes g | R :: g => writes g end.

Lemma writes_nonneg g : 0 <= writes g.
Proof. induction g as [|[] g IH]; cbn; lia. Qed.

Definition w_writer (th : thread) : Z := if 0 <? writes (guards th) then 1 else 0.
Definition w_reads (th : thread) : Z :=
  if 0 <? writes (guards th) then 0 else Z.of_nat (length (guards th)).

Lemma w_writer_nonneg th : 0 <= w_writer th.
Proof. unfold w_writer. destruct_match; lia. Qed.
Lemma w_reads_nonneg th : 0 <= w_reads th.
Proof. unfold w_reads. destruct_match; lia. Qed.

(** What holds of thread [t] at each point, given the writer's id and
    [lock_num_]. *)
Record thread_ok (id : option nat) (num : Z) (t : nat) (th : thread) : Prop := {
  to_bottom : 0 < writes (guards th) → last (guards th) = Some W;
  to_num : 0 < writes (guards th) → num <= - writes (guards th);
  to_id : id = Some t → at_ th = WriteUnlockClear ∨
    (0 < writes (guards th) ∧ num = - writes (guards th));
  to_pc : match at_ th with
          | ReadCas v _ => 0 <= v
          | WriteNest => 0 < writes (guards th)
          | WriteSetId => 0 < writes (guards th) ∧ num = - writes (guards th)
          | ReadUnlockId => head (guards th) = Some R
          | ReadUnlockSub => head (guards th) = Some R ∧ id ≠ Some t
          | WriteUnlockAdd => head (guards th) = Some W
          | _ => True
          end
}.

Record lock_inv (k : nat) (c : ReentrantRWLock * list thread) : Prop := {
  li_writers : tally w_writer c.2 <= 1;
  li_excl : tally w_writer c.2 = 1 → tally w_reads c.2 = 0;
  li_num : tally w_writer c.2 = 0 →
    lock_num_ c.1 = tally w_reads c.2 ∨ (lock_num_ c.1 < 0 ∧ tally w_reads c.2 = 0);
  li_bound : - Z.of_nat k <= lock_num_ c.1 <= Z.of_nat k;
  li_threads : ∀ i th, c.2 !! i = Some th →
    thread_ok (write_thread_id_ c.1) (lock_num_ c.1) i th
}.

Lemma w_writer_pos th : 0 < writes (guards th) → w_writer th = 1 ∧ w_reads th = 0.
Proof. intros H%Z.ltb_lt. unfold w_writer, w_reads. by rewrite H. Qed.

Lemma w_writer_zero th :
  writes (guards th) = 0 → w_writer th = 0 ∧ w_reads th = Z.of_nat (length (guards th)).
Proof. intros H. unfold w_writer, w_reads. by rewrite H. Qed.

(** Thread [t] keeps [lock_num_] and moves; the id may change to [id']. *)
Lemma lock_inv_same k l ths t th l' th' :
  lock_inv k (l, ths) → ths !! t = Some th →
  lock_num_ l' = lock_num_ l → w_writer th' = w_writer th → w_reads th' = w_reads th →
  (write_thread_id_ l' = write_thread_id_ l ∨ write_thread_id_ l' = None ∨
   write_thread_id_ l' = Some t) →
  thread_ok (write_thread_id_ l') (lock_num_ l) t th' →
  lock_inv (S k) (l', <[t := th']> ths).
Proof.
  intros [] Ht Hn Hw Hr Hid Hok. cbn in *.
  split; cbn; rewrite ?(tally_insert _ ths t th th' Ht), ?Hn, ?Hw, ?Hr.
  - lia.
  - intros. rewrite Z.sub_add. apply li_excl0. lia.
  - intros. rewrite Z.sub_add. apply li_num0. lia.
  - lia.
  - intros i thi Hi. apply list_lookup_insert_Some in Hi as [(<- & <- & _)|[Hne Hi]]; [done|].
    destruct (li_threads0 i thi Hi). destruct Hid as [->|Hid]; [done|].
    split; auto.
    + intros He. destruct Hid as [Hid|Hid]; congruence.
    + destruct (at_ thi); try done. split; [tauto|]. destruct Hid as [Hid|Hid]; congruence.
Qed.

(** Thread [t] changes [lock_num_] while no other thread writes. *)
Lemma lock_inv_change k l ths t th l' th' :
  lock_inv k (l, ths) → ths !! t = Some th →
  (∀ i thi, i ≠ t → ths !! i = Some thi → writes (guards thi) = 0) →
  write_thread_id_ l' = write_thread_id_ l →
  lock_num_ l - 1 <= lock_num_ l' <= lock_num_ l + 1 →
  thread_ok (write_thread_id_ l) (lock_num_ l') t th' →
  (w_writer th' = 1 → tally w_writer ths = w_writer th ∧ tally w_reads ths = w_reads th) →
  (w_writer th' = 0 → tally w_writer ths = w_writer th ∧
     (lock_num_ l' = tally w_reads ths - w_reads th + w_reads th' ∨
      (lock_num_ l' < 0 ∧ tally w_reads ths - w_reads th + w_reads th' = 0))) →
  lock_inv (S k) (l', <[t := th']> ths).
Proof.
  intros [] Ht Hoth Hid Hn Hok Hw1 Hw0. cbn in *.
  assert (w_writer th' = 0 ∨ (w_writer th' = 1 ∧ w_reads th' = 0)) as Hcase.
  { unfold w_writer, w_reads. destruct_match; auto. }
  split; cbn; rewrite ?(tally_insert _ ths t th th' Ht).
  - destruct Hcase as [E|[E E']]; [specialize (Hw0 E)|specialize (Hw1 E)]; lia.
  - destruct Hcase as [E|[E E']]; [specialize (Hw0 E)|specialize (Hw1 E)]; lia.
  - destruct Hcase as [E|[E E']]; [specialize (Hw0 E)|specialize (Hw1 E)]; lia.
  - lia.
  - intros i thi Hi. apply list_lookup_insert_Some in Hi as [(<- & <- & _)|[Hne Hi]];
      [by rewrite Hid|].
    pose proof (Hoth i thi ltac:(congruence) Hi) as H0. destruct (li_threads0 i thi Hi).
    rewrite Hid. split; rewrite ?H0.
    + lia.
    + lia.
    + intros [?|?]%to_id0; [by left|lia].
    + destruct (at_ thi); try done; lia.
Qed.

Lemma writer_unique k l ths t th :
  lock_inv k (l, ths) → ths !! t = Some th → 0 < writes (guards th) →
  tally w_writer ths = 1 ∧ tally w_reads ths = 0 ∧
  ∀ i thi, i ≠ t → ths !! i = Some thi → guards thi = [].
Proof.
  intros [] Ht Hw. cbn in *. destruct (w_writer_pos th Hw) as [H1 _].
  pose proof (tally_elem w_writer w_writer_nonneg ths t th Ht) as He.
  assert (tally w_writer ths = 1) as Ht1 by lia. specialize (li_excl0 Ht1).
  split; [done|]. split; [done|]. intros i thi Hne Hi.
  pose proof (tally_two w_writer w_writer_nonneg ths i t thi th Hne Hi Ht).
  pose proof (tally_elem w_reads w_reads_nonneg ths i thi Hi) as Hr.
  pose proof (w_writer_nonneg thi).
  assert (writes (guards thi) = 0) as Hz.
  { pose proof (writes_nonneg (guards thi)).
    destruct (Z.eq_dec (writes (guards thi)) 0); [done|].
    destruct (w_writer_pos thi ltac:(lia)). lia. }
  destruct (w_writer_zero thi Hz) as [_ Hl]. destruct (guards thi); [done|]. cbn in Hl. lia.
Qed.

Lemma no_writer k l ths :
  lock_inv k (l, ths) → (tally w_writer ths = 0 ∨ 0 <= lock_num_ l) →
  tally w_writer ths = 0 ∧ ∀ i thi, ths !! i = Some thi → writes (guards thi) = 0.
Proof.
  intros [] Hn. cbn in *.
  assert (∀ i thi, ths !! i = Some thi → writes (guards thi) = 0) as Hz.
  { intros i thi Hi. pose proof (writes_nonneg (guards thi)).
    destruct (Z.eq_dec (writes (guards thi)) 0); [done|].
    destruct (w_writer_pos thi ltac:(lia)).
    pose proof (tally_elem w_writer w_writer_nonneg ths i thi Hi).
    destruct (li_threads0 i thi Hi). specialize (to_num0 ltac:(lia)). lia. }
  split; [|done]. apply tally_zero. intros i thi Hi.
  by apply w_writer_zero, (Hz i).
Qed.

Lemma read_cas_inv k l ths t v r g :
  lock_inv k (l, ths) → ths !! t = Some (mkThread (ReadCas v r) g) →
  Z.of_nat k < 2 ^ 31 - 1 → lock_num_ l = v →
  lock_inv (S k) (set_lock_num l (i32 (v + 1)), <[t := mkThread Client (R :: g)]> ths).
Proof.
  intros Hinv Ht Hk Hv. pose proof Hinv as [_ _ Hnum Hb Hths]. cbn in *.
  destruct (Hths t _ Ht) as [_ _ Hid Hpc]. cbn in *.
  destruct (no_writer k l ths Hinv ltac:(lia)) as [Hw0 Hz].
  pose proof (Hz t _ Ht) as Hg. cbn in Hg.
  destruct (w_writer_zero (mkThread (ReadCas v r) g) Hg) as [Ha Hb'].
  destruct (w_writer_zero (mkThread Client (R :: g)) Hg) as [Hc Hd].
  rewrite i32_small by (unfold is_i32; lia).
  apply (lock_inv_change k l ths t _ _ _ Hinv Ht); cbn.
  - intros i thi _ Hi. by apply (Hz i).
  - done.
  - lia.
  - split; cbn; rewrite ?Hg; try lia; try done. intros [?|?]%Hid; [done|lia].
  - lia.
  - cbn in *. lia.
Qed.

Lemma write_cas_inv k l ths t r g :
  lock_inv k (l, ths) → ths !! t = Some (mkThread (WriteCas r) g) →
  lock_num_ l = RW_LOCK_FREE →
  lock_inv (S k) (set_lock_num l WRITE_EXCLUSIVE, <[t := mkThread WriteSetId (W :: g)]> ths).
Proof.
  intros Hinv Ht Hv. pose proof Hinv as [_ _ Hnum Hb Hths]. unfold RW_LOCK_FREE in *. cbn in *.
  destruct (Hths t _ Ht) as [_ _ Hid Hpc]. cbn in *.
  destruct (no_writer k l ths Hinv ltac:(lia)) as [Hw0 Hz].
  pose proof (tally_elem w_reads w_reads_nonneg ths t _ Ht) as Hr.
  pose proof (Hz t _ Ht) as Hg. cbn in Hg.
  destruct (w_writer_zero (mkThread (WriteCas r) g) Hg) as [Ha Hb']. cbn in Hb'.
  assert (g = []) as -> by (destruct g; [done|cbn in *; lia]).
  apply (lock_inv_change k l ths t _ _ _ Hinv Ht); cbn; unfold WRITE_EXCLUSIVE.
  - intros i thi _ Hi. by apply (Hz i).
  - done.
  - lia.
  - split; cbn; try done; try lia.
  - cbn in *. lia.
  - done.
Qed.

Lemma write_nest_inv k l ths t g :
  lock_inv k (l, ths) → ths !! t = Some (mkThread WriteNest g) →
  Z.of_nat k < 2 ^ 31 - 1 →
  lock_inv (S k) (set_lock_num l (i32 (lock_num_ l - 1)), <[t := mkThread Client (W :: g)]> ths).
Proof.
  intros Hinv Ht Hk. pose proof Hinv as [_ _ Hnum Hb Hths]. cbn in *.
  destruct (Hths t _ Ht) as [Hbot Hlt Hid Hpc]. cbn in *.
  destruct (writer_unique k l ths t _ Hinv Ht Hpc) as (Hw1 & Hr0 & Hoth).
  destruct (w_writer_pos (mkThread WriteNest g) Hpc) as [Ha Hb'].
  pose proof (writes_nonneg g).
  destruct (w_writer_pos (mkThread Client (W :: g)) ltac:(cbn; lia)) as [Hc Hd].
  rewrite i32_small by (unfold is_i32; lia).
  apply (lock_inv_change k l ths t _ _ _ Hinv Ht); cbn [set_lock_num write_thread_id_ lock_num_].
  - intros i thi Hne Hi. by rewrite (Hoth i thi Hne Hi).
  - done.
  - lia.
  - split; cbn [at_ guards writes]; try done; try lia.
    + intros _. by rewrite last_cons, Hbot.
    + intros [?|?]%Hid; [done|right; lia].
  - lia.
  - lia.
Qed.

Lemma read_unlock_inv k l ths t g :
  lock_inv k (l, ths) → ths !! t = Some (mkThread ReadUnlockSub g) →
  Z.of_nat k < 2 ^ 31 - 1 →
  lock_inv (S k) (set_lock_num l (i32 (lock_num_ l - 1)), <[t := mkThread Client (tail g)]> ths).
Proof.
  intros Hinv Ht Hk. pose proof Hinv as [_ _ Hnum Hb Hths]. cbn in *.
  destruct (Hths t _ Ht) as [Hbot Hlt Hid [Hhd Hne]]. cbn in *.
  destruct g as [|m g]; [done|]. cbn in Hhd. simplify_eq. cbn in *.
  rewrite i32_small by (unfold is_i32; lia).
  pose proof (writes_nonneg g).
  destruct (Z.eq_dec (writes g) 0) as [Hg|Hg].
  - destruct (w_writer_zero (mkThread ReadUnlockSub (R :: g)) Hg) as [Ha Hb'].
    destruct (w_writer_zero (mkThread Client g) Hg) as [Hc Hd]. cbn in Hb', Hd.
    pose proof (tally_elem w_reads w_reads_nonneg ths t _ Ht) as Hr.
    assert (tally w_writer ths = 0) as Hw0.
    { pose proof (tally_nonneg w_writer w_writer_nonneg ths).
      destruct Hinv as [Hle Hex _ _ _]. cbn in *. lia. }
    destruct (no_writer k l ths Hinv ltac:(lia)) as [_ Hz].
    apply (lock_inv_change k l ths t _ _ _ Hinv Ht); cbn.
    + intros i thi _ Hi. by apply (Hz i).
    + done.
    + lia.
    + split; cbn; rewrite ?Hg; try lia; try done.
    + lia.
    + lia.
  - destruct (writer_unique k l ths t _ Hinv Ht ltac:(cbn; lia)) as (Hw1 & Hr0 & Hoth).
    destruct (w_writer_pos (mkThread ReadUnlockSub (R :: g)) ltac:(cbn; lia)) as [Ha Hb'].
    destruct (w_writer_pos (mkThread Client g) ltac:(cbn; lia)) as [Hc Hd].
    apply (lock_inv_change k l ths t _ _ _ Hinv Ht); cbn.
    + intros i thi Hi0 Hi. by rewrite (Hoth i thi Hi0 Hi).
    + done.
    + lia.
    + split; cbn; try done; try lia.
      intros Hp. specialize (Hbot Hp). destruct g; [cbn in Hg; lia|done].
    + lia.
    + lia.
Qed.

Lemma write_unlock_inv k l ths t g :
  lock_inv k (l, ths) → ths !! t = Some (mkThread WriteUnlockAdd g) →
  Z.of_nat k < 2 ^ 31 - 1 →
  lock_inv (S k) (set_lock_num l (i32 (lock_num_ l + 1)),
    <[t := mkThread (if lock_num_ l =? WRITE_EXCLUSIVE then WriteUnlockClear else Client)
             (tail g)]> ths).
Proof.
  intros Hinv Ht Hk. pose proof Hinv as [_ _ Hnum Hb Hths]. cbn in *.
  destruct (Hths t _ Ht) as [Hbot Hlt Hid Hhd]. cbn in *.
  destruct g as [|m g]; [done|]. cbn in Hhd. simplify_eq. cbn [tail].
  change (writes (W :: g)) with (1 + writes g) in *. pose proof (writes_nonneg g).
  specialize (Hbot ltac:(lia)). specialize (Hlt ltac:(lia)).
  destruct (writer_unique k l ths t _ Hinv Ht ltac:(cbn; lia)) as (Hw1 & Hr0 & Hoth).
  destruct (w_writer_pos (mkThread WriteUnlockAdd (W :: g)) ltac:(cbn; lia)) as [Ha Hb'].
  rewrite i32_small by (unfold is_i32; lia).
  assert (writes g = 0 → g = []) as Hg0.
  { destruct g as [|m g _] using rev_ind; [done|]. rewrite app_comm_cons, last_snoc in Hbot.
    simplify_eq. intros Hz. exfalso. clear -Hz. induction g as [|[] g IH]; cbn in Hz.
    - lia.
    - auto.
    - pose proof (writes_nonneg (g ++ [W])). lia. }
  apply (lock_inv_change k l ths t _ _ _ Hinv Ht); cbn.
  - intros i thi Hi0 Hi. by rewrite (Hoth i thi Hi0 Hi).
  - done.
  - lia.
  - unfold WRITE_EXCLUSIVE. split; cbn.
    + intros Hp. destruct g; [cbn in Hp; lia|done].
    + lia.
    + intros He. destruct (Hid He) as [?|[_ He']]; [done|].
      destruct (_ =? _) eqn:E; [by left|right]. zbool. lia.
    + by destruct (_ =? _).
  - lia.
  - intros Hc. split; [lia|].
    assert (writes g = 0) as Hz.
    { destruct (Z.eq_dec (writes g) 0); [done|].
      match type of Hc with w_writer ?th = _ =>
        destruct (w_writer_pos th ltac:(cbn; lia)) end. lia. }
    match goal with |- context [w_reads (mkThread ?p g)] =>
      destruct (w_writer_zero (mkThread p g) Hz) as [_ Hd] end.
    assert (length g = 0%nat) by (by rewrite (Hg0 Hz)). cbn [guards] in Hd. lia.
Qed.

(** A step to another position that changes neither the lock's number and
    owner nor the guards. *)
Definition pc_needs (l : ReentrantRWLock) (t : nat) (g : list mode) (p : pc) : Prop :=
  match p with
  | ReadCas v _ => 0 <= v
  | WriteNest => 0 < writes g
  | WriteSetId | WriteUnlockClear => False
  | ReadUnlockId => head g = Some R
  | ReadUnlockSub => head g = Some R ∧ write_thread_id_ l ≠ Some t
  | WriteUnlockAdd => head g = Some W
  | _ => True
  end.

Lemma move_inv k l ths t p g l' p' :
  lock_inv k (l, ths) → ths !! t = Some (mkThread p g) → p ≠ WriteUnlockClear →
  lock_num_ l' = lock_num_ l → write_thread_id_ l' = write_thread_id_ l →
  pc_needs l t g p' → lock_inv (S k) (l', <[t := mkThread p' g]> ths).
Proof.
  intros Hinv Ht Hp En Ei Hok. pose proof (li_threads _ _ Hinv t _ Ht) as [Hbot Hlt Hid Hpc].
  cbn [fst snd at_ guards] in *.
  eapply lock_inv_same; [exact Hinv|exact Ht|done|done|done|by left|]. rewrite Ei.
  split; cbn; auto.
  - intros He. destruct (Hid He); auto. done.
  - destruct p'; auto; done.
Qed.

(** A writer's nested read guard comes and goes without touching the lock. *)
Lemma nested_read_inv k l ths t g :
  lock_inv k (l, ths) → ths !! t = Some (mkThread ReadId g) → write_thread_id_ l = Some t →
  lock_inv (S k) (l, <[t := mkThread Client (R :: g)]> ths).
Proof.
  intros Hinv Ht Hw. pose proof (li_threads _ _ Hinv t _ Ht) as [Hbot Hlt Hid Hpc].
  cbn [fst snd at_ guards] in *. destruct (Hid Hw) as [?|[Hp He]]; [done|].
  destruct (w_writer_pos (mkThread ReadId g) Hp) as [Ha Hb].
  destruct (w_writer_pos (mkThread Client (R :: g)) Hp) as [Hc Hd].
  eapply lock_inv_same; [exact Hinv|exact Ht|done|congruence|congruence|by left|].
  split; cbn; auto. intros _. by rewrite last_cons, Hbot.
Qed.

Lemma nested_read_unlock_inv k l ths t g :
  lock_inv k (l, ths) → ths !! t = Some (mkThread ReadUnlockId g) → write_thread_id_ l = Some t →
  lock_inv (S k) (l, <[t := mkThread Client (tail g)]> ths).
Proof.
  intros Hinv Ht Hw. pose proof (li_threads _ _ Hinv t _ Ht) as [Hbot Hlt Hid Hpc].
  cbn [fst snd at_ guards] in *. destruct (Hid Hw) as [?|[Hp He]]; [done|].
  destruct g as [|m g]; [done|]. cbn in Hpc. simplify_eq. cbn [tail].
  destruct (w_writer_pos (mkThread ReadUnlockId (R :: g)) Hp) as [Ha Hb].
  destruct (w_writer_pos (mkThread Client g) Hp) as [Hc Hd].
  eapply lock_inv_same; [exact Hinv|exact Ht|done|congruence|congruence|by left|].
  split; cbn; auto. intros Hp'. specialize (Hbot Hp). destruct g; [cbn in Hp; lia|done].
Qed.

Lemma rlock_inv_step k c t ch th l' th' :
  Z.of_nat k < 2 ^ 31 - 1 → lock_inv k c → c.2 !! t = Some th →
  guard_step ch t c.1 th = Some (l', th') → lock_inv (S k) (l', <[t := th']> c.2).
Proof.
  destruct c as [l ths], th as [p g]. cbn [fst snd]. intros Hk Hinv Ht Hs.
  pose proof (li_threads _ _ Hinv t _ Ht) as [Hbot Hlt Hid Hpc]. cbn [fst snd at_ guards] in *.
  unfold guard_step in Hs. cbn [at_ guards] in Hs.
  assert (is_writer l t = true → write_thread_id_ l = Some t) as Hiw
    by (intros H; by apply bool_decide_eq_true in H).
  assert (is_writer l t = false → write_thread_id_ l ≠ Some t) as Hniw
    by (intros H; by apply bool_decide_eq_false in H).
  destruct p; cbn in Hs; try (simplify_eq; by apply (move_inv k _ ths t _ _ _ _ Hinv Ht)).
  - destruct ch; try done; [| |destruct g as [|[] g']]; simplify_eq;
      by apply (move_inv k _ ths t _ _ _ _ Hinv Ht).
  - destruct (is_writer l t) eqn:E; simplify_eq; [by apply nested_read_inv; auto|].
    by apply (move_inv k _ ths t _ _ _ _ Hinv Ht).
  - destruct (_ || _) eqn:E in Hs; simplify_eq; zbool; by apply (move_inv k _ ths t _ _ _ _ Hinv Ht).
  - destruct (_ && _) eqn:E in Hs; simplify_eq; zbool.
    + by apply (read_cas_inv k l ths t lock_num retry_times).
    + by apply (move_inv k _ ths t _ _ _ _ Hinv Ht).
  - simplify_eq. apply (move_inv k _ ths t _ _ _ _ Hinv Ht); [done..|].
    destruct (is_writer _ t) eqn:E in |- *; [|done]. by destruct (Hid (Hiw E)) as [?|[Hp He]].
  - simplify_eq. by apply write_nest_inv.
  - destruct (_ && _) eqn:E in Hs; simplify_eq; zbool.
    + by apply (write_cas_inv k l ths t retry_times).
    + by apply (move_inv k _ ths t _ _ _ _ Hinv Ht).
  - simplify_eq. eapply lock_inv_same; [exact Hinv|exact Ht|done..|by right; right|].
    split; cbn; auto.
  - destruct (is_writer l t) eqn:E; simplify_eq; [by apply nested_read_unlock_inv; auto|].
    apply (move_inv k _ ths t _ _ _ _ Hinv Ht); [done..|]. split; auto.
  - simplify_eq. by apply read_unlock_inv.
  - simplify_eq. by apply write_unlock_inv.
  - simplify_eq. eapply lock_inv_same; [exact Hinv|exact Ht|done..|by right; left|].
    split; cbn; auto; done.
Qed.

Lemma reach_rlock_inv write_first n k c :
  Z.of_nat k < 2 ^ 31 - 1 →
  reach guard_step (ReentrantRWLock_new write_first, replicate n idle_thread) k c →
  lock_inv k c.
Proof.
  intros Hk Hr. apply (reach_invariant guard_step k lock_inv
    (ReentrantRWLock_new write_first, replicate n idle_thread) k c); [| |done|lia].
  - split; cbn; rewrite ?tally_replicate; cbn; try lia.
    intros i th [-> _]%lookup_replicate. split; cbn; done.
  - intros. eapply rlock_inv_step; eauto. lia.
Qed.

(** [C37] Mutual exclusion of the reentrant lock: in every interleaving, a thread
    inside a write guard excludes every other thread from any guard. *)
Theorem reentrant_mutual_exclusion write_first n k l ths i j th th' :
  Z.of_nat k < 2 ^ 31 - 1 →
  reach guard_step (ReentrantRWLock_new write_first, replicate n idle_thread) k (l, ths) →
  ths !! i = Some th → ths !! j = Some th' → i ≠ j →
  W ∈ guards th → guards th' = [].
Proof.
  intros Hk Hr Hi Hj Hne Hw. pose proof (reach_rlock_inv _ _ _ _ Hk Hr) as Hinv.
  assert (0 < writes (guards th)) as Hpos.
  { clear -Hw. induction (guards th) as [|m g IH]; [by apply elem_of_nil in Hw|].
    pose proof (writes_nonneg g). apply elem_of_cons in Hw as [<-|Hw]; [cbn; lia|].
    specialize (IH Hw). destruct m; cbn; lia. }
  destruct (writer_unique k l ths i th Hinv Hi Hpos) as (_ & _ & Ho). by apply (Ho j).
Qed.

(** ** A lock nobody holds and nobody can take *)

(** No guard is left and no thread is inside an unlock, but [lock_num_] is
    negative. *)
Definition dead_thread (th : thread) : Prop :=
  guards th = [] ∧
  match at_ th with
  | Client | ReadId | ReadLoad _ | ReadCheck _ _ | WriteId | WriteAdd | WriteCas _ => True
  | ReadCas v _ => 0 <= v
  | _ => False
  end.

Definition dead (c : ReentrantRWLock * list thread) : Prop :=
  lock_num_ c.1 < 0 ∧ write_thread_id_ c.1 = None ∧ Forall dead_thread c.2.

Lemma dead_step c t ch th l' th' :
  dead c → c.2 !! t = Some th → guard_step ch t c.1 th = Some (l', th') →
  dead (l', <[t := th']> c.2).
Proof.
  intros (Hn & Hid & Hall) Ht Hs. destruct c as [l ths], th as [p g]. cbn [fst snd] in *.
  destruct (proj1 (Forall_lookup _ _) Hall t _ Ht) as [Hg Hp]. cbn in Hg, Hp. subst g.
  assert (Hgoal : lock_num_ l' = lock_num_ l → write_thread_id_ l' = write_thread_id_ l →
    dead_thread th' → dead (l', <[t := th']> ths)).
  { intros H1 H2 H3. split; [cbn; lia|]. split; [cbn; congruence|]. by apply Forall_insert. }
  assert (is_writer l t = false) as Hw by (apply bool_decide_eq_false; congruence).
  destruct p; cbn in Hs; rewrite ?Hw in Hs; try done.
  - destruct ch; simplify_eq; by apply Hgoal.
  - simplify_eq. by apply Hgoal.
  - simplify_eq. by apply Hgoal.
  - destruct (_ || _) eqn:E in Hs; simplify_eq; zbool; by apply Hgoal.
  - destruct (_ && _) eqn:E in Hs; simplify_eq; zbool; [lia|]. by apply Hgoal.
  - simplify_eq. by apply Hgoal.
  - simplify_eq. by apply Hgoal.
  - destruct (_ && _) eqn:E in Hs; simplify_eq; zbool; [unfold RW_LOCK_FREE in *; lia|].
    by apply Hgoal.
Qed.

(** Thread 0 takes and releases the write lock, stopping before it clears
    [write_thread_id_]; thread 1 takes the write lock and a nested read; thread
    0 clears the id; thread 1 leaves both guards. *)
Definition late_clear_schedule : list (nat * choice) :=
  [(0, WantWrite); (0, Regular); (0, Regular); (0, Regular); (0, Regular); (0, Regular);
   (0, Leave); (0, Regular);
   (1, WantWrite); (1, Regular); (1, Regular); (1, Regular); (1, Regular); (1, Regular);
   (1, WantRead); (1, Regular);
   (0, Regular);
   (1, Leave); (1, Regular); (1, Regular); (1, Leave); (1, Regular)]%nat.

Lemma late_clear_dead :
  ∃ c, run_schedule guard_step late_clear_schedule
    (ReentrantRWLock_new true, replicate 2 idle_thread) = Some c ∧ dead c.
Proof.
  eexists. split; [vm_compute; reflexivity|].
  split; [done|]. split; [done|]. repeat constructor.
Qed.

(** [WriteUnlock] clears [write_thread_id_] after it has freed the lock, so
    the clear may erase the id of the next writer: a run of two threads that
    lock and unlock in balance reaches a state in which no thread holds a guard
    and from which no thread ever gets one again, whatever the schedule. *)
Theorem reentrant_unlock_race :
  ∃ c, reach guard_step (ReentrantRWLock_new true, replicate 2 idle_thread) 22 c ∧
    ∀ k c', reach guard_step c k c' → Forall (λ th, guards th = []) c'.2.
Proof.
  destruct late_clear_dead as (c & Hr & Hd). exists c. split.
  { apply (run_schedule_reach guard_step _ 0 _ _ _ (reach_refl _ _) Hr). }
  intros k c' Hk. assert (dead c') as (_ & _ & Hall).
  { apply (reach_invariant guard_step k (λ _, dead) c k c'); [done| |done|lia].
    intros. by eapply dead_step. }
  eapply Forall_impl; [exact Hall|]. by intros th [? _].
Qed.

Lemma reentrant_mutual_exclusion_witness :
  ∃ l ths, reach guard_step (ReentrantRWLock_new true, replicate 2 idle_thread) 7 (l, ths) ∧
    W ∈ guards (default idle_thread (ths !! 0%nat)) ∧
    guards (default idle_thread (ths !! 1%nat)) = [].
Proof.
  assert (∃ l ths th th', run_schedule guard_step
    (take 6 late_clear_schedule ++ [(1, WantRead)])%nat
    (ReentrantRWLock_new true, replicate 2 idle_thread) = Some (l, ths) ∧
    ths !! 0%nat = Some th ∧ ths !! 1%nat = Some th' ∧ guards th = [W])
    as (l & ths & th & th' & Hr & H0 & H1 & Hg)
    by (eexists _, _, _, _; split; [vm_compute; reflexivity|repeat split]).
  pose proof (run_schedule_reach guard_step _ 0 _ _ _ (reach_refl _ _) Hr) as Hreach.
  assert (W ∈ guards th) as Hw by (rewrite Hg; constructor).
  exists l, ths. split; [exact Hreach|]. rewrite H0, H1. cbn. split; [exact Hw|].
  apply (reentrant_mutual_exclusion true 2 7 l ths 0 1 th th'); [reflexivity|exact Hreach|exact H0|exact H1|lia|exact Hw].
Defined.
