(* ===== verification/TimingWheel.v ===== *)
(** * TimingWheel (cyber/timer/timing_wheel.h, timing_wheel.cc, timer_bucket.h,
    timer_task.h)

    Two wheels of buckets: the work wheel has one bucket per tick, the assistant
    wheel one bucket per turn of the work wheel.  Buckets hold weak pointers to
    tasks; the tasks themselves live in a store, where [AddTask] leaves the
    bucket a task will cascade to ([remainder_interval_ms]).  A task id absent
    from the store is an expired weak pointer.

    [std::ceil(double(ms) / 2)] is computed on integers, exact for durations
    below [2 ^ 53]. *)

From stdpp Require Import base numbers list gmap.
From Stdlib Require Import ZArith Lia.
From S2P Require Import Prelude.

Open Scope Z_scope.

Definition WORK_WHEEL_SIZE : Z := 512.
Definition ASSISTANT_WHEEL_SIZE : Z := 64.
Definition TIMER_RESOLUTION_MS : Z := 2.
Definition TIMER_MAX_INTERVAL_MS : Z :=
  WORK_WHEEL_SIZE * ASSISTANT_WHEEL_SIZE * TIMER_RESOLUTION_MS.

Record TimerTask := mkTimerTask {
  timer_id_ : Z;
  interval_ms : Z;
  remainder_interval_ms : Z;
  next_fire_duration_ms : Z;
  accumulated_error_ns : Z;
  last_execute_time_ns : Z
}.

Definition TimerTask_new (timer_id : Z) : TimerTask := mkTimerTask timer_id 0 0 0 0 0.

Definition set_remainder (t : TimerTask) (r : Z) : TimerTask :=
  mkTimerTask (timer_id_ t) (interval_ms t) r (next_fire_duration_ms t)
    (accumulated_error_ns t) (last_execute_time_ns t).
Definition set_next_fire (t : TimerTask) (n : Z) : TimerTask :=
  mkTimerTask (timer_id_ t) (interval_ms t) (remainder_interval_ms t) n
    (accumulated_error_ns t) (last_execute_time_ns t).

(** A [TimerTask] object, by its address. *)
Abbreviation TaskPtr := nat.
(** [TimerBucket::task_list_]. *)
Abbreviation TimerBucket := (list TaskPtr).

Record TimingWheel := mkTimingWheel {
  running_ : bool;
  tick_count_ : Z;
  work_wheel_ : list TimerBucket;
  assistant_wheel_ : list TimerBucket;
  current_work_wheel_index_ : Z;
  current_assistant_wheel_index_ : Z;
  tasks : gmap TaskPtr TimerTask
}.

Definition TimingWheel_new : TimingWheel :=
  mkTimingWheel false 0 (replicate 512 []) (replicate 64 []) 0 0 ∅.

Definition set_running (w : TimingWheel) (b : bool) : TimingWheel :=
  mkTimingWheel b (tick_count_ w) (work_wheel_ w) (assistant_wheel_ w)
    (current_work_wheel_index_ w) (current_assistant_wheel_index_ w) (tasks w).
Definition set_work (w : TimingWheel) (l : list TimerBucket) : TimingWheel :=
  mkTimingWheel (running_ w) (tick_count_ w) l (assistant_wheel_ w)
    (current_work_wheel_index_ w) (current_assistant_wheel_index_ w) (tasks w).
Definition set_assistant (w : TimingWheel) (l : list TimerBucket) : TimingWheel :=
  mkTimingWheel (running_ w) (tick_count_ w) (work_wheel_ w) l
    (current_work_wheel_index_ w) (current_assistant_wheel_index_ w) (tasks w).
Definition set_indices (w : TimingWheel) (i j : Z) : TimingWheel :=
  mkTimingWheel (running_ w) (tick_count_ w) (work_wheel_ w) (assistant_wheel_ w) i j (tasks w).
Definition set_tasks (w : TimingWheel) (m : gmap TaskPtr TimerTask) : TimingWheel :=
  mkTimingWheel (running_ w) (tick_count_ w) (work_wheel_ w) (assistant_wheel_ w)
    (current_work_wheel_index_ w) (current_assistant_wheel_index_ w) m.

Definition GetWorkWheelIndex (index : Z) : Z := Z.land index (WORK_WHEEL_SIZE - 1).
Definition GetAssistantWheelIndex (index : Z) : Z := Z.land index (ASSISTANT_WHEEL_SIZE - 1).

(** [TimerBucket::AddTask] on bucket [i] of a wheel. *)
Definition bucket_AddTask {A} (i : Z) (t : A) (wheel : list (list A)) : list (list A) :=
  alter (λ b, b ++ [t]) (Z.to_nat i) wheel.

(** [Start()] and [Shutdown()]: the tick thread runs while [running_]. *)
Definition Start (w : TimingWheel) : TimingWheel :=
  if running_ w then w else set_running w true.
Definition Shutdown (w : TimingWheel) : TimingWheel :=
  if running_ w then set_running w false else w.

(** Ticks of a duration: [ceil(ms / TIMER_RESOLUTION_MS)]. *)
Definition ceil_ticks (ms : Z) : Z :=
  (ms + TIMER_RESOLUTION_MS - 1) / TIMER_RESOLUTION_MS.

(** [Tick()]: the callbacks handed to [cyber::Async], in order; the bucket is
    emptied. *)
Definition Tick (w : TimingWheel) : TimingWheel * list TaskPtr :=
  let i := Z.to_nat (current_work_wheel_index_ w) in
  let bucket := default [] (work_wheel_ w !! i) in
  (set_work w (<[i := []]> (work_wheel_ w)),
   filter (λ t, is_Some (tasks w !! t)) bucket).

(** [AddTask(task, current_work_wheel_index)]; the wheel's own index is read
    again inside. *)
Definition AddTask_at (w : TimingWheel) (t : TaskPtr) (current_work_wheel_index : Z)
  : TimingWheel :=
  match tasks w !! t with
  | None => w
  | Some task =>
      let w := Start w in
      let work_wheel_index :=
        u64 (current_work_wheel_index + ceil_ticks (next_fire_duration_ms task)) in
      if WORK_WHEEL_SIZE <=? work_wheel_index then
        let real_work_wheel_index := GetWorkWheelIndex work_wheel_index in
        let w := set_tasks w (<[t := set_remainder task real_work_wheel_index]> (tasks w)) in
        let assistant_ticks := work_wheel_index / WORK_WHEEL_SIZE in
        if (assistant_ticks =? 1) && (real_work_wheel_index <? current_work_wheel_index_ w)
        then set_work w (bucket_AddTask real_work_wheel_index t (work_wheel_ w))
        else
          let assistant_wheel_index :=
            GetAssistantWheelIndex (current_assistant_wheel_index_ w + assistant_ticks) in
          set_assistant w (bucket_AddTask assistant_wheel_index t (assistant_wheel_ w))
      else set_work w (bucket_AddTask work_wheel_index t (work_wheel_ w))
  end.

(** [AddTask(task)]. *)
Definition AddTask (w : TimingWheel) (t : TaskPtr) : TimingWheel :=
  AddTask_at w t (current_work_wheel_index_ w).

(** [Cascade(i)]: the tasks of assistant bucket [i] move to the work wheel. *)
Definition cascade_task (m : gmap TaskPtr TimerTask) (wheel : list TimerBucket) (t : TaskPtr)
  : list TimerBucket :=
  match m !! t with
  | Some task => bucket_AddTask (remainder_interval_ms task) t wheel
  | None => wheel
  end.

Definition Cascade (w : TimingWheel) (assistant_wheel_index : Z) : TimingWheel :=
  let i := Z.to_nat assistant_wheel_index in
  let bucket := default [] (assistant_wheel_ w !! i) in
  let w := set_work w (foldl (cascade_task (tasks w)) (work_wheel_ w) bucket) in
  set_assistant w (<[i := []]> (assistant_wheel_ w)).

(** The loop body of [TickFunc()], in the pieces between which other threads
    run: fire and count; advance the work index; advance the assistant index;
    cascade. *)
Definition tick_fire (w : TimingWheel) : TimingWheel * list TaskPtr :=
  let '(w, fired) := Tick w in
  (mkTimingWheel (running_ w) (u64 (tick_count_ w + 1)) (work_wheel_ w) (assistant_wheel_ w)
     (current_work_wheel_index_ w) (current_assistant_wheel_index_ w) (tasks w), fired).

Definition tick_advance (w : TimingWheel) : TimingWheel :=
  set_indices w (GetWorkWheelIndex (current_work_wheel_index_ w + 1))
    (current_assistant_wheel_index_ w).

Definition tick_carry (w : TimingWheel) : TimingWheel :=
  if current_work_wheel_index_ w =? 0
  then set_indices w (current_work_wheel_index_ w)
         (GetAssistantWheelIndex (current_assistant_wheel_index_ w + 1))
  else w.

Definition tick_cascade (w : TimingWheel) : TimingWheel :=
  if current_work_wheel_index_ w =? 0
  then Cascade w (current_assistant_wheel_index_ w) else w.

(** From the end of [rate.Sleep()] to the top of the loop. *)
Definition tick_next (w : TimingWheel) : TimingWheel :=
  tick_cascade (tick_carry (tick_advance w)).

(** ** What the wheel is for: an agenda of due ticks *)

(** What happens between the pieces of the tick loop: the two pieces
    themselves, a timer starting a new task or a callback putting its task back
    ([ms] is the task's [next_fire_duration_ms]), a timer dropping its task. *)
Inductive event :=
| EvFire
| EvNext
| EvStart (t : TaskPtr) (ms : Z)
| EvAgain (t : TaskPtr) (ms : Z)
| EvDrop (t : TaskPtr).

Definition wheel_event (w : TimingWheel) (e : event) : TimingWheel * list TaskPtr :=
  match e with
  | EvFire => tick_fire w
  | EvNext => (tick_next w, [])
  | EvStart t ms =>
      (AddTask (set_tasks w (<[t := set_next_fire (TimerTask_new 0) ms]> (tasks w))) t, [])
  | EvAgain t ms =>
      (AddTask (set_tasks w (alter (λ task, set_next_fire task ms) t (tasks w))) t, [])
  | EvDrop t => (set_tasks w (delete t (tasks w)), [])
  end.

(** The tick number, whether its callbacks were handed out, the tasks waiting
    with the tick they are due at, the tasks alive, all tasks ever. *)
Record Agenda := mkAgenda {
  now : Z;
  done_now : bool;
  due : list (TaskPtr * Z);
  live : gset TaskPtr;
  seen : gset TaskPtr
}.

Definition Agenda_new : Agenda := mkAgenda 0 false [] ∅ ∅.

Definition agenda_event (a : Agenda) (e : event) : option (Agenda * list TaskPtr) :=
  match e with
  | EvFire =>
      if done_now a then None
      else Some (mkAgenda (now a) true (filter (λ d, d.2 ≠ now a) (due a)) (live a) (seen a),
                 (filter (λ d, d.2 = now a) (due a)).*1)
  | EvNext =>
      if done_now a then Some (mkAgenda (now a + 1) false (due a) (live a) (seen a), [])
      else None
  | EvStart t ms =>
      if bool_decide (t ∉ seen a) && (0 <? ms) && (ms <? TIMER_MAX_INTERVAL_MS)
      then Some (mkAgenda (now a) (done_now a) (due a ++ [(t, now a + ceil_ticks ms)])
                   ({[t]} ∪ live a) ({[t]} ∪ seen a), [])
      else None
  | EvAgain t ms =>
      if bool_decide (t ∈ live a) && bool_decide (t ∉ (due a).*1)
         && (0 <? ms) && (ms <? TIMER_MAX_INTERVAL_MS)
      then Some (mkAgenda (now a) (done_now a) (due a ++ [(t, now a + ceil_ticks ms)])
                   (live a) (seen a), [])
      else None
  | EvDrop t =>
      Some (mkAgenda (now a) (done_now a) (filter (λ d, d.1 ≠ t) (due a))
              (live a ∖ {[t]}) (seen a), [])
  end.

Fixpoint wheel_run (w : TimingWheel) (es : list event) : list (list TaskPtr) :=
  match es with
  | [] => []
  | e :: es => let '(w', f) := wheel_event w e in f :: wheel_run w' es
  end.

Fixpoint agenda_run (a : Agenda) (es : list event) : option (list (list TaskPtr)) :=
  match es with
  | [] => Some []
  | e :: es => '(a', f) ← agenda_event a e; fs ← agenda_run a' es; Some (f :: fs)
  end.

(** ** Buckets *)

Section buckets.
Context {A : Type}.
Implicit Types (l : list (list A)) (x : A).

Lemma length_bucket_AddTask i x l : length (bucket_AddTask i x l) = length l.
Proof. apply length_alter. Qed.

Lemma concat_bucket_AddTask i x l :
  0 <= i < Z.of_nat (length l) → concat (bucket_AddTask i x l) ≡ₚ concat l ++ [x].
Proof.
  intros Hi. unfold bucket_AddTask.
  assert (Z.to_nat i < length l)%nat as Hlt by lia. clear Hi.
  generalize dependent (Z.to_nat i). clear i. induction l as [|b l IH]; intros i Hi; [cbn in Hi; lia|].
  destruct i as [|i].
  - cbn. rewrite <- !app_assoc. apply Permutation_app_head. apply Permutation_app_comm.
  - cbn in Hi. change (b ++ concat (alter (λ b0, b0 ++ [x]) i l) ≡ₚ (b ++ concat l) ++ [x]).
    rewrite <- app_assoc. apply Permutation_app_head, IH. lia.
Qed.

Lemma concat_empty_bucket i l b :
  l !! i = Some b → concat (<[i := []]> l) ++ b ≡ₚ concat l.
Proof.
  revert i. induction l as [|b0 l IH]; intros i Hi; [done|]. destruct i as [|i]; cbn in Hi.
  - simplify_eq. apply Permutation_app_comm.
  - change ((b0 ++ concat (<[i := []]> l)) ++ b ≡ₚ b0 ++ concat l).
    rewrite <- app_assoc. by apply Permutation_app_head, IH.
Qed.

Lemma elem_bucket_AddTask i x l j b e :
  bucket_AddTask i x l !! j = Some b → e ∈ b →
  (j = Z.to_nat i ∧ e = x) ∨ ∃ b0, l !! j = Some b0 ∧ e ∈ b0.
Proof.
  unfold bucket_AddTask. destruct (decide (j = Z.to_nat i)) as [->|Hne].
  - rewrite list_lookup_alter_eq. destruct (l !! Z.to_nat i) as [b0|]; [|done]. cbn.
    intros [= <-] [He|He%list_elem_of_singleton]%elem_of_app; eauto.
  - rewrite list_lookup_alter_ne by done. eauto.
Qed.

Lemma elem_empty_bucket i l j b e :
  <[i := []]> l !! j = Some b → e ∈ b → j ≠ i ∧ l !! j = Some b.
Proof.
  intros Hj He. apply list_lookup_insert_Some in Hj as [(_ & <- & _)|[? ?]]; [|done].
  by apply elem_of_nil in He.
Qed.

Lemma fmap_bucket_AddTask {B} (f : A → B) i x l :
  map (map f) (bucket_AddTask i x l) = bucket_AddTask i (f x) (map (map f) l).
Proof.
  unfold bucket_AddTask. generalize (Z.to_nat i) as k.
  induction l as [|b l IH]; intros k; [done|]. destruct k as [|k]; cbn.
  - by rewrite map_app.
  - f_equal. apply IH.
Qed.
End buckets.

(** ** The wheel follows the agenda *)

Lemma GetWorkWheelIndex_mod x : GetWorkWheelIndex x = x mod 512.
Proof. unfold GetWorkWheelIndex. change (WORK_WHEEL_SIZE - 1) with (Z.ones 9). by rewrite Z.land_ones. Qed.

Lemma GetAssistantWheelIndex_mod x : GetAssistantWheelIndex x = x mod 64.
Proof. unfold GetAssistantWheelIndex. change (ASSISTANT_WHEEL_SIZE - 1) with (Z.ones 6). by rewrite Z.land_ones. Qed.

(** [gw] and [ga] are the wheels with the due tick of every entry. *)
Record follows (w : TimingWheel) (a : Agenda) (gw ga : list (list (TaskPtr * Z))) : Prop := {
  fo_work : work_wheel_ w = map (map fst) gw;
  fo_assistant : assistant_wheel_ w = map (map fst) ga;
  fo_len_work : length gw = 512%nat;
  fo_len_assistant : length ga = 64%nat;
  fo_now : 0 <= now a;
  fo_work_index : current_work_wheel_index_ w = now a mod 512;
  fo_assistant_index : current_assistant_wheel_index_ w = (now a / 512) mod 64;
  fo_live : dom (tasks w) = live a;
  fo_seen : live a ⊆ seen a;
  fo_in_work : ∀ i b e, gw !! i = Some b → e ∈ b →
    Z.of_nat i = e.2 mod 512 ∧
    now a + (if done_now a then 1 else 0) <= e.2 < now a + 512 ∧ e.1 ∈ seen a;
  fo_in_assistant : ∀ i b e, ga !! i = Some b → e ∈ b →
    Z.of_nat i = (e.2 / 512) mod 64 ∧
    now a / 512 < e.2 / 512 <= now a / 512 + 64 ∧ e.1 ∈ seen a ∧
    ∀ task, tasks w !! e.1 = Some task → remainder_interval_ms task = e.2 mod 512;
  fo_due : due a ≡ₚ filter (λ e, e.1 ∈ live a) (concat gw ++ concat ga)
}.

Lemma follows_new : follows TimingWheel_new Agenda_new (replicate 512 []) (replicate 64 []).
Proof.
  split; try done.
  - intros i b e [-> _]%lookup_replicate He. by apply elem_of_nil in He.
  - intros i b e [-> _]%lookup_replicate He. by apply elem_of_nil in He.
Qed.

Lemma elem_of_concat_lookup {A} (l : list (list A)) x :
  x ∈ concat l ↔ ∃ i b, l !! i = Some b ∧ x ∈ b.
Proof.
  rewrite list_elem_of_In, in_concat. split.
  - intros (b & Hb & Hx). apply list_elem_of_In, list_elem_of_lookup in Hb as [i Hi].
    exists i, b. by rewrite list_elem_of_In.
  - intros (i & b & Hi & Hx). exists b. split; [|by apply list_elem_of_In].
    apply list_elem_of_In, list_elem_of_lookup. eauto.
Qed.

(** No waiting entry of [t], in either wheel. *)
Definition absent (t : TaskPtr) (gw ga : list (list (TaskPtr * Z))) : Prop :=
  ∀ e, e ∈ concat gw ++ concat ga → e.1 ≠ t.

Lemma ceil_ticks_range ms :
  0 < ms → ms < TIMER_MAX_INTERVAL_MS → 1 <= ceil_ticks ms <= 32768.
Proof.
  unfold ceil_ticks, TIMER_RESOLUTION_MS, TIMER_MAX_INTERVAL_MS, WORK_WHEEL_SIZE,
    ASSISTANT_WHEEL_SIZE, TIMER_RESOLUTION_MS. intros.
  pose proof (Z.div_le_mono 2 (ms + 2 - 1) 2). pose proof (Z.div_le_mono (ms + 2 - 1) 65537 2).
  change (2 / 2) with 1 in *. change (65537 / 2) with 32768 in *. lia.
Qed.

(** Where [AddTask] puts a task due [d] ticks ahead. *)
Lemma wheel_arith n d :
  0 <= n → 1 <= d →
  let i := n mod 512 + d in
  (i < 512 → i = (n + d) mod 512 ∧ n + d < n + 512) ∧
  (n + d) / 512 = n / 512 + i / 512 ∧ i mod 512 = (n + d) mod 512.
Proof.
  intros Hn Hd i. pose proof (Z_div_mod_eq_full n 512). pose proof (Z.mod_pos_bound n 512 ltac:(lia)).
  assert (n + d = i + (n / 512) * 512) as He by (subst i; lia).
  rewrite He, Z.mod_add, Z.div_add by lia.
  split; [|split; [lia|done]].
  intros Hi. rewrite Z.mod_small by (subst i; lia). subst i. lia.
Qed.

Lemma follows_Start w a gw ga : follows w a gw ga → follows (Start w) a gw ga.
Proof. intros []. unfold Start. destruct_match; by split. Qed.

(** The agenda with [t] due in [d] ticks. *)
Definition agenda_add (a : Agenda) (t : TaskPtr) (d : Z) : Agenda :=
  mkAgenda (now a) (done_now a) (due a ++ [(t, now a + d)]) (live a) (seen a).

(** [m] agrees with the tasks of [w] on where waiting tasks cascade to. *)
Definition keeps_remainders (w : TimingWheel) (ga : list (list (TaskPtr * Z)))
    (m : gmap TaskPtr TimerTask) : Prop :=
  ∀ e task, e ∈ concat ga → m !! e.1 = Some task →
    ∃ task', tasks w !! e.1 = Some task' ∧
      remainder_interval_ms task = remainder_interval_ms task'.

Lemma follows_due_add a gw ga gw' ga' t d :
  due a ≡ₚ filter (λ e, e.1 ∈ live a) (concat gw ++ concat ga) → t ∈ live a →
  concat gw' ++ concat ga' ≡ₚ (concat gw ++ concat ga) ++ [(t, d)] →
  due a ++ [(t, d)] ≡ₚ filter (λ e, e.1 ∈ live a) (concat gw' ++ concat ga').
Proof.
  intros Hdue Ht ->. rewrite filter_app, filter_cons_True, filter_nil by done. by rewrite <- Hdue.
Qed.

Lemma follows_remainders w a gw ga m i b e :
  follows w a gw ga → keeps_remainders w ga m → ga !! i = Some b → e ∈ b →
  Z.of_nat i = (e.2 / 512) mod 64 ∧
  now a / 512 < e.2 / 512 <= now a / 512 + 64 ∧ e.1 ∈ seen a ∧
  ∀ task, m !! e.1 = Some task → remainder_interval_ms task = e.2 mod 512.
Proof.
  intros [] Hk Hi He. destruct (fo_in_assistant0 i b e Hi He) as (? & ? & ? & Hr).
  repeat (split; [done|]). intros task Ht.
  destruct (Hk e task) as (task' & Ht' & ->); [apply elem_of_concat_lookup; eauto|done|].
  by apply Hr.
Qed.

Lemma follows_insert_work w a gw ga t d m j :
  follows w a gw ga → t ∈ live a → dom m = live a → keeps_remainders w ga m →
  1 <= d < 512 → j = (now a + d) mod 512 →
  follows (set_work (set_tasks w m) (bucket_AddTask j t (work_wheel_ w)))
    (agenda_add a t d) (bucket_AddTask j (t, now a + d) gw) ga.
Proof.
  intros Hf Ht Hdom Hk Hd ->. pose proof Hf as [].
  pose proof (Z.mod_pos_bound (now a + d) 512 ltac:(lia)).
  split; cbn; rewrite ?fmap_bucket_AddTask, ?length_bucket_AddTask, ?fo_work0; auto.
  - intros k b e Hb He.
    destruct (elem_bucket_AddTask _ _ _ _ _ _ Hb He) as [[-> ->]|(b0 & Hb0 & He0)];
      [|by apply (fo_in_work0 k b0)].
    cbn. split; [lia|]. split; [destruct (done_now a); lia|set_solver].
  - intros k b e. by apply (follows_remainders w a gw).
  - apply (follows_due_add a gw ga); [done..|].
    rewrite concat_bucket_AddTask by lia. rewrite <- !app_assoc.
    apply Permutation_app_head, Permutation_app_comm.
Qed.

Lemma follows_insert_assistant w a gw ga t d task j :
  follows w a gw ga → t ∈ live a →
  dom (<[t := task]> (tasks w)) = live a → keeps_remainders w ga (<[t := task]> (tasks w)) →
  remainder_interval_ms task = (now a + d) mod 512 →
  now a / 512 < (now a + d) / 512 <= now a / 512 + 64 → j = ((now a + d) / 512) mod 64 →
  follows (set_assistant (set_tasks w (<[t := task]> (tasks w)))
             (bucket_AddTask j t (assistant_wheel_ w)))
    (agenda_add a t d) gw (bucket_AddTask j (t, now a + d) ga).
Proof.
  intros Hf Ht Hdom Hk Hrem Hturn ->. pose proof Hf as [].
  pose proof (Z.mod_pos_bound ((now a + d) / 512) 64 ltac:(lia)).
  split; cbn; rewrite ?fmap_bucket_AddTask, ?length_bucket_AddTask, ?fo_assistant0; auto.
  - intros k b e Hb He.
    destruct (elem_bucket_AddTask _ _ _ _ _ _ Hb He) as [[-> ->]|(b0 & Hb0 & He0)];
      [|by apply (follows_remainders w a gw ga _ k b0)].
    cbn. split; [lia|]. split; [lia|]. split; [set_solver|].
    intros task' Hl. rewrite lookup_insert_eq in Hl. by simplify_eq.
  - apply (follows_due_add a gw ga); [done..|].
    rewrite concat_bucket_AddTask by lia. by rewrite app_assoc.
Qed.

(** A task joins: its entry goes where the due tick says. *)
Lemma follows_add w a gw ga t task :
  follows w a gw ga → tasks w !! t = Some task → absent t gw ga →
  0 < next_fire_duration_ms task → next_fire_duration_ms task < TIMER_MAX_INTERVAL_MS →
  ∃ gw' ga', follows (AddTask w t)
    (agenda_add a t (ceil_ticks (next_fire_duration_ms task))) gw' ga'.
Proof.
  intros Hf Ht Habs Hlo Hhi.
  pose proof (ceil_ticks_range _ Hlo Hhi) as Hd.
  unfold AddTask, AddTask_at. rewrite Ht.
  set (d := ceil_ticks (next_fire_duration_ms task)) in *.
  rewrite (fo_work_index _ _ _ _ Hf).
  assert (tasks (Start w) = tasks w) as Hst by (unfold Start; by destruct_match).
  rewrite <- Hst in Ht. clear Hst. apply follows_Start in Hf. generalize dependent (Start w).
  clear w. intros w Hf Ht. pose proof Hf as [].
  assert (t ∈ live a) as Hlive by (rewrite <- fo_live0; by eapply elem_of_dom_2).
  pose proof (Z.mod_pos_bound (now a) 512 ltac:(lia)) as Hm.
  destruct (wheel_arith (now a) d fo_now0 ltac:(lia)) as (Hsmall & Hturn & Hreal).
  set (i := now a mod 512 + d) in *.
  rewrite u64_small by (unfold is_u64; lia).
  assert (∀ r, keeps_remainders w ga (<[t := set_remainder task r]> (tasks w))) as Hkeep.
  { intros r e task' He Hl. rewrite lookup_insert_ne in Hl; [eauto|].
    intros Heq. apply (Habs e); [|done]. apply elem_of_app. by right. }
  assert (∀ r, dom (<[t := set_remainder task r]> (tasks w)) = live a) as Hdom
    by (intros r; rewrite dom_insert_L; set_solver).
  destruct (WORK_WHEEL_SIZE <=? i) eqn:E; unfold WORK_WHEEL_SIZE in *; zbool.
  - rewrite GetWorkWheelIndex_mod, GetAssistantWheelIndex_mod.
    cbn [set_tasks tasks current_work_wheel_index_ current_assistant_wheel_index_ work_wheel_ assistant_wheel_].
    destruct (_ && _) eqn:E2; zbool.
    + pose proof (Z_div_mod_eq_full i 512). eexists _, ga.
      apply follows_insert_work; eauto; lia.
    + assert (1 <= i / 512 <= 64) as Hturns.
      { split; [apply Z.div_le_lower_bound; lia|].
        apply Z.lt_succ_r, Z.div_lt_upper_bound; lia. }
      eexists gw, _. apply follows_insert_assistant; eauto.
      * lia.
      * by rewrite fo_assistant_index0, Z.add_mod_idemp_l, Hturn by lia.
  - destruct (Hsmall E) as [Hi Hlt]. eexists _, ga.
    replace w with (set_tasks w (tasks w)) at 1 by (by destruct w).
    apply follows_insert_work; [done|done|done| |lia|done]. intros e task' _ ?. eauto.
Qed.

(** *** Firing *)

Lemma follows_bucket w a gw ga :
  follows w a gw ga → ∃ b, gw !! Z.to_nat (now a mod 512) = Some b ∧
    default [] (work_wheel_ w !! Z.to_nat (current_work_wheel_index_ w)) = map fst b.
Proof.
  intros []. pose proof (Z.mod_pos_bound (now a) 512 ltac:(lia)).
  destruct (lookup_lt_is_Some_2 gw (Z.to_nat (now a mod 512))) as [b Hb]; [lia|].
  exists b. split; [done|]. rewrite fo_work0, fo_work_index0.
  change (map (map fst) gw) with (fmap (M:=list) (map fst) gw). by rewrite list_lookup_fmap, Hb.
Qed.

(** The bucket of the current tick holds exactly the entries due now. *)
Lemma follows_due_now w a gw ga b :
  follows w a gw ga → done_now a = false → gw !! Z.to_nat (now a mod 512) = Some b →
  (∀ e, e ∈ b → e.2 = now a) ∧
  (∀ e, e ∈ concat (<[Z.to_nat (now a mod 512) := []]> gw) ++ concat ga → e.2 ≠ now a).
Proof.
  intros [] Hd Hb. rewrite Hd in *. pose proof (Z.mod_pos_bound (now a) 512 ltac:(lia)). split.
  - intros e He. destruct (fo_in_work0 _ b e Hb He) as (Hi & Hr & _).
    apply (ring_idx_inj 512 ltac:(lia)); [|lia]. apply ring_idx_mod_eq; [lia|]. lia.
  - intros e [He|He]%elem_of_app Heq; apply elem_of_concat_lookup in He as (i & b' & Hi & He).
    + apply elem_empty_bucket with (e := e) in Hi as [Hne Hi]; [|done].
      destruct (fo_in_work0 i b' e Hi He) as (Hi' & _ & _). rewrite Heq in Hi'. lia.
    + destruct (fo_in_assistant0 i b' e Hi He) as (_ & Ht & _). rewrite Heq in Ht. lia.
Qed.

Lemma follows_fire w a gw ga :
  follows w a gw ga → done_now a = false →
  (tick_fire w).2 ≡ₚ (filter (λ d, d.2 = now a) (due a)).*1 ∧
  follows (tick_fire w).1
    (mkAgenda (now a) true (filter (λ d, d.2 ≠ now a) (due a)) (live a) (seen a))
    (<[Z.to_nat (now a mod 512) := []]> gw) ga.
Proof.
  intros Hf Hd. destruct (follows_bucket w a gw ga Hf) as (b & Hb & Hw).
  destruct (follows_due_now w a gw ga b Hf Hd Hb) as [Hin Hout]. pose proof Hf as [].
  assert (due a ≡ₚ filter (λ e, e.1 ∈ live a) b ++ filter (λ e, e.1 ∈ live a)
    (concat (<[Z.to_nat (now a mod 512) := []]> gw) ++ concat ga)) as Hdue.
  { rewrite fo_due0, <- (concat_empty_bucket _ gw b Hb), (Permutation_app_comm _ b).
    by rewrite <- app_assoc, filter_app. }
  split.
  - cbn. rewrite Hw, Hdue, filter_app, fmap_app.
    rewrite (filter_all _ (filter (λ e, e.1 ∈ live a) b))
      by (intros e [_ He]%list_elem_of_filter; by apply Hin).
    rewrite (filter_none _ (filter _ (concat _ ++ _)))
      by (intros e [_ He]%list_elem_of_filter; by apply Hout).
    rewrite app_nil_r. clear -fo_live0. induction b as [|e b IH]; [done|]. cbn [map].
    rewrite !filter_cons. rewrite <- fo_live0 in *.
    destruct (decide (is_Some (tasks w !! e.1))) as [Hs|Hs];
      destruct (decide (e.1 ∈ dom (tasks w))) as [Hs'|Hs'];
      rewrite elem_of_dom in Hs'; try done. cbn. by constructor.
  - split; cbn; rewrite ?length_insert; auto.
    + rewrite fo_work0, fo_work_index0. symmetry.
      apply (list_fmap_insert (map fst) gw _ []).
    + intros i b' e Hi He. apply elem_empty_bucket with (e := e) in Hi as [Hne Hi]; [|done].
      destruct (fo_in_work0 i b' e Hi He) as (Hi' & Hr & ?). split; [done|]. split; [|done].
      rewrite Hd in Hr. assert (e.2 ≠ now a) by (intros Heq; rewrite Heq in Hi'; lia). lia.
    + rewrite Hdue, filter_app.
      rewrite (filter_none _ (filter (λ e, e.1 ∈ live a) b))
        by (intros e [_ He]%list_elem_of_filter Hn; by apply Hn, Hin).
      rewrite (filter_all _ (filter _ (concat _ ++ _)))
        by (intros e [_ He]%list_elem_of_filter; by apply Hout). done.
Qed.

(** *** Cascading *)

(** [Cascade] with the due ticks. *)
Definition cascade_ghost (lv : gset TaskPtr) (g : list (list (TaskPtr * Z))) (e : TaskPtr * Z)
  : list (list (TaskPtr * Z)) :=
  if bool_decide (e.1 ∈ lv) then bucket_AddTask (e.2 mod 512) e g else g.

Lemma cascade_ghost_spec m lv b g :
  dom m = lv → length g = 512%nat →
  (∀ e task, e ∈ b → m !! e.1 = Some task → remainder_interval_ms task = e.2 mod 512) →
  foldl (cascade_task m) (map (map fst) g) (map fst b)
    = map (map fst) (foldl (cascade_ghost lv) g b) ∧
  length (foldl (cascade_ghost lv) g b) = 512%nat ∧
  concat (foldl (cascade_ghost lv) g b) ≡ₚ concat g ++ filter (λ e, e.1 ∈ lv) b ∧
  (∀ i b' e, foldl (cascade_ghost lv) g b !! i = Some b' → e ∈ b' →
    (e ∈ b ∧ Z.of_nat i = e.2 mod 512) ∨ ∃ b0, g !! i = Some b0 ∧ e ∈ b0).
Proof.
  intros Hdom. revert g. induction b as [|e b IH]; intros g Hl Hr; cbn [foldl map].
  { rewrite filter_nil, app_nil_r. eauto 10. }
  pose proof (Z.mod_pos_bound e.2 512 ltac:(lia)) as Hm.
  assert (cascade_task m (map (map fst) g) e.1 = map (map fst) (cascade_ghost lv g e) ∧
    length (cascade_ghost lv g e) = 512%nat) as [Heq Hl'].
  { unfold cascade_task, cascade_ghost. rewrite <- Hdom.
    destruct (m !! e.1) as [task|] eqn:E.
    - rewrite bool_decide_true by (by eapply elem_of_dom_2).
      rewrite (Hr e task) by (done || set_solver).
      by rewrite fmap_bucket_AddTask, length_bucket_AddTask.
    - rewrite bool_decide_false by (by apply not_elem_of_dom). done. }
  rewrite Heq. destruct (IH (cascade_ghost lv g e) Hl') as (H1 & H2 & H3 & H4).
  { intros e' task He'. apply Hr. set_solver. }
  split; [done|]. split; [done|]. split.
  - rewrite H3, filter_cons. unfold cascade_ghost. case_decide as Hin.
    + rewrite bool_decide_true, concat_bucket_AddTask by (done || lia). by rewrite <- app_assoc.
    + by rewrite bool_decide_false.
  - intros i b' e' Hi He'. destruct (H4 i b' e' Hi He') as [[? ?]|(b0 & Hb0 & He0)].
    + left. set_solver.
    + unfold cascade_ghost in Hb0. case_bool_decide; [|eauto].
      destruct (elem_bucket_AddTask _ _ _ _ _ _ Hb0 He0) as [[-> ->]|?]; [|eauto].
      left. split; [set_solver|lia].
Qed.

Definition agenda_next (a : Agenda) : Agenda :=
  mkAgenda (now a + 1) false (due a) (live a) (seen a).

(** Inside a turn of the work wheel only the index moves. *)
Lemma follows_next_inside w a gw ga :
  follows w a gw ga → done_now a = true → (now a + 1) mod 512 ≠ 0 →
  follows (tick_next w) (agenda_next a) gw ga.
Proof.
  intros [] Hd Hne. rewrite Hd in *.
  assert ((now a + 1) / 512 = now a / 512) as Hdiv.
  { pose proof (Z_div_mod_eq_full (now a + 1) 512). pose proof (Z_div_mod_eq_full (now a) 512).
    pose proof (Z.mod_pos_bound (now a + 1) 512 ltac:(lia)).
    pose proof (Z.mod_pos_bound (now a) 512 ltac:(lia)). nia. }
  assert (GetWorkWheelIndex (current_work_wheel_index_ w + 1) = (now a + 1) mod 512) as Hi
    by (by rewrite GetWorkWheelIndex_mod, fo_work_index0, Z.add_mod_idemp_l by lia).
  unfold tick_next, tick_cascade, tick_carry, tick_advance. cbn [set_indices current_work_wheel_index_].
  rewrite Hi, (proj2 (Z.eqb_neq _ _) Hne).
  cbn [set_indices current_work_wheel_index_]. rewrite (proj2 (Z.eqb_neq _ _) Hne).
  split; cbn; rewrite ?Hdiv; auto; [lia|].
  intros i b e Hb He. destruct (fo_in_work0 i b e Hb He) as (? & ? & ?).
  split; [done|]. split; [lia|done].
Qed.

(** At the end of a turn the next assistant bucket cascades. *)
Lemma follows_next_turn w a gw ga :
  follows w a gw ga → done_now a = true → (now a + 1) mod 512 = 0 →
  ∃ gw' ga', follows (tick_next w) (agenda_next a) gw' ga'.
Proof.
  intros [] Hd H0. rewrite Hd in *.
  assert ((now a + 1) / 512 = now a / 512 + 1) as Hdiv.
  { pose proof (Z_div_mod_eq_full (now a + 1) 512). pose proof (Z_div_mod_eq_full (now a) 512).
    pose proof (Z.mod_pos_bound (now a) 512 ltac:(lia)). nia. }
  set (turn := (now a + 1) / 512) in *. pose proof (Z.mod_pos_bound turn 64 ltac:(lia)) as Hm.
  destruct (lookup_lt_is_Some_2 ga (Z.to_nat (turn mod 64))) as [b Hb]; [lia|].
  assert (∀ e, e ∈ b → e.2 / 512 = turn) as Hturn.
  { intros e He. destruct (fo_in_assistant0 _ b e Hb He) as (Hi & Hr & _).
    apply (ring_idx_inj 64 ltac:(lia)); [|lia]. apply ring_idx_mod_eq; [lia|]. lia. }
  destruct (cascade_ghost_spec (tasks w) (live a) b gw) as (Hfold & Hlen & Hperm & Hin); [done..| |].
  { intros e task He. by apply (fo_in_assistant0 _ b e Hb He). }
  exists (foldl (cascade_ghost (live a)) gw b), (<[Z.to_nat (turn mod 64) := []]> ga).
  assert (GetWorkWheelIndex (current_work_wheel_index_ w + 1) = 0) as Hi
    by (by rewrite GetWorkWheelIndex_mod, fo_work_index0, Z.add_mod_idemp_l by lia).
  assert (GetAssistantWheelIndex (current_assistant_wheel_index_ w + 1) = turn mod 64) as Ha.
  { rewrite GetAssistantWheelIndex_mod, fo_assistant_index0, Z.add_mod_idemp_l by lia. by rewrite Hdiv. }
  unfold tick_next, tick_cascade, tick_carry, tick_advance, Cascade.
  cbn [set_indices current_work_wheel_index_ current_assistant_wheel_index_].
  rewrite Hi. cbn. rewrite Ha.
  rewrite fo_assistant0, fo_work0. change (map (map fst) ga) with (fmap (M:=list) (map fst) ga).
  rewrite list_lookup_fmap, Hb. cbn. rewrite Hfold.
  split; cbn; rewrite ?length_insert; auto.
  - symmetry. apply (list_fmap_insert (map fst) ga _ []).
  - lia.
  - intros i b' e Hi' He. destruct (Hin i b' e Hi' He) as [[He' Hmod]|(b0 & Hb0 & He0)].
    + specialize (Hturn e He'). destruct (fo_in_assistant0 _ b e Hb He') as (_ & _ & ? & _).
      pose proof (Z_div_mod_eq_full e.2 512). pose proof (Z_div_mod_eq_full (now a + 1) 512).
      pose proof (Z.mod_pos_bound e.2 512 ltac:(lia)).
      split; [done|]. split; [lia|done].
    + destruct (fo_in_work0 i b0 e Hb0 He0) as (? & ? & ?). split; [done|]. split; [lia|done].
  - fold turn. intros i b' e Hi' He.
    apply elem_empty_bucket with (e := e) in Hi' as [Hne Hi']; [|done].
    destruct (fo_in_assistant0 i b' e Hi' He) as (Hii & Hr & ? & ?). split; [done|]. split; [|done].
    assert (e.2 / 512 ≠ turn) by (intros Heq; apply Hne; rewrite Heq in Hii; lia). lia.
  - rewrite fo_due0, <- (concat_empty_bucket _ ga b Hb), Hperm.
    rewrite !filter_app.
    rewrite (filter_all (λ e, e.1 ∈ live a) (filter (λ e, e.1 ∈ live a) b))
      by (intros e [? _]%list_elem_of_filter; done).
    rewrite <- app_assoc. apply Permutation_app_head, Permutation_app_comm.
Qed.

Lemma follows_drop w a gw ga t :
  follows w a gw ga →
  follows (set_tasks w (delete t (tasks w)))
    (mkAgenda (now a) (done_now a) (filter (λ d, d.1 ≠ t) (due a)) (live a ∖ {[t]}) (seen a)) gw ga.
Proof.
  intros []. split; cbn; auto.
  - rewrite dom_delete_L. by rewrite fo_live0.
  - set_solver.
  - intros i b e Hb He. destruct (fo_in_assistant0 i b e Hb He) as (? & ? & ? & Hr).
    repeat (split; [done|]). intros task [_ Ht]%lookup_delete_Some. by apply Hr.
  - rewrite fo_due0. clear. induction (concat gw ++ concat ga) as [|e l IH]; [done|].
    rewrite !filter_cons. repeat case_decide; rewrite ?filter_cons; repeat case_decide;
      rewrite ?IH; try done; set_solver.
Qed.

(** Giving [t] its next duration, before it is added. *)
Lemma follows_prepare w a gw ga t task :
  follows w a gw ga → absent t gw ga →
  follows (set_tasks w (<[t := task]> (tasks w)))
    (mkAgenda (now a) (done_now a) (due a) ({[t]} ∪ live a) ({[t]} ∪ seen a)) gw ga.
Proof.
  intros [] Habs. split; cbn; auto.
  - rewrite dom_insert_L. by rewrite fo_live0.
  - set_solver.
  - intros i b e Hb He. destruct (fo_in_work0 i b e Hb He) as (? & ? & ?). set_solver.
  - intros i b e Hb He. destruct (fo_in_assistant0 i b e Hb He) as (? & ? & ? & Hr).
    split; [done|]. split; [done|]. split; [set_solver|].
    intros task' Ht. apply Hr. rewrite lookup_insert_ne in Ht; [done|].
    intros Heq. apply (Habs e); [|done]. apply elem_of_app. right. apply elem_of_concat_lookup. eauto.
  - rewrite fo_due0. clear -Habs. revert Habs. unfold absent.
    generalize (concat gw ++ concat ga) as l. induction l as [|e l IH]; intros Habs; [done|].
    assert (e.1 ≠ t) by (apply Habs; set_solver).
    specialize (IH ltac:(intros; apply Habs; set_solver)).
    rewrite !filter_cons. repeat case_decide; rewrite ?IH; try done; set_solver.
Qed.

Lemma absent_unseen w a gw ga t : follows w a gw ga → t ∉ seen a → absent t gw ga.
Proof.
  intros [] Ht e [He|He]%elem_of_app <-; apply elem_of_concat_lookup in He as (i & b & Hi & He).
  - by destruct (fo_in_work0 i b e Hi He) as (_ & _ & ?).
  - by destruct (fo_in_assistant0 i b e Hi He) as (_ & _ & ? & _).
Qed.

Lemma absent_not_due w a gw ga t :
  follows w a gw ga → t ∈ live a → t ∉ (due a).*1 → absent t gw ga.
Proof.
  intros [] Hl Ht e He <-. apply Ht. apply list_elem_of_fmap. exists e. split; [done|].
  rewrite fo_due0. by apply list_elem_of_filter.
Qed.

Lemma follows_start w a gw ga t task :
  follows w a gw ga → absent t gw ga → 
  0 < next_fire_duration_ms task → next_fire_duration_ms task < TIMER_MAX_INTERVAL_MS →
  ∃ gw' ga', follows (AddTask (set_tasks w (<[t := task]> (tasks w))) t)
    (mkAgenda (now a) (done_now a)
       (due a ++ [(t, now a + ceil_ticks (next_fire_duration_ms task))])
       ({[t]} ∪ live a) ({[t]} ∪ seen a)) gw' ga'.
Proof.
  intros Hf Habs Hlo Hhi.
  destruct (follows_add _ _ gw ga t task (follows_prepare w a gw ga t task Hf Habs)
    (lookup_insert_eq _ _ _) Habs Hlo Hhi) as (gw' & ga' & Hf').
  exists gw', ga'. exact Hf'.
Qed.

Lemma follows_event w a gw ga e a' f :
  follows w a gw ga → agenda_event a e = Some (a', f) →
  (wheel_event w e).2 ≡ₚ f ∧ ∃ gw' ga', follows (wheel_event w e).1 a' gw' ga'.
Proof.
  intros Hf He. destruct e as [| |t ms|t ms|t]; cbn in He.
  - destruct (done_now a) eqn:Hd; [done|]. simplify_eq.
    destruct (follows_fire w a gw ga Hf Hd). eauto.
  - destruct (done_now a) eqn:Hd; [|done]. simplify_eq. split; [done|].
    destruct (Z.eq_dec ((now a + 1) mod 512) 0).
    + by apply (follows_next_turn w a gw ga).
    + exists gw, ga. by apply follows_next_inside.
  - destruct (_ && _) eqn:E in He; [|done]. simplify_eq. zbool. case_bool_decide; [|done].
    split; [done|]. apply (follows_start w a gw ga t (set_next_fire (TimerTask_new 0) ms)); auto.
    by apply (absent_unseen w a gw ga).
  - destruct (_ && _) eqn:E in He; [|done]. simplify_eq. zbool.
    repeat case_bool_decide; try done. split; [done|]. cbn [wheel_event fst].
    assert (t ∈ dom (tasks w)) as [task Ht]%elem_of_dom by (by rewrite (fo_live _ _ _ _ Hf)).
    replace (alter (λ task, set_next_fire task ms) t (tasks w))
      with (<[t := set_next_fire task ms]> (tasks w))
      by (apply map_eq; intros k; destruct (decide (k = t)) as [->|];
          [by rewrite lookup_insert_eq, lookup_alter_eq, Ht
          |by rewrite lookup_insert_ne, lookup_alter_ne]).
    pose proof (fo_seen _ _ _ _ Hf) as Hsub.
    replace (live a) with ({[t]} ∪ live a) by set_solver.
    replace (seen a) with ({[t]} ∪ seen a) by set_solver.
    apply (follows_start w a gw ga t (set_next_fire task ms)); auto.
    by apply (absent_not_due w a gw ga).
  - simplify_eq. split; [done|]. exists gw, ga. by apply follows_drop.
Qed.

Lemma follows_run es w a gw ga fs :
  follows w a gw ga → agenda_run a es = Some fs → Forall2 (≡ₚ) (wheel_run w es) fs.
Proof.
  revert w a gw ga fs. induction es as [|e es IH]; intros w a gw ga fs Hf Hr; cbn in Hr.
  { simplify_eq. constructor. }
  destruct (agenda_event a e) as [[a' f]|] eqn:He; [|done]. cbn in Hr.
  destruct (agenda_run a' es) as [fs'|] eqn:Hr'; [|done]. cbn in Hr. simplify_eq.
  destruct (follows_event w a gw ga e a' f Hf He) as (Hp & gw' & ga' & Hf').
  cbn. destruct (wheel_event w e) as [w' f']. cbn in *. constructor; [done|]. by eapply IH.
Qed.

(** [C3] The timing wheel fires every task on its tick: started from an empty
    wheel, through any sequence of ticks, new tasks, tasks put back by their
    callbacks and tasks dropped by their timers, with durations below
    [TIMER_MAX_INTERVAL_MS], each tick hands out exactly the callbacks of the
    live tasks due at it, a task added with duration [ms] being due
    [ceil (ms / 2)] ticks later: none is lost in a cascade, fired a turn early or
    late, or fired twice. *)
Theorem timing_wheel_refines_agenda es fs :
  agenda_run Agenda_new es = Some fs → Forall2 (≡ₚ) (wheel_run TimingWheel_new es) fs.
Proof. apply (follows_run es _ _ _ _ _ follows_new). Qed.

Lemma timing_wheel_refines_agenda_witness :
  Forall2 (≡ₚ)
    (wheel_run TimingWheel_new
       ([EvStart 1 1100; EvStart 2 3; EvFire; EvNext; EvFire; EvNext; EvFire; EvAgain 2 4] ++
        concat (replicate 548 [EvNext; EvFire])))
    (replicate 6 [] ++ [[2%nat]; []] ++
     [[]; []; []; [2%nat]] ++ replicate 1091 [] ++ [[1%nat]]).
Proof.
  apply timing_wheel_refines_agenda. vm_compute. reflexivity.
Defined.

(** ** At the end of a turn *)

(** [n] whole iterations of the tick loop, and the callbacks of each. *)
Fixpoint iterations (n : nat) (w : TimingWheel) : TimingWheel * list (list TaskPtr) :=
  match n with
  | O => (w, [])
  | S n =>
      let '(w, f) := tick_fire w in
      let '(w, fs) := iterations n (tick_next w) in (w, f :: fs)
  end.

(** The wheel in its 511th tick, its callbacks handed out, with a task of
    duration [ms] known and not yet added. *)
Definition last_slot (ms : Z) : TimingWheel :=
  set_tasks (tick_fire (iterations 511 TimingWheel_new).1).1
    {[ 1%nat := set_next_fire (TimerTask_new 0) ms ]}.

(** [AddTask] does not take [current_work_wheel_index_mutex_], so it may run
    between the pieces of the tick loop.  At the end of a turn this breaks the
    due tick: (1) a task of 512 ticks added after the work index is reset and
    before the assistant index advances is cascaded at once and fires in the
    current tick; (2) a task due at the next tick, whose [AddTask] read the index
    before the reset and ran on after it, fires 512 ticks late. *)
Theorem timing_wheel_boundary_race :
  (let w := AddTask (tick_advance (last_slot 1024)) 1 in
   (tick_fire (tick_cascade (tick_carry w))).2 = [1%nat]) ∧
  (let w := last_slot 2 in
   let w := AddTask_at (tick_next w) 1 (current_work_wheel_index_ w) in
   (iterations 513 w).2 = replicate 512 [] ++ [[1%nat]]).
Proof. split; vm_compute; reflexivity. Qed.
