(* ===== verification/Timer.v ===== *)
(** * Timer (cyber/timer/timer.h, timer.cc)

    Timers over the timing wheel: a started timer owns a [TimerTask], which the
    wheel knows by a weak pointer.  A oneshot task's callback runs the client's
    callback; a periodic one also measures how late it runs and puts the task
    back with a corrected duration.

    [std::llround(double(ns) / 1e6)] is computed on integers: rounding to the
    nearest millisecond, halves away from zero. *)

From stdpp Require Import base numbers list gmap.
From Stdlib Require Import ZArith Lia.
From S2P Require Import Prelude TimingWheel.

Open Scope Z_scope.

Record TimerOption := mkTimerOption { period : Z; oneshot : bool }.

Record Timer := mkTimer {
  timer_id_ : Z;
  timer_opt_ : TimerOption;
  task_ : option TaskPtr;
  started_ : bool
}.

(** The process: the wheel, [global_timer_id], the next free task address, and
    whether [GlobalData] is in reality mode. *)
Record World := mkWorld {
  wheel : TimingWheel;
  global_timer_id : Z;
  fresh_ptr : TaskPtr;
  is_reality_mode : bool
}.

Definition set_wheel (W : World) (w : TimingWheel) : World :=
  mkWorld w (global_timer_id W) (fresh_ptr W) (is_reality_mode W).

Definition GenerateTimerId (W : World) : World * Z :=
  (mkWorld (wheel W) (u64 (global_timer_id W + 1)) (fresh_ptr W) (is_reality_mode W),
   global_timer_id W).

Definition Timer_new (W : World) (opt : TimerOption) : World * Timer :=
  let '(W, id) := GenerateTimerId W in (W, mkTimer id opt None false).

Definition SetTimerOption (t : Timer) (opt : TimerOption) : Timer :=
  mkTimer (timer_id_ t) opt (task_ t) (started_ t).

(** Dropping the timer's shared pointer; a callback under way keeps none of its
    own once it returns. *)
Definition release (W : World) (p : option TaskPtr) : World :=
  match p with
  | Some a => set_wheel W (set_tasks (wheel W) (delete a (tasks (wheel W))))
  | None => W
  end.

(** [InitTimerTask()]. *)
Definition InitTimerTask (W : World) (t : Timer) : World * Timer * bool :=
  let p := period (timer_opt_ t) in
  if p =? 0 then (W, t, false)
  else if TIMER_MAX_INTERVAL_MS <=? p then (W, t, false)
  else
    let W := release W (task_ t) in
    let a := fresh_ptr W in
    let task := mkTimerTask (timer_id_ t) p 0 p 0 0 in
    let W := mkWorld (set_tasks (wheel W) (<[a := task]> (tasks (wheel W))))
               (global_timer_id W) (S a) (is_reality_mode W) in
    (W, mkTimer (timer_id_ t) (timer_opt_ t) (Some a) (started_ t), true).

(** [Start()]. *)
Definition Start (W : World) (t : Timer) : World * Timer :=
  if negb (is_reality_mode W) then (W, t)
  else if started_ t then (W, t)
  else
    let t := mkTimer (timer_id_ t) (timer_opt_ t) (task_ t) true in
    let '(W, t, ok) := InitTimerTask W t in
    match ok, task_ t with
    | true, Some a => (set_wheel W (AddTask (wheel W) a), t)
    | _, _ => (W, t)
    end.

(** [Stop()]. *)
Definition Stop (W : World) (t : Timer) : World * Timer :=
  let was_started := started_ t in
  let t := mkTimer (timer_id_ t) (timer_opt_ t) (task_ t) false in
  if was_started && bool_decide (is_Some (task_ t))
  then (release W (task_ t), mkTimer (timer_id_ t) (timer_opt_ t) None false)
  else (W, t).

(** The destructor. *)
Definition Timer_destroy (W : World) (t : Timer) : World :=
  let '(W, t) := if bool_decide (is_Some (task_ t)) then Stop W t else (W, t) in
  release W (task_ t).

Definition llround_ms (ns : Z) : Z :=
  if 0 <=? ns then (ns + 500000) / 1000000 else - ((- ns + 500000) / 1000000).

(** What the periodic callback leaves in the task when the client's callback
    ran from [start] to [end_] (nanoseconds of [Time::MonoTime()]). *)
Definition periodic_update (task : TimerTask) (start end_ : Z) : TimerTask :=
  let execute_time_ns := u64 (end_ - start) in
  let execute_time_ms := u64 (llround_ms execute_time_ns) in
  let acc :=
    if last_execute_time_ns task =? 0 then accumulated_error_ns task
    else i64 (accumulated_error_ns task +
              u64 (start - last_execute_time_ns task - interval_ms task * 1000000)) in
  let next :=
    if interval_ms task <=? execute_time_ms then TIMER_RESOLUTION_MS
    else
      let accumulated_error_ms := llround_ms acc in
      if accumulated_error_ms <=?
           i64 (interval_ms task - execute_time_ms - TIMER_RESOLUTION_MS)
      then u64 (interval_ms task - execute_time_ms - accumulated_error_ms)
      else TIMER_RESOLUTION_MS in
  mkTimerTask (TimingWheel.timer_id_ task) (interval_ms task) (remainder_interval_ms task)
    next acc start.

(** The periodic callback: nothing when the task is gone. *)
Definition periodic_callback (w : TimingWheel) (a : TaskPtr) (start end_ : Z) : TimingWheel :=
  match tasks w !! a with
  | None => w
  | Some task => AddTask (set_tasks w (<[a := periodic_update task start end_]> (tasks w))) a
  end.

(** The oneshot callback: whether the client's callback runs. *)
Definition oneshot_callback (w : TimingWheel) (a : TaskPtr) : bool :=
  bool_decide (is_Some (tasks w !! a)).

(** ** Arithmetic of the correction *)

Lemma i64_add_u64 a x : is_i64 (a + x) → i64 (a + u64 x) = a + x.
Proof.
  intros H. unfold is_i64, i64, u64 in *.
  replace (a + x mod 2 ^ 64 + 2 ^ 63) with (x mod 2 ^ 64 + (a + 2 ^ 63)) by lia.
  rewrite Z.add_mod_idemp_l by lia. rewrite Z.mod_small by lia. lia.
Qed.

Lemma llround_ms_error ns : - 500000 <= llround_ms ns * 1000000 - ns <= 500000.
Proof.
  unfold llround_ms. destruct (0 <=? ns) eqn:E; zbool.
  - pose proof (Z_div_mod_eq_full (ns + 500000) 1000000).
    pose proof (Z.mod_pos_bound (ns + 500000) 1000000 ltac:(lia)). lia.
  - pose proof (Z_div_mod_eq_full (- ns + 500000) 1000000).
    pose proof (Z.mod_pos_bound (- ns + 500000) 1000000 ltac:(lia)). lia.
Qed.

(** Times and intervals far from overflow (2^61 ns is 73 years). *)
Definition sane (s e : Z) : Prop := 0 < s ∧ s <= e ∧ e < 2 ^ 61.

Lemma execute_time_small s e :
  sane s e → u64 (e - s) = e - s ∧ u64 (llround_ms (e - s)) = llround_ms (e - s) ∧
  0 <= llround_ms (e - s) < 2 ^ 61.
Proof.
  intros (H1 & H2 & H3). pose proof (llround_ms_error (e - s)).
  rewrite (u64_small (e - s)) by (unfold is_u64; lia).
  rewrite u64_small by (unfold is_u64; lia). lia.
Qed.

(** The duration a callback sets: never below the resolution. *)
Lemma next_fire_value task start end_ acc :
  sane start end_ → 0 < interval_ms task < TIMER_MAX_INTERVAL_MS →
  acc = accumulated_error_ns (periodic_update task start end_) → - 2 ^ 62 < acc < 2 ^ 62 →
  next_fire_duration_ms (periodic_update task start end_) =
  (if interval_ms task <=? llround_ms (end_ - start) then TIMER_RESOLUTION_MS
   else Z.max TIMER_RESOLUTION_MS
          (interval_ms task - llround_ms (end_ - start) - llround_ms acc)).
Proof.
  intros Hs Hi -> Hacc. destruct (execute_time_small _ _ Hs) as (He & Hm & Hr).
  unfold periodic_update in *. cbn [next_fire_duration_ms accumulated_error_ns] in *.
  rewrite He, Hm. set (acc := if last_execute_time_ns task =? 0 then _ else _) in *.
  pose proof (llround_ms_error acc).
  unfold TIMER_MAX_INTERVAL_MS, WORK_WHEEL_SIZE, ASSISTANT_WHEEL_SIZE, TIMER_RESOLUTION_MS in *.
  destruct (interval_ms task <=? llround_ms (end_ - start)) eqn:E; [done|]. zbool.
  rewrite i64_small by (unfold is_i64; lia).
  destruct (_ <=? _) eqn:E2; zbool; [|lia].
  rewrite u64_small by (unfold is_u64; lia). lia.
Qed.

(** The task after a sequence of callbacks, each with its start and end. *)
Definition after_callbacks (task : TimerTask) (l : list (Z * Z)) : TimerTask :=
  foldl (λ t se, periodic_update t se.1 se.2) task l.

Lemma periodic_update_interval task s e : interval_ms (periodic_update task s e) = interval_ms task.
Proof. done. Qed.

Lemma after_callbacks_interval l task : interval_ms (after_callbacks task l) = interval_ms task.
Proof.
  revert task. induction l as [|[s e] l IH]; intros task; [done|].
  change (interval_ms (after_callbacks (periodic_update task s e) l) = interval_ms task).
  by rewrite IH.
Qed.

(** The accumulated error telescopes to the total drift. *)
Lemma accumulated_drift task s0 e0 l p :
  accumulated_error_ns task = 0 → last_execute_time_ns task = 0 → interval_ms task = p →
  0 < p → sane s0 e0 → Forall (λ se, sane se.1 se.2) l →
  Z.of_nat (length l) * p * 1000000 < 2 ^ 61 →
  let task' := after_callbacks task ((s0, e0) :: l) in
  let s := last_execute_time_ns task' in
  s = default s0 (fst <$> last l) ∧
  accumulated_error_ns task' = s - s0 - Z.of_nat (length l) * p * 1000000.
Proof.
  intros Ha Hl Hp Hpos Hs0. induction l as [|[s e] l IH] using rev_ind; intros Hall Hlen.
  - cbn. rewrite Hl. cbn. lia.
  - apply Forall_app in Hall as [Hall [(Hs & Hs' & Hs'') _]%Forall_cons]. cbn in Hs, Hs', Hs''.
    rewrite length_app in Hlen. cbn in Hlen.
    destruct IH as [IHl IHa]; [done|nia|].
    change (after_callbacks task ((s0, e0) :: l ++ [(s, e)])) with
      (after_callbacks task (((s0, e0) :: l) ++ [(s, e)])).
    unfold after_callbacks in *. rewrite foldl_app, last_snoc, length_app.
    set (t1 := foldl _ task ((s0, e0) :: l)) in *. cbn zeta in *. cbn [foldl fst snd].
    assert (interval_ms t1 = p) as Hint by (rewrite <- Hp; apply (after_callbacks_interval _ task)).
    assert (0 < last_execute_time_ns t1 < 2 ^ 61) as Hrange.
    { rewrite IHl. destruct (last l) as [[s1 e1]|] eqn:El; cbn; [|destruct Hs0; lia].
      apply last_Some_elem_of in El. rewrite Forall_forall in Hall.
      destruct (Hall _ El) as (? & ? & ?). cbn in *. lia. }
    split; [done|]. cbn [periodic_update accumulated_error_ns last_execute_time_ns].
    replace (last_execute_time_ns t1 =? 0) with false by (symmetry; apply Z.eqb_neq; lia).
    destruct Hs0 as (? & ? & ?). cbn [length].
    rewrite Hint, i64_add_u64; rewrite IHa; unfold is_i64; nia.
Qed.

(** [C38] A periodic timer does not drift.  After any number of callbacks, however late
    they started and however long they took, of which the first started at [s0] and the
    last ran from [s] to [e]: if the last one took less than the interval (rounded to
    milliseconds, as the code does), the next firing
    (its end plus the duration it set) is at most a millisecond before [s0] plus a whole
    number of intervals, one for each callback, and at most a millisecond behind it, or,
    where the callback ended too late for that, as soon as the wheel's resolution allows;
    if it took the interval or more, the next firing is as soon as that. *)
Theorem periodic_timer_no_drift task s0 e0 l s e p :
  accumulated_error_ns task = 0 → last_execute_time_ns task = 0 → interval_ms task = p →
  0 < p < TIMER_MAX_INTERVAL_MS → sane s0 e0 →
  Forall (λ se, sane se.1 se.2) (l ++ [(s, e)]) →
  Z.of_nat (length l + 1) * p * 1000000 < 2 ^ 61 →
  let task' := after_callbacks task ((s0, e0) :: l ++ [(s, e)]) in
  let fires := e + next_fire_duration_ms task' * 1000000 in
  let due := s0 + Z.of_nat (length l + 2) * (p * 1000000) in
  let soonest := e + TIMER_RESOLUTION_MS * 1000000 in
  (llround_ms (e - s) < p → due - 1000000 <= fires <= Z.max (due + 1000000) soonest) ∧
  (p <= llround_ms (e - s) → fires = soonest).
Proof.
  intros Ha Hl Hp Hpos Hs0 Hall Hlen task' fires due soonest.
  destruct (accumulated_drift task s0 e0 (l ++ [(s, e)]) p) as [Hlast Hacc]; auto; [lia| |].
  { rewrite length_app. cbn. lia. }
  fold task' in Hlast, Hacc. rewrite last_snoc in Hlast.
  change (last_execute_time_ns task' = s) in Hlast.
  rewrite Hlast, length_app in Hacc. cbn [length] in Hacc.
  apply Forall_app in Hall as [_ [Hs _]%Forall_cons]. cbn in Hs.
  set (t1 := after_callbacks task ((s0, e0) :: l)).
  assert (task' = periodic_update t1 s e) as Ht.
  { subst task' t1. change ((s0, e0) :: l ++ [(s, e)]) with (((s0, e0) :: l) ++ [(s, e)]).
    unfold after_callbacks. by rewrite foldl_app. }
  assert (interval_ms t1 = p) as Hint by (rewrite <- Hp; apply after_callbacks_interval).
  assert (- 2 ^ 62 < accumulated_error_ns task' < 2 ^ 62) as Hb
    by (destruct Hs, Hs0; nia).
  unfold fires, due, soonest. rewrite Ht in Hacc, Hb |- *.
  rewrite (next_fire_value t1 s e _ Hs ltac:(by rewrite Hint) eq_refl Hb).
  pose proof (llround_ms_error (e - s)).
  pose proof (llround_ms_error (accumulated_error_ns (periodic_update t1 s e))) as Herr.
  rewrite Hint in *. rewrite Hacc in Herr |- *. unfold TIMER_RESOLUTION_MS in *.
  split; intros; destruct (p <=? _) eqn:E; zbool; lia.
Qed.

Lemma periodic_timer_no_drift_witness :
  let task' := after_callbacks (mkTimerTask 0 10 0 10 0 0)
    ((1000000, 1500000) :: [(14000000, 15000000)] ++ [(24000000, 25000000)]) in
  next_fire_duration_ms task' = 6 ∧
  31000000 - 1000000 <= 25000000 + next_fire_duration_ms task' * 1000000 <= Z.max (31000000 + 1000000) 27000000.
Proof.
  split; [vm_compute; reflexivity|].
  apply (periodic_timer_no_drift (mkTimerTask 0 10 0 10 0 0) 1000000 1500000
    [(14000000, 15000000)] 24000000 25000000 10);
    [reflexivity|reflexivity|reflexivity|by vm_compute|unfold sane; lia| |cbn; lia|by vm_compute].
  repeat constructor; cbn; lia.
Defined.

(** ** Starting and stopping *)

Lemma due_without a t : t ∉ (due a).*1 → filter (λ d, d.1 ≠ t) (due a) = due a.
Proof.
  intros Ht. apply filter_all. intros d Hd <-. apply Ht. apply list_elem_of_fmap. eauto.
Qed.

Lemma due_seen w a gw ga d : follows w a gw ga → d ∈ (due a).*1 → d ∈ seen a.
Proof.
  intros Hf ([t z] & -> & He)%list_elem_of_fmap. rewrite (fo_due _ _ _ _ Hf) in He.
  apply list_elem_of_filter in He as [He _]. pose proof (fo_seen _ _ _ _ Hf). cbn in *. set_solver.
Qed.

(** A timer and the wheel: [Start] on a stopped timer with a period in
    [1, TIMER_MAX_INTERVAL_MS) makes a task due after [ceil (period / 2)] ticks
    and a second [Start] changes nothing; [Stop] withdraws the task, leaving the
    agenda as before; a period outside the range starts nothing. *)
Theorem timer_start_stop W t a gw ga :
  is_reality_mode W = true → started_ t = false → task_ t = None →
  follows (wheel W) a gw ga → fresh_ptr W ∉ seen a → is_u32 (period (timer_opt_ t)) →
  let '(W1, t1) := Start W t in
  let '(W2, t2) := Stop W1 t1 in
  Start W1 t1 = (W1, t1) ∧
  (if (0 <? period (timer_opt_ t)) && (period (timer_opt_ t) <? TIMER_MAX_INTERVAL_MS)
   then
     (∃ gw' ga', follows (wheel W1)
        (mkAgenda (now a) (done_now a)
           (due a ++ [(fresh_ptr W, now a + ceil_ticks (period (timer_opt_ t)))])
           ({[fresh_ptr W]} ∪ live a) ({[fresh_ptr W]} ∪ seen a)) gw' ga') ∧
     (∃ gw' ga', follows (wheel W2)
        (mkAgenda (now a) (done_now a) (due a) (live a) ({[fresh_ptr W]} ∪ seen a)) gw' ga')
   else wheel W1 = wheel W ∧ wheel W2 = wheel W).
Proof.
  intros Hr Hst Htask Hf Hfresh Hp. unfold is_u32 in Hp.
  set (p := period (timer_opt_ t)) in *.
  destruct ((0 <? p) && (p <? TIMER_MAX_INTERVAL_MS)) eqn:E.
  - assert (0 < p < TIMER_MAX_INTERVAL_MS) as Hrange by (zbool; lia).
    set (task := mkTimerTask (timer_id_ t) p 0 p 0 0).
    set (W1 := mkWorld (AddTask (set_tasks (wheel W) (<[fresh_ptr W := task]> (tasks (wheel W)))) (fresh_ptr W))
      (global_timer_id W) (S (fresh_ptr W)) true).
    assert (Start W t = (W1, mkTimer (timer_id_ t) (timer_opt_ t) (Some (fresh_ptr W)) true)) as ->.
    { unfold Start, InitTimerTask. rewrite Hr, Hst. cbn. fold p. rewrite Htask. cbn.
      rewrite (proj2 (Z.eqb_neq p 0)), (proj2 (Z.leb_gt _ p)) by lia. by rewrite Hr. }
    unfold Stop. cbn.
    destruct (follows_start (wheel W) a gw ga (fresh_ptr W) task Hf) as (gw' & ga' & Hf');
      [by apply (absent_unseen (wheel W) a)|cbn; lia..|].
    split; [done|]. split; [by exists gw', ga'|].
    apply (follows_drop _ _ _ _ (fresh_ptr W)) in Hf'. cbn in Hf'.
    exists gw', ga'. rewrite filter_app, due_without in Hf'
      by (intros Hin; by apply Hfresh, (due_seen (wheel W) a gw ga)).
    rewrite filter_cons_False, filter_nil, app_nil_r in Hf' by (cbn; tauto).
    replace (({[fresh_ptr W]} ∪ live a) ∖ {[fresh_ptr W]}) with (live a) in Hf'; [exact Hf'|].
    pose proof (fo_seen _ _ _ _ Hf). set_solver.
  - assert (Start W t = (W, mkTimer (timer_id_ t) (timer_opt_ t) None true)) as ->.
    { unfold Start, InitTimerTask. rewrite Hr, Hst. cbn. fold p. rewrite Htask.
      destruct (p =? 0) eqn:E0; [done|]. zbool.
      replace (TIMER_MAX_INTERVAL_MS <=? p) with true; [done|].
      symmetry. apply Z.leb_le. apply andb_false_iff in E as [E|E]; zbool; lia. }
    unfold Stop, Start. cbn. by rewrite Hr.
Qed.

Definition idle_world : World := mkWorld TimingWheel_new 0 0 true.

Lemma timer_start_stop_witness :
  let t := mkTimer 0 (mkTimerOption 100 true) None false in
  let '(W1, t1) := Start idle_world t in
  let '(W2, t2) := Stop W1 t1 in
  Start W1 t1 = (W1, t1) ∧
  (∃ gw' ga', follows (wheel W1) (mkAgenda 0 false [(0%nat, 50)] {[0%nat]} {[0%nat]}) gw' ga') ∧
  (∃ gw' ga', follows (wheel W2) (mkAgenda 0 false [] ∅ {[0%nat]}) gw' ga').
Proof.
  pose proof (timer_start_stop idle_world (mkTimer 0 (mkTimerOption 100 true) None false)
    Agenda_new (replicate 512 []) (replicate 64 [])) as H.
  cbn zeta. destruct (Start idle_world _) as [W1 t1]. destruct (Stop W1 t1) as [W2 t2].
  destruct H as [H0 H]; [reflexivity|reflexivity|reflexivity|apply follows_new|set_solver
    |unfold is_u32; cbn; lia|].
  cbn in H. rewrite !union_empty_r_L in H. exact (conj H0 H).
Defined.
