(* ===== verification/WireFormat.v ===== *)
(** * Wire formats (cyber/transport/common/identity, message/message_info,
    shm/readable_info)

    The fixed-size records that cross process boundaries: the identity of an
    endpoint, the information sent with every message, and the notification of a
    written block.  Bytes are integers in [0, 256); integers are written as the
    little-endian targets lay them out in memory.  [Hash] is
    [common::Hash] (std::hash of a string), a parameter. *)

From stdpp Require Import base numbers list.
From Stdlib Require Import ZArith Lia.
From S2P Require Import Prelude.

Open Scope Z_scope.

(** ** Integers as bytes *)

Fixpoint le_bytes (n : nat) (z : Z) : list Z :=
  match n with O => [] | S n => z mod 256 :: le_bytes n (z / 256) end.

Fixpoint of_le (l : list Z) : Z :=
  match l with [] => 0 | b :: l => b + 256 * of_le l end.

Definition is_byte (b : Z) : Prop := 0 <= b < 256.

Lemma length_le_bytes n z : length (le_bytes n z) = n.
Proof. revert z. induction n as [|n IH]; intros z; cbn; [done|]. by rewrite IH. Qed.

Lemma of_le_bytes n z : of_le (le_bytes n z) = z mod 256 ^ Z.of_nat n.
Proof.
  revert z. induction n as [|n IH]; intros z.
  - cbn. by rewrite Z.mod_1_r.
  - cbn [le_bytes of_le]. rewrite IH, Nat2Z.inj_succ, Z.pow_succ_r by lia.
    by rewrite Z.rem_mul_r by lia.
Qed.

Lemma le_bytes_of l : Forall is_byte l → le_bytes (length l) (of_le l) = l.
Proof.
  induction 1 as [|b l Hb Hl IH]; [done|]. unfold is_byte in Hb. cbn [length le_bytes of_le].
  f_equal.
  - rewrite Z.mul_comm, Z.mod_add by lia. by apply Z.mod_small.
  - rewrite Z.mul_comm, Z.div_add, Z.div_small by lia. by rewrite Z.add_0_l.
Qed.

Lemma le_bytes_mod n z : le_bytes n (z mod 256 ^ Z.of_nat n) = le_bytes n z.
Proof.
  revert z. induction n as [|n IH]; intros z; [done|]. cbn [le_bytes].
  rewrite Nat2Z.inj_succ, Z.pow_succ_r by lia. f_equal.
  - rewrite Z.rem_mul_r by lia. rewrite Z.mul_comm, Z.mod_add by lia. by rewrite Z.mod_mod by lia.
  - rewrite Z.rem_mul_r by lia. rewrite Z.mul_comm, Z.div_add by lia.
    rewrite (Z.div_small (z mod 256)) by (apply Z.mod_pos_bound; lia). apply IH.
Qed.

Lemma of_le_u64 z : is_u64 z → of_le (le_bytes 8 z) = z.
Proof. intros H. rewrite of_le_bytes. apply Z.mod_small. exact H. Qed.

Lemma of_le_i32 z : is_i32 z → i32 (of_le (le_bytes 4 z)) = z.
Proof.
  intros H. rewrite of_le_bytes. change (256 ^ Z.of_nat 4) with (2 ^ 32).
  unfold i32, is_i32 in *. rewrite Z.add_mod_idemp_l by lia. rewrite Z.mod_small by lia. lia.
Qed.

(** [memcpy] of [n] bytes at offset [off]. *)
Definition read_at (src : list Z) (off n : nat) : list Z := take n (drop off src).
Definition write_at (dst : list Z) (off : nat) (bs : list Z) : list Z :=
  take off dst ++ bs ++ drop (off + length bs) dst.

Lemma read_at_app l1 l2 l3 n off :
  off = length l1 → n = length l2 → read_at (l1 ++ l2 ++ l3) off n = l2.
Proof. intros -> ->. unfold read_at. by rewrite drop_app_length, take_app_length. Qed.

Lemma read_at_head l2 l3 n : n = length l2 → read_at (l2 ++ l3) 0 n = l2.
Proof. apply (read_at_app [] l2 l3 n 0 eq_refl). Qed.

(** ** Identity *)

Definition ID_SIZE : nat := 8.

Record Identity := mkIdentity { data_ : list Z; hash_value_ : Z }.

Section identity.
Context (Hash : list Z → Z).

(** [Identity(need_generate)], [uuid] being the bytes of [uuid_generate]. *)
Definition Identity_new (need_generate : bool) (uuid : list Z) : Identity :=
  if need_generate
  then let d := take ID_SIZE uuid in mkIdentity d (Hash d)
  else mkIdentity (replicate ID_SIZE 0) 0.

Definition Identity_eq (a b : Identity) : bool := bool_decide (data_ a = data_ b).

Definition Update (a : Identity) : Identity := mkIdentity (data_ a) (Hash (data_ a)).

(** [set_data(data)] for a non-null pointer to at least [ID_SIZE] bytes. *)
Definition set_data (a : Identity) (d : list Z) : Identity :=
  Update (mkIdentity (take ID_SIZE d) (hash_value_ a)).
End identity.

(** ** ReadableInfo *)

Record ReadableInfo := mkReadableInfo {
  host_id_ : Z;             (* uint64_t *)
  block_index_ : Z;         (* int32_t *)
  arena_block_index_ : Z;   (* int32_t *)
  channel_id_ : Z           (* uint64_t *)
}.

Definition ReadableInfo_kSize : Z := 8 * 2 + 4 + 4.

Definition ReadableInfo_default : ReadableInfo := mkReadableInfo 0 0 (-1) 0.

Definition ReadableInfo_new (host_id block_index channel_id arena_block_index : Z)
  : ReadableInfo :=
  mkReadableInfo host_id block_index arena_block_index channel_id.

Definition ReadableInfo_SerializeTo (i : ReadableInfo) : list Z :=
  le_bytes 8 (host_id_ i) ++ le_bytes 4 (block_index_ i) ++
  le_bytes 8 (channel_id_ i) ++ le_bytes 4 (arena_block_index_ i).

Definition ReadableInfo_DeserializeFrom (i : ReadableInfo) (src : list Z)
  : ReadableInfo * bool :=
  if negb (Z.of_nat (length src) =? ReadableInfo_kSize) then (i, false)
  else
    (mkReadableInfo (of_le (read_at src 0 8)) (i32 (of_le (read_at src 8 4)))
       (i32 (of_le (read_at src 20 4))) (of_le (read_at src 12 8)), true).

(** ** MessageInfo *)

Record MessageInfo := mkMessageInfo {
  sender_id_ : Identity;
  msg_channel_id_ : Z;    (* channel_id_, uint64_t *)
  seq_num_ : Z;           (* uint64_t *)
  spare_id_ : Identity;
  send_time_ : Z          (* uint64_t *)
}.

Definition MessageInfo_kSize : Z := 2 * 8 + 8 + 8 + 4 + 8.

Section message_info.
Context (Hash : list Z → Z).

(** The constructors leave [send_time_] as the memory had it ([garbage]). *)
Definition MessageInfo_new (garbage : Z) (sender_id : Identity) (seq_num : Z)
    (spare_id : Identity) : MessageInfo :=
  mkMessageInfo sender_id 0 seq_num spare_id garbage.

Definition MessageInfo_copy (garbage : Z) (another : MessageInfo) : MessageInfo :=
  mkMessageInfo (sender_id_ another) (msg_channel_id_ another) (seq_num_ another)
    (spare_id_ another) garbage.

Definition MessageInfo_assign (this another : MessageInfo) : MessageInfo :=
  mkMessageInfo (sender_id_ another) (msg_channel_id_ another) (seq_num_ another)
    (spare_id_ another) (send_time_ this).

Definition MessageInfo_eq (a b : MessageInfo) : bool :=
  Identity_eq (sender_id_ a) (sender_id_ b) &&
  (msg_channel_id_ a =? msg_channel_id_ b) && (seq_num_ a =? seq_num_ b) &&
  Identity_eq (spare_id_ a) (spare_id_ b).

(** [SerializeTo(std::string)]. *)
Definition SerializeTo_string (m : MessageInfo) : list Z :=
  take ID_SIZE (data_ (sender_id_ m)) ++ le_bytes 8 (msg_channel_id_ m) ++
  le_bytes 8 (seq_num_ m) ++ take ID_SIZE (data_ (spare_id_ m)) ++
  le_bytes 8 (send_time_ m).

(** [SerializeTo(char* dst, len)]: [None] is the refusal, [dst] the bytes from
    the pointer on. *)
Definition SerializeTo_buffer (m : MessageInfo) (dst : list Z) (len : Z)
  : option (list Z) :=
  if len <? MessageInfo_kSize then None
  else
    let dst := write_at dst 0 (take ID_SIZE (data_ (sender_id_ m))) in
    let dst := write_at dst 8 (le_bytes 8 (msg_channel_id_ m)) in
    let dst := write_at dst 16 (le_bytes 8 (seq_num_ m)) in
    let dst := write_at dst 24 (take ID_SIZE (data_ (spare_id_ m))) in
    Some (write_at dst 32 (le_bytes 8 (send_time_ m))).

(** [DeserializeFrom(const char* src, len)] for a non-null pointer. *)
Definition DeserializeFrom_buffer (m : MessageInfo) (src : list Z) (len : Z)
  : MessageInfo * bool :=
  if negb (len =? MessageInfo_kSize) then (m, false)
  else
    (mkMessageInfo (set_data Hash (sender_id_ m) (read_at src 0 8))
       (of_le (read_at src 8 8)) (of_le (read_at src 16 8))
       (set_data Hash (spare_id_ m) (read_at src 24 8))
       (of_le (read_at src 32 8)), true).

(** [DeserializeFrom(const std::string& src)]. *)
Definition DeserializeFrom_string (m : MessageInfo) (src : list Z) : MessageInfo * bool :=
  DeserializeFrom_buffer m src (Z.of_nat (length src)).

(** An identity as the program makes them: eight bytes and their hash. *)
Definition id_wf (a : Identity) : Prop :=
  length (data_ a) = ID_SIZE ∧ hash_value_ a = Hash (data_ a).

Definition info_wf (m : MessageInfo) : Prop :=
  id_wf (sender_id_ m) ∧ id_wf (spare_id_ m) ∧
  is_u64 (msg_channel_id_ m) ∧ is_u64 (seq_num_ m) ∧ is_u64 (send_time_ m).

Lemma set_data_wf a d : length d = ID_SIZE → set_data Hash a d = mkIdentity d (Hash d).
Proof. intros Hd. unfold set_data, Update. cbn [data_]. by rewrite firstn_all2 by lia. Qed.

Lemma id_wf_eta a : id_wf a → mkIdentity (data_ a) (Hash (data_ a)) = a.
Proof. intros [_ H]. destruct a as [d h]. cbn in *. by rewrite H. Qed.

Lemma write_at_app l1 l2 l3 bs :
  length bs = length l2 → write_at (l1 ++ l2 ++ l3) (length l1) bs = l1 ++ bs ++ l3.
Proof.
  intros Hl. unfold write_at. rewrite take_app_length, drop_app_add, Hl.
  by rewrite drop_app_length.
Qed.

(** Writing [m] into a buffer replaces its first forty bytes. *)
Lemma SerializeTo_buffer_bytes m dst len :
  info_wf m → MessageInfo_kSize <= len → (40 <= length dst)%nat →
  SerializeTo_buffer m dst len = Some (SerializeTo_string m ++ drop 40 dst).
Proof.
  intros ([Hs _] & [Hp _] & _) Hlen Hd. unfold SerializeTo_buffer, SerializeTo_string.
  rewrite (proj2 (Z.ltb_ge _ _) Hlen), !firstn_all2 by (rewrite ?Hs, ?Hp; done).
  f_equal. unfold write_at. rewrite !length_le_bytes, Hs, Hp. unfold ID_SIZE in *.
  do 40 (destruct dst as [|? dst]; [cbn in Hd; lia|]).
  destruct (data_ (sender_id_ m)) as [|? [|? [|? [|? [|? [|? [|? [|? []]]]]]]]]; try done.
  destruct (data_ (spare_id_ m)) as [|? [|? [|? [|? [|? [|? [|? [|? []]]]]]]]]; try done.
Qed.

Lemma DeserializeFrom_bytes m m0 rest :
  info_wf m → DeserializeFrom_buffer m0 (SerializeTo_string m ++ rest) MessageInfo_kSize = (m, true).
Proof.
  intros (Hs & Hp & Hc & Hn & Ht). pose proof Hs as [Hls _]. pose proof Hp as [Hlp _].
  unfold DeserializeFrom_buffer, SerializeTo_string. cbn [negb Z.eqb].
  rewrite Z.eqb_refl. cbn [negb]. rewrite !firstn_all2 by (rewrite ?Hls, ?Hlp; done).
  rewrite <- !app_assoc.
  set (a := data_ (sender_id_ m)) in *. set (b := data_ (spare_id_ m)) in *. unfold ID_SIZE in *.
  assert (∀ z, length (le_bytes 8 z) = 8%nat) as L by (intros; apply length_le_bytes).
  rewrite (read_at_head a) by (rewrite ?Hls; done).
  rewrite (read_at_app a (le_bytes 8 (msg_channel_id_ m))) by (rewrite ?L, ?Hls; done).
  rewrite (app_assoc a), (read_at_app (a ++ _) (le_bytes 8 (seq_num_ m)))
    by (rewrite ?length_app, ?L, ?Hls; done).
  rewrite (app_assoc (a ++ _)), (read_at_app ((a ++ _) ++ _) b)
    by (rewrite ?length_app, ?L, ?Hls, ?Hlp; done).
  rewrite (app_assoc ((a ++ _) ++ _)), (read_at_app (((a ++ _) ++ _) ++ _) (le_bytes 8 (send_time_ m)))
    by (rewrite ?length_app, ?L, ?Hls, ?Hlp; done).
  rewrite !set_data_wf, !of_le_u64 by done. subst a b. rewrite !id_wf_eta by done.
  by destruct m.
Qed.

(** A message's information survives shared memory: written with
    [SerializeTo(char *, len)] into a buffer of at least [kSize] bytes and read
    with [DeserializeFrom(char *, kSize)], every field comes back, the hash of
    both identities included, and no byte past the fortieth is touched. *)
Theorem message_info_roundtrip m m0 dst len :
  info_wf m → MessageInfo_kSize <= len → len <= Z.of_nat (length dst) →
  ∃ dst', SerializeTo_buffer m dst len = Some dst' ∧
    length dst' = length dst ∧ drop 40 dst' = drop 40 dst ∧
    DeserializeFrom_buffer m0 dst' MessageInfo_kSize = (m, true).
Proof.
  intros Hm Hlen Hd. unfold MessageInfo_kSize in *.
  assert (length (SerializeTo_string m) = 40%nat) as H40.
  { destruct Hm as ([Hls _] & [Hlp _] & _). unfold SerializeTo_string, ID_SIZE in *.
    by rewrite !length_app, !length_take, !length_le_bytes, Hls, Hlp. }
  exists (SerializeTo_string m ++ drop 40 dst).
  split; [apply SerializeTo_buffer_bytes; [done..|lia]|].
  split; [rewrite length_app, length_drop; lia|].
  split; [by rewrite drop_app_length'|]. by apply DeserializeFrom_bytes.
Qed.

(** The string form is never read back: [SerializeTo(std::string)] writes
    forty bytes, [kSize] counts forty-four, and [DeserializeFrom] refuses every
    string it produces and changes nothing; the buffer form refuses a buffer of
    that length too. *)
Theorem message_info_string_refused m m0 dst :
  id_wf (sender_id_ m) → id_wf (spare_id_ m) →
  Z.of_nat (length (SerializeTo_string m)) = MessageInfo_kSize - 4 ∧
  DeserializeFrom_string m0 (SerializeTo_string m) = (m0, false) ∧
  SerializeTo_buffer m dst (Z.of_nat (length (SerializeTo_string m))) = None.
Proof.
  intros [Hs _] [Hp _].
  assert (length (SerializeTo_string m) = 40%nat) as H40.
  { unfold SerializeTo_string, ID_SIZE in *.
    by rewrite !length_app, !length_take, !length_le_bytes, Hs, Hp. }
  unfold DeserializeFrom_string, DeserializeFrom_buffer, SerializeTo_buffer. by rewrite H40.
Qed.
End message_info.

Definition info_ok (i : ReadableInfo) : Prop :=
  is_u64 (host_id_ i) ∧ is_i32 (block_index_ i) ∧
  is_i32 (arena_block_index_ i) ∧ is_u64 (channel_id_ i).

(** The notification of a written block: what [SerializeTo] writes is
    [kSize] bytes long, fits the receiver's 32-byte buffer, and
    [DeserializeFrom] reads back every field; a string of any other length is
    refused and leaves the object as it was. *)
Theorem readable_info_roundtrip i i0 src :
  info_ok i →
  Z.of_nat (length (ReadableInfo_SerializeTo i)) = ReadableInfo_kSize ∧
  ReadableInfo_DeserializeFrom i0 (ReadableInfo_SerializeTo i) = (i, true) ∧
  (Z.of_nat (length src) ≠ ReadableInfo_kSize →
    ReadableInfo_DeserializeFrom i0 src = (i0, false)).
Proof.
  intros (Hh & Hb & Ha & Hc).
  assert (length (ReadableInfo_SerializeTo i) = 24%nat) as Hl
    by (unfold ReadableInfo_SerializeTo; by rewrite !length_app, !length_le_bytes).
  split; [by rewrite Hl|]. split.
  - unfold ReadableInfo_DeserializeFrom. rewrite Hl. cbn [negb Z.eqb Z.of_nat].
    change (Z.of_nat 24 =? ReadableInfo_kSize) with true. cbn [negb].
    unfold ReadableInfo_SerializeTo.
    set (h := le_bytes 8 (host_id_ i)). set (b := le_bytes 4 (block_index_ i)).
    set (c := le_bytes 8 (channel_id_ i)). set (a := le_bytes 4 (arena_block_index_ i)).
    assert (length h = 8%nat ∧ length b = 4%nat ∧ length c = 8%nat ∧ length a = 4%nat)
      as (Lh & Lb & Lc & La) by (subst h b c a; by rewrite !length_le_bytes).
    rewrite (read_at_head h) by (rewrite ?Lh; done).
    rewrite (read_at_app h b) by (rewrite ?Lh, ?Lb; done).
    rewrite (app_assoc h b), (read_at_app (h ++ b) c a 8 12) by (rewrite ?length_app, ?Lh, ?Lb, ?Lc; done).
    rewrite (app_assoc (h ++ b) c).
    replace (read_at (((h ++ b) ++ c) ++ a) 20 4) with a
      by (symmetry; rewrite <- (app_nil_r a) at 1; apply (read_at_app _ a []);
          rewrite ?length_app, ?Lh, ?Lb, ?Lc, ?La; done).
    subst h b c a. rewrite !of_le_u64, !of_le_i32 by done. by destruct i.
  - intros Hne. unfold ReadableInfo_DeserializeFrom.
    by rewrite (proj2 (Z.eqb_neq _ _) Hne).
Qed.

(** ** Witnesses *)

(** A hash for the witnesses: the sum of the bytes. *)
Definition sum_hash (l : list Z) : Z := foldr Z.add 0 l.

Definition sample_info : MessageInfo :=
  let d := [1; 2; 3; 4; 5; 6; 7; 8] in
  mkMessageInfo (mkIdentity d 36) 258 7 (mkIdentity d 36) 1000.

Lemma sample_info_wf : info_wf sum_hash sample_info.
Proof. unfold info_wf, id_wf, is_u64; cbn; repeat split; lia. Qed.

Lemma message_info_roundtrip_witness :
  ∃ dst', SerializeTo_buffer sample_info (replicate 44 9) 44 = Some dst' ∧
    length dst' = 44%nat ∧ drop 40 dst' = [9; 9; 9; 9] ∧
    DeserializeFrom_buffer sum_hash sample_info dst' MessageInfo_kSize = (sample_info, true).
Proof.
  apply (message_info_roundtrip sum_hash sample_info sample_info (replicate 44 9) 44);
    [apply sample_info_wf|unfold MessageInfo_kSize; lia|cbn; lia].
Defined.

Lemma message_info_string_refused_witness :
  DeserializeFrom_string sum_hash sample_info (SerializeTo_string sample_info) = (sample_info, false).
Proof.
  apply (message_info_string_refused sum_hash sample_info sample_info []); apply sample_info_wf.
Defined.

Lemma readable_info_roundtrip_witness :
  ReadableInfo_DeserializeFrom ReadableInfo_default
    (ReadableInfo_SerializeTo (mkReadableInfo 12 3 (-1) 99)) = (mkReadableInfo 12 3 (-1) 99, true).
Proof.
  apply (readable_info_roundtrip (mkReadableInfo 12 3 (-1) 99) ReadableInfo_default []).
  unfold info_ok, is_u64, is_i32; cbn; lia.
Defined.
