(* ===== verification/ShmBlock.v ===== *)
(** * Block (cyber/transport/shm/block.h, block.cc)

    The header of one message slot of a shared-memory segment: a try-lock whose
    [lock_num_] counts the readers or is [kWriteExclusive], and the sizes of the
    message stored.  The processes sharing the segment are the threads here; a
    try-lock that fails returns to [Idle].  One program counter is one atomic
    access. *)

From stdpp Require Import base numbers list.
From Stdlib Require Import ZArith Lia.
From S2P Require Import Prelude Interleave.

Open Scope Z_scope.

Definition kRWLockFree : Z := 0.
Definition kWriteExclusive : Z := -1.
Definition kMaxTryLockTimes : Z := 5.

Record Block := mkBlock {
  lock_num_ : Z;        (* int32_t *)
  msg_size_ : Z;        (* uint64_t *)
  msg_info_size_ : Z    (* uint64_t *)
}.

Definition Block_new : Block := mkBlock 0 0 0.
Definition set_lock_num (b : Block) (v : Z) : Block :=
  mkBlock v (msg_size_ b) (msg_info_size_ b).
Definition set_msg_size (b : Block) (v : Z) : Block :=
  mkBlock (lock_num_ b) v (msg_info_size_ b).
Definition set_msg_info_size (b : Block) (v : Z) : Block :=
  mkBlock (lock_num_ b) (msg_size_ b) v.

Inductive pc :=
| Idle
| TryWrite                              (* the compare-exchange of TryLockForWrite *)
| TryReadLoad (try_times : Z)           (* [lock_num_.load] and its check *)
| TryReadCas (lock_num try_times : Z)   (* compare-exchange *)
| WriteHeld
| ReadHeld.

Inductive choice := WantWrite | WantRead | Spurious | Regular.

Definition is_spurious (ch : choice) : bool :=
  match ch with Spurious => true | _ => false end.

(** [TryLockForWrite()]: one weak compare-exchange. *)
Definition TryLockForWrite (spurious : bool) (b : Block) : Block * bool :=
  if negb spurious && (lock_num_ b =? kRWLockFree)
  then (set_lock_num b kWriteExclusive, true)
  else (b, false).

(** [TryLockForRead()], access by access. *)
Definition TryLockForRead_step (spurious : bool) (b : Block) (p : pc)
  : option (Block * pc) :=
  match p with
  | TryReadLoad n =>
      if lock_num_ b <? kRWLockFree then Some (b, Idle)
      else Some (b, TryReadCas (lock_num_ b) n)
  | TryReadCas v n =>
      if negb spurious && (lock_num_ b =? v)
      then Some (set_lock_num b (i32 (v + 1)), ReadHeld)
      else
        let n := n + 1 in
        if n =? kMaxTryLockTimes then Some (b, Idle) else Some (b, TryReadLoad n)
  | _ => None
  end.

Definition ReleaseWriteLock (b : Block) : Block := set_lock_num b (i32 (lock_num_ b + 1)).
Definition ReleaseReadLock (b : Block) : Block := set_lock_num b (i32 (lock_num_ b - 1)).

Definition block_step (ch : choice) (t : nat) (b : Block) (p : pc) : option (Block * pc) :=
  match p with
  | Idle =>
      match ch with
      | WantWrite => Some (b, TryWrite)
      | WantRead => Some (b, TryReadLoad 0)
      | _ => None
      end
  | TryWrite =>
      let '(b', ok) := TryLockForWrite (is_spurious ch) b in
      Some (b', if ok then WriteHeld else Idle)
  | TryReadLoad _ | TryReadCas _ _ => TryLockForRead_step (is_spurious ch) b p
  | WriteHeld => Some (ReleaseWriteLock b, Idle)
  | ReadHeld => Some (ReleaseReadLock b, Idle)
  end.

(** ** Mutual exclusion *)

Definition reading (p : pc) : Z := match p with ReadHeld => 1 | _ => 0 end.
Definition writing (p : pc) : Z := match p with WriteHeld => 1 | _ => 0 end.

Lemma block_reading_nonneg p : 0 <= reading p. Proof. by destruct p. Qed.
Lemma block_writing_nonneg p : 0 <= writing p. Proof. by destruct p. Qed.

Definition pc_ok (p : pc) : Prop :=
  match p with
  | TryReadLoad n => 0 <= n < kMaxTryLockTimes
  | TryReadCas v n => 0 <= v ∧ 0 <= n < kMaxTryLockTimes
  | _ => True
  end.

Record block_inv (c : Block * list pc) : Prop := {
  bi_writers : 0 <= tally writing c.2 <= 1;
  bi_excl : tally writing c.2 = 1 → tally reading c.2 = 0;
  bi_num : lock_num_ c.1 = tally reading c.2 - tally writing c.2;
  bi_bound : Z.of_nat (length c.2) < 2 ^ 31 - 1;
  bi_pcs : ∀ i p, c.2 !! i = Some p → pc_ok p
}.

Lemma block_inv_update b ps t p b' p' :
  block_inv (b, ps) → ps !! t = Some p → pc_ok p' →
  0 <= tally writing ps - writing p + writing p' <= 1 →
  (tally writing ps - writing p + writing p' = 1 →
    tally reading ps - reading p + reading p' = 0) →
  lock_num_ b' = tally reading ps - reading p + reading p'
    - (tally writing ps - writing p + writing p') →
  block_inv (b', <[t := p']> ps).
Proof.
  intros [] Ht Hok Hw He Hn. split; cbn in *;
    rewrite ?(tally_insert _ ps t p p' Ht), ?length_insert; auto.
  intros i p0 Hi. apply list_lookup_insert_Some in Hi as [(_ & -> & _)|[_ Hi]]; eauto.
Qed.

Lemma block_inv_step c t ch p b' p' :
  block_inv c → c.2 !! t = Some p → block_step ch t c.1 p = Some (b', p') →
  block_inv (b', <[t := p']> c.2).
Proof.
  destruct c as [b ps]. cbn [fst snd]. intros Hinv Ht Hs.
  pose proof Hinv as []. cbn in bi_writers0, bi_excl0, bi_num0, bi_bound0, bi_pcs0.
  pose proof (tally_elem reading block_reading_nonneg ps t p Ht) as Hr.
  pose proof (tally_elem writing block_writing_nonneg ps t p Ht) as Hw.
  pose proof (tally_le reading ps ltac:(by intros [])) as Hr1.
  pose proof (bi_pcs0 t p Ht) as Hpc. unfold kMaxTryLockTimes, kRWLockFree, kWriteExclusive in *.
  destruct p; cbn in Hs, Hr, Hw, Hpc.
  - destruct ch; simplify_eq; eapply block_inv_update; eauto; cbn; unfold kMaxTryLockTimes; lia.
  - unfold TryLockForWrite, kRWLockFree, kWriteExclusive in Hs.
    destruct (_ && _) eqn:E in Hs; simplify_eq; zbool;
      eapply block_inv_update; eauto; cbn; lia.
  - destruct (_ <? _) eqn:E in Hs; simplify_eq; zbool; unfold kRWLockFree, kMaxTryLockTimes in *;
      eapply block_inv_update; eauto; cbn; unfold kMaxTryLockTimes in *; try done; lia.
  - destruct (_ && _) eqn:E in Hs; simplify_eq; zbool.
    + eapply block_inv_update; eauto; cbn; try lia.
      rewrite i32_small by (unfold is_i32; lia). lia.
    + destruct (_ =? _) eqn:E' in Hs; simplify_eq; zbool; eapply block_inv_update; eauto; cbn;
        unfold kMaxTryLockTimes in *; try done; lia.
  - simplify_eq. eapply block_inv_update; eauto; cbn; try lia.
    rewrite i32_small by (unfold is_i32; lia). lia.
  - simplify_eq. eapply block_inv_update; eauto; cbn; try lia.
    rewrite i32_small by (unfold is_i32; lia). lia.
Qed.

Lemma block_inv_init n :
  Z.of_nat n < 2 ^ 31 - 1 → block_inv (Block_new, replicate n Idle).
Proof.
  intros Hn. split; cbn; rewrite ?tally_replicate, ?length_replicate; cbn; try lia.
  intros i p [-> _]%lookup_replicate. done.
Qed.

Lemma reach_block_inv n k c :
  Z.of_nat n < 2 ^ 31 - 1 →
  reach block_step (Block_new, replicate n Idle) k c → block_inv c.
Proof.
  intros Hn Hr.
  apply (reach_invariant block_step k (λ _, block_inv) _ k c (block_inv_init n Hn)); [|done|lia].
  intros. by eapply block_inv_step.
Qed.

(** [C31] A block is never read while it is written and has at most one writer,
    in every interleaving of the accesses of the processes sharing it; and
    [lock_num_] is [kWriteExclusive] under a writer and the number of readers
    otherwise, so a block that nobody holds can be locked again. *)
Theorem block_mutual_exclusion n k b ps :
  Z.of_nat n < 2 ^ 31 - 1 →
  reach block_step (Block_new, replicate n Idle) k (b, ps) →
  (∀ i j p, ps !! i = Some WriteHeld → ps !! j = Some p → i ≠ j →
     p ≠ WriteHeld ∧ p ≠ ReadHeld) ∧
  lock_num_ b = (if tally writing ps =? 1 then kWriteExclusive else tally reading ps).
Proof.
  intros Hn Hr. pose proof (reach_block_inv _ _ _ Hn Hr) as []. cbn in *. split.
  - intros i j p Hi Hj Hne.
    pose proof (tally_two writing block_writing_nonneg ps i j _ p Hne Hi Hj) as Hw.
    pose proof (tally_elem reading block_reading_nonneg ps j p Hj) as Hrd.
    cbn in Hw. pose proof (block_writing_nonneg p).
    assert (tally writing ps = 1) as H1 by lia. specialize (bi_excl0 H1).
    split; intros ->; cbn in *; lia.
  - unfold kWriteExclusive. destruct (_ =? _) eqn:E; zbool; lia.
Qed.

(** ** Wait-freedom of the try-locks *)

(** Accesses a thread may still need before its try-lock returns. *)
Definition fuel_left (p : pc) : Z :=
  match p with
  | TryWrite => 1
  | TryReadLoad n => 2 * (kMaxTryLockTimes - n)
  | TryReadCas _ n => 2 * (kMaxTryLockTimes - n) - 1
  | _ => 0
  end.

Definition trying (p : pc) : bool :=
  match p with TryWrite | TryReadLoad _ | TryReadCas _ _ => true | _ => false end.

(** A thread's own accesses, the block in an arbitrary state before each. *)
Fixpoint own_accesses (l : list (Block * choice)) (t : nat) (p : pc) : option pc :=
  match l with
  | [] => Some p
  | (b, ch) :: l =>
      if trying p then '(_, p') ← block_step ch t b p; own_accesses l t p' else Some p
  end.

Lemma try_step_decreases ch t b p :
  pc_ok p → trying p = true →
  ∃ b' p', block_step ch t b p = Some (b', p') ∧ pc_ok p' ∧
    fuel_left p' < fuel_left p ∧ (trying p' = true → 0 < fuel_left p').
Proof.
  destruct p; cbn; try done; intros Hok _; unfold TryLockForWrite, kRWLockFree, kMaxTryLockTimes in *.
  - destruct (_ && _); eexists _, _; (split; [reflexivity|]); cbn; repeat split; try done; lia.
  - destruct (_ <? _) eqn:E; zbool; eexists _, _; (split; [reflexivity|]); cbn;
      unfold kMaxTryLockTimes; repeat split; try done; lia.
  - destruct (_ && _) eqn:E; [|destruct (try_times + 1 =? 5) eqn:E']; zbool; eexists _, _;
      (split; [reflexivity|]); cbn; unfold kMaxTryLockTimes; repeat split; try done; lia.
Qed.

Lemma own_accesses_returns l t p :
  pc_ok p → (trying p = true → 0 < fuel_left p) → fuel_left p <= Z.of_nat (length l) →
  ∃ p', own_accesses l t p = Some p' ∧ trying p' = false.
Proof.
  revert p. induction l as [|[b ch] l IH]; intros p Hok Hpos Hlen; cbn [own_accesses].
  - exists p. split; [done|]. destruct (trying p); [|done]. specialize (Hpos eq_refl). cbn in *. lia.
  - destruct (trying p) eqn:Et; [|eauto].
    destruct (try_step_decreases ch t b p Hok Et) as (b' & p' & -> & Hok' & Hlt & Hpos').
    cbn. apply IH; [done|done|]. cbn in Hlen. lia.
Qed.

(** The try-locks are wait-free: whatever the other processes do to the
    block in between, [TryLockForWrite] returns after one access and
    [TryLockForRead] after at most ten, so a reader or writer that meets a locked
    block is refused and never blocked. *)
Theorem block_try_lock_wait_free l t :
  (length l = 10)%nat →
  (∃ p, own_accesses l t (TryReadLoad 0) = Some p ∧ (p = ReadHeld ∨ p = Idle)) ∧
  (∃ p, own_accesses (take 1 l) t TryWrite = Some p ∧ (p = WriteHeld ∨ p = Idle)).
Proof.
  intros Hl.
  assert (Hread : ∀ l p p', (match p with TryReadLoad _ | TryReadCas _ _ | ReadHeld | Idle => True | _ => False end) →
    own_accesses l t p = Some p' → trying p' = false → p' = ReadHeld ∨ p' = Idle).
  { clear. induction l as [|[b ch] l IH]; intros p p' Hp; cbn.
    - intros [= <-]. destruct p; try done; auto.
    - destruct p; cbn; try done; try (intros [= <-]; auto);
        repeat destruct_match; cbn; apply IH; done. }
  split.
  - destruct (own_accesses_returns l t (TryReadLoad 0)) as (p & Hp & Ht).
    + cbn. unfold kMaxTryLockTimes. lia.
    + done.
    + rewrite Hl. done.
    + exists p. split; [done|]. by apply (Hread l (TryReadLoad 0)).
  - destruct l as [|[b ch] l]; [done|]. cbn. unfold TryLockForWrite.
    destruct (_ && _); cbn; eauto.
Qed.

Lemma block_mutual_exclusion_witness :
  ∃ b ps, reach block_step (Block_new, replicate 2 Idle) 4 (b, ps) ∧
    ps = [WriteHeld; Idle] ∧
    (∀ i j p, ps !! i = Some WriteHeld → ps !! j = Some p → i ≠ j →
     p ≠ WriteHeld ∧ p ≠ ReadHeld).
Proof.
  assert (∃ b ps, run_schedule block_step
    [(0, WantWrite); (0, Regular); (1, WantRead); (1, Regular)]%nat
    (Block_new, replicate 2 Idle) = Some (b, ps) ∧ ps = [WriteHeld; Idle]) as (b & ps & Hr & Hps)
    by (eexists _, _; split; [vm_compute; reflexivity|reflexivity]).
  pose proof (run_schedule_reach block_step _ 0 _ _ _ (reach_refl _ _) Hr) as Hreach.
  exists b, ps. split; [exact Hreach|]. split; [exact Hps|].
  apply (block_mutual_exclusion 2 4 b ps); [reflexivity|exact Hreach].
Defined.

Lemma block_try_lock_wait_free_witness :
  ∃ p, own_accesses (replicate 10 (mkBlock 3 0 0, Spurious)) 0 (TryReadLoad 0) = Some p ∧
    (p = ReadHeld ∨ p = Idle).
Proof.
  exact (proj1 (block_try_lock_wait_free (replicate 10 (mkBlock 3 0 0, Spurious)) 0 eq_refl)).
Defined.
