(* ===== verification/ShmConf.v ===== *)
(** * ShmConf (cyber/transport/shm/shm_conf.h, shm_conf.cc)

    The size class of a shared-memory segment, and the layout the segments
    derive from it: the state, the blocks, the arena blocks, the block buffers
    and the arena buffers, one after the other.  The sizes of the C++ objects
    [State] and [Block] depend on the platform and are arguments. *)

From stdpp Require Import base numbers list sets.
From Stdlib Require Import ZArith Lia.
From S2P Require Import Prelude.

Open Scope Z_scope.

Definition EXTRA_SIZE : Z := 1024 * 4.
Definition STATE_SIZE : Z := 1024.
Definition BLOCK_SIZE : Z := 1024.
Definition MESSAGE_INFO_SIZE : Z := 1024.
Definition ARENA_BLOCK_NUM : Z := 512.
Definition ARENA_MESSAGE_SIZE : Z := 1024.
Definition BLOCK_NUM_16K : Z := 512.
Definition MESSAGE_SIZE_16K : Z := 1024 * 16.
Definition BLOCK_NUM_128K : Z := 128.
Definition MESSAGE_SIZE_128K : Z := 1024 * 128.
Definition BLOCK_NUM_1M : Z := 64.
Definition MESSAGE_SIZE_1M : Z := 1024 * 1024.
Definition BLOCK_NUM_8M : Z := 32.
Definition MESSAGE_SIZE_8M : Z := 1024 * 1024 * 8.
Definition BLOCK_NUM_16M : Z := 16.
Definition MESSAGE_SIZE_16M : Z := 1024 * 1024 * 16.
Definition BLOCK_NUM_MORE : Z := 8.
Definition MESSAGE_SIZE_MORE : Z := 1024 * 1024 * 32.

Record ShmConf := mkShmConf {
  ceiling_msg_size_ : Z;
  block_buf_size_ : Z;
  block_num_ : Z;
  managed_shm_size_ : Z
}.

Definition GetCeilingMessageSize (real_msg_size : Z) : Z :=
  if real_msg_size <=? MESSAGE_SIZE_16K then MESSAGE_SIZE_16K
  else if real_msg_size <=? MESSAGE_SIZE_128K then MESSAGE_SIZE_128K
  else if real_msg_size <=? MESSAGE_SIZE_1M then MESSAGE_SIZE_1M
  else if real_msg_size <=? MESSAGE_SIZE_8M then MESSAGE_SIZE_8M
  else if real_msg_size <=? MESSAGE_SIZE_16M then MESSAGE_SIZE_16M
  else MESSAGE_SIZE_MORE.

Definition GetBlockBufSize (ceiling_msg_size : Z) : Z :=
  u64 (ceiling_msg_size + MESSAGE_INFO_SIZE).

Definition GetBlockNum (ceiling_msg_size : Z) : Z :=
  if ceiling_msg_size =? MESSAGE_SIZE_16K then BLOCK_NUM_16K
  else if ceiling_msg_size =? MESSAGE_SIZE_128K then BLOCK_NUM_128K
  else if ceiling_msg_size =? MESSAGE_SIZE_1M then BLOCK_NUM_1M
  else if ceiling_msg_size =? MESSAGE_SIZE_8M then BLOCK_NUM_8M
  else if ceiling_msg_size =? MESSAGE_SIZE_16M then BLOCK_NUM_16M
  else if ceiling_msg_size =? MESSAGE_SIZE_MORE then BLOCK_NUM_MORE
  else 0.

(** [Update(real_msg_size)] sets every field. *)
Definition Update (real_msg_size : Z) : ShmConf :=
  let ceiling := GetCeilingMessageSize real_msg_size in
  let buf := GetBlockBufSize ceiling in
  let num := GetBlockNum ceiling in
  mkShmConf ceiling buf num
    (u64 (EXTRA_SIZE + STATE_SIZE + (BLOCK_SIZE + buf) * num
          + (BLOCK_SIZE + ARENA_MESSAGE_SIZE) * ARENA_BLOCK_NUM)).

Definition ShmConf_default : ShmConf := Update MESSAGE_SIZE_16K.

(** ** Size classes *)

(** The six size classes, as [Update] leaves them. *)
Definition size_classes : list ShmConf :=
  map Update [MESSAGE_SIZE_16K; MESSAGE_SIZE_128K; MESSAGE_SIZE_1M; MESSAGE_SIZE_8M;
              MESSAGE_SIZE_16M; MESSAGE_SIZE_MORE].

Lemma Update_class real_msg_size : Update real_msg_size ∈ size_classes.
Proof.
  unfold Update, GetCeilingMessageSize.
  repeat (destruct (real_msg_size <=? _); [unfold size_classes; cbn; set_solver|]).
  unfold size_classes. cbn. set_solver.
Qed.

Lemma size_classes_Forall (P : ShmConf → Prop) c :
  Forall P size_classes → c ∈ size_classes → P c.
Proof. rewrite Forall_forall. auto. Qed.

(** Updating with a class's own ceiling changes nothing: what a process reads
    from a segment's state is what its creator computed. *)
Lemma Update_ceiling real_msg_size :
  Update (ceiling_msg_size_ (Update real_msg_size)) = Update real_msg_size.
Proof.
  apply (size_classes_Forall (λ c, Update (ceiling_msg_size_ c) = c)); [|apply Update_class].
  unfold size_classes. cbn [map]. repeat constructor.
Qed.

Lemma class_block_num c : c ∈ size_classes → 8 <= block_num_ c <= 512 ∧ 2 ^ 32 mod block_num_ c = 0.
Proof.
  apply (size_classes_Forall (λ c, 8 <= block_num_ c <= 512 ∧ 2 ^ 32 mod block_num_ c = 0)).
  unfold size_classes. cbn [map]. repeat constructor; done.
Qed.

Lemma class_buf_size c :
  c ∈ size_classes → block_buf_size_ c = ceiling_msg_size_ c + MESSAGE_INFO_SIZE.
Proof.
  apply (size_classes_Forall (λ c, block_buf_size_ c = ceiling_msg_size_ c + MESSAGE_INFO_SIZE)).
  unfold size_classes. cbn [map]. repeat constructor.
Qed.

Lemma ceiling_covers real_msg_size :
  real_msg_size <= MESSAGE_SIZE_MORE →
  real_msg_size <= ceiling_msg_size_ (Update real_msg_size).
Proof.
  intros Hm. unfold Update, GetCeilingMessageSize. cbn [ceiling_msg_size_].
  repeat destruct_match; zbool; done.
Qed.

(** ** Layout *)

Section layout.
Context (sizeof_State sizeof_Block : Z).
Implicit Types (c : ShmConf).

Definition blocks_offset : Z := sizeof_State.
Definition arena_blocks_offset (c : ShmConf) : Z := sizeof_State + block_num_ c * sizeof_Block.
Definition block_buf_offset (c : ShmConf) (i : Z) : Z :=
  sizeof_State + block_num_ c * sizeof_Block + ARENA_BLOCK_NUM * sizeof_Block
  + i * block_buf_size_ c.
Definition arena_buf_offset (c : ShmConf) (ai : Z) : Z :=
  sizeof_State + block_num_ c * sizeof_Block + ARENA_BLOCK_NUM * sizeof_Block
  + block_num_ c * block_buf_size_ c + ai * ARENA_MESSAGE_SIZE.

(** The byte ranges the segment hands out, in order. *)
Definition ranges (c : ShmConf) : list (Z * Z) :=
  (0, sizeof_State)
  :: (blocks_offset, arena_blocks_offset c)
  :: (arena_blocks_offset c, arena_blocks_offset c + ARENA_BLOCK_NUM * sizeof_Block)
  :: map (λ i, (block_buf_offset c (Z.of_nat i), block_buf_offset c (Z.of_nat i) + block_buf_size_ c))
       (seq 0 (Z.to_nat (block_num_ c)))
  ++ map (λ i, (arena_buf_offset c (Z.of_nat i), arena_buf_offset c (Z.of_nat i) + ARENA_MESSAGE_SIZE))
       (seq 0 (Z.to_nat ARENA_BLOCK_NUM)).

(** Consecutive ranges from [lo] to [hi]: each starts where the last ended. *)
Fixpoint tiles (lo : Z) (l : list (Z * Z)) (hi : Z) : Prop :=
  match l with
  | [] => lo = hi
  | (a, b) :: l => a = lo ∧ a <= b ∧ tiles b l hi
  end.

Lemma tiles_app lo l1 mid l2 hi : tiles lo l1 mid → tiles mid l2 hi → tiles lo (l1 ++ l2) hi.
Proof.
  revert lo. induction l1 as [|[a b] l1 IH]; intros lo; cbn; [by intros ->|].
  intros (? & ? & ?) ?. auto.
Qed.

Lemma tiles_seq (f : nat → Z) size n k :
  0 <= size → (∀ i, f (S i) = f i + size) →
  tiles (f k) (map (λ i, (f i, f i + size)) (seq k n)) (f (k + n)%nat).
Proof.
  intros Hs Hf. revert k. induction n as [|n IH]; intros k; cbn.
  - by rewrite Nat.add_0_r.
  - split; [done|]. split; [lia|]. rewrite <- Hf. rewrite <- Nat.add_succ_comm. apply IH.
Qed.

Lemma block_buf_offset_S c i :
  block_buf_offset c (Z.of_nat (S i)) = block_buf_offset c (Z.of_nat i) + block_buf_size_ c.
Proof. unfold block_buf_offset. lia. Qed.

Lemma arena_buf_offset_S c i :
  arena_buf_offset c (Z.of_nat (S i)) = arena_buf_offset c (Z.of_nat i) + ARENA_MESSAGE_SIZE.
Proof. unfold arena_buf_offset. lia. Qed.

Context (HS : 0 < sizeof_State <= STATE_SIZE) (HB : 0 < sizeof_Block <= BLOCK_SIZE).

(** The layout of a segment: for every message size, the state, the
    blocks, the arena blocks, the [block_num] message buffers and the 512 arena
    buffers follow each other without gap or overlap and end inside
    [managed_shm_size]; and for a message of at most 32M a buffer holds the
    message and a kilobyte of message information. *)
Theorem shm_layout_tiles real_msg_size :
  let c := Update real_msg_size in
  ∃ hi, tiles 0 (ranges c) hi ∧ hi <= managed_shm_size_ c ∧
    (real_msg_size <= MESSAGE_SIZE_MORE →
      real_msg_size + MESSAGE_INFO_SIZE <= block_buf_size_ c).
Proof using HS HB.
  intros c. exists (arena_buf_offset c ARENA_BLOCK_NUM).
  pose proof (class_block_num c (Update_class real_msg_size)) as [Hnum _].
  unfold STATE_SIZE, BLOCK_SIZE in *. split; [|split].
  - assert (0 <= block_buf_size_ c) by (apply u64_range).
    unfold ranges, blocks_offset. split; [done|]. split; [lia|]. split; [done|].
    split; [unfold arena_blocks_offset; nia|]. split; [done|].
    split; [unfold ARENA_BLOCK_NUM; lia|]. apply tiles_app with (arena_buf_offset c 0).
    + pose proof (tiles_seq (λ i, block_buf_offset c (Z.of_nat i)) (block_buf_size_ c)
        (Z.to_nat (block_num_ c)) 0 ltac:(lia) (block_buf_offset_S c)) as Ht.
      cbn beta in Ht. rewrite Nat.add_0_l, Z2Nat.id in Ht by lia.
      replace (block_buf_offset c (Z.of_nat 0)) with
        (arena_blocks_offset c + ARENA_BLOCK_NUM * sizeof_Block) in Ht
        by (unfold block_buf_offset, arena_blocks_offset; lia).
      replace (arena_buf_offset c 0) with (block_buf_offset c (block_num_ c))
        by (unfold block_buf_offset, arena_buf_offset; lia). done.
    + apply (tiles_seq (λ i, arena_buf_offset c (Z.of_nat i)) ARENA_MESSAGE_SIZE
        (Z.to_nat ARENA_BLOCK_NUM) 0); [done|apply arena_buf_offset_S].
  - assert (managed_shm_size_ c = EXTRA_SIZE + 1024 + (1024 + block_buf_size_ c) * block_num_ c
      + (1024 + ARENA_MESSAGE_SIZE) * ARENA_BLOCK_NUM) as ->.
    { apply (size_classes_Forall (λ c, managed_shm_size_ c =
        EXTRA_SIZE + 1024 + (1024 + block_buf_size_ c) * block_num_ c
        + (1024 + ARENA_MESSAGE_SIZE) * ARENA_BLOCK_NUM)); [|apply Update_class].
      unfold size_classes. cbn [map]. repeat constructor. }
    unfold arena_buf_offset, EXTRA_SIZE, ARENA_MESSAGE_SIZE, ARENA_BLOCK_NUM. nia.
  - intros Hm%ceiling_covers. rewrite class_buf_size by apply Update_class. fold c in Hm. lia.
Qed.
End layout.

(** 32 bytes each on x86-64. *)
Lemma shm_layout_tiles_witness :
  ∃ hi, tiles 0 (ranges 32 32 (Update 100000)) hi ∧ hi <= managed_shm_size_ (Update 100000) ∧
    (100000 <= MESSAGE_SIZE_MORE →
      100000 + MESSAGE_INFO_SIZE <= block_buf_size_ (Update 100000)).
Proof.
  apply (shm_layout_tiles 32 32); unfold STATE_SIZE, BLOCK_SIZE; lia.
Defined.
