(* ===== verification/Segment.v ===== *)
(** * Segment (cyber/transport/shm/state, segment, xsi_segment, posix_segment)

    A channel's shared-memory segment as its processes see it.  [Shm] is what
    they share: which region a name denotes, and the contents of the regions,
    which outlive their name while mapped.  A process's [Segment] holds the
    region it has mapped, with the size class read from the region's state and
    the buffer addresses as offsets into it.

    The virtual methods of the base class are a record [Virtuals]; [Xsi] and
    [Posix] are its two instances.  What the operating system answers is an
    argument ([Kernel]).  [None] is a run that dereferences a null pointer, goes
    out of an array's range, or does not end within its fuel.

    Operations run one at a time here; the interleavings of the block locks are
    in ShmBlock. *)

From stdpp Require Import base numbers list gmap.
From Stdlib Require Import ZArith Lia.
From S2P Require Import Prelude Interleave ShmBlock ShmConf.

Open Scope Z_scope.

(** ** State *)

Record State := mkState {
  need_remap_ : bool;
  seq_ : Z;                 (* uint32_t *)
  arena_seq_ : Z;           (* uint32_t *)
  reference_count_ : Z;     (* uint32_t *)
  state_ceiling_ : Z        (* ceiling_msg_size_, uint64_t *)
}.

Definition State_new (ceiling_msg_size : Z) : State := mkState false 0 0 0 ceiling_msg_size.

Definition DecreaseReferenceCounts (s : State) : State :=
  if reference_count_ s =? 0 then s
  else mkState (need_remap_ s) (seq_ s) (arena_seq_ s) (reference_count_ s - 1) (state_ceiling_ s).
Definition IncreaseReferenceCounts (s : State) : State :=
  mkState (need_remap_ s) (seq_ s) (arena_seq_ s) (u32 (reference_count_ s + 1)) (state_ceiling_ s).
Definition FetchAddSeq (s : State) (diff : Z) : State * Z :=
  (mkState (need_remap_ s) (u32 (seq_ s + diff)) (arena_seq_ s) (reference_count_ s)
     (state_ceiling_ s), seq_ s).
Definition FetchAddArenaSeq (s : State) (diff : Z) : State * Z :=
  (mkState (need_remap_ s) (seq_ s) (u32 (arena_seq_ s + diff)) (reference_count_ s)
     (state_ceiling_ s), arena_seq_ s).
Definition set_need_remap (s : State) (need : bool) : State :=
  mkState need (seq_ s) (arena_seq_ s) (reference_count_ s) (state_ceiling_ s).

(** ** Shared memory *)

Record Region := mkRegion {
  state : State;
  blocks : list Block;
  arena_blocks : list Block
}.

Record Shm := mkShm {
  names : gmap Z nat;        (* by key_ or shm_name_ *)
  regions : gmap nat Region;
  fresh : nat
}.

Definition set_region (m : Shm) (r : nat) (rg : Region) : Shm :=
  mkShm (names m) (<[r := rg]> (regions m)) (fresh m).
Definition set_state (rg : Region) (s : State) : Region :=
  mkRegion s (blocks rg) (arena_blocks rg).
Definition set_blocks (rg : Region) (bs : list Block) : Region :=
  mkRegion (state rg) bs (arena_blocks rg).
Definition set_arena (rg : Region) (bs : list Block) : Region :=
  mkRegion (state rg) (blocks rg) bs.

Record Segment := mkSegment {
  init_ : bool;
  conf_ : ShmConf;
  channel_id_ : Z;
  managed_shm_ : option nat;     (* with [state_], [blocks_], [arena_blocks_] *)
  block_buf_addrs_ : gmap Z Z;
  arena_block_buf_addrs_ : gmap Z Z
}.

Definition Segment_new (channel_id : Z) : Segment :=
  mkSegment false ShmConf_default channel_id None ∅ ∅.

Definition set_init (s : Segment) (b : bool) : Segment :=
  mkSegment b (conf_ s) (channel_id_ s) (managed_shm_ s) (block_buf_addrs_ s)
    (arena_block_buf_addrs_ s).
Definition set_conf (s : Segment) (c : ShmConf) : Segment :=
  mkSegment (init_ s) c (channel_id_ s) (managed_shm_ s) (block_buf_addrs_ s)
    (arena_block_buf_addrs_ s).

(** What a method leaves behind: shared memory, the process's object, its
    answer. *)
Abbreviation Outcome A := (option (Shm * Segment * A)).

(** The answers of the operating system to one call of a method: whether
    creating the region succeeds, is refused with EINVAL or with another error,
    or (POSIX) succeeds and [ftruncate] then fails, for each try; whether mapping
    succeeds. *)
Inductive create_answer := CreateOk | CreateEINVAL | CreateError | CreateTruncateError.
Record Kernel := mkKernel { create_answers : list create_answer; attach_ok : bool }.

Definition kernel_ok : Kernel := mkKernel [CreateOk] true.

Record Virtuals := mkVirtuals {
  Reset : Segment → Segment;
  Remove : Shm → Segment → Shm * bool;
  OpenOnly : Kernel → Shm → Segment → Outcome bool;
  OpenOrCreate : Kernel → Shm → Segment → Outcome bool
}.

Section layout_args.
Context (sizeof_State sizeof_Block : Z).

(** The address loops: block buffers and arena buffers. *)
Definition block_addrs (c : ShmConf) : gmap Z Z :=
  list_to_map (map (λ i, (Z.of_nat i, block_buf_offset sizeof_State sizeof_Block c (Z.of_nat i)))
    (seq 0 (Z.to_nat (block_num_ c)))).
Definition arena_addrs (c : ShmConf) : gmap Z Z :=
  list_to_map (map (λ i, (Z.of_nat i, arena_buf_offset sizeof_State sizeof_Block c (Z.of_nat i)))
    (seq 0 (Z.to_nat ARENA_BLOCK_NUM))).

(** [key_], the channel's id as a key_t, and [shm_name_], its decimal.  (A key of zero,
    IPC_PRIVATE, is not treated apart.) *)
Definition key_ (s : Segment) : Z := i32 (channel_id_ s).
Definition shm_name_ (s : Segment) : Z := channel_id_ s.
#[global] Arguments key_ _ : simpl never.
#[global] Arguments shm_name_ _ : simpl never.

(** Both [Reset()]s: forget the mapping. *)
Definition segment_Reset (s : Segment) : Segment :=
  mkSegment (init_ s) (conf_ s) (channel_id_ s) None ∅ ∅.

(** Both [Remove()]s: unlink the name [key]. *)
Definition segment_Remove (key : Segment → Z) (m : Shm) (s : Segment) : Shm * bool :=
  match names m !! key s with
  | Some _ => (mkShm (delete (key s) (names m)) (regions m) (fresh m), true)
  | None => (m, false)
  end.

(** The end of both [OpenOrCreate()]s, for a region just created: placement-new
    of the state and the blocks, the addresses, the reference count. *)
Definition create_fields (key : Segment → Z) (k : Kernel) (m : Shm) (s : Segment) : Outcome bool :=
  if negb (attach_ok k) then
    (* the region is removed again *)
    Some (m, s, false)
  else
    let st := State_new (ceiling_msg_size_ (conf_ s)) in
    let c := Update (state_ceiling_ st) in
    let rg := mkRegion (IncreaseReferenceCounts st)
                (replicate (Z.to_nat (block_num_ c)) Block_new)
                (replicate (Z.to_nat ARENA_BLOCK_NUM) Block_new) in
    let r := fresh m in
    Some (mkShm (<[key s := r]> (names m)) (<[r := rg]> (regions m)) (S r),
          mkSegment true c (channel_id_ s) (Some r) (block_addrs c) (arena_addrs c), true).

(** [XsiSegment::OpenOnly()]. *)
Definition Xsi_OpenOnly (k : Kernel) (m : Shm) (s : Segment) : Outcome bool :=
  if init_ s then Some (m, s, true)
  else
    match names m !! key_ s with
    | None => Some (m, s, false)
    | Some r =>
        if negb (attach_ok k) then Some (m, s, false)
        else
          rg ← regions m !! r;
          let c := Update (state_ceiling_ (state rg)) in
          Some (set_region m r (set_state rg (IncreaseReferenceCounts (state rg))),
                mkSegment true c (channel_id_ s) (Some r)
                  (block_addrs c ∪ block_buf_addrs_ s) (arena_addrs c ∪ arena_block_buf_addrs_ s),
                true)
    end.

(** [XsiSegment::OpenOrCreate()]: at most two refused tries; every EINVAL
    resets and removes before the next. *)
Fixpoint Xsi_create_loop (retry : nat) (answers : list create_answer) (k : Kernel) (m : Shm)
    (s : Segment) : Outcome bool :=
  match retry with
  | O => Some (m, s, false)
  | S retry =>
      match names m !! key_ s with
      | Some _ => Xsi_OpenOnly k m s
      | None =>
          match answers with
          | CreateOk :: _ => create_fields key_ k m s
          | CreateEINVAL :: answers =>
              let s := segment_Reset s in
              let m := (segment_Remove key_ m s).1 in
              Xsi_create_loop retry answers k m s
          | CreateError :: _ | CreateTruncateError :: _ | [] => Some (m, s, false)
          end
      end
  end.

Definition Xsi_OpenOrCreate (k : Kernel) (m : Shm) (s : Segment) : Outcome bool :=
  if init_ s then Some (m, s, true)
  else Xsi_create_loop 2 (create_answers k) k m s.

Definition Xsi : Virtuals := mkVirtuals segment_Reset (segment_Remove key_) Xsi_OpenOnly Xsi_OpenOrCreate.

(** The arena loop of [PosixSegment::OpenOnly()]: its condition tests [i], the
    counter of the loop before it. *)
Fixpoint Posix_arena_loop (fuel : nat) (c : ShmConf) (i ai : Z) (addrs : gmap Z Z)
  : option (Z * gmap Z Z) :=
  match fuel with
  | O => None
  | S fuel =>
      if i <? ARENA_BLOCK_NUM
      then Posix_arena_loop fuel c i (u32 (ai + 1))
             (<[ai := arena_buf_offset sizeof_State sizeof_Block c ai]> addrs)
      else Some (ai, addrs)
  end.

(** [PosixSegment::OpenOnly()]; mapping an object of no bytes fails. *)
Definition Posix_OpenOnly (fuel : nat) (k : Kernel) (m : Shm) (s : Segment) : Outcome bool :=
  if init_ s then Some (m, s, true)
  else
    match names m !! shm_name_ s with
    | None => Some (m, s, false)
    | Some r =>
        if negb (attach_ok k) then Some (m, s, false)
        else
          match regions m !! r with
          | None => Some (m, s, false)
          | Some rg =>
          let c := Update (state_ceiling_ (state rg)) in
          let i := block_num_ c in
          '(ai, arena) ← Posix_arena_loop fuel c i 0 (arena_block_buf_addrs_ s);
          if negb (ai =? ARENA_BLOCK_NUM) then
            let s := mkSegment (init_ s) c (channel_id_ s) None ∅ ∅ in
            Some ((segment_Remove shm_name_ m s).1, s, false)
          else
            Some (set_region m r (set_state rg (IncreaseReferenceCounts (state rg))),
                  mkSegment true c (channel_id_ s) (Some r)
                    (block_addrs c ∪ block_buf_addrs_ s) arena, true)
          end
    end.

(** [PosixSegment::OpenOrCreate()]: when [ftruncate] fails the name stays, of an
    object of no bytes, which has no region. *)
Definition Posix_OpenOrCreate (fuel : nat) (k : Kernel) (m : Shm) (s : Segment) : Outcome bool :=
  if init_ s then Some (m, s, true)
  else
    match names m !! shm_name_ s with
    | Some _ => Posix_OpenOnly fuel k m s
    | None =>
        match create_answers k with
        | CreateOk :: _ => create_fields shm_name_ k m s
        | CreateTruncateError :: _ =>
            Some (mkShm (<[shm_name_ s := fresh m]> (names m)) (regions m) (S (fresh m)), s, false)
        | _ => Some (m, s, false)
        end
    end.

Definition Posix (fuel : nat) : Virtuals :=
  mkVirtuals segment_Reset (segment_Remove shm_name_) (Posix_OpenOnly fuel) (Posix_OpenOrCreate fuel).
End layout_args.

(** ** The base class *)

Section base_class.
Context (V : Virtuals).

(** The mapped region; [None] when [state_] and [blocks_] are null. *)
Definition mapped (m : Shm) (s : Segment) : option (nat * Region) :=
  r ← managed_shm_ s; rg ← regions m !! r; Some (r, rg).

(** [Remap()]. *)
Definition Remap (k : Kernel) (m : Shm) (s : Segment) : Outcome bool :=
  OpenOnly V k m (Reset V (set_init s false)).

(** [Recreate(msg_size)]. *)
Definition Recreate (k : Kernel) (m : Shm) (s : Segment) (msg_size : Z) : Outcome bool :=
  '(r, rg) ← mapped m s;
  let s := set_init s false in
  let m := set_region m r (set_state rg (set_need_remap (state rg) true)) in
  let s := Reset V s in
  let m := (Remove V m s).1 in
  OpenOrCreate V k m (set_conf s (Update msg_size)).

(** [if (state_->need_remap()) { result = Remap(); }] *)
Definition remap_if_needed (k : Kernel) (m : Shm) (s : Segment) : Outcome bool :=
  '(_, rg) ← mapped m s;
  if need_remap_ (state rg) then Remap k m s else Some (m, s, true).

(** [GetNextWritableBlockIndex()]: the loop, with fuel. *)
Fixpoint next_writable (fuel : nat) (block_num : Z) (rg : Region) : option (Region * Z) :=
  match fuel with
  | O => None
  | S fuel =>
      let '(st, v) := FetchAddSeq (state rg) 1 in
      let try_idx := v mod block_num in
      let rg := set_state rg st in
      b ← blocks rg !! Z.to_nat try_idx;
      match TryLockForWrite false b with
      | (b', true) => Some (set_blocks rg (<[Z.to_nat try_idx := b']> (blocks rg)), try_idx)
      | (_, false) => next_writable fuel block_num rg
      end
  end.

(** [GetNextArenaWritableBlockIndex()]. *)
Fixpoint next_arena_writable (fuel : nat) (rg : Region) : option (Region * Z) :=
  match fuel with
  | O => None
  | S fuel =>
      let '(st, v) := FetchAddArenaSeq (state rg) 1 in
      let try_idx := v mod ARENA_BLOCK_NUM in
      let rg := set_state rg st in
      b ← arena_blocks rg !! Z.to_nat try_idx;
      match TryLockForWrite false b with
      | (b', true) => Some (set_arena rg (<[Z.to_nat try_idx := b']> (arena_blocks rg)), try_idx)
      | (_, false) => next_arena_writable fuel rg
      end
  end.

(** A block handed out: its index and the address of its buffer. *)
Record WritableBlock := mkWritableBlock { index : Z; buf : option Z }.

(** [AcquireBlockToWrite(msg_size)]: [None] inside is the answer false. *)
Definition AcquireBlockToWrite (fuel : nat) (k : Kernel) (m : Shm) (s : Segment) (msg_size : Z)
  : Outcome (option WritableBlock) :=
  '(m, s, ok) ← (if init_ s then Some (m, s, true) else OpenOrCreate V k m s);
  if negb ok then Some (m, s, None)
  else
    '(m, s, result) ← remap_if_needed k m s;
    '(m, s, result) ←
      (if ceiling_msg_size_ (conf_ s) <? msg_size then Recreate k m s msg_size
       else Some (m, s, result));
    if negb result then Some (m, s, None)
    else
      '(r, rg) ← mapped m s;
      '(rg, i) ← next_writable fuel (block_num_ (conf_ s)) rg;
      Some (set_region m r rg, s, Some (mkWritableBlock i (block_buf_addrs_ s !! i))).

(** [AcquireArenaBlockToWrite(msg_size)]; the answer of [Remap] is ignored. *)
Definition AcquireArenaBlockToWrite (fuel : nat) (k : Kernel) (m : Shm) (s : Segment)
  : Outcome (option WritableBlock) :=
  '(m, s, ok) ← (if init_ s then Some (m, s, true) else OpenOrCreate V k m s);
  if negb ok then Some (m, s, None)
  else
    '(m, s, _) ← remap_if_needed k m s;
    '(r, rg) ← mapped m s;
    '(rg, i) ← next_arena_writable fuel rg;
    Some (set_region m r rg, s, Some (mkWritableBlock i (arena_block_buf_addrs_ s !! i))).

(** A block's lock taken for reading with no other process running. *)
Definition TryLockForRead_alone (b : Block) : option Block :=
  if lock_num_ b <? kRWLockFree then None else Some (set_lock_num b (i32 (lock_num_ b + 1))).

(** [AcquireBlockToRead]: the block named by [i]. *)
Definition AcquireBlockToRead (k : Kernel) (m : Shm) (s : Segment) (i : Z)
  : Outcome (option WritableBlock) :=
  '(m, s, ok) ← (if init_ s then Some (m, s, true) else OpenOnly V k m s);
  if negb ok then Some (m, s, None)
  else if block_num_ (conf_ s) <=? i then Some (m, s, None)
  else
    '(m, s, result) ← remap_if_needed k m s;
    if negb result then Some (m, s, None)
    else
      '(r, rg) ← mapped m s;
      b ← blocks rg !! Z.to_nat i;
      match TryLockForRead_alone b with
      | None => Some (m, s, None)
      | Some b' =>
          Some (set_region m r (set_blocks rg (<[Z.to_nat i := b']> (blocks rg))), s,
                Some (mkWritableBlock i (block_buf_addrs_ s !! i)))
      end.

Definition AcquireArenaBlockToRead (k : Kernel) (m : Shm) (s : Segment) (i : Z)
  : Outcome (option WritableBlock) :=
  '(m, s, ok) ← (if init_ s then Some (m, s, true) else OpenOnly V k m s);
  if negb ok then Some (m, s, None)
  else if ARENA_BLOCK_NUM <=? i then Some (m, s, None)
  else
    '(m, s, result) ← remap_if_needed k m s;
    if negb result then Some (m, s, None)
    else
      '(r, rg) ← mapped m s;
      b ← arena_blocks rg !! Z.to_nat i;
      match TryLockForRead_alone b with
      | None => Some (m, s, None)
      | Some b' =>
          Some (set_region m r (set_arena rg (<[Z.to_nat i := b']> (arena_blocks rg))), s,
                Some (mkWritableBlock i (arena_block_buf_addrs_ s !! i)))
      end.

(** [f] on block [i] of the mapped region, when [i] is in range. *)
Definition on_block (m : Shm) (s : Segment) (i : Z) (f : Block → Block) : Outcome bool :=
  if block_num_ (conf_ s) <=? i then Some (m, s, false)
  else
    '(r, rg) ← mapped m s;
    b ← blocks rg !! Z.to_nat i;
    Some (set_region m r (set_blocks rg (<[Z.to_nat i := f b]> (blocks rg))), s, true).

Definition on_arena_block (m : Shm) (s : Segment) (i : Z) (f : Block → Block) : Outcome bool :=
  if ARENA_BLOCK_NUM <=? i then Some (m, s, false)
  else
    '(r, rg) ← mapped m s;
    b ← arena_blocks rg !! Z.to_nat i;
    Some (set_region m r (set_arena rg (<[Z.to_nat i := f b]> (arena_blocks rg))), s, true).

Definition ReleaseWrittenBlock (m : Shm) (s : Segment) (i : Z) : Outcome bool :=
  on_block m s i ReleaseWriteLock.
Definition ReleaseReadBlock (m : Shm) (s : Segment) (i : Z) : Outcome bool :=
  on_block m s i ReleaseReadLock.
Definition ReleaseArenaWrittenBlock (m : Shm) (s : Segment) (i : Z) : Outcome bool :=
  on_arena_block m s i ReleaseWriteLock.
Definition ReleaseArenaReadBlock (m : Shm) (s : Segment) (i : Z) : Outcome bool :=
  on_arena_block m s i ReleaseReadLock.

(** The same by index, for the arena allocator: the try-locks ... *)
Definition lock_block (lock : Block → option Block) (m : Shm) (s : Segment) (i : Z) : Outcome bool :=
  if block_num_ (conf_ s) <=? i then Some (m, s, false)
  else
    '(r, rg) ← mapped m s;
    b ← blocks rg !! Z.to_nat i;
    match lock b with
    | None => Some (m, s, false)
    | Some b' =>
        Some (set_region m r (set_blocks rg (<[Z.to_nat i := b']> (blocks rg))), s, true)
    end.

Definition lock_arena_block (lock : Block → option Block) (m : Shm) (s : Segment) (i : Z)
  : Outcome bool :=
  if ARENA_BLOCK_NUM <=? i then Some (m, s, false)
  else
    '(r, rg) ← mapped m s;
    b ← arena_blocks rg !! Z.to_nat i;
    match lock b with
    | None => Some (m, s, false)
    | Some b' =>
        Some (set_region m r (set_arena rg (<[Z.to_nat i := b']> (arena_blocks rg))), s, true)
    end.

Definition TryLockForWrite_alone (b : Block) : option Block :=
  match TryLockForWrite false b with (b', true) => Some b' | (_, false) => None end.

Definition LockBlockForWriteByIndex := lock_block TryLockForWrite_alone.
Definition LockBlockForReadByIndex := lock_block TryLockForRead_alone.
Definition LockArenaBlockForWriteByIndex := lock_arena_block TryLockForWrite_alone.
Definition LockArenaBlockForReadByIndex := lock_arena_block TryLockForRead_alone.

(** ... and the releases. *)
Definition ReleaseBlockForWriteByIndex := ReleaseWrittenBlock.
Definition ReleaseBlockForReadByIndex := ReleaseReadBlock.
Definition ReleaseArenaBlockForWriteByIndex := ReleaseArenaWrittenBlock.
Definition ReleaseArenaBlockForReadByIndex := ReleaseArenaReadBlock.

(** [InitOnly(message_size)]. *)
Definition InitOnly (k : Kernel) (m : Shm) (s : Segment) (message_size : Z) : Outcome bool :=
  if init_ s then Some (m, s, true)
  else OpenOrCreate V k m (set_conf s (Update message_size)).

(** [Destroy()]. *)
Definition Destroy (m : Shm) (s : Segment) : Outcome bool :=
  if negb (init_ s) then Some (m, s, true)
  else
    let s := set_init s false in
    '(r, rg) ← mapped m s;
    let st := DecreaseReferenceCounts (state rg) in
    let m := set_region m r (set_state rg st) in
    if reference_count_ st =? 0 then let '(m, b) := Remove V m s in Some (m, s, b)
    else Some (m, s, true).
End base_class.

(** ** Finding a block to write *)

Definition free_block (rg : Region) (i : Z) : Prop :=
  ∃ b, blocks rg !! Z.to_nat i = Some b ∧ lock_num_ b = kRWLockFree.

Lemma u32_mod_divides n z : 0 < n → 2 ^ 32 mod n = 0 → u32 z mod n = z mod n.
Proof.
  intros Hn Hd. unfold u32. apply Z.div_exact in Hd; [|lia]. rewrite Hd.
  rewrite (Z.mul_comm n), Z.mul_comm. rewrite Z.rem_mul_r; [|lia|].
  - rewrite Z.mul_comm, Z.mod_add by lia. apply Z.mod_mod. lia.
  - pose proof (Z.pow_pos_nonneg 2 32). nia.
Qed.

Lemma next_writable_distance n fuel d rg :
  0 < n → 2 ^ 32 mod n = 0 → length (blocks rg) = Z.to_nat n →
  (d < fuel)%nat → free_block rg ((seq_ (state rg) + Z.of_nat d) mod n) →
  ∃ rg' i b, next_writable fuel n rg = Some (rg', i) ∧ 0 <= i < n ∧
    blocks rg !! Z.to_nat i = Some b ∧ lock_num_ b = kRWLockFree ∧
    blocks rg' = <[Z.to_nat i := set_lock_num b kWriteExclusive]> (blocks rg) ∧
    arena_blocks rg' = arena_blocks rg ∧
    state_ceiling_ (state rg') = state_ceiling_ (state rg).
Proof.
  intros Hn Hdiv. revert d rg. induction fuel as [|fuel IH]; intros d rg Hl Hlt Hfree; [lia|].
  cbn [next_writable FetchAddSeq].
  pose proof (Z.mod_pos_bound (seq_ (state rg)) n Hn) as Hm.
  set (i := seq_ (state rg) mod n) in *. set (rg1 := set_state rg _).
  destruct (lookup_lt_is_Some_2 (blocks rg) (Z.to_nat i)) as [b Hb]; [lia|].
  change (blocks rg1) with (blocks rg). rewrite Hb. cbn.
  unfold TryLockForWrite. cbn [negb andb].
  destruct (lock_num_ b =? kRWLockFree) eqn:E; zbool.
  - exists (set_blocks rg1 (<[Z.to_nat i := set_lock_num b kWriteExclusive]> (blocks rg))), i, b.
    done.
  - destruct d as [|d].
    { destruct Hfree as (b' & Hb' & Hl'). rewrite Z.add_0_r in Hb'. fold i in Hb'. congruence. }
    apply (IH d rg1); [done|lia|].
    destruct Hfree as (b' & Hb' & Hl'). exists b'. split; [|done].
    cbn. change (u32 (seq_ (state rg) + 1)) with (u32 (seq_ (state rg) + 1)).
    replace ((u32 (seq_ (state rg) + 1) + Z.of_nat d) mod n)
      with ((seq_ (state rg) + Z.of_nat (S d)) mod n); [done|].
    rewrite <- (Z.add_mod_idemp_l (u32 _)), u32_mod_divides by (done || lia).
    rewrite Z.add_mod_idemp_l by lia. f_equal. lia.
Qed.

(** Every slot is tried within one turn. *)
Lemma free_distance n s j :
  0 < n → 0 <= j < n → ∃ d, (d < Z.to_nat n)%nat ∧ (s + Z.of_nat d) mod n = j.
Proof.
  intros Hn Hj. exists (Z.to_nat ((j - s) mod n)).
  pose proof (Z.mod_pos_bound (j - s) n Hn). split; [lia|].
  rewrite Z2Nat.id, Z.add_mod_idemp_r by lia.
  replace (s + (j - s)) with j by lia. by apply Z.mod_small.
Qed.

(** The search for a block to write ends: in a region of one of the size
    classes with some unlocked block, [GetNextWritableBlockIndex] returns within
    [block_num] tries, wherever its 32-bit counter stands and although it may
    wrap meanwhile; the block it returns was unlocked, is now write-locked, and
    no other block has changed. *)
Theorem next_writable_finds c rg j :
  c ∈ size_classes → length (blocks rg) = Z.to_nat (block_num_ c) →
  0 <= j < block_num_ c → free_block rg j →
  ∃ rg' i b, next_writable (Z.to_nat (block_num_ c)) (block_num_ c) rg = Some (rg', i) ∧
    0 <= i < block_num_ c ∧
    blocks rg !! Z.to_nat i = Some b ∧ lock_num_ b = kRWLockFree ∧
    blocks rg' = <[Z.to_nat i := set_lock_num b kWriteExclusive]> (blocks rg).
Proof.
  intros Hc Hl Hj Hfree. destruct (class_block_num c Hc) as [Hn Hdiv].
  destruct (free_distance (block_num_ c) (seq_ (state rg)) j ltac:(lia) Hj) as (d & Hd & Hm).
  destruct (next_writable_distance (block_num_ c) (Z.to_nat (block_num_ c)) d rg)
    as (rg' & i & b & ? & ? & ? & ? & ? & _); [lia|done|done|done|by rewrite Hm|eauto 10].
Qed.

(** A region with all but one of its 512 blocks locked, its counter about to
    wrap. *)
Definition busy_region : Region :=
  mkRegion (mkState false (2 ^ 32 - 1) 0 1 MESSAGE_SIZE_16K)
    (<[7%nat := Block_new]> (replicate 512 (mkBlock (-1) 0 0))) (replicate 512 Block_new).

Lemma next_writable_finds_witness :
  ∃ rg' i b, next_writable 512 512 busy_region = Some (rg', i) ∧ 0 <= i < 512 ∧
    blocks busy_region !! Z.to_nat i = Some b ∧ lock_num_ b = kRWLockFree ∧
    blocks rg' = <[Z.to_nat i := set_lock_num b kWriteExclusive]> (blocks busy_region).
Proof.
  apply (next_writable_finds (Update 100) busy_region 7);
    [apply Update_class|by vm_compute|by vm_compute|].
  exists Block_new. split; by vm_compute.
Defined.

(** ** Well-formed shared memory and segments *)

Section wf.
Context (sizeof_State sizeof_Block : Z).
Implicit Types (m : Shm) (s : Segment).

Definition region_wf (rg : Region) : Prop :=
  ∃ size, state_ceiling_ (state rg) = ceiling_msg_size_ (Update size) ∧
    length (blocks rg) = Z.to_nat (block_num_ (Update size)) ∧
    length (arena_blocks rg) = Z.to_nat ARENA_BLOCK_NUM.

Record shm_wf (m : Shm) : Prop := {
  sw_regions : ∀ r rg, regions m !! r = Some rg → region_wf rg;
  sw_names : ∀ c r, names m !! c = Some r → is_Some (regions m !! r);
  sw_fresh : ∀ r, is_Some (regions m !! r) → (r < fresh m)%nat
}.

(** An initialised segment maps a region, knows its size class, and has the
    address of every buffer. *)
Definition seg_wf (m : Shm) (s : Segment) : Prop :=
  ∃ r rg, managed_shm_ s = Some r ∧ regions m !! r = Some rg ∧
    conf_ s = Update (state_ceiling_ (state rg)) ∧
    ∀ i, 0 <= i < block_num_ (conf_ s) →
      block_buf_addrs_ s !! i = Some (block_buf_offset sizeof_State sizeof_Block (conf_ s) i).

Lemma region_wf_blocks rg :
  region_wf rg → length (blocks rg) = Z.to_nat (block_num_ (Update (state_ceiling_ (state rg)))).
Proof. intros (size & Hc & Hb & _). by rewrite Hc, Update_ceiling. Qed.

Lemma block_addrs_lookup c i :
  0 <= i < block_num_ c →
  block_addrs sizeof_State sizeof_Block c !! i
    = Some (block_buf_offset sizeof_State sizeof_Block c i).
Proof.
  intros Hi. apply elem_of_list_to_map_1.
  - rewrite <- list_fmap_compose. change (NoDup (Z.of_nat <$> seq 0 (Z.to_nat (block_num_ c)))).
    apply NoDup_fmap_2; [intros ???; lia|]. apply NoDup_seq.
  - apply list_elem_of_fmap. exists (Z.to_nat i). rewrite Z2Nat.id by lia. split; [done|].
    apply elem_of_seq. lia.
Qed.

Lemma shm_wf_set_region m r rg :
  shm_wf m → is_Some (regions m !! r) → region_wf rg → shm_wf (set_region m r rg).
Proof.
  intros [Hr Hn Hf] Hold Hrg. split; cbn.
  - intros r' rg'. rewrite lookup_insert_Some. intros [[_ <-]|[_ ?]]; eauto.
  - intros c r' Hc. rewrite lookup_insert_is_Some'. right. eauto.
  - intros r'. rewrite lookup_insert_is_Some'. intros [->|?]; by apply Hf.
Qed.

Lemma shm_wf_remove key m s : shm_wf m → shm_wf (segment_Remove key m s).1.
Proof.
  intros [Hr Hn Hf]. unfold segment_Remove. destruct_match; [|by split]. split; cbn; [done| |done].
  intros c r [_ Hc]%lookup_delete_Some. eauto.
Qed.

(** The regions there were are there, their blocks as they were. *)
Definition keeps_blocks (m m' : Shm) : Prop :=
  ∀ r rg, regions m !! r = Some rg → ∃ rg', regions m' !! r = Some rg' ∧ blocks rg' = blocks rg.

#[global] Instance keeps_blocks_preorder : PreOrder keeps_blocks.
Proof.
  split; [by intros m r rg Hr; exists rg|]. intros m1 m2 m3 H1 H2 r rg Hr.
  destruct (H1 r rg Hr) as (rg2 & Hr2 & <-). by apply H2.
Qed.

Lemma keeps_blocks_set_state m r rg st :
  regions m !! r = Some rg → keeps_blocks m (set_region m r (set_state rg st)).
Proof.
  intros Hr r' rg' Hr'. cbn. destruct (decide (r' = r)) as [->|Hne].
  - rewrite lookup_insert_eq. exists (set_state rg st). by simplify_eq.
  - rewrite lookup_insert_ne by done. by exists rg'.
Qed.

Lemma keeps_blocks_remove key m s : keeps_blocks m (segment_Remove key m s).1.
Proof. unfold segment_Remove. intros r rg Hr. exists rg. by destruct_match. Qed.

(** What opening promises to the base class. *)
Definition opens_well (open : Kernel → Shm → Segment → Outcome bool) : Prop :=
  ∀ k m s, shm_wf m → init_ s = false →
    ∃ m' s' b, open k m s = Some (m', s', b) ∧ shm_wf m' ∧
      channel_id_ s' = channel_id_ s ∧
      (b = true → init_ s' = true ∧ seg_wf m' s') ∧ keeps_blocks m m'.

Lemma Xsi_OpenOnly_well : opens_well (Xsi_OpenOnly sizeof_State sizeof_Block).
Proof.
  intros k m s Hm Hi. unfold Xsi_OpenOnly. rewrite Hi.
  destruct (names m !! key_ s) as [r|] eqn:Hn; [|by eexists _, _, _].
  destruct (negb (attach_ok k)); [by eexists _, _, _|].
  destruct (sw_names _ Hm _ _ Hn) as [rg Hrg]. rewrite Hrg. cbn.
  eexists _, _, _. split; [reflexivity|]. split; [|split; [done|split]].
  - apply shm_wf_set_region; [done|by eexists|]. by apply (sw_regions _ Hm r rg).
  - intros _. split; [done|]. eexists r, _. cbn.
    split; [done|]. split; [apply lookup_insert_eq|]. split; [done|].
    intros i Hb. apply lookup_union_Some_l. by apply block_addrs_lookup.
  - by apply keeps_blocks_set_state.
Qed.

Lemma create_fields_well key k m s :
  shm_wf m → conf_ s ∈ size_classes →
  ∃ m' s' b, create_fields sizeof_State sizeof_Block key k m s = Some (m', s', b) ∧ shm_wf m' ∧
    channel_id_ s' = channel_id_ s ∧ (b = true → init_ s' = true ∧ seg_wf m' s') ∧ keeps_blocks m m'.
Proof.
  intros [Hr Hn Hf] Hc. unfold create_fields. destruct (negb (attach_ok k)); [by eexists _, _, _|].
  cbn. eexists _, _, _. split; [reflexivity|]. split; [|split; [done|split]].
  - split; cbn.
    + intros r rg. rewrite lookup_insert_Some. intros [[_ <-]|[_ ?]]; [|eauto].
      exists (ceiling_msg_size_ (conf_ s)). cbn. rewrite !length_replicate.
      split; [|done]. symmetry.
      apply (size_classes_Forall (λ c, ceiling_msg_size_ (Update (ceiling_msg_size_ c)) = ceiling_msg_size_ c));
        [|done]. unfold size_classes. cbn [map]. repeat constructor.
    + intros c r. rewrite !lookup_insert_Some, lookup_insert_is_Some'.
      intros [[_ <-]|[_ ?]]; eauto.
    + intros r. rewrite lookup_insert_is_Some'. intros [<-|Hx]; [lia|]. specialize (Hf r Hx). lia.
  - intros _. split; [done|]. eexists _, _. cbn. split; [done|].
    split; [apply lookup_insert_eq|]. split; [done|].
    intros i Hi. by apply block_addrs_lookup.
  - intros r rg Hx. exists rg. split; [|done]. cbn. rewrite lookup_insert_ne; [done|].
    intros <-. pose proof (Hf _ (mk_is_Some _ _ Hx)). lia.
Qed.

Lemma Xsi_create_loop_well retry answers k m s :
  shm_wf m → init_ s = false → conf_ s ∈ size_classes →
  ∃ m' s' b, Xsi_create_loop sizeof_State sizeof_Block retry answers k m s = Some (m', s', b) ∧
    shm_wf m' ∧ channel_id_ s' = channel_id_ s ∧ (b = true → init_ s' = true ∧ seg_wf m' s') ∧ keeps_blocks m m'.
Proof.
  revert answers m s. induction retry as [|retry IH]; intros answers m s Hm Hi Hc; cbn.
  { by eexists _, _, _. }
  destruct (names m !! key_ s) as [r|] eqn:Hn; [by apply Xsi_OpenOnly_well|].
  destruct answers as [|[] answers]; [by eexists _, _, _|by apply create_fields_well| |by eexists _, _, _..].
  destruct (IH answers (segment_Remove key_ m (segment_Reset s)).1 (segment_Reset s)) as (m' & s' & b & E & H1 & H2 & H3 & H4);
    [by apply shm_wf_remove|done|done|].
  exists m', s', b. split_and!; try done. etrans; [apply keeps_blocks_remove|exact H4].
Qed.

Lemma Xsi_OpenOrCreate_well k m s :
  shm_wf m → init_ s = false → conf_ s ∈ size_classes →
  ∃ m' s' b, Xsi_OpenOrCreate sizeof_State sizeof_Block k m s = Some (m', s', b) ∧
    shm_wf m' ∧ channel_id_ s' = channel_id_ s ∧ (b = true → init_ s' = true ∧ seg_wf m' s') ∧ keeps_blocks m m'.
Proof. intros Hm Hi Hc. unfold Xsi_OpenOrCreate. rewrite Hi. by apply Xsi_create_loop_well. Qed.

(** Created under a free name, the segment has the size class asked for. *)
Lemma Xsi_create_loop_conf retry answers k m s m' s' :
  names m !! key_ s = None →
  Xsi_create_loop sizeof_State sizeof_Block retry answers k m s = Some (m', s', true) →
  conf_ s' = Update (ceiling_msg_size_ (conf_ s)).
Proof.
  revert answers m s. induction retry as [|retry IH]; intros answers m s Hn; cbn; [done|].
  rewrite Hn. destruct answers as [|[] answers]; try done.
  - unfold create_fields. destruct (negb (attach_ok k)); [done|]. cbn. by intros [= _ <-].
  - intros Hr. apply (IH answers _ (segment_Reset s)) in Hr; [done|].
    change (key_ (segment_Reset s)) with (key_ s). unfold segment_Remove.
    change (key_ (segment_Reset s)) with (key_ s). by rewrite Hn.
Qed.

Lemma next_writable_result fuel n rg rg' i :
  0 < n → next_writable fuel n rg = Some (rg', i) →
  0 <= i < n ∧ ∃ b, blocks rg !! Z.to_nat i = Some b ∧ lock_num_ b = kRWLockFree ∧
    blocks rg' = <[Z.to_nat i := set_lock_num b kWriteExclusive]> (blocks rg) ∧
    arena_blocks rg' = arena_blocks rg ∧
    state_ceiling_ (state rg') = state_ceiling_ (state rg).
Proof.
  intros Hn. revert rg. induction fuel as [|fuel IH]; intros rg; [done|].
  cbn [next_writable FetchAddSeq]. set (rg1 := set_state rg _).
  pose proof (Z.mod_pos_bound (seq_ (state rg)) n Hn) as Hm.
  change (blocks rg1) with (blocks rg).
  destruct (blocks rg !! _) as [b|] eqn:Hb; [|done]. cbn. unfold TryLockForWrite. cbn [negb andb].
  destruct (lock_num_ b =? kRWLockFree) eqn:E; zbool.
  - intros [= <- <-]. split; [done|]. eexists. done.
  - intros Hr. apply (IH rg1 Hr).
Qed.
End wf.

Section xsi.
Context (sizeof_State sizeof_Block : Z).
Abbreviation V := (Xsi sizeof_State sizeof_Block).
Abbreviation wf := (seg_wf sizeof_State sizeof_Block).
Implicit Types (m : Shm) (s : Segment).

Lemma remap_if_needed_well k m s m' s' b :
  shm_wf m → remap_if_needed V k m s = Some (m', s', b) →
  shm_wf m' ∧ (wf m s → b = true → wf m' s') ∧
  (b = false → mapped m' s' = None) ∧
  (init_ s = true → b = true → init_ s' = true) ∧ keeps_blocks m m'.
Proof.
  intros Hm. unfold remap_if_needed. destruct (mapped m s) as [[r rg]|]; [|done]. cbn.
  destruct (need_remap_ (state rg)); [|intros [= <- <- <-]; done].
  unfold Remap. cbn [OpenOnly Reset].
  pose proof (Xsi_OpenOnly_well sizeof_State sizeof_Block k m (segment_Reset (set_init s false)) Hm eq_refl)
    as (m1 & s1 & b1 & He & Hm1 & _ & Hw & Hk).
  intros Hr.
  change (Xsi_OpenOnly sizeof_State sizeof_Block k m (segment_Reset (set_init s false))
    = Some (m', s', b)) in Hr.
  rewrite He in Hr. simplify_eq. split; [done|].
  split; [intros _ Hb; by apply Hw|]. split; [|split; [intros _ Hb; by apply Hw|done]].
  intros ->. unfold Xsi_OpenOnly in He. cbn in He.
  repeat (case_match; simplify_eq; try done).
  destruct (regions m !! n); done.
Qed.

Lemma Recreate_well k m s msg_size m' s' b :
  shm_wf m → Recreate V k m s msg_size = Some (m', s', b) →
  shm_wf m' ∧ (b = true → wf m' s' ∧ conf_ s' = Update msg_size ∧ init_ s' = true) ∧ keeps_blocks m m'.
Proof.
  intros Hm. unfold Recreate. destruct (mapped m s) as [[r rg]|] eqn:Hmap; [|done].
  cbn [mbind option_bind]. intros Hr.
  set (m1 := set_region m r _) in *. set (s1 := segment_Reset (set_init s false)) in *.
  change (Xsi_OpenOrCreate sizeof_State sizeof_Block k (segment_Remove key_ m1 s1).1
    (set_conf s1 (Update msg_size)) = Some (m', s', b)) in Hr.
  assert (regions m !! r = Some rg) as Hrg.
  { unfold mapped in Hmap. destruct (managed_shm_ s) as [r'|]; [|done]. cbn in Hmap.
    destruct (regions m !! r') as [rg'|] eqn:Hrg; [|done]. cbn in Hmap. by simplify_eq. }
  assert (shm_wf m1) as Hm1 by (apply shm_wf_set_region; [done|by eexists|by apply (sw_regions _ Hm r rg)]).
  pose proof (shm_wf_remove key_ m1 s1 Hm1) as Hm2.
  destruct (Xsi_OpenOrCreate_well sizeof_State sizeof_Block k (segment_Remove key_ m1 s1).1
    (set_conf s1 (Update msg_size)) Hm2 eq_refl (Update_class _)) as (m3 & s3 & b3 & He & Hm3 & _ & Hw & Hk).
  rewrite He in Hr. simplify_eq. split; [done|]. split.
  2:{ etrans; [by apply keeps_blocks_set_state|]. etrans; [apply keeps_blocks_remove|exact Hk]. }
  intros ->. destruct (Hw eq_refl) as [Hi Hwf].
  split; [done|]. split; [|done].
  unfold Xsi_OpenOrCreate in He. cbn [init_ set_conf s1 segment_Reset set_init] in He.
  apply Xsi_create_loop_conf in He; [rewrite He; apply Update_ceiling|].
  change (names (segment_Remove key_ m1 s1).1 !! key_ s1 = None). unfold segment_Remove.
  destruct (names m1 !! key_ s1) eqn:E; [apply lookup_delete_eq|done].
Qed.

(** The first half of [AcquireBlockToWrite], up to the choice of a block: open,
    remap, re-create. *)
Lemma acquire_prepare k m s msg_size m1 s1 m2 s2 result m3 s3 :
  shm_wf m → conf_ s ∈ size_classes → (init_ s = true → wf m s) →
  (if init_ s then Some (m, s, true) else OpenOrCreate V k m s) = Some (m1, s1, true) →
  remap_if_needed V k m1 s1 = Some (m2, s2, result) →
  (if ceiling_msg_size_ (conf_ s2) <? msg_size then Recreate V k m2 s2 msg_size
   else Some (m2, s2, result)) = Some (m3, s3, true) →
  shm_wf m3 ∧ wf m3 s3 ∧ init_ s3 = true ∧
  (msg_size <= ceiling_msg_size_ (conf_ s3) ∨ conf_ s3 = Update msg_size) ∧ keeps_blocks m m3.
Proof.
  intros Hm Hc Hinit Hopen Hremap Hrec.
  assert (shm_wf m1 ∧ wf m1 s1 ∧ init_ s1 = true ∧ keeps_blocks m m1) as (Hm1 & Hwf1 & Hi1 & Hk1).
  { destruct (init_ s) eqn:Hi; [simplify_eq; split_and!; (auto || done)|].
    destruct (Xsi_OpenOrCreate_well sizeof_State sizeof_Block k m s Hm Hi Hc)
      as (m0 & s0 & b0 & He & ? & _ & Hw & ?).
    change (Xsi_OpenOrCreate sizeof_State sizeof_Block k m s = Some (m1, s1, true)) in Hopen.
    rewrite He in Hopen. simplify_eq. by destruct (Hw eq_refl). }
  destruct (remap_if_needed_well k m1 s1 m2 s2 result Hm1 Hremap) as (Hm2 & Hwf2 & Hnone & Hi2 & Hk2).
  assert (keeps_blocks m m2) as Hk by (by etrans).
  destruct (ceiling_msg_size_ (conf_ s2) <? msg_size) eqn:E.
  - destruct (Recreate_well k m2 s2 msg_size m3 s3 true Hm2 Hrec) as [? Hw].
    destruct Hw as [Hw Hk3]. destruct (Hw eq_refl) as (? & ? & ?). split_and!; auto. by etrans.
  - simplify_eq. zbool. auto 10.
Qed.

(** The second half: the block chosen. *)
Lemma acquire_choose fuel m s r rg rg' i :
  shm_wf m → managed_shm_ s = Some r → regions m !! r = Some rg →
  conf_ s = Update (state_ceiling_ (state rg)) →
  next_writable fuel (block_num_ (conf_ s)) rg = Some (rg', i) →
  shm_wf (set_region m r rg') ∧ state_ceiling_ (state rg') = state_ceiling_ (state rg) ∧
  0 <= i < block_num_ (conf_ s) ∧
  ∃ b, blocks rg !! Z.to_nat i = Some b ∧ lock_num_ b = kRWLockFree ∧
    blocks rg' = <[Z.to_nat i := set_lock_num b kWriteExclusive]> (blocks rg).
Proof.
  intros Hm Hr Hrg Hconf Hnext.
  assert (conf_ s ∈ size_classes) as Hc by (rewrite Hconf; apply Update_class).
  pose proof (class_block_num _ Hc) as [Hnum _].
  apply next_writable_result in Hnext as (Hi & b & Hb & Hlock & Hbs & Hab & Hce); [|lia].
  split; [|split; [done|split; [done|]]].
  - apply shm_wf_set_region; [done|by eexists|]. destruct (sw_regions _ Hm r rg Hrg) as (size & H1 & H2 & H3).
    exists size. by rewrite Hce, Hbs, Hab, length_insert.
  - by exists b.
Qed.

(** A mapped segment whose class fits, with a free block, is served at once. *)
Lemma acquire_served k m s msg_size r rg j fuel :
  shm_wf m → init_ s = true → managed_shm_ s = Some r → regions m !! r = Some rg →
  conf_ s = Update (state_ceiling_ (state rg)) → need_remap_ (state rg) = false →
  msg_size <= ceiling_msg_size_ (conf_ s) → 0 <= j < block_num_ (conf_ s) → free_block rg j →
  (Z.to_nat (block_num_ (conf_ s)) <= fuel)%nat →
  ∃ m' wb, AcquireBlockToWrite V fuel k m s msg_size = Some (m', s, Some wb).
Proof.
  intros Hm Hi Hr Hrg Hconf Hnr Hle Hj Hfree Hfuel.
  assert (conf_ s ∈ size_classes) as Hc by (rewrite Hconf; apply Update_class).
  destruct (class_block_num _ Hc) as [Hn Hdiv].
  destruct (free_distance (block_num_ (conf_ s)) (seq_ (state rg)) j ltac:(lia) Hj) as (d & Hd & Hmod).
  destruct (next_writable_distance (block_num_ (conf_ s)) fuel d rg) as (rg' & i & b & E & _);
    [lia|done|rewrite Hconf; by apply region_wf_blocks, (sw_regions _ Hm r)|lia|by rewrite Hmod|].
  unfold AcquireBlockToWrite, remap_if_needed, mapped. rewrite Hi. cbn [mbind option_bind negb].
  rewrite Hr. cbn [mbind option_bind]. rewrite Hrg. cbn [mbind option_bind]. rewrite Hnr.
  cbn [mbind option_bind negb]. destruct (Z.ltb_spec (ceiling_msg_size_ (conf_ s)) msg_size); [lia|].
  cbn [mbind option_bind negb]. rewrite Hr. cbn [mbind option_bind]. rewrite Hrg.
  cbn [mbind option_bind]. rewrite E. cbn. eauto.
Qed.

(** [C30] What [AcquireBlockToWrite] of an XSI segment hands out: on success the
    shared memory and the segment stay well formed, the block is in range and is
    write-locked now, and if its region was there before the call, the block was
    unlocked there and no other block of the region has changed; its buffer address is
    the one of the layout, and, for a message of at most 32M, the buffer has room for
    the message and its information, whatever remapping or re-creation was needed.
    And it does succeed, within one turn over the blocks, on a mapped segment of
    a sufficient class that has a free block and was not replaced. *)
Theorem acquire_block_to_write_ok fuel k m s msg_size :
  shm_wf m → conf_ s ∈ size_classes → (init_ s = true → wf m s) →
  (∀ m' s' wb, AcquireBlockToWrite V fuel k m s msg_size = Some (m', s', Some wb) →
     shm_wf m' ∧ wf m' s' ∧ init_ s' = true ∧ 0 <= index wb < block_num_ (conf_ s') ∧
     (∃ r rg b, managed_shm_ s' = Some r ∧ regions m' !! r = Some rg ∧
        blocks rg !! Z.to_nat (index wb) = Some b ∧ lock_num_ b = kWriteExclusive ∧
        ∀ rg0, regions m !! r = Some rg0 →
          ∃ b0, blocks rg0 !! Z.to_nat (index wb) = Some b0 ∧ lock_num_ b0 = kRWLockFree ∧
            blocks rg = <[Z.to_nat (index wb) := set_lock_num b0 kWriteExclusive]> (blocks rg0)) ∧
     buf wb = Some (block_buf_offset sizeof_State sizeof_Block (conf_ s') (index wb)) ∧
     (msg_size <= MESSAGE_SIZE_MORE → msg_size + MESSAGE_INFO_SIZE <= block_buf_size_ (conf_ s'))) ∧
  (∀ r rg j, init_ s = true → managed_shm_ s = Some r → regions m !! r = Some rg →
     need_remap_ (state rg) = false → msg_size <= ceiling_msg_size_ (conf_ s) →
     0 <= j < block_num_ (conf_ s) → free_block rg j →
     (Z.to_nat (block_num_ (conf_ s)) <= fuel)%nat →
     ∃ m' wb, AcquireBlockToWrite V fuel k m s msg_size = Some (m', s, Some wb)).
Proof.
  intros Hm Hc Hinit. split.
  - intros m' s' wb. unfold AcquireBlockToWrite.
    destruct (if init_ s then _ else _) as [[[m1 s1] []]|] eqn:Hopen; [|done..]. cbn [mbind option_bind negb].
    destruct (remap_if_needed V k m1 s1) as [[[m2 s2] result]|] eqn:Hremap; [|done].
    cbn [mbind option_bind].
    destruct (if ceiling_msg_size_ (conf_ s2) <? msg_size then _ else _)
      as [[[m3 s3] []]|] eqn:Hrec; [|done..]. cbn [mbind option_bind negb].
    destruct (acquire_prepare k m s msg_size m1 s1 m2 s2 result m3 s3) as (Hm3 & Hwf3 & Hi3 & Hroom & Hkeep); try done.
    destruct Hwf3 as (r & rg & Hr & Hrg & Hconf & Haddrs).
    unfold mapped. rewrite Hr. cbn [mbind option_bind]. rewrite Hrg. cbn [mbind option_bind].
    destruct (next_writable fuel _ rg) as [[rg' i]|] eqn:Hnext; [|done]. cbn [mbind option_bind].
    intros Heq. simplify_eq. cbn [index buf].
    destruct (acquire_choose fuel m3 s' r rg rg' i) as (Hwf' & Hce & Hi & b & Hb & Hlock & Hbs); try done.
    split; [done|]. split; [exists r, rg'; split; [done|]; split; [apply lookup_insert_eq|]; by rewrite Hce|].
    split; [done|]. split; [done|]. split; [|split; [by apply Haddrs|]].
    + exists r, rg', (set_lock_num b kWriteExclusive). split; [done|]. split; [apply lookup_insert_eq|].
      split; [rewrite Hbs; apply list_lookup_insert_eq; by eapply lookup_lt_Some|]. split; [done|].
      intros rg0 H0. destruct (Hkeep r rg0 H0) as (rg3 & H3 & Heq). simplify_eq. rewrite <- Heq. by exists b.
    + intros Hle. rewrite class_buf_size by (rewrite Hconf; apply Update_class).
      destruct Hroom as [?|Heq]; [lia|]. rewrite Heq. pose proof (ceiling_covers _ Hle). lia.
  - intros r rg j Hi Hr Hrg. destruct (Hinit Hi) as (r' & rg' & Hr' & Hrg' & Hconf & _).
    simplify_eq. by apply (acquire_served k m s msg_size r rg).
Qed.
End xsi.

(** ** Witness and counterexamples *)

Definition empty_shm : Shm := mkShm ∅ ∅ 0.

Lemma empty_shm_wf : shm_wf empty_shm.
Proof. split; cbn; [intros ?? H; by rewrite lookup_empty in H..|]. intros r [? H]. by rewrite lookup_empty in H. Qed.

Lemma acquire_block_to_write_ok_witness :
  ∃ m' s' wb, AcquireBlockToWrite (Xsi 32 32) 1 kernel_ok empty_shm (Segment_new 9) 20000
      = Some (m', s', Some wb) ∧
    0 <= index wb < block_num_ (conf_ s') ∧ 20000 + MESSAGE_INFO_SIZE <= block_buf_size_ (conf_ s').
Proof.
  assert (match AcquireBlockToWrite (Xsi 32 32) 1 kernel_ok empty_shm (Segment_new 9) 20000 with
    | Some (_, _, Some _) => true | _ => false end = true) as Hcheck by (vm_compute; reflexivity).
  destruct (AcquireBlockToWrite (Xsi 32 32) 1 kernel_ok empty_shm (Segment_new 9) 20000)
    as [[[m' s'] [wb|]]|] eqn:He; [|discriminate..].
  destruct (acquire_block_to_write_ok 32 32 1 kernel_ok empty_shm (Segment_new 9) 20000) as [H _];
    [apply empty_shm_wf|apply (Update_class MESSAGE_SIZE_16K)|done|].
  destruct (H m' s' wb He) as (_ & _ & _ & Hi & _ & _ & Hroom).
  exists m', s', wb. split; [reflexivity|]. split; [exact Hi|]. apply Hroom.
  unfold MESSAGE_SIZE_MORE. lia.
Defined.

(** The largest size class is handed out for any larger message:
    [AcquireBlockToWrite] for 40 MB succeeds, on a new segment and again on the
    one it just created for that size, with a buffer of 32M and a kilobyte. *)
Theorem oversized_message_accepted :
  let msg_size := 40 * 1000 * 1000 in
  ∃ m1 s1 wb1 m2 s2 wb2,
    AcquireBlockToWrite (Xsi 32 32) 1 kernel_ok empty_shm (Segment_new 9) msg_size
      = Some (m1, s1, Some wb1) ∧
    AcquireBlockToWrite (Xsi 32 32) 1 kernel_ok m1 s1 msg_size = Some (m2, s2, Some wb2) ∧
    block_buf_size_ (conf_ s1) < msg_size ∧ block_buf_size_ (conf_ s2) < msg_size.
Proof.
  intros msg_size.
  assert (match AcquireBlockToWrite (Xsi 32 32) 1 kernel_ok empty_shm (Segment_new 9) msg_size with
    | Some (m1, s1, Some _) =>
        match AcquireBlockToWrite (Xsi 32 32) 1 kernel_ok m1 s1 msg_size with
        | Some (m2, s2, Some _) =>
            (block_buf_size_ (conf_ s1) <? msg_size) && (block_buf_size_ (conf_ s2) <? msg_size)
        | _ => false
        end
    | _ => false
    end = true) as Hcheck by (vm_compute; reflexivity).
  destruct (AcquireBlockToWrite _ 1 kernel_ok empty_shm _ _) as [[[m1 s1] [wb1|]]|]; [|done..].
  destruct (AcquireBlockToWrite _ 1 kernel_ok m1 s1 _) as [[[m2 s2] [wb2|]]|] eqn:E2; [|done..].
  zbool. by exists m1, s1, wb1, m2, s2, wb2.
Qed.

(** A writer [a] and a reader [b] on channel 9, both on a segment of the
    smallest class (512 blocks); then the writer needs a larger class. *)
Definition after_recreate : option (Shm * Segment * Segment) :=
  '(m, a, _) ← AcquireBlockToWrite (Xsi 32 32) 1 kernel_ok empty_shm (Segment_new 9) 100;
  '(m, b, _) ← AcquireBlockToRead (Xsi 32 32) kernel_ok m (Segment_new 9) 1;
  '(m, a, _) ← AcquireBlockToWrite (Xsi 32 32) 1 kernel_ok m a 100000;
  Some (m, a, b).

(** Two channels whose ids agree in their lower 32 bits have the same key: the second
    channel's writer opens the segment of the first. *)
Theorem segment_key_collision (id : Z) :
  key_ (Segment_new (id + 2 ^ 32)) = key_ (Segment_new id) ∧
  shm_name_ (Segment_new (id + 2 ^ 32)) ≠ shm_name_ (Segment_new id).
Proof.
  unfold key_, shm_name_, i32, Segment_new. cbn [channel_id_]. split; [|lia].
  replace (id + 2 ^ 32 + 2 ^ 31) with (id + 2 ^ 31 + 1 * 2 ^ 32) by lia. by rewrite Z_mod_plus_full.
Qed.

(** [AcquireBlockToRead] checks the block index before it remaps: a reader
    told of block 300 of the old segment passes the check against the old
    [block_num] (512), remaps to a segment of 128 blocks, and indexes [blocks_]
    past its end. *)
Theorem read_index_checked_too_early :
  ∃ m a b, after_recreate = Some (m, a, b) ∧ init_ b = true ∧
    300 < block_num_ (conf_ b) ∧
    AcquireBlockToRead (Xsi 32 32) kernel_ok m b 300 = None ∧
    ∃ m' b', remap_if_needed (Xsi 32 32) kernel_ok m b = Some (m', b', true) ∧
      block_num_ (conf_ b') = 128.
Proof.
  assert (match after_recreate with
    | Some (m, a, b) =>
        init_ b && (300 <? block_num_ (conf_ b)) &&
        bool_decide (AcquireBlockToRead (Xsi 32 32) kernel_ok m b 300 ≫= (λ _, Some tt) = None) &&
        match remap_if_needed (Xsi 32 32) kernel_ok m b with
        | Some (_, b', true) => block_num_ (conf_ b') =? 128
        | _ => false
        end
    | None => false
    end = true) as Hcheck by (vm_compute; reflexivity).
  destruct after_recreate as [[[m a] b]|]; [|done]. exists m, a, b.
  destruct (remap_if_needed _ _ m b) as [[[m' b'] []]|] eqn:E;
    rewrite ?andb_false_r in Hcheck; try done.
  zbool. apply bool_decide_eq_true in H1.
  split; [done|]. split; [done|]. split; [done|]. split; [|by exists m', b'].
  destruct (AcquireBlockToRead _ _ m b 300); done.
Qed.

(** A failed [Remap] leaves [state_] null, and the writers go on to use it:
    once the writer has re-created the segment and destroyed its own, the other
    process's [AcquireArenaBlockToWrite], and its [AcquireBlockToWrite] for a
    larger message, dereference null instead of returning false. *)
Theorem failed_remap_dereferences_null :
  ∃ m a b m' a', after_recreate = Some (m, a, b) ∧
    Destroy (Xsi 32 32) m a = Some (m', a', true) ∧
    AcquireBlockToWrite (Xsi 32 32) 512 kernel_ok m' b 100 ≠ None ∧
    AcquireBlockToWrite (Xsi 32 32) 512 kernel_ok m' b 100000 = None ∧
    AcquireArenaBlockToWrite (Xsi 32 32) 512 kernel_ok m' b = None.
Proof.
  assert (match after_recreate with
    | Some (m, a, b) =>
        match Destroy (Xsi 32 32) m a with
        | Some (m', _, true) =>
            bool_decide (is_Some (AcquireBlockToWrite (Xsi 32 32) 512 kernel_ok m' b 100)) &&
            bool_decide (¬ is_Some (AcquireBlockToWrite (Xsi 32 32) 512 kernel_ok m' b 100000)) &&
            bool_decide (¬ is_Some (AcquireArenaBlockToWrite (Xsi 32 32) 512 kernel_ok m' b))
        | _ => false
        end
    | None => false
    end = true) as Hcheck by (vm_compute; reflexivity).
  destruct after_recreate as [[[m a] b]|]; [|done].
  destruct (Destroy _ m a) as [[[m' a'] []]|] eqn:E; try done.
  exists m, a, b, m', a'. zbool.
  repeat match goal with H : bool_decide _ = true |- _ => apply bool_decide_eq_true in H end.
  split; [done|]. split; [done|]. split; [by apply not_eq_None_Some|].
  split; by apply eq_None_not_Some.
Qed.

Lemma Posix_arena_loop_stuck sS sB fuel c i ai addrs :
  i < ARENA_BLOCK_NUM → Posix_arena_loop sS sB fuel c i ai addrs = None.
Proof.
  intros Hi. revert ai addrs. induction fuel as [|fuel IH]; intros ai addrs; [done|].
  cbn. rewrite (proj2 (Z.ltb_lt _ _) Hi). apply IH.
Qed.

(** [PosixSegment::OpenOnly] never opens a segment: its arena loop tests the
    counter of the loop before it, so it runs forever for every class of fewer
    than 512 blocks, and for the smallest class it is skipped, after which the
    method reports failure and unlinks the segment its creator is using. *)
Theorem posix_open_only_fails sS sB fuel k m s r rg :
  init_ s = false → names m !! shm_name_ s = Some r → regions m !! r = Some rg →
  attach_ok k = true →
  let c := Update (state_ceiling_ (state rg)) in
  (block_num_ c < ARENA_BLOCK_NUM → Posix_OpenOnly sS sB fuel k m s = None) ∧
  (block_num_ c = ARENA_BLOCK_NUM → (0 < fuel)%nat →
    ∃ m' s', Posix_OpenOnly sS sB fuel k m s = Some (m', s', false) ∧
      names m' !! shm_name_ s = None ∧ managed_shm_ s' = None).
Proof.
  intros Hi Hn Hr Hk c. unfold Posix_OpenOnly. rewrite Hi, Hn, Hk. cbn [negb]. rewrite Hr.
  fold c. split.
  - intros Hc. by rewrite (Posix_arena_loop_stuck sS sB fuel c (block_num_ c)).
  - intros Hc Hf. destruct fuel as [|fuel]; [lia|]. cbn [Posix_arena_loop]. rewrite Hc.
    cbn [mbind option_bind]. eexists _, _. split; [reflexivity|]. split; [|done].
    unfold segment_Remove. change (shm_name_ (mkSegment _ _ _ _ _ _)) with (shm_name_ s). rewrite Hn. apply lookup_delete_eq.
Qed.

Lemma posix_open_only_fails_witness :
  ∃ m s wb, AcquireBlockToWrite (Posix 32 32 9) 1 kernel_ok empty_shm (Segment_new 9) 100000
      = Some (m, s, Some wb) ∧
    Posix_OpenOnly 32 32 1000 kernel_ok m (Segment_new 9) = None.
Proof.
  assert (match AcquireBlockToWrite (Posix 32 32 9) 1 kernel_ok empty_shm (Segment_new 9) 100000 with
    | Some (m, s, Some wb) =>
        match names m !! 9 with
        | Some r => match regions m !! r with
                    | Some rg => block_num_ (Update (state_ceiling_ (state rg))) =? 128
                    | None => false end
        | None => false
        end
    | _ => false
    end = true) as Hcheck by (vm_compute; reflexivity).
  destruct (AcquireBlockToWrite (Posix 32 32 9) 1 kernel_ok empty_shm (Segment_new 9) 100000)
    as [[[m s] [wb|]]|] eqn:He; [|discriminate..].
  destruct (names m !! 9) as [r|] eqn:Hn; [|discriminate].
  destruct (regions m !! r) as [rg|] eqn:Hr; [|discriminate].
  exists m, s, wb. split; [reflexivity|].
  apply (posix_open_only_fails 32 32 1000 kernel_ok m (Segment_new 9) r rg);
    [reflexivity|exact Hn|exact Hr|reflexivity|].
  apply Z.eqb_eq in Hcheck. rewrite Hcheck. reflexivity.
Defined.
