(* ===== verification/ConditionNotifier.v ===== *)
(** * ConditionNotifier (cyber/transport/shm/condition_notifier.h, .cc)

    The ring through which processes tell each other of written blocks: writers
    take a sequence number from [next_seq], store the notification in slot
    [seq % 4096] and stamp the slot with the number; each listener keeps the
    number it expects next.  The pieces of [Notify] are definitions of their own,
    since a listener may run between them. *)

From stdpp Require Import base numbers list.
From Stdlib Require Import ZArith Lia.
From S2P Require Import Prelude WireFormat.

Open Scope Z_scope.

Definition kBufLength : Z := 4096.

(** [ConditionNotifier::Indicator], in shared memory. *)
Record Indicator := mkIndicator {
  next_seq : Z;               (* uint64_t *)
  infos : list ReadableInfo;
  seqs : list Z
}.

Definition Indicator_new : Indicator :=
  mkIndicator 0 (replicate 4096 ReadableInfo_default) (replicate 4096 0).

(** A process's notifier. *)
Record Notifier := mkNotifier { next_seq_ : Z; is_shutdown_ : bool }.

(** The constructor, [Init()] succeeding or not. *)
Definition Notifier_new (init_ok : bool) (ind : Indicator) : Notifier :=
  if init_ok then mkNotifier (next_seq ind) false else mkNotifier 0 true.

Definition Shutdown (n : Notifier) : Notifier := mkNotifier (next_seq_ n) true.

(** The three accesses of [Notify(info)]. *)
Definition notify_reserve (ind : Indicator) : Indicator * Z :=
  (mkIndicator (u64 (next_seq ind + 1)) (infos ind) (seqs ind), next_seq ind).
Definition notify_info (ind : Indicator) (seq : Z) (info : ReadableInfo) : Indicator :=
  mkIndicator (next_seq ind) (<[Z.to_nat (seq mod kBufLength) := info]> (infos ind)) (seqs ind).
Definition notify_seq (ind : Indicator) (seq : Z) : Indicator :=
  mkIndicator (next_seq ind) (infos ind) (<[Z.to_nat (seq mod kBufLength) := seq]> (seqs ind)).

Definition Notify (n : Notifier) (ind : Indicator) (info : ReadableInfo) : Indicator * bool :=
  if is_shutdown_ n then (ind, false)
  else
    let '(ind, seq) := notify_reserve ind in
    let ind := notify_info ind seq info in
    (notify_seq ind seq, true).

(** One look at the ring: the notification taken and the next number. *)
Definition listen_once (ind : Indicator) (next : Z) : option (ReadableInfo * Z) :=
  if next_seq ind =? next then None
  else
    let idx := Z.to_nat (next mod kBufLength) in
    actual_seq ← seqs ind !! idx;
    if next <=? actual_seq
    then info ← infos ind !! idx; Some (info, u64 (actual_seq + 1))
    else None.

(** [Listen(timeout_ms, info)]: [views] is what each turn of the loop finds, the
    ring and whether this process has been shut down meanwhile. *)
Fixpoint listen_loop (views : list (Indicator * bool)) (timeout_us : Z) (n : Notifier)
  : Notifier * option ReadableInfo :=
  match views with
  | [] => (n, None)
  | (ind, down) :: views =>
      if down then (n, None)
      else
        match listen_once ind (next_seq_ n) with
        | Some (info, next) => (mkNotifier next (is_shutdown_ n), Some info)
        | None =>
            if 0 <? timeout_us then listen_loop views (timeout_us - 50) n else (n, None)
        end
  end.

Definition Listen (views : list (Indicator * bool)) (timeout_ms : Z) (n : Notifier)
  : Notifier * option ReadableInfo :=
  if is_shutdown_ n then (n, None) else listen_loop views (i32 (timeout_ms * 1000)) n.

(** ** Delivery *)

Definition ring_ok (ind : Indicator) : Prop :=
  length (infos ind) = 4096%nat ∧ length (seqs ind) = 4096%nat ∧ 0 <= next_seq ind.

(** The ring after a sequence of notifications. *)
Definition notified (n : Notifier) (ind : Indicator) (l : list ReadableInfo) : Indicator :=
  foldl (λ ind info, (Notify n ind info).1) ind l.

(** Repeated [Listen(0)] calls on an unchanging ring. *)
Fixpoint drain (k : nat) (ind : Indicator) (n : Notifier) : list ReadableInfo :=
  match k with
  | O => []
  | S k =>
      match Listen [(ind, false)] 0 n with
      | (n', Some info) => info :: drain k ind n'
      | (_, None) => []
      end
  end.

Lemma slot_lt z : (Z.to_nat (z mod kBufLength) < 4096)%nat.
Proof. pose proof (Z.mod_pos_bound z kBufLength ltac:(done)). unfold kBufLength in *. lia. Qed.

Lemma slot_inj a b :
  Z.to_nat (a mod kBufLength) = Z.to_nat (b mod kBufLength) → - 4096 < a - b < 4096 → a = b.
Proof. apply (ring_idx_inj kBufLength ltac:(done)). Qed.

Lemma notified_slots n ind l :
  is_shutdown_ n = false → ring_ok ind → next_seq ind + Z.of_nat (length l) < 2 ^ 64 →
  ring_ok (notified n ind l) ∧
  next_seq (notified n ind l) = next_seq ind + Z.of_nat (length l) ∧
  ∀ j info, l !! j = Some info → (length l - j <= 4096)%nat →
    let idx := Z.to_nat ((next_seq ind + Z.of_nat j) mod kBufLength) in
    infos (notified n ind l) !! idx = Some info ∧
    seqs (notified n ind l) !! idx = Some (next_seq ind + Z.of_nat j).
Proof.
  intros Hn Hok. induction l as [|x l IH] using rev_ind; intros Hlt.
  { split; [done|]. split; [cbn; lia|]. done. }
  rewrite length_app in Hlt |- *. cbn [length] in Hlt |- *.
  destruct IH as ((Hli & Hls & H0) & Hns & Hsl); [lia|].
  unfold notified in *. rewrite foldl_app. set (ind1 := foldl _ ind l) in *. cbn [foldl].
  unfold Notify, notify_reserve, notify_seq, notify_info. rewrite Hn. cbn [fst next_seq infos seqs].
  rewrite u64_small by (unfold is_u64; lia). rewrite Hns.
  split; [|split; [lia|]].
  { unfold ring_ok. cbn [infos seqs next_seq]. rewrite !length_insert. repeat split; try done. lia. }
  intros j info Hj Hlen. cbn zeta.
  destruct (decide (j = length l)) as [->|Hne].
  - rewrite lookup_app_r, Nat.sub_diag in Hj by lia. cbn in Hj. simplify_eq.
    rewrite !list_lookup_insert_eq by (rewrite ?Hli, ?Hls; apply slot_lt). done.
  - apply lookup_app_Some in Hj as [Hj|[? Hj]];
      [|apply lookup_lt_Some in Hj; cbn in Hj; lia].
    pose proof (lookup_lt_Some _ _ _ Hj).
    assert (Z.to_nat ((next_seq ind + Z.of_nat (length l)) mod kBufLength) ≠
      Z.to_nat ((next_seq ind + Z.of_nat j) mod kBufLength)) as Hd
      by (intros He%slot_inj; lia).
    rewrite !list_lookup_insert_ne by done. apply Hsl; [done|lia].
Qed.

Lemma drain_suffix n ind l k :
  is_shutdown_ n = false → ring_ok ind → next_seq ind + Z.of_nat (length l) + 1 < 2 ^ 64 →
  (length l <= 4096)%nat → (length l <= k)%nat →
  ∀ j, (j <= length l)%nat →
  drain (k - j) (notified n ind l) (mkNotifier (next_seq ind + Z.of_nat j) false) = drop j l.
Proof.
  intros Hn Hok Hb Hlen Hk.
  destruct (notified_slots n ind l Hn Hok ltac:(lia)) as (_ & Hns & Hsl).
  assert (∀ d j, (d = length l - j)%nat → (j <= length l)%nat →
    drain (k - j) (notified n ind l) (mkNotifier (next_seq ind + Z.of_nat j) false) = drop j l) as Hd.
  { induction d as [|d IH]; intros j Hdj Hj.
    - rewrite drop_ge by lia. destruct (k - j)%nat; [done|]. cbn. unfold listen_once. rewrite Hns.
      replace j with (length l) by lia. by rewrite Z.eqb_refl.
    - destruct (lookup_lt_is_Some_2 l j) as [x Hx]; [lia|].
      destruct (Hsl j x Hx ltac:(lia)) as [Hinfo Hseq].
      replace (k - j)%nat with (S (k - S j)) by lia. cbn [drain Listen is_shutdown_ listen_loop next_seq_].
      unfold listen_once. rewrite Hns, (proj2 (Z.eqb_neq _ _)) by lia.
      cbn zeta in Hinfo, Hseq. rewrite Hseq. cbn [mbind option_bind].
      rewrite (proj2 (Z.leb_le _ _)) by lia. rewrite Hinfo. cbn [mbind option_bind].
      destruct Hok as (_ & _ & H0). rewrite u64_small by (unfold is_u64; lia).
      replace (next_seq ind + Z.of_nat j + 1) with (next_seq ind + Z.of_nat (S j)) by lia.
      rewrite (drop_S l x j Hx). f_equal. apply IH; lia. }
  intros j Hj. by apply (Hd (length l - j)%nat).
Qed.

(** Every notification arrives, once and in order: a listener attached
    before [l] was notified, with at most [kBufLength] notifications pending,
    receives exactly [l] and then nothing, whatever the ring held before and
    wherever the sequence number stood. *)
Theorem notifications_delivered n ind l extra :
  is_shutdown_ n = false → ring_ok ind → next_seq ind + Z.of_nat (length l) + 1 < 2 ^ 64 →
  (length l <= 4096)%nat →
  drain (length l + extra) (notified n ind l) (Notifier_new true ind) = l.
Proof.
  intros Hn Hok Hb Hlen.
  pose proof (drain_suffix n ind l (length l + extra) Hn Hok Hb Hlen ltac:(lia) 0 ltac:(lia)) as H.
  rewrite Nat.sub_0_r, Z.add_0_r, drop_0 in H. exact H.
Qed.

Lemma Indicator_new_ok : ring_ok Indicator_new.
Proof. split; [apply length_replicate|]. split; [apply length_replicate|done]. Qed.

Lemma notifications_delivered_witness :
  let l := [mkReadableInfo 1 2 (-1) 3; mkReadableInfo 4 5 (-1) 6] in
  drain 5 (notified (mkNotifier 0 false) Indicator_new l) (Notifier_new true Indicator_new) = l.
Proof.
  apply (notifications_delivered (mkNotifier 0 false) Indicator_new
    [mkReadableInfo 1 2 (-1) 3; mkReadableInfo 4 5 (-1) 6] 3);
    [reflexivity|apply Indicator_new_ok|cbn; lia|cbn; lia].
Defined.

(** The slots start stamped with sequence number 0, which is also the first
    notification's number: a listener that looks after the first writer has
    reserved number 0 and before it has stored anything is given the slot's
    default contents as that notification, and never sees the real one. *)
Theorem first_notification_lost info :
  let '(ind, seq) := notify_reserve Indicator_new in
  let '(n, r) := Listen [(ind, false)] 0 (Notifier_new true Indicator_new) in
  r = Some ReadableInfo_default ∧
  drain 10 (notify_seq (notify_info ind seq info) seq) n = [].
Proof. split; vm_compute; reflexivity. Qed.
