(* ===== verification/History.v ===== *)
(** * History (cyber/transport/message/history.h, history_attributes.h)

    The messages a transmitter keeps for late joiners: the last [depth_] ones
    added while enabled.  The global configuration's limit is an argument. *)

From stdpp Require Import base numbers list.
From Stdlib Require Import ZArith Lia.
From S2P Require Import Prelude.

Open Scope Z_scope.

Inductive QosHistoryPolicy := HISTORY_SYSTEM_DEFAULT | HISTORY_KEEP_LAST | HISTORY_KEEP_ALL.

Record HistoryAttributes := mkHistoryAttributes {
  history_policy : QosHistoryPolicy;
  depth : Z                            (* uint32_t *)
}.

#[global] Instance QosHistoryPolicy_eq_dec : EqDecision QosHistoryPolicy.
Proof. solve_decision. Defined.
#[global] Instance HistoryAttributes_eq_dec : EqDecision HistoryAttributes.
Proof. solve_decision. Defined.

Definition HistoryAttributes_default : HistoryAttributes :=
  mkHistoryAttributes HISTORY_KEEP_LAST 1000.

Section history.
Context {M : Type}.

Record History := mkHistory {
  enabled_ : bool;
  depth_ : Z;
  max_depth_ : Z;
  msgs_ : list M
}.

(** The constructor; [max_history_depth] is the configured resource limit, when
    there is one. *)
Definition History_new (max_history_depth : option Z) (attr : HistoryAttributes) : History :=
  let max_depth := default 1000 max_history_depth in
  let d := match history_policy attr with
           | HISTORY_KEEP_ALL => max_depth
           | _ => if max_depth <? depth attr then max_depth else depth attr
           end in
  mkHistory false d max_depth [].

Definition Enable (h : History) : History :=
  mkHistory true (depth_ h) (max_depth_ h) (msgs_ h).
Definition Disable (h : History) : History :=
  mkHistory false (depth_ h) (max_depth_ h) (msgs_ h).
Definition Clear (h : History) : History :=
  mkHistory (enabled_ h) (depth_ h) (max_depth_ h) [].

(** [while (msgs_.size() > depth_) msgs_.pop_front();] *)
Fixpoint trim (d : Z) (l : list M) : list M :=
  match l with
  | [] => []
  | x :: l' => if d <? Z.of_nat (length l) then trim d l' else l
  end.

Definition Add (h : History) (m : M) : History :=
  if enabled_ h
  then mkHistory true (depth_ h) (max_depth_ h) (trim (depth_ h) (msgs_ h ++ [m]))
  else h.

Definition GetSize (h : History) : Z := Z.of_nat (length (msgs_ h)).

(** [GetCachedMessage(msgs)] inserts before what the caller's vector holds. *)
Definition GetCachedMessage (h : History) (msgs : list M) : list M := msgs_ h ++ msgs.

(** ** The window *)

Inductive op := OpEnable | OpDisable | OpClear | OpAdd (m : M).

Definition apply_op (h : History) (o : op) : History :=
  match o with
  | OpEnable => Enable h
  | OpDisable => Disable h
  | OpClear => Clear h
  | OpAdd m => Add h m
  end.

(** What was added while enabled, since the last [Clear]. *)
Definition recorded_step (st : bool * list M) (o : op) : bool * list M :=
  match o with
  | OpEnable => (true, st.2)
  | OpDisable => (false, st.2)
  | OpClear => (st.1, [])
  | OpAdd m => if st.1 then (true, st.2 ++ [m]) else st
  end.

Definition last_n (d : Z) (l : list M) : list M := drop (length l - Z.to_nat d) l.

Lemma trim_last d l : 0 <= d → trim d l = last_n d l.
Proof.
  intros Hd. induction l as [|x l IH]; [done|]. cbn [trim length].
  destruct (d <? _) eqn:E; zbool.
  - rewrite IH. unfold last_n. cbn [length].
    replace (S (length l) - Z.to_nat d)%nat with (S (length l - Z.to_nat d)) by lia. done.
  - unfold last_n. cbn [length]. by replace (S (length l) - Z.to_nat d)%nat with 0%nat by lia.
Qed.

Lemma last_n_snoc d l m : last_n d (last_n d l ++ [m]) = last_n d (l ++ [m]).
Proof.
  unfold last_n. rewrite !length_app, length_drop. cbn [length].
  destruct (decide (length l <= Z.to_nat d)%nat).
  - replace (length l - Z.to_nat d)%nat with 0%nat by lia. by rewrite Nat.sub_0_r, drop_0.
  - rewrite <- (drop_app_le l [m]) by lia. rewrite drop_drop. f_equal. lia.
Qed.

Lemma recorded_inv os h l :
  0 <= depth_ h → msgs_ h = last_n (depth_ h) l →
  let h' := foldl apply_op h os in
  let st := foldl recorded_step (enabled_ h, l) os in
  depth_ h' = depth_ h ∧ enabled_ h' = st.1 ∧ msgs_ h' = last_n (depth_ h) st.2.
Proof.
  revert h l. induction os as [|o os IH]; intros h l Hd Hm; [done|].
  change (foldl apply_op h (o :: os)) with (foldl apply_op (apply_op h o) os).
  change (foldl recorded_step (enabled_ h, l) (o :: os)) with
    (foldl recorded_step (recorded_step (enabled_ h, l) o) os).
  destruct o as [| | |m]; cbn [recorded_step apply_op fst snd].
  - apply (IH (Enable h) l Hd Hm).
  - apply (IH (Disable h) l Hd Hm).
  - apply (IH (Clear h) [] Hd). unfold last_n. by rewrite drop_nil.
  - unfold Add. destruct (enabled_ h) eqn:E.
    + apply (IH (mkHistory true (depth_ h) (max_depth_ h) _) (l ++ [m]) Hd).
      cbn. rewrite trim_last by done. by rewrite Hm, last_n_snoc.
    + rewrite <- E. by apply IH.
Qed.

(** What a late joiner is sent: through any sequence of [Add], [Enable],
    [Disable] and [Clear], the history holds the last [depth] messages of those
    added while it was enabled since the last [Clear], in the order they were
    added; [depth] never exceeds the configured limit, and keeping all means
    keeping that many. *)
Theorem history_window limit attr os :
  0 <= default 1000 limit → 0 <= depth attr →
  let h := foldl apply_op (History_new limit attr) os in
  let st := foldl recorded_step (false, []) os in
  msgs_ h = last_n (depth_ h) st.2 ∧ GetSize h <= depth_ h ∧
  depth_ h = (match history_policy attr with
              | HISTORY_KEEP_ALL => default 1000 limit
              | _ => Z.min (depth attr) (default 1000 limit)
              end).
Proof.
  intros Hl Hd h st.
  assert (depth_ (History_new limit attr) = (match history_policy attr with
              | HISTORY_KEEP_ALL => default 1000 limit
              | _ => Z.min (depth attr) (default 1000 limit) end)) as Hdepth.
  { unfold History_new. cbn [depth_]. destruct (history_policy attr); [|..|done];
      destruct (_ <? _) eqn:E; zbool; lia. }
  assert (0 <= depth_ (History_new limit attr)) as H0
    by (rewrite Hdepth; destruct (history_policy attr); lia).
  destruct (recorded_inv os (History_new limit attr) [] H0 eq_refl) as (Hdep & _ & Hm).
  fold h in Hdep, Hm. change (enabled_ (History_new limit attr)) with false in Hm. fold st in Hm.
  rewrite Hdep. split; [done|]. split; [|done].
  unfold GetSize. rewrite Hm. unfold last_n. rewrite length_drop. lia.
Qed.
End history.
Arguments History : clear implicits.
Arguments op : clear implicits.

Lemma history_window_witness :
  msgs_ (foldl apply_op (History_new None (mkHistoryAttributes HISTORY_KEEP_LAST 2))
    [OpAdd 1; OpEnable; OpAdd 2; OpAdd 3; OpAdd 4]) = [3; 4].
Proof.
  destruct (history_window (M := Z) None (mkHistoryAttributes HISTORY_KEEP_LAST 2)
    [OpAdd 1; OpEnable; OpAdd 2; OpAdd 3; OpAdd 4]) as (H & _ & _); [cbn; lia|cbn; lia|].
  exact H.
Defined.
