(* ===== verification/Graph.v ===== *)
(** * Graph (cyber/service_discovery/container/graph.h, graph.cc)

    The graph of nodes behind [GetFlowDirection]: an edge named by a channel
    runs from every node that writes the channel to every node that reads it.
    [edges_] keeps the writing and reading nodes of each channel, [list_] the
    adjacency lists, whose entries are keyed by channel and reader
    ([Edge::GetKey]).  A vertex is its name, so a [VerticeSet] that maps names
    to vertices is a set of names; the adjacency lists keep their keys.  The
    order in which an unordered_map is walked is the map's own here; the results
    proved do not depend on it. *)

From stdpp Require Import base numbers list gmap strings sets relations.
From Stdlib Require Import ZArith Lia Ascii.
From S2P Require Import Prelude.

Open Scope Z_scope.

Inductive FlowDirection := UNREACHABLE | UPSTREAM | DOWNSTREAM.

(** [Vertice]: its value, which is its key. *)
Abbreviation Vertice := string.
Definition IsDummy (v : Vertice) : bool := bool_decide (v = EmptyString).

Record Edge := mkEdge { src_ : Vertice; dst_ : Vertice; value_ : string }.

Definition IsValid (e : Edge) : bool :=
  negb (bool_decide (value_ e = EmptyString)) && negb (IsDummy (src_ e) && IsDummy (dst_ e)).

Definition edge_key (value dst : string) : string := (value +:+ "_" +:+ dst)%string.
Definition GetKey (e : Edge) : string := edge_key (value_ e) (dst_ e).

Record RelatedVertices := mkRelatedVertices { src : gset string; dst : gset string }.

Record Graph := mkGraph {
  edges_ : gmap string RelatedVertices;
  list_ : gmap string (gmap string Vertice)
}.

Definition Graph_new : Graph := mkGraph ∅ ∅.

(** [edges_[v]], which creates the entry when it is missing. *)
Definition related (g : Graph) (v : string) : RelatedVertices :=
  default (mkRelatedVertices ∅ ∅) (edges_ g !! v).

(** [InsertCompleteEdge(e)]. *)
Definition ensure (l : gmap string (gmap string Vertice)) (k : string)
  : gmap string (gmap string Vertice) :=
  match l !! k with Some _ => l | None => <[k := ∅]> l end.

Definition InsertCompleteEdge (l : gmap string (gmap string Vertice)) (e : Edge)
  : gmap string (gmap string Vertice) :=
  let l := ensure l (src_ e) in
  let l := ensure l (dst_ e) in
  <[src_ e := <[GetKey e := dst_ e]> (default ∅ (l !! src_ e))]> l.

(** [DeleteCompleteEdge(e)]. *)
Definition DeleteCompleteEdge (l : gmap string (gmap string Vertice)) (e : Edge)
  : gmap string (gmap string Vertice) :=
  <[src_ e := delete (GetKey e) (default ∅ (l !! src_ e))]> l.

(** [InsertOutgoingEdge(e)] and [InsertIncomingEdge(e)]. *)
Definition InsertOutgoingEdge (g : Graph) (e : Edge) : Graph :=
  let r := related g (value_ e) in
  if bool_decide (src_ e ∈ src r) then g
  else
    mkGraph (<[value_ e := mkRelatedVertices ({[src_ e]} ∪ src r) (dst r)]> (edges_ g))
      (foldr (λ d l, InsertCompleteEdge l (mkEdge (src_ e) d (value_ e))) (list_ g)
         (elements (dst r))).

Definition InsertIncomingEdge (g : Graph) (e : Edge) : Graph :=
  let r := related g (value_ e) in
  if bool_decide (dst_ e ∈ dst r) then g
  else
    mkGraph (<[value_ e := mkRelatedVertices (src r) ({[dst_ e]} ∪ dst r)]> (edges_ g))
      (foldr (λ s l, InsertCompleteEdge l (mkEdge s (dst_ e) (value_ e))) (list_ g)
         (elements (src r))).

(** [Insert(e)]. *)
Definition Insert (g : Graph) (e : Edge) : Graph :=
  if negb (IsValid e) then g
  else
    let g := match edges_ g !! value_ e with
             | Some _ => g
             | None => mkGraph (<[value_ e := mkRelatedVertices ∅ ∅]> (edges_ g)) (list_ g)
             end in
    let g := if negb (IsDummy (src_ e)) then InsertOutgoingEdge g e else g in
    if negb (IsDummy (dst_ e)) then InsertIncomingEdge g e else g.

(** [DeleteOutgoingEdge(e)] and [DeleteIncomingEdge(e)]. *)
Definition DeleteOutgoingEdge (g : Graph) (e : Edge) : Graph :=
  let r := related g (value_ e) in
  if negb (bool_decide (src_ e ∈ src r)) then g
  else
    mkGraph (<[value_ e := mkRelatedVertices (src r ∖ {[src_ e]}) (dst r)]> (edges_ g))
      (foldr (λ d l, DeleteCompleteEdge l (mkEdge (src_ e) d (value_ e))) (list_ g)
         (elements (dst r))).

Definition DeleteIncomingEdge (g : Graph) (e : Edge) : Graph :=
  let r := related g (value_ e) in
  if negb (bool_decide (dst_ e ∈ dst r)) then g
  else
    mkGraph (<[value_ e := mkRelatedVertices (src r) (dst r ∖ {[dst_ e]})]> (edges_ g))
      (foldr (λ s l, DeleteCompleteEdge l (mkEdge s (dst_ e) (value_ e))) (list_ g)
         (elements (src r))).

(** [Delete(e)]. *)
Definition Delete (g : Graph) (e : Edge) : Graph :=
  if negb (IsValid e) then g
  else
    match edges_ g !! value_ e with
    | None => g
    | Some _ =>
        let g := if negb (IsDummy (src_ e)) then DeleteOutgoingEdge g e else g in
        if negb (IsDummy (dst_ e)) then DeleteIncomingEdge g e else g
    end.

(** [GetNumOfEdge()]. *)
Definition num_edges (l : gmap string (gmap string Vertice)) : nat :=
  map_fold (λ _ vs n, (size vs + n)%nat) 0%nat l.
Definition GetNumOfEdge (g : Graph) : Z := u32 (Z.of_nat (num_edges (list_ g))).

(** The vertices after [v], in the order of its adjacency list. *)
Definition successors (l : gmap string (gmap string Vertice)) (v : Vertice) : list Vertice :=
  (map_to_list (default ∅ (l !! v))).*2.

(** The loop of [LevelTraverse(start, end)]: the visited keys and the queue;
    [None] is out of fuel. *)
Fixpoint traverse (fuel : nat) (l : gmap string (gmap string Vertice)) (end_ : Vertice)
    (visited : gset string) (unvisited : list Vertice) : option bool :=
  match unvisited with
  | [] => Some (bool_decide (end_ ∈ visited))
  | curr :: rest =>
      match fuel with
      | O => None
      | S fuel =>
          if bool_decide (curr ∈ visited) then traverse fuel l end_ visited rest
          else
            let visited := {[curr]} ∪ visited in
            if bool_decide (curr = end_) then Some (bool_decide (end_ ∈ visited))
            else traverse fuel l end_ visited (rest ++ successors l curr)
      end
  end.

(** Fuel for a traversal: one step per queue entry, of which there are at most
    one for the start and one per edge. *)
Definition LevelTraverse (g : Graph) (start end_ : Vertice) : option bool :=
  traverse (S (num_edges (list_ g))) (list_ g) end_ ∅ [start].

(** [GetDirectionOf(lhs, rhs)]. *)
Definition GetDirectionOf (g : Graph) (lhs rhs : Vertice) : option FlowDirection :=
  if IsDummy lhs || IsDummy rhs then Some UNREACHABLE
  else
    match list_ g !! lhs, list_ g !! rhs with
    | Some _, Some _ =>
        up ← LevelTraverse g lhs rhs;
        if up : bool then Some UPSTREAM
        else
          down ← LevelTraverse g rhs lhs;
          if down : bool then Some DOWNSTREAM else Some UNREACHABLE
    | _, _ => Some UNREACHABLE
    end.

(** ** The traversal decides reachability *)

Section traversal.
Context (l : gmap string (gmap string Vertice)).

(** One edge of the adjacency lists. *)
Definition adjacent (v w : Vertice) : Prop := w ∈ successors l v.

Lemma num_edges_delete m v (vs : gmap string Vertice) :
  m !! v = Some vs → num_edges m = (size vs + num_edges (delete v m))%nat.
Proof.
  intros Hv. unfold num_edges. rewrite (map_fold_delete_L _ 0%nat v vs m); [done| |done].
  intros. lia.
Qed.

Lemma length_successors v : length (successors l v) = size (default ∅ (l !! v)).
Proof. unfold successors. by rewrite length_fmap, length_map_to_list. Qed.

(** Edges still to be pushed: those of the vertices not visited. *)
Definition pending (visited : gset string) : nat :=
  num_edges (filter (λ kv, kv.1 ∉ visited) l).

Lemma pending_visit visited v :
  v ∉ visited → (pending ({[v]} ∪ visited) + length (successors l v) = pending visited)%nat.
Proof.
  intros Hv. unfold pending. rewrite length_successors.
  assert (filter (λ kv, kv.1 ∉ {[v]} ∪ visited) l = delete v (filter (λ kv, kv.1 ∉ visited) l)) as ->.
  { apply map_eq. intros k. apply option_eq. intros x.
    rewrite lookup_delete_Some, !map_lookup_filter_Some. cbn. set_solver. }
  destruct (l !! v) as [vs|] eqn:E; cbn.
  - rewrite (num_edges_delete (filter _ l) v vs); [lia|]. by apply map_lookup_filter_Some.
  - rewrite map_size_empty, Nat.add_0_r. f_equal. apply delete_id.
    apply map_lookup_filter_None. auto.
Qed.

Lemma traverse_terminates fuel end_ visited queue :
  (length queue + pending visited <= fuel)%nat →
  is_Some (traverse fuel l end_ visited queue).
Proof.
  revert visited queue. induction fuel as [|fuel IH]; intros visited queue Hf.
  - destruct queue; [by eexists|cbn in Hf; lia].
  - destruct queue as [|curr rest]; [by eexists|]. cbn [traverse]. cbn [length] in Hf.
    destruct (bool_decide (curr ∈ visited)) eqn:E; [apply IH; lia|].
    destruct (bool_decide (curr = end_)); [by eexists|]. apply IH.
    apply bool_decide_eq_false in E. rewrite length_app. pose proof (pending_visit visited curr E). lia.
Qed.

Lemma closed_reach (P : Vertice → Prop) v w :
  (∀ x y, P x → adjacent x y → P y) → rtc adjacent v w → P v → P w.
Proof. intros Hc. induction 1; eauto. Qed.

Lemma traverse_correct fuel start end_ visited queue b :
  (∀ v, v ∈ queue → rtc adjacent start v) →
  (∀ v, v ∈ visited → v ≠ end_ ∧ ∀ w, adjacent v w → w ∈ visited ∨ w ∈ queue) →
  (start ∈ visited ∨ start ∈ queue) →
  traverse fuel l end_ visited queue = Some b → b = true ↔ rtc adjacent start end_.
Proof.
  revert visited queue. induction fuel as [|fuel IH]; intros visited queue Hq Hv Hs Ht;
    destruct queue as [|curr rest]; cbn [traverse] in Ht; try done.
  1,2: simplify_eq; rewrite bool_decide_eq_true; split;
    [intros Hin; by destruct (Hv _ Hin)
    |intros Hr; apply (closed_reach (λ v, v ∈ visited) start end_); [|done|set_solver];
     intros x y Hx Hxy; destruct (Hv x Hx) as [_ Hn]; specialize (Hn y Hxy); set_solver].
  destruct (bool_decide (curr ∈ visited)) eqn:E.
  { apply bool_decide_eq_true in E. apply (IH visited rest); [set_solver| | |done].
    - intros v Hin. destruct (Hv v Hin) as [? Hn]. split; [done|].
      intros w Hw. specialize (Hn w Hw). set_solver.
    - set_solver. }
  apply bool_decide_eq_false in E. destruct (bool_decide (curr = end_)) eqn:Ee.
  { apply bool_decide_eq_true in Ee. subst. simplify_eq. rewrite bool_decide_eq_true.
    split; [intros _|set_solver]. apply Hq. set_solver. }
  apply bool_decide_eq_false in Ee.
  apply (IH ({[curr]} ∪ visited) (rest ++ successors l curr)); [| | |done].
  - intros v [Hin|Hin]%elem_of_app; [apply Hq; set_solver|].
    apply rtc_r with curr; [apply Hq; set_solver|done].
  - intros v [->%elem_of_singleton|Hin]%elem_of_union.
    + split; [done|]. intros w Hw. right. apply elem_of_app. by right.
    + destruct (Hv v Hin) as [? Hn]. split; [done|].
      intros w Hw. destruct (Hn w Hw) as [?|[->|?]%elem_of_cons]; set_solver.
  - set_solver.
Qed.

Lemma pending_empty : pending ∅ = num_edges l.
Proof.
  unfold pending. f_equal. apply map_filter_id. intros k x _. cbn. set_solver.
Qed.
End traversal.

Lemma LevelTraverse_reach g start end_ :
  ∃ b, LevelTraverse g start end_ = Some b ∧ (b = true ↔ rtc (adjacent (list_ g)) start end_).
Proof.
  unfold LevelTraverse.
  destruct (traverse_terminates (list_ g) (S (num_edges (list_ g))) end_ ∅ [start]) as [b Hb].
  { cbn [length]. rewrite pending_empty. lia. }
  exists b. split; [done|]. apply (traverse_correct (list_ g) _ start end_ ∅ [start] b) in Hb; [done|..].
  - intros v ->%list_elem_of_singleton. apply rtc_refl.
  - set_solver.
  - set_solver.
Qed.

(** ** Edge keys *)

(** A name with no underscore. *)
Definition clean (s : string) : Prop := "_"%char ∉ String.list_ascii_of_string s.

#[global] Instance clean_dec s : Decision (clean s).
Proof. unfold clean. apply _. Defined.

Lemma list_ascii_append s1 s2 :
  String.list_ascii_of_string (s1 +:+ s2)
  = String.list_ascii_of_string s1 ++ String.list_ascii_of_string s2.
Proof.
  induction s1 as [|c s1 IH]; [done|].
  change (String c s1 +:+ s2) with (String c (s1 +:+ s2)). cbn. f_equal. apply IH.
Qed.

Lemma list_ascii_inj s1 s2 :
  String.list_ascii_of_string s1 = String.list_ascii_of_string s2 → s1 = s2.
Proof.
  intros H. rewrite <- (String.string_of_list_ascii_of_string s1), H.
  apply String.string_of_list_ascii_of_string.
Qed.

Lemma app_pivot_inj {A} (u : A) l1 l2 d1 d2 :
  u ∉ d1 → u ∉ d2 → l1 ++ u :: d1 = l2 ++ u :: d2 → l1 = l2 ∧ d1 = d2.
Proof.
  intros H1 H2. revert l2. induction l1 as [|a l1 IH]; intros [|b l2] He; cbn in He; simplify_eq.
  - done.
  - set_solver.
  - set_solver.
  - destruct (IH l2) as [-> ->]; done.
Qed.

Lemma edge_key_inj c d c' d' :
  clean d → clean d' → edge_key c d = edge_key c' d' → c = c' ∧ d = d'.
Proof.
  intros Hd Hd' He. apply (f_equal String.list_ascii_of_string) in He. unfold edge_key in He.
  rewrite !list_ascii_append in He. cbn in He. apply app_pivot_inj in He as [Hc Hdd]; [|done..].
  split; by apply list_ascii_inj.
Qed.

Lemma edge_key_inj_dst c d d' : edge_key c d = edge_key c d' → d = d'.
Proof.
  intros He. apply (f_equal String.list_ascii_of_string) in He. unfold edge_key in He.
  rewrite !list_ascii_append in He. apply app_inv_head in He. cbn in He.
  apply list_ascii_inj. by simplify_eq.
Qed.

(** ** The adjacency lists join writers and readers *)

Definition succ (l : gmap string (gmap string Vertice)) (x k : string) : option Vertice :=
  vs ← l !! x; vs !! k.

Lemma adjacent_succ l v w : adjacent l v w ↔ ∃ k, succ l v k = Some w.
Proof.
  unfold adjacent, successors, succ. rewrite list_elem_of_fmap. split.
  - intros ([k w'] & -> & Hk%elem_of_map_to_list). exists k. revert Hk.
    destruct (l !! v); cbn; [done|by rewrite lookup_empty].
  - intros (k & Hk). exists (k, w). split; [done|]. apply elem_of_map_to_list. revert Hk.
    by destruct (l !! v).
Qed.

Lemma succ_ensure l y x k : succ (ensure l y) x k = succ l x k.
Proof.
  unfold ensure, succ. destruct (l !! y) eqn:E; [done|].
  destruct (decide (x = y)) as [->|]; [|by rewrite lookup_insert_ne].
  rewrite lookup_insert_eq, E. cbn. apply lookup_empty.
Qed.

Lemma succ_InsertCompleteEdge l e x k :
  succ (InsertCompleteEdge l e) x k =
  if bool_decide (x = src_ e ∧ k = GetKey e) then Some (dst_ e) else succ l x k.
Proof.
  unfold InsertCompleteEdge.
  assert (succ l x k = succ (ensure (ensure l (src_ e)) (dst_ e)) x k) as -> by (by rewrite !succ_ensure).
  set (l' := ensure _ _). unfold succ at 1. destruct (decide (x = src_ e)) as [->|].
  - rewrite lookup_insert_eq. cbn. destruct (decide (k = GetKey e)) as [->|].
    + rewrite lookup_insert_eq, bool_decide_true by done. done.
    + rewrite lookup_insert_ne, bool_decide_false by naive_solver.
      unfold succ. destruct (l' !! src_ e); cbn; [done|apply lookup_empty].
  - rewrite lookup_insert_ne, bool_decide_false by naive_solver. done.
Qed.

Lemma succ_DeleteCompleteEdge l e x k :
  succ (DeleteCompleteEdge l e) x k =
  if bool_decide (x = src_ e ∧ k = GetKey e) then None else succ l x k.
Proof.
  unfold DeleteCompleteEdge, succ. destruct (decide (x = src_ e)) as [->|].
  - rewrite lookup_insert_eq. cbn. destruct (decide (k = GetKey e)) as [->|].
    + rewrite lookup_delete_eq, bool_decide_true by done. done.
    + rewrite lookup_delete_ne, bool_decide_false by naive_solver.
      destruct (l !! src_ e); cbn; [done|apply lookup_empty].
  - rewrite lookup_insert_ne, bool_decide_false by naive_solver. done.
Qed.

(** Edges [es], all of channel [c], inserted one after the other. *)
Lemma succ_insert_all c es l x k d :
  (∀ e, e ∈ es → value_ e = c) →
  succ (foldr (λ e l, InsertCompleteEdge l e) l es) x k = Some d ↔
  (∃ e, e ∈ es ∧ x = src_ e ∧ k = GetKey e ∧ d = dst_ e) ∨
  ((¬ ∃ e, e ∈ es ∧ x = src_ e ∧ k = GetKey e) ∧ succ l x k = Some d).
Proof.
  induction es as [|e es IH]; intros Hc; cbn [foldr].
  { split; [intros; right; set_solver|intros [(? & ? & _)|[_ ?]]; [set_solver|done]]. }
  rewrite succ_InsertCompleteEdge. case_bool_decide as Hx.
  - destruct Hx as [-> ->]. split.
    + intros [= <-]. left. exists e. set_solver.
    + intros [(e' & He' & Hs & Hk & ->)|[Hn _]]; [|destruct Hn; exists e; set_solver].
      f_equal. unfold GetKey in Hk. rewrite !(Hc _) in Hk by set_solver.
      by apply edge_key_inj_dst in Hk.
  - rewrite IH by set_solver. split.
    + intros [(e' & ? & ?)|[Hn ?]]; [left; exists e'; set_solver|right].
      split; [|done]. intros (e' & [->|?]%elem_of_cons & ?); naive_solver.
    + intros [(e' & [->|?]%elem_of_cons & ? & ? & ?)|[Hn ?]].
      * naive_solver.
      * left. eauto 10.
      * right. split; [|done]. intros (e' & ? & ?). apply Hn. exists e'. set_solver.
Qed.

Lemma succ_delete_all es l x k d :
  succ (foldr (λ e l, DeleteCompleteEdge l e) l es) x k = Some d ↔
  (¬ ∃ e, e ∈ es ∧ x = src_ e ∧ k = GetKey e) ∧ succ l x k = Some d.
Proof.
  induction es as [|e es IH]; cbn [foldr]; [set_solver|].
  rewrite succ_DeleteCompleteEdge. case_bool_decide as Hx.
  - split; [done|]. intros [Hn _]. destruct Hn. exists e. destruct Hx. set_solver.
  - rewrite IH. split; intros [Hn ?]; split; try done.
    + intros (e' & [->|?]%elem_of_cons & ?); naive_solver.
    + intros (e' & ? & ?). apply Hn. exists e'. set_solver.
Qed.

Lemma dom_insert_all es l :
  dom l ⊆ dom (foldr (λ e l, InsertCompleteEdge l e) l es) ∧
  ∀ e, e ∈ es → src_ e ∈ dom (foldr (λ e l, InsertCompleteEdge l e) l es) ∧
    dst_ e ∈ dom (foldr (λ e l, InsertCompleteEdge l e) l es).
Proof.
  induction es as [|e es [IH1 IH2]]; cbn [foldr]; [set_solver|].
  set (l' := foldr _ l es) in *.
  assert (∀ m y, dom (ensure m y) = {[y]} ∪ dom m) as Hens.
  { intros m y. unfold ensure. destruct (m !! y) eqn:E; [|by rewrite dom_insert_L].
    apply elem_of_dom_2 in E. set_solver. }
  assert (dom (InsertCompleteEdge l' e) = {[src_ e; dst_ e]} ∪ dom l') as Hd.
  { unfold InsertCompleteEdge. rewrite dom_insert_L, !Hens. set_solver. }
  rewrite Hd. split; [set_solver|]. intros e' [->|He']%elem_of_cons; [set_solver|].
  specialize (IH2 e' He'). set_solver.
Qed.

Lemma dom_delete_all es l : dom l ⊆ dom (foldr (λ e l, DeleteCompleteEdge l e) l es).
Proof.
  induction es as [|e es IH]; cbn [foldr]; [done|].
  unfold DeleteCompleteEdge. rewrite dom_insert_L. set_solver.
Qed.

Lemma foldr_map_edges {A B} (f : A → B) (h : B → gmap string (gmap string Vertice) → gmap string (gmap string Vertice)) l xs :
  foldr (λ a l, h (f a) l) l xs = foldr h l (map f xs).
Proof. induction xs as [|x xs IH]; [done|]. cbn. by rewrite IH. Qed.

(** Writers and readers of each channel, and nodes joined by a channel. *)
Definition writes (g : Graph) (c v : string) : Prop := v ∈ src (related g c).
Definition reads (g : Graph) (c v : string) : Prop := v ∈ dst (related g c).
Definition flows (g : Graph) (v w : string) : Prop := ∃ c, writes g c v ∧ reads g c w.

Record graph_inv (g : Graph) : Prop := {
  gi_succ : ∀ x k d, succ (list_ g) x k = Some d ↔
    ∃ c, writes g c x ∧ reads g c d ∧ k = edge_key c d;
  gi_dom : ∀ c x d, writes g c x → reads g c d → x ∈ dom (list_ g) ∧ d ∈ dom (list_ g);
  gi_clean : ∀ c d, reads g c d → clean d
}.

Lemma related_insert (E : gmap string RelatedVertices) L c r c' :
  related (mkGraph (<[c := r]> E) L) c' =
  if decide (c = c') then r else related (mkGraph E L) c'.
Proof.
  unfold related. cbn. case_decide as H; [subst; by rewrite lookup_insert_eq|].
  by rewrite lookup_insert_ne.
Qed.

Lemma graph_inv_new : graph_inv Graph_new.
Proof.
  split; cbn.
  - intros x k d. unfold succ. rewrite lookup_empty. split; [done|].
    intros (c & Hw & _). unfold writes, related in Hw. cbn in Hw. rewrite lookup_empty in Hw.
    cbn in Hw. set_solver.
  - intros c x d Hw. unfold writes, related in Hw. cbn in Hw. rewrite lookup_empty in Hw.
    cbn in Hw. set_solver.
  - intros c d Hr. unfold reads, related in Hr. cbn in Hr. rewrite lookup_empty in Hr.
    cbn in Hr. set_solver.
Qed.

(** Adding the edges [es] of channel [c], which are exactly the pairs new in
    [r']. *)
Lemma graph_inv_insert g c es r' :
  graph_inv g →
  (∀ e, e ∈ es → value_ e = c) →
  (∀ d, d ∈ dst r' → clean d) →
  (∀ x d, (x ∈ src r' ∧ d ∈ dst r') ↔
    (writes g c x ∧ reads g c d) ∨ ∃ e, e ∈ es ∧ src_ e = x ∧ dst_ e = d) →
  graph_inv (mkGraph (<[c := r']> (edges_ g)) (foldr (λ e l, InsertCompleteEdge l e) (list_ g) es)).
Proof.
  intros [] Hv Hcl Hpairs. set (g' := mkGraph _ _).
  assert (∀ c' x d, (writes g' c' x ∧ reads g' c' d) ↔
    if decide (c = c') then x ∈ src r' ∧ d ∈ dst r' else writes g c' x ∧ reads g c' d) as Hrel.
  { intros c' x d. unfold writes, reads, g'. rewrite related_insert. by case_decide. }
  destruct (dom_insert_all es (list_ g)) as [Hd1 Hd2].
  assert (∀ c' d, reads g' c' d → clean d) as Hclean.
  { intros c' d. unfold reads, g'. rewrite related_insert. case_decide; [by apply Hcl|apply gi_clean0]. }
  split; [|intros c' x d Hw Hr; specialize (proj1 (Hrel c' x d) (conj Hw Hr)); case_decide|done]; cbn [list_ g'].
  - intros x k d. rewrite (succ_insert_all c es) by done. rewrite gi_succ0. split.
    + intros [(e & He & -> & -> & ->)|[_ (c' & Hw & Hr & ->)]].
      * exists c. assert (writes g' c (src_ e) ∧ reads g' c (dst_ e)) as [? ?].
        { apply Hrel. rewrite decide_True by done. apply Hpairs. right. eauto. }
        unfold GetKey. by rewrite (Hv e He).
      * exists c'. assert (writes g' c' x ∧ reads g' c' d) as [? ?]; [|done].
        apply Hrel. case_decide as Hc; [subst; apply Hpairs; by left|done].
    + intros (c' & Hw & Hr & ->).
      pose proof (proj1 (Hrel c' x d) (conj Hw Hr)) as Hp.
      destruct (decide (Exists (λ e, x = src_ e ∧ edge_key c' d = GetKey e) es)) as [Hex|Hnex].
      * left. apply Exists_exists in Hex as (e & He & Hx & Hk). exists e.
        repeat (split; [done|]). unfold GetKey in Hk. rewrite (Hv e He) in Hk.
        assert (clean (dst_ e)) by (apply Hcl, (Hpairs (src_ e) (dst_ e)); right; eauto).
        destruct (edge_key_inj c' d c (dst_ e)); [by eapply Hclean|done|done|done].
      * right. split.
        { intros (e & He & Hx & Hk). apply Hnex, Exists_exists. eauto. }
        exists c'. case_decide as Hc; [|naive_solver].
        subst c'. apply Hpairs in Hp as [[? ?]|(e & He & <- & <-)]; [done|].
        exfalso. apply Hnex, Exists_exists. exists e. split; [done|]. split; [done|].
        unfold GetKey. by rewrite (Hv e He).
  - intros [[? ?]|(e & He & <- & <-)]%Hpairs; [|by apply Hd2].
    destruct (gi_dom0 c x d); set_solver.
  - intros [? ?]. destruct (gi_dom0 c' x d); set_solver.
Qed.

(** Removing the edges [es] of channel [c], which are exactly the pairs no
    longer in [r']. *)
Lemma graph_inv_delete g c es r' :
  graph_inv g →
  (∀ e, e ∈ es → value_ e = c ∧ reads g c (dst_ e)) →
  dst r' ⊆ dst (related g c) →
  (∀ x d, (x ∈ src r' ∧ d ∈ dst r') ↔
    (writes g c x ∧ reads g c d) ∧ ¬ ∃ e, e ∈ es ∧ src_ e = x ∧ dst_ e = d) →
  graph_inv (mkGraph (<[c := r']> (edges_ g)) (foldr (λ e l, DeleteCompleteEdge l e) (list_ g) es)).
Proof.
  intros [] Hv Hsub Hpairs. set (g' := mkGraph _ _).
  assert (∀ c' x d, (writes g' c' x ∧ reads g' c' d) ↔
    if decide (c = c') then x ∈ src r' ∧ d ∈ dst r' else writes g c' x ∧ reads g c' d) as Hrel.
  { intros c' x d. unfold writes, reads, g'. rewrite related_insert. by case_decide. }
  assert (∀ c' x d, writes g' c' x → reads g' c' d → writes g c' x ∧ reads g c' d) as Hold.
  { intros c' x d Hw Hr. pose proof (proj1 (Hrel c' x d) (conj Hw Hr)) as Hp.
    case_decide; [subst; by apply Hpairs|done]. }
  pose proof (dom_delete_all es (list_ g)) as Hdom.
  split; cbn [list_ g'].
  - intros x k d. rewrite succ_delete_all, gi_succ0. split.
    + intros [Hn (c' & Hw & Hr & ->)]. exists c'.
      assert (writes g' c' x ∧ reads g' c' d) as [? ?]; [|done].
      apply Hrel. case_decide as Hc; [|done]. subst c'. apply Hpairs. split; [done|].
      intros (e & He & <- & <-). apply Hn. exists e. split; [done|]. split; [done|].
      unfold GetKey. by rewrite (proj1 (Hv e He)).
    + intros (c' & Hw & Hr & ->). destruct (Hold c' x d Hw Hr) as [Hw0 Hr0].
      split; [|eauto]. intros (e & He & -> & Hk). unfold GetKey in Hk.
      destruct (Hv e He) as [Hve Hre]. rewrite Hve in Hk.
      destruct (edge_key_inj c' d c (dst_ e)) as [-> ->]; [by eapply gi_clean0|by eapply gi_clean0|done|].
      pose proof (proj1 (Hrel c (src_ e) (dst_ e)) (conj Hw Hr)) as Hp. rewrite decide_True in Hp by done.
      apply Hpairs in Hp as [_ Hn]. apply Hn. eauto.
  - intros c' x d Hw Hr. destruct (Hold c' x d Hw Hr). destruct (gi_dom0 c' x d); set_solver.
  - intros c' d. unfold reads, g'. rewrite related_insert. case_decide; [|apply gi_clean0].
    subst. intros Hd. apply (gi_clean0 c'). unfold reads. set_solver.
Qed.

(** ** Operations *)

Lemma related_eta g c r L : related (mkGraph (<[c := r]> (edges_ g)) L) c = r.
Proof. rewrite related_insert. by rewrite decide_True. Qed.

Lemma related_other g c r L c' :
  c ≠ c' → related (mkGraph (<[c := r]> (edges_ g)) L) c' = related g c'.
Proof. intros H. rewrite related_insert. by rewrite decide_False. Qed.

Ltac graph_relations :=
  intros c' x; unfold writes, reads;
  match goal with |- context [related (mkGraph (<[?c := ?r]> _) _) c'] =>
    destruct (decide (c = c')) as [<-|]; [rewrite related_eta|rewrite related_other by done]
  end; cbn; set_solver.

Lemma InsertOutgoingEdge_inv g e :
  graph_inv g →
  graph_inv (InsertOutgoingEdge g e) ∧
  (∀ c x, writes (InsertOutgoingEdge g e) c x ↔ writes g c x ∨ (c = value_ e ∧ x = src_ e)) ∧
  (∀ c x, reads (InsertOutgoingEdge g e) c x ↔ reads g c x).
Proof.
  intros Hg. unfold InsertOutgoingEdge. case_bool_decide as Hin.
  { split; [done|]. split; [|done]. intros c x. split; [by left|].
    intros [?|[-> ->]]; [done|exact Hin]. }
  split; [|split]; [|graph_relations..].
  rewrite (foldr_map_edges (λ d, mkEdge (src_ e) d (value_ e)) (λ e l, InsertCompleteEdge l e)).
  apply graph_inv_insert; [done|..].
  - intros e' (d & -> & _)%list_elem_of_fmap. done.
  - intros d Hd. apply (gi_clean _ Hg (value_ e)), Hd.
  - intros x d. cbn. unfold writes, reads. rewrite elem_of_union, elem_of_singleton. split.
    + intros [[->|?] ?]; [right|by left]. exists (mkEdge (src_ e) d (value_ e)).
      split; [|done]. apply list_elem_of_fmap. exists d. split; [done|]. by apply elem_of_elements.
    + intros [[? ?]|(e' & (d' & -> & Hd%elem_of_elements)%list_elem_of_fmap & <- & <-)]; cbn; auto.
Qed.

Lemma InsertIncomingEdge_inv g e :
  graph_inv g → clean (dst_ e) →
  graph_inv (InsertIncomingEdge g e) ∧
  (∀ c x, writes (InsertIncomingEdge g e) c x ↔ writes g c x) ∧
  (∀ c x, reads (InsertIncomingEdge g e) c x ↔ reads g c x ∨ (c = value_ e ∧ x = dst_ e)).
Proof.
  intros Hg Hcl. unfold InsertIncomingEdge. case_bool_decide as Hin.
  { split; [done|]. split; [done|]. intros c x. split; [by left|].
    intros [?|[-> ->]]; [done|exact Hin]. }
  split; [|split]; [|graph_relations..].
  rewrite (foldr_map_edges (λ s, mkEdge s (dst_ e) (value_ e)) (λ e l, InsertCompleteEdge l e)).
  apply graph_inv_insert; [done|..].
  - intros e' (d & -> & _)%list_elem_of_fmap. done.
  - cbn. intros d [->%elem_of_singleton|Hd]%elem_of_union; [done|]. by apply (gi_clean _ Hg (value_ e)).
  - intros x d. cbn. unfold writes, reads. rewrite elem_of_union, elem_of_singleton. split.
    + intros [? [->|?]]; [right|by left]. exists (mkEdge x (dst_ e) (value_ e)).
      split; [|done]. apply list_elem_of_fmap. exists x. split; [done|]. by apply elem_of_elements.
    + intros [[? ?]|(e' & (d' & -> & Hd%elem_of_elements)%list_elem_of_fmap & <- & <-)]; cbn; auto.
Qed.

Lemma DeleteOutgoingEdge_inv g e :
  graph_inv g →
  graph_inv (DeleteOutgoingEdge g e) ∧
  (∀ c x, writes (DeleteOutgoingEdge g e) c x ↔ writes g c x ∧ ¬ (c = value_ e ∧ x = src_ e)) ∧
  (∀ c x, reads (DeleteOutgoingEdge g e) c x ↔ reads g c x).
Proof.
  intros Hg. unfold DeleteOutgoingEdge. case_bool_decide as Hin; cbn [negb].
  2:{ split; [done|]. split; [|done]. intros c x. split; [|by intros [? _]].
      intros Hw. split; [done|]. intros [-> ->]. by apply Hin. }
  split; [|split]; [|graph_relations..].
  rewrite (foldr_map_edges (λ d, mkEdge (src_ e) d (value_ e)) (λ e l, DeleteCompleteEdge l e)).
  apply graph_inv_delete; [done|..].
  - intros e' (d & -> & Hd%elem_of_elements)%list_elem_of_fmap. done.
  - done.
  - intros x d. cbn. unfold writes, reads. rewrite elem_of_difference, elem_of_singleton. split.
    + intros [[? Hne] ?]. split; [done|].
      intros (e' & (d' & -> & Hd)%list_elem_of_fmap & <- & <-). done.
    + intros [[? ?] Hn]. split; [|done]. split; [done|]. intros ->. apply Hn.
      exists (mkEdge (src_ e) d (value_ e)). split; [|done].
      apply list_elem_of_fmap. exists d. split; [done|]. by apply elem_of_elements.
Qed.

Lemma DeleteIncomingEdge_inv g e :
  graph_inv g →
  graph_inv (DeleteIncomingEdge g e) ∧
  (∀ c x, writes (DeleteIncomingEdge g e) c x ↔ writes g c x) ∧
  (∀ c x, reads (DeleteIncomingEdge g e) c x ↔ reads g c x ∧ ¬ (c = value_ e ∧ x = dst_ e)).
Proof.
  intros Hg. unfold DeleteIncomingEdge. case_bool_decide as Hin; cbn [negb].
  2:{ split; [done|]. split; [done|]. intros c x. split; [|by intros [? _]].
      intros Hr. split; [done|]. intros [-> ->]. by apply Hin. }
  split; [|split]; [|graph_relations..].
  rewrite (foldr_map_edges (λ s, mkEdge s (dst_ e) (value_ e)) (λ e l, DeleteCompleteEdge l e)).
  apply graph_inv_delete; [done|..].
  - intros e' (d & -> & Hd%elem_of_elements)%list_elem_of_fmap. done.
  - cbn. set_solver.
  - intros x d. cbn. unfold writes, reads. rewrite elem_of_difference, elem_of_singleton. split.
    + intros [? [? Hne]]. split; [done|].
      intros (e' & (d' & -> & Hd)%list_elem_of_fmap & <- & <-). done.
    + intros [[? ?] Hn]. split; [done|]. split; [done|]. intros ->. apply Hn.
      exists (mkEdge x (dst_ e) (value_ e)). split; [|done].
      apply list_elem_of_fmap. exists x. split; [done|]. by apply elem_of_elements.
Qed.

(** ** What the graph is for *)

(** The (channel, node) pairs writing and reading. *)
Record Roles := mkRoles { writers : gset (string * string); readers : gset (string * string) }.

Inductive graph_op := OpInsert (e : Edge) | OpDelete (e : Edge).

Definition half (v c : string) : gset (string * string) :=
  if IsDummy v then ∅ else {[(c, v)]}.

Definition roles_op (r : Roles) (o : graph_op) : Roles :=
  match o with
  | OpInsert e =>
      if IsValid e
      then mkRoles (half (src_ e) (value_ e) ∪ writers r) (half (dst_ e) (value_ e) ∪ readers r)
      else r
  | OpDelete e =>
      if IsValid e
      then mkRoles (writers r ∖ half (src_ e) (value_ e)) (readers r ∖ half (dst_ e) (value_ e))
      else r
  end.

Definition graph_do (g : Graph) (o : graph_op) : Graph :=
  match o with OpInsert e => Insert g e | OpDelete e => Delete g e end.

Definition op_clean (o : graph_op) : Prop :=
  match o with OpInsert e | OpDelete e => clean (dst_ e) end.

#[global] Instance op_clean_dec o : Decision (op_clean o).
Proof. destruct o; apply clean_dec. Defined.

(** Some channel runs from [v] to [w]. *)
Definition feeds (r : Roles) (v w : string) : Prop :=
  ∃ c, (c, v) ∈ writers r ∧ (c, w) ∈ readers r.

Record agrees (g : Graph) (r : Roles) : Prop := {
  ag_inv : graph_inv g;
  ag_writes : ∀ c x, writes g c x ↔ (c, x) ∈ writers r;
  ag_reads : ∀ c x, reads g c x ↔ (c, x) ∈ readers r
}.

Lemma agrees_new : agrees Graph_new (mkRoles ∅ ∅).
Proof.
  split; [apply graph_inv_new|..]; intros c x; unfold writes, reads, related; cbn;
    rewrite lookup_empty; cbn; set_solver.
Qed.

(** The entry [Insert] makes for a new channel changes nothing. *)
Lemma agrees_channel g r c :
  agrees g r → edges_ g !! c = None →
  agrees (mkGraph (<[c := mkRelatedVertices ∅ ∅]> (edges_ g)) (list_ g)) r.
Proof.
  intros [[Hs Hd Hc] Hw Hr] Hnone.
  assert (∀ c', related (mkGraph (<[c := mkRelatedVertices ∅ ∅]> (edges_ g)) (list_ g)) c' = related g c') as Hrel.
  { intros c'. rewrite related_insert. case_decide; [subst|by destruct g].
    unfold related. by rewrite Hnone. }
  split; [split|..]; unfold writes, reads in *; cbn [list_];
    setoid_rewrite Hrel; auto.
Qed.

Lemma agrees_out g r e :
  agrees g r →
  agrees (if negb (IsDummy (src_ e)) then InsertOutgoingEdge g e else g)
    (mkRoles (half (src_ e) (value_ e) ∪ writers r) (readers r)).
Proof.
  intros [Hi Hw Hr]. unfold half. destruct (IsDummy (src_ e)); cbn [negb].
  - split; [done|..]; intros c x; cbn; rewrite ?Hw, ?Hr; set_solver.
  - destruct (InsertOutgoingEdge_inv g e Hi) as (? & Hw' & Hr').
    split; [done|..]; intros c x; cbn; rewrite ?Hw', ?Hr', ?Hw, ?Hr; set_solver.
Qed.

Lemma agrees_in g r e :
  agrees g r → clean (dst_ e) →
  agrees (if negb (IsDummy (dst_ e)) then InsertIncomingEdge g e else g)
    (mkRoles (writers r) (half (dst_ e) (value_ e) ∪ readers r)).
Proof.
  intros [Hi Hw Hr] Hc. unfold half. destruct (IsDummy (dst_ e)); cbn [negb].
  - split; [done|..]; intros c x; cbn; rewrite ?Hw, ?Hr; set_solver.
  - destruct (InsertIncomingEdge_inv g e Hi Hc) as (? & Hw' & Hr').
    split; [done|..]; intros c x; cbn; rewrite ?Hw', ?Hr', ?Hw, ?Hr; set_solver.
Qed.

Lemma agrees_del_out g r e :
  agrees g r →
  agrees (if negb (IsDummy (src_ e)) then DeleteOutgoingEdge g e else g)
    (mkRoles (writers r ∖ half (src_ e) (value_ e)) (readers r)).
Proof.
  intros [Hi Hw Hr]. unfold half. destruct (IsDummy (src_ e)); cbn [negb].
  - split; [done|..]; intros c x; cbn; rewrite ?Hw, ?Hr; set_solver.
  - destruct (DeleteOutgoingEdge_inv g e Hi) as (? & Hw' & Hr').
    split; [done|..]; intros c x; cbn; rewrite ?Hw', ?Hr', ?Hw, ?Hr; set_solver.
Qed.

Lemma agrees_del_in g r e :
  agrees g r →
  agrees (if negb (IsDummy (dst_ e)) then DeleteIncomingEdge g e else g)
    (mkRoles (writers r) (readers r ∖ half (dst_ e) (value_ e))).
Proof.
  intros [Hi Hw Hr]. unfold half. destruct (IsDummy (dst_ e)); cbn [negb].
  - split; [done|..]; intros c x; cbn; rewrite ?Hw, ?Hr; set_solver.
  - destruct (DeleteIncomingEdge_inv g e Hi) as (? & Hw' & Hr').
    split; [done|..]; intros c x; cbn; rewrite ?Hw', ?Hr', ?Hw, ?Hr; set_solver.
Qed.

(** A channel [edges_] does not know has no writers or readers. *)
Lemma agrees_unknown g r c : agrees g r → edges_ g !! c = None →
  (∀ x, (c, x) ∉ writers r) ∧ (∀ x, (c, x) ∉ readers r).
Proof.
  intros [Hi Hw Hr] Hn. split; intros x; rewrite <- ?Hw, <- ?Hr; unfold writes, reads, related;
    rewrite Hn; cbn; set_solver.
Qed.

Lemma agrees_op g r o : agrees g r → op_clean o → agrees (graph_do g o) (roles_op r o).
Proof.
  intros Hag Hcl. destruct o as [e|e]; cbn in *.
  - unfold Insert. destruct (IsValid e); [|done]. cbn [negb].
    set (g1 := match edges_ g !! value_ e with Some _ => g | None => _ end).
    assert (agrees g1 r) as Hg1
      by (subst g1; destruct (edges_ g !! value_ e) eqn:E; [done|by apply agrees_channel]).
    exact (agrees_in _ _ e (agrees_out g1 r e Hg1) Hcl).
  - unfold Delete. destruct (IsValid e); [|done]. cbn [negb].
    destruct (edges_ g !! value_ e) eqn:E.
    + exact (agrees_del_in _ _ e (agrees_del_out g r e Hag)).
    + destruct (agrees_unknown g r _ Hag E) as [Hw Hr]. destruct Hag as [Hi Hw0 Hr0].
      split; [done|..]; intros c x; cbn; rewrite ?Hw0, ?Hr0; unfold half; case_match; set_solver.
Qed.

Lemma agrees_run os g r :
  agrees g r → Forall op_clean os → agrees (foldl graph_do g os) (foldl roles_op r os).
Proof.
  revert g r. induction os as [|o os IH]; intros g r Hag Hcl; [done|].
  apply Forall_cons in Hcl as [? ?]. apply (IH (graph_do g o)); [by apply agrees_op|done].
Qed.

Lemma agrees_adjacent g r v w : agrees g r → adjacent (list_ g) v w ↔ feeds r v w.
Proof.
  intros [[Hs Hd Hc] Hw Hr]. rewrite adjacent_succ. split.
  - intros (k & (c & Hcw & Hcr & _)%Hs). exists c. by rewrite <- Hw, <- Hr.
  - intros (c & Hcw & Hcr). exists (edge_key c w). apply Hs. exists c. by rewrite Hw, Hr.
Qed.

Lemma agrees_reach g r v w : agrees g r → rtc (adjacent (list_ g)) v w ↔ rtc (feeds r) v w.
Proof.
  intros Hag. split; induction 1; try apply rtc_refl; (eapply rtc_l; [|done]);
    by apply (agrees_adjacent g r).
Qed.

(** A node that feeds or is fed is in the adjacency lists. *)
Lemma agrees_known g r v w :
  agrees g r → v ≠ w → rtc (feeds r) v w → is_Some (list_ g !! v) ∧ is_Some (list_ g !! w).
Proof.
  intros [[Hs Hd Hc] Hw Hr] Hne Hrtc. rewrite <- !elem_of_dom. split.
  - inversion Hrtc as [|? y ? (c & Hcw & Hcr) _]; [congruence|].
    apply (Hd c v y); [by apply Hw|by apply Hr].
  - apply rtc_inv_r in Hrtc as [?|(y & _ & c & Hcw & Hcr)]; [congruence|].
    apply (Hd c y w); [by apply Hw|by apply Hr].
Qed.

(** [C40] [GetDirectionOf] answers, and answers right: after any sequence of
    writers and readers joining and leaving, for two different nodes it reports
    UPSTREAM exactly when data flows from the first to the second through some
    chain of channels, DOWNSTREAM exactly when it flows only the other way, and
    UNREACHABLE when neither; provided no reading node's name has an
    underscore. *)
Theorem direction_of_flow os lhs rhs :
  Forall op_clean os → lhs ≠ EmptyString → rhs ≠ EmptyString → lhs ≠ rhs →
  let g := foldl graph_do Graph_new os in
  let r := foldl roles_op (mkRoles ∅ ∅) os in
  ∃ d, GetDirectionOf g lhs rhs = Some d ∧
    (d = UPSTREAM ↔ rtc (feeds r) lhs rhs) ∧
    (d = DOWNSTREAM ↔ ¬ rtc (feeds r) lhs rhs ∧ rtc (feeds r) rhs lhs).
Proof.
  intros Hcl Hl Hr Hne g r. pose proof (agrees_run os _ _ agrees_new Hcl) as Hag.
  fold g r in Hag. unfold GetDirectionOf, IsDummy. rewrite !bool_decide_false by done. cbn [orb].
  pose proof (agrees_known g r lhs rhs Hag Hne) as Hk1.
  pose proof (agrees_known g r rhs lhs Hag (not_eq_sym Hne)) as Hk2.
  destruct (list_ g !! lhs) eqn:E1, (list_ g !! rhs) eqn:E2.
  2,3,4: assert (¬ rtc (feeds r) lhs rhs) by (intros Hrt; destruct (Hk1 Hrt) as [[? ?] [? ?]]; congruence);
    assert (¬ rtc (feeds r) rhs lhs) by (intros Hrt; destruct (Hk2 Hrt) as [[? ?] [? ?]]; congruence);
    exists UNREACHABLE; naive_solver.
  destruct (LevelTraverse_reach g lhs rhs) as (b1 & -> & H1). cbn [mbind option_bind].
  rewrite (agrees_reach g r) in H1 by done. destruct b1.
  { exists UPSTREAM. split; [done|]. split; [naive_solver|]. split; [done|]. naive_solver. }
  destruct (LevelTraverse_reach g rhs lhs) as (b2 & -> & H2). cbn [mbind option_bind].
  rewrite (agrees_reach g r) in H2 by done.
  destruct b2; eexists; (split; [done|]); split; split; intros; naive_solver.
Qed.

(** The example of the header: A---->B----->C<-----D. *)
Definition header_example : list graph_op :=
  [OpInsert (mkEdge "A" "" "ab"); OpInsert (mkEdge "" "B" "ab");
   OpInsert (mkEdge "B" "" "bc"); OpInsert (mkEdge "" "C" "bc");
   OpInsert (mkEdge "D" "" "dc"); OpInsert (mkEdge "" "C" "dc")].

Lemma direction_of_flow_witness :
  ∃ d, GetDirectionOf (foldl graph_do Graph_new header_example) "C" "A" = Some d ∧
    d = DOWNSTREAM ∧
    (d = DOWNSTREAM ↔ ¬ rtc (feeds (foldl roles_op (mkRoles ∅ ∅) header_example)) "C" "A" ∧
       rtc (feeds (foldl roles_op (mkRoles ∅ ∅) header_example)) "A" "C").
Proof.
  destruct (direction_of_flow header_example "C" "A") as (d & Hd & _ & Hdown);
    [apply (bool_decide_unpack _); vm_compute; exact I|discriminate|discriminate|discriminate|].
  exists d. split; [exact Hd|]. split; [|exact Hdown].
  assert (GetDirectionOf (foldl graph_do Graph_new header_example) "C" "A" = Some DOWNSTREAM) as He
    by (vm_compute; reflexivity).
  rewrite He in Hd. by injection Hd.
Defined.

(** Names with underscores collide: the key of an edge joins the channel and
    the reader with an underscore, so channel "a" read by node "b_c" and channel
    "a_b" read by node "c" share a key.  With a node writing both channels only
    one of the two readers is downstream of it. *)
Theorem edge_key_collision :
  let os := [OpInsert (mkEdge "" "b_c" "a"); OpInsert (mkEdge "" "c" "a_b");
             OpInsert (mkEdge "w" "" "a"); OpInsert (mkEdge "w" "" "a_b")] in
  let g := foldl graph_do Graph_new os in
  let r := foldl roles_op (mkRoles ∅ ∅) os in
  feeds r "w" "b_c" ∧ feeds r "w" "c" ∧
  GetDirectionOf g "w" "c" = Some UPSTREAM ∧ GetDirectionOf g "w" "b_c" = Some UNREACHABLE.
Proof.
  split; [exists "a"; split; apply (bool_decide_unpack _); vm_compute; exact I|].
  split; [exists "a_b"; split; apply (bool_decide_unpack _); vm_compute; exact I|].
  split; vm_compute; reflexivity.
Qed.
