(* ===== verification/GlobalData.v ===== *)
(** * GlobalData's name registries (cyber/common/global_data.cc, util.h)

    Nodes, channels, services and tasks are known by 64-bit ids.  An id is the
    hash of the name, or the next free number when another name already has it;
    the four registries are the same code over four [AtomicHashMap]s, reached
    here through the [KeyedStore] interface.  [Hash] is std::hash. *)

From stdpp Require Import base numbers list strings gmap.
From Stdlib Require Import ZArith Lia.
From S2P Require Import Prelude KeyedStore AtomicHashMap.

Open Scope Z_scope.

Section registry.
Context {M : Type} `{KS : KeyedStore M string} {KL : KeyedStoreLaws M string}.
Context (Hash : string → Z) (Hash_u64 : ∀ s, is_u64 (Hash s)).
Implicit Types (m : M).

(** The [while (map.Has(id))] loop: the id the name will have. *)
Fixpoint find_id (fuel : nat) (m : M) (name : string) (id : Z) : option Z :=
  match fuel with
  | O => None
  | S fuel =>
      match ks_view m id with
      | None => Some id
      | Some other =>
          if bool_decide (name = other) then Some id else find_id fuel m name (u64 (id + 1))
      end
  end.

(** The body of the four [Register] functions. *)
Definition Register (fuel : nat) (m : M) (name : string) : option (M * Z) :=
  id ← find_id fuel m name (Hash name);
  Some (ks_set m id name, id).

(** The body of the four [Get] functions. *)
Definition GetById (m : M) (id : Z) : string := default EmptyString (ks_view m id).

(** The four registries of the process. *)
Record Registries := mkRegistries {
  node_id_map_ : M;
  channel_id_map_ : M;
  service_id_map_ : M;
  task_id_map_ : M
}.

Definition RegisterNode (fuel : nat) (g : Registries) (node_name : string)
  : option (Registries * Z) :=
  '(m, id) ← Register fuel (node_id_map_ g) node_name;
  Some (mkRegistries m (channel_id_map_ g) (service_id_map_ g) (task_id_map_ g), id).
Definition GetNodeById (g : Registries) : Z → string := GetById (node_id_map_ g).

Definition RegisterChannel (fuel : nat) (g : Registries) (channel : string)
  : option (Registries * Z) :=
  '(m, id) ← Register fuel (channel_id_map_ g) channel;
  Some (mkRegistries (node_id_map_ g) m (service_id_map_ g) (task_id_map_ g), id).
Definition GetChannelById (g : Registries) : Z → string := GetById (channel_id_map_ g).

Definition RegisterService (fuel : nat) (g : Registries) (service : string)
  : option (Registries * Z) :=
  '(m, id) ← Register fuel (service_id_map_ g) service;
  Some (mkRegistries (node_id_map_ g) (channel_id_map_ g) m (task_id_map_ g), id).
Definition GetServiceById (g : Registries) : Z → string := GetById (service_id_map_ g).

Definition RegisterTaskName (fuel : nat) (g : Registries) (task_name : string)
  : option (Registries * Z) :=
  '(m, id) ← Register fuel (task_id_map_ g) task_name;
  Some (mkRegistries (node_id_map_ g) (channel_id_map_ g) (service_id_map_ g) m, id).
Definition GetTaskNameById (g : Registries) : Z → string := GetById (task_id_map_ g).

(** ** The probing invariant *)

(** The [d]-th id tried for a name. *)
Definition probe (name : string) (d : nat) : Z := u64 (Hash name + Z.of_nat d).

(** A registered name sits behind other names only, on its probe path. *)
Record registry_inv (m : M) : Prop := {
  ri_store : ks_inv m;
  ri_path : ∀ id name, is_u64 id → ks_view m id = Some name →
    ∃ d, id = probe name d ∧
      ∀ d', (d' < d)%nat → ∃ other, ks_view m (probe name d') = Some other ∧ other ≠ name
}.

Lemma probe_u64 name d : is_u64 (probe name d).
Proof. apply u64_range. Qed.

Lemma probe_S name d : u64 (probe name d + 1) = probe name (S d).
Proof.
  unfold probe, u64. rewrite Z.add_mod_idemp_l by lia. f_equal. lia.
Qed.

Lemma probe_0 name : probe name 0 = Hash name.
Proof using Hash_u64. unfold probe. rewrite Z.add_0_r. by apply u64_small. Qed.

Lemma registry_unique m id1 id2 name :
  registry_inv m → is_u64 id1 → is_u64 id2 →
  ks_view m id1 = Some name → ks_view m id2 = Some name → id1 = id2.
Proof.
  intros [_ Hp] U1 U2 H1 H2.
  destruct (Hp id1 name U1 H1) as (d1 & -> & P1). destruct (Hp id2 name U2 H2) as (d2 & -> & P2).
  destruct (lt_eq_lt_dec d1 d2) as [[Hlt| ->]|Hlt]; [|done|].
  - destruct (P2 d1 Hlt) as (o & Ho & ?). congruence.
  - destruct (P1 d2 Hlt) as (o & Ho & ?). congruence.
Qed.

Lemma find_id_spec fuel m name d id :
  find_id fuel m name (probe name d) = Some id →
  ∃ d', (d <= d')%nat ∧ id = probe name d' ∧
    (ks_view m id = None ∨ ks_view m id = Some name) ∧
    ∀ i, (d <= i < d')%nat → ∃ other, ks_view m (probe name i) = Some other ∧ other ≠ name.
Proof.
  revert d. induction fuel as [|fuel IH]; intros d; cbn [find_id]; [done|].
  destruct (ks_view m (probe name d)) as [other|] eqn:E.
  - case_bool_decide as Hn.
    + intros [= <-]. exists d. subst other. repeat split; auto; lia.
    + rewrite probe_S. intros (d' & Hle & -> & Hv & Hpath)%IH. exists d'.
      split; [lia|]. split; [done|]. split; [done|]. intros i Hi.
      destruct (decide (i = d)) as [->|]; [eauto|]. apply Hpath. lia.
  - intros [= <-]. exists d. repeat split; auto; lia.
Qed.

Lemma find_id_fails fuel m name d :
  find_id fuel m name (probe name d) = None →
  ∀ i, (i < fuel)%nat → is_Some (ks_view m (probe name (d + i))).
Proof.
  revert d. induction fuel as [|fuel IH]; intros d; cbn [find_id]; [intros; lia|].
  destruct (ks_view m (probe name d)) as [other|] eqn:E; [|done].
  case_bool_decide; [done|]. rewrite probe_S. intros Hf i Hi.
  destruct i as [|i]; [rewrite Nat.add_0_r; eauto|].
  rewrite <- Nat.add_succ_comm. apply IH; [done|lia].
Qed.

(** The ids a loop of at most [2 ^ 64] turns tries are different. *)
Lemma probe_inj name i j :
  Z.of_nat i < 2 ^ 64 → Z.of_nat j < 2 ^ 64 → probe name i = probe name j → i = j.
Proof.
  intros Hi Hj He. unfold probe, u64 in He.
  assert (Hash name + Z.of_nat i = Hash name + Z.of_nat j); [|lia].
  apply (ring_idx_inj (2 ^ 64) ltac:(lia)); [|lia]. apply ring_idx_mod_eq; [lia|done].
Qed.

(** [ks] lists the ids in use. *)
Definition covers (m : M) (ks : list Z) : Prop :=
  ∀ id, is_u64 id → is_Some (ks_view m id) → id ∈ ks.

Lemma find_id_ends fuel m name ks :
  covers m ks → (length ks < fuel)%nat → Z.of_nat fuel < 2 ^ 64 →
  is_Some (find_id fuel m name (Hash name)).
Proof using Hash_u64.
  intros Hc Hlen Hf. destruct (find_id fuel m name (Hash name)) eqn:E; [eauto|].
  rewrite <- probe_0 in E. pose proof (find_id_fails fuel m name 0 E) as Hall.
  exfalso. assert (length (probe name <$> seq 0 fuel) <= length ks)%nat as Hle.
  { apply submseteq_length, NoDup_submseteq.
    - apply NoDup_alt. intros i j x Hi Hj.
      rewrite list_lookup_fmap in Hi, Hj.
      apply fmap_Some in Hi as (a & Ha & ->). apply fmap_Some in Hj as (b & Hb & Hab).
      apply lookup_seq in Ha as [-> ?]. apply lookup_seq in Hb as [-> ?].
      apply probe_inj in Hab; lia.
    - intros x (i & -> & Hi%elem_of_seq)%list_elem_of_fmap.
      apply Hc; [apply probe_u64|]. apply (Hall i). lia. }
  rewrite length_fmap, length_seq in Hle. lia.
Qed.

Lemma Register_spec fuel m name ks :
  registry_inv m → covers m ks → (length ks < fuel)%nat → Z.of_nat fuel < 2 ^ 64 →
  ∃ m' id, Register fuel m name = Some (m', id) ∧ is_u64 id ∧ registry_inv m' ∧
    covers m' (id :: ks) ∧ ks_view m' id = Some name ∧
    (∀ id' n, is_u64 id' → ks_view m id' = Some n → ks_view m' id' = Some n).
Proof using Hash_u64 KL.
  intros Hinv Hc Hlen Hf. pose proof Hinv as [Hs Hp].
  destruct (find_id_ends fuel m name ks Hc Hlen Hf) as [id Hid].
  unfold Register. rewrite Hid. cbn. exists (ks_set m id name), id.
  rewrite <- probe_0 in Hid. apply find_id_spec in Hid as (d & _ & -> & Hfree & Hpath).
  pose proof (probe_u64 name d) as Hu.
  assert (∀ id' n, is_u64 id' → ks_view m id' = Some n → ks_view (ks_set m (probe name d) name) id' = Some n) as Hold.
  { intros id' n Hu' Hv. rewrite ks_set_view by done. case_decide; [subst|done].
    destruct Hfree; congruence. }
  split; [done|]. split; [done|]. split; [split|split; [|split]].
  - by apply ks_set_inv.
  - intros id' n Hu' Hv. rewrite ks_set_view in Hv by done. case_decide as Hd.
    + simplify_eq. exists d. split; [done|]. intros d' Hd'.
      destruct (Hpath d' ltac:(lia)) as (o & Ho & ?). exists o. split; [|done].
      apply Hold; [apply probe_u64|done].
    + destruct (Hp id' n Hu' Hv) as (d0 & -> & Hp0). exists d0. split; [done|].
      intros d' Hd'. destruct (Hp0 d' Hd') as (o & Ho & ?). exists o. split; [|done].
      apply Hold; [apply probe_u64|done].
  - intros id' Hu' Hv. rewrite ks_set_view in Hv by done. case_decide; [subst; set_solver|].
    apply elem_of_cons. right. by apply Hc.
  - rewrite ks_set_view by done. by rewrite decide_True.
  - done.
Qed.

(** One call of a [Register] function, by the kind of name. *)
Inductive Kind := KNode | KChannel | KService | KTask.

#[local] Instance Kind_eq_dec : EqDecision Kind.
Proof. solve_decision. Defined.

Definition map_of (g : Registries) (k : Kind) : M :=
  match k with
  | KNode => node_id_map_ g
  | KChannel => channel_id_map_ g
  | KService => service_id_map_ g
  | KTask => task_id_map_ g
  end.

Definition register_kind (fuel : nat) (g : Registries) (k : Kind) : string → option (Registries * Z) :=
  match k with
  | KNode => RegisterNode fuel g
  | KChannel => RegisterChannel fuel g
  | KService => RegisterService fuel g
  | KTask => RegisterTaskName fuel g
  end.

Definition get_kind (g : Registries) (k : Kind) : Z → string :=
  match k with
  | KNode => GetNodeById g
  | KChannel => GetChannelById g
  | KService => GetServiceById g
  | KTask => GetTaskNameById g
  end.

(** Names registered one after the other, and their ids. *)
Fixpoint register_all (fuel : nat) (g : Registries) (names : list (Kind * string))
  : option (Registries * list Z) :=
  match names with
  | [] => Some (g, [])
  | (k, n) :: names =>
      '(g, id) ← register_kind fuel g k n;
      '(g, ids) ← register_all fuel g names;
      Some (g, id :: ids)
  end.

Definition registries_empty : Registries := mkRegistries ks_empty ks_empty ks_empty ks_empty.

(** Each registry has its invariant and at most [ks]'s ids. *)
Definition registries_ok (g : Registries) (ks : list Z) : Prop :=
  ∀ k, registry_inv (map_of g k) ∧ covers (map_of g k) ks.

Definition put (g : Registries) (k : Kind) (m : M) : Registries :=
  match k with
  | KNode => mkRegistries m (channel_id_map_ g) (service_id_map_ g) (task_id_map_ g)
  | KChannel => mkRegistries (node_id_map_ g) m (service_id_map_ g) (task_id_map_ g)
  | KService => mkRegistries (node_id_map_ g) (channel_id_map_ g) m (task_id_map_ g)
  | KTask => mkRegistries (node_id_map_ g) (channel_id_map_ g) (service_id_map_ g) m
  end.

Lemma map_of_put g k m k' : map_of (put g k m) k' = if decide (k = k') then m else map_of g k'.
Proof. by destruct k, k'. Qed.

Lemma register_kind_put fuel g k n :
  register_kind fuel g k n =
  '(m, id) ← Register fuel (map_of g k) n; Some (put g k m, id).
Proof. by destruct k. Qed.

(** The other registries are as they were; this one has one more name. *)
Lemma register_kind_spec fuel g k n ks :
  registries_ok g ks → (length ks < fuel)%nat → Z.of_nat fuel < 2 ^ 64 →
  ∃ g' id, register_kind fuel g k n = Some (g', id) ∧ is_u64 id ∧ registries_ok g' (id :: ks) ∧
    ks_view (map_of g' k) id = Some n ∧
    ∀ k' i x, is_u64 i → ks_view (map_of g k') i = Some x → ks_view (map_of g' k') i = Some x.
Proof using Hash_u64 KL.
  intros Hg Hlen Hf. destruct (Hg k) as [Hinv Hc].
  destruct (Register_spec fuel (map_of g k) n ks Hinv Hc Hlen Hf)
    as (m1 & id & Hr & Hu & Hinv1 & Hc1 & Hv & Hold).
  rewrite register_kind_put, Hr. exists (put g k m1), id. split; [done|]. split; [done|].
  split; [|split].
  - intros k'. rewrite map_of_put. case_decide; [done|]. split; [apply Hg|].
    intros i Hi Hs. apply elem_of_cons. right. by apply (proj2 (Hg k')).
  - by rewrite map_of_put, decide_True.
  - intros k' i x Hi Hx. rewrite map_of_put. case_decide; subst; eauto.
Qed.

Lemma register_all_spec names fuel g ks :
  registries_ok g ks → (length ks + length names < fuel)%nat → Z.of_nat fuel < 2 ^ 64 →
  ∃ g' ids, register_all fuel g names = Some (g', ids) ∧
    (∀ k, registry_inv (map_of g' k)) ∧ length ids = length names ∧
    (∀ k i x, is_u64 i → ks_view (map_of g k) i = Some x → ks_view (map_of g' k) i = Some x) ∧
    (∀ i k n id, names !! i = Some (k, n) → ids !! i = Some id →
       is_u64 id ∧ ks_view (map_of g' k) id = Some n).
Proof using Hash_u64 KL.
  revert g ks. induction names as [|[k n] names IH]; intros g ks Hg Hlen Hf; cbn [register_all].
  { exists g, []. split; [done|]. split; [apply Hg|]. split; [done|]. split; [done|]. intros i; done. }
  cbn [length] in Hlen.
  destruct (register_kind_spec fuel g k n ks Hg ltac:(lia) Hf)
    as (g1 & id & -> & Hu & Hg1 & Hv & Hold). cbn [mbind option_bind].
  destruct (IH g1 (id :: ks) Hg1 ltac:(cbn; lia) Hf) as (g2 & ids & -> & Hinv2 & Hl & Hold2 & Hids).
  cbn [mbind option_bind]. exists g2, (id :: ids). split; [done|]. split; [done|].
  split; [cbn; lia|]. split; [eauto|].
  intros [|i] k' n' id' Hn Hi; cbn in Hn, Hi; [simplify_eq|by apply (Hids i)]. eauto.
Qed.

(** Ids name names: registering any list of node, channel, service and task
    names (with repetitions) ends, and within one kind gives equal ids to equal
    names and different ids to different names even when their hashes collide;
    every id given looks up its name from then on. *)
Theorem registry_ids names fuel :
  (length names < fuel)%nat → Z.of_nat fuel < 2 ^ 64 →
  ∃ g ids, register_all fuel registries_empty names = Some (g, ids) ∧
    length ids = length names ∧
    (∀ i k n id, names !! i = Some (k, n) → ids !! i = Some id → get_kind g k id = n) ∧
    (∀ i j k n n' id id', names !! i = Some (k, n) → names !! j = Some (k, n') →
       ids !! i = Some id → ids !! j = Some id' → id = id' ↔ n = n').
Proof using Hash_u64 KL.
  intros Hlen Hf.
  assert (registry_inv ks_empty) as H0.
  { split; [apply ks_empty_inv|]. intros id name _ Hv. by rewrite ks_empty_view in Hv. }
  assert (covers ks_empty []) as Hc.
  { intros id _ [? Hv]. by rewrite ks_empty_view in Hv. }
  assert (registries_ok registries_empty []) as Hg by (by intros []).
  destruct (register_all_spec names fuel registries_empty [] Hg ltac:(cbn; lia) Hf)
    as (g & ids & Hr & Hinv & Hl & _ & Hids).
  exists g, ids. split; [done|]. split; [done|]. split.
  - intros i k n id Hn Hi. destruct (Hids i k n id Hn Hi) as [_ V].
    destruct k; cbn in *; unfold GetNodeById, GetChannelById, GetServiceById, GetTaskNameById, GetById;
      by rewrite V.
  - intros i j k n n' id id' Hn Hn' Hi Hj. destruct (Hids i k n id Hn Hi) as [U V].
    destruct (Hids j k n' id' Hn' Hj) as [U' V']. split.
    + intros ->. congruence.
    + intros ->. by apply (registry_unique (map_of g k) id id' n').
Qed.
End registry.

(** Every hash collides, over the real map. *)
Lemma registry_ids_witness :
  ∃ g ids, register_all (M := AtomicHashMap string) (λ _, 5) 5 registries_empty
      [(KNode, "a"); (KNode, "b"); (KChannel, "b"); (KNode, "a")]
      = Some (g, ids) ∧ ids = [5; 6; 5; 5] ∧ GetNodeById g 6 = "b".
Proof.
  set (names := [(KNode, "a"); (KNode, "b"); (KChannel, "b"); (KNode, "a")]).
  destruct (registry_ids (M := AtomicHashMap string) (λ _, 5) ltac:(intros; unfold is_u64; lia)
    names 5) as (g & ids & Hr & _ & Hget & _); [cbn; lia|lia|].
  exists g, ids. split; [exact Hr|].
  assert (ids = [5; 6; 5; 5]) as ->.
  { assert (option_map snd (register_all (M := AtomicHashMap string) (λ _, 5) 5 registries_empty names)
      = Some [5; 6; 5; 5]) as He by (vm_compute; reflexivity).
    rewrite Hr in He. by injection He. }
  split; [reflexivity|]. by apply (Hget 1%nat KNode "b" 6).
Defined.
