(* ===== verification/Warehouse.v ===== *)
(** * Roles and warehouses (cyber/service_discovery/role, container)

    The attributes a role is announced with (the optional fields of the protobuf
    message that this code reads), the match between a role and a partial
    description, and the two containers of roles: one role per key, or many.  An
    unordered_multimap is a list of pairs in the order of insertion; what is
    proved holds of it as a multiset. *)

From stdpp Require Import base numbers list gmap strings sets.
From Stdlib Require Import ZArith Lia.
From S2P Require Import Prelude History.

Open Scope Z_scope.

Record RoleAttributes := mkRoleAttributes {
  host_name : option string;
  process_id : option Z;
  node_name : option string;
  node_id : option Z;
  channel_name : option string;
  channel_id : option Z;
  message_type : option string;
  proto_desc : option string;
  id : option Z;
  service_name : option string;
  service_id : option Z;
  host_ip : option string;
  qos_profile : option (HistoryAttributes * bool)   (* history and depth; durability is transient local *)
}.

#[global] Instance RoleAttributes_eq_dec : EqDecision RoleAttributes.
Proof. solve_decision. Defined.

(** The getters: a field that is not set reads as its default. *)
Definition get_str (f : option string) : string := default EmptyString f.
Definition get_num (f : option Z) : Z := default 0 f.

Definition no_attributes : RoleAttributes :=
  mkRoleAttributes None None None None None None None None None None None None None.

(** Which class a role object has; readers are RoleWriters, clients are
    RoleServers, nodes are RoleBases. *)
Inductive RoleKind := KBase | KWriter | KServer.

#[global] Instance RoleKind_eq_dec : EqDecision RoleKind.
Proof. solve_decision. Defined.

Record Role := mkRole { kind : RoleKind; attributes_ : RoleAttributes; timestamp_ns_ : Z }.

#[global] Instance Role_eq_dec : EqDecision Role.
Proof. solve_decision. Defined.

(** [if (target.has_x() && target.x() != attributes_.x()) return false;] *)
Definition field_ok {A} `{EqDecision A} (get : option A → A) (target mine : option A) : bool :=
  match target with Some x => bool_decide (x = get mine) | None => true end.

Definition RoleBase_Match (mine target : RoleAttributes) : bool :=
  field_ok get_num (node_id target) (node_id mine) &&
  field_ok get_num (process_id target) (process_id mine) &&
  field_ok get_str (host_name target) (host_name mine).

Definition RoleWriter_Match (mine target : RoleAttributes) : bool :=
  field_ok get_num (channel_id target) (channel_id mine) &&
  field_ok get_num (id target) (id mine) && RoleBase_Match mine target.

Definition RoleServer_Match (mine target : RoleAttributes) : bool :=
  field_ok get_num (service_id target) (service_id mine) && RoleBase_Match mine target.

(** The virtual [Match]. *)
Definition Match (r : Role) (target : RoleAttributes) : bool :=
  match kind r with
  | KBase => RoleBase_Match (attributes_ r) target
  | KWriter => RoleWriter_Match (attributes_ r) target
  | KServer => RoleServer_Match (attributes_ r) target
  end.

Definition IsEarlierThan (r other : Role) : bool := timestamp_ns_ r <? timestamp_ns_ other.

(** ** SingleValueWarehouse *)

Module Single.
Abbreviation SingleValueWarehouse := (gmap Z Role).

Definition Add (w : SingleValueWarehouse) (key : Z) (role : Role) (ignore_if_exist : bool)
  : SingleValueWarehouse * bool :=
  if negb ignore_if_exist && bool_decide (is_Some (w !! key)) then (w, false)
  else (<[key := role]> w, true).

Definition Clear (w : SingleValueWarehouse) : SingleValueWarehouse := ∅.
Definition Size (w : SingleValueWarehouse) : Z := Z.of_nat (size w).

Definition Remove (w : SingleValueWarehouse) (key : Z) : SingleValueWarehouse := delete key w.
Definition Remove_role (w : SingleValueWarehouse) (key : Z) (role : Role)
  : SingleValueWarehouse :=
  match w !! key with
  | Some r => if Match r (attributes_ role) then delete key w else w
  | None => w
  end.
Definition Remove_attr (w : SingleValueWarehouse) (target : RoleAttributes)
  : SingleValueWarehouse := filter (λ kr, Match kr.2 target = false) w.

(** The five [Search(key, ...)] overloads give this role, its attributes or a
    vector of it. *)
Definition Search (w : SingleValueWarehouse) (key : Z) : option Role := w !! key.
(** The [Search(target_attr, ...)] overloads: all matches, and the first. *)
Definition Search_attr (w : SingleValueWarehouse) (target : RoleAttributes) : list Role :=
  filter (λ r, Match r target = true) (map_to_list w).*2.
Definition Search_first (w : SingleValueWarehouse) (target : RoleAttributes) : option Role :=
  head (Search_attr w target).
Definition GetAllRoles (w : SingleValueWarehouse) : list Role := (map_to_list w).*2.
End Single.

(** ** MultiValueWarehouse *)

Module Multi.
Abbreviation MultiValueWarehouse := (list (Z * Role)).

Definition has_key (w : MultiValueWarehouse) (key : Z) : bool :=
  existsb (λ kr, kr.1 =? key) w.

Definition Add (w : MultiValueWarehouse) (key : Z) (role : Role) (ignore_if_exist : bool)
  : MultiValueWarehouse * bool :=
  if negb ignore_if_exist && has_key w key then (w, false) else (w ++ [(key, role)], true).

Definition Clear (w : MultiValueWarehouse) : MultiValueWarehouse := [].
Definition Size (w : MultiValueWarehouse) : Z := Z.of_nat (length w).

Definition Remove (w : MultiValueWarehouse) (key : Z) : MultiValueWarehouse :=
  filter (λ kr, kr.1 ≠ key) w.
Definition Remove_role (w : MultiValueWarehouse) (key : Z) (role : Role)
  : MultiValueWarehouse :=
  filter (λ kr, ¬ (kr.1 = key ∧ Match kr.2 (attributes_ role) = true)) w.
Definition Remove_attr (w : MultiValueWarehouse) (target : RoleAttributes)
  : MultiValueWarehouse := filter (λ kr, Match kr.2 target = false) w.

Definition Search (w : MultiValueWarehouse) (key : Z) : list Role :=
  (filter (λ kr, kr.1 = key) w).*2.
Definition Search_first (w : MultiValueWarehouse) (key : Z) : option Role := head (Search w key).
Definition Search_attr (w : MultiValueWarehouse) (target : RoleAttributes) : list Role :=
  filter (λ r, Match r target = true) w.*2.
Definition Search_attr_first (w : MultiValueWarehouse) (target : RoleAttributes) : option Role :=
  head (Search_attr w target).
Definition GetAllRoles (w : MultiValueWarehouse) : list Role := w.*2.
End Multi.

(** ** Matching *)

Lemma field_ok_self {A} `{EqDecision A} (get : option A → A) f :
  (∀ x, get (Some x) = x) → field_ok get f f = true.
Proof. intros Hg. destruct f as [x|]; cbn; [|done]. apply bool_decide_eq_true. by rewrite Hg. Qed.

(** A role matches its own attributes. *)
Lemma Match_self r : Match r (attributes_ r) = true.
Proof.
  destruct r as [[] a ts]; unfold Match; cbn; unfold RoleWriter_Match, RoleServer_Match, RoleBase_Match;
    by rewrite !field_ok_self.
Qed.

Lemma field_ok_num t mine : field_ok get_num t mine = true ↔ ∀ x, t = Some x → x = get_num mine.
Proof.
  destruct t as [x|]; cbn; [rewrite bool_decide_eq_true|]; naive_solver.
Qed.

Lemma field_ok_str t mine : field_ok get_str t mine = true ↔ ∀ x, t = Some x → x = get_str mine.
Proof.
  destruct t as [x|]; cbn; [rewrite bool_decide_eq_true|]; naive_solver.
Qed.

(** A writer or reader that matches [a] has its host, process, node, channel and
    id, as far as [a] sets them. *)
Lemma Match_writer r a :
  kind r = KWriter → Match r a = true ↔
  (∀ x, channel_id a = Some x → x = get_num (channel_id (attributes_ r))) ∧
  (∀ x, id a = Some x → x = get_num (id (attributes_ r))) ∧
  (∀ x, node_id a = Some x → x = get_num (node_id (attributes_ r))) ∧
  (∀ x, process_id a = Some x → x = get_num (process_id (attributes_ r))) ∧
  (∀ x, host_name a = Some x → x = get_str (host_name (attributes_ r))).
Proof.
  intros Hk. unfold Match. rewrite Hk. unfold RoleWriter_Match, RoleBase_Match.
  rewrite !andb_true_iff, !field_ok_num, field_ok_str. tauto.
Qed.
