(* ===== verification/Topology.v ===== *)
(** * Topology managers (cyber/service_discovery/specific_manager,
    topology_manager)

    Who is where: nodes, the writers and readers of channels, the servers and
    clients of services.  The base class [Manager] checks and announces changes;
    [NodeManager], [ChannelManager] and [ServiceManager] dispose of them.  What a
    call does to the outside, calling the listeners and writing to the broadcast
    channel, is the list of effects it returns. *)

From stdpp Require Import base numbers list gmap strings sets.
From Stdlib Require Import ZArith Lia Ascii.
From S2P Require Import Prelude Graph Warehouse.

Open Scope Z_scope.

Inductive ChangeType := CHANGE_NODE | CHANGE_CHANNEL | CHANGE_SERVICE | CHANGE_PARTICIPANT.
Inductive OperateType := OPT_JOIN | OPT_LEAVE.
Inductive RoleType :=
  ROLE_NODE | ROLE_WRITER | ROLE_READER | ROLE_SERVER | ROLE_CLIENT | ROLE_PARTICIPANT.

Definition role_number (r : RoleType) : Z :=
  match r with
  | ROLE_NODE => 1 | ROLE_WRITER => 2 | ROLE_READER => 3
  | ROLE_SERVER => 4 | ROLE_CLIENT => 5 | ROLE_PARTICIPANT => 6
  end.

Record ChangeMsg := mkChangeMsg {
  timestamp : Z;
  change_type : ChangeType;
  operate_type : OperateType;
  role_type : RoleType;
  role_attr : RoleAttributes
}.

Inductive Effect := Notified (m : ChangeMsg) | Published (m : ChangeMsg) | AsyncShutdown.

(** ** Manager *)

Record Base := mkBase {
  is_shutdown_ : bool;
  is_discovery_started_ : bool;
  allowed_role_ : Z;
  change_type_ : ChangeType;
  host_name_ : string;
  process_id_ : Z;
  publisher_ : option bool     (* null, or what [Write] answers *)
}.

Definition set_started (b : Base) (v : bool) : Base :=
  mkBase (is_shutdown_ b) v (allowed_role_ b) (change_type_ b) (host_name_ b) (process_id_ b)
    (publisher_ b).

Definition set_publisher (b : Base) (p : option bool) : Base :=
  mkBase (is_shutdown_ b) (is_discovery_started_ b) (allowed_role_ b) (change_type_ b)
    (host_name_ b) (process_id_ b) p.

(** What a specific manager adds to the base class. *)
Class Disposer (S : Type) := {
  Check : RoleAttributes → bool;
  Dispose : Base → S → ChangeMsg → S * list Effect
}.

Section manager.
Context {S : Type} `{D : Disposer S}.

Record Manager := mkManager { base : Base; store : S }.

(** [Convert(attr, role, opt, msg)] at time [now]. *)
Definition Convert (b : Base) (now : Z) (attr : RoleAttributes) (role : RoleType)
    (opt : OperateType) : ChangeMsg :=
  let attr := match host_name attr with
              | Some _ => attr
              | None => mkRoleAttributes (Some (host_name_ b)) (process_id attr) (node_name attr)
                  (node_id attr) (channel_name attr) (channel_id attr) (message_type attr)
                  (proto_desc attr) (id attr) (service_name attr) (service_id attr) (host_ip attr) (qos_profile attr)
              end in
  let attr := match process_id attr with
              | Some _ => attr
              | None => mkRoleAttributes (host_name attr) (Some (process_id_ b)) (node_name attr)
                  (node_id attr) (channel_name attr) (channel_id attr) (message_type attr)
                  (proto_desc attr) (id attr) (service_name attr) (service_id attr) (host_ip attr) (qos_profile attr)
              end in
  mkChangeMsg now (change_type_ b) opt role attr.

(** [Publish(msg)], serialisation succeeding. *)
Definition Publish (b : Base) (msg : ChangeMsg) : list Effect * bool :=
  if negb (is_discovery_started_ b) then ([], false)
  else match publisher_ b with
       | Some ok => ([Published msg], ok)
       | None => ([], true)
       end.

(** [(1 << role) & allowed_role_] *)
Definition role_allowed (b : Base) (role : RoleType) : bool :=
  negb (Z.land (Z.shiftl 1 (role_number role)) (allowed_role_ b) =? 0).

(** [Join(attr, role, need_publish)]. *)
Definition Join (now : Z) (m : Manager) (attr : RoleAttributes) (role : RoleType)
    (need_publish : bool) : Manager * list Effect * bool :=
  if is_shutdown_ (base m) then (m, [], false)
  else if negb (role_allowed (base m) role) then (m, [], false)
  else if negb (Check attr) then (m, [], false)
  else
    let msg := Convert (base m) now attr role OPT_JOIN in
    let '(s, es) := Dispose (base m) (store m) msg in
    let m := mkManager (base m) s in
    if need_publish then let '(ps, ok) := Publish (base m) msg in (m, es ++ ps, ok)
    else (m, es, true).

(** [Leave(attr, role)]. *)
Definition Leave (now : Z) (m : Manager) (attr : RoleAttributes) (role : RoleType)
  : Manager * list Effect * bool :=
  if is_shutdown_ (base m) then (m, [], false)
  else if negb (role_allowed (base m) role) then (m, [], false)
  else if negb (Check attr) then (m, [], false)
  else
    let msg := Convert (base m) now attr role OPT_LEAVE in
    let '(s, es) := Dispose (base m) (store m) msg in
    let m := mkManager (base m) s in
    let '(ps, ok) := Publish (base m) msg in (m, es ++ ps, ok).

Definition IsFromSameProcess (b : Base) (msg : ChangeMsg) : bool :=
  (get_num (process_id (role_attr msg)) =? process_id_ b) &&
  bool_decide (get_str (host_name (role_attr msg)) = host_name_ b).

(** [OnRemoteChange(msg_str)], [None] being a string that does not parse. *)
Definition OnRemoteChange (m : Manager) (msg : option ChangeMsg) : Manager * list Effect :=
  if is_shutdown_ (base m) then (m, [])
  else match msg with
       | None => (m, [])
       | Some msg =>
           if IsFromSameProcess (base m) msg then (m, [])
           else if negb (Check (role_attr msg)) then (m, [])
           else let '(s, es) := Dispose (base m) (store m) msg in (mkManager (base m) s, es)
       end.

(** [StartDiscovery], [StopDiscovery] and [Shutdown]; [pub] and [sub] are what
    [CreatePublisher] and [CreateSubscriber] give. *)
Definition StartDiscovery (m : Manager) (participant : bool) (pub : option bool) (sub : bool)
  : Manager * bool :=
  if negb participant then (m, false)
  else if is_discovery_started_ (base m) then (m, true)
  else
    let b := set_publisher (base m) pub in
    if bool_decide (is_Some pub) && sub then (mkManager (set_started b true) (store m), true)
    else (mkManager (set_started b false) (store m), false).

Definition StopDiscovery (m : Manager) : Manager :=
  mkManager (set_started (base m) false) (store m).

Definition Shutdown (m : Manager) : Manager :=
  if is_shutdown_ (base m) then m
  else
    let m := StopDiscovery m in
    let b := base m in
    mkManager (mkBase true (is_discovery_started_ b) (allowed_role_ b) (change_type_ b)
                 (host_name_ b) (process_id_ b) (publisher_ b)) (store m).
End manager.
Arguments Manager : clear implicits.
Arguments mkManager {S} _ _.

(** ** ChannelManager *)

Record ChannelStore := mkChannelStore {
  node_writers_ : list (Z * Role);
  node_readers_ : list (Z * Role);
  channel_writers_ : list (Z * Role);
  channel_readers_ : list (Z * Role);
  node_graph_ : Graph
}.

Definition ChannelStore_new : ChannelStore := mkChannelStore [] [] [] [] Graph_new.

(** The constructor's [allowed_role_] and [change_type_]. *)
Definition ChannelManager_new (host : string) (pid : Z) : Manager ChannelStore :=
  mkManager (mkBase false false
    (Z.lor (Z.shiftl 1 (role_number ROLE_WRITER)) (Z.shiftl 1 (role_number ROLE_READER)))
    CHANGE_CHANNEL host pid None) ChannelStore_new.

Definition ChannelManager_Check (attr : RoleAttributes) : bool :=
  bool_decide (is_Some (channel_name attr)) && bool_decide (is_Some (channel_id attr)) &&
  bool_decide (is_Some (id attr)).

(** [DisposeJoin(msg)]; registering the protobuf descriptor is not modelled. *)
Definition ChannelManager_DisposeJoin (s : ChannelStore) (msg : ChangeMsg) : ChannelStore :=
  let a := role_attr msg in
  let v := get_str (node_name a) in
  let c := get_str (channel_name a) in
  let role := mkRole KWriter a (timestamp msg) in
  let nid := get_num (node_id a) in
  let cid := get_num (channel_id a) in
  match role_type msg with
  | ROLE_WRITER =>
      mkChannelStore (Multi.Add (node_writers_ s) nid role true).1 (node_readers_ s)
        (Multi.Add (channel_writers_ s) cid role true).1 (channel_readers_ s)
        (Insert (node_graph_ s) (mkEdge v EmptyString c))
  | _ =>
      mkChannelStore (node_writers_ s) (Multi.Add (node_readers_ s) nid role true).1
        (channel_writers_ s) (Multi.Add (channel_readers_ s) cid role true).1
        (Insert (node_graph_ s) (mkEdge EmptyString v c))
  end.

(** [DisposeLeave(msg)]. *)
Definition ChannelManager_DisposeLeave (s : ChannelStore) (msg : ChangeMsg) : ChannelStore :=
  let a := role_attr msg in
  let v := get_str (node_name a) in
  let c := get_str (channel_name a) in
  let role := mkRole KWriter a 0 in
  let nid := get_num (node_id a) in
  let cid := get_num (channel_id a) in
  match role_type msg with
  | ROLE_WRITER =>
      mkChannelStore (Multi.Remove_role (node_writers_ s) nid role) (node_readers_ s)
        (Multi.Remove_role (channel_writers_ s) cid role) (channel_readers_ s)
        (Delete (node_graph_ s) (mkEdge v EmptyString c))
  | _ =>
      mkChannelStore (node_writers_ s) (Multi.Remove_role (node_readers_ s) nid role)
        (channel_writers_ s) (Multi.Remove_role (channel_readers_ s) cid role)
        (Delete (node_graph_ s) (mkEdge EmptyString v c))
  end.

Definition ChannelManager_Dispose (b : Base) (s : ChannelStore) (msg : ChangeMsg)
  : ChannelStore * list Effect :=
  (match operate_type msg with
   | OPT_JOIN => ChannelManager_DisposeJoin s msg
   | OPT_LEAVE => ChannelManager_DisposeLeave s msg
   end, [Notified msg]).

#[export] Instance channel_disposer : Disposer ChannelStore := {
  Check := ChannelManager_Check;
  Dispose := ChannelManager_Dispose
}.

(** A process's attributes, as a search target. *)
Definition module_attr (host : string) (pid : Z) : RoleAttributes :=
  mkRoleAttributes (Some host) (Some pid) None None None None None None None None None None None.

(** The roles of one kind leave, one after the other. *)
Fixpoint leave_all (b : Base) (now : Z) (rt : RoleType) (s : ChannelStore) (rs : list Role)
  : ChannelStore * list Effect :=
  match rs with
  | [] => (s, [])
  | r :: rs =>
      let msg := Convert b now (attributes_ r) rt OPT_LEAVE in
      let s := ChannelManager_DisposeLeave s msg in
      let '(s, es) := leave_all b now rt s rs in
      (s, Notified msg :: es)
  end.

(** [OnTopoModuleLeave(host_name, process_id)]. *)
Definition ChannelManager_OnTopoModuleLeave (now : Z) (m : Manager ChannelStore)
    (host : string) (pid : Z) : Manager ChannelStore * list Effect :=
  if negb (is_discovery_started_ (base m)) then (m, [])
  else
    let s := store m in
    let writers_to_remove := Multi.Search_attr (channel_writers_ s) (module_attr host pid) in
    let readers_to_remove := Multi.Search_attr (channel_readers_ s) (module_attr host pid) in
    let '(s, es1) := leave_all (base m) now ROLE_WRITER s writers_to_remove in
    let '(s, es2) := leave_all (base m) now ROLE_READER s readers_to_remove in
    (mkManager (base m) s, es1 ++ es2).

(** Queries; the key is what [RegisterChannel] or [RegisterNode] gives. *)
Definition HasWriter (s : ChannelStore) (key : Z) : bool :=
  bool_decide (is_Some (Multi.Search_first (channel_writers_ s) key)).
Definition HasReader (s : ChannelStore) (key : Z) : bool :=
  bool_decide (is_Some (Multi.Search_first (channel_readers_ s) key)).
Definition GetWritersOfNode (s : ChannelStore) (key : Z) : list RoleAttributes :=
  attributes_ <$> Multi.Search (node_writers_ s) key.
Definition GetWritersOfChannel (s : ChannelStore) (key : Z) : list RoleAttributes :=
  attributes_ <$> Multi.Search (channel_writers_ s) key.
Definition GetReadersOfNode (s : ChannelStore) (key : Z) : list RoleAttributes :=
  attributes_ <$> Multi.Search (node_readers_ s) key.
Definition GetReadersOfChannel (s : ChannelStore) (key : Z) : list RoleAttributes :=
  attributes_ <$> Multi.Search (channel_readers_ s) key.
Definition GetChannelNames (s : ChannelStore) : list string :=
  elements (list_to_set ((λ r, get_str (channel_name (attributes_ r))) <$>
    (Multi.GetAllRoles (channel_writers_ s) ++ Multi.GetAllRoles (channel_readers_ s)))
    : gset string).
(** [None] leaves the caller's string as it was. *)
Definition GetProtoDesc (s : ChannelStore) (key : Z) : option string :=
  r ← Multi.Search_first (channel_writers_ s) key; proto_desc (attributes_ r).
Definition GetMsgType (s : ChannelStore) (key : Z) : option string :=
  r ← Multi.Search_first (channel_writers_ s) key; message_type (attributes_ r).
Definition GetFlowDirection (s : ChannelStore) (lhs rhs : string) : option FlowDirection :=
  GetDirectionOf (node_graph_ s) lhs rhs.

(** The node part of a role's attributes. *)
Definition node_attr (a : RoleAttributes) : RoleAttributes :=
  mkRoleAttributes (Some (get_str (host_name a))) (Some (get_num (process_id a)))
    (Some (get_str (node_name a))) (Some (get_num (node_id a))) None None None None None None None None None.

(** [nodes[attr.node_name()] = attr] for each of [l], then the map's values. *)
Definition distinct_nodes (l : list RoleAttributes) : list RoleAttributes :=
  (map_to_list (foldl (λ m a, <[get_str (node_name (node_attr a)) := node_attr a]> m)
     (∅ : gmap string RoleAttributes) l)).*2.

(** [GetUpstreamOfNode] and [GetDownstreamOfNode]. *)
Definition GetUpstreamOfNode (RegisterChannel RegisterNode : string → Z) (s : ChannelStore)
    (node : string) : list RoleAttributes :=
  let readers := GetReadersOfNode s (RegisterNode node) in
  let channels : gset string := list_to_set ((λ a, get_str (channel_name a)) <$> readers) in
  distinct_nodes (concat ((λ c, GetWritersOfChannel s (RegisterChannel c)) <$> elements channels)).
Definition GetDownstreamOfNode (RegisterChannel RegisterNode : string → Z) (s : ChannelStore)
    (node : string) : list RoleAttributes :=
  let writers := GetWritersOfNode s (RegisterNode node) in
  let channels : gset string := list_to_set ((λ a, get_str (channel_name a)) <$> writers) in
  distinct_nodes (concat ((λ c, GetReadersOfChannel s (RegisterChannel c)) <$> elements channels)).

(** [IsMessageTypeMatching] and the mismatches [ScanMessageType] logs. *)
Definition IsMessageTypeMatching (exempted : gset string) (lhs rhs : string) : bool :=
  bool_decide (lhs = rhs) || bool_decide (lhs ∈ exempted) || bool_decide (rhs ∈ exempted).
Definition ScanMessageType (exempted : gset string) (s : ChannelStore) (msg : ChangeMsg)
  : list RoleAttributes :=
  let key := get_num (channel_id (role_attr msg)) in
  filter (λ a, IsMessageTypeMatching exempted (get_str (message_type (role_attr msg)))
                 (get_str (message_type a)) = false)
    (GetWritersOfChannel s key ++ GetReadersOfChannel s key).

(** ** NodeManager *)

Abbreviation NodeStore := (gmap Z Role).

Definition NodeManager_new (host : string) (pid : Z) : Manager NodeStore :=
  mkManager (mkBase false false (Z.shiftl 1 (role_number ROLE_NODE)) CHANGE_NODE host pid None) ∅.

Definition NodeManager_Check (attr : RoleAttributes) : bool :=
  bool_decide (is_Some (node_name attr)) && bool_decide (is_Some (node_id attr)).

(** [DisposeJoin(msg)]: of two nodes of one id the earlier stays, and the later
    one's process is asked to shut down when it is this process. *)
Definition NodeManager_DisposeJoin (b : Base) (s : NodeStore) (msg : ChangeMsg)
  : NodeStore * list Effect :=
  let node := mkRole KBase (role_attr msg) (timestamp msg) in
  let key := get_num (node_id (role_attr msg)) in
  match Single.Add s key node false with
  | (s, true) => (s, [])
  | (s, false) =>
      match Single.Search s key with
      | None => ((Single.Add s key node true).1, [])
      | Some existing =>
          let '(s, newer) :=
            if IsEarlierThan node existing then ((Single.Add s key node true).1, existing)
            else (s, node) in
          (s, if (get_num (process_id (attributes_ newer)) =? process_id_ b) &&
                 bool_decide (get_str (host_name (attributes_ newer)) = host_name_ b)
              then [AsyncShutdown] else [])
      end
  end.

Definition NodeManager_DisposeLeave (s : NodeStore) (msg : ChangeMsg) : NodeStore :=
  Single.Remove s (get_num (node_id (role_attr msg))).

Definition NodeManager_Dispose (b : Base) (s : NodeStore) (msg : ChangeMsg)
  : NodeStore * list Effect :=
  let '(s, es) := match operate_type msg with
                  | OPT_JOIN => NodeManager_DisposeJoin b s msg
                  | OPT_LEAVE => (NodeManager_DisposeLeave s msg, [])
                  end in
  (s, es ++ [Notified msg]).

#[export] Instance node_disposer : Disposer (gmap Z Role) := {
  Check := NodeManager_Check;
  Dispose := NodeManager_Dispose
}.

Definition NodeManager_OnTopoModuleLeave (now : Z) (m : Manager NodeStore) (host : string) (pid : Z)
  : Manager NodeStore * list Effect :=
  if negb (is_discovery_started_ (base m)) then (m, [])
  else
    let nodes := Single.Search_attr (store m) (module_attr host pid) in
    let s := foldl (λ s n, Single.Remove s (get_num (node_id (attributes_ n)))) (store m) nodes in
    (mkManager (base m) s,
     (λ n, Notified (Convert (base m) now (attributes_ n) ROLE_NODE OPT_LEAVE)) <$> nodes).

Definition HasNode (s : NodeStore) (key : Z) : bool :=
  bool_decide (is_Some (Single.Search s key)).

(** ** ServiceManager *)

Record ServiceStore := mkServiceStore { servers_ : gmap Z Role; clients_ : list (Z * Role) }.

Definition ServiceManager_new (host : string) (pid : Z) : Manager ServiceStore :=
  mkManager (mkBase false false
    (Z.lor (Z.shiftl 1 (role_number ROLE_SERVER)) (Z.shiftl 1 (role_number ROLE_CLIENT)))
    CHANGE_SERVICE host pid None) (mkServiceStore ∅ []).

Definition ServiceManager_Check (attr : RoleAttributes) : bool :=
  bool_decide (is_Some (service_name attr)) && bool_decide (is_Some (service_id attr)).

Definition ServiceManager_DisposeJoin (s : ServiceStore) (msg : ChangeMsg) : ServiceStore :=
  let role := mkRole KServer (role_attr msg) 0 in
  let key := get_num (service_id (role_attr msg)) in
  match role_type msg with
  | ROLE_SERVER => mkServiceStore (Single.Add (servers_ s) key role true).1 (clients_ s)
  | _ => mkServiceStore (servers_ s) (Multi.Add (clients_ s) key role true).1
  end.

Definition ServiceManager_DisposeLeave (s : ServiceStore) (msg : ChangeMsg) : ServiceStore :=
  let role := mkRole KServer (role_attr msg) 0 in
  let key := get_num (service_id (role_attr msg)) in
  match role_type msg with
  | ROLE_SERVER => mkServiceStore (Single.Remove (servers_ s) key) (clients_ s)
  | _ => mkServiceStore (servers_ s) (Multi.Remove_role (clients_ s) key role)
  end.

Definition ServiceManager_Dispose (b : Base) (s : ServiceStore) (msg : ChangeMsg)
  : ServiceStore * list Effect :=
  (match operate_type msg with
   | OPT_JOIN => ServiceManager_DisposeJoin s msg
   | OPT_LEAVE => ServiceManager_DisposeLeave s msg
   end, [Notified msg]).

#[export] Instance service_disposer : Disposer ServiceStore := {
  Check := ServiceManager_Check;
  Dispose := ServiceManager_Dispose
}.

Definition ServiceManager_OnTopoModuleLeave (now : Z) (m : Manager ServiceStore) (host : string)
    (pid : Z) : Manager ServiceStore * list Effect :=
  if negb (is_discovery_started_ (base m)) then (m, [])
  else
    let s := store m in
    let target := module_attr host pid in
    let servers := Single.Search_attr (servers_ s) target in
    let servers' := foldl (λ w r, Single.Remove w (get_num (service_id (attributes_ r))))
                      (servers_ s) servers in
    let clients := Multi.Search_attr (clients_ s) target in
    let clients' := foldl (λ w r, Multi.Remove_role w (get_num (service_id (attributes_ r))) r)
                      (clients_ s) clients in
    (mkManager (base m) (mkServiceStore servers' clients'),
     ((λ r, Notified (Convert (base m) now (attributes_ r) ROLE_SERVER OPT_LEAVE)) <$> servers) ++
     ((λ r, Notified (Convert (base m) now (attributes_ r) ROLE_CLIENT OPT_LEAVE)) <$> clients)).

Definition HasService (s : ServiceStore) (key : Z) : bool :=
  bool_decide (is_Some (Single.Search (servers_ s) key)).
Definition GetClients (s : ServiceStore) (key : Z) : list RoleAttributes :=
  attributes_ <$> Multi.Search (clients_ s) key.

(** ** What the channel manager promises: a roster of writers and readers *)

Record Roster := mkRoster { writers : list Role; readers : list Role }.

(** The roles that [target] does not describe. *)
Definition remaining (target : RoleAttributes) (l : list Role) : list Role :=
  filter (λ r, Match r target = false) l.

Definition roster_msg (t : Roster) (msg : ChangeMsg) : Roster :=
  let role := mkRole KWriter (role_attr msg) (timestamp msg) in
  match operate_type msg, role_type msg with
  | OPT_JOIN, ROLE_WRITER => mkRoster (writers t ++ [role]) (readers t)
  | OPT_JOIN, _ => mkRoster (writers t) (readers t ++ [role])
  | OPT_LEAVE, ROLE_WRITER => mkRoster (remaining (role_attr msg) (writers t)) (readers t)
  | OPT_LEAVE, _ => mkRoster (writers t) (remaining (role_attr msg) (readers t))
  end.

(** What reaches a manager: its own process's calls, the broadcast of others,
    and the loss of a process. *)
Inductive Input :=
  | IJoin (now : Z) (attr : RoleAttributes) (role : RoleType) (need_publish : bool)
  | ILeave (now : Z) (attr : RoleAttributes) (role : RoleType)
  | IRemote (msg : option ChangeMsg)
  | IModuleLeave (now : Z) (host : string) (pid : Z).

Definition channel_step (m : Manager ChannelStore) (i : Input) : Manager ChannelStore :=
  match i with
  | IJoin now a role p => (Join now m a role p).1.1
  | ILeave now a role => (Leave now m a role).1.1
  | IRemote msg => (OnRemoteChange m msg).1
  | IModuleLeave now host pid => (ChannelManager_OnTopoModuleLeave now m host pid).1
  end.

(** The guards of [Join], [Leave] and [OnRemoteChange]. *)
Definition local_ok (b : Base) (a : RoleAttributes) (role : RoleType) : bool :=
  negb (is_shutdown_ b) && role_allowed b role && ChannelManager_Check a.
Definition remote_ok (b : Base) (msg : ChangeMsg) : bool :=
  negb (is_shutdown_ b) && negb (IsFromSameProcess b msg) && ChannelManager_Check (role_attr msg).

Definition roster_step (b : Base) (t : Roster) (i : Input) : Roster :=
  match i with
  | IJoin now a role _ =>
      if local_ok b a role then roster_msg t (Convert b now a role OPT_JOIN) else t
  | ILeave now a role =>
      if local_ok b a role then roster_msg t (Convert b now a role OPT_LEAVE) else t
  | IRemote (Some msg) => if remote_ok b msg then roster_msg t msg else t
  | IRemote None => t
  | IModuleLeave _ host pid =>
      if is_discovery_started_ b
      then mkRoster (remaining (module_attr host pid) (writers t))
             (remaining (module_attr host pid) (readers t))
      else t
  end.

(** Every announcement names its node; those of other processes name their
    process, which [Convert] did there. *)
Definition input_ok (i : Input) : Prop :=
  match i with
  | IJoin _ a _ _ | ILeave _ a _ => is_Some (node_id a)
  | IRemote (Some msg) =>
      is_Some (node_id (role_attr msg)) ∧ is_Some (host_name (role_attr msg)) ∧
      is_Some (process_id (role_attr msg))
  | IRemote None | IModuleLeave _ _ _ => True
  end.

Definition nkey (r : Role) : Z := get_num (node_id (attributes_ r)).
Definition ckey (r : Role) : Z := get_num (channel_id (attributes_ r)).
Definition keyed (k : Role → Z) (l : list Role) : list (Z * Role) := (λ r, (k r, r)) <$> l.
#[local] Arguments keyed : simpl never.
#[local] Arguments Multi.Remove_role : simpl never.
#[local] Arguments remaining : simpl never.

(** The attributes a manager keeps have these fields. *)
Definition full (a : RoleAttributes) : Prop :=
  is_Some (host_name a) ∧ is_Some (process_id a) ∧ is_Some (node_id a) ∧
  is_Some (channel_id a) ∧ is_Some (id a).
Definition full_writer (r : Role) : Prop := kind r = KWriter ∧ full (attributes_ r).

Record represents (s : ChannelStore) (t : Roster) : Prop := {
  rep_nw : node_writers_ s = keyed nkey (writers t);
  rep_cw : channel_writers_ s = keyed ckey (writers t);
  rep_nr : node_readers_ s = keyed nkey (readers t);
  rep_cr : channel_readers_ s = keyed ckey (readers t);
  rep_fw : Forall full_writer (writers t);
  rep_fr : Forall full_writer (readers t)
}.

Lemma keyed_snoc k l r : keyed k (l ++ [r]) = keyed k l ++ [(k r, r)].
Proof. unfold keyed. by rewrite fmap_app. Qed.

Lemma keyed_snd k l : (keyed k l).*2 = l.
Proof. unfold keyed. rewrite <- list_fmap_compose. apply list_fmap_id. Qed.

Lemma keyed_filter (P : Z * Role → Prop) `{∀ x, Decision (P x)} (Q : Role → Prop)
    `{∀ x, Decision (Q x)} k l :
  Forall (λ r, P (k r, r) ↔ Q r) l → filter P (keyed k l) = keyed k (filter Q l).
Proof.
  induction 1 as [|r l Hr Hl IH]; [done|]. unfold keyed in *. cbn [fmap list_fmap].
  destruct (decide (Q r)).
  - rewrite filter_cons_True by tauto. rewrite filter_cons_True by done. cbn. by f_equal.
  - rewrite filter_cons_False by tauto. by rewrite filter_cons_False.
Qed.

(** Removing by key and match is removing by match: what matches has the key. *)
Lemma Remove_role_keyed k key role l :
  Forall (λ r, Match r (attributes_ role) = true → k r = key) l →
  Multi.Remove_role (keyed k l) key role = keyed k (remaining (attributes_ role) l).
Proof.
  intros Hl. unfold Multi.Remove_role, remaining. apply keyed_filter.
  eapply Forall_impl; [exact Hl|]. cbn. intros r Hr.
  destruct (Match r (attributes_ role)); naive_solver.
Qed.

Lemma Match_keys r a :
  full_writer r → full a → Match r a = true →
  nkey r = get_num (node_id a) ∧ ckey r = get_num (channel_id a).
Proof.
  intros [Hk _] (_ & _ & [n Hn] & [c Hc] & _) Hm.
  apply (Match_writer _ _ Hk) in Hm as (Mc & _ & Mn & _).
  unfold nkey, ckey. rewrite Hn, Hc. cbn. split; symmetry; [by apply Mn|by apply Mc].
Qed.

(** One role's leave, in both of its containers. *)
Lemma Remove_role_both l a ts :
  Forall full_writer l → full a →
  Multi.Remove_role (keyed nkey l) (get_num (node_id a)) (mkRole KWriter a ts) =
    keyed nkey (remaining a l) ∧
  Multi.Remove_role (keyed ckey l) (get_num (channel_id a)) (mkRole KWriter a ts) =
    keyed ckey (remaining a l).
Proof.
  intros Hl Ha.
  split; (rewrite Remove_role_keyed; [done|]; eapply Forall_impl; [exact Hl|]; intros r Hr Hm;
    by destruct (Match_keys r a Hr Ha Hm)).
Qed.

Lemma Forall_remaining a l : Forall full_writer l → Forall full_writer (remaining a l).
Proof. apply Forall_filter_sub. Qed.
#[local] Hint Resolve Forall_remaining : cyber.

(** Disposing of a message keeps the four containers of one roster. *)
Lemma Dispose_represents b s t msg :
  represents s t → full (role_attr msg) →
  represents (ChannelManager_Dispose b s msg).1 (roster_msg t msg).
Proof.
  intros [Hnw Hcw Hnr Hcr Hfw Hfr] Ha.
  destruct (Remove_role_both _ _ 0 Hfw Ha) as [Rw1 Rw2].
  destruct (Remove_role_both _ _ 0 Hfr Ha) as [Rr1 Rr2].
  unfold ChannelManager_Dispose, roster_msg, ChannelManager_DisposeJoin, ChannelManager_DisposeLeave.
  destruct (operate_type msg), (role_type msg); cbn; split; cbn;
    rewrite ?Hnw, ?Hcw, ?Hnr, ?Hcr, ?keyed_snoc; auto with cyber;
    apply Forall_app; (split; [done|]); by apply Forall_singleton.
Qed.

(** A complete set of attributes is announced as it is. *)
Lemma Convert_full b now a rt opt :
  full a → Convert b now a rt opt = mkChangeMsg now (change_type_ b) opt rt a.
Proof. intros ([h Hh] & [p Hp] & _). unfold Convert. by rewrite Hh, Hp. Qed.

Lemma Convert_makes_full b now a rt opt :
  is_Some (node_id a) → ChannelManager_Check a = true → full (role_attr (Convert b now a rt opt)).
Proof.
  unfold ChannelManager_Check. rewrite !andb_true_iff, !bool_decide_eq_true.
  intros Hn [[_ Hc] Hi]. unfold Convert, full.
  destruct a as [[h|] [p|] ???????]; cbn in *; naive_solver.
Qed.

#[local] Arguments Convert : simpl never.
#[local] Arguments roster_msg : simpl never.

(** The roles of [rs] leave one after the other, each with its notification. *)
Lemma leave_all_represents b now rt rs s t :
  represents s t → Forall full_writer rs →
  represents (leave_all b now rt s rs).1
    (foldl (λ t r, roster_msg t (Convert b now (attributes_ r) rt OPT_LEAVE)) t rs) ∧
  (leave_all b now rt s rs).2 =
    (λ r, Notified (mkChangeMsg now (change_type_ b) OPT_LEAVE rt (attributes_ r))) <$> rs.
Proof.
  intros Hs Hrs. revert s t Hs. induction Hrs as [|r rs Hr Hrs IH]; intros s t Hs; [done|].
  cbn. set (msg := Convert b now (attributes_ r) rt OPT_LEAVE).
  assert (represents (ChannelManager_DisposeLeave s msg) (roster_msg t msg)) as Hd.
  { apply (Dispose_represents b s t msg Hs). unfold msg. rewrite Convert_full; apply Hr. }
  destruct (IH _ _ Hd) as [IH1 IH2]. destruct (leave_all _ _ _ _ rs) as [s' es].
  cbn in *. split; [done|]. rewrite IH2. unfold msg. by rewrite Convert_full by apply Hr.
Qed.

(** Leaving one by one, of writers and of readers. *)
Definition remaining_all (l rs : list Role) : list Role :=
  foldl (λ l r, remaining (attributes_ r) l) l rs.

Lemma foldl_roster_writers b now rs t :
  Forall full_writer rs →
  foldl (λ t r, roster_msg t (Convert b now (attributes_ r) ROLE_WRITER OPT_LEAVE)) t rs =
  mkRoster (remaining_all (writers t) rs) (readers t).
Proof.
  intros Hrs. revert t. induction Hrs as [|r rs Hr _ IH]; intros t; [by destruct t|].
  cbn [foldl]. rewrite IH, Convert_full by apply Hr. done.
Qed.

Lemma foldl_roster_readers b now rs t :
  Forall full_writer rs →
  foldl (λ t r, roster_msg t (Convert b now (attributes_ r) ROLE_READER OPT_LEAVE)) t rs =
  mkRoster (writers t) (remaining_all (readers t) rs).
Proof.
  intros Hrs. revert t. induction Hrs as [|r rs Hr _ IH]; intros t; [by destruct t|].
  cbn [foldl]. rewrite IH, Convert_full by apply Hr. done.
Qed.

Lemma remaining_all_filter l rs :
  remaining_all l rs =
  filter (λ r, Forall (λ x, Match r (attributes_ x) = false) rs) l.
Proof.
  unfold remaining_all. revert l. induction rs as [|x rs IH]; intros l; cbn.
  - symmetry. apply filter_all. intros. constructor.
  - rewrite IH. unfold remaining. rewrite list_filter_filter.
    apply list_filter_iff. intros r. rewrite Forall_cons. tauto.
Qed.

(** What one role of a process describes is of that process. *)
Lemma Match_module r x host pid :
  full_writer r → full_writer x → Match x (module_attr host pid) = true →
  Match r (attributes_ x) = true → Match r (module_attr host pid) = true.
Proof.
  intros [Kr _] [Kx ([h Hh] & [p Hp] & _)] Hx Hr.
  apply (Match_writer _ _ Kx) in Hx as (_ & _ & _ & Xp & Xh).
  apply (Match_writer _ _ Kr) in Hr as (_ & _ & _ & Rp & Rh).
  apply (Match_writer _ _ Kr). cbn in *.
  specialize (Xp _ eq_refl). specialize (Xh _ eq_refl).
  rewrite Hh in Xh, Rh. rewrite Hp in Xp, Rp. cbn in *.
  repeat split; [done|done|done| |]; intros ? [= <-]; subst; auto.
Qed.

(** A process's roles, removed one by one, are the process's roles. *)
Lemma remaining_all_module l host pid :
  Forall full_writer l →
  remaining_all l (filter (λ r, Match r (module_attr host pid) = true) l) =
  remaining (module_attr host pid) l.
Proof.
  intros Hl. rewrite Forall_forall in Hl. rewrite remaining_all_filter. unfold remaining.
  apply filter_ext_in. intros r Hr.
  rewrite Forall_forall. split.
  - intros H. destruct (Match r (module_attr host pid)) eqn:E; [|done].
    rewrite <- (Match_self r). apply H. by apply list_elem_of_filter.
  - intros E x [Ex Hx]%list_elem_of_filter.
    destruct (Match r (attributes_ x)) eqn:Em; [|done].
    by rewrite (Match_module r x host pid) in E by auto.
Qed.

(** [OnTopoModuleLeave] on a store that holds a roster. *)
Lemma module_leave_represents now m t host pid :
  represents (store m) t → is_discovery_started_ (base m) = true →
  let '(m', es) := ChannelManager_OnTopoModuleLeave now m host pid in
  base m' = base m ∧
  represents (store m') (mkRoster (remaining (module_attr host pid) (writers t))
                                  (remaining (module_attr host pid) (readers t))) ∧
  es = ((λ r, Notified (mkChangeMsg now (change_type_ (base m)) OPT_LEAVE ROLE_WRITER (attributes_ r)))
          <$> filter (λ r, Match r (module_attr host pid) = true) (writers t)) ++
       ((λ r, Notified (mkChangeMsg now (change_type_ (base m)) OPT_LEAVE ROLE_READER (attributes_ r)))
          <$> filter (λ r, Match r (module_attr host pid) = true) (readers t)).
Proof.
  intros Hs Hd. unfold ChannelManager_OnTopoModuleLeave, Multi.Search_attr. rewrite Hd. cbn.
  rewrite (rep_cw _ _ Hs), (rep_cr _ _ Hs), !keyed_snd.
  pose proof (rep_fw _ _ Hs) as Fw. pose proof (rep_fr _ _ Hs) as Fr.
  set (ws := filter _ (writers t)). set (rs := filter _ (readers t)).
  assert (Forall full_writer ws) as Hws by (by apply Forall_filter_sub).
  assert (Forall full_writer rs) as Hrs by (by apply Forall_filter_sub).
  destruct (leave_all_represents (base m) now ROLE_WRITER ws _ _ Hs Hws) as [H1 E1].
  destruct (leave_all (base m) now ROLE_WRITER (store m) ws) as [s1 es1]. cbn in H1, E1.
  rewrite foldl_roster_writers in H1 by done.
  destruct (leave_all_represents (base m) now ROLE_READER rs _ _ H1 Hrs) as [H2 E2].
  destruct (leave_all (base m) now ROLE_READER s1 rs) as [s2 es2]. cbn in H2, E2.
  rewrite foldl_roster_readers in H2 by done. cbn in *. subst ws rs es1 es2.
  rewrite !remaining_all_module in H2 by done. done.
Qed.

Lemma channel_step_represents m t i :
  represents (store m) t → input_ok i →
  base (channel_step m i) = base m ∧
  represents (store (channel_step m i)) (roster_step (base m) t i).
Proof.
  intros Hs Hi. destruct i as [now a role p|now a role|[msg|]|now host pid]; cbn in Hi |- *.
  - unfold Join, local_ok. destruct (is_shutdown_ (base m)); [done|].
    destruct (role_allowed (base m) role); [|done]. cbn.
    destruct (ChannelManager_Check a) eqn:Ec; [|done]. cbn.
    pose proof (Dispose_represents (base m) _ _ _ Hs
      (Convert_makes_full (base m) now a role OPT_JOIN Hi Ec)).
    destruct p; [|done]. by destruct (Publish _ _).
  - unfold Leave, local_ok. destruct (is_shutdown_ (base m)); [done|].
    destruct (role_allowed (base m) role); [|done]. cbn.
    destruct (ChannelManager_Check a) eqn:Ec; [|done]. cbn.
    pose proof (Dispose_represents (base m) _ _ _ Hs
      (Convert_makes_full (base m) now a role OPT_LEAVE Hi Ec)).
    by destruct (Publish _ _).
  - unfold OnRemoteChange, remote_ok. destruct (is_shutdown_ (base m)); [done|].
    destruct (IsFromSameProcess (base m) msg); [done|]. cbn.
    destruct (ChannelManager_Check (role_attr msg)) eqn:Ec; [|done]. cbn.
    split; [done|]. apply (Dispose_represents (base m) _ _ _ Hs).
    unfold ChannelManager_Check in Ec. rewrite !andb_true_iff, !bool_decide_eq_true in Ec.
    unfold full. naive_solver.
  - unfold OnRemoteChange. by destruct (is_shutdown_ (base m)).
  - destruct (is_discovery_started_ (base m)) eqn:Ed.
    + pose proof (module_leave_represents now m t host pid Hs Ed).
      destruct (ChannelManager_OnTopoModuleLeave now m host pid). naive_solver.
    + unfold ChannelManager_OnTopoModuleLeave. by rewrite Ed.
Qed.

Lemma channel_run_represents m t inputs :
  represents (store m) t → Forall input_ok inputs →
  base (foldl channel_step m inputs) = base m ∧
  represents (store (foldl channel_step m inputs)) (foldl (roster_step (base m)) t inputs).
Proof.
  intros Hs Hi. revert m t Hs. induction Hi as [|i ii Hi _ IH]; intros m t Hs; [done|].
  destruct (channel_step_represents m t i Hs Hi) as [Hb Hr].
  destruct (IH _ _ Hr) as [IH1 IH2]. cbn. by rewrite IH1, <- Hb in *.
Qed.

Lemma represents_new : represents ChannelStore_new (mkRoster [] []).
Proof. by split. Qed.

Lemma Search_keyed k key l : Multi.Search (keyed k l) key = filter (λ r, k r = key) l.
Proof.
  unfold Multi.Search. rewrite (keyed_filter _ (λ r, k r = key)); [apply keyed_snd|].
  apply Forall_forall. done.
Qed.

Lemma Search_first_keyed k key l :
  bool_decide (is_Some (Multi.Search_first (keyed k l) key)) = true ↔ ∃ r, r ∈ l ∧ k r = key.
Proof.
  rewrite bool_decide_eq_true. unfold Multi.Search_first. rewrite Search_keyed. split.
  - intros [r Hr]. exists r. 
    assert (r ∈ filter (λ r, k r = key) l) as [? ?]%list_elem_of_filter; [|done].
    destruct (filter _ l); [done|]. cbn in Hr. set_solver.
  - intros (r & Hr & Hk). assert (r ∈ filter (λ r, k r = key) l) as Hf
      by by apply list_elem_of_filter.
    destruct (filter _ l); [set_solver|done].
Qed.

(** [C28] Refinement: whatever sequence of joins, leaves, broadcasts of other
    processes and losses of processes reaches a channel manager, its queries
    answer as the abstract roster does, in which a join adds a role, a leave
    removes the roles its attributes describe and the loss of a process removes
    the roles of that process: the writers and the readers by node and by
    channel, and whether a channel has a writer or a reader. *)
Theorem channel_manager_refines_roster b inputs :
  Forall input_ok inputs →
  let s := store (foldl channel_step (mkManager b ChannelStore_new) inputs) in
  let t := foldl (roster_step b) (mkRoster [] []) inputs in
  ∀ key,
    GetWritersOfNode s key = attributes_ <$> filter (λ r, nkey r = key) (writers t) ∧
    GetWritersOfChannel s key = attributes_ <$> filter (λ r, ckey r = key) (writers t) ∧
    GetReadersOfNode s key = attributes_ <$> filter (λ r, nkey r = key) (readers t) ∧
    GetReadersOfChannel s key = attributes_ <$> filter (λ r, ckey r = key) (readers t) ∧
    (HasWriter s key = true ↔ ∃ r, r ∈ writers t ∧ ckey r = key) ∧
    (HasReader s key = true ↔ ∃ r, r ∈ readers t ∧ ckey r = key).
Proof.
  intros Hi. cbn. intros key.
  destruct (channel_run_represents (mkManager b ChannelStore_new) _ inputs represents_new Hi)
    as [_ Hs]. cbn in Hs.
  unfold GetWritersOfNode, GetWritersOfChannel, GetReadersOfNode, GetReadersOfChannel,
    HasWriter, HasReader.
  rewrite (rep_nw _ _ Hs), (rep_cw _ _ Hs), (rep_nr _ _ Hs), (rep_cr _ _ Hs).
  rewrite !Search_keyed, !Search_first_keyed. done.
Qed.

(** The roles of a small system. *)
Definition attr_of (host : string) (pid : Z) (node : string) (nid : Z) (chan : string) (cid i : Z)
  : RoleAttributes :=
  mkRoleAttributes (Some host) (Some pid) (Some node) (Some nid) (Some chan) (Some cid) None None
    (Some i) None None None None.
Definition base_ex : Base := mkBase false true 12 CHANGE_CHANNEL "car" 7 (Some true).
Definition inputs_ex : list Input :=
  [IJoin 1 (attr_of "car" 7 "planning" 10 "/path" 20 1) ROLE_WRITER true;
   IRemote (Some (mkChangeMsg 2 CHANGE_CHANNEL OPT_JOIN ROLE_READER
     (attr_of "car" 8 "control" 11 "/path" 20 2)));
   IRemote (Some (mkChangeMsg 3 CHANGE_CHANNEL OPT_JOIN ROLE_WRITER
     (attr_of "car" 8 "control" 11 "/cmd" 21 3)))].

Lemma inputs_ex_ok : Forall input_ok inputs_ex.
Proof. repeat constructor; cbn; eauto. Qed.

Lemma channel_manager_refines_roster_witness :
  HasReader (store (foldl channel_step (mkManager base_ex ChannelStore_new)
    (inputs_ex ++ [IModuleLeave 4 "car" 8]))) 20 = false ∧
  HasReader (store (foldl channel_step (mkManager base_ex ChannelStore_new) inputs_ex)) 20 = true.
Proof.
  split; [reflexivity|].
  destruct (channel_manager_refines_roster base_ex inputs_ex inputs_ex_ok 20)
    as (_ & _ & _ & _ & _ & H).
  apply H. vm_compute. eexists. split; [left|reflexivity].
Defined.

(** The loss of a process, [OnTopoModuleLeave(host, pid)] on a manager
    reached by any inputs, while discovery is on: the listeners are told of
    exactly the writers, then the readers, that the process had, one leave each in
    the order they joined, and afterwards no writer or reader of that process is
    left while all the others are. *)
Theorem module_leave_exact b inputs now host pid :
  Forall input_ok inputs → is_discovery_started_ b = true →
  let m := foldl channel_step (mkManager b ChannelStore_new) inputs in
  let '(m', es) := ChannelManager_OnTopoModuleLeave now m host pid in
  let mine := λ r, Match r (module_attr host pid) = true in
  let leave rt r := Notified (mkChangeMsg now (change_type_ b) OPT_LEAVE rt (attributes_ r)) in
  let ws := Multi.GetAllRoles (channel_writers_ (store m)) in
  let rs := Multi.GetAllRoles (channel_readers_ (store m)) in
  es = (leave ROLE_WRITER <$> filter mine ws) ++ (leave ROLE_READER <$> filter mine rs) ∧
  Multi.GetAllRoles (channel_writers_ (store m')) = filter (λ r, ¬ mine r) ws ∧
  Multi.GetAllRoles (node_writers_ (store m')) = filter (λ r, ¬ mine r) ws ∧
  Multi.GetAllRoles (channel_readers_ (store m')) = filter (λ r, ¬ mine r) rs ∧
  Multi.GetAllRoles (node_readers_ (store m')) = filter (λ r, ¬ mine r) rs.
Proof.
  intros Hi Hd. cbn zeta.
  destruct (channel_run_represents (mkManager b ChannelStore_new) _ inputs represents_new Hi)
    as [Hb Hs]. cbn in Hb.
  pose proof (module_leave_represents now _ _ host pid Hs) as H. rewrite Hb in H.
  specialize (H Hd). destruct (ChannelManager_OnTopoModuleLeave _ _ _ _) as [m' es].
  destruct H as (_ & Hr & ->). unfold Multi.GetAllRoles.
  rewrite (rep_cw _ _ Hs), (rep_cr _ _ Hs), (rep_cw _ _ Hr), (rep_cr _ _ Hr), (rep_nw _ _ Hr),
    (rep_nr _ _ Hr), !keyed_snd. cbn [writers readers].
  assert (∀ l, remaining (module_attr host pid) l =
               filter (λ r, ¬ Match r (module_attr host pid) = true) l) as E.
  { intros l. apply filter_ext_in. intros r _. by rewrite not_true_iff_false. }
  by rewrite <- !E.
Qed.

Lemma module_leave_exact_witness :
  (ChannelManager_OnTopoModuleLeave 9
     (foldl channel_step (mkManager base_ex ChannelStore_new) inputs_ex) "car" 8).2 =
  [Notified (mkChangeMsg 9 CHANGE_CHANNEL OPT_LEAVE ROLE_WRITER
     (attr_of "car" 8 "control" 11 "/cmd" 21 3));
   Notified (mkChangeMsg 9 CHANGE_CHANNEL OPT_LEAVE ROLE_READER
     (attr_of "car" 8 "control" 11 "/path" 20 2))].
Proof.
  pose proof (module_leave_exact base_ex inputs_ex 9 "car" 8 inputs_ex_ok eq_refl) as H.
  cbn zeta in H.
  destruct (ChannelManager_OnTopoModuleLeave _ _ _ _) as [m' es]. destruct H as [-> _].
  vm_compute. reflexivity.
Defined.

(** Two writers of one channel in one node share the node's edge in the flow
    graph: when one of them leaves, the channel still has a writer and a reader,
    but the flow from the node to the reader's node is reported as unreachable. *)
Theorem shared_edge_lost :
  let w i := attr_of "car" 7 "planning" 10 "/path" 20 i in
  let r := attr_of "car" 7 "control" 11 "/path" 20 3 in
  let run := foldl channel_step (mkManager base_ex ChannelStore_new) in
  let joined := [IJoin 1 (w 1) ROLE_WRITER true; IJoin 2 (w 2) ROLE_WRITER true;
                 IJoin 3 r ROLE_READER true] in
  GetFlowDirection (store (run joined)) "planning" "control" = Some UPSTREAM ∧
  let s := store (run (joined ++ [ILeave 4 (w 2) ROLE_WRITER])) in
  GetFlowDirection s "planning" "control" = Some UNREACHABLE ∧
  GetWritersOfChannel s 20 = [w 1] ∧ GetReadersOfChannel s 20 = [r].
Proof. vm_compute. repeat split; reflexivity. Qed.

(** ** Nodes *)

Definition msg_key (m : ChangeMsg) : Z := get_num (node_id (role_attr m)).
Definition msg_node (m : ChangeMsg) : Role := mkRole KBase (role_attr m) (timestamp m).

(** A join replaces the node of its id only when it is strictly earlier. *)
Lemma NodeManager_join_lookup b s m key :
  operate_type m = OPT_JOIN →
  (NodeManager_Dispose b s m).1 !! key =
  if decide (msg_key m = key) then
    Some match s !! key with
         | Some e => if timestamp m <? timestamp_ns_ e then msg_node m else e
         | None => msg_node m
         end
  else s !! key.
Proof.
  intros Ho. unfold NodeManager_Dispose, NodeManager_DisposeJoin. rewrite Ho.
  fold (msg_key m) (msg_node m). unfold Single.Add, Single.Search. cbn.
  destruct (s !! msg_key m) as [e|] eqn:Es; cbn.
  - rewrite Es. unfold IsEarlierThan. cbn.
    destruct (timestamp m <? timestamp_ns_ e) eqn:Et; cbn;
      case_decide as Hk; subst; rewrite ?Es, ?Et; by rewrite ?lookup_insert_eq, ?lookup_insert_ne.
  - case_decide as Hk; subst; rewrite ?Es; by rewrite ?lookup_insert_eq, ?lookup_insert_ne.
Qed.

(** Of the nodes announced under one id, in whatever order the announcements
    arrive, the registry keeps the one with the earliest timestamp, and of those
    with the same timestamp the one that arrived first. *)
Theorem earliest_node_survives b msgs key :
  Forall (λ m, operate_type m = OPT_JOIN) msgs →
  match Single.Search (foldl (λ s m, (NodeManager_Dispose b s m).1) ∅ msgs) key with
  | None => ∀ m, m ∈ msgs → msg_key m ≠ key
  | Some r => ∃ pre m post,
      msgs = pre ++ m :: post ∧ r = msg_node m ∧ msg_key m = key ∧
      (∀ m', m' ∈ pre → msg_key m' = key → timestamp m < timestamp m') ∧
      (∀ m', m' ∈ post → msg_key m' = key → timestamp m <= timestamp m')
  end.
Proof.
  unfold Single.Search. induction msgs as [|m msgs IH] using rev_ind; intros Hj.
  { set_solver. }
  apply Forall_app in Hj as [Hj [Hm _]%Forall_cons]. specialize (IH Hj).
  rewrite foldl_app. cbn. rewrite NodeManager_join_lookup by done.
  destruct (foldl _ ∅ msgs !! key) as [e|] eqn:Es; case_decide as Hk.
  - destruct IH as (pre & m0 & post & -> & -> & Hk0 & Hpre & Hpost). cbn.
    destruct (timestamp m <? timestamp m0) eqn:Et; zbool.
    + exists (pre ++ m0 :: post), m, []. repeat split; [done| |set_solver].
      intros m' [H|[->|H]%elem_of_cons]%elem_of_app Hm'; [|done|].
      * specialize (Hpre m' H Hm'). lia.
      * specialize (Hpost m' H Hm'). lia.
    + exists pre, m0, (post ++ [m]). rewrite <- app_assoc. repeat split; [done|done|].
      intros m' [H| ->%list_elem_of_singleton]%elem_of_app Hm'; [auto|done].
  - destruct IH as (pre & m0 & post & -> & -> & Hk0 & Hpre & Hpost).
    exists pre, m0, (post ++ [m]). rewrite <- app_assoc. repeat split; [done|done|].
    intros m' [H| ->%list_elem_of_singleton]%elem_of_app Hm'; [auto|done].
  - exists msgs, m, []. repeat split; [done| |set_solver]. intros m' H Hm'. by destruct (IH m' H).
  - set_solver.
Qed.

(** A node [planning] of process [pid], announced at [ts]. *)
Definition node_msg (pid ts : Z) (opt : OperateType) : ChangeMsg :=
  mkChangeMsg ts CHANGE_NODE opt ROLE_NODE
    (mkRoleAttributes (Some "car") (Some pid) (Some "planning") (Some 10) None None None None None
       None None None None).

Lemma earliest_node_survives_witness :
  Single.Search (foldl (λ s m, (NodeManager_Dispose base_ex s m).1) ∅
    [node_msg 1 50 OPT_JOIN; node_msg 2 30 OPT_JOIN; node_msg 3 40 OPT_JOIN]) 10 =
  Some (msg_node (node_msg 2 30 OPT_JOIN)).
Proof.
  assert (Forall (λ m, operate_type m = OPT_JOIN)
    [node_msg 1 50 OPT_JOIN; node_msg 2 30 OPT_JOIN; node_msg 3 40 OPT_JOIN]) as Hj
    by (repeat constructor).
  pose proof (earliest_node_survives base_ex _ 10 Hj) as H.
  destruct (Single.Search _ 10) eqn:E; vm_compute in E; [|discriminate].
  injection E as <-. reflexivity.
Defined.

(** A leave removes the node of its id whichever process sent it: when a
    second process announces a node of the same id, at whatever time, and then
    leaves, as it does when it is told to shut down for that very reason, the
    first process's node is forgotten. *)
Theorem duplicate_leave_evicts b pid1 pid2 t1 t2 t3 :
  let s := foldl (λ s m, (NodeManager_Dispose b s m).1) ∅
             [node_msg pid1 t1 OPT_JOIN; node_msg pid2 t2 OPT_JOIN] in
  HasNode s 10 = true ∧
  HasNode (NodeManager_Dispose b s (node_msg pid2 t3 OPT_LEAVE)).1 10 = false.
Proof.
  cbn zeta. split.
  - unfold HasNode, Single.Search. cbn [foldl]. rewrite NodeManager_join_lookup by done. done.
  - unfold HasNode, Single.Search, NodeManager_Dispose at 1. cbn [operate_type node_msg fst].
    unfold NodeManager_DisposeLeave, Single.Remove. cbn. by rewrite lookup_delete_eq.
Qed.
