(* ===== verification/TopologyManager.v ===== *)
(** * TopologyManager (cyber/service_discovery/topology_manager)

    The three managers of a process and the participants of its peers: a
    participant's name is the host and the process id, and when the discovery
    layer reports that a participant is gone every manager forgets that
    process.  The discovery layer (fastrtps) is outside: what it reports is the
    argument of [OnParticipantChange]. *)

From stdpp Require Import base numbers list gmap strings sets.
From Stdlib Require Import ZArith Lia Ascii.
From S2P Require Import Prelude Graph Warehouse Topology.

Open Scope Z_scope.

(** ** Names of participants *)

Definition digit_char (d : Z) : ascii := ascii_of_N (Z.to_N (48 + d)).
Definition char_digit (c : ascii) : option Z :=
  let n := Z.of_N (N_of_ascii c) in
  if (48 <=? n) && (n <=? 57) then Some (n - 48) else None.

(** The decimal digits of a non-negative number; [fuel] bounds their number. *)
Fixpoint decimal (fuel : nat) (n : Z) (acc : string) : string :=
  match fuel with
  | O => acc
  | S fuel =>
      let acc := String (digit_char (n mod 10)) acc in
      if n / 10 =? 0 then acc else decimal fuel (n / 10) acc
  end.

(** [std::to_string(int)]: at most ten digits. *)
Definition to_string (z : Z) : string :=
  if z <? 0 then String "-" (decimal 10 (- z) "") else decimal 10 z "".

(** The digits [strtol] reads: it stops at the first other character, and there
    must be one digit. *)
Fixpoint read_digits (s : string) (v : Z) (seen : bool) : option Z :=
  match s with
  | String c s' =>
      match char_digit c with
      | Some d => read_digits s' (v * 10 + d) true
      | None => if seen then Some v else None
      end
  | EmptyString => if seen then Some v else None
  end.

(** [isspace]: tab, newline, vertical tab, form feed, return and space. *)
Definition isspace (c : ascii) : bool :=
  let n := N_of_ascii c in ((9 <=? n) && (n <=? 13))%N || (n =? 32)%N.

Fixpoint skip_space (s : string) : string :=
  match s with
  | String c s' => if isspace c then skip_space s' else s
  | EmptyString => s
  end.

(** [std::stoi], [None] being an exception: no digits, or not an [int]. *)
Definition stoi (s : string) : option Z :=
  let s := skip_space s in
  v ← match s with
      | String "-" s' => Z.opp <$> read_digits s' 0 false
      | String "+" s' => read_digits s' 0 false
      | _ => read_digits s 0 false
      end;
  if (- 2 ^ 31 <=? v) && (v <? 2 ^ 31) then Some v else None.

(** [find('+')] with the two [substr]s around it. *)
Fixpoint split_plus (s : string) : option (string * string) :=
  match s with
  | EmptyString => None
  | String c s' =>
      if decide (c = "+"%char) then Some (EmptyString, s')
      else '(a, b) ← split_plus s'; Some (String c a, b)
  end.

(** [ParseParticipantName(participant_name, host_name, process_id)]. *)
Definition ParseParticipantName (participant_name : string) : option (string * Z) :=
  '(host_name, pid_str) ← split_plus participant_name;
  process_id ← stoi pid_str;
  Some (host_name, process_id).

(** The name [CreateParticipant] gives: [HostName() + '+' + to_string(ProcessId())]. *)
Definition participant_name (host : string) (pid : Z) : string :=
  String.append host (String "+" (to_string pid)).

(** ** The manager *)

Inductive DiscoveryStatus :=
  DISCOVERED_PARTICIPANT | CHANGED_QOS_PARTICIPANT | REMOVED_PARTICIPANT | DROPPED_PARTICIPANT.

(** [ParticipantDiscoveryInfo]: the participant's guid and name. *)
Record Info := mkInfo { status : DiscoveryStatus; guid : Z; m_participantName : string }.

Record TopologyManager := mkTopologyManager {
  init_ : bool;
  node_manager_ : Manager (gmap Z Role);
  channel_manager_ : Manager ChannelStore;
  service_manager_ : Manager ServiceStore;
  participant_names_ : gmap Z string
}.

Definition set_names (tm : TopologyManager) (names : gmap Z string) : TopologyManager :=
  mkTopologyManager (init_ tm) (node_manager_ tm) (channel_manager_ tm) (service_manager_ tm) names.

(** [Convert(info, msg)] at time [now]. *)
Definition TopologyManager_Convert (now : Z) (tm : TopologyManager) (info : Info)
  : TopologyManager * option ChangeMsg :=
  let names := participant_names_ tm in
  let '(names, name, opt) :=
    match status info with
    | DISCOVERED_PARTICIPANT =>
        (<[guid info := m_participantName info]> names, m_participantName info, OPT_JOIN)
    | REMOVED_PARTICIPANT | DROPPED_PARTICIPANT =>
        match names !! guid info with
        | Some n => (delete (guid info) names, n, OPT_LEAVE)
        | None => (names, EmptyString, OPT_LEAVE)
        end
    | _ => (names, EmptyString, OPT_JOIN)   (* [opt_type] is not set; it is not read *)
    end in
  (set_names tm names,
   '(host, pid) ← ParseParticipantName name;
   Some (mkChangeMsg now CHANGE_PARTICIPANT opt ROLE_PARTICIPANT (module_attr host pid))).

(** [OnParticipantChange(info)]; the last effect is [change_signal_(msg)]. *)
Definition OnParticipantChange (now : Z) (tm : TopologyManager) (info : Info)
  : TopologyManager * list Effect :=
  let '(tm, msg) := TopologyManager_Convert now tm info in
  match msg with
  | None => (tm, [])
  | Some msg =>
      if negb (init_ tm) then (tm, [])
      else match operate_type msg with
           | OPT_LEAVE =>
               let host := get_str (host_name (role_attr msg)) in
               let pid := get_num (process_id (role_attr msg)) in
               let '(nm, e1) := NodeManager_OnTopoModuleLeave now (node_manager_ tm) host pid in
               let '(cm, e2) := ChannelManager_OnTopoModuleLeave now (channel_manager_ tm) host pid in
               let '(sm, e3) := ServiceManager_OnTopoModuleLeave now (service_manager_ tm) host pid in
               (mkTopologyManager (init_ tm) nm cm sm (participant_names_ tm),
                e1 ++ e2 ++ e3 ++ [Notified msg])
           | OPT_JOIN => (tm, [Notified msg])
           end
  end.

(** [Shutdown()]. *)
Definition TopologyManager_Shutdown (tm : TopologyManager) : TopologyManager :=
  if negb (init_ tm) then tm
  else mkTopologyManager false (Shutdown (node_manager_ tm)) (Shutdown (channel_manager_ tm))
         (Shutdown (service_manager_ tm)) (participant_names_ tm).

(** ** Round trip of names *)

Lemma char_digit_char d : 0 <= d < 10 → char_digit (digit_char d) = Some d.
Proof.
  intros Hd. assert (d = 0 ∨ d = 1 ∨ d = 2 ∨ d = 3 ∨ d = 4 ∨ d = 5 ∨ d = 6 ∨ d = 7 ∨ d = 8 ∨ d = 9)
    as H by lia. by repeat destruct H as [->|H]; [..|subst].
Qed.

Lemma read_decimal fuel n acc seen :
  0 <= n < 10 ^ Z.of_nat fuel → (0 < fuel)%nat →
  read_digits (decimal fuel n acc) 0 seen = read_digits acc n true.
Proof.
  revert n acc seen. induction fuel as [|fuel IH]; intros n acc seen Hn Hf; [lia|].
  cbn [decimal]. pose proof (Z.mod_pos_bound n 10). pose proof (Z_div_mod_eq_full n 10).
  destruct (n / 10 =? 0) eqn:E; zbool.
  - cbn [read_digits]. rewrite char_digit_char by lia. f_equal. lia.
  - rewrite Nat2Z.inj_succ, Z.pow_succ_r in Hn by lia.
    assert (0 < n / 10 < 10 ^ Z.of_nat fuel) as Hq.
    { pose proof (Z.div_pos n 10). split; [lia|]. apply Z.div_lt_upper_bound; lia. }
    destruct fuel as [|fuel]; [cbn in Hq; lia|].
    rewrite IH by lia. cbn [read_digits]. rewrite char_digit_char by lia. f_equal. lia.
Qed.

(** The first character of a number's digits is a digit. *)
Lemma decimal_head fuel n acc :
  (0 < fuel)%nat →
  ∃ d s, decimal fuel n acc = String (digit_char d) s ∧ 0 <= d < 10.
Proof.
  revert n acc. induction fuel as [|fuel IH]; intros n acc Hf; [lia|]. cbn [decimal].
  pose proof (Z.mod_pos_bound n 10). destruct (n / 10 =? 0); [eauto with lia|].
  destruct fuel as [|fuel]; [|apply IH; lia]. cbn. eauto with lia.
Qed.

Lemma stoi_digits d s :
  0 <= d < 10 →
  stoi (String (digit_char d) s) =
  v ← read_digits (String (digit_char d) s) 0 false;
  if (- 2 ^ 31 <=? v) && (v <? 2 ^ 31) then Some v else None.
Proof.
  intros Hd. assert (d = 0 ∨ d = 1 ∨ d = 2 ∨ d = 3 ∨ d = 4 ∨ d = 5 ∨ d = 6 ∨ d = 7 ∨ d = 8 ∨ d = 9)
    as H by lia. by repeat destruct H as [->|H]; [..|subst].
Qed.

Lemma stoi_minus s :
  stoi (String "-" s) =
  v ← Z.opp <$> read_digits s 0 false;
  if (- 2 ^ 31 <=? v) && (v <? 2 ^ 31) then Some v else None.
Proof. reflexivity. Qed.

Lemma in_int_true v : is_i32 v → (- 2 ^ 31 <=? v) && (v <? 2 ^ 31) = true.
Proof. unfold is_i32. intros H. apply andb_true_iff. split; [apply Z.leb_le|apply Z.ltb_lt]; lia. Qed.

Lemma stoi_to_string z : is_i32 z → stoi (to_string z) = Some z.
Proof.
  intros Hz. pose proof Hz as [H1 H2]. unfold to_string. destruct (z <? 0) eqn:E; zbool.
  - rewrite stoi_minus, read_decimal by (cbn; lia). cbn -[Z.pow].
    rewrite Z.opp_involutive. by rewrite in_int_true.
  - destruct (decimal_head 10 z "" ltac:(lia)) as (d & s & Hs & Hd).
    rewrite Hs, stoi_digits by done. rewrite <- Hs, read_decimal by (cbn; lia). cbn -[Z.pow].
    by rewrite in_int_true.
Qed.

Fixpoint has_plus (s : string) : bool :=
  match s with
  | EmptyString => false
  | String c s => bool_decide (c = "+"%char) || has_plus s
  end.

Lemma split_plus_cons c s :
  c ≠ "+"%char → split_plus (String c s) = '(a, b) ← split_plus s; Some (String c a, b).
Proof. intros H. cbn [split_plus]. by case_decide. Qed.

Lemma split_plus_append host s :
  has_plus host = false → split_plus (String.append host (String "+" s)) = Some (host, s).
Proof.
  induction host as [|c host IH]; intros H; [done|]. cbn [has_plus] in H.
  apply orb_false_iff in H as [Hc%bool_decide_eq_false Hh]. 
  change (String.append (String c host) (String "+" s))
    with (String c (String.append host (String "+" s))).
  rewrite split_plus_cons by done.
  by rewrite IH.
Qed.

(** The name a process gives its participant, parsed by its peers, gives back the
    host name and the process id. *)
Lemma parse_participant_name host pid :
  has_plus host = false → is_i32 pid →
  ParseParticipantName (participant_name host pid) = Some (host, pid).
Proof.
  intros Hh Hp. unfold ParseParticipantName, participant_name.
  rewrite split_plus_append by done. cbn. by rewrite stoi_to_string.
Qed.

Example parse_participant_name_ex :
  participant_name "car-1" 40217 = "car-1+40217" ∧
  ParseParticipantName "car-1+40217" = Some ("car-1", 40217).
Proof. by vm_compute. Qed.

(** ** Loss of a participant *)

#[local] Arguments ParseParticipantName : simpl never.
#[local] Arguments participant_name : simpl never.

Lemma names_other now tm info g :
  guid info ≠ g →
  participant_names_ (OnParticipantChange now tm info).1 !! g = participant_names_ tm !! g.
Proof.
  intros Hg. unfold OnParticipantChange, TopologyManager_Convert.
  destruct (status info), (participant_names_ tm !! guid info); cbn;
    repeat destruct_match; simplify_eq/=; by rewrite ?lookup_insert_ne, ?lookup_delete_ne.
Qed.

Lemma init_kept now tm info : init_ (OnParticipantChange now tm info).1 = init_ tm.
Proof.
  unfold OnParticipantChange, TopologyManager_Convert.
  repeat destruct_match; simplify_eq/=; done.
Qed.

Definition run_changes (now : Z) : TopologyManager → list Info → TopologyManager :=
  foldl (λ tm info, (OnParticipantChange now tm info).1).

Lemma run_changes_other now tm infos g :
  Forall (λ i, guid i ≠ g) infos →
  participant_names_ (run_changes now tm infos) !! g = participant_names_ tm !! g ∧
  init_ (run_changes now tm infos) = init_ tm.
Proof.
  intros H. revert tm. induction H as [|i infos Hi _ IH]; intros tm; [done|].
  destruct (IH (OnParticipantChange now tm i).1) as [E1 E2].
  unfold run_changes in *. cbn [foldl]. rewrite E1, E2. by rewrite names_other, init_kept.
Qed.

(** When a participant that had announced itself is removed or dropped, with
    whatever happened to other participants in between, its name is forgotten and
    each of the three managers is told that the host and process of that name are
    gone; the listeners hear of the managers' leaves and then of the
    participant's. *)
Theorem participant_loss_reaches_managers now tm g host pid infos st :
  init_ tm = true → has_plus host = false → is_i32 pid →
  Forall (λ i, guid i ≠ g) infos →
  st = REMOVED_PARTICIPANT ∨ st = DROPPED_PARTICIPANT →
  let tm1 := run_changes now tm
    (mkInfo DISCOVERED_PARTICIPANT g (participant_name host pid) :: infos) in
  let '(tm2, es) := OnParticipantChange now tm1 (mkInfo st g EmptyString) in
  let nm := NodeManager_OnTopoModuleLeave now (node_manager_ tm1) host pid in
  let cm := ChannelManager_OnTopoModuleLeave now (channel_manager_ tm1) host pid in
  let sm := ServiceManager_OnTopoModuleLeave now (service_manager_ tm1) host pid in
  tm2 = mkTopologyManager true nm.1 cm.1 sm.1 (delete g (participant_names_ tm1)) ∧
  es = nm.2 ++ cm.2 ++ sm.2 ++
       [Notified (mkChangeMsg now CHANGE_PARTICIPANT OPT_LEAVE ROLE_PARTICIPANT
          (module_attr host pid))].
Proof.
  intros Hi Hh Hp Ho Hst tm1.
  assert (participant_names_ tm1 !! g = Some (participant_name host pid) ∧ init_ tm1 = true)
    as [Hn Ht].
  { unfold tm1. cbn [run_changes foldl]. destruct (run_changes_other now (OnParticipantChange now tm
      (mkInfo DISCOVERED_PARTICIPANT g (participant_name host pid))).1 infos g Ho) as [E1 E2].
    unfold run_changes in *. rewrite E1, E2, init_kept. split; [|done].
    unfold OnParticipantChange, TopologyManager_Convert. cbn.
    rewrite parse_participant_name by done. cbn. rewrite Hi. cbn. by rewrite lookup_insert_eq. }
  clearbody tm1.
  unfold OnParticipantChange, TopologyManager_Convert. cbn [status guid m_participantName].
  destruct Hst as [-> | ->]; rewrite Hn, parse_participant_name by done; cbn; rewrite Ht; cbn;
    destruct (NodeManager_OnTopoModuleLeave _ _ _ _),
      (ChannelManager_OnTopoModuleLeave _ _ _ _), (ServiceManager_OnTopoModuleLeave _ _ _ _); done.
Qed.

(** The manager of [inputs_ex]'s process, with its discovery on. *)
Definition tm_ex : TopologyManager :=
  mkTopologyManager true
    (mkManager (mkBase false true 2 CHANGE_NODE "car" 7 (Some true)) ∅)
    (foldl channel_step (mkManager base_ex ChannelStore_new) inputs_ex)
    (mkManager (mkBase false true 48 CHANGE_SERVICE "car" 7 (Some true)) (mkServiceStore ∅ []))
    ∅.

Lemma participant_loss_reaches_managers_witness :
  let tm1 := run_changes 9 tm_ex
    [mkInfo DISCOVERED_PARTICIPANT 5 (participant_name "car" 8);
     mkInfo DISCOVERED_PARTICIPANT 6 (participant_name "car" 9)] in
  HasWriter (store (channel_manager_ tm1)) 21 = true ∧
  HasWriter (store (channel_manager_
    (OnParticipantChange 9 tm1 (mkInfo DROPPED_PARTICIPANT 5 "")).1)) 21 = false.
Proof.
  split; [vm_compute; reflexivity|].
  pose proof (participant_loss_reaches_managers 9 tm_ex 5 "car" 8
    [mkInfo DISCOVERED_PARTICIPANT 6 (participant_name "car" 9)] DROPPED_PARTICIPANT
    eq_refl eq_refl ltac:(unfold is_i32; lia) ltac:(repeat constructor; cbn; lia)
    (or_intror eq_refl)) as H. cbn zeta in H.
  destruct (OnParticipantChange _ _ _) as [tm2 es]. destruct H as [-> _].
  vm_compute. reflexivity.
Defined.
