(* ===== verification/CRoutine.v ===== *)
(** * CRoutine (cyber/croutine/croutine.h, croutine.cc)

    A coroutine as the scheduler sees it: its state, the lock a processor holds
    while it runs it, the flag an event leaves for it.  Context switching is
    assembly and outside the model: what a routine does between being resumed and
    its next [Yield] is the argument [slice] of [Resume].  The flags are
    std::atomic_flag: [true] is set; [updated_] is cleared by an event and set
    again by [UpdateState]. *)

From stdpp Require Import base numbers list strings.
From Stdlib Require Import ZArith Lia.
From S2P Require Import Prelude.

Open Scope Z_scope.

Inductive RoutineState := READY | FINISHED | SLEEP | IO_WAIT | DATA_WAIT.

#[global] Instance RoutineState_eq_dec : EqDecision RoutineState.
Proof. solve_decision. Defined.

Record CRoutine := mkCRoutine {
  name_ : string;
  wake_time_ : Z;          (* steady clock *)
  state_ : RoutineState;
  lock_ : bool;
  updated_ : bool;
  force_stop_ : bool;
  processor_id_ : Z;       (* int *)
  priority_ : Z;           (* uint32_t *)
  id_ : Z;                 (* uint64_t *)
  group_name_ : string
}.

(** [CRoutine(func)], created at time [now]. *)
Definition CRoutine_new (now : Z) : CRoutine :=
  mkCRoutine EmptyString now READY false true false (-1) 0 0 EmptyString.

Definition set_state (c : CRoutine) (s : RoutineState) : CRoutine :=
  mkCRoutine (name_ c) (wake_time_ c) s (lock_ c) (updated_ c) (force_stop_ c) (processor_id_ c)
    (priority_ c) (id_ c) (group_name_ c).
Definition set_lock (c : CRoutine) (l : bool) : CRoutine :=
  mkCRoutine (name_ c) (wake_time_ c) (state_ c) l (updated_ c) (force_stop_ c) (processor_id_ c)
    (priority_ c) (id_ c) (group_name_ c).
Definition set_updated (c : CRoutine) (u : bool) : CRoutine :=
  mkCRoutine (name_ c) (wake_time_ c) (state_ c) (lock_ c) u (force_stop_ c) (processor_id_ c)
    (priority_ c) (id_ c) (group_name_ c).
Definition set_id (c : CRoutine) (i : Z) : CRoutine :=
  mkCRoutine (name_ c) (wake_time_ c) (state_ c) (lock_ c) (updated_ c) (force_stop_ c)
    (processor_id_ c) (priority_ c) i (group_name_ c).
Definition set_name (c : CRoutine) (n : string) : CRoutine :=
  mkCRoutine n (wake_time_ c) (state_ c) (lock_ c) (updated_ c) (force_stop_ c)
    (processor_id_ c) (priority_ c) (id_ c) (group_name_ c).
Definition set_processor_id (c : CRoutine) (p : Z) : CRoutine :=
  mkCRoutine (name_ c) (wake_time_ c) (state_ c) (lock_ c) (updated_ c) (force_stop_ c)
    p (priority_ c) (id_ c) (group_name_ c).
Definition set_priority (c : CRoutine) (p : Z) : CRoutine :=
  mkCRoutine (name_ c) (wake_time_ c) (state_ c) (lock_ c) (updated_ c) (force_stop_ c)
    (processor_id_ c) p (id_ c) (group_name_ c).
Definition set_group_name (c : CRoutine) (g : string) : CRoutine :=
  mkCRoutine (name_ c) (wake_time_ c) (state_ c) (lock_ c) (updated_ c) (force_stop_ c)
    (processor_id_ c) (priority_ c) (id_ c) g.

(** [Acquire()], [Release()], [SetUpdateFlag()], [Wake()], [Stop()]. *)
Definition Acquire (c : CRoutine) : CRoutine * bool := (set_lock c true, negb (lock_ c)).
Definition Release (c : CRoutine) : CRoutine := set_lock c false.
Definition SetUpdateFlag (c : CRoutine) : CRoutine := set_updated c false.
Definition Wake (c : CRoutine) : CRoutine := set_state c READY.
Definition Stop (c : CRoutine) : CRoutine :=
  mkCRoutine (name_ c) (wake_time_ c) (state_ c) (lock_ c) (updated_ c) true
    (processor_id_ c) (priority_ c) (id_ c) (group_name_ c).

(** [Yield(state)] leaves the state; [HangUp()]; [Sleep(d)] at time [now]. *)
Definition Yield_state (c : CRoutine) (s : RoutineState) : CRoutine := set_state c s.
Definition HangUp (c : CRoutine) : CRoutine := Yield_state c DATA_WAIT.
Definition Sleep (now : Z) (c : CRoutine) (d : Z) : CRoutine :=
  Yield_state (mkCRoutine (name_ c) (now + d) (state_ c) (lock_ c) (updated_ c) (force_stop_ c)
    (processor_id_ c) (priority_ c) (id_ c) (group_name_ c)) SLEEP.

Definition waits_for_event (s : RoutineState) : bool :=
  match s with DATA_WAIT | IO_WAIT => true | _ => false end.

(** [UpdateState()] at time [now], in its accesses: the sleeper whose time has
    passed; the test-and-set of [updated_], giving its old value; the wake-up
    when the flag was clear. *)
Definition sleep_over (now : Z) (c : CRoutine) : bool :=
  bool_decide (state_ c = SLEEP) && (wake_time_ c <? now).
Definition test_and_set_updated (c : CRoutine) : CRoutine * bool := (set_updated c true, updated_ c).
Definition take_event (c : CRoutine) (old : bool) : CRoutine :=
  if negb old && waits_for_event (state_ c) then set_state c READY else c.

Definition UpdateState (now : Z) (c : CRoutine) : CRoutine :=
  if sleep_over now c then set_state c READY
  else let '(c, old) := test_and_set_updated c in take_event c old.

(** [Resume()]. *)
Definition Resume (slice : CRoutine → CRoutine) (c : CRoutine) : CRoutine :=
  if force_stop_ c then set_state c FINISHED
  else if bool_decide (state_ c = READY) then slice c
  else c.

(** [CRoutineEntry]: when the function returns the routine is finished. *)
Definition CRoutineEntry (run : CRoutine → CRoutine) (c : CRoutine) : CRoutine :=
  Yield_state (run c) FINISHED.

(** One turn of the loop of a routine built by [CreateRoutineFactory] with a data
    visitor: wait for data, fetch, run the callback and yield ready, or yield as
    it is.  [fetched] is what [TryFetch] answers, [f] the callback. *)
Definition factory_turn (fetched : bool) (f : CRoutine → CRoutine) (c : CRoutine) : CRoutine :=
  let c := set_state c DATA_WAIT in
  if fetched then Yield_state (f c) READY else c.

(** ** What is ready *)

Definition ready_at (now : Z) (c : CRoutine) : bool :=
  bool_decide (state_ (UpdateState now c) = READY).

(** A routine is ready when it is already, when its sleep is over, or when it
    waits for an event and one has come. *)
Lemma ready_at_spec now c :
  ready_at now c = true ↔
  state_ c = READY ∨ (state_ c = SLEEP ∧ wake_time_ c < now) ∨
  (waits_for_event (state_ c) = true ∧ updated_ c = false).
Proof.
  unfold ready_at, UpdateState, sleep_over, take_event. rewrite bool_decide_eq_true.
  destruct c as [n w s l u fs p pr i g]; cbn.
  destruct s, (w <? now) eqn:E, u; zbool; cbn; split; intros H;
    repeat (destruct H as [H|H]); destruct_and?; try done; auto; lia.
Qed.

Lemma UpdateState_frame now c :
  let c' := UpdateState now c in
  name_ c' = name_ c ∧ lock_ c' = lock_ c ∧ force_stop_ c' = force_stop_ c ∧
  processor_id_ c' = processor_id_ c ∧ priority_ c' = priority_ c ∧ id_ c' = id_ c ∧
  group_name_ c' = group_name_ c.
Proof.
  cbn. unfold UpdateState, test_and_set_updated, take_event. by repeat case_match; simplify_eq.
Qed.
