(* ===== verification/Poller.v ===== *)
(** * The poller (cyber/io/poller.cc, poll_data.h)

    Clients register file descriptors with events, a timeout and a callback; a thread
    carries the changes to the kernel's epoll instance, waits there, and calls back.  A
    change is kept in [ctrl_params_], one for a descriptor, until the thread takes it.
    The kernel is the interface [Epoll]: what it watches, and what [epoll_ctl] does to it.
    Clients' calls and the steps of the thread are interleaved; each of them holds
    [poll_data_lock_] while it works on the maps. *)

From stdpp Require Import base numbers list gmap.
From Stdlib Require Import ZArith Lia.
From S2P Require Import Prelude.

Open Scope Z_scope.

(** ** The kernel *)

Inductive CtlOp := CTL_ADD | CTL_MOD | CTL_DEL.

(** An epoll instance and the events it watches descriptors for. *)
Class Epoll := {
  epoll : Type;
  epoll_create : epoll;
  epoll_ctl : epoll → CtlOp → Z → Z → epoll;
  fd_closed : epoll → Z → epoll;
  watched : epoll → gmap Z Z
}.

(** epoll_ctl(2): adding a descriptor that is there and changing one that is not are
    errors and change nothing; a closed descriptor is removed. *)
Class EpollLaws `{Epoll} := {
  watched_create : watched epoll_create = ∅;
  watched_add : ∀ e fd events, watched (epoll_ctl e CTL_ADD fd events) =
    match watched e !! fd with None => <[fd := events]> (watched e) | Some _ => watched e end;
  watched_mod : ∀ e fd events, watched (epoll_ctl e CTL_MOD fd events) =
    match watched e !! fd with Some _ => <[fd := events]> (watched e) | None => watched e end;
  watched_del : ∀ e fd events, watched (epoll_ctl e CTL_DEL fd events) = delete fd (watched e);
  watched_closed : ∀ e fd, watched (fd_closed e fd) = delete fd (watched e)
}.

(** ** Data *)

(** What a request calls: the poller's own one empties the pipe. *)
Inductive Callback := drain_pipe | user_callback (n : nat).

Record PollRequest := mkRequest { fd : Z; events : Z; timeout_ms : Z; callback : option Callback }.
Definition PollRequest_default : PollRequest := mkRequest (-1) 0 (-1) None.
Definition set_timeout (r : PollRequest) (t : Z) : PollRequest := mkRequest (fd r) (events r) t (callback r).

Record PollCtrlParam := mkCtrl { operation : CtlOp; ctrl_events : Z }.

Definition EPOLLIN : Z := 1.
Definition EPOLLOUT : Z := 4.
Definition kPollTimeoutMs : Z := 100.

Section poller.
Context `{Epoll}.

(** [phase] is where the thread's loop is: before [HandleChanges], before [GetTimeoutMs],
    before [Poll] with the timeout it computed, or answering the responses. *)
Inductive Phase := PHandle | PTimeout | PPoll (timeout : Z) | PAnswer (responses : gmap Z Z).

Record Poller := mkPoller {
  is_shutdown_ : bool; requests_ : gmap Z PollRequest; ctrl_params_ : gmap Z PollCtrlParam;
  epoll_fd_ : epoll; pipe_ : nat; phase : Phase
}.

Definition set_maps (p : Poller) (r : gmap Z PollRequest) (c : gmap Z PollCtrlParam) : Poller :=
  mkPoller (is_shutdown_ p) r c (epoll_fd_ p) (pipe_ p) (phase p).
Definition set_phase (p : Poller) (ph : Phase) : Poller :=
  mkPoller (is_shutdown_ p) (requests_ p) (ctrl_params_ p) (epoll_fd_ p) (pipe_ p) ph.

(** [Notify()], which gives up when another call holds the mutex of the pipe. *)
Definition Notify (p : Poller) (owns_lock : bool) : Poller :=
  if negb owns_lock then p
  else mkPoller (is_shutdown_ p) (requests_ p) (ctrl_params_ p) (epoll_fd_ p) (S (pipe_ p)) (phase p).

(** [Init()] with the descriptor of the pipe's end to read. *)
Definition Init (pipe_fd : Z) : Poller :=
  mkPoller false {[pipe_fd := mkRequest pipe_fd EPOLLIN (-1) (Some drain_pipe)]}
    {[pipe_fd := mkCtrl CTL_ADD EPOLLIN]} epoll_create 0 PHandle.

Definition invalid (req : PollRequest) : bool := (fd req <? 0) || bool_decide (callback req = None).

Definition Register (p : Poller) (req : PollRequest) (owns_lock : bool) : Poller * bool :=
  if is_shutdown_ p then (p, false)
  else if invalid req then (p, false)
  else
    let op := match requests_ p !! fd req with None => CTL_ADD | Some _ => CTL_MOD end in
    let p := set_maps p (<[fd req := req]> (requests_ p))
               (<[fd req := mkCtrl op (events req)]> (ctrl_params_ p)) in
    (Notify p owns_lock, true).

(** The events of a removal are not set, nor looked at. *)
Definition Unregister (p : Poller) (req : PollRequest) (owns_lock : bool) : Poller * bool :=
  if is_shutdown_ p then (p, false)
  else if invalid req then (p, false)
  else
    match requests_ p !! fd req with
    | None => (p, false)
    | Some _ =>
        let p := set_maps p (delete (fd req) (requests_ p))
                   (<[fd req := mkCtrl CTL_DEL 0]> (ctrl_params_ p)) in
        (Notify p owns_lock, true)
    end.

(** [Clear()], once the thread has ended; the instance is closed. *)
Definition Clear (p : Poller) : Poller :=
  mkPoller (is_shutdown_ p) ∅ ∅ epoll_create 0 (phase p).

Definition Shutdown (p : Poller) : Poller :=
  if is_shutdown_ p then p
  else Clear (mkPoller true (requests_ p) (ctrl_params_ p) (epoll_fd_ p) (pipe_ p) (phase p)).

(** [GetTimeoutMs()]. *)
Definition earlier (req : PollRequest) (t : Z) : Z :=
  if (0 <=? timeout_ms req) && (timeout_ms req <? t) then timeout_ms req else t.
Definition GetTimeoutMs (p : Poller) : Z := map_fold (λ _, earlier) kPollTimeoutMs (requests_ p).

(** [HandleChanges()] takes all changes; their order does not matter, each is for a
    descriptor of its own. *)
Definition handle_change (fd : Z) (c : PollCtrlParam) (e : epoll) : epoll :=
  epoll_ctl e (operation c) fd (ctrl_events c).
Definition HandleChanges (p : Poller) : Poller :=
  mkPoller (is_shutdown_ p) (requests_ p) ∅ (map_fold handle_change (epoll_fd_ p) (ctrl_params_ p))
    (pipe_ p) (phase p).

(** The first part of [Poll]: the milliseconds it took, *)
Definition interval_ms (before after : Z) : Z :=
  let i := i32 (u64 (after - before) / 1000000) in if i =? 0 then 1 else i.

(** what they do to a request, *)
Definition count_down (interval : Z) (req : PollRequest) : Z :=
  if 0 <? timeout_ms req then Z.max 0 (timeout_ms req - interval) else timeout_ms req.
Definition tick (changes : gmap Z PollCtrlParam) (interval : Z) (req : PollRequest) : PollRequest :=
  match changes !! fd req with
  | Some _ => req
  | None => let t := count_down interval req in set_timeout req (if t =? 0 then -1 else t)
  end.
Definition timed_out (changes : gmap Z PollCtrlParam) (interval : Z) (req : PollRequest) : bool :=
  match changes !! fd req with Some _ => false | None => count_down interval req =? 0 end.

(** and the responses; what epoll reported comes over the timeouts. *)
Definition timeouts (changes : gmap Z PollCtrlParam) (interval : Z) (rs : gmap Z PollRequest) : gmap Z Z :=
  omap (λ req, if timed_out changes interval req then Some 0 else None) rs.
Definition Poll (p : Poller) (before after : Z) (ready : list (Z * Z)) : Poller :=
  let i := interval_ms before after in
  let responses := foldl (λ m e, <[e.1 := e.2]> m) (timeouts (ctrl_params_ p) i (requests_ p)) ready in
  set_phase (set_maps p (tick (ctrl_params_ p) i <$> requests_ p) (ctrl_params_ p)) (PAnswer responses).

(** A call of the descriptor's callback with a response's events. *)
Record Call := mkCall { call_fd : Z; called : Callback; call_events : Z }.

(** The rest of [Poll]: one response, if its request is still there.  The descriptor's
    callback is run, the poller's own one with it. *)
Definition answer (p : Poller) (fd : Z) (ev : Z) : Poller * option Call :=
  match requests_ p !! fd with
  | None => (p, None)
  | Some req =>
      let p := set_maps p (<[fd := set_timeout req (-1)]> (requests_ p)) (ctrl_params_ p) in
      match callback req with
      | Some drain_pipe =>
          (mkPoller (is_shutdown_ p) (requests_ p) (ctrl_params_ p) (epoll_fd_ p) 0 (phase p), Some (mkCall fd drain_pipe ev))
      | Some c => (p, Some (mkCall fd c ev))
      | None => (p, None)
      end
  end.

(** ** Calls and the thread's loop, interleaved *)

Inductive Act :=
  | ARegister (req : PollRequest) (owns_lock : bool)
  | AUnregister (req : PollRequest) (owns_lock : bool)
  | AClose (fd : Z)  (** a client closes the descriptor *)
  | AHandle
  | ATimeout
  | APoll (before after : Z) (ready : list (Z * Z))
  | AAnswer (fd : Z)  (** the thread takes this response next *)
  | ARound.  (** all responses are answered: the next round begins *)

Definition step (p : Poller) (a : Act) : option (Poller * option Call) :=
  match a, phase p with
  | ARegister req l, _ => Some ((Register p req l).1, None)
  | AUnregister req l, _ => Some ((Unregister p req l).1, None)
  | AClose fd, _ =>
      Some (mkPoller (is_shutdown_ p) (requests_ p) (ctrl_params_ p) (fd_closed (epoll_fd_ p) fd) (pipe_ p) (phase p), None)
  | AHandle, PHandle =>
      if is_shutdown_ p then None
      else Some (set_phase (HandleChanges p) PTimeout, None)
  | ATimeout, PTimeout => Some (set_phase p (PPoll (GetTimeoutMs p)), None)
  | APoll before after ready, PPoll _ => Some (Poll p before after ready, None)
  | AAnswer fd, PAnswer responses =>
      ev ← responses !! fd; Some (answer (set_phase p (PAnswer (delete fd responses))) fd ev)
  | ARound, PAnswer responses => if bool_decide (responses = ∅) then Some (set_phase p PHandle, None) else None
  | _, _ => None
  end.

Fixpoint run (p : Poller) (l : list Act) : option (Poller * list Call) :=
  match l with
  | [] => Some (p, [])
  | a :: l => '(p, c) ← step p a; '(p, cs) ← run p l; Some (p, option_list c ++ cs)
  end.

End poller.

(** ** Changes reach the kernel *)

Section changes.
Context `{EpollLaws}.

(** What a change makes of what is watched. *)
Definition ctl_result (c : PollCtrlParam) (w : option Z) : option Z :=
  match operation c, w with
  | CTL_ADD, None => Some (ctrl_events c)
  | CTL_MOD, Some _ => Some (ctrl_events c)
  | CTL_DEL, _ => None
  | _, _ => w
  end.

Lemma handle_change_at fd c e k :
  watched (handle_change fd c e) !! k =
  if decide (k = fd) then ctl_result c (watched e !! fd) else watched e !! k.
Proof using All.
  unfold handle_change, ctl_result. destruct c as [[] ev]; cbn;
    rewrite ?watched_add, ?watched_mod, ?watched_del; repeat case_match; simplify_map_eq; try done;
    rewrite ?lookup_insert_ne, ?lookup_delete_ne by done; done.
Qed.

Lemma handled_at p k :
  watched (epoll_fd_ (HandleChanges p)) !! k =
  match ctrl_params_ p !! k with
  | None => watched (epoll_fd_ p) !! k
  | Some c => ctl_result c (watched (epoll_fd_ p) !! k)
  end.
Proof using All.
  cbn. generalize (epoll_fd_ p) as e, (ctrl_params_ p) as cs. intros e cs. revert k.
  apply (map_fold_weak_ind (λ e' cs', ∀ k, watched e' !! k =
    match cs' !! k with None => watched e !! k | Some c => ctl_result c (watched e !! k) end)).
  - intros k. by rewrite lookup_empty.
  - intros i c m e' Hi IH k. rewrite handle_change_at, !IH. destruct (decide (k = i)) as [->|Hne].
    + by rewrite lookup_insert_eq, Hi.
    + by rewrite lookup_insert_ne by done.
Qed.

(** Requests, pending changes and what is watched agree; in [strict] runs so far that
    a change will have its effect. *)
Record consistent (strict : bool) (p : Poller) : Prop := {
  co_key : ∀ k r, requests_ p !! k = Some r → fd r = k;
  co_change : ∀ k c, ctrl_params_ p !! k = Some c →
    match operation c with
    | CTL_DEL => requests_ p !! k = None
    | _ => events <$> requests_ p !! k = Some (ctrl_events c)
    end;
  co_watch : ∀ k, requests_ p !! k = None → is_Some (watched (epoll_fd_ p) !! k) → is_Some (ctrl_params_ p !! k);
  co_effect : strict = true → ∀ k,
    match ctrl_params_ p !! k with
    | None => watched (epoll_fd_ p) !! k = events <$> requests_ p !! k
    | Some c =>
        match operation c with
        | CTL_ADD => watched (epoll_fd_ p) !! k = None
        | CTL_MOD => is_Some (watched (epoll_fd_ p) !! k)
        | CTL_DEL => True
        end
    end
}.

(** A descriptor is not registered again while its addition is pending, nor while its
    removal is, unless it was closed; and it is closed when it is not registered. *)
Definition orderly (p : Poller) (a : Act) : bool :=
  match a with
  | ARegister req _ =>
      match ctrl_params_ p !! fd req with
      | None => true
      | Some c =>
          match operation c with
          | CTL_ADD => false
          | CTL_MOD => true
          | CTL_DEL => bool_decide (watched (epoll_fd_ p) !! fd req = None)
          end
      end
  | AClose fd => bool_decide (requests_ p !! fd = None)
  | _ => true
  end.
Fixpoint orderly_run (p : Poller) (l : list Act) : bool :=
  match l with
  | [] => true
  | a :: l => orderly p a && match step p a with Some (p, _) => orderly_run p l | None => true end
  end.

Lemma consistent_init pipe_fd strict : consistent strict (Init pipe_fd).
Proof using All.
  split; cbn.
  - intros k r [-> <-]%lookup_singleton_Some. done.
  - intros k c [-> <-]%lookup_singleton_Some. cbn. by rewrite lookup_singleton_eq.
  - intros k _. rewrite watched_create, lookup_empty. intros [? ?]. done.
  - intros _ k. destruct (decide (k = pipe_fd)) as [->|Hne].
    + rewrite lookup_singleton_eq. cbn. by rewrite watched_create.
    + rewrite !lookup_singleton_ne by done. by rewrite watched_create.
Qed.

(** Only the descriptors, their events and the changes matter. *)
Lemma consistent_ext strict p p' :
  (∀ k, (λ r, (fd r, events r)) <$> requests_ p' !! k = (λ r, (fd r, events r)) <$> requests_ p !! k) →
  ctrl_params_ p' = ctrl_params_ p → epoll_fd_ p' = epoll_fd_ p →
  consistent strict p → consistent strict p'.
Proof using All.
  intros Hr Hc He [H1 H2 H3 H4]. rewrite <- Hc, <- He in *.
  assert (∀ k, requests_ p' !! k = None ↔ requests_ p !! k = None) as Hn.
  { intros k. specialize (Hr k). destruct (requests_ p' !! k), (requests_ p !! k); by cbn in Hr. }
  assert (∀ k, events <$> requests_ p' !! k = events <$> requests_ p !! k) as Hev.
  { intros k. specialize (Hr k). destruct (requests_ p' !! k), (requests_ p !! k); cbn in *; congruence. }
  split.
  - intros k r E. specialize (Hr k). rewrite E in Hr. destruct (requests_ p !! k) as [r'|] eqn:E'; [|done].
    cbn in Hr. specialize (H1 k r' E'). congruence.
  - intros k c E. specialize (H2 k c E). destruct (operation c); rewrite ?Hn, ?Hev; done.
  - intros k Hk. apply H3. by apply Hn.
  - intros Hs k. specialize (H4 Hs k). rewrite Hev. done.
Qed.

Lemma consistent_register strict p req l :
  consistent strict p → (strict = true → orderly p (ARegister req l) = true) →
  consistent strict (Register p req l).1.
Proof using All.
  intros [H1 H2 H3 H4] Ho. unfold Register. destruct (is_shutdown_ p); [by split|]. destruct (invalid req); [by split|].
  cbn [fst]. apply (consistent_ext strict (set_maps p (<[fd req := req]> (requests_ p))
    (<[fd req := mkCtrl match requests_ p !! fd req with None => CTL_ADD | Some _ => CTL_MOD end (events req)]> (ctrl_params_ p))));
    [by destruct l|by destruct l|by destruct l|].
  split; cbn.
  - intros k r. destruct (decide (k = fd req)) as [->|Hne]; [rewrite lookup_insert_eq; congruence|].
    rewrite lookup_insert_ne by done. apply H1.
  - intros k c. destruct (decide (k = fd req)) as [->|Hne].
    + rewrite !lookup_insert_eq. intros [= <-]. cbn. by destruct (requests_ p !! fd req).
    + rewrite !lookup_insert_ne by done. apply H2.
  - intros k. destruct (decide (k = fd req)) as [->|Hne]; [by rewrite lookup_insert_eq|].
    rewrite !lookup_insert_ne by done. apply H3.
  - intros Hs k. specialize (H4 Hs k). specialize (Ho Hs). destruct (decide (k = fd req)) as [->|Hne].
    + rewrite lookup_insert_eq. cbn. cbn in Ho. pose proof (H2 (fd req)) as Hc2.
      destruct (ctrl_params_ p !! fd req) as [c|] eqn:Ec.
      * specialize (Hc2 c eq_refl). destruct (operation c); [done| |].
        -- destruct (requests_ p !! fd req); [done|by cbn in Hc2].
        -- rewrite Hc2. by apply bool_decide_eq_true in Ho.
      * rewrite H4. destruct (requests_ p !! fd req); [by eexists|done].
    + rewrite !lookup_insert_ne by done. done.
Qed.

Lemma consistent_unregister strict p req l : consistent strict p → consistent strict (Unregister p req l).1.
Proof using All.
  intros [H1 H2 H3 H4]. unfold Unregister. destruct (is_shutdown_ p); [by split|]. destruct (invalid req); [by split|].
  destruct (requests_ p !! fd req) as [r|] eqn:Er; [|by split].
  cbn [fst]. apply (consistent_ext strict (set_maps p (delete (fd req) (requests_ p)) (<[fd req := mkCtrl CTL_DEL 0]> (ctrl_params_ p))));
    [by destruct l|by destruct l|by destruct l|].
  split; cbn.
  - intros k r'. rewrite lookup_delete_Some. intros [_ E]. by apply H1.
  - intros k c. destruct (decide (k = fd req)) as [->|Hne].
    + rewrite lookup_insert_eq. intros [= <-]. cbn. apply lookup_delete_eq.
    + rewrite lookup_insert_ne, lookup_delete_ne by done. apply H2.
  - intros k. destruct (decide (k = fd req)) as [->|Hne]; [rewrite lookup_insert_eq; eauto|].
    rewrite lookup_insert_ne, lookup_delete_ne by done. apply H3.
  - intros Hs k. specialize (H4 Hs k). destruct (decide (k = fd req)) as [->|Hne]; [by rewrite lookup_insert_eq|].
    rewrite lookup_insert_ne, lookup_delete_ne by done. done.
Qed.

(** After the changes are handled, what is watched is registered, and in strict runs
    with its events. *)
Lemma handled_watch strict p k :
  consistent strict p →
  (is_Some (watched (epoll_fd_ (HandleChanges p)) !! k) → is_Some (requests_ p !! k)) ∧
  (strict = true → watched (epoll_fd_ (HandleChanges p)) !! k = events <$> requests_ p !! k).
Proof using All.
  intros [H1 H2 H3 H4]. rewrite handled_at. specialize (H2 k). specialize (H3 k). split.
  - destruct (requests_ p !! k) as [r|]; [eauto|]. specialize (H3 eq_refl). intros Hw. exfalso.
    destruct (ctrl_params_ p !! k) as [c|] eqn:Ec; [|by destruct (H3 Hw)].
    specialize (H2 c eq_refl). unfold ctl_result in Hw. destruct (operation c); [done|done|by destruct Hw].
  - intros Hs. specialize (H4 Hs k). destruct (ctrl_params_ p !! k) as [c|] eqn:Ec; [|done].
    specialize (H2 c eq_refl). unfold ctl_result. destruct (operation c).
    + by rewrite H4, H2.
    + destruct H4 as [ev ->]. by rewrite H2.
    + by rewrite H2.
Qed.

Lemma consistent_handle strict p : consistent strict p → consistent strict (HandleChanges p).
Proof using All.
  intros Hp. split.
  - apply Hp.
  - intros k c. cbn. by rewrite lookup_empty.
  - intros k Hk Hw. destruct (handled_watch strict p k Hp) as [Hx _]. apply Hx in Hw. cbn in Hk. rewrite Hk in Hw. by destruct Hw.
  - intros Hs k. cbn [ctrl_params_ HandleChanges]. rewrite lookup_empty. by apply (handled_watch strict p k Hp).
Qed.

Lemma answer_same p fd ev :
  (∀ k, (λ r, (Poller.fd r, events r)) <$> requests_ (answer p fd ev).1 !! k = (λ r, (Poller.fd r, events r)) <$> requests_ p !! k) ∧
  ctrl_params_ (answer p fd ev).1 = ctrl_params_ p ∧ epoll_fd_ (answer p fd ev).1 = epoll_fd_ p.
Proof using.
  unfold answer. destruct (requests_ p !! fd) as [r|] eqn:E; [|done].
  split; [|by repeat case_match]. intros k.
  assert (∀ q, requests_ q = <[fd := set_timeout r (-1)]> (requests_ p) →
    (λ r, (Poller.fd r, events r)) <$> requests_ q !! k = (λ r, (Poller.fd r, events r)) <$> requests_ p !! k) as Hq.
  { intros q ->. destruct (decide (k = fd)) as [->|Hne]; [by rewrite lookup_insert_eq, E|by rewrite lookup_insert_ne]. }
  destruct (callback r) as [[|n]|]; by apply Hq.
Qed.

Lemma consistent_step strict p a p' c :
  consistent strict p → (strict = true → orderly p a = true) → step p a = Some (p', c) → consistent strict p'.
Proof using All.
  intros Hp Ho Hs. destruct a as [req l|req l|k| | |before after ready|k|]; cbn in Hs.
  - injection Hs as <- _. by apply consistent_register.
  - injection Hs as <- _. by apply consistent_unregister.
  - injection Hs as <- _. destruct Hp as [H1 H2 H3 H4]. split; cbn; [exact H1|exact H2| |].
    + intros j Hj. rewrite watched_closed. intros Hw. apply H3; [done|].
      destruct Hw as [x Hw]. apply lookup_delete_Some in Hw as [_ Hw]. eauto.
    + intros Hst j. specialize (H4 Hst j). specialize (Ho Hst). cbn in Ho. apply bool_decide_eq_true in Ho.
      rewrite watched_closed. destruct (decide (j = k)) as [->|Hne]; [|by rewrite lookup_delete_ne].
      rewrite lookup_delete_eq. specialize (H2 k). destruct (ctrl_params_ p !! k) as [d|] eqn:Ec; [|by rewrite Ho].
      specialize (H2 d eq_refl). destruct (operation d); [done| |done]. by rewrite Ho in H2.
  - destruct (phase p); try done. destruct (is_shutdown_ p); [done|]. injection Hs as <- _.
    by apply (consistent_ext strict (HandleChanges p)), consistent_handle.
  - destruct (phase p); try done. injection Hs as <- _. by apply (consistent_ext strict p).
  - destruct (phase p); try done. injection Hs as <- _. apply (consistent_ext strict p); try done.
    intros j. cbn. rewrite lookup_fmap. destruct (requests_ p !! j) as [r|]; [|done]. cbn. unfold tick. by case_match.
  - destruct (phase p) as [| | |responses]; try done. destruct (responses !! k) as [ev|]; [|done]. cbn in Hs.
    injection Hs as Hs. destruct (answer_same (set_phase p (PAnswer (delete k responses))) k ev) as (Ha & Hb & Hc).
    rewrite Hs in Ha, Hb, Hc. by apply (consistent_ext strict p).
  - destruct (phase p); try done. case_bool_decide; [|done]. injection Hs as <- _. by apply (consistent_ext strict p).
Qed.

Lemma consistent_run strict l p p' cs :
  consistent strict p → (strict = true → orderly_run p l = true) → run p l = Some (p', cs) → consistent strict p'.
Proof using All.
  revert p cs. induction l as [|a l IH]; intros p cs Hp Ho Hr; cbn in Hr; [by injection Hr as <- _|].
  destruct (step p a) as [[p1 c]|] eqn:Hs; [|done]. cbn in Hr.
  destruct (run p1 l) as [[p2 cs']|] eqn:Hr'; [|done]. injection Hr as <- _. apply (IH p1 cs'); [|intros Hst|done].
  - apply (consistent_step strict p a p1 c); [done| |done]. intros Hst. specialize (Ho Hst). cbn in Ho.
    by apply andb_true_iff in Ho as [Ho _].
  - specialize (Ho Hst). cbn in Ho. rewrite Hs in Ho. by apply andb_true_iff in Ho as [_ Ho].
Qed.

(** [C16] The kernel watches what is registered: however clients' calls and the rounds of
    the thread interleave, once the changes are handled no descriptor is watched that is
    not registered; and if none was registered again while its addition or its removal
    was pending, exactly the registered ones are watched, each for the events of its last
    request. *)
Theorem watches_requests (pipe_fd : Z) (l : list Act) (p : Poller) (cs : list Call) :
  run (Init pipe_fd) l = Some (p, cs) →
  (∀ fd, is_Some (watched (epoll_fd_ (HandleChanges p)) !! fd) → is_Some (requests_ p !! fd)) ∧
  (orderly_run (Init pipe_fd) l = true → watched (epoll_fd_ (HandleChanges p)) = events <$> requests_ p).
Proof using All.
  intros Hr. split.
  - intros k. apply (handled_watch false p k). by eapply consistent_run; [apply consistent_init| |].
  - intros Ho. apply map_eq. intros k. rewrite lookup_fmap. apply (handled_watch true p k); [|done].
    by eapply consistent_run; [apply consistent_init| |].
Qed.

End changes.

(** ** Timeouts *)

Lemma GetTimeoutMs_spec `{Epoll} (p : Poller) :
  0 <= GetTimeoutMs p <= kPollTimeoutMs ∧
  (∀ k r, requests_ p !! k = Some r → 0 <= timeout_ms r → GetTimeoutMs p <= timeout_ms r) ∧
  (GetTimeoutMs p = kPollTimeoutMs ∨ ∃ k r, requests_ p !! k = Some r ∧ GetTimeoutMs p = timeout_ms r).
Proof.
  unfold GetTimeoutMs.
  apply (map_fold_weak_ind (λ t rs, 0 <= t <= kPollTimeoutMs ∧
    (∀ k r, rs !! k = Some r → 0 <= timeout_ms r → t <= timeout_ms r) ∧
    (t = kPollTimeoutMs ∨ ∃ k r, rs !! k = Some r ∧ t = timeout_ms r))).
  - unfold kPollTimeoutMs. split; [lia|]. split; [|by left]. intros k r. by rewrite lookup_empty.
  - intros i x m t Hi (H1 & H2 & H3). unfold earlier.
    destruct ((0 <=? timeout_ms x) && (timeout_ms x <? t)) eqn:E; zbool.
    + split; [lia|]. split; [|right; exists i, x; by rewrite lookup_insert_eq].
      intros k r. destruct (decide (k = i)) as [->|Hne]; [rewrite lookup_insert_eq; intros [= <-]; lia|].
      rewrite lookup_insert_ne by done. intros Hk Hr. specialize (H2 k r Hk Hr). lia.
    + split; [done|]. split.
      * intros k r. destruct (decide (k = i)) as [->|Hne]; [|rewrite lookup_insert_ne by done; apply H2].
        rewrite lookup_insert_eq. intros [= <-] Hr. apply andb_false_iff in E as [E|E]; zbool; lia.
      * destruct H3 as [H3|(k & r & Hk & Ht)]; [by left|]. right. exists k, r. split; [|done].
        rewrite lookup_insert_ne; [done|]. intros ->. by rewrite Hi in Hk.
Qed.

Section timeouts.
Context `{Epoll}.

(** Acts that leave a descriptor alone: nobody registers or removes it, epoll reports
    nothing for it, and the clock goes on. *)
Definition quiet (k : Z) (a : Act) : Prop :=
  match a with
  | ARegister req _ | AUnregister req _ => fd req ≠ k
  | APoll before after ready => Forall (λ e, e.1 ≠ k) ready ∧ 0 <= after - before < 2 ^ 31 * 1000000
  | _ => True
  end.
(** What a poll counts as: the whole milliseconds it took, and one at least. *)
Definition poll_ms (before after : Z) : Z := Z.max 1 ((after - before) / 1000000).
(** The milliseconds a poll took, if the clock goes on. *)
Lemma interval_ms_pos before after :
  0 <= after - before < 2 ^ 31 * 1000000 → interval_ms before after = poll_ms before after.
Proof.
  intros Hb. unfold interval_ms, poll_ms. rewrite u64_small by (unfold is_u64; lia).
  assert (0 <= (after - before) / 1000000 < 2 ^ 31) by (split; [apply Z.div_pos|apply Z.div_lt_upper_bound]; lia).
  rewrite i32_small by (unfold is_i32; lia). destruct (_ =? 0) eqn:E; zbool; lia.
Qed.

Definition elapsed (a : Act) : Z := match a with APoll before after _ => poll_ms before after | _ => 0 end.
Definition total_elapsed (l : list Act) : Z := foldr (λ a n, elapsed a + n) 0 l.
Definition calls_of (k : Z) (cs : list Call) : list Call := filter (λ c, call_fd c = k) cs.

Definition responses_of (ph : Phase) : gmap Z Z := match ph with PAnswer m => m | _ => ∅ end.

(** The request at [k], [e] milliseconds after its timeout was [t]; [cs] are the calls so far. *)
Record waits (k : Z) (cb : Callback) (t e : Z) (cs : list Call) (p : Poller) : Prop := {
  wa_change : ctrl_params_ p !! k = None;
  wa_request : ∃ r, requests_ p !! k = Some r ∧ fd r = k ∧ callback r = Some cb ∧
    timeout_ms r = if e <? t then t - e else -1;
  wa_calls : if e <? t then calls_of k cs = [] ∧ responses_of (phase p) !! k = None
    else (calls_of k cs = [] ∧ responses_of (phase p) !! k = Some 0) ∨
         (calls_of k cs = [mkCall k cb 0] ∧ responses_of (phase p) !! k = None)
}.

Lemma waits_call k cb t e cs c p : waits k cb t e cs p → call_fd c ≠ k → waits k cb t e (cs ++ [c]) p.
Proof.
  intros [H1 H2 H3] Hc. split; [done|done|]. unfold calls_of in *. rewrite filter_app, filter_cons.
  rewrite decide_False by done. rewrite filter_nil, app_nil_r. done.
Qed.

Lemma waits_ext k cb t e cs p p' :
  requests_ p' !! k = requests_ p !! k → ctrl_params_ p' !! k = ctrl_params_ p !! k →
  responses_of (phase p') !! k = responses_of (phase p) !! k → waits k cb t e cs p → waits k cb t e cs p'.
Proof. intros Hr Hc Hp [H1 H2 H3]. split; [by rewrite Hc|by rewrite Hr|by rewrite Hp]. Qed.

Lemma ready_elsewhere (m : gmap Z Z) ready k :
  Forall (λ e, e.1 ≠ k) ready → foldl (λ m e, <[e.1 := e.2]> m) m ready !! k = m !! k.
Proof.
  intros Hr. revert m. induction Hr as [|e l He Hl IH]; intros m; [done|]. cbn. rewrite IH. by rewrite lookup_insert_ne.
Qed.

(** A poll counts the request down. *)
Lemma waits_poll k cb t e cs p before after ready :
  0 < t → waits k cb t e cs p → responses_of (phase p) = ∅ → Forall (λ e, e.1 ≠ k) ready → 0 < interval_ms before after →
  waits k cb t (e + interval_ms before after) cs (Poll p before after ready).
Proof.
  intros Ht [H1 (r & Hr & Hf & Hcb & Htm) H3] Hph Hready Hi. set (i := interval_ms before after) in *.
  rewrite Hph, lookup_empty in H3.
  assert (count_down i r = if e <? t then Z.max 0 (t - e - i) else -1) as Hcd.
  { unfold count_down. rewrite Htm. destruct (e <? t) eqn:E; zbool; [|done].
    replace (0 <? t - e) with true by (symmetry; apply Z.ltb_lt; lia). done. }
  unfold Poll. fold i. split; cbn; [done| |].
  - exists (tick (ctrl_params_ p) i r). rewrite lookup_fmap, Hr. split; [done|]. unfold tick. rewrite Hf, H1. cbn.
    split; [done|]. split; [done|]. rewrite Hcd. destruct (e <? t) eqn:E1, (e + i <? t) eqn:E2; zbool; try lia.
    + replace (Z.max 0 (t - e - i) =? 0) with false by (symmetry; apply Z.eqb_neq; lia). lia.
    + by replace (Z.max 0 (t - e - i) =? 0) with true by (symmetry; apply Z.eqb_eq; lia).
    + done.
  - rewrite ready_elsewhere by done. unfold timeouts. rewrite lookup_omap, Hr. cbn. unfold timed_out. rewrite Hf, H1, Hcd.
    destruct (e <? t) eqn:E1, (e + i <? t) eqn:E2; zbool; try lia.
    + by replace (Z.max 0 (t - e - i) =? 0) with false by (symmetry; apply Z.eqb_neq; lia).
    + left. replace (Z.max 0 (t - e - i) =? 0) with true by (symmetry; apply Z.eqb_eq; lia). split; [apply H3|done].
    + right. destruct H3 as [[_ H3]|[H3 _]]; [done|]. done.
Qed.

(** The request's own response, and those of others. *)
Lemma waits_answer k cb t e cs p responses j ev p' c :
  waits k cb t e cs p → phase p = PAnswer responses → responses !! j = Some ev →
  answer (set_phase p (PAnswer (delete j responses))) j ev = (p', c) →
  waits k cb t e (cs ++ option_list c) p'.
Proof.
  intros Hw Hph Hj Ha. destruct (decide (j = k)) as [->|Hne].
  - destruct Hw as [H1 (r & Hr & Hf & Hcb & Htm) H3]. rewrite Hph in H3. cbn in H3. rewrite Hj in H3.
    destruct (e <? t) eqn:E; [by destruct H3|]. destruct H3 as [[H3 [= ->]]|[_ ?]]; [|done].
    unfold answer in Ha. cbn in Ha. rewrite Hr, Hcb in Ha.
    assert (∃ n, p' = mkPoller (is_shutdown_ p) (<[k := set_timeout r (-1)]> (requests_ p)) (ctrl_params_ p) (epoll_fd_ p) n
      (PAnswer (delete k responses)) ∧ c = Some (mkCall k cb 0)) as (n & -> & ->)
      by (destruct cb; injection Ha as <- <-; by eexists).
    split; cbn; [done| |].
    + exists (set_timeout r (-1)). rewrite lookup_insert_eq, E. done.
    + rewrite E. right. unfold calls_of in *. rewrite filter_app, H3, filter_cons, decide_True by done. by rewrite lookup_delete_eq.
  - assert (waits k cb t e cs p') as Hw'.
    { apply (waits_ext k cb t e cs p); [| | |done]; unfold answer in Ha; cbn in Ha;
        repeat case_match; injection Ha as <- _; cbn; rewrite ?Hph, ?lookup_insert_ne, ?lookup_delete_ne by done; done. }
    destruct c as [c|]; cbn; [|by rewrite app_nil_r]. apply waits_call; [done|].
    unfold answer in Ha. cbn in Ha. repeat case_match; simplify_eq; done.
Qed.

Lemma waits_step k cb t e cs p a p' c :
  0 < t → waits k cb t e cs p → quiet k a → step p a = Some (p', c) →
  waits k cb t (e + elapsed a) (cs ++ option_list c) p'.
Proof.
  intros Ht Hw Hq Hs. destruct a as [req l|req l|j| | |before after ready|j|]; cbn in Hs, Hq; cbn [elapsed];
    rewrite ?Z.add_0_r.
  - injection Hs as <- <-. cbn. rewrite app_nil_r. apply (waits_ext k cb t e cs p); [| | |done];
      unfold Register; repeat case_match; destruct l; cbn; rewrite ?lookup_insert_ne by done; done.
  - injection Hs as <- <-. cbn. rewrite app_nil_r. apply (waits_ext k cb t e cs p); [| | |done];
      unfold Unregister; repeat case_match; destruct l; cbn; rewrite ?lookup_insert_ne, ?lookup_delete_ne by done; done.
  - injection Hs as <- <-. cbn. rewrite app_nil_r. by apply (waits_ext k cb t e cs p).
  - destruct (phase p) eqn:Hph; try done. destruct (is_shutdown_ p); [done|]. injection Hs as <- <-. cbn. rewrite app_nil_r.
    apply (waits_ext k cb t e cs p); [done| | |done]; cbn; rewrite ?Hph, ?lookup_empty; [|done]. symmetry. apply Hw.
  - destruct (phase p) eqn:Hph; try done. injection Hs as <- <-. cbn. rewrite app_nil_r.
    apply (waits_ext k cb t e cs p); [done|done| |done]. cbn. by rewrite Hph.
  - destruct (phase p) eqn:Hph; try done. injection Hs as <- <-. cbn [option_list]. rewrite app_nil_r.
    rewrite <- interval_ms_pos by apply Hq.
    apply waits_poll; [done|done|by rewrite Hph|apply Hq|]. rewrite interval_ms_pos by apply Hq. unfold poll_ms. lia.
  - destruct (phase p) as [| | |responses] eqn:Hph; try done. destruct (responses !! j) as [ev|] eqn:Hj; [|done]. cbn in Hs.
    injection Hs as Hs. by apply (waits_answer k cb t e cs p responses j ev).
  - destruct (phase p) as [| | |responses] eqn:Hph; try done. case_bool_decide as Hr; [|done]. injection Hs as <- <-.
    cbn. rewrite app_nil_r. apply (waits_ext k cb t e cs p); [done|done| |done]. cbn. by rewrite Hph, Hr.
Qed.

(** [C17] A timeout is answered once, when the polls have used it up.  Each poll counts as
    the whole milliseconds it took by the clock, and as one if it took less.  While nobody
    changes a request whose timeout is positive and no event comes for it, its callback is
    not called before the polls count for that time in all, whatever happens to other
    descriptors; in the round in which they do, it is called once, with no events, and not
    again after that. *)
Theorem timeout_answered_once (p p' : Poller) (l : list Act) (cs : list Call) (k : Z) (r : PollRequest) (cb : Callback) :
  requests_ p !! k = Some r → fd r = k → callback r = Some cb → 0 < timeout_ms r →
  ctrl_params_ p !! k = None → phase p = PHandle → Forall (quiet k) l → run p l = Some (p', cs) →
  (total_elapsed l < timeout_ms r → calls_of k cs = []) ∧
  (timeout_ms r <= total_elapsed l → phase p' = PHandle → calls_of k cs = [mkCall k cb 0]).
Proof.
  intros Hr Hf Hcb Ht Hc Hph Hq Hrun.
  assert (waits k cb (timeout_ms r) 0 [] p) as Hw.
  { split; [done|exists r|]; rewrite (proj2 (Z.ltb_lt _ _)) by lia; [|by rewrite Hph]. split_and!; try done. lia. }
  assert (waits k cb (timeout_ms r) (total_elapsed l) cs p') as [_ _ H3].
  { change cs with ([] ++ cs). replace (total_elapsed l) with (0 + total_elapsed l) by lia. revert Hw Hrun Hq.
    generalize 0 as e, (@nil Call) as pre. clear -Ht. revert p cs. induction l as [|a l IH]; intros p cs e pre Hw Hrun Hq; cbn in Hrun.
    - injection Hrun as <- <-. rewrite app_nil_r. cbn. by rewrite Z.add_0_r.
    - apply Forall_cons in Hq as [Hqa Hq]. destruct (step p a) as [[p1 c]|] eqn:Hs; [|done]. cbn in Hrun.
      destruct (run p1 l) as [[p2 cs']|] eqn:Hr; [|done]. injection Hrun as <- <-. rewrite app_assoc.
      cbn. rewrite Z.add_assoc. apply (IH p1); [|done|done]. by apply (waits_step k cb _ e pre p a p1 c). }
  split.
  - intros Hlt. rewrite (proj2 (Z.ltb_lt _ _)) in H3 by lia. apply H3.
  - intros Hge Hph'. rewrite (proj2 (Z.ltb_ge _ _)) in H3 by lia. rewrite Hph' in H3. cbn [responses_of] in H3. rewrite lookup_empty in H3.
    destruct H3 as [[_ ?]|[? _]]; done.
Qed.

End timeouts.

(** ** Examples *)

Module PollSample.

#[export] Instance map_epoll : Epoll := {|
  epoll := gmap Z Z;
  epoll_create := ∅;
  epoll_ctl e op fd ev :=
    match op, e !! fd with
    | CTL_ADD, None | CTL_MOD, Some _ => <[fd := ev]> e
    | CTL_DEL, _ => delete fd e
    | _, _ => e
    end;
  fd_closed e fd := delete fd e;
  watched e := e
|}.
#[export] Instance map_epoll_laws : EpollLaws.
Proof. split; [done|..]; intros; cbn; try case_match; done. Qed.

Definition reads5 : PollRequest := mkRequest 5 EPOLLIN 250 (Some (user_callback 0)).
Definition writes5 : PollRequest := mkRequest 5 EPOLLOUT (-1) (Some (user_callback 1)).
Definition empty_round (ms : Z) : list Act := [AHandle; ATimeout; APoll 0 (ms * 1000000) []; ARound].
Definition polls : list Act :=
  [AHandle; ATimeout; APoll 0 200000000 []; ARound; AHandle; ATimeout; APoll 0 60000000 []; AAnswer 5; ARound].
Definition handled : Poller :=
  match run (Init 3) ([ARegister reads5 true] ++ empty_round 5) with Some (p, _) => p | None => Init 3 end.

End PollSample.
Import PollSample.

Lemma watches_requests_witness :
  ∃ p cs, run (Init 3) [ARegister reads5 true; AHandle; ARegister writes5 true] = Some (p, cs) ∧
    watched (epoll_fd_ (HandleChanges p)) = events <$> requests_ p.
Proof.
  destruct (run (Init 3) [ARegister reads5 true; AHandle; ARegister writes5 true]) as [[p cs]|] eqn:Hr; [|discriminate].
  exists p, cs. split; [reflexivity|]. apply (watches_requests 3 _ p cs Hr). vm_compute. reflexivity.
Defined.

Lemma handled_at_5 :
  requests_ handled !! 5 = Some (set_timeout reads5 245) ∧ ctrl_params_ handled !! 5 = None ∧ phase handled = PHandle.
Proof. by vm_compute. Qed.
Lemma polls_run : ∃ p cs, run handled polls = Some (p, cs) ∧ phase p = PHandle.
Proof. do 2 eexists. split; [vm_compute; reflexivity|reflexivity]. Qed.

Lemma timeout_answered_once_witness :
  ∃ p cs, run handled polls = Some (p, cs) ∧
    calls_of 5 cs = [mkCall 5 (user_callback 0) 0].
Proof.
  destruct handled_at_5 as (Hreq & Hc & Hp). destruct polls_run as (p & cs & Hr & Hp').
  exists p, cs. split; [exact Hr|].
  refine (proj2 (timeout_answered_once handled p polls cs 5 (set_timeout reads5 245) (user_callback 0)
    Hreq eq_refl eq_refl eq_refl Hc Hp _ Hr) _ Hp'); [|by vm_compute].
  repeat constructor; cbn; lia.
Defined.

(** Polls that take no time use up a timeout all the same: each counts as a millisecond.
    After 245 polls of a microsecond each, that wait for other descriptors, a timeout of
    245 milliseconds has run out. *)
Theorem quick_polls_hasten :
  let quick := [AHandle; ATimeout; APoll 0 1000 [(3, EPOLLIN)]; AAnswer 3; ARound] in
  ∃ p cs, run handled (concat (replicate 244 quick) ++ [AHandle; ATimeout; APoll 0 1000 []; AAnswer 5; ARound]) = Some (p, cs) ∧
    (timeout_ms <$> requests_ handled !! 5) = Some 245 ∧ calls_of 5 cs = [mkCall 5 (user_callback 0) 0].
Proof. do 2 eexists. split; [vm_compute; reflexivity|]. split; vm_compute; reflexivity. Qed.

(** A descriptor registered twice before the thread takes the first change is not
    watched: the second change replaces the addition. *)
Theorem double_register_unwatched :
  ∃ p, run (Init 3) [ARegister writes5 true; ARegister reads5 true; AHandle] = Some (p, []) ∧
    requests_ p !! 5 = Some reads5 ∧ ctrl_params_ p !! 5 = None ∧ watched (epoll_fd_ p) !! 5 = None.
Proof. eexists. split; [reflexivity|]. vm_compute. done. Qed.

(** One removed and registered again for other events, before the thread takes the
    removal, is watched for the old ones. *)
Theorem reregister_keeps_events :
  ∃ p, run handled [AUnregister reads5 true; ARegister writes5 true; AHandle] = Some (p, []) ∧
    requests_ p !! 5 = Some writes5 ∧ ctrl_params_ p !! 5 = None ∧ watched (epoll_fd_ p) !! 5 = Some EPOLLIN.
Proof. eexists. split; [reflexivity|]. vm_compute. done. Qed.
