(* ===== verification/PollHandler.v ===== *)
(** * Waiting for input and output (cyber/io/poll_handler.cc, session.cc)

    A routine that would block on a descriptor registers it with the poller and yields;
    the poller's callback keeps the response and has the scheduler wake the routine.
    Routines, the poller's thread, closers and other events are interleaved; the steps of
    a routine are what [Block] does up to its [Yield], the [Yield], and the rest of it.
    [Session] makes the calls of the socket interface, whose results are arguments, out
    of this. *)

From stdpp Require Import base numbers list gmap.
From Stdlib Require Import ZArith Lia.
From S2P Require Import Prelude CRoutine Poller.

Open Scope Z_scope.

Definition EPOLLET : Z := 2 ^ 31.
Definition EPOLLONESHOT : Z := 2 ^ 30.

Record PollHandler := mkHandler {
  fd_ : Z; request_ : PollRequest; response_ : Z; is_read_ : bool; is_blocking_ : bool; routine_ : option nat
}.

(** [PollHandler(fd)]. *)
Definition PollHandler_new (fd : Z) : PollHandler := mkHandler fd PollRequest_default 0 false false None.

Definition set_request (h : PollHandler) (r : PollRequest) (is_read : bool) : PollHandler :=
  mkHandler (fd_ h) r (response_ h) is_read (is_blocking_ h) (routine_ h).
Definition set_response (h : PollHandler) (ev : Z) : PollHandler :=
  mkHandler (fd_ h) (request_ h) ev (is_read_ h) (is_blocking_ h) (routine_ h).
Definition set_blocking (h : PollHandler) (b : bool) : PollHandler :=
  mkHandler (fd_ h) (request_ h) (response_ h) (is_read_ h) b (routine_ h).
Definition set_routine (h : PollHandler) (c : nat) : PollHandler :=
  mkHandler (fd_ h) (request_ h) (response_ h) (is_read_ h) (is_blocking_ h) (Some c).

(** [Check(timeout_ms)], called by the routine [current], if by one. *)
Definition Check_ (h : PollHandler) (timeout_ms : Z) (current : option nat) : PollHandler * bool :=
  if timeout_ms =? 0 then (h, false)
  else if fd_ h <? 0 then (h, false)
  else
    match current with
    | None => (mkHandler (fd_ h) (request_ h) (response_ h) (is_read_ h) (is_blocking_ h) None, false)
    | Some c => (set_routine h c, true)
    end.

Definition target_events (is_read : bool) : Z := if is_read then EPOLLIN else EPOLLOUT.

(** [Fill(timeout_ms, is_read)] of the handler with this number. *)
Definition Fill (i : nat) (h : PollHandler) (timeout_ms : Z) (is_read : bool) : PollHandler :=
  set_request h
    (mkRequest (fd_ h) (Z.lor (Z.lor EPOLLET EPOLLONESHOT) (target_events is_read)) timeout_ms (Some (user_callback i)))
    is_read.

Section io.
Context `{Epoll}.

(** Where a routine is: in no [Block], before its [Yield], or behind it. *)
Inductive Place := PlOutside | PlBefore (i : nat) (is_read : bool) | PlBehind (i : nat) (is_read : bool).

(** What happened, for the statements: [Block] began to wait, the handler took a response
    while blocking, [Block] returned after its [Yield]. *)
Inductive Note :=
  | NWait (i : nat) | NResponse (i : nat) (ev : Z) | NReturn (c i : nat) (is_read result : bool).

Record IO := mkIO {
  poller : Poller; handlers : gmap nat PollHandler; routines : gmap nat (CRoutine * Place); notes : list Note
}.

Definition set_handler (s : IO) (i : nat) (h : PollHandler) : IO :=
  mkIO (poller s) (<[i := h]> (handlers s)) (routines s) (notes s).
Definition place (s : IO) (c : nat) (r : CRoutine) (pl : Place) : IO :=
  mkIO (poller s) (handlers s) (<[c := (r, pl)]> (routines s)) (notes s).
Definition note (s : IO) (n : Note) : IO := mkIO (poller s) (handlers s) (routines s) (notes s ++ [n]).

(** [Block(timeout_ms, is_read)] up to the [Yield]: whether it got that far. *)
Definition Block (s : IO) (current : option nat) (i : nat) (timeout_ms : Z) (is_read owns_lock : bool) : option (IO * bool) :=
  h ← handlers s !! i;
  match Check_ h timeout_ms current with
  | (h, false) => Some (set_handler s i h, false)
  | (h, true) =>
      if is_blocking_ h then Some (set_handler s i h, false)
      else
        let h := Fill i (set_blocking h true) timeout_ms is_read in
        match Register (poller s) (request_ h) owns_lock with
        | (p, false) => Some (mkIO p (<[i := set_blocking h false]> (handlers s)) (routines s) (notes s), false)
        | (p, true) => Some (mkIO p (<[i := h]> (handlers s)) (routines s) (notes s), true)
        end
  end.

(** What it does after the [Yield]. *)
Definition Block_rest (h : PollHandler) (is_read : bool) : PollHandler * bool :=
  (set_blocking h false, negb (Z.land (response_ h) (target_events is_read) =? 0)).

Definition Unblock (s : IO) (i : nat) (owns_lock : bool) : option (IO * bool) :=
  h ← handlers s !! i;
  let '(p, ok) := Unregister (poller s) (request_ h) owns_lock in
  Some (mkIO p (<[i := set_blocking h false]> (handlers s)) (routines s) (notes s), ok).

(** [NotifyTask(id)]: the scheduler leaves the routine an event if it waits for one. *)
Definition NotifyTask (s : IO) (c : nat) : option IO :=
  '(r, pl) ← routines s !! c;
  Some (place s c (if waits_for_event (state_ r) then SetUpdateFlag r else r) pl).

(** [ResponseCallback(rsp)]. *)
Definition ResponseCallback (s : IO) (i : nat) (ev : Z) : option IO :=
  h ← handlers s !! i;
  match is_blocking_ h, routine_ h with
  | true, Some c =>
      let s := note (set_handler s i (set_response h ev)) (NResponse i ev) in
      '(r, _) ← routines s !! c;
      if bool_decide (state_ r = IO_WAIT) then NotifyTask s c else Some s
  | _, _ => Some s
  end.

(** ** Steps *)

Inductive Step :=
  | SBlock (c i : nat) (timeout_ms : Z) (is_read owns_lock : bool)
  | SYield (c : nat)
  | SResume (now : Z) (c : nat)  (** a processor finds the routine ready and resumes it *)
  | SNotify (c : nat)  (** some other event is for the routine *)
  | SUnblock (i : nat) (owns_lock : bool)
  | SPoll (a : Act).  (** the poller's thread, or a descriptor is closed *)

Definition step_io (s : IO) (a : Step) : option IO :=
  match a with
  | SBlock c i t is_read l =>
      '(r, pl) ← routines s !! c;
      match pl with
      | PlOutside =>
          '(s, waits) ← Block s (Some c) i t is_read l;
          if waits : bool then Some (place (note s (NWait i)) c r (PlBefore i is_read)) else Some s
      | _ => None
      end
  | SYield c =>
      '(r, pl) ← routines s !! c;
      match pl with
      | PlBefore i is_read => Some (place s c (Yield_state r IO_WAIT) (PlBehind i is_read))
      | _ => None
      end
  | SResume now c =>
      '(r, pl) ← routines s !! c;
      match pl with
      | PlBehind i is_read =>
          let r := UpdateState now r in
          if bool_decide (state_ r = READY) then
            h ← handlers s !! i;
            let '(h, result) := Block_rest h is_read in
            Some (place (note (set_handler s i h) (NReturn c i is_read result)) c r PlOutside)
          else None
      | _ => None
      end
  | SNotify c => NotifyTask s c
  | SUnblock i l => fst <$> Unblock s i l
  | SPoll a =>
      match a with
      | ARegister _ _ | AUnregister _ _ => None
      | _ =>
          '(p, call) ← step (poller s) a;
          let s := mkIO p (handlers s) (routines s) (notes s) in
          match call with
          | Some (mkCall _ (user_callback i) ev) => ResponseCallback s i ev
          | _ => Some s
          end
      end
  end.

Fixpoint run_io (s : IO) (l : list Step) : option IO :=
  match l with [] => Some s | a :: l => s ← step_io s a; run_io s l end.

(** The poller, handlers of these descriptors, and as many routines, running. *)
Definition IO_new (pipe_fd : Z) (fds : list Z) : IO :=
  mkIO (Init pipe_fd) (map_seq 0 (PollHandler_new <$> fds))
    (map_seq 0 ((λ _, (CRoutine_new 0, PlOutside)) <$> fds)) [].

End io.

(** ** Session *)

(** What a call of the socket interface answers: bytes, that it would block, or that it
    failed otherwise. *)
Inductive Sys := SysDone (n : Z) | SysAgain | SysError.
#[global] Instance Sys_eq_dec : EqDecision Sys.
Proof. solve_decision. Defined.
Definition nbytes (x : Sys) : Z := match x with SysDone n => n | _ => -1 end.

(** [Recv], [RecvFrom], [Send], [SendTo], [Read] and [Write] with this timeout: the
    call's results in turn, with what the [Block] before each answers; the result and
    how often it blocked. *)
Fixpoint transfer_loop (timeout_ms : Z) (x : Sys) (rest : list (bool * Sys)) : option (Sys * nat) :=
  match x with
  | SysAgain =>
      match rest with
      | [] => None
      | (ready, y) :: rest =>
          let x := if ready : bool then y else SysAgain in
          if 0 <? timeout_ms then Some (x, 1%nat)
          else '(z, n) ← transfer_loop timeout_ms x rest; Some (z, S n)
      end
  | _ => Some (x, 0%nat)
  end.
Definition transfer (timeout_ms : Z) (x : Sys) (rest : list (bool * Sys)) : option (Sys * nat) :=
  if timeout_ms =? 0 then Some (x, 0%nat) else transfer_loop timeout_ms x rest.

(** [Accept]: a session for the new descriptor, which may be had only after blocking. *)
Fixpoint Accept (x : Sys) (rest : list Sys) : option (option Z) :=
  match x with
  | SysDone fd => Some (Some fd)
  | SysError => Some None
  | SysAgain => match rest with [] => None | y :: rest => Accept y rest end
  end.

(** [Connect]: in progress, it waits and asks for the error, if it was given one. *)
Definition Connect (in_progress : bool) (res : Z) (optval : Z) : Z :=
  if (res =? -1) && in_progress then if optval =? 0 then 0 else res else res.

(** ** Answers *)

(** The last response a handler took since it last began to wait. *)
Definition answered_by (i : nat) (o : option Z) (n : Note) : option Z :=
  match n with
  | NWait j => if decide (j = i) then None else o
  | NResponse j ev => if decide (j = i) then Some ev else o
  | NReturn _ _ _ _ => o
  end.
Definition answered (i : nat) (l : list Note) : option Z := foldl (answered_by i) None l.

(** Every return tells the truth about the response. *)
Definition truthful (l : list Note) : Prop :=
  ∀ pre c i is_read result post, l = pre ++ NReturn c i is_read result :: post →
  ∃ ev, answered i pre = Some ev ∧ result = negb (Z.land ev (target_events is_read) =? 0).

Lemma truthful_snoc l n :
  truthful l →
  (∀ c i is_read result, n = NReturn c i is_read result →
   ∃ ev, answered i l = Some ev ∧ result = negb (Z.land ev (target_events is_read) =? 0)) →
  truthful (l ++ [n]).
Proof.
  intros Hl Hn pre c i is_read result post He. destruct post as [|x post _] using rev_ind.
  - apply app_inj_tail in He as [-> ->]. by eapply Hn.
  - rewrite app_comm_cons, app_assoc in He. apply app_inj_tail in He as [-> _]. by eapply Hl.
Qed.

Lemma answered_snoc i l n : answered i (l ++ [n]) = answered_by i (answered i l) n.
Proof. unfold answered. by rewrite foldl_app. Qed.

Section answers.
Context `{Epoll}.

(** Each routine uses its own handler, and no other event wakes it. *)
Definition own (a : Step) : Prop :=
  match a with SBlock c i _ _ _ => c = i | SNotify _ => False | _ => True end.

Definition placed (s : IO) (c : nat) (r : CRoutine) (pl : Place) : Prop :=
  match pl with
  | PlOutside => state_ r = READY ∧ updated_ r = true
  | PlBefore i _ => i = c ∧ state_ r = READY ∧ updated_ r = true
  | PlBehind i _ => i = c ∧ state_ r = IO_WAIT ∧
      (updated_ r = false → ∃ h, handlers s !! c = Some h ∧ answered c (notes s) = Some (response_ h))
  end.

Record io_inv (s : IO) : Prop := {
  io_routine : ∀ i h c, handlers s !! i = Some h → routine_ h = Some c → c = i;
  io_placed : ∀ c r pl, routines s !! c = Some (r, pl) → placed s c r pl;
  io_truthful : truthful (notes s)
}.

(** A routine is not concerned by what happens to other handlers. *)
Lemma placed_frame s s' c r pl :
  (∀ h, handlers s !! c = Some h → ∃ h', handlers s' !! c = Some h' ∧ response_ h' = response_ h) →
  answered c (notes s') = answered c (notes s) → placed s c r pl → placed s' c r pl.
Proof.
  intros Hh Ha Hp. destruct pl as [|i rd|i rd]; [done|done|]. destruct Hp as (H1 & H2 & H3). split; [done|]. split; [done|].
  intros Hu. destruct (H3 Hu) as (h & Hc & He). destruct (Hh h Hc) as (h' & Hc' & Hr). exists h'. by rewrite Ha, Hr.
Qed.

(** Steps that leave routines, responses and notes alone. *)
Lemma io_inv_frame s s' :
  io_inv s → routines s' = routines s → notes s' = notes s →
  (∀ c h, handlers s !! c = Some h → ∃ h', handlers s' !! c = Some h' ∧ response_ h' = response_ h) →
  (∀ i h c, handlers s' !! i = Some h → routine_ h = Some c → c = i) → io_inv s'.
Proof.
  intros [H1 H2 H3] Hr Hn Hh Hro. split; [done| |by rewrite Hn]. intros c r pl Hc. rewrite Hr in Hc.
  apply (placed_frame s); [by apply Hh|by rewrite Hn|by apply H2].
Qed.

Lemma set_handler_inv s i h h' :
  io_inv s → handlers s !! i = Some h → response_ h' = response_ h →
  (∀ c, routine_ h' = Some c → c = i) → ∀ p, io_inv (mkIO p (<[i := h']> (handlers s)) (routines s) (notes s)).
Proof.
  intros Hs Hi Hr Hc p. apply (io_inv_frame s); [done..| |]; cbn.
  - intros c g Hg. destruct (decide (c = i)) as [->|Hne]; [|rewrite lookup_insert_ne by done; eauto].
    rewrite lookup_insert_eq. exists h'. split; [done|]. by simplify_eq.
  - intros j g c. destruct (decide (j = i)) as [->|Hne].
    + rewrite lookup_insert_eq. intros [= <-]. apply Hc.
    + rewrite lookup_insert_ne by done. by apply (io_routine s Hs).
Qed.

Lemma Block_inv s i t is_read l s' waits :
  io_inv s → Block s (Some i) i t is_read l = Some (s', waits) →
  io_inv s' ∧ routines s' = routines s ∧ notes s' = notes s.
Proof.
  intros Hs Hb. unfold Block in Hb. destruct (handlers s !! i) as [h|] eqn:Hi; [|done]. cbn in Hb.
  unfold Check_ in Hb. destruct (t =? 0); [injection Hb as <- _; split; [|done]; by apply (set_handler_inv s i h); try done; intros c; apply (io_routine s Hs i h)|].
  destruct (fd_ h <? 0); [injection Hb as <- _; split; [|done]; by apply (set_handler_inv s i h); try done; intros c; apply (io_routine s Hs i h)|].
  cbn in Hb. destruct (is_blocking_ h).
  { injection Hb as <- _. split; [|done]. apply (set_handler_inv s i h); [done..|]. by intros c [= ->]. }
  destruct (Register _ _ _) as [p []]; injection Hb as <- _; split; try done;
    apply (set_handler_inv s i h); try done; by intros c [= ->].
Qed.

(** Beginning to wait, and yielding. *)
Lemma place_inv s c r pl : io_inv s → placed s c r pl → io_inv (place s c r pl).
Proof.
  intros [H1 H2 H3] Hp. split; [done| |done]. intros d q pd. cbn.
  destruct (decide (d = c)) as [->|Hne]; [rewrite lookup_insert_eq; intros [= <- <-]; exact Hp|].
  rewrite lookup_insert_ne by done. apply H2.
Qed.

(** A note that does not concern other routines than [c]. *)
Lemma note_placed s n c r pl :
  (∀ o, answered_by c o n = o) → placed s c r pl → placed (note s n) c r pl.
Proof. intros Hn. apply placed_frame; [eauto|]. change (notes (note s n)) with (notes s ++ [n]). by rewrite answered_snoc. Qed.

(** The routine's own response, in any of its places. *)
Lemma ResponseCallback_inv s i ev s' : io_inv s → ResponseCallback s i ev = Some s' → io_inv s'.
Proof.
  intros Hs Hr. unfold ResponseCallback in Hr. destruct (handlers s !! i) as [h|] eqn:Hi; [|done]. cbn in Hr.
  destruct (is_blocking_ h); [|by injection Hr as <-].
  destruct (routine_ h) as [c|] eqn:Hc; [|by injection Hr as <-]. assert (c = i) as -> by by apply (io_routine s Hs i h).
  destruct (routines s !! i) as [[r pl]|] eqn:Hp; [|done]. cbn in Hr.
  set (s1 := note (set_handler s i (set_response h ev)) (NResponse i ev)) in *.
  assert (notes s1 = notes s ++ [NResponse i ev]) as Hn1 by done.
  assert (handlers s1 = <[i := set_response h ev]> (handlers s)) as Hh1 by done.
  assert (answered i (notes s1) = Some ev) as Ha1 by (rewrite Hn1, answered_snoc; cbn; by rewrite decide_True).
  assert (io_inv s1) as Hs1.
  { destruct Hs as [H1 H2 H3]. split; cbn.
    - intros j g c. destruct (decide (j = i)) as [->|Hne].
      + rewrite lookup_insert_eq. intros [= <-]. by apply (H1 i h).
      + rewrite lookup_insert_ne by done. apply H1.
    - intros c q pd Hq. specialize (H2 c q pd Hq). destruct (decide (c = i)) as [->|Hne].
      + destruct pd as [|k rd|k rd]; [done|done|]. destruct H2 as (He & Hw & _). split; [done|]. split; [done|].
        intros _. exists (set_response h ev). by rewrite Hh1, lookup_insert_eq.
      + apply (placed_frame s); [|rewrite Hn1, answered_snoc; cbn; by rewrite decide_False|done].
        intros g Hg. exists g. by rewrite Hh1, lookup_insert_ne.
    - apply truthful_snoc; [done|]. intros; done. }
  case_bool_decide as Hst; [|by injection Hr as <-].
  unfold NotifyTask in Hr. change (routines s1) with (routines s) in Hr. rewrite Hp in Hr. cbn in Hr. injection Hr as <-.
  rewrite Hst. cbn. apply place_inv; [done|]. destruct Hs as [_ H2 _]. specialize (H2 i r pl Hp).
  destruct pl as [|k rd|k rd]; cbn in H2; [destruct H2; congruence|destruct H2 as (_ & ? & _); congruence|].
  destruct H2 as (He & _ & _). split; [done|]. split; [done|]. intros _. exists (set_response h ev).
  by rewrite Hh1, lookup_insert_eq.
Qed.

Lemma step_io_inv s a s' : io_inv s → own a → step_io s a = Some s' → io_inv s'.
Proof.
  intros Hs Ho Hst. destruct a as [c i t rd l|c|now c|c|i l|a]; cbn in Hst, Ho.
  - subst c. destruct (routines s !! i) as [[r pl]|] eqn:Hr; [|done]. cbn in Hst. destruct pl; try done.
    destruct (Block s (Some i) i t rd l) as [[s1 waits]|] eqn:Hb; [|done]. cbn in Hst.
    destruct (Block_inv s i t rd l s1 waits Hs Hb) as (Hs1 & Hr1 & Hn1). destruct waits; injection Hst as <-; [|done].
    pose proof (io_placed s Hs i r _ Hr) as [Hready Hu]. apply place_inv; [|done].
    destruct Hs1 as [H1 H2 H3]. split; [done| |by apply truthful_snoc].
    intros c q pd Hq. destruct (decide (c = i)) as [->|Hne].
    + change (routines s1 !! i = Some (q, pd)) in Hq. rewrite Hr1, Hr in Hq. by injection Hq as <- <-.
    + apply note_placed; [|by apply H2]. intros o. cbn. by rewrite decide_False.
  - destruct (routines s !! c) as [[r pl]|] eqn:Hr; [|done]. cbn in Hst. destruct pl as [|i rd|]; try done.
    injection Hst as <-. apply place_inv; [done|]. destruct (io_placed s Hs c r _ Hr) as (-> & _ & Hu).
    split; [done|]. split; [done|]. cbn. congruence.
  - destruct (routines s !! c) as [[r pl]|] eqn:Hr; [|done]. cbn in Hst. destruct pl as [| |i rd]; try done.
    destruct (io_placed s Hs c r _ Hr) as (-> & Hw & Hu).
    assert (UpdateState now r = set_updated (if updated_ r then r else set_state r READY) true) as Hup.
    { unfold UpdateState, sleep_over, take_event. rewrite bool_decide_eq_false_2 by congruence. cbn. rewrite Hw. by destruct (updated_ r). }
    case_bool_decide as Hready; [|done]. rewrite Hup in Hready.
    destruct (updated_ r); [cbn in Hready; congruence|]. destruct (Hu eq_refl) as (h & Hh & Ha). rewrite Hh in Hst. cbn in Hst.
    injection Hst as <-. apply place_inv; [|by rewrite Hup].
    assert (io_inv (set_handler s c (set_blocking h false))) as [H1 H2 H3].
    { apply (set_handler_inv s c h); [done..|]. intros d. apply (io_routine s Hs c h d Hh). }
    split; [done| |].
    + intros d q pd Hq. apply note_placed; [done|]. by apply H2.
    + apply truthful_snoc; [done|]. intros d j rd' res [= <- <- <- <-]. exists (response_ h). done.
  - done.
  - unfold Unblock in Hst. destruct (handlers s !! i) as [h|] eqn:Hi; [|done]. cbn in Hst.
    destruct (Unregister _ _ _) as [p ok]. injection Hst as <-.
    apply (set_handler_inv s i h); [done..|]. intros d. apply (io_routine s Hs i h d Hi).
  - assert (∀ p, io_inv (mkIO p (handlers s) (routines s) (notes s))) as Hf.
    { intros p. apply (io_inv_frame s); [done..| |]; cbn; [eauto|apply Hs]. }
    destruct a; try done;
      (destruct (step (poller s) _) as [[p call]|]; [|done]; cbn in Hst;
       destruct call as [[k [|i] ev]|]; [by injection Hst as <-|by apply (ResponseCallback_inv _ i ev s' (Hf p))|by injection Hst as <-]).
Qed.

Lemma IO_new_inv pipe_fd fds : io_inv (IO_new pipe_fd fds).
Proof.
  split.
  - intros i h c. unfold IO_new. cbn. rewrite lookup_map_seq_0, list_lookup_fmap.
    destruct (fds !! i); [|done]. cbn. by intros [= <-].
  - intros c r pl. unfold IO_new. cbn. rewrite lookup_map_seq_0, list_lookup_fmap.
    destruct (fds !! c); [|done]. cbn. by intros [= <- <-].
  - intros pre c i rd res post He. by destruct pre.
Qed.

(** [C15] A [Block] answers what its response said: however routines, the poller and
    closers interleave, if every routine has a handler of its own and no other event wakes
    it, each [Block] that returns after its [Yield] has had a response since it began to
    wait, and returns true exactly if the last one had the event it waited for. *)
Theorem block_answers_response (pipe_fd : Z) (fds : list Z) (l : list Step) (s : IO) :
  run_io (IO_new pipe_fd fds) l = Some s → Forall own l →
  ∀ pre c i is_read result post, notes s = pre ++ NReturn c i is_read result :: post →
  ∃ ev, answered i pre = Some ev ∧ result = negb (Z.land ev (target_events is_read) =? 0).
Proof.
  intros Hr Ho. assert (io_inv s) as [_ _ Ht]; [|exact Ht].
  revert Hr. generalize (IO_new_inv pipe_fd fds). generalize (IO_new pipe_fd fds) as s0. revert s.
  induction Ho as [|a l Ha Ho IH]; intros s s0 Hs0 Hr; cbn in Hr; [by injection Hr as <-|].
  destruct (step_io s0 a) as [s1|] eqn:Hs1; [|done]. cbn in Hr. apply (IH s s1); [|done]. by apply (step_io_inv s0 a).
Qed.

(** A response to a routine that has yielded wakes it: a processor can resume it, and
    then [Block] returns what the response says. *)
Theorem response_wakes (s s' : IO) (now : Z) (c i : nat) (ev : Z) (h : PollHandler) (r : CRoutine) (is_read : bool) :
  handlers s !! i = Some h → is_blocking_ h = true → routine_ h = Some c →
  routines s !! c = Some (r, PlBehind i is_read) → state_ r = IO_WAIT → ResponseCallback s i ev = Some s' →
  ∃ s'', step_io s' (SResume now c) = Some s'' ∧
    notes s'' = notes s ++ [NResponse i ev; NReturn c i is_read (negb (Z.land ev (target_events is_read) =? 0))].
Proof.
  intros Hh Hb Hc Hr Hw Hs. unfold ResponseCallback in Hs. rewrite Hh in Hs. cbn in Hs. rewrite Hb, Hc, Hr in Hs. cbn in Hs.
  rewrite bool_decide_eq_true_2 in Hs by done. unfold NotifyTask in Hs. cbn in Hs. rewrite Hr in Hs. cbn in Hs.
  injection Hs as <-. cbn. rewrite lookup_insert_eq. cbn. rewrite Hw. cbn.
  unfold UpdateState, sleep_over. cbn. rewrite Hw. cbn. unfold take_event. cbn. rewrite Hw. cbn. rewrite lookup_insert_eq. cbn.
  eexists. split; [done|]. cbn. by rewrite <- app_assoc.
Qed.

End answers.

(** ** A response that comes too early *)

Module HandlerSample.
Import Poller.PollSample.

(** A routine begins to wait for input on descriptor 5, epoll reports it and the poller
    calls back before the routine has yielded. *)
Definition hurry : list Step :=
  [SBlock 0 0 (-1) true true; SPoll AHandle; SPoll ATimeout; SPoll (APoll 0 1000000 [(5, EPOLLIN)]); SPoll (AAnswer 5);
   SPoll ARound; SYield 0].
Definition hurried : IO := default (IO_new 3 [5]) (run_io (IO_new 3 [5]) hurry).

Definition waits_then : list Step :=
  [SBlock 0 0 (-1) true true; SYield 0; SPoll AHandle; SPoll ATimeout; SPoll (APoll 0 1000000 [(5, EPOLLIN)]); SPoll (AAnswer 5);
   SPoll ARound; SResume 0 0].
End HandlerSample.
Import Poller.PollSample HandlerSample.

Lemma block_answers_response_witness :
  ∃ s, run_io (IO_new 3 [5]) waits_then = Some s ∧ notes s = [NWait 0; NResponse 0 EPOLLIN; NReturn 0 0 true true] ∧
    ∃ ev, answered 0 [NWait 0; NResponse 0 EPOLLIN] = Some ev ∧ true = negb (Z.land ev (target_events true) =? 0).
Proof.
  destruct (run_io (IO_new 3 [5]) waits_then) as [s|] eqn:Hr; [|discriminate].
  assert (notes s = [NWait 0; NResponse 0 EPOLLIN; NReturn 0 0 true true]) as Hn
    by (vm_compute in Hr; injection Hr as <-; reflexivity).
  exists s. split; [reflexivity|]. split; [exact Hn|].
  apply (block_answers_response 3 [5] waits_then s Hr) with (c := 0%nat) (post := []); [|exact Hn].
  repeat constructor.
Defined.

(** No event comes for descriptor 5, nor from elsewhere. *)
Definition undisturbed (a : Step) : Prop :=
  match a with
  | SNotify _ => False
  | SPoll (APoll _ _ ready) => Forall (λ e, e.1 ≠ 5) ready
  | _ => True
  end.

(** The only routine waits, no event is left for it, and the poller owes no answer. *)
Record asleep (s : IO) : Prop := {
  as_routine : ∀ c r pl, routines s !! c = Some (r, pl) →
    c = 0%nat ∧ pl = PlBehind 0 true ∧ state_ r = IO_WAIT ∧ updated_ r = true;
  as_there : is_Some (routines s !! 0%nat);
  as_requests : ∀ k q, requests_ (poller s) !! k = Some q →
    fd q = k ∧ if decide (k = 5) then timeout_ms q < 0 else callback q = Some drain_pipe;
  as_responses : responses_of (phase (poller s)) !! 5 = None
}.

Lemma no_event_no_update now r :
  state_ r = IO_WAIT → updated_ r = true → state_ (UpdateState now r) = IO_WAIT.
Proof.
  intros Hw Hu. unfold UpdateState, sleep_over, take_event. rewrite bool_decide_eq_false_2 by congruence. cbn. by rewrite Hu.
Qed.

Lemma asleep_poller s p :
  asleep s →
  (∀ k q, requests_ p !! k = Some q → fd q = k ∧ if decide (k = 5) then timeout_ms q < 0 else callback q = Some drain_pipe) →
  responses_of (phase p) !! 5 = None → asleep (mkIO p (handlers s) (routines s) (notes s)).
Proof. intros [H1 H2 H3 H4] Hr Hp. by split. Qed.

Lemma asleep_act s a s' : asleep s → undisturbed (SPoll a) → step_io s (SPoll a) = Some s' → asleep s'.
Proof.
  intros Hs Hu Hst. pose proof Hs as [H1 H2 H3 H4]. cbn in Hst, Hu.
  destruct a as [| |k| | |before after ready|k|]; try done; cbn in Hst.
  - injection Hst as <-. by apply asleep_poller.
  - destruct (phase (poller s)) eqn:Hp; try done. destruct (is_shutdown_ (poller s)); [done|]. injection Hst as <-.
    by apply asleep_poller.
  - destruct (phase (poller s)) eqn:Hp; try done. injection Hst as <-. by apply asleep_poller.
  - destruct (phase (poller s)) eqn:Hp; try done. injection Hst as <-. apply asleep_poller; [done|..]; cbn.
    + intros k q. rewrite lookup_fmap. destruct (requests_ (poller s) !! k) as [q0|] eqn:Hq; [|done]. intros [= <-].
      destruct (H3 k q0 Hq) as [Hf Hc]. unfold tick. destruct (ctrl_params_ (poller s) !! fd q0); [by split|]. split; [exact Hf|]. destruct (decide (k = 5)); [|exact Hc].
      unfold count_down. rewrite (proj2 (Z.ltb_ge _ _)) by lia. cbn. case_match; lia.
    + rewrite ready_elsewhere by done. unfold timeouts. rewrite lookup_omap.
      destruct (requests_ (poller s) !! 5) as [q|] eqn:Hq; [|done]. cbn. destruct (H3 5 q Hq) as [Hf Hc]. rewrite decide_True in Hc by done.
      unfold timed_out. destruct (ctrl_params_ (poller s) !! fd q); [done|]. unfold count_down. rewrite (proj2 (Z.ltb_ge _ _)) by lia.
      by rewrite (proj2 (Z.eqb_neq _ _)) by lia.
  - destruct (phase (poller s)) as [| | |responses] eqn:Hp; try done. cbn in H4.
    destruct (responses !! k) as [ev|] eqn:Hk; [|done]. cbn in Hst. assert (k ≠ 5) as Hne by (intros ->; congruence).
    unfold answer in Hst. cbn in Hst. destruct (requests_ (poller s) !! k) as [q|] eqn:Hq; cbn in Hst.
    + destruct (H3 k q Hq) as [Hf Hc]. rewrite decide_False in Hc by done. rewrite Hc in Hst. cbn in Hst. injection Hst as <-.
      apply asleep_poller; [done| |cbn; by rewrite lookup_delete_ne]. intros j g. cbn.
      destruct (decide (j = k)) as [->|Hj]; [|rewrite lookup_insert_ne by done; apply H3].
      rewrite lookup_insert_eq. intros [= <-]. rewrite decide_False by done. done.
    + injection Hst as <-. apply asleep_poller; [done|done|]. cbn. by rewrite lookup_delete_ne.
  - destruct (phase (poller s)) as [| | |responses] eqn:Hp; try done. case_bool_decide; [|done]. injection Hst as <-.
    by apply asleep_poller.
Qed.

Lemma asleep_step s a s' : asleep s → undisturbed a → step_io s a = Some s' → asleep s'.
Proof.
  intros Hs Hu Hst. pose proof Hs as [H1 H2 H3 H4]. destruct a as [c i t rd l|c|now c|c|i l|a]; cbn in Hst, Hu.
  - destruct (routines s !! c) as [[r pl]|] eqn:Hr; [|done]. destruct (H1 c r pl Hr) as (_ & -> & _). done.
  - destruct (routines s !! c) as [[r pl]|] eqn:Hr; [|done]. destruct (H1 c r pl Hr) as (_ & -> & _). done.
  - destruct (routines s !! c) as [[r pl]|] eqn:Hr; [|done]. destruct (H1 c r pl Hr) as (_ & -> & Hw & Hup). cbn in Hst.
    rewrite no_event_no_update, bool_decide_eq_false_2 in Hst by done. done.
  - done.
  - unfold Unblock in Hst. destruct (handlers s !! i) as [h|]; [|done]. cbn in Hst.
    assert (∀ q, requests_ (Unregister (poller s) (request_ h) l).1 !! q = None ∨
      requests_ (Unregister (poller s) (request_ h) l).1 !! q = requests_ (poller s) !! q) as Hq.
    { intros q. unfold Unregister. repeat case_match; try (by right); destruct l; cbn;
        (destruct (decide (q = fd (request_ h))) as [->|Hne]; [left; apply lookup_delete_eq|right; by rewrite lookup_delete_ne]). }
    assert (phase (Unregister (poller s) (request_ h) l).1 = phase (poller s)) as Hp
      by (unfold Unregister; repeat case_match; by destruct l).
    destruct (Unregister _ _ _) as [p ok]. injection Hst as <-. cbn in *. split; [done|done| |cbn; by rewrite Hp].
    intros k q E. change (requests_ p !! k = Some q) in E. destruct (Hq k); [congruence|]. apply H3. congruence.
  - by apply (asleep_act s a).
Qed.

Lemma hurried_asleep : asleep hurried.
Proof.
  assert (∃ p h r n, hurried = mkIO p {[0%nat := h]} {[0%nat := (r, PlBehind 0 true)]} n ∧
    state_ r = IO_WAIT ∧ updated_ r = true ∧ responses_of (phase p) !! 5 = None ∧
    requests_ p = {[3 := mkRequest 3 EPOLLIN (-1) (Some drain_pipe);
      5 := mkRequest 5 (EPOLLET + EPOLLONESHOT + EPOLLIN) (-1) (Some (user_callback 0))]})
    as (p & h & r & n & -> & Hw & Hu & Hp & Hr)
    by (do 4 eexists; split; [vm_compute; reflexivity|split; [reflexivity|split; [reflexivity|split; reflexivity]]]).
  split; cbn.
  - intros c q pl. rewrite lookup_singleton_Some. intros [<- [= <- <-]]. done.
  - rewrite lookup_singleton_eq. eauto.
  - intros k q. rewrite Hr. rewrite lookup_insert_Some, lookup_singleton_Some.
    intros [[<- <-]|[Hne [<- <-]]]; done.
  - done.
Qed.

(** A response that comes before the routine has yielded is lost: the handler keeps it
    but wakes nobody, and the routine then waits for ever, whatever the poller does,
    unless another event comes. *)
Theorem early_response_lost (l : list Step) (s : IO) :
  (∃ h, handlers hurried !! 0%nat = Some h ∧ response_ h = EPOLLIN ∧ is_blocking_ h = true) ∧
  (Forall undisturbed l → run_io hurried l = Some s →
   ∃ r, routines s !! 0%nat = Some (r, PlBehind 0 true) ∧ ∀ now, state_ (UpdateState now r) = IO_WAIT).
Proof.
  split; [eexists; split; [vm_compute; reflexivity|done]|]. intros Hl Hr. assert (asleep s) as [H1 [[r pl] H2] _ _].
  { revert Hr. generalize hurried_asleep. generalize hurried as s0. induction Hl as [|a l Ha Hl IH]; intros s0 Hs0 Hr; cbn in Hr.
    - by injection Hr as <-.
    - destruct (step_io s0 a) as [s1|] eqn:Hs1; [|done]. cbn in Hr. apply (IH s1); [|done]. by apply (asleep_step s0 a). }
  destruct (H1 _ _ _ H2) as (_ & -> & Hw & Hu). exists r. split; [done|]. intros now.
  by apply no_event_no_update.
Qed.

(** A second routine that blocks on a handler in use is refused, but takes the handler's
    wake-up with it: the first one is not woken by its response. *)
Theorem second_blocker_steals :
  ∃ s r, run_io (IO_new 3 [5; 6]) [SBlock 0 0 (-1) true true; SYield 0; SBlock 1 0 (-1) true true; SPoll AHandle; SPoll ATimeout;
      SPoll (APoll 0 1000000 [(5, EPOLLIN)]); SPoll (AAnswer 5); SPoll ARound] = Some s ∧
    notes s = [NWait 0; NResponse 0 EPOLLIN] ∧ routines s !! 0%nat = Some (r, PlBehind 0 true) ∧
    state_ (UpdateState 0 r) = IO_WAIT.
Proof. do 2 eexists. split; [vm_compute; reflexivity|]. vm_compute. done. Qed.

(** Another event for the routine ends its wait with the response of the time before. *)
Theorem stale_response_counts :
  ∃ s, run_io (IO_new 3 [5]) (waits_then ++ [SBlock 0 0 (-1) true true; SYield 0; SNotify 0; SResume 0 0]) = Some s ∧
    notes s = [NWait 0; NResponse 0 EPOLLIN; NReturn 0 0 true true; NWait 0; NReturn 0 0 true true].
Proof. eexists. split; [vm_compute; reflexivity|]. done. Qed.

(** ** Transfers *)

(** A call that would not block is not delayed; without a timeout it is repeated until it
    does not block; with one it is repeated once; with zero never. *)
Theorem transfer_spec (timeout_ms : Z) (x : Sys) (rest : list (bool * Sys)) (y : Sys) (n : nat) :
  transfer timeout_ms x rest = Some (y, n) →
  (x ≠ SysAgain ∨ timeout_ms = 0 → y = x ∧ n = 0%nat) ∧
  (timeout_ms < 0 → y ≠ SysAgain) ∧ (0 < timeout_ms → (n <= 1)%nat) ∧
  (y ≠ x → ∃ k, rest !! k = Some (true, y) ∧ n = S k).
Proof.
  unfold transfer. destruct (timeout_ms =? 0) eqn:E; zbool; [intros [= <- <-]; split_and!; (lia || done)|].
  revert x n. induction rest as [|[ready z] rest IH]; intros x n Hn; destruct x as [b| |]; cbn in Hn; try done;
    try (injection Hn as <- <-; split_and!; (done || lia)).
  destruct (0 <? timeout_ms) eqn:E1; zbool.
  - injection Hn as <- <-. split_and!; [by intros [?|?]|lia|lia|]. destruct ready; [|done]. intros _. by exists 0%nat.
  - destruct (transfer_loop timeout_ms _ rest) as [[w m]|] eqn:Hm; [|done]. injection Hn as <- <-.
    destruct (IH _ _ Hm) as (H1 & H2 & _ & H4). split_and!; [by intros [?|?]|done|lia|].
    intros Hw. destruct ready.
    + destruct (decide (w = z)) as [->|Hne]; [|by destruct (H4 Hne) as (k & Hk & ->); exists (S k)].
      destruct z as [b| |]; [|done|]; destruct (H1 ltac:(left; done)) as [_ ->]; by exists 0%nat.
    + destruct (H4 Hw) as (k & Hk & ->). by exists (S k).
Qed.
