(* ===== verification/WakeUp.v ===== *)
(** * Waking a routine up (cyber/scheduler: processor.cc, policy/classic_context.cc,
    policy/choreography_context.cc, policy/scheduler_classic.cc,
    scheduler_choreography.cc; cyber/croutine; cyber/data)

    One routine built on a data visitor, the processors that may run it, and the
    threads that dispatch messages to its channel, every atomic access a step.  A
    dispatcher fills the buffer, looks at the routine's state, leaves the update
    flag, and counts a notification; a processor scans, runs the routine for one
    turn of its loop, or waits for a notification for at most a second.  What the
    processors do with other routines is only that a scan may find another one. *)

From stdpp Require Import base numbers list strings.
From Stdlib Require Import ZArith Lia.
From S2P Require Import Prelude Interleave CRoutine.

Open Scope Z_scope.

Record Shared := mkShared {
  cr : CRoutine;
  in_callback : bool;   (* the routine yielded inside its callback *)
  unread : Z;           (* messages the visitor has not fetched *)
  handled : Z;          (* callbacks completed *)
  notify : Z            (* int: notify_grp_[group], or notify *)
}.

Definition set_cr (s : Shared) (c : CRoutine) : Shared :=
  mkShared c (in_callback s) (unread s) (handled s) (notify s).
Definition set_in_callback (s : Shared) (b : bool) : Shared :=
  mkShared (cr s) b (unread s) (handled s) (notify s).
Definition set_unread (s : Shared) (n : Z) : Shared :=
  mkShared (cr s) (in_callback s) n (handled s) (notify s).
Definition set_handled (s : Shared) (n : Z) : Shared :=
  mkShared (cr s) (in_callback s) (unread s) n (notify s).
Definition set_notify (s : Shared) (n : Z) : Shared :=
  mkShared (cr s) (in_callback s) (unread s) (handled s) n.

Inductive pc :=
(* a processor *)
| PScan | PUpdate | PTake (old : bool) | PResume | PWaitData | PFetch | PCall | PYield
| PRelease | PReleaseNone | PWait
(* a dispatcher *)
| NIdle | NState | NFlag | NNotify.

(** What the code does not decide: the clock, whether the wait times out, whether
    the scan finds another routine, whether the visitor is so far behind that it
    jumps to the newest message, whether the callback sleeps. *)
Record choice := mkChoice {
  now : Z;
  timeout : bool;
  other : bool;
  behind : bool;
  sleeps : option Z
}.

(** [Processor::Run] with [NextRoutine], [UpdateState], [Resume] and [Wait]. *)
Definition processor_step (ch : choice) (s : Shared) (p : pc) : option (Shared * pc) :=
  match p with
  | PScan =>
      let '(c, ok) := Acquire (cr s) in
      Some (set_cr s c, if ok then PUpdate else if other ch then PScan else PWait)
  | PUpdate =>
      if sleep_over (now ch) (cr s) then Some (set_cr s (set_state (cr s) READY), PResume)
      else let '(c, old) := test_and_set_updated (cr s) in Some (set_cr s c, PTake old)
  | PTake old =>
      let c := take_event (cr s) old in
      Some (set_cr s c, if decide (state_ c = READY) then PResume else PReleaseNone)
  | PResume =>
      if force_stop_ (cr s) then Some (set_cr s (set_state (cr s) FINISHED), PRelease)
      else if decide (state_ (cr s) = READY)
      then Some (s, if in_callback s then PCall else PWaitData)
      else Some (s, PRelease)
  | PWaitData => Some (set_cr s (set_state (cr s) DATA_WAIT), PFetch)
  | PFetch =>
      if 0 <? unread s
      then Some (set_in_callback (set_unread s (if behind ch then 0 else unread s - 1)) true, PCall)
      else Some (s, PRelease)
  | PCall =>
      match sleeps ch with
      | Some d => Some (set_cr s (Sleep (now ch) (cr s) d), PRelease)
      | None => Some (set_handled s (handled s + 1), PYield)
      end
  | PYield => Some (set_in_callback (set_cr s (Yield_state (cr s) READY)) false, PRelease)
  | PRelease => Some (set_cr s (Release (cr s)), PScan)
  | PReleaseNone => Some (set_cr s (Release (cr s)), if other ch then PScan else PWait)
  | PWait =>
      if 0 <? notify s then Some (set_notify s (notify s - 1), PScan)
      else if timeout ch then Some (s, PScan) else None
  | _ => None
  end.

(** [Dispatch] to the routine's channel: the buffer is filled, the notifier's
    callback runs [NotifyProcessor]. *)
Definition dispatcher_step (s : Shared) (p : pc) : option (Shared * pc) :=
  match p with
  | NIdle => Some (set_unread s (unread s + 1), NState)
  | NState => Some (s, if waits_for_event (state_ (cr s)) then NFlag else NNotify)
  | NFlag => Some (set_cr s (SetUpdateFlag (cr s)), NNotify)
  | NNotify => Some (set_notify s (i32 (notify s + 1)), NIdle)
  | _ => None
  end.

Definition wake_step (ch : choice) (t : nat) (s : Shared) (p : pc) : option (Shared * pc) :=
  match p with
  | NIdle | NState | NFlag | NNotify => dispatcher_step s p
  | _ => processor_step ch s p
  end.

(** A routine just created, [n0] notifications counted. *)
Definition shared_new (t0 n0 : Z) : Shared := mkShared (CRoutine_new t0) false 0 0 n0.

(** ** The invariant *)

(** The processor holds the routine's lock. *)
Definition holding (p : pc) : Z :=
  match p with
  | PUpdate | PTake _ | PResume | PWaitData | PFetch | PCall | PYield | PRelease | PReleaseNone => 1
  | _ => 0
  end.
(** The dispatcher has filled the buffer and will still set the flag if the
    routine waits. *)
Definition flagging (p : pc) : Z := match p with NState | NFlag => 1 | _ => 0 end.
(** The dispatcher has filled the buffer and will still notify. *)
Definition notifying (p : pc) : Z := match p with NState | NFlag | NNotify => 1 | _ => 0 end.
(** The processor is about to wake the routine, or to fetch. *)
Definition rescuing (p : pc) : Z := match p with PTake false | PFetch => 1 | _ => 0 end.

(** The processor is inside the routine's callback. *)
Definition calling (p : pc) : Z := match p with PCall | PYield => 1 | _ => 0 end.

Lemma holding_nonneg p : 0 <= holding p. Proof. by destruct p. Qed.
Lemma flagging_nonneg p : 0 <= flagging p. Proof. by destruct p. Qed.
Lemma calling_nonneg p : 0 <= calling p. Proof. by destruct p. Qed.
Lemma notifying_nonneg p : 0 <= notifying p. Proof. by destruct p. Qed.
Lemma rescuing_nonneg p : 0 <= rescuing p. Proof. by destruct p as [| |[]| | | | | | | | | | | |]. Qed.

Definition pc_ok (s : Shared) (p : pc) : Prop :=
  match p with
  | PResume => state_ (cr s) = READY
  | PWaitData => state_ (cr s) = READY ∧ in_callback s = false
  | PFetch => state_ (cr s) = DATA_WAIT ∧ in_callback s = false
  | PCall | PYield => in_callback s = true
  | _ => True
  end.

Record wake_inv (c : Shared * list pc) : Prop := {
  wi_lock : tally holding c.2 = if lock_ (cr c.1) then 1 else 0;
  wi_stop : force_stop_ (cr c.1) = false;
  wi_unread : 0 <= unread c.1;
  wi_state : state_ (cr c.1) = READY ∨ state_ (cr c.1) = DATA_WAIT ∨
             (state_ (cr c.1) = SLEEP ∧ in_callback c.1 = true);
  wi_pcs : ∀ i p, c.2 !! i = Some p → pc_ok c.1 p;
  wi_wake : 0 < unread c.1 → in_callback c.1 = false → state_ (cr c.1) = DATA_WAIT →
            updated_ (cr c.1) = false ∨ 0 < tally flagging c.2 ∨ 0 < tally rescuing c.2;
  wi_call : in_callback c.1 = true → state_ (cr c.1) = DATA_WAIT → 0 < tally calling c.2
}.

(** Two states that a thread without the lock cannot tell apart. *)
Definition same_routine (s s' : Shared) : Prop :=
  state_ (cr s') = state_ (cr s) ∧ in_callback s' = in_callback s.

Lemma pc_ok_same s s' p : same_routine s s' → pc_ok s p → pc_ok s' p.
Proof. intros [E1 E2]. destruct p; cbn; by rewrite ?E1, ?E2. Qed.

Lemma pc_ok_free s p : holding p = 0 → pc_ok s p.
Proof. by destruct p. Qed.

(** The step of one thread: the others keep their assertions because they do not
    hold the lock, or because the step leaves the routine as it was. *)
Lemma wake_inv_update s ps t p s' p' :
  wake_inv (s, ps) → ps !! t = Some p →
  same_routine s s' ∨ holding p = 1 →
  (if lock_ (cr s') then 1 else 0) = (if lock_ (cr s) then 1 else 0) - holding p + holding p' →
  force_stop_ (cr s') = false → 0 <= unread s' →
  state_ (cr s') = READY ∨ state_ (cr s') = DATA_WAIT ∨
    (state_ (cr s') = SLEEP ∧ in_callback s' = true) →
  pc_ok s' p' →
  (0 < unread s' → in_callback s' = false → state_ (cr s') = DATA_WAIT →
   updated_ (cr s') = false ∨ 0 < tally flagging ps - flagging p + flagging p' ∨
   0 < tally rescuing ps - rescuing p + rescuing p') →
  (in_callback s' = true → state_ (cr s') = DATA_WAIT →
   0 < tally calling ps - calling p + calling p') →
  wake_inv (s', <[t := p']> ps).
Proof.
  intros Hinv Ht Hsame Hlock Hstop Hun Hst Hok Hwake Hcall. destruct Hinv. cbn in *.
  split; cbn; rewrite ?(tally_insert _ ps t p p' Ht); auto; [lia|].
  intros i q [(_ & -> & _)|[Hne Hi]]%list_lookup_insert_Some; [done|].
  destruct Hsame as [Hsame|Hh]; [by eapply pc_ok_same; eauto|].
  apply pc_ok_free. pose proof (tally_two holding holding_nonneg ps t i p q Hne Ht Hi) as H2.
  pose proof (holding_nonneg q). destruct (lock_ (cr s)); lia.
Qed.

(** The flag and the lock, case by case. *)
Ltac wake_solve :=
  intros; zbool;
  repeat match goal with H : state_ (cr ?s) = _ |- _ => progress rewrite H in * end;
  cbn in *;
  repeat match goal with
         | |- context [updated_ ?c] => destruct (updated_ c) eqn:?
         | |- context [lock_ ?c] => destruct (lock_ c) eqn:?
         end;
  simplify_eq/=; try lia; naive_solver lia.

Lemma wake_inv_step c t ch p s' p' :
  wake_inv c → c.2 !! t = Some p → wake_step ch t c.1 p = Some (s', p') →
  wake_inv (s', <[t := p']> c.2).
Proof.
  destruct c as [s ps]. cbn [fst snd]. intros Hinv Ht Hs.
  pose proof Hinv as []. cbn [fst snd] in *.
  pose proof (wi_pcs0 t p Ht) as Hpc.
  pose proof (tally_elem holding holding_nonneg ps t p Ht) as Hh.
  pose proof (tally_elem flagging flagging_nonneg ps t p Ht) as Hf.
  pose proof (tally_elem rescuing rescuing_nonneg ps t p Ht) as Hr.
  pose proof (tally_elem calling calling_nonneg ps t p Ht) as Hc.
  destruct p as [| |old| | | | | | | | | | | |];
    cbn -[take_event sleep_over] in Hs, Hpc, Hh, Hf, Hr, Hc; unfold take_event in *;
    repeat case_match; simplify_eq;
    (eapply wake_inv_update; [exact Hinv|exact Ht| | | | | | | |]); cbn;
    try first [by right | by left | by repeat split]; try done; try lia; auto;
    first [intros; destruct Hpc; congruence | wake_solve].
Qed.

(** A processor between two scans or waiting, a dispatcher with nothing to do. *)
Definition at_rest (p : pc) : Prop := p = PScan ∨ p = PWait ∨ p = NIdle.

Lemma at_rest_weights p :
  at_rest p → holding p = 0 ∧ flagging p = 0 ∧ notifying p = 0 ∧ rescuing p = 0 ∧ calling p = 0.
Proof. by intros [->|[->| ->]]. Qed.

Lemma tally_rest (w : pc → Z) ps :
  (∀ p, at_rest p → w p = 0) → Forall at_rest ps → tally w ps = 0.
Proof.
  intros Hw Hps. apply tally_zero. intros i p Hi. apply Hw.
  by apply (proj1 (Forall_lookup _ _) Hps i).
Qed.

Lemma wake_inv_init t0 n0 ps : Forall at_rest ps → wake_inv (shared_new t0 n0, ps).
Proof.
  intros Hps. split; cbn; try done; try lia; [|by left|].
  - apply tally_rest; [|done]. intros p Hp. apply (at_rest_weights p Hp).
  - intros i p Hi. apply pc_ok_free.
    apply (at_rest_weights p), (proj1 (Forall_lookup _ _) Hps i p Hi).
Qed.

Lemma reach_wake_inv t0 n0 ps0 k c :
  Forall at_rest ps0 → reach wake_step (shared_new t0 n0, ps0) k c → wake_inv c.
Proof.
  intros Hps Hr.
  apply (reach_invariant wake_step k (λ _, wake_inv) _ k c (wake_inv_init t0 n0 ps0 Hps)); [|done|lia].
  intros. by eapply wake_inv_step.
Qed.

(** [C14] No wake-up is lost and no routine runs twice at once: with any number of
    processors and dispatchers and in every interleaving of their accesses, at
    most one processor holds the routine; and whenever no thread is half-way
    through, an unread message leaves the routine free and ready for the next
    scan, unless its callback is asleep. *)
Theorem wakeup_not_lost t0 n0 ps0 k s ps :
  Forall at_rest ps0 → reach wake_step (shared_new t0 n0, ps0) k (s, ps) →
  (∀ i j p q, i ≠ j → ps !! i = Some p → ps !! j = Some q → holding p = 1 → holding q = 0) ∧
  (Forall at_rest ps → 0 < unread s → ∀ now,
     (state_ (cr s) = SLEEP → in_callback s = true ∧ wake_time_ (cr s) < now) →
     lock_ (cr s) = false ∧ ready_at now (cr s) = true).
Proof.
  intros Hps Hr. destruct (reach_wake_inv _ _ _ _ _ Hps Hr). cbn in *. split.
  - intros i j p q Hne Hi Hj Hp.
    pose proof (tally_two holding holding_nonneg ps i j p q Hne Hi Hj).
    pose proof (holding_nonneg q). destruct (lock_ (cr s)); lia.
  - intros Hrest Hun now Hnow.
    assert (∀ w, (∀ p, at_rest p → w p = 0) → tally w ps = 0) as Hz
      by (intros; by apply tally_rest).
    rewrite Hz in wi_lock0 by apply at_rest_weights.
    rewrite !Hz in wi_wake0 by apply at_rest_weights.
    rewrite Hz in wi_call0 by apply at_rest_weights.
    split; [by destruct (lock_ (cr s))|]. apply ready_at_spec.
    destruct wi_state0 as [E|[E|[E1 E2]]]; [by left| |right; left; naive_solver].
    right; right. rewrite E. split; [done|].
    destruct (in_callback s); [specialize (wi_call0 eq_refl E); lia|].
    by destruct (wi_wake0 Hun eq_refl E) as [?|[?|?]]; [|lia..].
Qed.

(** ** One processor: the notification counter *)

(** The processor found nothing ready. *)
Definition found_nothing (s : Shared) (p : pc) : Prop :=
  match p with
  | PTake true => state_ (cr s) = DATA_WAIT
  | PReleaseNone | PWait => True
  | _ => False
  end.

Definition is_dispatcher (p : pc) : Prop :=
  match p with NIdle | NState | NFlag | NNotify => True | _ => False end.

Record single_inv (n0 : Z) (k : nat) (c : Shared * list pc) : Prop := {
  si_wake : wake_inv c;
  si_threads : ∀ i p, c.2 !! i = Some p → is_dispatcher p ↔ i ≠ 0%nat;
  si_notify : 0 <= notify c.1 <= n0 + Z.of_nat k;
  si_counted : ∀ p, c.2 !! 0%nat = Some p → found_nothing c.1 p → 0 < unread c.1 →
               in_callback c.1 = false → 0 < notify c.1 ∨ 0 < tally notifying c.2
}.

Lemma is_dispatcher_weights p : is_dispatcher p → holding p = 0 ∧ rescuing p = 0.
Proof. by destruct p. Qed.

(** With one processor, a free routine is never found locked. *)
Lemma single_scan_free n0 k s ps :
  single_inv n0 k (s, ps) → ps !! 0%nat = Some PScan → lock_ (cr s) = false.
Proof.
  intros [[Hl _ _ _ _ _ _] Hth _ _] H0. cbn in *.
  rewrite (tally_zero holding) in Hl; [by destruct (lock_ (cr s))|].
  intros i q Hi. destruct (decide (i = 0%nat)) as [->|Hne]; [by simplify_eq|].
  by apply is_dispatcher_weights, (Hth i q Hi).
Qed.

(** A dispatcher's step: the message it has added is counted, or will be. *)
Lemma dispatcher_counts n0 k s ps p s' p' :
  0 <= notify s <= n0 + Z.of_nat k → n0 + Z.of_nat k + 1 < 2 ^ 31 →
  notifying p <= tally notifying ps → dispatcher_step s p = Some (s', p') →
  is_dispatcher p' ∧ 0 <= notify s' <= n0 + Z.of_nat (S k) ∧
  (∀ q, found_nothing s' q ↔ found_nothing s q) ∧ in_callback s' = in_callback s ∧
  (0 < notify s' ∨ 0 < tally notifying ps - notifying p + notifying p' ∨
   (notify s' = notify s ∧ unread s' = unread s ∧ notifying p = notifying p')).
Proof.
  intros Hn Hk Hle Hs. destruct p; cbn in Hs, Hle |- *; simplify_eq; cbn.
  - repeat split; try done; try lia; by destruct q as [| |[]| | | | | | | | | | | |].
  - repeat split; try done; try lia; try (by destruct (waits_for_event _)).
    destruct (waits_for_event _); cbn; lia.
  - repeat split; try done; try lia; try (by destruct q as [| |[]| | | | | | | | | | | |]).
  - rewrite i32_small by (unfold is_i32; lia).
    repeat split; try done; try lia; try (by destruct q as [| |[]| | | | | | | | | | | |]).
Qed.

Lemma flagging_notifying ps : tally flagging ps <= tally notifying ps.
Proof. induction ps as [|p ps IH]; [done|]. cbn. destruct p; cbn; lia. Qed.

(** A processor's step: it finds nothing only where nothing is to be found or a
    dispatcher has not notified yet. *)
Lemma processor_counts n0 k s ps ch p s' p' :
  single_inv n0 k (s, ps) → ps !! 0%nat = Some p → processor_step ch s p = Some (s', p') →
  ¬ is_dispatcher p' ∧ 0 <= notify s' <= n0 + Z.of_nat k ∧
  (found_nothing s' p' → 0 < unread s' → in_callback s' = false →
   0 < notify s' ∨ 0 < tally notifying ps).
Proof.
  intros Hinv H0 Hs. pose proof (single_scan_free _ _ _ _ Hinv) as Hfree.
  destruct Hinv as [[Hl Hst Hun Hstate Hpcs Hwake Hcall] Hth Hn Hc]. cbn [fst snd] in *.
  specialize (Hc p H0). specialize (Hpcs 0%nat p H0).
  pose proof (flagging_notifying ps) as Hfn.
  assert (rescuing p = 0 → tally rescuing ps = 0) as Hres.
  { intros Hp. apply tally_zero. intros i q Hi.
    destruct (decide (i = 0%nat)) as [->|Hne]; [by simplify_eq|].
    by apply is_dispatcher_weights, (Hth i q Hi). }
  clear Hth Hl Hcall.
  destruct p as [| |old| | | | | | | | | | | |]; cbn -[take_event sleep_over] in Hs;
    unfold take_event in *; repeat case_match; simplify_eq; cbn in *; try done;
    (split; [tauto|]); (split; [zbool; lia|]); intros; try done; zbool; try (by auto).
  - rewrite Hfree in *; done.
  - destruct (updated_ (cr s)); [|done].
    destruct (Hwake ltac:(done) ltac:(done) ltac:(done)) as [?|[?|?]]; [done|lia|].
    rewrite Hres in *; lia.
  - destruct Hstate as [?|[E|[? ?]]]; [done| |congruence]. rewrite E in *.
    destruct old; [auto|done].
Qed.

Lemma single_inv_step n0 k s ps t ch p s' p' :
  n0 + Z.of_nat k + 1 < 2 ^ 31 →
  single_inv n0 k (s, ps) → ps !! t = Some p → wake_step ch t s p = Some (s', p') →
  single_inv n0 (S k) (s', <[t := p']> ps).
Proof.
  intros Hk Hinv Ht Hs. pose proof Hinv as [Hw Hth Hn Hc]. cbn [fst snd] in *.
  pose proof (tally_elem notifying notifying_nonneg ps t p Ht) as Hle.
  pose proof (wake_inv_step (s, ps) t ch p s' p' Hw Ht Hs) as Hw'.
  pose proof (Hth t p Ht) as Hd.
  destruct (decide (t = 0%nat)) as [->|Hne].
  - assert (processor_step ch s p = Some (s', p')) as Hp
      by (destruct p; first [exact Hs | by destruct (proj1 Hd I)]).
    destruct (processor_counts _ _ _ _ _ _ _ _ Hinv Ht Hp) as (Hd' & Hn' & Hc').
    split; cbn [fst snd]; [done| |lia|].
    + intros i q [(<- & -> & _)|[Hne Hi]]%list_lookup_insert_Some; [|by apply Hth]. tauto.
    + intros q Hq. rewrite list_lookup_insert_eq in Hq by (by apply lookup_lt_Some in Ht).
      injection Hq as <-. rewrite (tally_insert notifying ps 0 p p' Ht).
      assert (notifying p = 0 ∧ notifying p' = 0) as [-> ->].
      { assert (¬ is_dispatcher p) by tauto. by destruct p, p'. }
      rewrite Z.sub_0_r, Z.add_0_r. exact Hc'.
  - assert (dispatcher_step s p = Some (s', p')) as Hp
      by (destruct p; first [exact Hs | by destruct (proj2 Hd Hne)]).
    destruct (dispatcher_counts _ _ _ _ _ _ _ Hn Hk Hle Hp) as (Hd' & Hn' & Hf & Hcb & Hcase).
    split; cbn [fst snd]; [done| |done|].
    + intros i q [(<- & -> & _)|[Hni Hi]]%list_lookup_insert_Some; [tauto|by apply Hth].
    + intros q Hq Hfq Hu Hb. rewrite list_lookup_insert_ne in Hq by done.
      rewrite (tally_insert notifying ps t p p' Ht). rewrite Hf in Hfq. rewrite Hcb in Hb.
      destruct Hcase as [?|[?|(E1 & E2 & E3)]]; [by left|by right|].
      rewrite E1, E3, Z.sub_add. apply (Hc q Hq Hfq); [lia|done].
Qed.

(** One processor never sleeps on a message: with a single processor for the
    routine (the choreography policy, or a group of one) and any number of
    dispatchers, when the processor waits and a message is unread, and every
    dispatcher has finished, a notification is counted, so the wait returns at once
    instead of after its time-out, and the scan that follows finds the routine ready;
    unless the routine's callback is asleep. *)
Theorem single_processor_wakes t0 n0 m k s ps :
  0 <= n0 → n0 + Z.of_nat k < 2 ^ 31 →
  reach wake_step (shared_new t0 n0, PWait :: replicate m NIdle) k (s, ps) →
  ps !! 0%nat = Some PWait → Forall at_rest ps → 0 < unread s → in_callback s = false →
  0 < notify s ∧
  ∀ ch, ∃ s', wake_step ch 0 s PWait = Some (s', PScan) ∧ ready_at (now ch) (cr s') = true.
Proof.
  intros Hn0 Hk Hr Hp Hrest Hu Hb.
  assert (Forall at_rest (PWait :: replicate m NIdle)) as Hinit.
  { constructor; [by right; left|]. apply Forall_replicate. by right; right. }
  assert (single_inv n0 k (s, ps)) as Hinv.
  { apply (reach_invariant wake_step k (single_inv n0) _ k _) in Hr; [done| | |lia].
    - split; cbn; [by apply wake_inv_init| |lia|lia].
      intros [|i] p Hi; [by injection Hi as <-|].
      apply lookup_replicate in Hi as [-> _]. done.
    - intros n [s1 ps1] t ch p s' p' Hlt Hi Ht Hs.
      by apply (single_inv_step n0 n s1 ps1 t ch p); [lia|..]. }
  assert (0 < notify s) as Hnot.
  { destruct (si_counted _ _ _ Hinv PWait Hp I Hu Hb) as [?|Hn]; [done|].
    rewrite tally_rest in Hn; [lia|apply at_rest_weights|done]. }
  split; [done|]. intros ch. cbn. rewrite (proj2 (Z.ltb_lt _ _) Hnot).
  eexists. split; [done|]. cbn.
  destruct (reach_wake_inv _ _ _ _ _ Hinit Hr). cbn in *. apply ready_at_spec.
  destruct wi_state0 as [E|[E|[_ E]]]; [by left| |congruence]. right; right. rewrite E.
  split; [done|]. destruct (wi_wake0 Hu Hb E) as [?|[H|H]]; [done|..];
    rewrite tally_rest in H; first [done | apply at_rest_weights | lia].
Qed.

Definition go : choice := mkChoice 0 false false false None.

(** The processor runs the routine once, finds nothing and waits; a message comes. *)
Lemma single_processor_wakes_witness :
  ∃ s, reach wake_step (shared_new 0 1, [PWait; NIdle]) 16 (s, [PWait; NIdle]) ∧
    unread s = 1 ∧ 0 < notify s.
Proof.
  set (l := replicate 12 (0%nat, go) ++ replicate 4 (1%nat, go)).
  set (c0 := (shared_new 0 1, [PWait; NIdle])).
  destruct (run_schedule wake_step l c0) as [[s ps]|] eqn:E; [|vm_compute in E; discriminate].
  assert (reach wake_step c0 16 (s, ps)) as Hr
    by apply (run_schedule_reach wake_step l 0 c0 c0 (s, ps) (reach_refl _ _) E).
  assert (ps = [PWait; NIdle] ∧ unread s = 1 ∧ in_callback s = false) as (-> & Hu & Hb).
  { vm_compute in E. by injection E as <- <-. }
  exists s. split; [exact Hr|]. split; [exact Hu|].
  refine (proj1 (single_processor_wakes 0 1 1 16 s [PWait; NIdle] _ _ Hr eq_refl _ _ Hb));
    [lia|lia|unfold at_rest; repeat (apply Forall_cons_2 || apply Forall_nil_2); auto|rewrite Hu; lia].
Defined.

Lemma wakeup_not_lost_witness :
  ∃ s, reach wake_step (shared_new 0 0, [PScan; PWait; NIdle]) 17 (s, [PWait; PWait; NIdle]) ∧
    ready_at 5 (cr s) = true.
Proof.
  set (l := replicate 10 (0%nat, go) ++ replicate 4 (2%nat, go) ++ replicate 2 (1%nat, go)
              ++ [(0%nat, go)]).
  set (c0 := (shared_new 0 0, [PScan; PWait; NIdle])).
  destruct (run_schedule wake_step l c0) as [[s ps]|] eqn:E; [|vm_compute in E; discriminate].
  assert (reach wake_step c0 17 (s, ps)) as Hr
    by apply (run_schedule_reach wake_step l 0 c0 c0 (s, ps) (reach_refl _ _) E).
  assert (ps = [PWait; PWait; NIdle] ∧ unread s = 1 ∧ state_ (cr s) = DATA_WAIT) as (-> & Hu & Hst).
  { vm_compute in E. by injection E as <- <-. }
  exists s. split; [exact Hr|].
  refine (proj2 (proj2 (wakeup_not_lost 0 0 [PScan; PWait; NIdle] 17 s [PWait; PWait; NIdle] _ Hr)
    _ _ 5 _)); [unfold at_rest; repeat (apply Forall_cons_2 || apply Forall_nil_2); auto..|rewrite Hu; lia|rewrite Hst; discriminate].
Defined.

(** A pool may sleep on a message: with two processors, one that is just
    letting go of the routine it found idle makes the other, woken for the new
    message, skip it; both then wait although the message is unread, the routine is
    free and ready, and its dispatcher has finished. Only the time-out of a second
    ends the wait. *)
Theorem pool_wakeup_delayed :
  ∃ s, reach wake_step (shared_new 0 0, [PScan; PWait; NIdle]) 17 (s, [PWait; PWait; NIdle]) ∧
    unread s = 1 ∧ lock_ (cr s) = false ∧ ready_at 0 (cr s) = true ∧
    ∀ t ch, (t < 2)%nat → timeout ch = false →
      sys_step wake_step (t, ch) (s, [PWait; PWait; NIdle]) = None.
Proof.
  set (l := replicate 10 (0%nat, go) ++ replicate 4 (2%nat, go) ++ replicate 2 (1%nat, go)
              ++ [(0%nat, go)]).
  set (c0 := (shared_new 0 0, [PScan; PWait; NIdle])).
  assert (∃ s, run_schedule wake_step l c0 = Some (s, [PWait; PWait; NIdle]) ∧
    unread s = 1 ∧ lock_ (cr s) = false ∧ ready_at 0 (cr s) = true ∧ notify s = 0)
    as (s & Hs & Hu & Hl & Hr & Hn) by (eexists; vm_compute; by repeat split).
  exists s. split; [apply (run_schedule_reach wake_step l 0 c0 c0 _ (reach_refl _ _) Hs)|].
  split; [done|]. split; [done|]. split; [done|]. intros t ch Ht Hto.
  destruct t as [|[|t]]; [| |lia]; unfold sys_step; cbn; by rewrite Hn, Hto.
Qed.
