(* ===== verification/Scheduler.v ===== *)
(** * The scheduler with the classic policy (cyber/scheduler: scheduler.cc,
    processor.cc, policy/classic_context.cc, policy/scheduler_classic.cc)

    Tasks, their run queues and the choice of the next routine, one call after the
    other; the races between the calls are the subject of [WakeUp].  Routines are
    shared objects: the id table and the queues hold pointers into a heap.  The
    processor threads, their affinity and the reading of the configuration file are
    not modelled; what the configuration holds is an argument. *)

From stdpp Require Import base numbers list gmap strings sorting.
From Stdlib Require Import ZArith Lia.
From S2P Require Import Prelude KeyedStore AtomicHashMap GlobalData CRoutine.

Open Scope Z_scope.

Definition MAX_PRIO : nat := 20.
Definition DEFAULT_GROUP_NAME : string := "default_grp".

Abbreviation CrPtr := nat.
Abbreviation Heap := (gmap nat CRoutine).

(** ** Scanning a run queue *)

(** The loop of both [NextRoutine]s: the first routine that can be acquired and is
    ready is returned acquired. *)
Fixpoint scan (now : Z) (h : Heap) (q : list CrPtr) : Heap * option CrPtr :=
  match q with
  | [] => (h, None)
  | p :: q =>
      match h !! p with
      | None => scan now h q
      | Some c =>
          let '(c, ok) := Acquire c in
          if negb ok then scan now (<[p := c]> h) q
          else
            let c := UpdateState now c in
            if decide (state_ c = READY) then (<[p := c]> h, Some p)
            else scan now (<[p := Release c]> h) q
      end
  end.

(** ** Classic policy *)

Record ClassicConf := mkClassicConf {
  cr_confs_ : gmap string (N * string);   (* prio (uint32) and group_name of a task *)
  groups : list (string * nat)            (* classic_conf_.groups(): name, processor_num *)
}.

Record Classic := mkClassic {
  heap : Heap;
  fresh : CrPtr;
  id_cr_ : gmap Z CrPtr;
  cr_group_ : gmap string (list (list CrPtr));   (* MAX_PRIO queues *)
  notify_grp_ : gmap string Z;
  pctxs_ : list string;    (* the current_grp of each context *)
  stop_ : bool             (* of the scheduler; Shutdown sets that of the contexts with it *)
}.

Definition empty_queues : list (list CrPtr) := replicate MAX_PRIO [].
Definition Classic_new : Classic := mkClassic ∅ 0 ∅ ∅ ∅ [] false.

Definition set_heap (s : Classic) (h : Heap) : Classic :=
  mkClassic h (fresh s) (id_cr_ s) (cr_group_ s) (notify_grp_ s) (pctxs_ s) (stop_ s).
Definition set_ids (s : Classic) (m : gmap Z CrPtr) : Classic :=
  mkClassic (heap s) (fresh s) m (cr_group_ s) (notify_grp_ s) (pctxs_ s) (stop_ s).
Definition set_groups (s : Classic) (g : gmap string (list (list CrPtr))) : Classic :=
  mkClassic (heap s) (fresh s) (id_cr_ s) g (notify_grp_ s) (pctxs_ s) (stop_ s).

(** [cr_group_[g].at(prio)]: operator[] creates the group, [at] checks the index. *)
Definition queues (s : Classic) (g : string) : list (list CrPtr) :=
  default empty_queues (cr_group_ s !! g).
Definition queue (s : Classic) (g : string) (prio : Z) : option (list CrPtr) :=
  queues s g !! Z.to_nat prio.
Definition set_queue (s : Classic) (g : string) (prio : Z) (q : list CrPtr) : Classic :=
  set_groups s (<[g := <[Z.to_nat prio := q]> (queues s g)]> (cr_group_ s)).

(** [ClassicContext(group_name)]: [InitGroup]. *)
Definition InitGroup (s : Classic) (g : string) : Classic :=
  mkClassic (heap s) (fresh s) (id_cr_ s) (<[g := queues s g]> (cr_group_ s))
    (<[g := 0]> (notify_grp_ s)) (pctxs_ s) (stop_ s).

(** [SchedulerClassic::CreateProcessor()]: the contexts. *)
Definition add_context (s : Classic) (g : string) : Classic :=
  let s := InitGroup s g in
  mkClassic (heap s) (fresh s) (id_cr_ s) (cr_group_ s) (notify_grp_ s) (pctxs_ s ++ [g]) (stop_ s).
Definition Classic_CreateProcessor (conf : ClassicConf) (s : Classic) : Classic :=
  foldl (λ s '(g, proc_num), Nat.iter proc_num (λ s, add_context s g) s) s (groups conf).

(** [ClassicContext::Notify(group_name)]. *)
Definition ClassicContext_Notify (s : Classic) (g : string) : Classic :=
  mkClassic (heap s) (fresh s) (id_cr_ s) (cr_group_ s)
    (<[g := i32 (default 0 (notify_grp_ s !! g) + 1)]> (notify_grp_ s)) (pctxs_ s) (stop_ s).

(** [ClassicContext::Shutdown()], the flag apart. *)
Definition ClassicContext_Shutdown (s : Classic) (g : string) : Classic :=
  mkClassic (heap s) (fresh s) (id_cr_ s) (cr_group_ s) (<[g := 255]> (notify_grp_ s)) (pctxs_ s) (stop_ s).

(** [ClassicContext::Wait()], when it returns: notified or timed out. *)
Definition ClassicContext_Wait (s : Classic) (g : string) : Classic :=
  let n := default 0 (notify_grp_ s !! g) in
  if 0 <? n
  then mkClassic (heap s) (fresh s) (id_cr_ s) (cr_group_ s) (<[g := n - 1]> (notify_grp_ s)) (pctxs_ s) (stop_ s)
  else s.

(** [ClassicContext::NextRoutine()] of a context of group [g]: queues from the
    highest priority down. *)
Definition run_order (s : Classic) (g : string) : list CrPtr := concat (reverse (queues s g)).
Definition ClassicContext_NextRoutine (now : Z) (s : Classic) (g : string) : Classic * option CrPtr :=
  if stop_ s then (s, None)
  else let '(h, r) := scan now (heap s) (run_order s g) in (set_heap s h, r).

(** The position of the first routine of id [crid]. *)
Definition find_id (h : Heap) (crid : Z) (q : list CrPtr) : option (nat * CrPtr) :=
  list_find (λ p, id_ <$> h !! p = Some crid) q.

(** [ClassicContext::RemoveCRoutine(cr)]; [None] when it waits for a processor to
    let the routine go, or when [at] throws. *)
Definition ClassicContext_RemoveCRoutine (s : Classic) (p : CrPtr) : option (Classic * bool) :=
  c ← heap s !! p;
  q ← queue s (group_name_ c) (priority_ c);
  match find_id (heap s) (id_ c) q with
  | None => Some (s, false)
  | Some (i, p') =>
      c' ← heap s !! p';
      let '(c', ok) := Acquire (Stop c') in
      if negb ok then None
      else Some (set_heap (set_queue s (group_name_ c) (priority_ c) (delete i q))
                   (<[p' := Release c']> (heap s)), true)
  end.

(** [SchedulerClassic::DispatchTask(cr)]; [None] when [groups(0)] does not exist. *)
Definition Classic_DispatchTask (conf : ClassicConf) (s : Classic) (p : CrPtr)
  : option (Classic * bool) :=
  c ← heap s !! p;
  if decide (is_Some (id_cr_ s !! id_ c)) then Some (s, false)
  else
    let s := set_ids s (<[id_ c := p]> (id_cr_ s)) in
    c ← match cr_confs_ conf !! name_ c with
        | Some (prio, g) => Some (set_group_name (set_priority c (Z.of_N prio)) g)
        | None => '(g, _) ← head (groups conf); Some (set_group_name c g)
        end;
    let c := if Z.of_nat MAX_PRIO <=? priority_ c then set_priority c (Z.of_nat MAX_PRIO - 1) else c in
    let s := set_heap s (<[p := c]> (heap s)) in
    q ← queue s (group_name_ c) (priority_ c);
    let s := set_queue s (group_name_ c) (priority_ c) (q ++ [p]) in
    Some (ClassicContext_Notify s (group_name_ c), true).

(** [SchedulerClassic::NotifyProcessor(crid)]. *)
Definition Classic_NotifyProcessor (s : Classic) (crid : Z) : option (Classic * bool) :=
  if stop_ s then Some (s, true)
  else match id_cr_ s !! crid with
       | None => Some (s, false)
       | Some p =>
           c ← heap s !! p;
           let c := if waits_for_event (state_ c) then SetUpdateFlag c else c in
           Some (ClassicContext_Notify (set_heap s (<[p := c]> (heap s))) (group_name_ c), true)
       end.

(** [SchedulerClassic::RemoveCRoutine(crid)]. *)
Definition Classic_RemoveCRoutine (s : Classic) (crid : Z) : option (Classic * bool) :=
  match id_cr_ s !! crid with
  | None => Some (s, false)
  | Some p =>
      c ← heap s !! p;
      let s := set_ids (set_heap s (<[p := Stop c]> (heap s))) (delete crid (id_cr_ s)) in
      ClassicContext_RemoveCRoutine s p
  end.

(** [RemoveTask(name)]: by the hash of the name. *)
Definition Classic_RemoveTask (Hash : string → Z) (s : Classic) (name : string)
  : option (Classic * bool) :=
  if stop_ s then Some (s, true) else Classic_RemoveCRoutine s (Hash name).

(** [Scheduler::CreateTask(func, name, visitor)] at time [now], from the [task_id] that
    [RegisterTaskName(name)] gave to the answer of [DispatchTask]. *)
Definition Classic_CreateTask (conf : ClassicConf) (now : Z) (s : Classic) (name : string) (task_id : Z)
  : option (Classic * bool) :=
  if stop_ s then Some (s, false)
  else
    let p := fresh s in
    let cr := set_name (set_id (CRoutine_new now) task_id) name in
    Classic_DispatchTask conf
      (mkClassic (<[p := cr]> (heap s)) (S p) (id_cr_ s) (cr_group_ s) (notify_grp_ s) (pctxs_ s) (stop_ s)) p.

(** The whole [CreateTask]: the name registry and the notifiers of the data visitors
    change too.  A notifier's callback is the task it notifies. *)
Record Process := mkProcess {
  registries : Registries (M := AtomicHashMap string);
  sched : Classic;
  callbacks : gmap Z Z
}.

Definition Scheduler_CreateTask (Hash : string → Z) (fuel : nat) (conf : ClassicConf) (now : Z)
    (w : Process) (name : string) (visitor : option Z) : option (Process * bool) :=
  if stop_ (sched w) then Some (w, false)
  else
    '(g, task_id) ← RegisterTaskName Hash fuel (registries w) name;
    '(s, ok) ← Classic_CreateTask conf now (sched w) name task_id;
    if negb ok then Some (mkProcess g s (callbacks w), false)
    else Some (mkProcess g s match visitor with
                             | Some v => <[v := task_id]> (callbacks w)
                             | None => callbacks w
                             end, true).

(** The callback of a visitor's notifier. *)
Definition run_callback (w : Process) (visitor : Z) : option Process :=
  match callbacks w !! visitor with
  | None => Some w
  | Some task_id =>
      if stop_ (sched w) then Some w
      else '(s, _) ← Classic_NotifyProcessor (sched w) task_id;
           Some (mkProcess (registries w) s (callbacks w))
  end.

(** [Processor::Run] after [NextRoutine]: [Resume] for one slice, then [Release]. *)
Definition Processor_run (slice : CRoutine → CRoutine) (s : Classic) (p : CrPtr) : option Classic :=
  c ← heap s !! p;
  Some (set_heap s (<[p := Release (Resume slice c)]> (heap s))).

(** [Scheduler::Shutdown()]; [order] is the order in which the loop over [id_cr_]
    meets its entries. *)
Definition remove_all (s : Classic) (cr_list : list Z) : option Classic :=
  foldl (λ os crid, s ← os; '(s, _) ← Classic_RemoveCRoutine s crid; Some s) (Some s) cr_list.
Definition Classic_Shutdown (order : list (Z * CrPtr)) (s : Classic) : option Classic :=
  if stop_ s then Some s
  else
    let s := mkClassic (heap s) (fresh s) (id_cr_ s) (cr_group_ s) (notify_grp_ s) (pctxs_ s) true in
    let s := foldl ClassicContext_Shutdown s (pctxs_ s) in
    cr_list ← mapM (λ '(_, p), id_ <$> heap s !! p) order;
    s ← remove_all s cr_list;
    let s := foldl ClassicContext_Shutdown s (pctxs_ s) in   (* processor->Stop() *)
    Some (mkClassic (heap s) (fresh s) (id_cr_ s) (cr_group_ s) (notify_grp_ s) [] (stop_ s)).

(** ** What a scan does *)

(** The fields the scheduler files a routine under. *)
Definition same_task (c c' : CRoutine) : Prop :=
  name_ c' = name_ c ∧ id_ c' = id_ c ∧ priority_ c' = priority_ c ∧ group_name_ c' = group_name_ c ∧
  processor_id_ c' = processor_id_ c ∧ force_stop_ c' = force_stop_ c.

(** Two heaps with the same tasks, and the same locks except on the routines of [l]. *)
Definition heap_frame (l : list CrPtr) (h h' : Heap) : Prop :=
  ∀ x, option_Forall2 (λ c c', same_task c c' ∧ (x ∉ l → lock_ c' = lock_ c)) (h !! x) (h' !! x).

#[global] Instance same_task_refl : Reflexive same_task.
Proof. done. Qed.

Lemma heap_frame_refl l h : heap_frame l h h.
Proof. intros x. destruct (h !! x); by constructor. Qed.

Lemma heap_frame_insert l h h' p c c' :
  h !! p = Some c → same_task c c' → (p ∉ l → lock_ c' = lock_ c) →
  heap_frame l (<[p := c']> h) h' → heap_frame l h h'.
Proof.
  intros Hp Hs Hl Hf x. specialize (Hf x). destruct (decide (x = p)) as [->|Hne].
  - rewrite lookup_insert_eq in Hf. rewrite Hp. inversion Hf as [? c'' [Hs' Hl'] Ha Hb|]; subst.
    constructor. unfold same_task in *. destruct_and!. split; [by repeat split; congruence|].
    intros Hn. rewrite Hl' by done. auto.
  - by rewrite lookup_insert_ne in Hf.
Qed.

(** The routine cannot be acquired, or is not ready. *)
Definition skipped (now : Z) (h : Heap) (p : CrPtr) : Prop :=
  ∀ c, h !! p = Some c → lock_ c = true ∨ ready_at now c = false.

Lemma UpdateState_lock now c l :
  UpdateState now (set_lock c l) = set_lock (UpdateState now c) l.
Proof.
  unfold UpdateState, sleep_over, test_and_set_updated, take_event. cbn.
  by repeat case_match.
Qed.

Lemma set_lock_same c : set_lock c (lock_ c) = c.
Proof. by destruct c. Qed.

Lemma skipped_insert now h p c q :
  p ∉ q → Forall (skipped now (<[p := c]> h)) q → Forall (skipped now h) q.
Proof.
  rewrite !Forall_forall. intros Hp Hq x Hx c' Hc'. apply (Hq x Hx).
  rewrite lookup_insert_ne; [done|]. by intros <-.
Qed.

Lemma scan_spec now h q h' r :
  NoDup q → scan now h q = (h', r) →
  heap_frame (option_list r) h h' ∧
  match r with
  | None => Forall (skipped now h) q
  | Some p => ∃ pre post c, q = pre ++ p :: post ∧ Forall (skipped now h) pre ∧
      h !! p = Some c ∧ lock_ c = false ∧ ready_at now c = true ∧
      h' !! p = Some (set_lock (UpdateState now c) true)
  end.
Proof.
  intros Hnd. revert h. induction Hnd as [|p q Hp Hnd IH]; intros h; cbn [scan].
  { intros [= <- <-]. split; [apply heap_frame_refl|done]. }
  destruct (h !! p) as [c|] eqn:Hc.
  2: { intros Hs. destruct (IH h Hs) as [Hf Hr]. split; [done|].
       assert (skipped now h p) by (intros ?; congruence).
       destruct r as [x|]; [|by constructor].
       destruct Hr as (pre & post & c & -> & Hpre & Hx). exists (p :: pre), post, c.
       split; [done|]. split; [by constructor|done]. }
  cbn [Acquire]. rewrite UpdateState_lock. cbn [state_ set_lock].
  destruct (lock_ c) eqn:Hl; cbn [negb].
  - replace (set_lock c true) with c by (rewrite <- Hl; by rewrite set_lock_same).
    rewrite insert_id by done. intros Hs. destruct (IH h Hs) as [Hf Hr]. split; [done|].
    assert (skipped now h p) by (intros ?; naive_solver).
    destruct r as [x|]; [|by constructor].
    destruct Hr as (pre & post & c' & -> & Hpre & Hx). exists (p :: pre), post, c'.
    split; [done|]. split; [by constructor|done].
  - case_decide as Hready.
    + intros [= <- <-]. split.
      * eapply (heap_frame_insert _ h _ p c (set_lock (UpdateState now c) true) Hc);
          [|set_solver|apply heap_frame_refl].
        destruct (UpdateState_frame now c) as (? & ? & ? & ? & ? & ? & ?). by repeat split.
      * exists [], q, c. split; [done|]. split; [constructor|]. split; [done|]. split; [done|].
        split; [by apply bool_decide_eq_true|]. by rewrite lookup_insert_eq.
    + intros Hs. destruct (IH _ Hs) as [Hf Hr].
      assert (skipped now h p) as Hsk.
      { intros c' ?. simplify_eq. right. by apply bool_decide_eq_false. }
      split.
      * eapply heap_frame_insert; [done| | |done];
          destruct (UpdateState_frame now c) as (? & ? & ? & ? & ? & ? & ?); [by repeat split|].
        cbn. congruence.
      * destruct r as [x|]; [|constructor; [done|by eapply skipped_insert]].
        destruct Hr as (pre & post & c' & -> & Hpre & Hx & Hrest). exists (p :: pre), post, c'.
        split; [done|]. split; [constructor; [done|]; eapply skipped_insert; [|done]; set_solver|].
        rewrite lookup_insert_ne in Hx by set_solver. done.
Qed.

(** ** Tasks and queues agree *)

(** The fields a queue position depends on. *)
Definition same_file (c c' : CRoutine) : Prop :=
  id_ c' = id_ c ∧ priority_ c' = priority_ c ∧ group_name_ c' = group_name_ c.

Lemma same_task_file c c' : same_task c c' → same_file c c'.
Proof. by intros (? & ? & ? & ? & ?). Qed.

Record classic_inv (s : Classic) : Prop := {
  ci_fresh : ∀ p, (fresh s <= p)%nat → heap s !! p = None;
  ci_len : ∀ g, length (queues s g) = MAX_PRIO;
  ci_ids : ∀ i p, id_cr_ s !! i = Some p → ∃ c q, heap s !! p = Some c ∧ id_ c = i ∧
             0 <= priority_ c ∧ queue s (group_name_ c) (priority_ c) = Some q ∧ p ∈ q;
  ci_filed : ∀ g n q p, queues s g !! n = Some q → p ∈ q → ∃ c, heap s !! p = Some c ∧
             group_name_ c = g ∧ priority_ c = Z.of_nat n ∧ id_cr_ s !! id_ c = Some p;
  ci_nodup : ∀ g n q, queues s g !! n = Some q → NoDup q
}.

Lemma classic_inv_new : classic_inv Classic_new.
Proof.
  assert (∀ g, queues Classic_new g = empty_queues) as Hq by done.
  split; try done.
  - intros g n q p Hn Hp. rewrite Hq in Hn. apply lookup_replicate in Hn as [-> _]. set_solver.
  - intros g n q Hn. rewrite Hq in Hn. apply lookup_replicate in Hn as [-> _]. constructor.
Qed.

Lemma option_Forall2_Some_l {A B} (R : A → B → Prop) a my :
  option_Forall2 R (Some a) my → ∃ b, my = Some b ∧ R a b.
Proof. inversion 1; eauto. Qed.

(** Calls that leave the table and the queues alone and keep what is filed. *)
Lemma classic_inv_heap s s' :
  classic_inv s → fresh s' = fresh s → id_cr_ s' = id_cr_ s → (∀ g, queues s' g = queues s g) →
  (∀ x, option_Forall2 same_file (heap s !! x) (heap s' !! x)) → classic_inv s'.
Proof.
  intros [Hf Hl Hi Hq Hn] Ef Ei Eq Eh. split.
  - intros p Hp. rewrite Ef in Hp. specialize (Eh p). rewrite Hf in Eh by done. by inversion Eh.
  - intros g. by rewrite Eq.
  - intros i p Hp. rewrite Ei in Hp. destruct (Hi i p Hp) as (c & q & Hc & Hid & Hpr & Hqu & Hpq).
    specialize (Eh p). rewrite Hc in Eh. apply option_Forall2_Some_l in Eh as (c' & Hc' & E1 & E2 & E3).
    exists c', q. unfold queue in *. rewrite E2, E3, Eq, E1. done.
  - intros g n q p Hg Hp. rewrite Eq in Hg. destruct (Hq g n q p Hg Hp) as (c & Hc & Hg' & Hpr & Hid).
    specialize (Eh p). rewrite Hc in Eh. apply option_Forall2_Some_l in Eh as (c' & Hc' & E1 & E2 & E3).
    exists c'. rewrite E1, E2, E3, Ei. done.
  - intros g n q Hg. rewrite Eq in Hg. by apply (Hn g n).
Qed.

Lemma same_file_insert (h : Heap) p c c' :
  h !! p = Some c → same_file c c' → ∀ x, option_Forall2 same_file (h !! x) ((<[p := c']> h) !! x).
Proof.
  intros Hp Hs x. destruct (decide (x = p)) as [->|Hne].
  - rewrite Hp, lookup_insert_eq. by constructor.
  - rewrite lookup_insert_ne by done. destruct (h !! x); by constructor.
Qed.

Lemma same_file_refl (h : Heap) x : option_Forall2 same_file (h !! x) (h !! x).
Proof. destruct (h !! x); by constructor. Qed.

Lemma NextRoutine_inv now s g :
  classic_inv s → NoDup (run_order s g) → classic_inv (ClassicContext_NextRoutine now s g).1.
Proof.
  intros Hs Hnd. unfold ClassicContext_NextRoutine. destruct (stop_ s); [done|].
  destruct (scan now (heap s) (run_order s g)) as [h r] eqn:E.
  destruct (scan_spec _ _ _ _ _ Hnd E) as [Hf _].
  apply (classic_inv_heap s); try done. intros x. cbn. specialize (Hf x).
  destruct Hf as [c c' [Hc _]|]; constructor. by apply same_task_file.
Qed.

Lemma NotifyProcessor_inv s crid :
  classic_inv s → ∃ s' b, Classic_NotifyProcessor s crid = Some (s', b) ∧ classic_inv s'.
Proof.
  intros Hs. unfold Classic_NotifyProcessor. destruct (stop_ s); [by eexists _, _|].
  destruct (id_cr_ s !! crid) as [p|] eqn:Ep; [|by eexists _, _].
  destruct (ci_ids _ Hs _ _ Ep) as (c & q & Hc & _). rewrite Hc. cbn.
  eexists _, _. split; [done|]. apply (classic_inv_heap s); try done. cbn.
  apply same_file_insert with c; [done|]. by destruct (waits_for_event (state_ c)).
Qed.

Lemma Processor_run_inv slice s p s' :
  (∀ c, same_task c (slice c)) → classic_inv s → Processor_run slice s p = Some s' → classic_inv s'.
Proof.
  intros Hsl Hs. unfold Processor_run. destruct (heap s !! p) as [c|] eqn:Hc; [|done]. cbn.
  intros [= <-]. apply (classic_inv_heap s); try done. cbn.
  apply same_file_insert with c; [done|]. unfold Resume.
  destruct (force_stop_ c), (bool_decide (state_ c = READY)); try done.
  by destruct (Hsl c) as (? & ? & ? & ? & ?).
Qed.

(** ** Placing and removing a task *)

Lemma queues_set_queue s g prio q g' :
  queues (set_queue s g prio q) g' =
  if decide (g = g') then <[Z.to_nat prio := q]> (queues s g) else queues s g'.
Proof.
  unfold set_queue, queues at 1. cbn. case_decide; subst.
  - by rewrite lookup_insert_eq.
  - by rewrite lookup_insert_ne.
Qed.

(** A routine that is in no queue is put at the end of its own. *)
Lemma classic_inv_file s p c q s' :
  classic_inv s → heap s !! p = None → fresh s = p →
  id_cr_ s !! id_ c = None → 0 <= priority_ c < Z.of_nat MAX_PRIO →
  queue s (group_name_ c) (priority_ c) = Some q →
  heap s' = <[p := c]> (heap s) → fresh s' = S p → id_cr_ s' = <[id_ c := p]> (id_cr_ s) →
  (∀ g, queues s' g = if decide (group_name_ c = g)
     then <[Z.to_nat (priority_ c) := q ++ [p]]> (queues s (group_name_ c)) else queues s g) →
  classic_inv s'.
Proof.
  intros Hs Hp Hfr Hid Hprio Hq Eh Ef Ei Eq. unfold queue in Hq.
  assert (p ∉ q) as Hpq.
  { intros Hin. destruct (ci_filed _ Hs _ _ _ _ Hq Hin) as (c' & Hc' & _). congruence. }
  split.
  - intros x Hx. rewrite Eh, Ef in *. rewrite lookup_insert_ne by lia. apply (ci_fresh _ Hs). lia.
  - intros g. rewrite Eq. case_decide; [rewrite length_insert|]; apply (ci_len _ Hs).
  - intros i x Hx. rewrite Ei in Hx. unfold queue. rewrite Eh.
    apply lookup_insert_Some in Hx as [[<- <-]|[Hne Hx]].
    + exists c, (q ++ [p]). rewrite Eq, decide_True by done. rewrite lookup_insert_eq.
      rewrite list_lookup_insert_eq by (by eapply lookup_lt_Some). split; [done|].
      split; [done|]. split; [lia|]. split; [done|set_solver].
    + destruct (ci_ids _ Hs _ _ Hx) as (c' & q' & Hc' & Hi' & Hpr' & Hq' & Hxq).
      assert (x ≠ p) by congruence. rewrite lookup_insert_ne by done. unfold queue in Hq'.
      destruct (decide (group_name_ c = group_name_ c')) as [Hg|Hg];
        [destruct (decide (Z.to_nat (priority_ c) = Z.to_nat (priority_ c'))) as [En|Hn]|].
      * rewrite <- Hg, <- En in Hq'. rewrite Hq in Hq'. injection Hq' as <-. exists c', (q ++ [p]).
        rewrite Eq, decide_True by done.
        rewrite <- En, list_lookup_insert_eq by (by eapply lookup_lt_Some).
        split; [done|]. split; [done|]. split; [done|]. split; [done|set_solver].
      * exists c', q'. rewrite Eq, decide_True by done. rewrite list_lookup_insert_ne by done.
        by rewrite Hg.
      * exists c', q'. by rewrite Eq, decide_False.
  - intros g n q' x Hn Hx. rewrite Eq in Hn. rewrite Eh, Ei.
    assert (∀ q0 g0, queues s g0 !! n = Some q0 → x ∈ q0 → g0 = g →
      ∃ c', <[p := c]> (heap s) !! x = Some c' ∧ group_name_ c' = g ∧ priority_ c' = Z.of_nat n ∧
        <[id_ c := p]> (id_cr_ s) !! id_ c' = Some x) as Hold.
    { intros q0 g0 Hq0 Hx0 <-. destruct (ci_filed _ Hs _ _ _ _ Hq0 Hx0) as (c' & Hc' & E1 & E2 & E3).
      exists c'. rewrite !lookup_insert_ne by congruence. done. }
    case_decide as Hg; [|by apply (Hold q' g)].
    apply list_lookup_insert_Some in Hn as [(<- & <- & _)|[Hne Hn]]; [|by apply (Hold q' (group_name_ c))].
    apply elem_of_app in Hx as [Hx| ->%list_elem_of_singleton]; [by apply (Hold q (group_name_ c))|].
    exists c. rewrite !lookup_insert_eq. split; [done|]. split; [done|]. split; [lia|done].
  - intros g n q' Hn. rewrite Eq in Hn. case_decide; [|by apply (ci_nodup _ Hs g n)].
    apply list_lookup_insert_Some in Hn as [(<- & <- & _)|[Hne Hn]]; [|by eapply (ci_nodup _ Hs)].
    apply NoDup_app. split; [by apply (ci_nodup _ Hs _ _ _ Hq)|]. split; [set_solver|apply NoDup_singleton].
Qed.

Lemma NoDup_delete {A} (l : list A) i : NoDup l → NoDup (delete i l).
Proof. intros H. by eapply sublist_NoDup, sublist_delete. Qed.

Lemma elem_of_delete_NoDup {A} (l : list A) i p x :
  NoDup l → l !! i = Some p → x ∈ delete i l ↔ x ∈ l ∧ x ≠ p.
Proof.
  revert i. induction l as [|y l IH]; intros i Hnd Hi; [done|].
  apply NoDup_cons in Hnd as [Hy Hnd]. destruct i as [|i]; cbn in *.
  - simplify_eq. set_solver.
  - rewrite !elem_of_cons, IH by done. assert (y ≠ p) by (intros ->; by eapply Hy, list_elem_of_lookup_2).
    set_solver.
Qed.

(** A routine leaves its queue. *)
Lemma classic_inv_unfile s p c q i s' :
  classic_inv s → id_cr_ s !! id_ c = Some p → heap s !! p = Some c →
  queue s (group_name_ c) (priority_ c) = Some q → q !! i = Some p →
  fresh s' = fresh s → id_cr_ s' = delete (id_ c) (id_cr_ s) →
  (∀ x, option_Forall2 same_file (heap s !! x) (heap s' !! x)) →
  (∀ g, queues s' g = if decide (group_name_ c = g)
     then <[Z.to_nat (priority_ c) := delete i q]> (queues s (group_name_ c)) else queues s g) →
  classic_inv s'.
Proof.
  intros Hs Hid Hc Hq Hi Ef Ei Eh Eq. unfold queue in Hq.
  pose proof (ci_nodup _ Hs _ _ _ Hq) as Hnd.
  assert (∀ x, x ∈ delete i q ↔ x ∈ q ∧ x ≠ p) as Hdel by (intros; by apply elem_of_delete_NoDup).
  assert (∀ x c', heap s !! x = Some c' → ∃ c'', heap s' !! x = Some c'' ∧ same_file c' c'') as Hh.
  { intros x c' Hx. specialize (Eh x). rewrite Hx in Eh. by apply option_Forall2_Some_l in Eh. }
  split.
  - intros x Hx. rewrite Ef in Hx. specialize (Eh x). rewrite (ci_fresh _ Hs) in Eh by done.
    by inversion Eh.
  - intros g. rewrite Eq. case_decide; [rewrite length_insert|]; apply (ci_len _ Hs).
  - intros j x Hx. rewrite Ei in Hx. apply lookup_delete_Some in Hx as [Hj Hx].
    destruct (ci_ids _ Hs _ _ Hx) as (c' & q' & Hc' & Hi' & Hpr' & Hq' & Hxq).
    destruct (Hh x c' Hc') as (c'' & Hc'' & E1 & E2 & E3).
    assert (x ≠ p) by (intros ->; simplify_eq).
    destruct (decide (group_name_ c = group_name_ c')) as [Hg|Hg];
      [destruct (decide (Z.to_nat (priority_ c) = Z.to_nat (priority_ c'))) as [En|Hn]|];
      unfold queue in *.
    + rewrite <- Hg, <- En, Hq in Hq'. injection Hq' as <-. exists c'', (delete i q).
      rewrite E1, E2, E3, Eq, decide_True by done.
      rewrite <- En, list_lookup_insert_eq by (by eapply lookup_lt_Some). set_solver.
    + exists c'', q'. rewrite E1, E2, E3, Eq, decide_True by done.
      rewrite list_lookup_insert_ne by done. by rewrite Hg.
    + exists c'', q'. by rewrite E1, E2, E3, Eq, decide_False.
  - intros g n q' x Hn Hx. rewrite Eq in Hn. rewrite Ei.
    assert (∀ q0, queues s g !! n = Some q0 → x ∈ q0 → x ≠ p →
      ∃ c', heap s' !! x = Some c' ∧ group_name_ c' = g ∧ priority_ c' = Z.of_nat n ∧
        delete (id_ c) (id_cr_ s) !! id_ c' = Some x) as Hold.
    { intros q0 Hq0 Hx0 Hne. destruct (ci_filed _ Hs _ _ _ _ Hq0 Hx0) as (c' & Hc' & F1 & F2 & F3).
      destruct (Hh x c' Hc') as (c'' & Hc'' & E1 & E2 & E3). exists c''. rewrite E1, E2, E3.
      rewrite lookup_delete_ne by congruence. done. }
    assert (∀ q0, queues s g !! n = Some q0 → p ∈ q0 →
      group_name_ c = g ∧ Z.to_nat (priority_ c) = n) as Hwhere.
    { intros q0 Hq0 Hp0. destruct (ci_filed _ Hs _ _ _ _ Hq0 Hp0) as (c' & Hc' & F1 & F2 & F3).
      simplify_eq. split; [done|lia]. }
    case_decide as Hg; subst.
    + apply list_lookup_insert_Some in Hn as [(<- & <- & _)|[Hne Hn]].
      * apply Hdel in Hx as [Hx Hxp]. by apply (Hold q).
      * apply (Hold q'); [done|done|]. intros ->. by destruct (Hwhere q' Hn Hx).
    + apply (Hold q'); [done|done|]. intros ->. by destruct (Hwhere q' Hn Hx).
  - intros g n q' Hn. rewrite Eq in Hn. case_decide; [|by apply (ci_nodup _ Hs g n)].
    apply list_lookup_insert_Some in Hn as [(<- & <- & _)|[Hne Hn]]; [|by eapply (ci_nodup _ Hs)].
    by apply NoDup_delete.
Qed.

(** The queue of a known task holds it, once, and finds it by its id. *)
Lemma find_id_known s p c q :
  classic_inv s → id_cr_ s !! id_ c = Some p → heap s !! p = Some c → 0 <= priority_ c →
  queue s (group_name_ c) (priority_ c) = Some q → p ∈ q →
  ∃ i, find_id (heap s) (id_ c) q = Some (i, p) ∧ q !! i = Some p.
Proof.
  intros Hs Hid Hc Hpr Hq Hp. unfold find_id.
  destruct (list_find _ q) as [[i p']|] eqn:E.
  - apply list_find_Some in E as (Hi & Hp' & _). exists i.
    destruct (ci_filed _ Hs _ _ _ p' Hq) as (c' & Hc' & _ & _ & Hid'); [by eapply list_elem_of_lookup_2|].
    rewrite Hc' in Hp'. cbn in Hp'. simplify_eq. by rewrite Hp' in Hid'; simplify_eq.
  - apply list_find_None in E. rewrite Forall_forall in E. destruct (E p Hp). by rewrite Hc.
Qed.

(** [RemoveCRoutine] of a known task: it waits while a processor holds it. *)
Lemma RemoveCRoutine_known s crid p c :
  classic_inv s → id_cr_ s !! crid = Some p → heap s !! p = Some c →
  ∃ s', Classic_RemoveCRoutine s crid = (if lock_ c then None else Some (s', true)) ∧
    classic_inv s' ∧ id_cr_ s' = delete crid (id_cr_ s) ∧
    (lock_ c = false → ∀ x, lock_ <$> heap s' !! x = lock_ <$> heap s !! x) ∧ stop_ s' = stop_ s ∧
    fresh s' = fresh s ∧ ∀ x, x ≠ p → heap s' !! x = heap s !! x.
Proof.
  intros Hs Hid Hc. destruct (ci_ids _ Hs _ _ Hid) as (c0 & q & Hc0 & Hi & Hpr & Hq & Hpq).
  simplify_eq.
  set (s2 := set_heap s (<[p := Stop c]> (heap s))).
  assert (classic_inv s2) as Hs2
    by (apply (classic_inv_heap s); try done; by apply (same_file_insert (heap s) p c)).
  assert (heap s2 !! p = Some (Stop c)) as Hc2 by apply lookup_insert_eq.
  destruct (find_id_known s2 p (Stop c) q Hs2 Hid Hc2 Hpr Hq Hpq) as (i & Hf & Hqi).
  unfold Classic_RemoveCRoutine. rewrite Hid, Hc. cbn [mbind option_bind].
  unfold ClassicContext_RemoveCRoutine. cbn [heap set_ids set_heap]. rewrite lookup_insert_eq.
  cbn [mbind option_bind].
  change (queue _ (group_name_ (Stop c)) (priority_ (Stop c)))
    with (queue s (group_name_ c) (priority_ c)). rewrite Hq. cbn [mbind option_bind].
  change (find_id _ (id_ (Stop c)) q) with (find_id (heap s2) (id_ (Stop c)) q). rewrite Hf.
  rewrite lookup_insert_eq. cbn [mbind option_bind Acquire lock_ Stop].
  eexists. split; [by destruct (lock_ c)|]. split; [|split; [done|split; [|split; [done|split; [done|]]]]].
  3: { intros x Hx. cbn. by rewrite !lookup_insert_ne by done. }
  2: { intros Hl x. cbn. destruct (decide (x = p)) as [->|]; [by rewrite lookup_insert_eq, Hc; cbn; rewrite Hl|].
       by rewrite !lookup_insert_ne. }
  apply (classic_inv_unfile s2 p (Stop c) q i); try done.
  - intros x. cbn. apply (same_file_insert (heap s2) p (Stop c)); [apply lookup_insert_eq|done].
  - intros g. apply (queues_set_queue s2).
Qed.

(** A routine in no table and no queue changes nothing. *)
Lemma classic_inv_alloc s c :
  classic_inv s →
  classic_inv (mkClassic (<[fresh s := c]> (heap s)) (S (fresh s)) (id_cr_ s) (cr_group_ s)
                 (notify_grp_ s) (pctxs_ s) (stop_ s)).
Proof.
  intros Hs. assert (∀ p c', heap s !! p = Some c' → fresh s ≠ p) as Hne.
  { intros p c' Hp <-. by rewrite (ci_fresh _ Hs) in Hp by lia. }
  split; cbn.
  - intros p Hp. rewrite lookup_insert_ne by lia. apply (ci_fresh _ Hs). lia.
  - apply (ci_len _ Hs).
  - intros i p Hp. destruct (ci_ids _ Hs i p Hp) as (c' & q & Hc & Hrest).
    exists c', q. by rewrite lookup_insert_ne by eauto.
  - intros g n q p Hg Hp. destruct (ci_filed _ Hs g n q p Hg Hp) as (c' & Hc & Hrest).
    exists c'. by rewrite lookup_insert_ne by eauto.
  - apply (ci_nodup _ Hs).
Qed.

(** Where a task is filed. *)
Definition task_place (conf : ClassicConf) (name : string) : option (Z * string) :=
  match cr_confs_ conf !! name with
  | Some (prio, g) => Some (Z.min (Z.of_N prio) (Z.of_nat MAX_PRIO - 1), g)
  | None => '(g, _) ← head (groups conf); Some (0, g)
  end.

Lemma task_place_range conf name prio g :
  task_place conf name = Some (prio, g) → 0 <= prio < Z.of_nat MAX_PRIO.
Proof.
  unfold task_place, MAX_PRIO. destruct (cr_confs_ conf !! name) as [[pr g']|]; [intros [= <- <-]; lia|].
  destruct (groups conf) as [|[g' n] gs]; [done|]. intros [= <- <-]. lia.
Qed.

#[local] Arguments MAX_PRIO : simpl never.

(** What [CreateTask] does with a new id. *)
Lemma CreateTask_new conf now s name task_id prio g q :
  stop_ s = false → id_cr_ s !! task_id = None → task_place conf name = Some (prio, g) →
  queue s g prio = Some q →
  let c := set_group_name (set_priority (set_name (set_id (CRoutine_new now) task_id) name) prio) g in
  let s1 := mkClassic (<[fresh s := c]> (heap s)) (S (fresh s)) (<[task_id := fresh s]> (id_cr_ s))
              (cr_group_ s) (notify_grp_ s) (pctxs_ s) (stop_ s) in
  Classic_CreateTask conf now s name task_id =
    Some (ClassicContext_Notify (set_queue s1 g prio (q ++ [fresh s])) g, true).
Proof.
  intros Hst Hid Hpl Hq. cbn. unfold Classic_CreateTask. rewrite Hst. unfold Classic_DispatchTask. cbn.
  rewrite lookup_insert_eq. cbn [mbind option_bind id_ set_name set_id].
  rewrite decide_False by (rewrite Hid; by intros [? ?]). cbn.
  unfold task_place in Hpl.
  destruct (cr_confs_ conf !! name) as [[pr g']|] eqn:Ec; cbn.
  - injection Hpl as <- <-. destruct (Z.leb_spec (Z.of_nat MAX_PRIO) (Z.of_N pr)); cbn.
    + rewrite Z.min_r in Hq by lia. rewrite Z.min_r by lia. unfold queue, queues in *. cbn.
      rewrite Hq. cbn. by rewrite insert_insert_eq.
    + rewrite Z.min_l in Hq by lia. rewrite Z.min_l by lia. unfold queue, queues in *. cbn.
      rewrite Hq. cbn. by rewrite insert_insert_eq.
  - destruct (groups conf) as [|[g' n] gs]; [done|]. cbn in *. injection Hpl as <- <-.
    change (Z.of_nat MAX_PRIO <=? 0) with false. cbn.
    unfold queue, queues in *. cbn in *. rewrite Hq. cbn. by rewrite insert_insert_eq.
Qed.

Lemma queue_exists s g prio :
  classic_inv s → 0 <= prio < Z.of_nat MAX_PRIO → ∃ q, queue s g prio = Some q.
Proof.
  intros Hs Hp. unfold queue. destruct (lookup_lt_is_Some_2 (queues s g) (Z.to_nat prio)) as [q Hq];
    [rewrite (ci_len _ Hs); lia|eauto].
Qed.

(** No processor holds a routine. *)
Definition all_released (s : Classic) : Prop := ∀ p c, heap s !! p = Some c → lock_ c = false.

Lemma all_released_insert (s s' : Classic) p c :
  heap s' = <[p := c]> (heap s) → lock_ c = false → all_released s → all_released s'.
Proof. intros Eh Hl Hr x c'. rewrite Eh. intros [[_ <-]|[_ ?]]%lookup_insert_Some; eauto. Qed.

(** [CreateTask] answers true exactly for a new id while the scheduler runs, and
    files the task then. *)
Lemma CreateTask_inv conf now s name task_id :
  groups conf ≠ [] → classic_inv s →
  ∃ s', Classic_CreateTask conf now s name task_id =
          Some (s', negb (stop_ s) && bool_decide (id_cr_ s !! task_id = None)) ∧ classic_inv s' ∧
    (dom (id_cr_ s') = if stop_ s then dom (id_cr_ s) else {[task_id]} ∪ dom (id_cr_ s)) ∧
    stop_ s' = stop_ s ∧ (all_released s → all_released s').
Proof.
  intros Hg Hs. destruct (stop_ s) eqn:Hst.
  { exists s. unfold Classic_CreateTask. by rewrite Hst. }
  destruct (id_cr_ s !! task_id) as [p|] eqn:Hid.
  { rewrite bool_decide_false by done. unfold Classic_CreateTask. rewrite Hst.
    unfold Classic_DispatchTask. cbn. rewrite lookup_insert_eq. cbn.
    rewrite decide_True by (rewrite Hid; eauto). eexists. split; [done|].
    split; [rewrite <- Hst; by apply classic_inv_alloc|].
    cbn. split; [apply elem_of_dom_2 in Hid; set_solver|]. split; [done|].
    by eapply (all_released_insert s). }
  assert (∃ prio g, task_place conf name = Some (prio, g)) as (prio & g & Hpl).
  { unfold task_place. destruct (cr_confs_ conf !! name) as [[pr g]|]; [by eexists _, _|].
    destruct (groups conf) as [|[g n] gs]; [done|]. by eexists _, _. }
  pose proof (task_place_range _ _ _ _ Hpl) as Hr.
  destruct (queue_exists s g prio Hs Hr) as [q Hq].
  pose proof (CreateTask_new conf now s name task_id prio g q Hst Hid Hpl Hq) as E. cbn zeta in E.
  eexists. split; [exact E|].
  split; [|split; [cbn; by rewrite dom_insert_L|split; [done|by eapply (all_released_insert s)]]].
  eapply (classic_inv_file s (fresh s) (set_group_name (set_priority
    (set_name (set_id (CRoutine_new now) task_id) name) prio) g) q); try done.
  - apply (ci_fresh _ Hs). lia.
  - intros g'. cbn [group_name_ set_group_name priority_ set_priority].
    apply (queues_set_queue s).
Qed.

(** ** Any sequence of calls *)

(** The calls; a processor finishes with a routine it holds. *)
Inductive SchedOp :=
  | OpCreate (now : Z) (name : string) (task_id : Z)
  | OpNotify (crid : Z)
  | OpRemove (crid : Z)
  | OpNext (now : Z) (g : string)
  | OpFinish (slice : CRoutine → CRoutine) (p : CrPtr)
  | OpWait (g : string).

Definition sched_step (conf : ClassicConf) (s : Classic) (op : SchedOp) : option Classic :=
  match op with
  | OpCreate now name i => fst <$> Classic_CreateTask conf now s name i
  | OpNotify i => fst <$> Classic_NotifyProcessor s i
  | OpRemove i => fst <$> Classic_RemoveCRoutine s i
  | OpNext now g => Some (ClassicContext_NextRoutine now s g).1
  | OpFinish slice p =>
      c ← heap s !! p; if lock_ c then Processor_run slice s p else None
  | OpWait g => Some (ClassicContext_Wait s g)
  end.

Definition sched_run (conf : ClassicConf) (ops : list SchedOp) : option Classic :=
  foldl (λ os op, s ← os; sched_step conf s op) (Some (Classic_CreateProcessor conf Classic_new)) ops.

(** What a routine's own code may change is not what it is filed under. *)
Definition op_ok (op : SchedOp) : Prop :=
  match op with OpFinish slice _ => ∀ c, same_task c (slice c) | _ => True end.

(** [p] is in the queue of priority [n] of group [g]. *)
Definition filed (s : Classic) (g : string) (n : nat) (p : CrPtr) : Prop :=
  ∃ q, queues s g !! n = Some q ∧ p ∈ q.

Lemma NoDup_concat {A} (ls : list (list A)) :
  (∀ n q, ls !! n = Some q → NoDup q) →
  (∀ n m q q' x, ls !! n = Some q → ls !! m = Some q' → x ∈ q → x ∈ q' → n = m) →
  NoDup (concat ls).
Proof.
  induction ls as [|l ls IH]; intros Hn Hd; cbn; [constructor|].
  apply NoDup_app. split; [by apply (Hn 0%nat)|]. split.
  - intros x Hx (q & Hxq & Hq)%list_elem_of_In%in_concat.
    apply list_elem_of_In, list_elem_of_lookup in Hxq as [m Hm]. apply list_elem_of_In in Hq.
    by specialize (Hd 0%nat (S m) l q x eq_refl Hm Hx Hq).
  - apply IH; [intros n; apply (Hn (S n))|]. intros n m q q' x H1 H2 H3 H4.
    specialize (Hd (S n) (S m) q q' x H1 H2 H3 H4). lia.
Qed.

Lemma run_order_NoDup s g : classic_inv s → NoDup (run_order s g).
Proof.
  intros Hs. unfold run_order.
  assert (concat (reverse (queues s g)) ≡ₚ concat (queues s g)) as -> by (by rewrite reverse_Permutation).
  apply NoDup_concat; [apply (ci_nodup _ Hs)|]. intros n m q q' x Hn Hm Hx Hx'.
  destruct (ci_filed _ Hs _ _ _ _ Hn Hx) as (c & Hc & _ & E & _).
  destruct (ci_filed _ Hs _ _ _ _ Hm Hx') as (c' & Hc' & _ & E' & _). simplify_eq. lia.
Qed.

Lemma InitGroup_queues s g g' : queues (InitGroup s g) g' = queues s g'.
Proof.
  unfold queues at 1. cbn. destruct (decide (g = g')) as [->|];
    [by rewrite lookup_insert_eq|by rewrite lookup_insert_ne].
Qed.

Lemma add_context_inv s g : classic_inv s → classic_inv (add_context s g).
Proof.
  intros Hs. apply (classic_inv_heap s); try done; [|apply same_file_refl].
  intros g'. apply InitGroup_queues.
Qed.

Lemma CreateProcessor_inv conf s : classic_inv s → classic_inv (Classic_CreateProcessor conf s).
Proof.
  unfold Classic_CreateProcessor. revert s.
  induction (groups conf) as [|[g n] gs IH]; intros s Hs; cbn; [done|].
  apply IH. induction n; cbn; [done|]. by apply add_context_inv.
Qed.

Lemma RemoveCRoutine_cases s crid :
  classic_inv s →
  match Classic_RemoveCRoutine s crid with
  | Some (s', b) => classic_inv s' ∧ b = bool_decide (is_Some (id_cr_ s !! crid)) ∧
      id_cr_ s' = delete crid (id_cr_ s)
  | None => ∃ p c, id_cr_ s !! crid = Some p ∧ heap s !! p = Some c ∧ lock_ c = true
  end.
Proof.
  intros Hs. destruct (id_cr_ s !! crid) as [p|] eqn:Hid.
  2: { unfold Classic_RemoveCRoutine. rewrite Hid, delete_id by done. by rewrite bool_decide_false by (by intros [? ?]). }
  destruct (ci_ids _ Hs _ _ Hid) as (c & q & Hc & _).
  destruct (RemoveCRoutine_known s crid p c Hs Hid Hc) as (s' & E & Hs' & Hd & _). rewrite E.
  destruct (lock_ c) eqn:Hl; [eauto|]. by rewrite bool_decide_true by eauto.
Qed.

Lemma sched_step_inv conf s op s' :
  groups conf ≠ [] → op_ok op → classic_inv s → sched_step conf s op = Some s' → classic_inv s'.
Proof.
  intros Hg Hok Hs. destruct op as [now name i|i|i|now g|slice p|g]; cbn.
  - destruct (CreateTask_inv conf now s name i Hg Hs) as (s2 & -> & Hs2 & _). by intros [= <-].
  - destruct (NotifyProcessor_inv s i Hs) as (s2 & b & -> & Hs2). by intros [= <-].
  - pose proof (RemoveCRoutine_cases s i Hs) as H.
    destruct (Classic_RemoveCRoutine s i) as [[s2 b]|]; [|done]. destruct H as [H _]. by intros [= <-].
  - intros [= <-]. apply NextRoutine_inv; [done|by apply run_order_NoDup].
  - destruct (heap s !! p) as [c|] eqn:Hc; [|done]. cbn. destruct (lock_ c); [|done].
    by apply Processor_run_inv.
  - intros [= <-]. unfold ClassicContext_Wait. destruct (0 <? _); [|done].
    apply (classic_inv_heap s); try done. apply same_file_refl.
Qed.

Lemma sched_run_inv conf ops s :
  groups conf ≠ [] → Forall op_ok ops → sched_run conf ops = Some s → classic_inv s.
Proof.
  intros Hg. unfold sched_run. revert s. induction ops as [|op ops IH] using rev_ind; intros s Hok; cbn.
  - intros [= <-]. apply CreateProcessor_inv, classic_inv_new.
  - apply Forall_app in Hok as [Hok [Hop _]%Forall_cons]. rewrite foldl_app. cbn.
    destruct (foldl _ _ ops) as [s1|] eqn:E; [|done]. cbn.
    apply sched_step_inv; [done|done|]. by apply IH.
Qed.

(** [C25] Whatever the sequence of task creations, removals, notifications and
    processor turns, the table of ids and the run queues agree: every task of the
    table is in exactly one queue, that of its group and priority, every queued
    routine is the task of its id, and no group lists a routine twice; and no call
    fails but the removal of a task a processor is running, which waits for it. *)
Theorem scheduler_consistent (conf : ClassicConf) (ops : list SchedOp) (s : Classic) :
  groups conf ≠ [] → Forall op_ok ops → sched_run conf ops = Some s →
  (∀ i p, id_cr_ s !! i = Some p → ∃ c, heap s !! p = Some c ∧ id_ c = i ∧
     ∀ g n, filed s g n p ↔ g = group_name_ c ∧ Z.of_nat n = priority_ c) ∧
  (∀ g n p, filed s g n p → ∃ c, heap s !! p = Some c ∧ id_cr_ s !! id_ c = Some p) ∧
  (∀ g, NoDup (run_order s g)) ∧
  (∀ op, sched_step conf s op = None →
     (∃ i p c, op = OpRemove i ∧ id_cr_ s !! i = Some p ∧ heap s !! p = Some c ∧ lock_ c = true) ∨
     (∃ slice p, op = OpFinish slice p ∧ lock_ <$> heap s !! p ≠ Some true)).
Proof.
  intros Hg Hok Hrun. pose proof (sched_run_inv _ _ _ Hg Hok Hrun) as Hs. repeat split.
  - intros i p Hp. destruct (ci_ids _ Hs _ _ Hp) as (c & q & Hc & Hi & Hpr & Hq & Hpq).
    exists c. split; [done|]. split; [done|]. intros g n. split.
    + intros (q' & Hq' & Hp'). destruct (ci_filed _ Hs _ _ _ _ Hq' Hp') as (c' & Hc' & E1 & E2 & _).
      by simplify_eq.
    + intros [-> E]. exists q. split; [|done]. unfold queue in Hq. by rewrite <- E, Nat2Z.id in Hq.
  - intros g n p (q & Hq & Hp). destruct (ci_filed _ Hs _ _ _ _ Hq Hp) as (c & Hc & _ & _ & Hi). eauto.
  - intros g. by apply run_order_NoDup.
  - intros [now name i|i|i|now g|slice p|g] H; cbn in H; try done.
    + destruct (CreateTask_inv conf now s name i Hg Hs) as (s2 & E & _). by rewrite E in H.
    + destruct (NotifyProcessor_inv s i Hs) as (s2 & b & E & _). by rewrite E in H.
    + left. pose proof (RemoveCRoutine_cases s i Hs) as H'.
      destruct (Classic_RemoveCRoutine s i) as [[s2 b]|]; [done|]. destruct H' as (p & c & H'). eauto 7.
    + right. exists slice, p. split; [done|]. unfold Processor_run in H.
      destruct (heap s !! p) as [c|]; [|done]. cbn in *. by destruct (lock_ c).
Qed.

(** A position in the run order is one in a queue; the queues of higher priority and
    the places ahead come before it. *)
Lemma concat_reverse_split {A} (ls : list (list A)) pre (p : A) post :
  concat (reverse ls) = pre ++ p :: post →
  ∃ n q i, ls !! n = Some q ∧ q !! i = Some p ∧
    (∀ m q' x, (n < m)%nat → ls !! m = Some q' → x ∈ q' → x ∈ pre) ∧
    (∀ j x, (j < i)%nat → q !! j = Some x → x ∈ pre).
Proof.
  revert pre. induction ls as [|l ls IH] using rev_ind; intros pre; [by destruct pre|].
  rewrite reverse_snoc. cbn. intros [(k & Hl & E)|(k & Hp & E)]%app_eq_inv.
  - destruct k as [|y k]; [rewrite app_nil_r in Hl; cbn in E|].
    + symmetry in E. destruct (IH [] E) as (n & q & i & Hn & Hi & H1 & H2).
      exists n, q, i. split; [by apply lookup_app_l_Some|]. split; [done|]. split; [|set_solver].
      intros m q' x Hm Hq' Hx. apply lookup_app_Some in Hq' as [Hq'|[_ Hq']].
      * specialize (H1 m q' x Hm Hq' Hx). set_solver.
      * destruct (m - length ls)%nat; [|done]. cbn in Hq'. by simplify_eq.
    + cbn in E. simplify_eq. exists (length ls), (pre ++ y :: k), (length pre).
      split; [by rewrite list_lookup_middle|]. split; [by rewrite list_lookup_middle|]. split.
      * intros m q' x Hm Hq'. apply lookup_lt_Some in Hq'. rewrite length_app in Hq'. cbn in Hq'. lia.
      * intros j x Hj Hx. rewrite lookup_app_l in Hx by done. by eapply list_elem_of_lookup_2.
  - destruct (IH k E) as (n & q & i & Hn & Hi & H1 & H2). subst pre.
    exists n, q, i. split; [by apply lookup_app_l_Some|]. split; [done|]. split; [|set_solver].
    intros m q' x Hm Hq' Hx. apply lookup_app_Some in Hq' as [Hq'|[_ Hq']].
    + specialize (H1 m q' x Hm Hq' Hx). set_solver.
    + destruct (m - length ls)%nat; [|done]. cbn in Hq'. simplify_eq. set_solver.
Qed.

Lemma elem_of_run_order s g p : p ∈ run_order s g ↔ ∃ n, filed s g n p.
Proof.
  unfold run_order, filed. rewrite list_elem_of_In, in_concat. split.
  - intros (q & Hq & Hp). apply list_elem_of_In in Hq, Hp. rewrite elem_of_reverse in Hq.
    apply list_elem_of_lookup in Hq as [n Hn]. eauto.
  - intros (n & q & Hq & Hp). exists q. rewrite <- !list_elem_of_In, elem_of_reverse.
    split; [by eapply list_elem_of_lookup_2|done].
Qed.

(** [C24] [NextRoutine] of a context chooses well: what it returns is a routine of the
    group that no processor held and that was ready, now held and READY; every
    routine of a higher priority, and every one ahead of it in its queue, was held or
    not ready; and it returns nothing only when all routines of the group were. *)
Theorem next_routine_highest (conf : ClassicConf) (ops : list SchedOp) (s : Classic)
    (now : Z) (g : string) :
  groups conf ≠ [] → Forall op_ok ops → sched_run conf ops = Some s → stop_ s = false →
  let '(s', r) := ClassicContext_NextRoutine now s g in
  match r with
  | None => ∀ n p, filed s g n p → skipped now (heap s) p
  | Some p => ∃ n q i c c', queues s g !! n = Some q ∧ q !! i = Some p ∧
      heap s !! p = Some c ∧ lock_ c = false ∧ ready_at now c = true ∧
      heap s' !! p = Some c' ∧ lock_ c' = true ∧ state_ c' = READY ∧
      (∀ m p', (n < m)%nat → filed s g m p' → skipped now (heap s) p') ∧
      (∀ j p', (j < i)%nat → q !! j = Some p' → skipped now (heap s) p')
  end.
Proof.
  intros Hg Hok Hrun Hst. pose proof (sched_run_inv _ _ _ Hg Hok Hrun) as Hs.
  unfold ClassicContext_NextRoutine. rewrite Hst.
  destruct (scan now (heap s) (run_order s g)) as [h r] eqn:E.
  destruct (scan_spec _ _ _ _ _ (run_order_NoDup s g Hs) E) as [_ Hr].
  destruct r as [p|].
  - destruct Hr as (pre & post & c & Hord & Hpre & Hc & Hl & Hrd & Hh).
    destruct (concat_reverse_split _ _ _ _ Hord) as (n & q & i & Hn & Hi & H1 & H2).
    rewrite Forall_forall in Hpre.
    exists n, q, i, c, (set_lock (UpdateState now c) true). do 8 (split; [try done|]).
    + by apply bool_decide_eq_true in Hrd.
    + split; [|by eauto]. intros m p' Hm (q' & Hq' & Hp'). eauto.
  - rewrite Forall_forall in Hr. intros n p Hp. apply Hr, elem_of_run_order. eauto.
Qed.

(** ** Shutting down *)

Lemma remove_all_ok cr_list s :
  classic_inv s → all_released s →
  ∃ s', remove_all s cr_list = Some s' ∧ classic_inv s' ∧ stop_ s' = stop_ s ∧
    id_cr_ s' = filter (λ '(i, _), i ∉ cr_list) (id_cr_ s).
Proof.
  revert s. induction cr_list as [|i l IH]; intros s Hs Hr.
  - exists s. split; [done|]. split; [done|]. split; [done|]. symmetry. apply map_filter_id. set_solver.
  - unfold remove_all. cbn.
    assert (∃ s1 b, Classic_RemoveCRoutine s i = Some (s1, b) ∧ classic_inv s1 ∧ all_released s1 ∧
      id_cr_ s1 = delete i (id_cr_ s) ∧ stop_ s1 = stop_ s) as (s1 & b & -> & Hs1 & Hr1 & Hd & Hst).
    { destruct (id_cr_ s !! i) as [p|] eqn:Hid.
      - destruct (ci_ids _ Hs _ _ Hid) as (c & q & Hc & _).
        destruct (RemoveCRoutine_known s i p c Hs Hid Hc) as (s1 & E & Hs1 & Hd & Hl & Hst & _).
        rewrite (Hr p c Hc) in *. exists s1, true. split; [done|]. split; [done|].
        split; [|by split]. intros x c' Hx. specialize (Hl eq_refl x). rewrite Hx in Hl. cbn in Hl.
        destruct (heap s !! x) as [c0|] eqn:Hx0; [|done]. cbn in Hl. rewrite <- (Hr x c0 Hx0). congruence.
      - exists s, false. unfold Classic_RemoveCRoutine. rewrite Hid. by rewrite delete_id. }
    cbn. destruct (IH s1 Hs1 Hr1) as (s' & E & Hs' & Hst' & Hf). exists s'. split; [exact E|].
    split; [done|]. split; [congruence|]. rewrite Hf, Hd. apply map_eq. intros j.
    apply option_eq. intros p. rewrite !map_lookup_filter_Some, lookup_delete_Some. set_solver.
Qed.

Lemma context_shutdown_frame ctxs s :
  let s' := foldl ClassicContext_Shutdown s ctxs in
  heap s' = heap s ∧ fresh s' = fresh s ∧ id_cr_ s' = id_cr_ s ∧ cr_group_ s' = cr_group_ s ∧
  stop_ s' = stop_ s.
Proof.
  revert s. induction ctxs as [|g l IH]; intros s; cbn; [done|].
  apply (IH (ClassicContext_Shutdown s g)).
Qed.

Lemma table_ids s (order : list (Z * CrPtr)) :
  classic_inv s → Forall (λ '(i, p), id_cr_ s !! i = Some p) order →
  mapM (λ '(_, p), id_ <$> heap s !! p) order = Some order.*1.
Proof.
  intros Hs Ho. apply mapM_Some. induction Ho as [|[i p] l Hp Ho IH]; cbn; constructor; [|done].
  destruct (ci_ids _ Hs _ _ Hp) as (c & q & -> & <- & _). done.
Qed.

(** [Shutdown] with no routine running, in whatever order it meets the tasks,
    leaves no task in the table and no routine in any run queue. *)
Theorem shutdown_empties (conf : ClassicConf) (ops : list SchedOp) (s : Classic)
    (order : list (Z * CrPtr)) :
  groups conf ≠ [] → Forall op_ok ops → sched_run conf ops = Some s → stop_ s = false →
  all_released s → order ≡ₚ map_to_list (id_cr_ s) →
  ∃ s', Classic_Shutdown order s = Some s' ∧ stop_ s' = true ∧ id_cr_ s' = ∅ ∧
    ∀ g n p, ¬ filed s' g n p.
Proof.
  intros Hg Hok Hrun Hst Hr Ho. pose proof (sched_run_inv _ _ _ Hg Hok Hrun) as Hs.
  unfold Classic_Shutdown. rewrite Hst. cbn.
  set (s0 := mkClassic _ _ _ _ _ _ true).
  destruct (context_shutdown_frame (pctxs_ s) s0) as (Eh & Ef & Ei & Eq & Es).
  set (s1 := foldl ClassicContext_Shutdown s0 (pctxs_ s)) in *.
  assert (classic_inv s1) as Hs1.
  { apply (classic_inv_heap s); try done; [by intros; unfold queues; rewrite Eq|].
    rewrite Eh. apply same_file_refl. }
  rewrite (table_ids s1) by (done || (rewrite Ei, Forall_forall; intros [i p];
    rewrite Ho; apply elem_of_map_to_list)). cbn.
  destruct (remove_all_ok order.*1 s1 Hs1) as (s' & E & Hs' & Hst' & Hf);
    [by unfold all_released; rewrite Eh|].
  rewrite E. cbn. eexists. split; [done|]. cbn.
  destruct (context_shutdown_frame (pctxs_ s') s') as (_ & _ & Ei' & Eq' & Es').
  rewrite Ei', Es'. unfold filed, queues. cbn. rewrite Eq'.
  assert (id_cr_ s' = ∅) as Hempty.
  { rewrite Hf, Ei. apply map_empty. intros i. apply map_lookup_filter_None. right. intros p Hi Hn. apply Hn.
    rewrite Ho. apply list_elem_of_fmap. exists (i, p). split; [done|]. by apply elem_of_map_to_list. }
  split; [by rewrite Hst', Es|]. split; [done|]. intros g n p (q & Hq & Hp).
  destruct (ci_filed _ Hs' g n q p Hq Hp) as (c & _ & _ & _ & Hi). by rewrite Hempty in Hi.
Qed.

(** ** What the calls leave alone *)

(** [CreateTask]: a new routine, under its id if that is new. *)
Lemma CreateTask_heap conf now s name task_id :
  groups conf ≠ [] → classic_inv s → stop_ s = false →
  ∃ s' c, Classic_CreateTask conf now s name task_id = Some (s', bool_decide (id_cr_ s !! task_id = None)) ∧
    heap s' = <[fresh s := c]> (heap s) ∧ fresh s' = S (fresh s) ∧
    id_cr_ s' = (if decide (id_cr_ s !! task_id = None) then <[task_id := fresh s]> (id_cr_ s) else id_cr_ s) ∧
    id_ c = task_id ∧ state_ c = READY ∧ force_stop_ c = false.
Proof.
  intros Hg Hs Hst. destruct (id_cr_ s !! task_id) as [p|] eqn:Hid.
  { rewrite bool_decide_false by done. unfold Classic_CreateTask. rewrite Hst.
    unfold Classic_DispatchTask. cbn. rewrite lookup_insert_eq. cbn.
    rewrite decide_True by (rewrite Hid; eauto). by eexists _, _. }
  assert (∃ prio g, task_place conf name = Some (prio, g)) as (prio & g & Hpl).
  { unfold task_place. destruct (cr_confs_ conf !! name) as [[pr g]|]; [by eexists _, _|].
    destruct (groups conf) as [|[g n] gs]; [done|]. by eexists _, _. }
  destruct (queue_exists s g prio Hs (task_place_range _ _ _ _ Hpl)) as [q Hq].
  pose proof (CreateTask_new conf now s name task_id prio g q Hst Hid Hpl Hq) as E. cbn zeta in E.
  eexists _, _. split; [exact E|]. done.
Qed.

(** What a notification does to a routine. *)
Definition notified (c : CRoutine) : CRoutine := if waits_for_event (state_ c) then SetUpdateFlag c else c.

Lemma NotifyProcessor_heap s crid :
  classic_inv s → stop_ s = false →
  ∃ s' b, Classic_NotifyProcessor s crid = Some (s', b) ∧ id_cr_ s' = id_cr_ s ∧ fresh s' = fresh s ∧
    stop_ s' = false ∧
    ∀ x, heap s' !! x = if decide (id_cr_ s !! crid = Some x) then notified <$> heap s !! x else heap s !! x.
Proof.
  intros Hs Hst. unfold Classic_NotifyProcessor. rewrite Hst.
  destruct (id_cr_ s !! crid) as [p|] eqn:Ep; [|eexists _, _; by repeat split].
  destruct (ci_ids _ Hs _ _ Ep) as (c & q & Hc & _). rewrite Hc. cbn.
  eexists _, _. split; [done|]. split; [done|]. split; [done|]. split; [done|]. intros x. cbn.
  destruct (decide (p = x)) as [->|Hne].
  - by rewrite lookup_insert_eq, decide_True, Hc.
  - by rewrite lookup_insert_ne, decide_False by congruence.
Qed.

(** A routine waiting in no queue of the scan is left alone. *)
Lemma scan_outside now h q h' r x : x ∉ q → scan now h q = (h', r) → h' !! x = h !! x.
Proof.
  revert h. induction q as [|p q IH]; intros h Hx; cbn [scan]; [by intros [= <- <-]|].
  apply not_elem_of_cons in Hx as [Hp Hx]. destruct (h !! p); [|by apply IH].
  cbn [Acquire]. destruct (negb _); [intros E; rewrite (IH _ Hx E); by apply lookup_insert_ne|].
  case_decide; [intros [= <- <-]; by apply lookup_insert_ne|].
  intros E. rewrite (IH _ Hx E). by apply lookup_insert_ne.
Qed.

(** The routines a scan passes over: untouched, or not ready and their flag taken. *)
Lemma scan_others now h q h' r x :
  NoDup q → scan now h q = (h', r) → r ≠ Some x →
  h' !! x = h !! x ∨ ∃ c, h !! x = Some c ∧ ready_at now c = false ∧ h' !! x = Some (UpdateState now c).
Proof.
  intros Hnd. revert h. induction Hnd as [|p q Hp Hnd IH]; intros h; cbn [scan]; [intros [= <- <-]; by left|].
  destruct (h !! p) as [c|] eqn:Hc; [|apply IH]. cbn [Acquire]. rewrite UpdateState_lock. cbn [state_ set_lock].
  destruct (lock_ c) eqn:Hl; cbn [negb].
  { replace (set_lock c true) with c by (rewrite <- Hl; by rewrite set_lock_same).
    rewrite insert_id by done. apply IH. }
  case_decide as Hready.
  { intros [= <- <-] Hne. left. by rewrite lookup_insert_ne by congruence. }
  assert (Release (set_lock (UpdateState now c) true) = UpdateState now c) as ->.
  { destruct (UpdateState_frame now c) as (_ & Hlk & _).
    transitivity (set_lock (UpdateState now c) (lock_ (UpdateState now c))); [by rewrite Hlk, Hl|apply set_lock_same]. }
  intros Hs Hne. destruct (decide (x = p)) as [->|Hx].
  - right. exists c. split; [done|]. split; [by apply bool_decide_eq_false|].
    by rewrite (scan_outside _ _ _ _ _ _ Hp Hs), lookup_insert_eq.
  - rewrite <- (lookup_insert_ne h p x (UpdateState now c)) by done. by apply IH.
Qed.

(** A processor of a group with a free and ready routine finds one. *)
Lemma scan_finds now h q p c :
  NoDup q → p ∈ q → h !! p = Some c → lock_ c = false → ready_at now c = true → (scan now h q).2 ≠ None.
Proof.
  intros Hnd Hp Hc Hl Hr. destruct (scan now h q) as [h' [x|]] eqn:E; [done|].
  destruct (scan_spec _ _ _ _ _ Hnd E) as [_ Hall]. rewrite Forall_forall in Hall.
  destruct (Hall p Hp c Hc); congruence.
Qed.

(** ** Removal by name *)

Definition process_new (conf : ClassicConf) : Process :=
  mkProcess registries_empty (Classic_CreateProcessor conf Classic_new) ∅.

Lemma CreateProcessor_frame conf s :
  let s' := Classic_CreateProcessor conf s in
  heap s' = heap s ∧ id_cr_ s' = id_cr_ s ∧ stop_ s' = stop_ s.
Proof.
  cbn. unfold Classic_CreateProcessor. revert s.
  induction (groups conf) as [|[g n] gs IH]; intros s; cbn; [done|].
  destruct (IH (Nat.iter n (λ s, add_context s g) s)) as (-> & -> & ->). clear.
  induction n; cbn; [done|exact IHn].
Qed.

(** The name takes the first id of its probe path that is free or its own. *)
Lemma RegisterTaskName_first (Hash : string → Z) fuel (g : Registries (M := AtomicHashMap string)) name :
  ks_view (task_id_map_ g) (Hash name) = None →
  ∃ g', RegisterTaskName Hash (S fuel) g name = Some (g', Hash name) ∧
    task_id_map_ g' = ks_set (task_id_map_ g) (Hash name) name.
Proof.
  intros Hv. unfold RegisterTaskName, Register. cbn [GlobalData.find_id]. rewrite Hv. cbn. eauto.
Qed.

Lemma RegisterTaskName_second (Hash : string → Z) fuel (g : Registries (M := AtomicHashMap string)) name other :
  ks_view (task_id_map_ g) (Hash name) = Some other → name ≠ other →
  ks_view (task_id_map_ g) (u64 (Hash name + 1)) = None →
  ∃ g', RegisterTaskName Hash (S (S fuel)) g name = Some (g', u64 (Hash name + 1)).
Proof.
  intros Hv Hne Hv'. unfold RegisterTaskName, Register. cbn [GlobalData.find_id].
  rewrite Hv, bool_decide_false by done. rewrite Hv'. cbn. eauto.
Qed.

Lemma u64_succ_ne z : is_u64 z → z ≠ u64 (z + 1).
Proof.
  unfold u64, is_u64. intros Hz. destruct (decide (z + 1 = 2 ^ 64)) as [E|];
    [rewrite E, Z_mod_same_full; lia|rewrite Z.mod_small; lia].
Qed.

(** Two tasks of different ids are both filed. *)
Lemma create_two conf now s a b ia ib :
  groups conf ≠ [] → classic_inv s → all_released s → stop_ s = false → id_cr_ s = ∅ → ia ≠ ib →
  ∃ s1 s2, Classic_CreateTask conf now s a ia = Some (s1, true) ∧
    stop_ s1 = false ∧ Classic_CreateTask conf now s1 b ib = Some (s2, true) ∧
    classic_inv s2 ∧ stop_ s2 = false ∧ all_released s2 ∧ dom (id_cr_ s2) = {[ib; ia]}.
Proof.
  intros Hg H0 Hr Hst Hid Hne.
  destruct (CreateTask_inv conf now s a ia Hg H0) as (s1 & E1 & H1 & D1 & St1 & R1).
  destruct (CreateTask_inv conf now s1 b ib Hg H1) as (s2 & E2 & H2 & D2 & St2 & R2).
  rewrite Hst, Hid in *. rewrite St1 in *. rewrite bool_decide_true in E1 by done.
  rewrite bool_decide_true in E2 by (apply not_elem_of_dom; rewrite D1; set_solver).
  exists s1, s2. do 6 (split; [by auto|]). rewrite D2, D1. set_solver.
Qed.

(** [RemoveTask] looks a task up by the hash of its name and not by its
    registered id: of two tasks whose names collide, removing the second removes the
    first and leaves the second in the table. *)
Theorem remove_task_collision (Hash : string → Z) (conf : ClassicConf) (a b : string) (now : Z) :
  (∀ s, is_u64 (Hash s)) → Hash a = Hash b → a ≠ b → groups conf ≠ [] →
  ∃ w1 w2 pa pb s',
    Scheduler_CreateTask Hash 2 conf now (process_new conf) a None = Some (w1, true) ∧
    Scheduler_CreateTask Hash 2 conf now w1 b None = Some (w2, true) ∧
    id_cr_ (sched w2) !! Hash a = Some pa ∧ id_cr_ (sched w2) !! u64 (Hash b + 1) = Some pb ∧
    Classic_RemoveTask Hash (sched w2) b = Some (s', true) ∧
    id_cr_ s' !! Hash a = None ∧ id_cr_ s' !! u64 (Hash b + 1) = Some pb.
Proof.
  intros Hu Hab Hne Hg. pose proof (Hu a) as Ha. pose proof (u64_range (Hash a + 1)) as Ha1.
  pose proof (u64_succ_ne _ Ha) as Hneq.
  destruct (CreateProcessor_frame conf Classic_new) as (Eh & Ei & Est).
  destruct (create_two conf now (Classic_CreateProcessor conf Classic_new) a b (Hash a) (u64 (Hash a + 1)))
    as (s1 & s2 & E1 & Hst1 & E2 & Hs & Hst & Hr & Hd);
    [done|apply CreateProcessor_inv, classic_inv_new|by unfold all_released; rewrite Eh|done|done|done|].
  destruct (RegisterTaskName_first Hash 1 registries_empty a) as (g1 & R1 & Hg1);
    [by unfold ks_view; cbn [task_id_map_ registries_empty]; rewrite ks_empty_get|].
  assert (∀ k, is_u64 k → ks_view (task_id_map_ g1) k = if decide (Hash a = k) then Some a else None) as Hv.
  { intros k Hk. rewrite Hg1, ks_set_view; [|apply ks_empty_inv|done|done].
    unfold ks_view; cbn [task_id_map_ registries_empty]. by rewrite ks_empty_get. }
  destruct (RegisterTaskName_second Hash 0 g1 b a) as (g2 & R2);
    [by rewrite <- Hab, Hv, decide_True|done|by rewrite <- Hab, Hv, decide_False|].
  assert (∀ i, i ∈ ({[u64 (Hash a + 1); Hash a]} : gset Z) → is_Some (id_cr_ s2 !! i)) as Hin
    by (intros i Hi; apply elem_of_dom; by rewrite Hd).
  destruct (Hin (Hash a)) as [p Hp]; [set_solver|].
  destruct (Hin (u64 (Hash a + 1))) as [p' Hp']; [set_solver|].
  destruct (ci_ids _ Hs _ _ Hp) as (c & q & Hc & _).
  destruct (RemoveCRoutine_known s2 (Hash a) p c Hs Hp Hc) as (s' & E & _ & Hdel & _).
  rewrite (Hr p c Hc) in E.
  exists (mkProcess g1 s1 ∅), (mkProcess g2 s2 ∅), p, p', s'.
  unfold Scheduler_CreateTask, process_new. cbn [sched registries callbacks].
  rewrite Est, Hst1, R1, R2, <- Hab. cbn [mbind option_bind]. rewrite E1, E2. cbn. rewrite Hp, Hp'.
  unfold Classic_RemoveTask. rewrite Hst, <- Hab, E, Hdel.
  by rewrite lookup_delete_eq, lookup_delete_ne.
Qed.

(** ** Witnesses *)

Definition demo_conf : ClassicConf :=
  mkClassicConf {["control" := (15%N, "real_time"); "logger" := (99%N, "real_time")]}
    [("real_time", 2%nat); ("pool", 1%nat)].
(** Three tasks; the logger and the control task run, one hangs up and is notified, the
    other sleeps. *)
Definition demo_ops : list SchedOp :=
  [OpCreate 0 "control" 7; OpCreate 0 "logger" 8; OpCreate 1 "other" 9; OpCreate 1 "control" 7;
   OpNext 2 "real_time"; OpNext 2 "real_time"; OpFinish (λ c, Sleep 3 c 10) 0%nat;
   OpFinish HangUp 1%nat; OpNotify 8; OpWait "real_time"].
Definition demo_state : Classic := default Classic_new (sched_run demo_conf demo_ops).

Lemma demo_ops_ok : Forall op_ok demo_ops.
Proof. by repeat constructor. Qed.

Lemma scheduler_consistent_witness :
  filed demo_state "real_time" 19 1%nat ∧ ∀ g, NoDup (run_order demo_state g).
Proof.
  destruct (scheduler_consistent demo_conf demo_ops demo_state) as (_ & _ & H & _);
    [done|apply demo_ops_ok|by vm_compute|].
  split; [|exact H]. exists [1%nat]. split; [by vm_compute|set_solver].
Defined.

Lemma next_routine_highest_witness :
  ∃ c', heap (ClassicContext_NextRoutine 4 demo_state "real_time").1 !! 1%nat = Some c' ∧
    state_ c' = READY.
Proof.
  pose proof (next_routine_highest demo_conf demo_ops demo_state 4 "real_time" ltac:(done)
    demo_ops_ok ltac:(by vm_compute) ltac:(by vm_compute)) as H.
  destruct (ClassicContext_NextRoutine 4 demo_state "real_time") as [s' r] eqn:E.
  assert (r = Some 1%nat) as ->.
  { change r with ((s', r).2). rewrite <- E. by vm_compute. }
  destruct H as (n & q & i & c & c' & _ & _ & _ & _ & _ & Hc & _ & Hr & _). eauto.
Defined.

Lemma shutdown_empties_witness :
  ∃ s', Classic_Shutdown (map_to_list (id_cr_ demo_state)) demo_state = Some s' ∧ id_cr_ s' = ∅.
Proof.
  destruct (shutdown_empties demo_conf demo_ops demo_state (map_to_list (id_cr_ demo_state)))
    as (s' & E & _ & Hi & _);
    [done|exact demo_ops_ok|vm_compute; reflexivity|vm_compute; reflexivity| |apply Permutation_refl|
     exact (ex_intro _ s' (conj E Hi))].
  intros p c Hc.
  assert (map_Forall (λ _ c, lock_ c = false) (heap demo_state)) as Hl
    by (apply (bool_decide_unpack _); by vm_compute).
  exact (Hl p c Hc).
Defined.

Lemma remove_task_collision_witness :
  ∃ w s' p, Classic_RemoveTask (λ _, 5) (sched w) "b" = Some (s', true) ∧
    id_cr_ (sched w) !! 5 = Some p ∧ id_cr_ s' !! 5 = None.
Proof.
  destruct (remove_task_collision (λ _, 5) demo_conf "a" "b" 0)
    as (w1 & w2 & pa & pb & s' & _ & _ & Hs & _ & Hr & Hd & _);
    [intros; unfold is_u64; lia|done|done|done|].
  exact (ex_intro _ w2 (ex_intro _ s' (ex_intro _ pa (conj Hr (conj Hs Hd))))).
Defined.
