(* ===== verification/Choreography.v ===== *)
(** * The choreography policy (cyber/scheduler/policy: scheduler_choreography.cc,
    choreography_context.cc)

    Some tasks are bound to a processor by the configuration; each such processor has
    a context with a queue of its own, ordered by priority.  The others go to a pool of
    processors that share the classic run queues of the group [DEFAULT_GROUP_NAME].
    What the two kinds of queue have in common with the id table is stated once, as
    [agree], over any way of assigning a queue to a routine. *)

From stdpp Require Import base numbers list gmap strings sorting.
From Stdlib Require Import ZArith Lia.
From S2P Require Import Prelude CRoutine Scheduler.

Open Scope Z_scope.

#[local] Arguments MAX_PRIO : simpl never.

(** ** Contexts *)

(** [ChoreographyContext]: a multimap ordered by descending priority. *)
Record Ctx := mkCtx { cr_queue_ : list (Z * CrPtr); notify : Z }.
Definition Ctx_new : Ctx := mkCtx [] 0.

(** [cr_queue_.emplace(prio, cr)]: behind the entries of the same priority. *)
Fixpoint emplace (prio : Z) (p : CrPtr) (q : list (Z * CrPtr)) : list (Z * CrPtr) :=
  match q with
  | [] => [(prio, p)]
  | (prio', p') :: q' =>
      if prio <=? prio' then (prio', p') :: emplace prio p q' else (prio, p) :: q
  end.
Definition Enqueue (x : Ctx) (c : CRoutine) (p : CrPtr) : Ctx :=
  mkCtx (emplace (priority_ c) p (cr_queue_ x)) (notify x).

Definition Ctx_Notify (x : Ctx) : Ctx := mkCtx (cr_queue_ x) (i32 (notify x + 1)).
Definition Ctx_Wait (x : Ctx) : Ctx :=
  if 0 <? notify x then mkCtx (cr_queue_ x) (notify x - 1) else x.
Definition Ctx_Shutdown (x : Ctx) : Ctx := mkCtx (cr_queue_ x) 255.

(** [NextRoutine()] of a context whose scheduler is not stopped. *)
Definition Ctx_NextRoutine (now : Z) (h : Heap) (x : Ctx) : Heap * option CrPtr :=
  scan now h (cr_queue_ x).*2.

(** [RemoveCRoutine(crid)]; [None] while a processor holds the routine. *)
Definition Ctx_RemoveCRoutine (h : Heap) (x : Ctx) (crid : Z) : option (Heap * Ctx * bool) :=
  match list_find (λ '(_, p), id_ <$> h !! p = Some crid) (cr_queue_ x) with
  | None => Some (h, x, false)
  | Some (i, (_, p)) =>
      c ← h !! p;
      let '(c, ok) := Acquire (Stop c) in
      if negb ok then None
      else Some (<[p := Release c]> h, mkCtx (delete i (cr_queue_ x)) (notify x), true)
  end.

(** ** The scheduler *)

(** [cr_confs_]: prio and, if it has one, processor of a task. *)
Definition ChoreoConf := gmap string (N * option Z).

(** The choreography contexts, and the pool with what [Scheduler] keeps. *)
Record Choreo := mkChoreo { pool : Classic; ctxs : list Ctx }.

Definition proc_num_ (s : Choreo) : Z := Z.of_nat (length (ctxs s)).
Definition with_heap (s : Choreo) (h : Heap) : Choreo := mkChoreo (set_heap (pool s) h) (ctxs s).
Definition with_ctx (s : Choreo) (k : nat) (x : Ctx) : Choreo := mkChoreo (pool s) (<[k := x]> (ctxs s)).

(** [CreateProcessor()]: the contexts of both kinds. *)
Definition Choreo_CreateProcessor (proc_num task_pool_size : nat) : Choreo :=
  mkChoreo (Nat.iter task_pool_size (λ s, add_context s DEFAULT_GROUP_NAME) Classic_new)
    (replicate proc_num Ctx_new).

(** [uint32_t pid = cr->processor_id()]. *)
Definition pid (c : CRoutine) : Z := u32 (processor_id_ c).

(** [DispatchTask(cr)]. *)
Definition configured (conf : ChoreoConf) (c : CRoutine) : CRoutine :=
  match conf !! name_ c with
  | Some (prio, processor) =>
      let c := set_priority c (Z.of_N prio) in
      match processor with Some x => set_processor_id c x | None => c end
  | None => c
  end.
Definition pooled (c : CRoutine) : CRoutine :=
  let c := if Z.of_nat MAX_PRIO <=? priority_ c then set_priority c (Z.of_nat MAX_PRIO - 1) else c in
  set_group_name c DEFAULT_GROUP_NAME.

Definition Choreo_DispatchTask (conf : ChoreoConf) (s : Choreo) (p : CrPtr) : option (Choreo * bool) :=
  c ← heap (pool s) !! p;
  let c := configured conf c in
  let s := with_heap s (<[p := c]> (heap (pool s))) in
  if decide (is_Some (id_cr_ (pool s) !! id_ c)) then Some (s, false)
  else
    let s := mkChoreo (set_ids (pool s) (<[id_ c := p]> (id_cr_ (pool s)))) (ctxs s) in
    if pid c <? proc_num_ s then
      x ← ctxs s !! Z.to_nat (pid c);
      Some (with_ctx s (Z.to_nat (pid c)) (Enqueue x c p), true)
    else
      let c := pooled c in
      let s := with_heap s (<[p := c]> (heap (pool s))) in
      q ← queue (pool s) DEFAULT_GROUP_NAME (priority_ c);
      Some (mkChoreo (set_queue (pool s) DEFAULT_GROUP_NAME (priority_ c) (q ++ [p])) (ctxs s), true).

(** [Scheduler::CreateTask] from the task id to the answer of [DispatchTask]. *)
Definition Choreo_CreateTask (conf : ChoreoConf) (now : Z) (s : Choreo) (name : string) (task_id : Z)
  : option (Choreo * bool) :=
  if stop_ (pool s) then Some (s, false)
  else
    let t := pool s in
    let p := fresh t in
    let cr := set_name (set_id (CRoutine_new now) task_id) name in
    Choreo_DispatchTask conf
      (mkChoreo (mkClassic (<[p := cr]> (heap t)) (S p) (id_cr_ t) (cr_group_ t) (notify_grp_ t)
                   (pctxs_ t) (stop_ t)) (ctxs s)) p.

(** [NotifyProcessor(crid)]. *)
Definition Choreo_NotifyProcessor (s : Choreo) (crid : Z) : option (Choreo * bool) :=
  if stop_ (pool s) then Some (s, true)
  else match id_cr_ (pool s) !! crid with
       | None => Some (s, false)
       | Some p =>
           c ← heap (pool s) !! p;
           let c := if waits_for_event (state_ c) then SetUpdateFlag c else c in
           let s := with_heap s (<[p := c]> (heap (pool s))) in
           if pid c <? proc_num_ s then
             x ← ctxs s !! Z.to_nat (pid c);
             Some (with_ctx s (Z.to_nat (pid c)) (Ctx_Notify x), true)
           else Some (mkChoreo (ClassicContext_Notify (pool s) (group_name_ c)) (ctxs s), true)
       end.

(** [RemoveCRoutine(crid)] and [RemoveTask(name)]. *)
Definition Choreo_RemoveCRoutine (s : Choreo) (crid : Z) : option (Choreo * bool) :=
  match id_cr_ (pool s) !! crid with
  | None => Some (s, false)
  | Some p =>
      c ← heap (pool s) !! p;
      let s := mkChoreo (set_ids (set_heap (pool s) (<[p := Stop c]> (heap (pool s))))
                           (delete crid (id_cr_ (pool s)))) (ctxs s) in
      if pid c <? proc_num_ s then
        x ← ctxs s !! Z.to_nat (pid c);
        '(h, x, b) ← Ctx_RemoveCRoutine (heap (pool s)) x crid;
        Some (with_ctx (with_heap s h) (Z.to_nat (pid c)) x, b)
      else
        '(t, b) ← ClassicContext_RemoveCRoutine (pool s) p;
        Some (mkChoreo t (ctxs s), b)
  end.
Definition Choreo_RemoveTask (Hash : string → Z) (s : Choreo) (name : string) : option (Choreo * bool) :=
  if stop_ (pool s) then Some (s, true) else Choreo_RemoveCRoutine s (Hash name).

(** A turn of a processor of context [k], or of the pool: [NextRoutine]; then [Resume]
    and [Release]. *)
Definition Choreo_NextRoutine (now : Z) (s : Choreo) (k : option nat) : option (Choreo * option CrPtr) :=
  match k with
  | None => let '(t, r) := ClassicContext_NextRoutine now (pool s) DEFAULT_GROUP_NAME in
            Some (mkChoreo t (ctxs s), r)
  | Some k =>
      x ← ctxs s !! k;
      if stop_ (pool s) then Some (s, None)
      else let '(h, r) := Ctx_NextRoutine now (heap (pool s)) x in Some (with_heap s h, r)
  end.
Definition Choreo_run (slice : CRoutine → CRoutine) (s : Choreo) (p : CrPtr) : option Choreo :=
  t ← Processor_run slice (pool s) p; Some (mkChoreo t (ctxs s)).
Definition Choreo_Wait (s : Choreo) (k : option nat) : option Choreo :=
  match k with
  | None => Some (mkChoreo (ClassicContext_Wait (pool s) DEFAULT_GROUP_NAME) (ctxs s))
  | Some k => x ← ctxs s !! k; Some (with_ctx s k (Ctx_Wait x))
  end.

(** [Scheduler::Shutdown()]: the contexts, then the tasks in the order [order] in which
    the loop over [id_cr_] meets them, then the contexts again. *)
Definition Choreo_contexts_Shutdown (s : Choreo) : Choreo :=
  mkChoreo (foldl ClassicContext_Shutdown (pool s) (pctxs_ (pool s))) (Ctx_Shutdown <$> ctxs s).
Definition Choreo_Shutdown (order : list (Z * CrPtr)) (s : Choreo) : option Choreo :=
  let t := pool s in
  if stop_ t then Some s
  else
    let s := mkChoreo (mkClassic (heap t) (fresh t) (id_cr_ t) (cr_group_ t) (notify_grp_ t) (pctxs_ t) true)
               (ctxs s) in
    let s := Choreo_contexts_Shutdown s in
    cr_list ← mapM (λ '(_, p), id_ <$> heap (pool s) !! p) order;
    s ← foldl (λ os crid, s ← os; '(s, _) ← Choreo_RemoveCRoutine s crid; Some s) (Some s) cr_list;
    let t := pool (Choreo_contexts_Shutdown s) in
    Some (mkChoreo (mkClassic (heap t) (fresh t) (id_cr_ t) (cr_group_ t) (notify_grp_ t) [] (stop_ t)) []).

(** ** Tables and queues that agree *)

Section agree.
Context {L : Type} `{EqDecision L} (loc : CRoutine → L) (ok : CRoutine → Prop).

(** Every task of the table is in the queue of its place, once, and in no other; every
    queued routine is the task of its id. *)
Record agree (h : Heap) (fr : CrPtr) (ids : gmap Z CrPtr) (Q : L → list CrPtr) : Prop := {
  ag_fresh : ∀ p, (fr <= p)%nat → h !! p = None;
  ag_ids : ∀ i p, ids !! i = Some p → ∃ c, h !! p = Some c ∧ id_ c = i ∧ p ∈ Q (loc c);
  ag_filed : ∀ l p, p ∈ Q l → ∃ c, h !! p = Some c ∧ loc c = l ∧ ids !! id_ c = Some p ∧ ok c;
  ag_nodup : ∀ l, NoDup (Q l)
}.

(** What [agree] depends on in a routine. *)
Definition same_home (c c' : CRoutine) : Prop :=
  id_ c' = id_ c ∧ loc c' = loc c ∧ (ok c → ok c').

Lemma same_home_insert (h : Heap) p c c' :
  h !! p = Some c → same_home c c' → ∀ x, option_Forall2 same_home (h !! x) ((<[p := c']> h) !! x).
Proof.
  intros Hp Hs x. destruct (decide (x = p)) as [->|Hne].
  - rewrite Hp, lookup_insert_eq. by constructor.
  - rewrite lookup_insert_ne by done. destruct (h !! x); by constructor.
Qed.

Lemma agree_heap h h' fr ids Q Q' :
  agree h fr ids Q → (∀ x, option_Forall2 same_home (h !! x) (h' !! x)) → (∀ l, Q' l = Q l) →
  agree h' fr ids Q'.
Proof.
  intros [Hf Hi Hq Hn] Eh EQ. split.
  - intros p Hp. specialize (Eh p). rewrite Hf in Eh by done. by inversion Eh.
  - intros i p Hp. destruct (Hi i p Hp) as (c & Hc & Hid & Hin). specialize (Eh p). rewrite Hc in Eh.
    apply option_Forall2_Some_l in Eh as (c' & Hc' & E1 & E2 & _). exists c'. by rewrite E1, E2, EQ.
  - intros l p Hp. rewrite EQ in Hp. destruct (Hq l p Hp) as (c & Hc & Hl & Hid & Hok).
    specialize (Eh p). rewrite Hc in Eh.
    apply option_Forall2_Some_l in Eh as (c' & Hc' & E1 & E2 & E3). exists c'. rewrite E1, E2. auto.
  - intros l. by rewrite EQ.
Qed.

Lemma agree_alloc h fr ids Q c :
  agree h fr ids Q → agree (<[fr := c]> h) (S fr) ids Q.
Proof.
  intros Hs. assert (∀ p c', h !! p = Some c' → fr ≠ p) as Hne.
  { intros p c' Hp <-. by rewrite (ag_fresh _ _ _ _ Hs) in Hp by lia. }
  split; [|intros i p Hp|intros l p Hp|apply (ag_nodup _ _ _ _ Hs)].
  - intros p Hp. rewrite lookup_insert_ne by lia. apply (ag_fresh _ _ _ _ Hs). lia.
  - destruct (ag_ids _ _ _ _ Hs i p Hp) as (c' & Hc & Hr). exists c'.
    by rewrite lookup_insert_ne by eauto.
  - destruct (ag_filed _ _ _ _ Hs l p Hp) as (c' & Hc & Hr). exists c'.
    by rewrite lookup_insert_ne by eauto.
Qed.

(** A new routine enters the queue of its place, anywhere in it. *)
Lemma agree_file h fr ids Q c Q' :
  agree h fr ids Q → ids !! id_ c = None → ok c →
  Q' (loc c) ≡ₚ fr :: Q (loc c) → (∀ l, l ≠ loc c → Q' l = Q l) →
  agree (<[fr := c]> h) (S fr) (<[id_ c := fr]> ids) Q'.
Proof.
  intros Hs Hid Hok HQ HQ'. pose proof (ag_fresh _ _ _ _ Hs fr ltac:(lia)) as Hfr.
  assert (∀ l x, x ∈ Q l → x ≠ fr) as Hold.
  { intros l x Hx ->. destruct (ag_filed _ _ _ _ Hs l fr Hx) as (c' & ? & _). congruence. }
  assert (∀ l x, x ∈ Q' l ↔ x ∈ Q l ∨ (l = loc c ∧ x = fr)) as HQin.
  { intros l x. destruct (decide (l = loc c)) as [->|Hl]; [rewrite HQ|rewrite HQ' by done];
      rewrite ?elem_of_cons; naive_solver. }
  split.
  - intros p Hp. rewrite lookup_insert_ne by lia. apply (ag_fresh _ _ _ _ Hs). lia.
  - intros i p [[<- <-]|[Hne Hp]]%lookup_insert_Some.
    + exists c. rewrite lookup_insert_eq, HQin. auto.
    + destruct (ag_ids _ _ _ _ Hs i p Hp) as (c' & Hc & Hi & Hin). exists c'.
      rewrite lookup_insert_ne by congruence. rewrite HQin. auto.
  - intros l p [Hp|[-> ->]]%HQin; [|exists c; by rewrite !lookup_insert_eq].
    destruct (ag_filed _ _ _ _ Hs l p Hp) as (c' & Hc & Hl & Hi & Hok'). exists c'.
    rewrite !lookup_insert_ne by congruence. done.
  - intros l. destruct (decide (l = loc c)) as [->|Hl]; [rewrite HQ|rewrite HQ' by done].
    + apply NoDup_cons. split; [|apply (ag_nodup _ _ _ _ Hs)]. intros Hin. by apply (Hold _ _ Hin).
    + apply (ag_nodup _ _ _ _ Hs).
Qed.

(** A routine leaves its queue. *)
Lemma agree_unfile h h' fr ids Q p c Q' :
  agree h fr ids Q → ids !! id_ c = Some p → h !! p = Some c →
  Q (loc c) ≡ₚ p :: Q' (loc c) → (∀ l, l ≠ loc c → Q' l = Q l) →
  (∀ x, option_Forall2 same_home (h !! x) (h' !! x)) →
  agree h' fr (delete (id_ c) ids) Q'.
Proof.
  intros Hs Hid Hc HQ HQ' Hh.
  assert (∀ l x, x ∈ Q' l ↔ x ∈ Q l ∧ x ≠ p) as HQin.
  { intros l x. pose proof (ag_nodup _ _ _ _ Hs (loc c)) as Hnd. rewrite HQ in Hnd.
    apply NoDup_cons in Hnd as [Hp _].
    destruct (decide (l = loc c)) as [->|Hl]; [rewrite HQ, elem_of_cons; naive_solver|].
    rewrite HQ' by done. split; [|naive_solver]. intros Hx. split; [done|]. intros ->.
    destruct (ag_filed _ _ _ _ Hs l p Hx) as (c' & ? & ? & _). congruence. }
  apply (agree_heap h _ _ _ Q'); [|done|done]. split.
  - apply (ag_fresh _ _ _ _ Hs).
  - intros i x [Hi Hx]%lookup_delete_Some. destruct (ag_ids _ _ _ _ Hs i x Hx) as (c' & Hc' & E & Hin).
    exists c'. rewrite HQin. split; [done|]. split; [done|]. split; [done|]. intros ->. congruence.
  - intros l x [Hx Hne]%HQin. destruct (ag_filed _ _ _ _ Hs l x Hx) as (c' & Hc' & E & Hi & Hok).
    exists c'. rewrite lookup_delete_ne by congruence. done.
  - intros l. destruct (decide (l = loc c)) as [->|Hl]; [|rewrite HQ' by done; apply (ag_nodup _ _ _ _ Hs)].
    pose proof (ag_nodup _ _ _ _ Hs (loc c)) as Hnd. rewrite HQ in Hnd. by apply NoDup_cons in Hnd as [_ ?].
Qed.
End agree.

(** ** The places of the choreography scheduler *)

Inductive Place := OnCtx (k : nat) | OnPool (prio : nat).
#[global] Instance Place_eq_dec : EqDecision Place.
Proof. solve_decision. Defined.

Definition place (n : Z) (c : CRoutine) : Place :=
  if pid c <? n then OnCtx (Z.to_nat (pid c)) else OnPool (Z.to_nat (priority_ c)).

(** The run queue of a place, in the order in which it is scanned. *)
Definition run_queue (s : Choreo) (l : Place) : list CrPtr :=
  match l with
  | OnCtx k => match ctxs s !! k with Some x => (cr_queue_ x).*2 | None => [] end
  | OnPool n => default [] (queues (pool s) DEFAULT_GROUP_NAME !! n)
  end.

(** A routine of the pool has the pool's group and a priority that has a queue. *)
Definition pool_ok (n : Z) (c : CRoutine) : Prop :=
  n <= pid c → group_name_ c = DEFAULT_GROUP_NAME ∧ 0 <= priority_ c < Z.of_nat MAX_PRIO.

(** A context's queue is ordered, and keyed by the priorities of its routines. *)
Definition keyed (h : Heap) (x : Ctx) : Prop :=
  StronglySorted Z.ge (cr_queue_ x).*1 ∧
  ∀ prio p, (prio, p) ∈ cr_queue_ x → priority_ <$> h !! p = Some prio.

Record choreo_inv (s : Choreo) : Prop := {
  co_agree : agree (place (proc_num_ s)) (pool_ok (proc_num_ s)) (heap (pool s)) (fresh (pool s))
               (id_cr_ (pool s)) (run_queue s);
  co_len : length (queues (pool s) DEFAULT_GROUP_NAME) = MAX_PRIO;
  co_keyed : Forall (keyed (heap (pool s))) (ctxs s)
}.

(** What the queues depend on in a routine. *)
Definition same_route (c c' : CRoutine) : Prop :=
  id_ c' = id_ c ∧ processor_id_ c' = processor_id_ c ∧ priority_ c' = priority_ c ∧
  group_name_ c' = group_name_ c.

Lemma same_route_home n c c' : same_route c c' → same_home (place n) (pool_ok n) c c'.
Proof.
  intros (E1 & E2 & E3 & E4). unfold same_home, place, pool_ok, pid. by rewrite E1, E2, E3, E4.
Qed.

Lemma same_task_route c c' : same_task c c' → same_route c c'.
Proof. by intros (? & ? & ? & ? & ? & ?). Qed.

Lemma routes_insert (h : Heap) p c c' :
  h !! p = Some c → same_route c c' → ∀ x, option_Forall2 same_route (h !! x) ((<[p := c']> h) !! x).
Proof.
  intros Hp Hs x. destruct (decide (x = p)) as [->|Hne].
  - rewrite Hp, lookup_insert_eq. by constructor.
  - rewrite lookup_insert_ne by done. destruct (h !! x); by constructor.
Qed.

Lemma routes_home n (h h' : Heap) :
  (∀ x, option_Forall2 same_route (h !! x) (h' !! x)) →
  ∀ x, option_Forall2 (same_home (place n) (pool_ok n)) (h !! x) (h' !! x).
Proof. intros H x. destruct (H x); constructor. by apply same_route_home. Qed.

Lemma keyed_heap (h h' : Heap) x :
  (∀ p, option_Forall2 same_route (h !! p) (h' !! p)) → keyed h x → keyed h' x.
Proof.
  intros Hh [Hs Hk]. split; [done|]. intros prio p Hp. specialize (Hk prio p Hp). specialize (Hh p).
  destruct (h !! p) as [c|]; [|done]. cbn in Hk.
  apply option_Forall2_Some_l in Hh as (c' & -> & _ & _ & E & _). cbn. by rewrite E.
Qed.

(** Calls that change neither the table nor the queues. *)
Lemma choreo_inv_heap s s' :
  choreo_inv s → fresh (pool s') = fresh (pool s) → id_cr_ (pool s') = id_cr_ (pool s) →
  queues (pool s') DEFAULT_GROUP_NAME = queues (pool s) DEFAULT_GROUP_NAME →
  cr_queue_ <$> ctxs s' = cr_queue_ <$> ctxs s →
  (∀ x, option_Forall2 same_route (heap (pool s) !! x) (heap (pool s') !! x)) → choreo_inv s'.
Proof.
  intros [Ha Hl Hk] Ef Ei Eq Ec Eh.
  assert (length (ctxs s') = length (ctxs s)) as Elen
    by (by rewrite <- (length_fmap cr_queue_ (ctxs s')), Ec, length_fmap).
  split.
  - unfold proc_num_. rewrite Elen, Ef, Ei.
    eapply agree_heap; [exact Ha|by apply routes_home|]. intros [k|n]; cbn; [|by rewrite Eq].
    pose proof (f_equal (.!! k) Ec) as E. rewrite !list_lookup_fmap in E.
    destruct (ctxs s' !! k), (ctxs s !! k); cbn in E; try done. by injection E as ->.
  - by rewrite Eq.
  - rewrite Forall_lookup in *. intros k x' Hx'.
    pose proof (f_equal (.!! k) Ec) as E. rewrite !list_lookup_fmap, Hx' in E.
    destruct (ctxs s !! k) as [x|] eqn:Hx; [|done]. cbn in E. injection E as E.
    specialize (Hk k x Hx). apply (keyed_heap _ _ _ Eh) in Hk. unfold keyed in *. by rewrite E.
Qed.

Lemma run_queue_pool_NoDup s : choreo_inv s → NoDup (run_order (pool s) DEFAULT_GROUP_NAME).
Proof.
  intros Hs. unfold run_order. rewrite reverse_Permutation.
  pose proof (co_agree _ Hs) as Ha. apply NoDup_concat.
  - intros n q Hn. pose proof (ag_nodup _ _ _ _ _ _ Ha (OnPool n)) as Hnd. cbn in Hnd.
    by rewrite Hn in Hnd.
  - intros n m q q' x Hn Hm Hx Hx'.
    destruct (ag_filed _ _ _ _ _ _ Ha (OnPool n) x) as (c & Hc & E & _); [cbn; by rewrite Hn|].
    destruct (ag_filed _ _ _ _ _ _ Ha (OnPool m) x) as (c' & Hc' & E' & _); [cbn; by rewrite Hm|].
    simplify_eq. rewrite E in E'. by injection E'.
Qed.

(** ** Placing a task *)

Lemma emplace_Permutation prio p q : emplace prio p q ≡ₚ (prio, p) :: q.
Proof.
  induction q as [|[prio' p'] q IH]; cbn; [done|]. destruct (prio <=? prio'); [|done].
  rewrite IH. constructor.
Qed.

Lemma emplace_sorted prio p q :
  StronglySorted Z.ge q.*1 → StronglySorted Z.ge (emplace prio p q).*1.
Proof.
  induction q as [|[prio' p'] q IH]; cbn; intros Hs; [by repeat constructor|].
  apply StronglySorted_inv in Hs as [Hs Hall].
  destruct (Z.leb_spec prio prio'); cbn; constructor; auto.
  - rewrite emplace_Permutation. constructor; [cbn; lia|done].
  - constructor; auto.
  - constructor; [lia|]. eapply Forall_impl; [exact Hall|]. cbn. lia.
Qed.

Lemma keyed_fresh (h : Heap) x p c : h !! p = None → keyed h x → keyed (<[p := c]> h) x.
Proof.
  intros Hp [Hs Hk]. split; [done|]. intros prio y Hy. specialize (Hk prio y Hy).
  rewrite lookup_insert_ne; [done|]. intros <-. by rewrite Hp in Hk.
Qed.

Lemma configured_id conf c : id_ (configured conf c) = id_ c.
Proof. unfold configured. destruct (conf !! name_ c) as [[prio [x|]]|]; done. Qed.

Lemma configured_prio conf c : 0 <= priority_ c → 0 <= priority_ (configured conf c).
Proof. unfold configured. destruct (conf !! name_ c) as [[prio [x|]]|]; cbn; lia. Qed.

Lemma pooled_spec c :
  let c' := pooled c in
  id_ c' = id_ c ∧ pid c' = pid c ∧ group_name_ c' = DEFAULT_GROUP_NAME ∧
  priority_ c' = Z.min (priority_ c) (Z.of_nat MAX_PRIO - 1).
Proof.
  cbn. unfold pooled. destruct (Z.leb_spec (Z.of_nat MAX_PRIO) (priority_ c)); cbn;
    repeat split; rewrite ?Z.min_l, ?Z.min_r by lia; done.
Qed.

(** A routine bound to a processor joins the queue of its context. *)
Lemma file_ctx s c x t :
  choreo_inv s → id_cr_ (pool s) !! id_ c = None → pid c < proc_num_ s →
  ctxs s !! Z.to_nat (pid c) = Some x →
  heap t = <[fresh (pool s) := c]> (heap (pool s)) → fresh t = S (fresh (pool s)) →
  id_cr_ t = <[id_ c := fresh (pool s)]> (id_cr_ (pool s)) →
  queues t DEFAULT_GROUP_NAME = queues (pool s) DEFAULT_GROUP_NAME →
  choreo_inv (mkChoreo t (<[Z.to_nat (pid c) := Enqueue x c (fresh (pool s))]> (ctxs s))).
Proof.
  intros Hs Hid Hpid Hx Eh Ef Ei Eq. set (p := fresh (pool s)) in *.
  pose proof (ag_fresh _ _ _ _ _ _ (co_agree _ Hs) p ltac:(lia)) as Hp.
  assert (place (proc_num_ s) c = OnCtx (Z.to_nat (pid c))) as Hpl
    by (unfold place; by rewrite (proj2 (Z.ltb_lt _ _) Hpid)).
  split; cbn.
  - match goal with |- context [proc_num_ ?s'] =>
      replace (proc_num_ s') with (proc_num_ s) by (unfold proc_num_; cbn; by rewrite length_insert) end.
    rewrite Eh, Ef, Ei.
    apply agree_file with (run_queue s); [apply (co_agree _ Hs)|done|unfold pool_ok; lia| |].
    + rewrite Hpl. cbn. rewrite list_lookup_insert_eq by (by eapply lookup_lt_Some). rewrite Hx. cbn.
      by rewrite emplace_Permutation.
    + rewrite Hpl. intros [k|n] Hl; cbn; [|by rewrite Eq].
      rewrite list_lookup_insert_ne; [done|]. congruence.
  - rewrite Eq. apply (co_len _ Hs).
  - rewrite Eh. pose proof (co_keyed _ Hs) as Hk. rewrite Forall_forall in Hk.
    apply Forall_insert; [rewrite Forall_forall; intros; by apply keyed_fresh, Hk|].
    destruct (Hk x) as [Hsrt Hkey]; [by eapply list_elem_of_lookup_2|].
    split; cbn; [by apply emplace_sorted|]. intros prio y. rewrite emplace_Permutation, elem_of_cons.
    intros [[= -> ->]|Hy]; [by rewrite lookup_insert_eq|].
    by apply (keyed_fresh _ x p c Hp (conj Hsrt Hkey)).
Qed.

(** Another joins the pool. *)
Lemma file_pool s c q t :
  choreo_inv s → id_cr_ (pool s) !! id_ c = None → proc_num_ s <= pid c →
  group_name_ c = DEFAULT_GROUP_NAME → 0 <= priority_ c < Z.of_nat MAX_PRIO →
  queue (pool s) DEFAULT_GROUP_NAME (priority_ c) = Some q →
  heap t = <[fresh (pool s) := c]> (heap (pool s)) → fresh t = S (fresh (pool s)) →
  id_cr_ t = <[id_ c := fresh (pool s)]> (id_cr_ (pool s)) →
  queues t DEFAULT_GROUP_NAME =
    <[Z.to_nat (priority_ c) := q ++ [fresh (pool s)]]> (queues (pool s) DEFAULT_GROUP_NAME) →
  choreo_inv (mkChoreo t (ctxs s)).
Proof.
  intros Hs Hid Hpid Hg Hprio Hq Eh Ef Ei Eq. set (p := fresh (pool s)) in *. unfold queue in Hq.
  pose proof (ag_fresh _ _ _ _ _ _ (co_agree _ Hs) p ltac:(lia)) as Hp.
  assert (place (proc_num_ s) c = OnPool (Z.to_nat (priority_ c))) as Hpl
    by (unfold place; by rewrite (proj2 (Z.ltb_ge _ _) Hpid)).
  split; cbn.
  - change (proc_num_ (mkChoreo t (ctxs s))) with (proc_num_ s). rewrite Eh, Ef, Ei.
    apply agree_file with (run_queue s); [apply (co_agree _ Hs)|done|done| |].
    + rewrite Hpl. cbn. rewrite Eq, list_lookup_insert_eq by (by eapply lookup_lt_Some). rewrite Hq. cbn.
      by rewrite (comm (++)).
    + rewrite Hpl. intros [k|n] Hl; cbn; [done|]. rewrite Eq, list_lookup_insert_ne; [done|]. congruence.
  - rewrite Eq, length_insert. apply (co_len _ Hs).
  - rewrite Eh. eapply Forall_impl; [apply (co_keyed _ Hs)|]. intros x. by apply keyed_fresh.
Qed.

Lemma pool_queue_exists s prio :
  choreo_inv s → 0 <= prio < Z.of_nat MAX_PRIO → ∃ q, queue (pool s) DEFAULT_GROUP_NAME prio = Some q.
Proof.
  intros Hs Hp. unfold queue.
  destruct (lookup_lt_is_Some_2 (queues (pool s) DEFAULT_GROUP_NAME) (Z.to_nat prio)) as [q Hq];
    [rewrite (co_len _ Hs); lia|eauto].
Qed.

#[local] Arguments pooled : simpl never.
#[local] Arguments configured : simpl never.

Lemma Choreo_CreateTask_inv conf now s name task_id :
  choreo_inv s →
  ∃ s', Choreo_CreateTask conf now s name task_id =
          Some (s', negb (stop_ (pool s)) && bool_decide (id_cr_ (pool s) !! task_id = None)) ∧
    choreo_inv s'.
Proof.
  intros Hs. unfold Choreo_CreateTask. destruct (stop_ (pool s)) eqn:Hst; [by exists s|].
  unfold Choreo_DispatchTask. cbn. rewrite lookup_insert_eq. cbn [mbind option_bind].
  set (c := configured conf _). set (p := fresh (pool s)) in *.
  assert (id_ c = task_id) as Hid by (unfold c; by rewrite configured_id).
  assert (0 <= priority_ c) as Hprio by (by apply configured_prio).
  rewrite Hid, insert_insert_eq.
  pose proof (ag_fresh _ _ _ _ _ _ (co_agree _ Hs) p ltac:(lia)) as Hp.
  destruct (id_cr_ (pool s) !! task_id) as [p'|] eqn:Hids.
  { rewrite decide_True by eauto. rewrite bool_decide_false by done. eexists. split; [done|].
    split; cbn; [apply (agree_alloc _ _ _ _ _ _ c (co_agree _ Hs))|apply (co_len _ Hs)|].
    eapply Forall_impl; [apply (co_keyed _ Hs)|]. intros x. by apply keyed_fresh. }
  rewrite decide_False by (by intros [? ?]). rewrite bool_decide_true by done.
  change (proc_num_ _) with (proc_num_ s) at 1.
  destruct (Z.ltb_spec (pid c) (proc_num_ s)) as [Hlt|Hge].
  - pose proof (u32_range (processor_id_ c)) as Hu. fold (pid c) in Hu. unfold is_u32 in Hu.
    destruct (lookup_lt_is_Some_2 (ctxs s) (Z.to_nat (pid c))) as [x Hx]; [unfold proc_num_ in Hlt; lia|].
    cbn. rewrite Hx. cbn. eexists. split; [done|]. unfold with_ctx. cbn.
    apply (file_ctx s c x); try done; by rewrite ?Hid.
  - destruct (pooled_spec c) as (E1 & E2 & E3 & E4). cbn zeta in *. set (c' := pooled c) in *. clearbody c'.
    assert (0 <= priority_ c' < Z.of_nat MAX_PRIO) as Hr by (rewrite E4; unfold MAX_PRIO; lia).
    destruct (pool_queue_exists s (priority_ c') Hs Hr) as [q Hq]. cbn.
    unfold queue, queues in Hq |- *. cbn in *. rewrite Hq. cbn. eexists. split; [done|].
    rewrite insert_insert_eq. apply (file_pool s c' q); try done.
    + by rewrite E1, Hid.
    + lia.
    + cbn. by rewrite E1, Hid.
    + unfold queues at 1. cbn. by rewrite lookup_insert_eq.
Qed.

(** ** Removing a task *)

Lemma StronglySorted_delete {A} (R : A → A → Prop) (l : list A) i :
  StronglySorted R l → StronglySorted R (delete i l).
Proof.
  revert i. induction l as [|x l IH]; intros [|i] Hs; cbn; try done.
  - by apply StronglySorted_inv in Hs as [? _].
  - apply StronglySorted_inv in Hs as [Hs Hx]. constructor; [by apply IH|].
    rewrite Forall_forall in *. intros y Hy. apply Hx.
    eapply elem_of_sublist; [|apply sublist_delete]. done.
Qed.

Lemma keyed_delete h x i n : keyed h x → keyed h (mkCtx (delete i (cr_queue_ x)) n).
Proof.
  intros [Hs Hk]. split; cbn.
  - rewrite list_fmap_delete. by apply StronglySorted_delete.
  - intros prio p Hp. apply Hk. eapply elem_of_sublist; [exact Hp|apply sublist_delete].
Qed.

Lemma unfile_ctx s h' ids' p c x i prio :
  choreo_inv s → id_cr_ (pool s) !! id_ c = Some p → heap (pool s) !! p = Some c →
  pid c < proc_num_ s → ctxs s !! Z.to_nat (pid c) = Some x → cr_queue_ x !! i = Some (prio, p) →
  (∀ y, option_Forall2 same_route (heap (pool s) !! y) (h' !! y)) →
  ids' = delete (id_ c) (id_cr_ (pool s)) →
  choreo_inv (mkChoreo (set_ids (set_heap (pool s) h') ids')
                (<[Z.to_nat (pid c) := mkCtx (delete i (cr_queue_ x)) (notify x)]> (ctxs s))).
Proof.
  intros Hs Hid Hc Hpid Hx Hi Hh ->.
  assert (place (proc_num_ s) c = OnCtx (Z.to_nat (pid c))) as Hpl
    by (unfold place; by rewrite (proj2 (Z.ltb_lt _ _) Hpid)).
  split; cbn.
  - match goal with |- context [proc_num_ ?s'] =>
      replace (proc_num_ s') with (proc_num_ s) by (unfold proc_num_; cbn; by rewrite length_insert) end.
    eapply agree_unfile; [apply (co_agree _ Hs)|done|done| | |by apply routes_home].
    + rewrite Hpl. cbn. rewrite list_lookup_insert_eq by (by eapply lookup_lt_Some). rewrite Hx. cbn.
      rewrite (delete_Permutation (cr_queue_ x) i (prio, p) Hi) at 1. done.
    + rewrite Hpl. intros [k|n] Hl; cbn; [|done]. rewrite list_lookup_insert_ne; [done|]. congruence.
  - apply (co_len _ Hs).
  - pose proof (co_keyed _ Hs) as Hk.
    apply Forall_insert; [eapply Forall_impl; [exact Hk|]; intros ?; by apply keyed_heap|].
    rewrite Forall_forall in Hk. apply keyed_delete, (keyed_heap _ _ _ Hh), Hk.
    by eapply list_elem_of_lookup_2.
Qed.

Lemma unfile_pool s t p c q i :
  choreo_inv s → id_cr_ (pool s) !! id_ c = Some p → heap (pool s) !! p = Some c →
  proc_num_ s <= pid c → queue (pool s) DEFAULT_GROUP_NAME (priority_ c) = Some q → q !! i = Some p →
  fresh t = fresh (pool s) → id_cr_ t = delete (id_ c) (id_cr_ (pool s)) →
  queues t DEFAULT_GROUP_NAME =
    <[Z.to_nat (priority_ c) := delete i q]> (queues (pool s) DEFAULT_GROUP_NAME) →
  (∀ y, option_Forall2 same_route (heap (pool s) !! y) (heap t !! y)) →
  choreo_inv (mkChoreo t (ctxs s)).
Proof.
  intros Hs Hid Hc Hpid Hq Hi Ef Ei Eq Hh. unfold queue in Hq.
  assert (place (proc_num_ s) c = OnPool (Z.to_nat (priority_ c))) as Hpl
    by (unfold place; by rewrite (proj2 (Z.ltb_ge _ _) Hpid)).
  split; cbn.
  - change (proc_num_ (mkChoreo t (ctxs s))) with (proc_num_ s). rewrite Ef, Ei.
    eapply agree_unfile; [apply (co_agree _ Hs)|done|done| | |by apply routes_home].
    + rewrite Hpl. cbn. rewrite Eq, list_lookup_insert_eq by (by eapply lookup_lt_Some). rewrite Hq. cbn.
      by rewrite (delete_Permutation q i p Hi) at 1.
    + rewrite Hpl. intros [k|n] Hl; cbn; [done|]. rewrite Eq, list_lookup_insert_ne; [done|]. congruence.
  - rewrite Eq, length_insert. apply (co_len _ Hs).
  - eapply Forall_impl; [apply (co_keyed _ Hs)|]. intros x. by apply keyed_heap.
Qed.

(** The first routine of an id in a queue of its place is the task of that id. *)
Lemma find_in_queue {A} (f : A → CrPtr) s l (q : list A) crid p :
  choreo_inv s → f <$> q = run_queue s l → id_cr_ (pool s) !! crid = Some p → p ∈ run_queue s l →
  ∃ i a, list_find (λ a, id_ <$> heap (pool s) !! f a = Some crid) q = Some (i, a) ∧ f a = p ∧ q !! i = Some a.
Proof.
  intros Hs Hq Hid Hp. destruct (list_find _ q) as [[i a]|] eqn:E.
  - exists i, a. apply list_find_Some in E as (Hi & Ha & _). split; [done|]. split; [|done].
    destruct (ag_filed _ _ _ _ _ _ (co_agree _ Hs) l (f a)) as (c & Hc & _ & Hi' & _).
    { rewrite <- Hq. apply list_elem_of_fmap. exists a. split; [done|]. by eapply list_elem_of_lookup_2. }
    rewrite Hc in Ha. cbn in Ha. injection Ha as Ha. rewrite Ha in Hi'. congruence.
  - exfalso. rewrite <- Hq in Hp. apply list_elem_of_fmap in Hp as (a & -> & Ha).
    apply list_find_None in E. rewrite Forall_forall in E. apply (E a Ha).
    destruct (ag_ids _ _ _ _ _ _ (co_agree _ Hs) _ _ Hid) as (c & Hc & Hi & _). rewrite Hc. cbn. by rewrite Hi.
Qed.

Lemma Choreo_Remove_ctx s crid p c :
  choreo_inv s → id_cr_ (pool s) !! crid = Some p → heap (pool s) !! p = Some c →
  pid c < proc_num_ s →
  ∃ s', Choreo_RemoveCRoutine s crid = (if lock_ c then None else Some (s', true)) ∧ choreo_inv s' ∧
    id_cr_ (pool s') = delete crid (id_cr_ (pool s)).
Proof.
  intros Hs Hid Hc Hpid.
  destruct (ag_ids _ _ _ _ _ _ (co_agree _ Hs) _ _ Hid) as (c0 & Hc0 & Hi & Hin). simplify_eq.
  pose proof (routes_insert (heap (pool s)) p c (Stop c) Hc ltac:(done)) as Hstop.
  set (s1 := with_heap s (<[p := Stop c]> (heap (pool s)))).
  assert (choreo_inv s1) as Hs1 by (by apply (choreo_inv_heap s)).
  unfold place in Hin. rewrite (proj2 (Z.ltb_lt _ _) Hpid) in Hin. cbn in Hin.
  destruct (ctxs s !! Z.to_nat (pid c)) as [x|] eqn:Hx; [|set_solver].
  destruct (find_in_queue snd s1 (OnCtx (Z.to_nat (pid c))) (cr_queue_ x) (id_ c) p) as (i & [prio y] & Hf & Ey & Hqi);
    [done|cbn; by rewrite Hx|done|cbn; by rewrite Hx|]. cbn in Ey. subst y.
  unfold Choreo_RemoveCRoutine. rewrite Hid, Hc. cbn [mbind option_bind].
  change (proc_num_ (mkChoreo _ (ctxs s))) with (proc_num_ s).
  rewrite (proj2 (Z.ltb_lt _ _) Hpid). cbn [ctxs]. rewrite Hx. cbn [mbind option_bind].
  unfold Ctx_RemoveCRoutine. cbn [heap pool set_ids set_heap].
  replace (list_find _ (cr_queue_ x)) with (Some (i, (prio, p))).
  2: { rewrite <- Hf. apply list_find_ext. by intros [pr y]. }
  rewrite lookup_insert_eq. cbn [mbind option_bind Acquire lock_ Stop].
  eexists. split; [by destruct (lock_ c)|]. split; [|done].
  apply (unfile_ctx s1 _ _ p (Stop c) x i prio); try done; [apply lookup_insert_eq|].
  by apply routes_insert with (Stop c); [apply lookup_insert_eq|].
Qed.

Lemma Choreo_Remove_pool s crid p c :
  choreo_inv s → id_cr_ (pool s) !! crid = Some p → heap (pool s) !! p = Some c →
  proc_num_ s <= pid c →
  ∃ s', Choreo_RemoveCRoutine s crid = (if lock_ c then None else Some (s', true)) ∧ choreo_inv s' ∧
    id_cr_ (pool s') = delete crid (id_cr_ (pool s)).
Proof.
  intros Hs Hid Hc Hpid.
  destruct (ag_ids _ _ _ _ _ _ (co_agree _ Hs) _ _ Hid) as (c0 & Hc0 & Hi & Hin). simplify_eq.
  destruct (ag_filed _ _ _ _ _ _ (co_agree _ Hs) _ _ Hin) as (c0 & Hc0 & _ & _ & Hok). simplify_eq.
  destruct (Hok Hpid) as [Hg Hprio].
  pose proof (routes_insert (heap (pool s)) p c (Stop c) Hc ltac:(done)) as Hstop.
  set (s1 := with_heap s (<[p := Stop c]> (heap (pool s)))).
  assert (choreo_inv s1) as Hs1 by (by apply (choreo_inv_heap s)).
  destruct (pool_queue_exists s (priority_ c) Hs Hprio) as [q Hq].
  unfold place in Hin. rewrite (proj2 (Z.ltb_ge _ _) Hpid) in Hin. pose proof Hq as Hq'. unfold queue in Hq'.
  destruct (find_in_queue id s1 (OnPool (Z.to_nat (priority_ c))) q (id_ c) p) as (i & y & Hf & Ey & Hqi);
    [done| |done|done|].
  { rewrite list_fmap_id. change (q = default [] (queues (pool s) DEFAULT_GROUP_NAME !! Z.to_nat (priority_ c))).
    by rewrite Hq'. }
  cbn in Ey. subst y.
  unfold Choreo_RemoveCRoutine. rewrite Hid, Hc. cbn [mbind option_bind].
  change (proc_num_ (mkChoreo _ (ctxs s))) with (proc_num_ s).
  rewrite (proj2 (Z.ltb_ge _ _) Hpid).
  unfold ClassicContext_RemoveCRoutine. cbn [heap pool set_ids set_heap]. rewrite lookup_insert_eq.
  cbn [mbind option_bind].
  change (queue _ (group_name_ (Stop c)) (priority_ (Stop c)))
    with (queue (pool s) (group_name_ c) (priority_ c)). rewrite Hg, Hq. cbn [mbind option_bind].
  change (find_id _ (id_ (Stop c)) q) with
    (list_find (λ a, id_ <$> heap (pool s1) !! id a = Some (id_ c)) q). rewrite Hf.
  rewrite lookup_insert_eq. cbn [mbind option_bind Acquire lock_ Stop].
  eexists. split; [by destruct (lock_ c)|]. split; [|done].
  apply (unfile_pool s1 _ p (Stop c) q i); try done; [apply lookup_insert_eq| |].
  - unfold set_queue, queues at 1. cbn. by rewrite Hg, lookup_insert_eq.
  - by apply routes_insert with (Stop c); [apply lookup_insert_eq|].
Qed.

Lemma Choreo_Remove_cases s crid :
  choreo_inv s →
  match Choreo_RemoveCRoutine s crid with
  | Some (s', b) => choreo_inv s' ∧ b = bool_decide (is_Some (id_cr_ (pool s) !! crid)) ∧
      id_cr_ (pool s') = delete crid (id_cr_ (pool s))
  | None => ∃ p c, id_cr_ (pool s) !! crid = Some p ∧ heap (pool s) !! p = Some c ∧ lock_ c = true
  end.
Proof.
  intros Hs. destruct (id_cr_ (pool s) !! crid) as [p|] eqn:Hid.
  2: { unfold Choreo_RemoveCRoutine. rewrite Hid, delete_id by done.
       by rewrite bool_decide_false by (by intros [? ?]). }
  destruct (ag_ids _ _ _ _ _ _ (co_agree _ Hs) _ _ Hid) as (c & Hc & _).
  assert (∃ s', Choreo_RemoveCRoutine s crid = (if lock_ c then None else Some (s', true)) ∧ choreo_inv s' ∧
    id_cr_ (pool s') = delete crid (id_cr_ (pool s))) as (s' & E & Hs' & Hd).
  { destruct (Z.lt_ge_cases (pid c) (proc_num_ s));
      [by apply (Choreo_Remove_ctx s crid p c)|by apply (Choreo_Remove_pool s crid p c)]. }
  rewrite E. destruct (lock_ c) eqn:Hl; [eauto|]. by rewrite bool_decide_true by eauto.
Qed.

(** ** Any sequence of calls *)

Inductive ChoreoOp :=
  | CoCreate (now : Z) (name : string) (task_id : Z)
  | CoNotify (crid : Z)
  | CoRemove (crid : Z)
  | CoNext (now : Z) (k : option nat)
  | CoFinish (slice : CRoutine → CRoutine) (p : CrPtr)
  | CoWait (k : option nat).

Definition choreo_step (conf : ChoreoConf) (s : Choreo) (op : ChoreoOp) : option Choreo :=
  match op with
  | CoCreate now name i => fst <$> Choreo_CreateTask conf now s name i
  | CoNotify i => fst <$> Choreo_NotifyProcessor s i
  | CoRemove i => fst <$> Choreo_RemoveCRoutine s i
  | CoNext now k => fst <$> Choreo_NextRoutine now s k
  | CoFinish slice p =>
      c ← heap (pool s) !! p; if lock_ c then Choreo_run slice s p else None
  | CoWait k => Choreo_Wait s k
  end.

Definition choreo_run (conf : ChoreoConf) (proc_num task_pool_size : nat) (ops : list ChoreoOp)
  : option Choreo :=
  foldl (λ os op, s ← os; choreo_step conf s op)
    (Some (Choreo_CreateProcessor proc_num task_pool_size)) ops.

(** A processor exists, and a routine's own code does not change where it is filed. *)
Definition choreo_op_ok (n : nat) (op : ChoreoOp) : Prop :=
  match op with
  | CoFinish slice _ => ∀ c, same_task c (slice c)
  | CoNext _ (Some k) | CoWait (Some k) => (k < n)%nat
  | _ => True
  end.

Lemma queue_keep k x x' (l : list Ctx) :
  l !! k = Some x → cr_queue_ x' = cr_queue_ x → cr_queue_ <$> <[k := x']> l = cr_queue_ <$> l.
Proof.
  intros Hx E. rewrite list_fmap_insert, E. apply list_insert_id. by rewrite list_lookup_fmap, Hx.
Qed.

Lemma pid_ctx s c : pid c < proc_num_ s → is_Some (ctxs s !! Z.to_nat (pid c)).
Proof.
  intros H. apply lookup_lt_is_Some_2. unfold proc_num_ in H.
  pose proof (u32_range (processor_id_ c)) as Hu. fold (pid c) in Hu. unfold is_u32 in Hu. lia.
Qed.

Lemma Choreo_Notify_inv s crid :
  choreo_inv s → ∃ s' b, Choreo_NotifyProcessor s crid = Some (s', b) ∧ choreo_inv s' ∧
    length (ctxs s') = length (ctxs s).
Proof.
  intros Hs. unfold Choreo_NotifyProcessor. destruct (stop_ (pool s)); [by eexists _, _|].
  destruct (id_cr_ (pool s) !! crid) as [p|] eqn:Hid; [|by eexists _, _].
  destruct (ag_ids _ _ _ _ _ _ (co_agree _ Hs) _ _ Hid) as (c & Hc & _). rewrite Hc. cbn [mbind option_bind].
  set (c' := if waits_for_event (state_ c) then _ else _).
  assert (same_route c c') as Hr by (unfold c'; by destruct (waits_for_event _)).
  change (proc_num_ (with_heap s _)) with (proc_num_ s).
  destruct (Z.ltb_spec (pid c') (proc_num_ s)) as [Hlt|Hge].
  - destruct (pid_ctx s c' Hlt) as [x Hx]. cbn. rewrite Hx. cbn.
    eexists _, _. split; [done|]. split; [|cbn; apply length_insert].
    apply (choreo_inv_heap s); try done; cbn; [by eapply queue_keep|by apply routes_insert with c].
  - eexists _, _. split; [done|]. split; [|done].
    apply (choreo_inv_heap s); try done. cbn. by apply routes_insert with c.
Qed.

Lemma frame_routes l (h h' : Heap) :
  heap_frame l h h' → ∀ x, option_Forall2 same_route (h !! x) (h' !! x).
Proof. intros H x. destruct (H x) as [c c' [Hs _]|]; constructor. by apply same_task_route. Qed.

Lemma Choreo_Next_inv now s k s' r :
  choreo_inv s → Choreo_NextRoutine now s k = Some (s', r) →
  choreo_inv s' ∧ ctxs s' = ctxs s.
Proof.
  intros Hs. unfold Choreo_NextRoutine. destruct k as [k|].
  - destruct (ctxs s !! k) as [x|] eqn:Hx; [|done]. cbn [mbind option_bind].
    destruct (stop_ (pool s)); [by intros [= <- <-]|].
    destruct (Ctx_NextRoutine now (heap (pool s)) x) as [h r'] eqn:E. intros [= <- <-]. split; [|done].
    apply scan_spec in E as [Hf _].
    2: { pose proof (ag_nodup _ _ _ _ _ _ (co_agree _ Hs) (OnCtx k)) as H. cbn in H. by rewrite Hx in H. }
    apply (choreo_inv_heap s); try done. by apply (frame_routes _ _ _ Hf).
  - unfold ClassicContext_NextRoutine. destruct (stop_ (pool s)); [by intros [= <- <-]; destruct s|].
    destruct (scan now (heap (pool s)) _) as [h r'] eqn:E. intros [= <- <-]. split; [|done].
    apply scan_spec in E as [Hf _]; [|by apply run_queue_pool_NoDup].
    apply (choreo_inv_heap s); try done. by apply (frame_routes _ _ _ Hf).
Qed.

Lemma Choreo_run_inv slice s p s' :
  (∀ c, same_task c (slice c)) → choreo_inv s → Choreo_run slice s p = Some s' →
  choreo_inv s' ∧ ctxs s' = ctxs s.
Proof.
  intros Hsl Hs. unfold Choreo_run, Processor_run. destruct (heap (pool s) !! p) as [c|] eqn:Hc; [|done].
  cbn. intros [= <-]. split; [|done]. apply (choreo_inv_heap s); try done. cbn.
  apply routes_insert with c; [done|]. unfold Resume.
  destruct (force_stop_ c), (bool_decide (state_ c = READY)); try done.
  by destruct (same_task_route _ _ (Hsl c)).
Qed.

Lemma Choreo_Wait_inv s k s' :
  choreo_inv s → Choreo_Wait s k = Some s' → choreo_inv s' ∧ length (ctxs s') = length (ctxs s).
Proof.
  intros Hs. unfold Choreo_Wait. destruct k as [k|]; cbn.
  - destruct (ctxs s !! k) as [x|] eqn:Hx; [|done]. cbn. intros [= <-]. split; [|apply length_insert].
    apply (choreo_inv_heap s); try done; cbn.
    + eapply queue_keep; [done|]. unfold Ctx_Wait. by destruct (0 <? notify x).
    + intros y. destruct (heap (pool s) !! y); by constructor.
  - intros [= <-]. split; [|done]. unfold ClassicContext_Wait. destruct (0 <? _); [|by destruct s].
    apply (choreo_inv_heap s); try done. intros y. cbn. destruct (heap (pool s) !! y); by constructor.
Qed.

Lemma Choreo_Create_ctxs conf now s name i s' b :
  Choreo_CreateTask conf now s name i = Some (s', b) → length (ctxs s') = length (ctxs s).
Proof.
  unfold Choreo_CreateTask. destruct (stop_ (pool s)); [by intros [= <- <-]|].
  unfold Choreo_DispatchTask. cbn. rewrite lookup_insert_eq. cbn.
  case_decide; [by intros [= <- <-]|]. destruct (_ <? _).
  - destruct (ctxs s !! _); [|done]. cbn. intros [= <- <-]. apply length_insert.
  - destruct (queue _ _ _); [|done]. cbn. by intros [= <- <-].
Qed.

Lemma Choreo_Remove_ctxs s i s' b :
  Choreo_RemoveCRoutine s i = Some (s', b) → length (ctxs s') = length (ctxs s).
Proof.
  unfold Choreo_RemoveCRoutine. destruct (id_cr_ (pool s) !! i) as [p|]; [|by intros [= <- <-]].
  destruct (heap (pool s) !! p) as [c|]; [|done]. cbn. destruct (_ <? _).
  - destruct (ctxs s !! _); [|done]. cbn. destruct (Ctx_RemoveCRoutine _ _ _) as [[[h x] b']|]; [|done].
    cbn. intros [= <- <-]. apply length_insert.
  - destruct (ClassicContext_RemoveCRoutine _ _) as [[t b']|]; [|done]. cbn. by intros [= <- <-].
Qed.

Lemma choreo_step_inv conf s op s' :
  choreo_op_ok (length (ctxs s)) op → choreo_inv s → choreo_step conf s op = Some s' →
  choreo_inv s' ∧ length (ctxs s') = length (ctxs s).
Proof.
  intros Hok Hs. destruct op as [now name i|i|i|now k|slice p|k]; cbn.
  - destruct (Choreo_CreateTask_inv conf now s name i Hs) as (s2 & E & Hs2). rewrite E.
    intros [= <-]. split; [done|]. by eapply Choreo_Create_ctxs.
  - destruct (Choreo_Notify_inv s i Hs) as (s2 & b & -> & Hs2). by intros [= <-].
  - pose proof (Choreo_Remove_cases s i Hs) as H. pose proof (Choreo_Remove_ctxs s i) as Hl.
    destruct (Choreo_RemoveCRoutine s i) as [[s2 b]|]; [|done]. destruct H as [H _]. intros [= <-]. eauto.
  - destruct (Choreo_NextRoutine now s k) as [[s2 r]|] eqn:E; [|done]. intros [= <-].
    destruct (Choreo_Next_inv _ _ _ _ _ Hs E) as [? ->]. done.
  - destruct (heap (pool s) !! p) as [c|]; [|done]. cbn. destruct (lock_ c); [|done]. intros E.
    destruct (Choreo_run_inv _ _ _ _ Hok Hs E) as [? ->]. done.
  - by apply Choreo_Wait_inv.
Qed.

Lemma choreo_inv_new n m : choreo_inv (Choreo_CreateProcessor n m).
Proof.
  unfold Choreo_CreateProcessor.
  assert (∀ t, t = Nat.iter m (λ s, add_context s DEFAULT_GROUP_NAME) Classic_new →
    heap t = ∅ ∧ id_cr_ t = ∅ ∧ ∀ g, queues t g = empty_queues) as Ht.
  { intros t ->. induction m as [|m (Eh & Ei & Eq)]; [done|]. cbn.
    split; [done|]. split; [done|]. intros g. etransitivity; [apply InitGroup_queues|]. apply Eq. }
  destruct (Ht _ eq_refl) as (Eh & Ei & Eq). set (t := Nat.iter _ _ _) in *. clearbody t.
  assert (∀ l, run_queue (mkChoreo t (replicate n Ctx_new)) l = []) as HQ.
  { intros [k|k]; cbn.
    - destruct (replicate n Ctx_new !! k) as [x|] eqn:E; [|done].
      by apply lookup_replicate in E as [-> _].
    - rewrite Eq. unfold empty_queues. destruct (replicate MAX_PRIO [] !! k) as [q|] eqn:E; [|done].
      apply lookup_replicate in E as [-> _]. done. }
  split; cbn.
  - rewrite Eh, Ei. split; try done.
    + intros l p. rewrite HQ. set_solver.
    + intros l. rewrite HQ. constructor.
  - by rewrite Eq.
  - rewrite Forall_forall. intros x ->%elem_of_replicate_inv. split; cbn; [constructor|set_solver].
Qed.

Lemma choreo_run_inv conf n m ops s :
  Forall (choreo_op_ok n) ops → choreo_run conf n m ops = Some s → choreo_inv s ∧ length (ctxs s) = n.
Proof.
  unfold choreo_run. revert s. induction ops as [|op ops IH] using rev_ind; intros s Hok; cbn.
  - intros [= <-]. split; [apply choreo_inv_new|]. cbn. apply length_replicate.
  - apply Forall_app in Hok as [Hok [Hop _]%Forall_cons]. rewrite foldl_app. cbn.
    destruct (foldl _ _ ops) as [s1|]; [|done]. cbn. destruct (IH s1 Hok eq_refl) as [Hs1 Hl].
    rewrite <- Hl in Hop. intros E. destruct (choreo_step_inv _ _ _ _ Hop Hs1 E) as [? ->]. done.
Qed.

(** Behind another routine of the same context only in falling priority. *)
Lemma keyed_order s k i j p q c d :
  choreo_inv s → run_queue s (OnCtx k) !! i = Some p → run_queue s (OnCtx k) !! j = Some q → (i < j)%nat →
  heap (pool s) !! p = Some c → heap (pool s) !! q = Some d → priority_ d <= priority_ c.
Proof.
  intros Hs Hi Hj Hij Hp Hq. cbn in Hi, Hj. destruct (ctxs s !! k) as [x|] eqn:Hx; [|done].
  destruct (Forall_lookup_1 _ _ _ _ (co_keyed _ Hs) Hx) as [Hsort Hkey].
  rewrite list_lookup_fmap in Hi, Hj. apply fmap_Some in Hi as ([pi p'] & Hi & ->), Hj as ([pj q'] & Hj & ->). cbn in *.
  pose proof (Hkey _ _ (list_elem_of_lookup_2 _ _ _ Hi)) as Ei. pose proof (Hkey _ _ (list_elem_of_lookup_2 _ _ _ Hj)) as Ej.
  rewrite Hp in Ei. rewrite Hq in Ej. cbn in Ei, Ej. simplify_eq.
  rewrite <- (take_drop_middle _ _ _ Hi), fmap_app, fmap_cons in Hsort.
  apply StronglySorted_app in Hsort as (_ & _ & Hsort). apply StronglySorted_inv in Hsort as [_ Hall].
  rewrite Forall_forall in Hall. apply Z.ge_le, Hall. apply list_elem_of_fmap. exists (priority_ d, q'). split; [done|].
  apply list_elem_of_lookup. exists (j - S i)%nat. rewrite lookup_drop. by replace (S i + (j - S i))%nat with j by lia.
Qed.

(** [C26] Whatever the sequence of calls, the id table and the queues of the choreography
    scheduler agree: a task is in exactly one queue, that of the processor it is bound to
    or the pool's queue of its priority; every queued routine is the task of its id; no
    queue lists a routine twice; the routines bound to a processor are queued by
    descending priority; and no call fails but the removal of a task a processor
    is running, which waits for it. *)
Theorem choreography_consistent (conf : ChoreoConf) (n m : nat) (ops : list ChoreoOp) (s : Choreo) :
  Forall (choreo_op_ok n) ops → choreo_run conf n m ops = Some s →
  (∀ i p, id_cr_ (pool s) !! i = Some p → ∃ c, heap (pool s) !! p = Some c ∧ id_ c = i ∧
     ∀ l, p ∈ run_queue s l ↔ l = place (Z.of_nat n) c) ∧
  (∀ l p, p ∈ run_queue s l → ∃ c, heap (pool s) !! p = Some c ∧ id_cr_ (pool s) !! id_ c = Some p) ∧
  (∀ l, NoDup (run_queue s l)) ∧
  (∀ k i j p q c d, run_queue s (OnCtx k) !! i = Some p → run_queue s (OnCtx k) !! j = Some q → (i < j)%nat →
     heap (pool s) !! p = Some c → heap (pool s) !! q = Some d → priority_ d <= priority_ c) ∧
  (∀ op, choreo_op_ok n op → choreo_step conf s op = None →
     (∃ i p c, op = CoRemove i ∧ id_cr_ (pool s) !! i = Some p ∧ heap (pool s) !! p = Some c ∧
        lock_ c = true) ∨
     (∃ slice p, op = CoFinish slice p ∧ lock_ <$> heap (pool s) !! p ≠ Some true)).
Proof.
  intros Hok Hrun. destruct (choreo_run_inv _ _ _ _ _ Hok Hrun) as [Hs Hl].
  pose proof (co_agree _ Hs) as Ha. unfold proc_num_ in Ha. rewrite Hl in Ha. repeat split.
  - intros i p Hp. destruct (ag_ids _ _ _ _ _ _ Ha _ _ Hp) as (c & Hc & Hi & Hin). exists c.
    split; [done|]. split; [done|]. intros l. split; [|by intros ->].
    intros Hx. destruct (ag_filed _ _ _ _ _ _ Ha _ _ Hx) as (c' & Hc' & <- & _). by simplify_eq.
  - intros l p Hp. destruct (ag_filed _ _ _ _ _ _ Ha _ _ Hp) as (c & Hc & _ & Hi & _). eauto.
  - apply (ag_nodup _ _ _ _ _ _ Ha).
  - intros k i j p q c d. by apply keyed_order.
  - intros op Hop H. destruct op as [now name i|i|i|now k|slice p|k]; cbn in H.
    + destruct (Choreo_CreateTask_inv conf now s name i Hs) as (s2 & E & _). by rewrite E in H.
    + destruct (Choreo_Notify_inv s i Hs) as (s2 & b & E & _). by rewrite E in H.
    + left. pose proof (Choreo_Remove_cases s i Hs) as H'.
      destruct (Choreo_RemoveCRoutine s i) as [[s2 b]|]; [done|]. destruct H' as (p & c & H'). eauto 7.
    + exfalso. revert H. unfold Choreo_NextRoutine. destruct k as [k|]; cbn in Hop.
      * destruct (lookup_lt_is_Some_2 (ctxs s) k) as [x ->]; [lia|]. cbn.
        destruct (stop_ (pool s)); [done|]. by destruct (Ctx_NextRoutine _ _ _).
      * by destruct (ClassicContext_NextRoutine _ _ _).
    + right. exists slice, p. split; [done|]. unfold Choreo_run, Processor_run in H.
      destruct (heap (pool s) !! p) as [c|]; [|done]. cbn in *. by destruct (lock_ c).
    + exfalso. destruct k as [k|]; cbn in *; [|done].
      destruct (lookup_lt_is_Some_2 (ctxs s) k) as [x E]; [lia|]. by rewrite E in H.
Qed.

Lemma sorted_before (q : list (Z * CrPtr)) pre p post prio x prio' :
  StronglySorted Z.ge q.*1 → q.*2 = pre ++ p :: post → NoDup q.*2 →
  (prio, p) ∈ q → (prio', x) ∈ q → prio < prio' → x ∈ pre.
Proof.
  revert pre. induction q as [|[k y] q IH]; intros pre Hs Hq Hnd Hp Hx Hlt; [by destruct pre|].
  apply StronglySorted_inv in Hs as [Hs Hall]. rewrite Forall_forall in Hall.
  cbn in Hq, Hnd. apply NoDup_cons in Hnd as [Hy Hnd].
  destruct pre as [|z pre]; cbn in Hq; injection Hq as -> Hq.
  - exfalso. apply elem_of_cons in Hp as [[= ->]|Hp].
    + apply elem_of_cons in Hx as [[= -> _]|Hx]; [lia|].
      assert (prio' ∈ q.*1) as Hx1 by (apply list_elem_of_fmap; by exists (prio', x)).
      specialize (Hall prio' Hx1). cbn in Hall. lia.
    + apply Hy. apply list_elem_of_fmap. by exists (prio, p).
  - apply elem_of_cons in Hx as [[= _ ->]|Hx]; [set_solver|]. apply elem_of_cons. right.
    apply elem_of_cons in Hp as [[= -> ->]|Hp]; [|by apply (IH pre)].
    exfalso. apply Hy. rewrite Hq. set_solver.
Qed.

(** [NextRoutine] of a processor with its own context returns a routine bound to it
    that was free and ready, now held and READY, such that every routine of a higher
    priority bound to it was held or not ready; and nothing only if all were. *)
Theorem choreography_next (conf : ChoreoConf) (n m : nat) (ops : list ChoreoOp) (s : Choreo)
    (now : Z) (k : nat) :
  Forall (choreo_op_ok n) ops → choreo_run conf n m ops = Some s → (k < n)%nat → stop_ (pool s) = false →
  ∃ s' r, Choreo_NextRoutine now s (Some k) = Some (s', r) ∧
  match r with
  | None => ∀ p, p ∈ run_queue s (OnCtx k) → skipped now (heap (pool s)) p
  | Some p => ∃ c c', p ∈ run_queue s (OnCtx k) ∧ heap (pool s) !! p = Some c ∧
      lock_ c = false ∧ ready_at now c = true ∧
      heap (pool s') !! p = Some c' ∧ lock_ c' = true ∧ state_ c' = READY ∧
      ∀ p2 c2, p2 ∈ run_queue s (OnCtx k) → heap (pool s) !! p2 = Some c2 →
        priority_ c < priority_ c2 → skipped now (heap (pool s)) p2
  end.
Proof.
  intros Hok Hrun Hk Hst. destruct (choreo_run_inv _ _ _ _ _ Hok Hrun) as [Hs Hl].
  destruct (lookup_lt_is_Some_2 (ctxs s) k) as [x Hx]; [lia|].
  pose proof (ag_nodup _ _ _ _ _ _ (co_agree _ Hs) (OnCtx k)) as Hnd. cbn in Hnd. rewrite Hx in Hnd.
  unfold Choreo_NextRoutine, Ctx_NextRoutine. rewrite Hx, Hst. cbn [mbind option_bind].
  destruct (scan now (heap (pool s)) (cr_queue_ x).*2) as [h r] eqn:E.
  exists (with_heap s h), r. split; [done|].
  destruct (scan_spec _ _ _ _ _ Hnd E) as [_ Hr]. cbn [run_queue]. rewrite Hx.
  destruct r as [p|]; [|by rewrite Forall_forall in Hr].
  destruct Hr as (pre & post & c & Hq & Hpre & Hc & Hlk & Hrd & Hh).
  exists c, (set_lock (UpdateState now c) true). split; [rewrite Hq; set_solver|].
  do 5 (split; [done|]). split; [by apply bool_decide_eq_true in Hrd|].
  intros p2 c2 Hp2 Hc2 Hlt. pose proof (co_keyed _ Hs) as Hkey. rewrite Forall_lookup in Hkey.
  destruct (Hkey k x Hx) as [Hsort Hpr]. rewrite Forall_forall in Hpre. apply Hpre.
  assert (∀ y cy, y ∈ (cr_queue_ x).*2 → heap (pool s) !! y = Some cy → (priority_ cy, y) ∈ cr_queue_ x) as Hin.
  { intros y cy ([pr y'] & Ey & Hy)%list_elem_of_fmap Hcy. cbn in Ey. subst y'.
    specialize (Hpr pr y Hy). rewrite Hcy in Hpr. cbn in Hpr. by injection Hpr as ->. }
  eapply (sorted_before (cr_queue_ x) pre p post); [done|done|done| | |exact Hlt];
    apply Hin; try done. rewrite Hq. set_solver.
Qed.

(** ** Witnesses *)

Definition demo_choreo : ChoreoConf :=
  {["plan" := (3%N, Some 1); "sense" := (9%N, Some 1); "log" := (40%N, None)]}.
Definition demo_choreo_ops : list ChoreoOp :=
  [CoCreate 0 "plan" 5; CoCreate 0 "sense" 6; CoCreate 0 "log" 7; CoCreate 0 "plan" 5;
   CoNext 1 (Some 1%nat); CoFinish HangUp 1%nat; CoNotify 6; CoNext 2 None; CoWait (Some 1%nat)].
Definition demo_choreo_state : Choreo :=
  default (Choreo_CreateProcessor 2 1) (choreo_run demo_choreo 2 1 demo_choreo_ops).

Lemma demo_choreo_ok : Forall (choreo_op_ok 2) demo_choreo_ops.
Proof. repeat constructor; cbn; lia. Qed.

Lemma choreography_consistent_witness :
  run_queue demo_choreo_state (OnCtx 1) = [1%nat; 0%nat] ∧ run_queue demo_choreo_state (OnPool 19) = [2%nat] ∧
  ∀ l, NoDup (run_queue demo_choreo_state l).
Proof.
  destruct (choreography_consistent demo_choreo 2 1 demo_choreo_ops demo_choreo_state) as (_ & _ & H & _);
    [exact demo_choreo_ok|vm_compute; reflexivity|].
  split; [vm_compute; reflexivity|]. split; [vm_compute; reflexivity|exact H].
Defined.

Lemma choreography_next_witness :
  ∃ s' c', Choreo_NextRoutine 3 demo_choreo_state (Some 1%nat) = Some (s', Some 1%nat) ∧
    heap (pool s') !! 1%nat = Some c' ∧ state_ c' = READY.
Proof.
  destruct (choreography_next demo_choreo 2 1 demo_choreo_ops demo_choreo_state 3 1) as (s' & r & E & H);
    [exact demo_choreo_ok|vm_compute; reflexivity|lia|vm_compute; reflexivity|].
  assert (snd <$> Choreo_NextRoutine 3 demo_choreo_state (Some 1%nat) = Some (Some 1%nat)) as Hr
    by (vm_compute; reflexivity).
  rewrite E in Hr. cbn in Hr. injection Hr as ->. destruct H as (c & c' & _ & _ & _ & _ & Hc' & _ & Hs & _).
  exact (ex_intro _ s' (ex_intro _ c' (conj E (conj Hc' Hs)))).
Defined.
