(* ===== verification/ObjectPool.v ===== *)
(** * Object pools (cyber/base/object_pool.h, concurrent_object_pool.h)

    Both pools thread their unused objects on a list through the [next] field of the
    nodes; a node is its index in the arena.  [ObjectPool] is for one thread;
    [CCObjectPool] swings its head, a node with a counter, by compare-exchange.  A
    client gives back only what it holds: the shared pointer's deleter does it once.
    Construction of the objects themselves is left to the client's type. *)

From stdpp Require Import base numbers list gmap.
From Stdlib Require Import ZArith Lia.
From S2P Require Import Prelude Interleave.

Open Scope Z_scope.

(** The [next] fields of the arena's nodes. *)
Abbreviation Nexts := (gmap nat (option nat)).

(** The list that starts at a node. *)
Inductive chain (nx : Nexts) : option nat → list nat → Prop :=
| chain_nil : chain nx None []
| chain_cons n h l : nx !! n = Some h → chain nx h l → chain nx (Some n) (n :: l).

Lemma chain_write nx h l n v : n ∉ l → chain nx h l → chain (<[n := v]> nx) h l.
Proof.
  intros Hn Hc. induction Hc as [|m h l Hm Hc IH]; [constructor|].
  apply not_elem_of_cons in Hn as [Hne Hn]. econstructor; [|by apply IH].
  by rewrite lookup_insert_ne.
Qed.

(** ** ObjectPool *)

Record ObjectPool := mkObjectPool { num_objects_ : nat; nexts : Nexts; free_head_ : option nat }.

(** The constructor: every object is pushed on the free list in turn. *)
Definition ObjectPool_push (p : ObjectPool) (i : nat) : ObjectPool :=
  mkObjectPool (num_objects_ p) (<[i := free_head_ p]> (nexts p)) (Some i).
Definition ObjectPool_new (num_objects : nat) : ObjectPool :=
  foldl ObjectPool_push (mkObjectPool num_objects ∅ None) (seq 0 num_objects).

(** [GetObject()] and [ReleaseObject(object)]; [None] outside is a node that is not
    one of the arena. *)
Definition GetObject (p : ObjectPool) : option (ObjectPool * option nat) :=
  match free_head_ p with
  | None => Some (p, None)
  | Some n => nx ← nexts p !! n; Some (mkObjectPool (num_objects_ p) (nexts p) nx, Some n)
  end.
Definition ReleaseObject (p : ObjectPool) (object : option nat) : ObjectPool :=
  match object with None => p | Some n => ObjectPool_push p n end.

Inductive PoolOp := PGet | PRelease (i : nat).

(** A client and the objects it holds; [PRelease i] drops the [i]-th. *)
Definition pool_op (s : ObjectPool * list nat) (o : PoolOp) : option (ObjectPool * list nat) :=
  let '(p, held) := s in
  match o with
  | PGet =>
      '(p, r) ← GetObject p;
      Some (p, match r with Some n => n :: held | None => held end)
  | PRelease i =>
      match held !! i with
      | Some n => Some (ReleaseObject p (Some n), delete i held)
      | None => Some (p, held)
      end
  end.
Definition pool_ops (num_objects : nat) (os : list PoolOp) : option (ObjectPool * list nat) :=
  foldl (λ s o, s ← s; pool_op s o) (Some (ObjectPool_new num_objects, [])) os.

(** ** CCObjectPool *)

Record Head := mkHead { count : Z; node : option nat }.   (* count: uintptr_t *)
#[global] Instance Head_eq_dec : EqDecision Head.
Proof. solve_decision. Defined.

Record CCObjectPool := mkCCObjectPool { cc_head : Head; cc_nexts : Nexts; capacity_ : nat }.

(** The constructor; a size of 0 runs off the arena. *)
Definition CCObjectPool_new (size : nat) : option CCObjectPool :=
  match size with
  | O => None
  | S last =>
      Some (mkCCObjectPool (mkHead 0 (Some 0%nat))
        (<[last := None]> (list_to_map ((λ i, (i, Some (S i))) <$> seq 0 last))) size)
  end.

Definition set_cc_head (p : CCObjectPool) (h : Head) : CCObjectPool :=
  mkCCObjectPool h (cc_nexts p) (capacity_ p).
Definition set_cc_next (p : CCObjectPool) (n : nat) (v : option nat) : CCObjectPool :=
  mkCCObjectPool (cc_head p) (<[n := v]> (cc_nexts p)) (capacity_ p).

(** [FindFreeHead] and [ReleaseObject], one position per access: the head loaded, the
    [next] of its node read, the exchange; the head loaded, the node's [next] written,
    the exchange. *)
Inductive pc :=
| Client
| GetCheck (old_head : Head)
| GetCas (old_head : Head) (new_node : option nat)
| RelWrite (n : nat) (old_head : Head)
| RelCas (n : nat) (old_head : Head).

(** A thread and the objects it holds. *)
Record thread := mkThread { at_ : pc; held : list nat }.

Inductive choice := WantGet | WantRelease (i : nat) | Spurious | NoSpurious.
Definition is_spurious (c : choice) : bool := match c with Spurious => true | _ => false end.

Definition pool_step (ch : choice) (t : nat) (p : CCObjectPool) (th : thread)
  : option (CCObjectPool * thread) :=
  let h := held th in
  match at_ th with
  | Client =>
      match ch with
      | WantGet => Some (p, mkThread (GetCheck (cc_head p)) h)
      | WantRelease i =>
          n ← h !! i; Some (p, mkThread (RelWrite n (cc_head p)) (delete i h))
      | _ => None
      end
  | GetCheck old_head =>
      match node old_head with
      | None => Some (p, mkThread Client h)              (* nullptr *)
      | Some n => nx ← cc_nexts p !! n; Some (p, mkThread (GetCas old_head nx) h)
      end
  | GetCas old_head new_node =>
      if negb (is_spurious ch) && bool_decide (cc_head p = old_head)
      then n ← node old_head;
           Some (set_cc_head p (mkHead (u64 (count old_head + 1)) new_node), mkThread Client (n :: h))
      else Some (p, mkThread (GetCheck (cc_head p)) h)
  | RelWrite n old_head => Some (set_cc_next p n (node old_head), mkThread (RelCas n old_head) h)
  | RelCas n old_head =>
      if negb (is_spurious ch) && bool_decide (cc_head p = old_head)
      then Some (set_cc_head p (mkHead (u64 (count old_head + 1)) (Some n)), mkThread Client h)
      else Some (p, mkThread (RelWrite n (cc_head p)) h)
  end.

(** ** One thread: a stack of free objects *)

Lemma ObjectPool_new_chain n :
  ∃ l, chain (nexts (ObjectPool_new n)) (free_head_ (ObjectPool_new n)) l ∧ l ≡ₚ seq 0 n.
Proof.
  unfold ObjectPool_new.
  assert (∀ k m, ∃ l, let p := foldl ObjectPool_push (mkObjectPool k ∅ None) (seq 0 m) in
    chain (nexts p) (free_head_ p) l ∧ l ≡ₚ seq 0 m) as H; [|apply (H n n)].
  intros k. induction m as [|m (l & Hc & Hl)]; [exists []; split; [constructor|done]|].
  rewrite seq_S, foldl_snoc. cbn in *. set (p := foldl _ _ _) in *. exists (m :: l). split.
  - econstructor; [apply lookup_insert_eq|]. apply chain_write; [|done].
    rewrite Hl, elem_of_seq. lia.
  - rewrite Hl. by rewrite Permutation_cons_append.
Qed.

(** What the pool and its client have, together. *)
Definition pool_inv (n : nat) (s : ObjectPool * list nat) : Prop :=
  ∃ l, chain (nexts s.1) (free_head_ s.1) l ∧ l ++ s.2 ≡ₚ seq 0 n.

Lemma pool_op_inv n s o :
  pool_inv n s → ∃ s', pool_op s o = Some s' ∧ pool_inv n s'.
Proof.
  destruct s as [p held]. intros (l & Hc & Hl). cbn in *. destruct o as [|i]; cbn.
  - unfold GetObject. destruct (free_head_ p) as [m|] eqn:Ef; inversion Hc as [|? h l' Hm Hc']; subst.
    2: { eexists. split; [done|]. exists []. cbn. by rewrite Ef. }
    + rewrite Hm. cbn. eexists. split; [done|]. exists l'. split; [done|]. cbn.
      by rewrite <- Permutation_middle.
  - destruct (held !! i) as [m|] eqn:Hi; [|by eexists; split; [done|]; exists l].
    eexists. split; [done|]. exists (m :: l). cbn.
    assert (l ++ held ≡ₚ m :: l ++ delete i held) as E
      by (rewrite (delete_Permutation held i m Hi) at 1; by rewrite <- Permutation_middle).
    split; [|by rewrite <- Hl, E]. econstructor; [apply lookup_insert_eq|]. apply chain_write; [|done].
    assert (NoDup (m :: l ++ delete i held)) as Hnd by (rewrite <- E, Hl; apply NoDup_seq).
    apply NoDup_cons in Hnd as [Hnd _]. set_solver.
Qed.

Lemma pool_ops_inv n os : ∃ s, pool_ops n os = Some s ∧ pool_inv n s.
Proof.
  induction os as [|o os (s & Hs & Hi)] using rev_ind.
  - eexists. split; [done|]. destruct (ObjectPool_new_chain n) as (l & Hc & Hl).
    exists l. cbn. by rewrite app_nil_r.
  - unfold pool_ops in *. rewrite foldl_snoc, Hs. cbn. by apply pool_op_inv.
Qed.

(** An [ObjectPool] never fails and never gives an object out twice: the objects held and
    the free list are all the objects, each once; and [GetObject] answers null exactly
    when the client holds them all. *)
Theorem object_pool_partition (n : nat) (os : list PoolOp) :
  ∃ p held, pool_ops n os = Some (p, held) ∧ NoDup held ∧ (∀ x, x ∈ held → (x < n)%nat) ∧
    ∃ p' r, GetObject p = Some (p', r) ∧ (r = None ↔ length held = n) ∧
      (∀ x, r = Some x → (x ∉ held) ∧ (x < n)%nat).
Proof.
  destruct (pool_ops_inv n os) as ([p held] & Hs & l & Hc & Hl). cbn in *. exists p, held.
  assert (NoDup (l ++ held)) as Hnd by (rewrite Hl; apply NoDup_seq).
  assert (∀ x, x ∈ l ++ held → (x < n)%nat) as Hin by (intros x; rewrite Hl, elem_of_seq; lia).
  assert (length l + length held = n + 0)%nat as Hlen
    by (rewrite <- length_app, Hl, length_seq; lia).
  apply NoDup_app in Hnd as (Hn1 & Hdisj & Hn2).
  split; [done|]. split; [done|]. split; [intros x Hx; apply Hin; set_solver|].
  unfold GetObject. destruct (free_head_ p) as [m|] eqn:Ef; inversion Hc as [|? h l' Hm Hc']; subst.
  2: { eexists _, _. split; [done|]. split; [|done]. cbn in Hlen. split; [lia|done]. }
  - rewrite Hm. cbn. eexists _, _. split; [done|]. cbn in Hlen. split; [split; [done|lia]|].
    intros x [= <-]. split; [apply Hdisj; set_solver|]. apply Hin. set_solver.
Qed.

(** ** Any number of threads *)

(** The objects a thread has in hand. *)
Definition owned (th : thread) : list nat :=
  match at_ th with RelWrite n _ | RelCas n _ => n :: held th | _ => held th end.

(** What a thread has read is still true unless the head has moved on since. *)
Definition fresh_head (p : CCObjectPool) (old : Head) (now : Prop) : Prop :=
  count old <= count (cc_head p) ∧ (count old = count (cc_head p) → old = cc_head p ∧ now).

Definition thread_ok (size : nat) (p : CCObjectPool) (th : thread) : Prop :=
  match at_ th with
  | Client => True
  | GetCheck old => (∀ n, node old = Some n → (n < size)%nat) ∧ fresh_head p old True
  | RelWrite _ old => fresh_head p old True
  | GetCas old nx => ∃ n, node old = Some n ∧ fresh_head p old (cc_nexts p !! n = Some nx)
  | RelCas n old => cc_nexts p !! n = Some (node old) ∧ fresh_head p old True
  end.

Record cc_inv (size : nat) (k : nat) (c : CCObjectPool * list thread) : Prop := {
  cc_count : 0 <= count (cc_head c.1) <= Z.of_nat k;
  cc_free : ∃ l, chain (cc_nexts c.1) (node (cc_head c.1)) l ∧
              l ++ concat (owned <$> c.2) ≡ₚ seq 0 size;
  cc_defined : ∀ n, (n < size)%nat → is_Some (cc_nexts c.1 !! n);
  cc_threads : ∀ i th, c.2 !! i = Some th → thread_ok size c.1 th
}.

Lemma concat_insert {A B} (f : A → list B) (l : list A) i x y :
  l !! i = Some x → ∃ rest, concat (f <$> l) ≡ₚ f x ++ rest ∧ concat (f <$> <[i := y]> l) ≡ₚ f y ++ rest.
Proof.
  intros Hi. exists (concat (f <$> take i l) ++ concat (f <$> drop (S i) l)).
  rewrite insert_take_drop by (by eapply lookup_lt_Some).
  rewrite <- (take_drop_middle l i x Hi) at 1. rewrite !fmap_app, !concat_app. cbn.
  rewrite !(assoc_L (++)), !(Permutation_app_comm (concat (f <$> take i l))). by rewrite <- !(assoc_L (++)).
Qed.

(** A step that moves neither the head nor a link. *)
Lemma cc_inv_local size k p ths t th th' :
  cc_inv size k (p, ths) → ths !! t = Some th → owned th' ≡ₚ owned th → thread_ok size p th' →
  cc_inv size (S k) (p, <[t := th']> ths).
Proof.
  intros [Hk (l & Hc & Hl) Hd Ht] Hth Ho Hok. cbn in *. split; cbn; [lia| |done|].
  - exists l. split; [done|]. destruct (concat_insert owned ths t th th' Hth) as (rest & E1 & E2).
    by rewrite E2, Ho, <- E1.
  - intros i x Hx. apply list_lookup_insert_Some in Hx as [(_ & -> & _)|[_ Hx]]; eauto.
Qed.

(** Once the head has moved, no thread's exchange can succeed on what it read before. *)
Lemma thread_ok_moved size p th h :
  thread_ok size p th → count h = count (cc_head p) + 1 → thread_ok size (set_cc_head p h) th.
Proof.
  intros Hok Hc. assert (∀ old P Q, fresh_head p old P → fresh_head (set_cc_head p h) old Q) as Hf.
  { intros old P Q [Hle _]. split; cbn; lia. }
  unfold thread_ok in *. destruct (at_ th); [done|destruct Hok; eauto| |eauto|destruct Hok; eauto].
  destruct Hok as (n & Hn & Hf'). eauto.
Qed.

Lemma cc_head_free size k p ths n :
  cc_inv size k (p, ths) → node (cc_head p) = Some n →
  ∃ nx l, cc_nexts p !! n = Some nx ∧ chain (cc_nexts p) nx l ∧
    n :: l ++ concat (owned <$> ths) ≡ₚ seq 0 size.
Proof.
  intros [_ (l & Hc & Hl) _ _] Hn. cbn in *. rewrite Hn in Hc.
  inversion Hc as [|? nx l' Hx Hc']; subst. eauto.
Qed.

Lemma cc_head_range size k p ths n :
  cc_inv size k (p, ths) → node (cc_head p) = Some n → (n < size)%nat.
Proof.
  intros Hi Hn. destruct (cc_head_free _ _ _ _ _ Hi Hn) as (nx & l & _ & _ & Hl).
  assert (n ∈ seq 0 size) as H by (rewrite <- Hl; set_solver). apply elem_of_seq in H. lia.
Qed.

Lemma read_head size k p ths : cc_inv size k (p, ths) → thread_ok size p (mkThread (GetCheck (cc_head p)) []).
Proof. intros Hi. split; [intros n; by eapply cc_head_range|]. by split. Qed.

(** A node that a thread owns is not free and no other thread's. *)
Lemma cc_owned size k p ths t th n rest :
  cc_inv size k (p, ths) → ths !! t = Some th → owned th ≡ₚ n :: rest →
  (n < size)%nat ∧ (∃ l, chain (cc_nexts p) (node (cc_head p)) l ∧ n ∉ l) ∧
  ∀ i th', i ≠ t → ths !! i = Some th' → n ∉ owned th'.
Proof.
  intros [_ (l & Hc & Hl) _ _] Ht Ho. cbn in *.
  destruct (concat_insert owned ths t th (mkThread Client []) Ht) as (rest' & E1 & E2).
  assert (NoDup (l ++ n :: rest ++ rest')) as Hnd.
  { rewrite E1, Ho in Hl. cbn in Hl. rewrite Hl. apply NoDup_seq. }
  assert (n ∈ seq 0 size) as Hr by (rewrite <- Hl, E1, Ho; set_solver). apply elem_of_seq in Hr.
  rewrite <- Permutation_middle in Hnd. apply NoDup_cons in Hnd as [Hn _].
  split; [lia|]. split; [exists l; split; [done|set_solver]|].
  intros i th' Hne Hi Hin. apply Hn.
  assert (n ∈ concat (owned <$> <[t := mkThread Client []]> ths)) as Hx.
  { apply list_elem_of_In, in_concat. exists (owned th'). rewrite <- !list_elem_of_In. split; [|done].
    apply list_elem_of_fmap. exists th'. split; [done|]. eapply list_elem_of_lookup_2.
    by rewrite list_lookup_insert_ne. }
  rewrite E2 in Hx. cbn in Hx. set_solver.
Qed.

(** A successful exchange of [FindFreeHead]. *)
Lemma get_inv size k p ths t h n nx :
  Z.of_nat k + 1 < 2 ^ 64 → cc_inv size k (p, ths) →
  ths !! t = Some (mkThread (GetCas (cc_head p) nx) h) → node (cc_head p) = Some n →
  cc_inv size (S k) (set_cc_head p (mkHead (u64 (count (cc_head p) + 1)) nx),
                     <[t := mkThread Client (n :: h)]> ths).
Proof.
  intros Hk Hi Ht Hn. pose proof Hi as [Hcnt _ Hd Hths]. cbn in *.
  destruct (Hths t _ Ht) as (n' & Hn' & _ & Heq). cbn in Hn', Heq.
  rewrite Hn in Hn'. injection Hn' as <-. destruct (Heq eq_refl) as [_ Hnx].
  destruct (cc_head_free _ _ _ _ _ Hi Hn) as (nx' & l & Hx & Hc & Hl).
  rewrite Hnx in Hx. injection Hx as <-.
  rewrite u64_small by (unfold is_u64; lia).
  split; cbn; [lia| |done|].
  - exists l. split; [done|].
    destruct (concat_insert owned ths t _ (mkThread Client (n :: h)) Ht) as (rest & E1 & E2).
    rewrite E2, <- Hl, E1. cbn. by rewrite <- Permutation_middle.
  - intros i x Hxi. apply list_lookup_insert_Some in Hxi as [(_ & <- & _)|[_ Hxi]]; [done|].
    apply thread_ok_moved; [eauto|done].
Qed.

(** A successful exchange of [ReleaseObject]. *)
Lemma release_inv size k p ths t h n :
  Z.of_nat k + 1 < 2 ^ 64 → cc_inv size k (p, ths) →
  ths !! t = Some (mkThread (RelCas n (cc_head p)) h) →
  cc_inv size (S k) (set_cc_head p (mkHead (u64 (count (cc_head p) + 1)) (Some n)),
                     <[t := mkThread Client h]> ths).
Proof.
  intros Hk Hi Ht. pose proof Hi as [Hcnt (l & Hc & Hl) Hd Hths]. cbn in *.
  destruct (Hths t _ Ht) as [Hn _]. rewrite u64_small by (unfold is_u64; lia).
  split; cbn; [lia| |done|].
  - exists (n :: l). split; [by econstructor|].
    destruct (concat_insert owned ths t _ (mkThread Client h) Ht) as (rest & E1 & E2).
    rewrite E2, <- Hl, E1. cbn. by rewrite <- Permutation_middle.
  - intros i x Hxi. apply list_lookup_insert_Some in Hxi as [(_ & <- & _)|[_ Hxi]]; [done|].
    apply thread_ok_moved; [eauto|done].
Qed.

(** The link of a node being given back. *)
Lemma link_inv size k p ths t h n old :
  cc_inv size k (p, ths) → ths !! t = Some (mkThread (RelWrite n old) h) →
  cc_inv size (S k) (set_cc_next p n (node old), <[t := mkThread (RelCas n old) h]> ths).
Proof.
  intros Hi Ht. pose proof Hi as [Hcnt (l & Hc & Hl) Hd Hths]. cbn in *.
  destruct (cc_owned size k p ths t _ n h Hi Ht) as (Hr & (l' & Hc' & Hn) & Hoth); [done|].
  pose proof (Hths t _ Ht) as Hold. cbn in Hold.
  assert (n ∉ l) as Hnl.
  { assert (NoDup (l ++ concat (owned <$> ths))) as Hnd by (rewrite Hl; apply NoDup_seq).
    apply NoDup_app in Hnd as (_ & Hnd & _). intros Hin. apply (Hnd n Hin).
    destruct (concat_insert owned ths t _ (mkThread Client []) Ht) as (rest & E1 & _). rewrite E1. set_solver. }
  split; cbn; [lia| | |].
  - exists l. split; [by apply chain_write|].
    destruct (concat_insert owned ths t _ (mkThread (RelCas n old) h) Ht) as (rest & E1 & E2).
    by rewrite E2, <- Hl, E1.
  - intros m Hm. destruct (decide (n = m)) as [->|]; [rewrite lookup_insert_eq; eauto|].
    rewrite lookup_insert_ne by done. auto.
  - intros i x Hxi. apply list_lookup_insert_Some in Hxi as [(_ & <- & _)|[Hne Hxi]].
    { split; [apply lookup_insert_eq|]. done. }
    specialize (Hths i x Hxi). unfold thread_ok in *. destruct (at_ x) as [|o|o nx|m o|m o] eqn:E; try done.
    + destruct Hths as (m & Hm & Hle & Heq). exists m. split; [done|]. split; [done|]. intros Hcc.
      destruct (Heq Hcc) as [-> Hx]. split; [done|]. cbn. rewrite lookup_insert_ne; [done|]. intros <-.
      apply Hnl. rewrite Hm in Hc. inversion Hc; subst. set_solver.
    + destruct Hths as [Hm Hf]. split; [|done]. cbn. rewrite lookup_insert_ne; [done|]. intros <-.
      apply (Hoth i x); [done|done|]. unfold owned. rewrite E. set_solver.
Qed.

Lemma cc_inv_step size k c t ch th p' th' :
  Z.of_nat k + 1 < 2 ^ 64 → cc_inv size k c → c.2 !! t = Some th →
  pool_step ch t c.1 th = Some (p', th') → cc_inv size (S k) (p', <[t := th']> c.2).
Proof.
  destruct c as [p ths], th as [a h]. cbn [fst snd]. intros Hk Hi Ht Hs.
  pose proof (cc_threads _ _ _ Hi t _ Ht) as Hok. cbn [fst] in Hok.
  destruct (read_head _ _ _ _ Hi) as [Hrange Hnow]. cbn in Hrange, Hnow.
  unfold pool_step in Hs. cbn [at_ held] in Hs. destruct a as [|old|old nx|n old|n old].
  - destruct ch as [|i| |]; try done.
    + simplify_eq. by eapply cc_inv_local.
    + destruct (h !! i) as [n|] eqn:Hn; [|done]. cbn in Hs. simplify_eq.
      eapply cc_inv_local; [done|done| |done]. cbn. symmetry. by apply delete_Permutation.
  - destruct (node old) as [n|] eqn:Hn; [|simplify_eq; by eapply cc_inv_local].
    destruct (cc_nexts p !! n) as [nx|] eqn:Hx; [|done]. cbn in Hs. simplify_eq.
    eapply cc_inv_local; [done|done|done|]. destruct Hok as [_ [Hle Heq]]. exists n. split; [done|].
    split; [done|]. intros Hc. by destruct (Heq Hc).
  - destruct (_ && _) eqn:E in Hs; [|simplify_eq; by eapply cc_inv_local].
    apply andb_true_iff in E as [_ <-%bool_decide_eq_true].
    destruct (node (cc_head p)) as [n|] eqn:Hn; [|done]. cbn in Hs. simplify_eq. by apply get_inv.
  - simplify_eq. by apply link_inv.
  - destruct (_ && _) eqn:E in Hs; [|simplify_eq; by eapply cc_inv_local].
    apply andb_true_iff in E as [_ <-%bool_decide_eq_true]. simplify_eq. by apply release_inv.
Qed.

Lemma CCObjectPool_new_inv size n p :
  CCObjectPool_new size = Some p → cc_inv size 0 (p, replicate n (mkThread Client [])).
Proof.
  destruct size as [|last]; [done|]. intros [= <-].
  set (m := list_to_map ((λ i, (i, Some (S i))) <$> seq 0 last) : Nexts).
  assert (∀ i, (i < last)%nat → m !! i = Some (Some (S i))) as Hm.
  { intros i Hi. apply elem_of_list_to_map_1.
    - rewrite <- list_fmap_compose. change (NoDup (id <$> seq 0 last)). rewrite list_fmap_id. apply NoDup_seq.
    - apply list_elem_of_fmap. exists i. split; [done|]. apply elem_of_seq. lia. }
  assert (∀ d, (d <= last)%nat → chain (<[last := None]> m) (Some (last - d)%nat) (seq (last - d) (S d))) as Hc.
  { induction d as [|d IH]; intros Hd.
    - rewrite Nat.sub_0_r. econstructor; [apply lookup_insert_eq|constructor].
    - econstructor; [|]; [rewrite lookup_insert_ne by lia; apply Hm; lia|].
      replace (S (last - S d)) with (last - d)%nat by lia. apply IH. lia. }
  split; cbn; [lia| | |].
  - exists (seq 0 (S last)). specialize (Hc last ltac:(lia)). rewrite Nat.sub_diag in Hc. split; [done|].
    replace (concat (owned <$> replicate n (mkThread Client []))) with (@nil nat); [by rewrite app_nil_r|].
    induction n as [|n IH]; [done|]. done.
  - intros i Hi. destruct (decide (last = i)) as [->|]; [rewrite lookup_insert_eq; eauto|].
    rewrite lookup_insert_ne by done. rewrite Hm by lia. eauto.
  - intros i th Hi. by apply lookup_replicate in Hi as [-> _].
Qed.

Lemma reach_cc_inv size n p0 k c :
  Z.of_nat k < 2 ^ 64 - 1 → CCObjectPool_new size = Some p0 →
  reach pool_step (p0, replicate n (mkThread Client [])) k c → cc_inv size k c.
Proof.
  intros Hk Hp Hr. eapply (reach_invariant pool_step k (cc_inv size)); [| |exact Hr|lia].
  - by apply CCObjectPool_new_inv.
  - intros m c' t ch th p' th' Hm. apply cc_inv_step. lia.
Qed.

(** The objects a thread holds are objects of the arena, each once, and no other
    thread's. *)
Lemma cc_exclusive size k p ths i th :
  cc_inv size k (p, ths) → ths !! i = Some th →
  NoDup (owned th) ∧ (∀ x, x ∈ owned th → (x < size)%nat) ∧
  (∀ j th' x, i ≠ j → ths !! j = Some th' → x ∈ owned th → x ∉ owned th').
Proof.
  intros Hi Ht. pose proof Hi as [_ (l & _ & Hl) _ _]. cbn in Hl.
  destruct (concat_insert owned ths i th th Ht) as (rest & E & _).
  assert (NoDup (l ++ owned th ++ rest)) as Hnd by (rewrite <- E, Hl; apply NoDup_seq).
  apply NoDup_app in Hnd as (_ & _ & [Hnd _]%NoDup_app). split; [done|].
  assert (∀ x, x ∈ owned th → ∃ rest', owned th ≡ₚ x :: rest') as Hx
    by (intros x Hx; by apply elem_of_Permutation in Hx).
  split.
  - intros x Hin. destruct (Hx x Hin) as [rest' Hp].
    by destruct (cc_owned size k p ths i th x rest' Hi Ht Hp) as (? & _).
  - intros j th' x Hne Hj Hin. destruct (Hx x Hin) as [rest' Hp].
    destruct (cc_owned size k p ths i th x rest' Hi Ht Hp) as (_ & _ & H). by apply (H j).
Qed.

(** [C32] However the threads of a [CCObjectPool] interleave, no object is ever held twice:
    what the threads hold are distinct objects of the arena.  Whenever no thread is
    inside the pool, the free list holds exactly the objects nobody holds, so none is
    lost.  And a thread inside the pool can always take its next step. *)
Theorem cc_pool_exclusive (size n k : nat) p0 p ths :
  CCObjectPool_new size = Some p0 → Z.of_nat k < 2 ^ 64 - 1 →
  reach pool_step (p0, replicate n (mkThread Client [])) k (p, ths) →
  (∀ i th, ths !! i = Some th → NoDup (held th) ∧ ∀ x, x ∈ held th → (x < size)%nat) ∧
  (∀ i j th th' x, i ≠ j → ths !! i = Some th → ths !! j = Some th' → x ∈ held th → x ∉ held th') ∧
  (Forall (λ th, at_ th = Client) ths →
     ∃ l, chain (cc_nexts p) (node (cc_head p)) l ∧ l ++ concat (held <$> ths) ≡ₚ seq 0 size) ∧
  (∀ i th, ths !! i = Some th → at_ th ≠ Client → is_Some (pool_step NoSpurious i p th)).
Proof.
  intros Hp Hk Hr. pose proof (reach_cc_inv _ _ _ _ _ Hk Hp Hr) as Hi.
  assert (∀ th, ∃ l, owned th = l ++ held th) as Hheld.
  { intros th. unfold owned. destruct (at_ th) as [| | |n'|n']; first [by exists []|by exists [n']]. }
  split; [|split; [|split]].
  - intros i th Ht. destruct (cc_exclusive _ _ _ _ _ _ Hi Ht) as (Hnd & Hr' & _).
    destruct (Hheld th) as [l E]. rewrite E in *. split; [by apply NoDup_app in Hnd as (_ & _ & ?)|].
    intros x Hx. apply Hr'. set_solver.
  - intros i j th th' x Hne Ht Ht' Hx Hx'. destruct (cc_exclusive _ _ _ _ _ _ Hi Ht) as (_ & _ & H).
    destruct (Hheld th) as [l E], (Hheld th') as [l' E'].
    apply (H j th' x Hne Ht'); rewrite ?E, ?E'; set_solver.
  - intros Hcl. destruct (cc_free _ _ _ Hi) as (l & Hc & Hl). exists l. split; [done|].
    rewrite <- Hl. cbn. replace (owned <$> ths) with (held <$> ths); [done|].
    apply list_fmap_ext. intros i th Ht.
    rewrite Forall_lookup in Hcl. unfold owned. by rewrite (Hcl i th Ht).
  - intros i th Ht Hat. pose proof (cc_threads _ _ _ Hi i th Ht) as Hok. cbn in Hok.
    unfold pool_step, thread_ok in *. destruct (at_ th) as [|old|old nx|n' old|n' old]; [done| | | |].
    + destruct (node old) as [m|] eqn:E; [|eauto]. destruct Hok as [Hm _].
      destruct (cc_defined _ _ _ Hi m (Hm m eq_refl)) as [nx Hx]. cbn in Hx. rewrite Hx. cbn. eauto.
    + destruct Hok as (m & -> & _). cbn. destruct (bool_decide _); eauto.
    + eauto.
    + cbn. destruct (bool_decide _); eauto.
Qed.

(** Two threads over two objects, at cross purposes: the second takes and gives back
    the head while the first is about to take it; the first's exchange fails and it
    takes the object on its next attempt. *)
Definition demo_schedule : list (nat * choice) :=
  [(0%nat, WantGet); (0%nat, NoSpurious); (1%nat, WantGet); (1%nat, NoSpurious); (1%nat, NoSpurious);
   (1%nat, WantRelease 0%nat); (1%nat, NoSpurious); (1%nat, NoSpurious); (0%nat, NoSpurious); (0%nat, NoSpurious);
   (0%nat, NoSpurious); (1%nat, WantGet); (1%nat, NoSpurious); (1%nat, NoSpurious)].

Lemma cc_pool_exclusive_witness :
  ∃ p0 p ths, CCObjectPool_new 2 = Some p0 ∧
    reach pool_step (p0, replicate 2 (mkThread Client [])) 14 (p, ths) ∧
    held <$> ths = [[0%nat]; [1%nat]] ∧ ∃ l, chain (cc_nexts p) (node (cc_head p)) l ∧ l ++ [0%nat; 1%nat] ≡ₚ seq 0 2.
Proof.
  set (p0 := mkCCObjectPool (mkHead 0 (Some 0%nat))
        (<[1%nat := None]> (list_to_map ((λ i, (i, Some (S i))) <$> seq 0 1))) 2).
  destruct (run_schedule pool_step demo_schedule (p0, replicate 2 (mkThread Client []))) as [[p ths]|] eqn:E;
    [|exfalso; vm_compute in E; discriminate].
  assert (Hr : reach pool_step (p0, replicate 2 (mkThread Client [])) 14 (p, ths))
    by exact (run_schedule_reach pool_step demo_schedule 0 _ _ _ (reach_refl _ _) E).
  destruct (cc_pool_exclusive 2 2 14 p0 p ths eq_refl ltac:(lia) Hr) as (_ & _ & H & _).
  assert (ths = [mkThread Client [0%nat]; mkThread Client [1%nat]]) as ->.
  { assert (snd <$> run_schedule pool_step demo_schedule (p0, replicate 2 (mkThread Client []))
      = Some [mkThread Client [0%nat]; mkThread Client [1%nat]]) as Hths by (vm_compute; reflexivity).
    rewrite E in Hths. cbn in Hths. by injection Hths. }
  exists p0, p, [mkThread Client [0%nat]; mkThread Client [1%nat]].
  split; [reflexivity|]. split; [exact Hr|]. split; [reflexivity|].
  apply H. repeat constructor.
Defined.
