(* ===== verification/UnboundedQueue.v ===== *)
(** * UnboundedQueue (cyber/base/unbounded_queue.h)

    A linked queue with a dummy node at its head.  A node is freed when both its
    enqueuer's successor and the dequeuer that leaves it behind have released it.
    Nodes live in a store; a node that is not in it has been deleted, and an operation
    that touches such a node is [None].  [Enqueue] and [Dequeue] are the operations as
    they run alone; [uq_step] gives them one atomic access at a time. *)

From stdpp Require Import base numbers list gmap.
From Stdlib Require Import ZArith Lia.
From S2P Require Import Prelude Interleave.

Open Scope Z_scope.

Section queue.
Context {T : Type} (dflt : T).

Record Node := mkNode { data : T; ref_count : Z; next : option nat }.   (* ref_count: uint32_t *)
Definition Node_new (x : T) : Node := mkNode x 2 None.

Record UnboundedQueue := mkQueue {
  nodes : gmap nat Node; fresh : nat; head_ : nat; tail_ : nat; size_ : Z   (* size_t *)
}.

Definition set_nodes (q : UnboundedQueue) (m : gmap nat Node) : UnboundedQueue :=
  mkQueue m (fresh q) (head_ q) (tail_ q) (size_ q).
Definition set_head (q : UnboundedQueue) (n : nat) : UnboundedQueue :=
  mkQueue (nodes q) (fresh q) n (tail_ q) (size_ q).
Definition set_tail (q : UnboundedQueue) (n : nat) : UnboundedQueue :=
  mkQueue (nodes q) (fresh q) (head_ q) n (size_ q).
Definition set_size (q : UnboundedQueue) (z : Z) : UnboundedQueue :=
  mkQueue (nodes q) (fresh q) (head_ q) (tail_ q) z.

(** [new Node()] with its data. *)
Definition alloc (q : UnboundedQueue) (x : T) : UnboundedQueue * nat :=
  (mkQueue (<[fresh q := Node_new x]> (nodes q)) (S (fresh q)) (head_ q) (tail_ q) (size_ q), fresh q).

(** [release()] in its two accesses: the decrement; the test, which may delete. *)
Definition release_sub (q : UnboundedQueue) (n : nat) : option UnboundedQueue :=
  d ← nodes q !! n;
  Some (set_nodes q (<[n := mkNode (data d) (u32 (ref_count d - 1)) (next d)]> (nodes q))).
Definition release_test (q : UnboundedQueue) (n : nat) : option UnboundedQueue :=
  d ← nodes q !! n;
  Some (if ref_count d =? 0 then set_nodes q (delete n (nodes q)) else q).
Definition release (q : UnboundedQueue) (n : nat) : option UnboundedQueue :=
  q ← release_sub q n; release_test q n.

Definition link (q : UnboundedQueue) (n m : nat) : option UnboundedQueue :=
  d ← nodes q !! n;
  Some (set_nodes q (<[n := mkNode (data d) (ref_count d) (Some m)]> (nodes q))).

(** [Reset()]; the constructor resets an empty store. *)
Definition Reset (q : UnboundedQueue) : UnboundedQueue :=
  let '(q, n) := alloc q dflt in set_size (set_tail (set_head q n) n) 0.
Definition UnboundedQueue_new : UnboundedQueue := Reset (mkQueue ∅ 0 0 0 0).

(** [Enqueue(element)], [Dequeue(&element)], [Size()], [Empty()]. *)
Definition Enqueue (q : UnboundedQueue) (x : T) : option UnboundedQueue :=
  let '(q, n) := alloc q x in
  let old_tail := tail_ q in
  let q := set_tail q n in
  q ← link q old_tail n;
  q ← release q old_tail;
  Some (set_size q (u64 (size_ q + 1))).
Definition Dequeue (q : UnboundedQueue) : option (UnboundedQueue * option T) :=
  let old_head := head_ q in
  d ← nodes q !! old_head;
  match next d with
  | None => Some (q, None)
  | Some head_next =>
      let q := set_head q head_next in
      dn ← nodes q !! head_next;
      let q := set_size q (u64 (size_ q - 1)) in
      q ← release q old_head;
      Some (q, Some (data dn))
  end.
Definition Size (q : UnboundedQueue) : Z := size_ q.
Definition Empty (q : UnboundedQueue) : bool := size_ q =? 0.

(** [Destroy()]: deletes the nodes along the list; [fuel] bounds its length.  [Clear()]. *)
Fixpoint Destroy (fuel : nat) (m : gmap nat Node) (it : option nat) : option (gmap nat Node) :=
  match it with
  | None => Some m
  | Some n =>
      match fuel with
      | O => None
      | S fuel => d ← m !! n; Destroy fuel (delete n m) (next d)
      end
  end.
Definition Clear (q : UnboundedQueue) : option UnboundedQueue :=
  m ← Destroy (S (Z.to_nat (size_ q))) (nodes q) (Some (head_ q));
  Some (Reset (set_nodes q m)).

(** ** One access at a time *)

Inductive pc :=
| Idle
| EnqLoad (n : nat)
| EnqCas (n old_tail : nat)
| EnqLink (n old_tail : nat)
| EnqSub (old_tail : nat)
| EnqTest (old_tail : nat)
| EnqSize
| DeqNext (old_head : nat)
| DeqCas (old_head head_next : nat)
| DeqData (old_head head_next : nat)
| DeqSize (old_head : nat) (x : T)
| DeqSub (old_head : nat) (x : T)
| DeqTest (old_head : nat) (x : T)
| DeqDone (r : option T).

Inductive choice := WantEnqueue (x : T) | WantDequeue | Go.

Definition uq_step (ch : choice) (t : nat) (q : UnboundedQueue) (p : pc) : option (UnboundedQueue * pc) :=
  match p with
  | Idle =>
      match ch with
      | WantEnqueue x => let '(q, n) := alloc q x in Some (q, EnqLoad n)
      | WantDequeue => Some (q, DeqNext (head_ q))
      | Go => None
      end
  | EnqLoad n => Some (q, EnqCas n (tail_ q))
  | EnqCas n old_tail =>
      if decide (tail_ q = old_tail) then Some (set_tail q n, EnqLink n old_tail)
      else Some (q, EnqCas n (tail_ q))
  | EnqLink n old_tail => q ← link q old_tail n; Some (q, EnqSub old_tail)
  | EnqSub old_tail => q ← release_sub q old_tail; Some (q, EnqTest old_tail)
  | EnqTest old_tail => q ← release_test q old_tail; Some (q, EnqSize)
  | EnqSize => Some (set_size q (u64 (size_ q + 1)), Idle)
  | DeqNext old_head =>
      d ← nodes q !! old_head;
      match next d with
      | None => Some (q, DeqDone None)
      | Some head_next => Some (q, DeqCas old_head head_next)
      end
  | DeqCas old_head head_next =>
      if decide (head_ q = old_head) then Some (set_head q head_next, DeqData old_head head_next)
      else Some (q, DeqNext (head_ q))
  | DeqData old_head head_next => d ← nodes q !! head_next; Some (q, DeqSize old_head (data d))
  | DeqSize old_head x => Some (set_size q (u64 (size_ q - 1)), DeqSub old_head x)
  | DeqSub old_head x => q ← release_sub q old_head; Some (q, DeqTest old_head x)
  | DeqTest old_head x => q ← release_test q old_head; Some (q, DeqDone (Some x))
  | DeqDone _ => Some (q, Idle)
  end.

(** ** The queue alone is a list *)

(** The nodes from [n] to the tail [e], with what they hold: the tail has both its
    references, a node before it one. *)
Inductive path (m : gmap nat Node) (e : nat) : nat → list (nat * T) → Prop :=
| path_end x : m !! e = Some (mkNode x 2 None) → path m e e [(e, x)]
| path_next n n' x l : m !! n = Some (mkNode x 1 (Some n')) → path m e n' l → path m e n ((n, x) :: l).

(** [xs] are the elements, behind the dummy. *)
Record queue_inv (q : UnboundedQueue) (xs : list T) : Prop := {
  qi_path : ∃ l d, path (nodes q) (tail_ q) (head_ q) l ∧ l.*2 = d :: xs ∧ NoDup l.*1 ∧
              (dom (nodes q) : gset nat) = list_to_set l.*1;
  qi_fresh : ∀ n, n ∈ (dom (nodes q) : gset nat) → (n < fresh q)%nat;
  qi_size : size_ q = Z.of_nat (length xs)
}.

Lemma path_agree m m' e n l :
  path m e n l → (∀ x, x ∈ l.*1 → m' !! x = m !! x) → path m' e n l.
Proof.
  induction 1 as [x Hx|n n' x l Hn Hp IH]; intros Hm.
  - constructor. rewrite Hm; [done|set_solver].
  - econstructor; [rewrite Hm; [done|set_solver]|]. apply IH. set_solver.
Qed.

Lemma path_start m e n l : path m e n l → ∃ x l', l = (n, x) :: l'.
Proof. destruct 1; eauto. Qed.

(** Appending a node behind the tail. *)
Lemma path_snoc m e n l k y :
  path m e n l → NoDup l.*1 → k ∉ l.*1 →
  ∃ x, m !! e = Some (mkNode x 2 None) ∧
    path (<[k := Node_new y]> (<[e := mkNode x 1 (Some k)]> m)) k n (l ++ [(k, y)]).
Proof.
  intros Hp Hnd Hk. induction Hp as [x Hx|n n' x l Hn Hp IH].
  - exists x. split; [done|]. cbn. econstructor.
    + rewrite lookup_insert_ne by set_solver. apply lookup_insert_eq.
    + constructor. apply lookup_insert_eq.
  - cbn in Hnd, Hk. apply NoDup_cons in Hnd as [Hnl Hnd]. apply not_elem_of_cons in Hk as [Hkn Hk].
    destruct (IH Hnd Hk) as (z & Hz & Hp'). exists z. split; [done|]. cbn. econstructor; [|exact Hp'].
    rewrite lookup_insert_ne by done. rewrite lookup_insert_ne; [done|]. intros <-. congruence.
Qed.

Lemma path_dom m e n l x : path m e n l → x ∈ l.*1 → is_Some (m !! x).
Proof. induction 1 as [y Hy|n n' y l Hn Hp IH]; cbn; [|intros [->|?]%elem_of_cons; eauto]. set_solver. Qed.

Lemma queue_inv_new : queue_inv UnboundedQueue_new [].
Proof.
  split; cbn; [|set_solver|done].
  exists [(0%nat, dflt)], dflt. split; [constructor; apply lookup_insert_eq|]. split; [done|].
  split; [apply NoDup_singleton|]. set_solver.
Qed.

Lemma Enqueue_inv q xs x :
  queue_inv q xs → Z.of_nat (length xs) + 1 < 2 ^ 64 →
  ∃ q', Enqueue q x = Some q' ∧ queue_inv q' (xs ++ [x]).
Proof.
  intros [(l & d & Hp & Hl & Hnd & Hdom) Hfr Hsz] Hlen.
  assert (fresh q ∉ l.*1) as Hf.
  { intros Hin. assert (fresh q ∈ (dom (nodes q) : gset nat)) as H by (rewrite Hdom; set_solver).
    specialize (Hfr _ H). lia. }
  destruct (path_snoc _ _ _ _ (fresh q) x Hp Hnd Hf) as (z & Hz & Hp').
  assert (tail_ q ≠ fresh q) as Hne.
  { intros E. assert (tail_ q ∈ (dom (nodes q) : gset nat)) as H by (by apply elem_of_dom_2 in Hz).
    specialize (Hfr _ H). lia. }
  unfold Enqueue, alloc, link, release, release_sub, release_test. cbn.
  rewrite lookup_insert_ne, Hz by done. cbn. rewrite lookup_insert_eq. cbn.
  rewrite lookup_insert_eq. change (u32 (2 - 1)) with 1. cbn. eexists. split; [done|]. cbn.
  rewrite !insert_insert_eq. split; cbn; [rewrite insert_insert_ne by done..|].
  - exists (l ++ [(fresh q, x)]), d. split; [exact Hp'|]. rewrite !fmap_app, Hl. cbn.
    split; [done|]. split; [apply NoDup_app; split; [done|]; split; [set_solver|apply NoDup_singleton]|].
    rewrite !dom_insert_L, Hdom. apply elem_of_dom_2 in Hz. set_solver.
  - intros n. rewrite !dom_insert_L. apply elem_of_dom_2 in Hz. specialize (Hfr _ Hz) as Ht.
    intros Hn. assert (n = fresh q ∨ n = tail_ q ∨ n ∈ (dom (nodes q) : gset nat)) as [->|[->|H]] by set_solver;
      [lia|lia|]. specialize (Hfr _ H). lia.
  - rewrite u64_small by (unfold is_u64; lia). rewrite length_app, Hsz. cbn. lia.
Qed.

Lemma Dequeue_inv q xs :
  queue_inv q xs → Z.of_nat (length xs) < 2 ^ 64 →
  ∃ q', Dequeue q = Some (q', head xs) ∧ queue_inv q' (tail xs).
Proof.
  intros Hq Hlen. pose proof Hq as [(l & d & Hp & Hl & Hnd & Hdom) Hfr Hsz]. unfold Dequeue.
  destruct Hp as [y Hy|n n' y l Hn Hp].
  - rewrite Hy. cbn. destruct xs; [|done]. eauto.
  - destruct (path_start _ _ _ _ Hp) as (y' & l' & ->). cbn in Hl, Hnd, Hdom. injection Hl as -> Hl.
    apply NoDup_cons in Hnd as [Hnl Hnd]. rewrite Hn. cbn.
    destruct (path_dom _ _ _ _ n' Hp) as [dn Hdn]; [set_solver|]. rewrite Hdn. cbn.
    assert (data dn = y') as Hy'.
    { clear -Hp Hdn. inversion Hp; by simplify_eq. }
    unfold release, release_sub, release_test. cbn. rewrite Hn. cbn. rewrite lookup_insert_eq.
    change (u32 (1 - 1)) with 0. cbn. rewrite delete_insert_eq, Hy', <- Hl. cbn. eexists. split; [done|]. split; cbn.
    + exists ((n', y') :: l'), y'. split; [|split; [done|split; [done|]]].
      * apply (path_agree (nodes q)); [done|]. intros x Hx. rewrite lookup_delete_ne; [done|].
        intros <-. apply Hnl. set_solver.
      * rewrite dom_delete_L, Hdom. set_solver.
    + intros m Hm. apply Hfr. set_solver.
    + rewrite Hsz, <- Hl. cbn [length]. rewrite u64_small by (unfold is_u64; cbn [length] in *; rewrite <- Hl in Hlen; cbn [length] in Hlen; lia). lia.
Qed.

Lemma Destroy_path fuel m e n l :
  path m e n l → NoDup l.*1 → (length l <= fuel)%nat → (dom m : gset nat) = list_to_set l.*1 →
  Destroy fuel m (Some n) = Some ∅.
Proof.
  revert m n l. induction fuel as [|fuel IH]; intros m n l Hp Hnd Hlen Hdom.
  - destruct Hp; cbn in Hlen; lia.
  - destruct Hp as [x Hx|n n' x l Hn Hp]; cbn.
    + rewrite Hx. cbn. cbn in Hdom. destruct fuel; cbn; f_equal;
        apply dom_empty_inv_L; rewrite dom_delete_L, Hdom; set_solver.
    + rewrite Hn. cbn. cbn in Hnd, Hdom. apply NoDup_cons in Hnd as [Hnl Hnd].
      apply (IH _ _ l); [|done|cbn in Hlen; lia|rewrite dom_delete_L, Hdom; set_solver].
      apply (path_agree m); [done|]. intros y Hy. rewrite lookup_delete_ne; [done|]. by intros <-.
Qed.

Lemma Clear_inv q xs :
  queue_inv q xs → ∃ q', Clear q = Some q' ∧ queue_inv q' [].
Proof.
  intros [(l & d & Hp & Hl & Hnd & Hdom) Hfr Hsz]. unfold Clear.
  rewrite (Destroy_path _ _ _ _ _ Hp Hnd); [|rewrite Hsz, Nat2Z.id|done].
  - cbn. eexists. split; [done|]. split; cbn; [|set_solver|done].
    exists [(fresh q, dflt)], dflt. split; [constructor; apply lookup_insert_eq|]. split; [done|].
    split; [apply NoDup_singleton|]. set_solver.
  - rewrite <- (length_fmap snd l), Hl. done.
Qed.

(** ** Any sequence of calls *)

Inductive QOp := QEnqueue (x : T) | QDequeue | QClear.
Inductive QAns := AUnit | ADequeued (r : option T).

Definition q_op (q : UnboundedQueue) (o : QOp) : option (UnboundedQueue * QAns) :=
  match o with
  | QEnqueue x => q ← Enqueue q x; Some (q, AUnit)
  | QDequeue => '(q, r) ← Dequeue q; Some (q, ADequeued r)
  | QClear => q ← Clear q; Some (q, AUnit)
  end.
Definition l_op (xs : list T) (o : QOp) : list T * QAns :=
  match o with
  | QEnqueue x => (xs ++ [x], AUnit)
  | QDequeue => (tail xs, ADequeued (head xs))
  | QClear => ([], AUnit)
  end.

Fixpoint q_ops (q : UnboundedQueue) (os : list QOp) : option (UnboundedQueue * list QAns) :=
  match os with
  | [] => Some (q, [])
  | o :: os => '(q, a) ← q_op q o; '(q, l) ← q_ops q os; Some (q, a :: l)
  end.
Fixpoint l_ops (xs : list T) (os : list QOp) : list T * list QAns :=
  match os with
  | [] => (xs, [])
  | o :: os => let '(xs, a) := l_op xs o in let '(xs, l) := l_ops xs os in (xs, a :: l)
  end.

Lemma q_ops_inv q xs os :
  queue_inv q xs → Z.of_nat (length xs + length os) < 2 ^ 64 →
  ∃ q', q_ops q os = Some (q', (l_ops xs os).2) ∧ queue_inv q' (l_ops xs os).1.
Proof.
  revert q xs. induction os as [|o os IH]; intros q xs Hq Hlen; cbn; [eauto|].
  assert (∃ q1, q_op q o = Some (q1, (l_op xs o).2) ∧ queue_inv q1 (l_op xs o).1 ∧
    (length (l_op xs o).1 <= S (length xs))%nat) as (q1 & E & Hq1 & Hl).
  { cbn [length] in Hlen. destruct o as [x| |]; cbn [q_op l_op fst snd].
    - destruct (Enqueue_inv q xs x Hq ltac:(lia)) as (q1 & -> & Hq1). cbn. exists q1.
      split; [done|]. split; [done|]. rewrite length_app. cbn. lia.
    - destruct (Dequeue_inv q xs Hq ltac:(lia)) as (q1 & -> & Hq1). cbn. exists q1.
      split; [done|]. split; [done|]. destruct xs; cbn; lia.
    - destruct (Clear_inv q xs Hq) as (q1 & -> & Hq1). cbn. exists q1. split; [done|]. split; [done|]. lia. }
  rewrite E. cbn. destruct (l_op xs o) as [xs1 a]. cbn in *.
  destruct (IH q1 xs1 Hq1 ltac:(lia)) as (q2 & E2 & Hq2). rewrite E2. cbn.
  destruct (l_ops xs1 os) as [xs2 l]. cbn in *. eauto.
Qed.

(** Used by one thread at a time, [UnboundedQueue] answers as a list, counts its elements,
    touches no deleted node, and keeps no node but those of its elements and the dummy. *)
Theorem unbounded_queue_refines_list (os : list QOp) :
  Z.of_nat (length os) < 2 ^ 64 →
  ∃ q, q_ops UnboundedQueue_new os = Some (q, (l_ops [] os).2) ∧
    Size q = Z.of_nat (length (l_ops [] os).1) ∧ Empty q = bool_decide ((l_ops [] os).1 = []) ∧
    size (dom (nodes q) : gset nat) = S (length (l_ops [] os).1).
Proof.
  intros Hlen. destruct (q_ops_inv UnboundedQueue_new [] os queue_inv_new) as (q & E & Hq); [cbn; lia|].
  exists q. split; [done|]. destruct Hq as [(l & d & Hp & Hl & Hnd & Hdom) _ Hsz].
  split; [done|]. split.
  - unfold Empty. rewrite Hsz. destruct ((l_ops [] os).1) eqn:E'; [done|]. cbn [length].
    rewrite bool_decide_false by done. apply Z.eqb_neq. lia.
  - rewrite Hdom, size_list_to_set by done. rewrite length_fmap, <- (length_fmap snd), Hl. done.
Qed.
End queue.

Arguments pc : clear implicits.
Arguments choice : clear implicits.

(** ** Two threads *)

(** One thread enqueues, the other dequeues what it has just linked. *)
Definition race : list (nat * choice Z) :=
  [(0%nat, WantEnqueue 7); (0%nat, Go); (0%nat, Go); (0%nat, Go); (0%nat, Go);
   (1%nat, WantDequeue); (1%nat, Go); (1%nat, Go); (1%nat, Go); (1%nat, Go); (1%nat, Go); (0%nat, Go)].

(** [release] decrements and tests in two accesses: when the enqueuer and the dequeuer
    of a node have both decremented before either tests, both find the count at 0.  The
    first deletes the node, the second tests it after that.  In the same run [size_] has
    been decremented before it was incremented and reads [2 ^ 64 - 1]. *)
Theorem unbounded_queue_double_release :
  ∃ q, reach uq_step (UnboundedQueue_new 0, [Idle; Idle]) 12 (q, [EnqSize; DeqTest 0 7]) ∧
    nodes q !! 0%nat = None ∧ uq_step Go 1 q (DeqTest 0 7) = None ∧ Size q = 2 ^ 64 - 1.
Proof.
  destruct (run_schedule uq_step race (UnboundedQueue_new 0, [Idle; Idle])) as [[q ps]|] eqn:E;
    [|vm_compute in E; discriminate].
  pose proof (run_schedule_reach uq_step race 0 _ _ _ (reach_refl _ _) E) as Hr.
  vm_compute in E. injection E as <- <-. eexists. split; [exact Hr|].
  split; [vm_compute; reflexivity|]. split; vm_compute; reflexivity.
Qed.

Lemma unbounded_queue_refines_list_witness :
  ∃ q, q_ops 0 (UnboundedQueue_new 0) [QEnqueue 5; QEnqueue 6; QDequeue; QDequeue; QDequeue; QEnqueue 1; QClear]
       = Some (q, [AUnit; AUnit; ADequeued (Some 5); ADequeued (Some 6); ADequeued None; AUnit; AUnit]) ∧
    Size q = 0.
Proof.
  destruct (unbounded_queue_refines_list 0
    [QEnqueue 5; QEnqueue 6; QDequeue; QDequeue; QDequeue; QEnqueue 1; QClear]) as (q & E & Hs & _); [cbn; lia|].
  exists q. split; [exact E|exact Hs].
Defined.
