(* ===== verification/Signal.v ===== *)
(** * Signals and slots (cyber/base/signal.h)

    A signal keeps a list of slots, shared with the connections handed out for them:
    slots live in a store and lists and connections hold their numbers.  While a signal
    is emitted its callbacks, and other threads, may connect and disconnect; what they
    do before the [i]-th slot's turn is the argument [env i] of the emission.  Nested
    emissions of the same signal are not modelled. *)

From stdpp Require Import base numbers list gmap.
From Stdlib Require Import ZArith Lia.
From S2P Require Import Prelude.

Open Scope nat_scope.

Section signal.
Context {F : Type}.

(** [Slot]: its callback, [None] for an empty std::function, and whether it is connected. *)
Record Slot := mkSlot { cb_ : option F; connected_ : bool }.

(** [Signal] with the slots that exist. *)
Record Signal := mkSignal { store : gmap nat Slot; next_slot : nat; slots_ : list nat }.
Definition Signal_new : Signal := mkSignal ∅ 0 [].

(** A [Connection]: the slot it holds; the default one holds none. *)
Definition Connection := option nat.
Definition HasSlot (conn : Connection) (slot : nat) : bool := bool_decide (conn = Some slot).

Definition connected (s : Signal) (slot : nat) : bool :=
  match store s !! slot with Some x => connected_ x | None => false end.
Definition IsConnected (s : Signal) (conn : Connection) : bool :=
  match conn with Some slot => connected s slot | None => false end.

(** [slot->Disconnect()]. *)
Definition Slot_Disconnect (m : gmap nat Slot) (slot : nat) : gmap nat Slot :=
  match m !! slot with Some x => <[slot := mkSlot (cb_ x) false]> m | None => m end.

Definition ClearDisconnectedSlots (s : Signal) : Signal :=
  mkSignal (store s) (next_slot s) (filter (λ slot, connected s slot = true) (slots_ s)).

(** [Connect(cb)]. *)
Definition Connect (s : Signal) (cb : option F) : Signal * Connection :=
  (mkSignal (<[next_slot s := mkSlot cb true]> (store s)) (S (next_slot s))
     (slots_ s ++ [next_slot s]), Some (next_slot s)).

(** [Disconnect(conn)] of the signal and of the connection. *)
Definition Disconnect (s : Signal) (conn : Connection) : Signal * bool :=
  let found := filter (λ slot, HasSlot conn slot = true) (slots_ s) in
  let s' := mkSignal (foldl Slot_Disconnect (store s) found) (next_slot s) (slots_ s) in
  match found with
  | [] => (s', false)
  | _ => (ClearDisconnectedSlots s', true)
  end.
Definition Connection_Disconnect (s : Signal) (conn : Connection) : Signal * bool :=
  match conn with Some _ => Disconnect s conn | None => (s, false) end.

(** [DisconnectAllSlots()]. *)
Definition DisconnectAllSlots (s : Signal) : Signal :=
  mkSignal (foldl Slot_Disconnect (store s) (slots_ s)) (next_slot s) [].

Inductive Act := AConnect (cb : option F) | ADisconnect (conn : Connection) | ADisconnectAll.

Definition act (s : Signal) (a : Act) : Signal :=
  match a with
  | AConnect cb => (Connect s cb).1
  | ADisconnect conn => (Connection_Disconnect s conn).1
  | ADisconnectAll => DisconnectAllSlots s
  end.
Definition acts (s : Signal) (l : list Act) : Signal := foldl act s l.

(** [slot(args)]: whether the callback runs. *)
Definition Slot_call (s : Signal) (slot : nat) : bool :=
  match store s !! slot with
  | Some x => connected_ x && match cb_ x with Some _ => true | None => false end
  | None => false
  end.

(** The loop over the copied list, from slot number [i]; the slots whose callback ran. *)
Fixpoint call_slots (env : nat → list Act) (i : nat) (local : list nat) (s : Signal)
  : Signal * list nat :=
  match local with
  | [] => (acts s (env i), [])
  | slot :: local =>
      let s := acts s (env i) in
      let '(s', called) := call_slots env (S i) local s in
      (s', if Slot_call s slot then slot :: called else called)
  end.

(** [operator()(args)]. *)
Definition emit (env : nat → list Act) (s : Signal) : Signal * list nat :=
  let '(s, called) := call_slots env 0 (slots_ s) s in (ClearDisconnectedSlots s, called).

(** ** The list holds the connected slots *)

Record sig_inv (s : Signal) : Prop := {
  sg_nodup : NoDup (slots_ s);
  sg_slots : ∀ slot, slot ∈ slots_ s ↔ connected s slot = true;
  sg_fresh : ∀ slot, is_Some (store s !! slot) → slot < next_slot s
}.

Lemma Slot_Disconnect_all m l slot :
  foldl Slot_Disconnect m l !! slot =
  (if decide (slot ∈ l) then (λ x, mkSlot (cb_ x) false) <$> m !! slot else m !! slot).
Proof.
  revert m. induction l as [|y l IH]; intros m; cbn; [by rewrite decide_False by set_solver|].
  rewrite IH. unfold Slot_Disconnect.
  destruct (decide (slot = y)) as [->|Hne].
  - rewrite (decide_True (P := y ∈ y :: l)) by set_solver. destruct (m !! y) as [x|] eqn:E.
    + rewrite lookup_insert_eq. by destruct (decide (y ∈ l)).
    + rewrite E. by destruct (decide (y ∈ l)).
  - assert ((match m !! y with Some x => <[y := mkSlot (cb_ x) false]> m | None => m end) !! slot = m !! slot) as ->
      by (destruct (m !! y); [by rewrite lookup_insert_ne|done]).
    destruct (decide (slot ∈ l)), (decide (slot ∈ y :: l)); set_solver.
Qed.

Lemma sig_inv_new : sig_inv Signal_new.
Proof. split; cbn; [constructor|set_solver|]. intros slot [? H]. by rewrite lookup_empty in H. Qed.

Lemma Clear_id s : sig_inv s → ClearDisconnectedSlots s = s.
Proof.
  intros [Hn Hs Hf]. destruct s as [m n l]. unfold ClearDisconnectedSlots. cbn in *. f_equal.
  apply filter_all. intros x Hx. by apply Hs.
Qed.

Lemma found_list s conn :
  NoDup (slots_ s) →
  filter (λ slot, HasSlot conn slot = true) (slots_ s) =
  match conn with
  | Some slot => if decide (slot ∈ slots_ s) then [slot] else []
  | None => []
  end.
Proof.
  unfold HasSlot. destruct conn as [slot|].
  - induction (slots_ s) as [|y l IH]; intros Hnd; [done|]. apply NoDup_cons in Hnd as [Hy Hnd].
    rewrite filter_cons. destruct (decide (slot = y)) as [->|Hne].
    + rewrite decide_True by (by apply bool_decide_eq_true). rewrite decide_True by set_solver.
      rewrite IH by done. by rewrite decide_False.
    + rewrite decide_False by (rewrite bool_decide_eq_true; congruence). rewrite IH by done.
      destruct (decide (slot ∈ l)), (decide (slot ∈ y :: l)); set_solver.
  - intros _. apply filter_none. intros x _. by rewrite bool_decide_eq_true.
Qed.

(** Which slots an action disconnects. *)
Definition disconnects (a : Act) (slot : nat) : Prop :=
  match a with
  | AConnect _ => False
  | ADisconnect conn => conn = Some slot
  | ADisconnectAll => True
  end.

(** From [s] to [s'], the slots there were keep their callbacks and stay connected
    unless [gone]. *)
Definition evolves (s s' : Signal) (gone : nat → Prop) : Prop :=
  sig_inv s' ∧ next_slot s <= next_slot s' ∧
  ∀ slot, slot < next_slot s →
    (cb_ <$> store s' !! slot) = (cb_ <$> store s !! slot) ∧
    (connected s' slot = true ↔ connected s slot = true ∧ ¬ gone slot).

Lemma connect_evolves s cb : sig_inv s → evolves s (Connect s cb).1 (λ _, False).
Proof.
  intros [Hn Hin Hf]. split; [split; cbn|split; [cbn; lia|]].
  - apply NoDup_app. split; [done|]. split; [|apply NoDup_singleton]. intros x Hx.
    rewrite list_elem_of_singleton. intros ->. apply Hin in Hx. unfold connected in Hx.
    destruct (store s !! next_slot s) eqn:E; [|done]. specialize (Hf _ (mk_is_Some _ _ E)). lia.
  - intros x. unfold connected. cbn. rewrite elem_of_app, Hin, list_elem_of_singleton. unfold connected.
    destruct (decide (x = next_slot s)) as [->|Hne]; [rewrite lookup_insert_eq; naive_solver|].
    rewrite lookup_insert_ne by done. naive_solver.
  - intros x. destruct (decide (x = next_slot s)) as [->|]; [lia|].
    rewrite lookup_insert_ne by done. intros H. specialize (Hf x H). lia.
  - intros x Hx. unfold connected. cbn. rewrite lookup_insert_ne by lia. naive_solver.
Qed.

(** Slots of the list [l] are disconnected and dropped from the signal's list. *)
Lemma drop_evolves s l :
  sig_inv s → (∀ x, x ∈ l → x ∈ slots_ s) →
  evolves s (ClearDisconnectedSlots (mkSignal (foldl Slot_Disconnect (store s) l) (next_slot s) (slots_ s)))
    (λ x, x ∈ l).
Proof.
  intros [Hn Hin Hf] Hl. set (t := mkSignal _ _ _).
  assert (∀ x, connected t x = true ↔ connected s x = true ∧ x ∉ l) as Hcon.
  { intros x. unfold connected, t. cbn. rewrite Slot_Disconnect_all.
    destruct (decide (x ∈ l)); destruct (store s !! x); cbn; naive_solver. }
  split; [split; cbn|split; [done|]].
  - by apply NoDup_filter.
  - intros x. rewrite list_elem_of_filter, Hin. change (connected (ClearDisconnectedSlots t) x) with (connected t x).
    rewrite Hcon. naive_solver.
  - intros x. rewrite Slot_Disconnect_all. destruct (decide _); [rewrite fmap_is_Some|]; apply Hf.
  - intros x Hx. change (connected (ClearDisconnectedSlots t) x) with (connected t x). split; [|apply Hcon].
    cbn. rewrite Slot_Disconnect_all. destruct (decide _); [|done]. by destruct (store s !! x).
Qed.

Lemma evolves_iff s s' (P Q : nat → Prop) :
  (∀ x, connected s x = true → P x ↔ Q x) → evolves s s' P → evolves s s' Q.
Proof.
  intros HPQ (Hi & Hn & H). split; [done|]. split; [done|]. intros x Hx. destruct (H x Hx) as [E Hc].
  split; [done|]. rewrite Hc. split; intros [Hs Hp]; (split; [done|]); rewrite HPQ in *; try done; by apply HPQ.
Qed.

Lemma slots_evolve_refl s : sig_inv s → evolves s s (λ _, False).
Proof. intros Hs. split; [done|]. split; [done|]. naive_solver. Qed.

(** The effect of an action. *)
Lemma act_evolves s a : sig_inv s → evolves s (act s a) (disconnects a).
Proof.
  intros Hs. pose proof Hs as [Hn Hin Hf]. destruct a as [cb|conn|]; cbn.
  - by apply connect_evolves.
  - destruct conn as [slot|]; cbn; [|by apply (evolves_iff _ _ (λ _, False)), slots_evolve_refl].
    unfold Disconnect. rewrite found_list by done. destruct (decide (slot ∈ slots_ s)) as [Hin'|Hnin].
    + cbn [fst]. eapply evolves_iff; [|apply (drop_evolves s [slot] Hs)]; [|set_solver].
      intros x _. rewrite list_elem_of_singleton. naive_solver.
    + cbn. eapply evolves_iff; [|destruct s; by apply slots_evolve_refl].
      intros x Hx. split; [done|]. intros [= ->]. by apply Hnin, Hin.
  - replace (DisconnectAllSlots s) with (ClearDisconnectedSlots
      (mkSignal (foldl Slot_Disconnect (store s) (slots_ s)) (next_slot s) (slots_ s))).
    + eapply evolves_iff; [|by apply drop_evolves]. intros x Hx. by rewrite Hin.
    + unfold ClearDisconnectedSlots, DisconnectAllSlots. cbn. f_equal. apply filter_none. intros x Hx.
      unfold connected. cbn. rewrite Slot_Disconnect_all, decide_True by done. by destruct (store s !! x).
Qed.

Lemma acts_evolves s l :
  sig_inv s → evolves s (acts s l) (λ slot, ∃ a, a ∈ l ∧ disconnects a slot).
Proof.
  revert s. induction l as [|a l IH]; intros s Hs; cbn.
  - apply (evolves_iff _ _ (λ _, False)); [set_solver|by apply slots_evolve_refl].
  - destruct (act_evolves s a Hs) as (H1 & Hle & H). destruct (IH (act s a) H1) as (H2 & Hle2 & H').
    split; [done|]. split; [unfold acts in *; lia|]. intros x Hx. destruct (H x Hx) as [E Hc].
    destruct (H' x ltac:(lia)) as [E' Hc']. split; [by rewrite <- E|]. unfold acts in *. rewrite Hc', Hc.
    set_solver.
Qed.

(** ** An emission *)

(** What can disconnect the slot of number [i] before its turn, from turn [i0] on. *)
Definition cut_off (env : nat → list Act) (i0 i : nat) (slot : nat) : Prop :=
  ∃ j a, i0 <= j <= i ∧ a ∈ env j ∧ disconnects a slot.

Lemma call_slots_spec env i0 local s :
  sig_inv s → (∀ x, x ∈ local → x < next_slot s) → NoDup local →
  let '(s', called) := call_slots env i0 local s in
  sig_inv s' ∧ called `sublist_of` local ∧
  ∀ i slot, local !! i = Some slot →
    (slot ∈ called ↔ connected s slot = true ∧ (cb_ <$> store s !! slot) ≠ Some None ∧
                     ¬ cut_off env i0 (i0 + i) slot).
Proof.
  revert i0 s. induction local as [|y local IH]; intros i0 s Hs Hlt Hnd; cbn.
  - split; [apply (acts_evolves s (env i0) Hs)|]. done.
  - apply NoDup_cons in Hnd as [Hy Hnd]. destruct (acts_evolves s (env i0) Hs) as (H1 & Hle & H).
    set (s1 := acts s (env i0)) in *.
    specialize (IH (S i0) s1 H1 ltac:(intros x Hx; specialize (Hlt x ltac:(set_solver)); lia) Hnd).
    destruct (call_slots env (S i0) local s1) as [s' called]. destruct IH as (Hs' & Hsub & IH).
    split; [done|]. split; [destruct (Slot_call s1 y); by constructor|].
    assert (∀ c x, x ≠ y → x ∈ (if (c : bool) then y :: called else called) ↔ x ∈ called) as Hif
      by (intros [] x Hx; [rewrite elem_of_cons; naive_solver|done]).
    intros [|i] slot Hi; cbn in Hi.
    + injection Hi as ->. rewrite Nat.add_0_r. destruct (H slot (Hlt slot ltac:(set_solver))) as [E Hc].
      assert (slot ∈ (if Slot_call s1 slot then slot :: called else called) ↔ Slot_call s1 slot = true) as ->.
      { destruct (Slot_call s1 slot); [set_solver|]. split; [|done]. intros Hx. exfalso. apply Hy.
        by eapply elem_of_sublist. }
      unfold cut_off, Slot_call. unfold connected in Hc at 1.
      destruct (store s1 !! slot) as [[cb con]|], (store s !! slot) as [[cb' con']|] eqn:E0; cbn in *;
        try done.
      * injection E as ->. rewrite andb_true_iff, Hc. split.
        -- intros [[? Hd] ?]. split; [done|]. split; [by destruct cb'|].
           intros (j & a & Hj & Ha & Hda). apply Hd. exists a. by replace j with i0 in Ha by lia.
        -- intros (? & Hcb & Hd). split; [split; [done|]|by destruct cb'].
           intros (a & Ha & Hda). apply Hd. exists i0, a. split; [lia|done].
      * split; [done|]. intros [Hx _]. unfold connected in Hx. by rewrite E0 in Hx.
    + assert (slot ≠ y) as Hne by (intros ->; apply Hy; by eapply list_elem_of_lookup_2).
      rewrite Hif, (IH i slot Hi) by done.
      destruct (H slot (Hlt slot ltac:(apply elem_of_cons; right; by eapply list_elem_of_lookup_2))) as [E Hc].
      rewrite E, Hc. unfold cut_off. split.
      * intros ((? & Hd) & ? & Hd'). split; [done|]. split; [done|]. intros (j & a & Hj & Ha & Hda).
        destruct (decide (j = i0)) as [->|]; [apply Hd; eauto|]. apply Hd'. exists j, a. split; [lia|done].
      * intros (? & ? & Hd). split; [split; [done|]|split; [done|]].
        -- intros (a & Ha & Hda). apply Hd. exists i0, a. split; [lia|done].
        -- intros (j & a & Hj & Ha & Hda). apply Hd. exists j, a. split; [lia|done].
Qed.

(** However the signal got its slots, an emission calls the slots of the signal at
    its start, each at most once and in the order they were connected; a slot is called
    exactly when it has a callback and nothing disconnected it before its turn, so a slot
    disconnected by an earlier callback is skipped and one connected during the emission
    waits for the next.  The list is left with exactly the connected slots. *)
Theorem signal_emission l env :
  let s := acts Signal_new l in
  let '(s', called) := emit env s in
  NoDup (slots_ s) ∧ called `sublist_of` slots_ s ∧
  (∀ i slot, slots_ s !! i = Some slot →
     (slot ∈ called ↔ (cb_ <$> store s !! slot) ≠ Some None ∧ ¬ cut_off env 0 i slot)) ∧
  ∀ slot, slot ∈ slots_ s' ↔ connected s' slot = true.
Proof.
  cbv zeta. destruct (acts_evolves Signal_new l sig_inv_new) as (Hs & _ & _).
  set (s := acts Signal_new l) in *. pose proof Hs as [Hn Hin Hf].
  assert (∀ x, x ∈ slots_ s → x < next_slot s) as Hlt.
  { intros x Hx. apply Hf. apply Hin in Hx. unfold connected in Hx. by destruct (store s !! x). }
  pose proof (call_slots_spec env 0 (slots_ s) s Hs Hlt Hn) as H. unfold emit.
  destruct (call_slots env 0 (slots_ s) s) as [s' called]. destruct H as (Hs' & Hsub & H).
  split; [done|]. split; [done|]. rewrite (Clear_id s' Hs'). split; [|apply Hs'].
  intros i slot Hi. rewrite (H i slot Hi). cbn. split; [naive_solver|]. intros [? ?].
  split; [|done]. apply Hin. by eapply list_elem_of_lookup_2.
Qed.

(** What an emission without interference calls: the callbacks of the list, in order. *)
Definition called_of (s : Signal) (l : list nat) : list F := omap (λ slot, store s !! slot ≫= cb_) l.
Definition live (s : Signal) : list F := called_of s (slots_ s).

Lemma emit_quiet s :
  sig_inv s → (emit (λ _, []) s).1 = s ∧ called_of s (emit (λ _, []) s).2 = live s.
Proof.
  intros Hs. unfold emit, live. pose proof (sg_slots s Hs) as Hin.
  assert (∀ i l, (∀ x, x ∈ l → connected s x = true) → (call_slots (λ _, []) i l s).1 = s ∧
    called_of s (call_slots (λ _, []) i l s).2 = called_of s l) as H.
  { intros i l. revert i. induction l as [|x l IH]; intros i Hl; cbn; [done|].
    destruct (IH (S i) ltac:(set_solver)) as [H1 H2].
    destruct (call_slots (λ _, []) (S i) l s) as [s' called]. cbn in *. split; [done|].
    specialize (Hl x ltac:(set_solver)). unfold connected in Hl. unfold Slot_call, called_of.
    destruct (store s !! x) as [[[c|] b]|] eqn:E; cbn in *; subst; cbn; rewrite ?E; cbn;
      unfold called_of in H2; by rewrite ?H2. }
  destruct (H 0 (slots_ s)) as [H1 H2]; [intros x; by apply Hin|].
  destruct (call_slots _ 0 (slots_ s) s) as [s' called]. cbn in *. subst s'. split; [by apply Clear_id|exact H2].
Qed.

(** The slot of a number not yet given is in no list. *)
Lemma slots_old s x : sig_inv s → x ∈ slots_ s → x < next_slot s.
Proof.
  intros Hs Hx. apply (sg_fresh s Hs). apply (sg_slots s Hs) in Hx. unfold connected in Hx.
  by destruct (store s !! x).
Qed.

Lemma live_connect s f : sig_inv s → live (Connect s (Some f)).1 = live s ++ [f].
Proof.
  intros Hs.
  assert (∀ l, (∀ x, x ∈ l → x < next_slot s) → called_of (Connect s (Some f)).1 l = called_of s l) as H.
  { induction l as [|x l IH]; intros Hl; cbn; [done|].
    rewrite lookup_insert_ne by (specialize (Hl x ltac:(set_solver)); lia).
    fold (called_of s l). by rewrite <- IH by set_solver. }
  unfold live at 1. cbn [Connect fst slots_]. unfold called_of. rewrite omap_app. cbn.
  rewrite lookup_insert_eq. cbn. f_equal. apply H. intros x. by apply slots_old.
Qed.

(** Disconnecting takes callbacks away and adds none. *)
Lemma live_disconnect s conn : live (Connection_Disconnect s conn).1 `sublist_of` live s.
Proof.
  assert (∀ found n sl l, called_of (mkSignal (foldl Slot_Disconnect (store s) found) n sl) l = called_of s l) as Hcb.
  { intros found n sl. induction l as [|x l IH]; cbn; [done|]. rewrite Slot_Disconnect_all. unfold called_of in IH. cbn in IH.
    rewrite IH. by destruct (decide (x ∈ found)), (store s !! x). }
  assert (∀ l1 l2, l1 `sublist_of` l2 → called_of s l1 `sublist_of` called_of s l2) as Hmono.
  { induction 1 as [|x l1 l2 _ IH|x l1 l2 _ IH]; cbn; [done| |];
      destruct (store s !! x ≫= cb_); [by constructor|done|by constructor|done]. }
  destruct conn as [slot|]; cbn [Connection_Disconnect fst]; [|done]. unfold Disconnect.
  destruct (filter _ (slots_ s)) as [|x found]; cbn [fst]; unfold live; [by rewrite Hcb|].
  cbn [ClearDisconnectedSlots slots_]. unfold called_of at 1. cbn [store ClearDisconnectedSlots].
  rewrite (Hcb (x :: found) 0 [] _ : omap _ _ = _). apply Hmono, sublist_filter.
Qed.
End signal.

Arguments Slot : clear implicits.
Arguments Signal : clear implicits.
Arguments Act : clear implicits.

(** Three slots; the second is disconnected by the first one's callback, a fourth is
    connected meanwhile. *)
Example signal_emission_example :
  let s := acts Signal_new [AConnect (Some 7); AConnect (Some 8); AConnect None; AConnect (Some 9)] in
  (emit (λ i, if decide (i = 1) then [ADisconnect (Some 1); AConnect (Some 5)] else []) s).2 = [0; 3].
Proof. vm_compute. reflexivity. Qed.
