(* ===== verification/ListenerHandler.v ===== *)
(** * ListenerHandler (cyber/transport/message/listener_handler.h)

    The listeners of one channel and message type: one signal for those who hear every
    sender, and one signal per sender for those who chose it.  [F] is the type of the
    callbacks.  Callbacks do not connect or disconnect here while they run (they would
    wait for the handler's lock), so an emission is one without interference. *)

From stdpp Require Import base numbers list gmap strings.
From Stdlib Require Import ZArith Lia.
From S2P Require Import Prelude Signal.

Open Scope nat_scope.

Section handler.
Context {F : Type}.

Record Handler := mkHandler {
  message_type : string;                        (* the template argument *)
  signal_ : Signal F;
  signal_conns_ : gmap Z Connection;            (* key: self_id *)
  signals_ : gmap Z (Signal F);                 (* key: oppo_id *)
  signals_conns_ : gmap Z (gmap Z Connection)
}.

Definition Handler_new (t : string) : Handler := mkHandler t Signal_new ∅ ∅ ∅.

(** [Connect(self_id, listener)]. *)
Definition Handler_Connect (h : Handler) (self_id : Z) (listener : F) : Handler :=
  let '(s, connection) := Connect (signal_ h) (Some listener) in
  if negb (IsConnected s connection)
  then mkHandler (message_type h) s (signal_conns_ h) (signals_ h) (signals_conns_ h)
  else mkHandler (message_type h) s (<[self_id := connection]> (signal_conns_ h)) (signals_ h) (signals_conns_ h).

(** [Connect(self_id, oppo_id, listener)]. *)
Definition Handler_Connect_oppo (h : Handler) (self_id oppo_id : Z) (listener : F) : Handler :=
  let signals := match signals_ h !! oppo_id with
                 | Some _ => signals_ h
                 | None => <[oppo_id := Signal_new]> (signals_ h)
                 end in
  let '(s, connection) := Connect (default Signal_new (signals !! oppo_id)) (Some listener) in
  let signals := <[oppo_id := s]> signals in
  if negb (IsConnected s connection)
  then mkHandler (message_type h) (signal_ h) (signal_conns_ h) signals (signals_conns_ h)
  else
    let conns := default ∅ (signals_conns_ h !! oppo_id) in
    mkHandler (message_type h) (signal_ h) (signal_conns_ h) signals
      (<[oppo_id := <[self_id := connection]> conns]> (signals_conns_ h)).

(** [Disconnect(self_id)]. *)
Definition Handler_Disconnect (h : Handler) (self_id : Z) : Handler :=
  match signal_conns_ h !! self_id with
  | None => h
  | Some conn =>
      mkHandler (message_type h) (Connection_Disconnect (signal_ h) conn).1 (delete self_id (signal_conns_ h))
        (signals_ h) (signals_conns_ h)
  end.

(** [Disconnect(self_id, oppo_id)]; the connection belongs to the sender's signal. *)
Definition Handler_Disconnect_oppo (h : Handler) (self_id oppo_id : Z) : Handler :=
  match signals_conns_ h !! oppo_id with
  | None => h
  | Some conns =>
      match conns !! self_id with
      | None => h
      | Some conn =>
          mkHandler (message_type h) (signal_ h) (signal_conns_ h)
            (alter (λ s, (Connection_Disconnect s conn).1) oppo_id (signals_ h))
            (<[oppo_id := delete self_id conns]> (signals_conns_ h))
      end
  end.

(** [Run(msg, msg_info)] for a message of this sender: the callbacks that run. *)
Definition Handler_Run (h : Handler) (sender : Z) : Handler * list F :=
  let '(s, called) := emit (λ _, []) (signal_ h) in
  let calls := called_of (signal_ h) called in
  let h := mkHandler (message_type h) s (signal_conns_ h) (signals_ h) (signals_conns_ h) in
  match signals_ h !! sender with
  | None => (h, calls)
  | Some s =>
      let '(s', called) := emit (λ _, []) s in
      (mkHandler (message_type h) (signal_ h) (signal_conns_ h) (<[sender := s']> (signals_ h)) (signals_conns_ h),
       calls ++ called_of s called)
  end.

(** ** Who listens *)

(** The callbacks for every sender, or for one. *)
Definition ears (h : Handler) (oppo : option Z) : list F :=
  match oppo with
  | None => live (signal_ h)
  | Some o => default [] (live <$> signals_ h !! o)
  end.

Definition handler_inv (h : Handler) : Prop :=
  sig_inv (signal_ h) ∧ map_Forall (λ _, sig_inv) (signals_ h).

Lemma handler_inv_new t : handler_inv (Handler_new t).
Proof. split; [apply sig_inv_new|apply map_Forall_empty]. Qed.

Lemma ears_new t oppo : ears (Handler_new t) oppo = [].
Proof. by destruct oppo. Qed.

(** Both [Connect]s. *)
Definition listen (h : Handler) (self_id : Z) (oppo : option Z) (f : F) : Handler :=
  match oppo with
  | None => Handler_Connect h self_id f
  | Some o => Handler_Connect_oppo h self_id o f
  end.

Definition stop_listening (h : Handler) (self_id : Z) (oppo : option Z) : Handler :=
  match oppo with
  | None => Handler_Disconnect h self_id
  | Some o => Handler_Disconnect_oppo h self_id o
  end.

Lemma connect_connected (s : Signal F) f : IsConnected (Connect s f).1 (Connect s f).2 = true.
Proof. unfold IsConnected, connected. cbn. by rewrite lookup_insert_eq. Qed.

Lemma listen_spec h self oppo f :
  handler_inv h →
  handler_inv (listen h self oppo f) ∧ message_type (listen h self oppo f) = message_type h ∧
  ∀ o, ears (listen h self oppo f) o = ears h o ++ if decide (o = oppo) then [f] else [].
Proof.
  intros [Hs Hm]. destruct oppo as [o|]; cbn [listen].
  - unfold Handler_Connect_oppo. set (sigs := match signals_ h !! o with Some _ => signals_ h | None => <[o := Signal_new]> (signals_ h) end).
    pose proof (connect_connected (default Signal_new (sigs !! o)) (Some f)) as Hc.
    assert (sigs !! o = Some (default Signal_new (signals_ h !! o))) as E.
    { unfold sigs. destruct (signals_ h !! o) eqn:E; [done|]. by rewrite lookup_insert_eq. }
    assert (∀ o', o' ≠ o → sigs !! o' = signals_ h !! o') as E'.
    { intros o' Hne. unfold sigs. destruct (signals_ h !! o); [done|]. by rewrite lookup_insert_ne. }
    rewrite E in Hc |- *. cbn [default from_option id] in *.
    set (s := default Signal_new (signals_ h !! o)) in *.
    assert (sig_inv s) as Hi.
    { unfold s. destruct (signals_ h !! o) eqn:Eo; [by apply (Hm o)|apply sig_inv_new]. }
    destruct (Connect s (Some f)) as [s' conn] eqn:Es. cbn in Hc. rewrite Hc. cbn.
    split; [split; [done|]|split; [done|]].
    + intros o' x Hx. cbn in Hx. destruct (decide (o' = o)) as [->|Hne].
      * rewrite lookup_insert_eq in Hx. injection Hx as <-.
        change s' with (s', conn).1. rewrite <- Es. by apply connect_evolves.
      * rewrite lookup_insert_ne, E' in Hx by done. by apply (Hm o').
    + intros [o'|]; cbn; [|by rewrite app_nil_r]. destruct (decide (o' = o)) as [->|Hne].
      * rewrite lookup_insert_eq, decide_True by done. cbn. change s' with (s', conn).1. rewrite <- Es.
        rewrite live_connect by done. f_equal. unfold s. by destruct (signals_ h !! o).
      * rewrite lookup_insert_ne, E' by done. rewrite decide_False by congruence. by rewrite app_nil_r.
  - unfold Handler_Connect. pose proof (connect_connected (signal_ h) (Some f)) as Hc.
    destruct (Connect (signal_ h) (Some f)) as [s' conn] eqn:Es. cbn in Hc. rewrite Hc. cbn.
    assert (s' = (Connect (signal_ h) (Some f)).1) as -> by (by rewrite Es).
    split; [split; [by apply connect_evolves|done]|split; [done|]].
    intros [o|]; cbn; [by rewrite app_nil_r|]. by apply live_connect.
Qed.

(** A message of [sender] runs its callbacks and changes nothing. *)
Lemma Handler_Run_spec h sender :
  handler_inv h → Handler_Run h sender = (h, ears h None ++ ears h (Some sender)).
Proof.
  intros [Hs Hm]. unfold Handler_Run. destruct (emit_quiet (signal_ h) Hs) as [E1 E2].
  destruct (emit (λ _, []) (signal_ h)) as [s called]. cbn [fst snd] in E1, E2 |- *. subst s. rewrite E2. cbn [signals_].
  unfold ears at 2. destruct (signals_ h !! sender) as [s|] eqn:E; cbn [fmap option_fmap option_map default from_option id];
    [|rewrite app_nil_r; by destruct h].
  destruct (emit_quiet s) as [E3 E4]; [by apply (Hm sender)|].
  destruct (emit (λ _, []) s) as [s' called']. cbn [fst snd] in E3, E4 |- *. subst s'. rewrite E4.
  cbn [signal_ message_type signal_conns_ signals_ signals_conns_]. rewrite insert_id by done. by destruct h.
Qed.

(** Whoever stops listening, nobody else is added and other senders are not concerned. *)
Lemma stop_listening_spec h self oppo :
  handler_inv h →
  handler_inv (stop_listening h self oppo) ∧ message_type (stop_listening h self oppo) = message_type h ∧
  ∀ o, ears (stop_listening h self oppo) o `sublist_of` ears h o ∧
       (o ≠ oppo → ears (stop_listening h self oppo) o = ears h o).
Proof.
  intros [Hs Hm].
  assert (∀ (s : Signal F) conn, sig_inv s → sig_inv (Connection_Disconnect s conn).1) as Hd
    by (intros s conn Hi; apply (act_evolves s (ADisconnect conn) Hi)).
  destruct oppo as [o|]; cbn [stop_listening].
  - unfold Handler_Disconnect_oppo. destruct (signals_conns_ h !! o) as [conns|]; [|by split_and!].
    destruct (conns !! self) as [conn|]; [|by split_and!]. cbn. split; [split; [done|]|split; [done|]].
    + intros o' x. cbn. rewrite lookup_alter. case_decide; [subst o'|apply Hm].
      destruct (signals_ h !! o) as [s|] eqn:E; [|done]. intros [= <-]. by eapply Hd, Hm.
    + intros [o'|]; cbn; [|done]. rewrite lookup_alter. case_decide as Hd'; [subst o'|done].
      split; [|done]. destruct (signals_ h !! o); [|done]. apply live_disconnect.
  - unfold Handler_Disconnect. destruct (signal_conns_ h !! self) as [conn|]; [|by split_and!].
    cbn. split; [split; [by apply Hd|done]|split; [done|]].
    intros [o|]; cbn; [done|]. split; [apply live_disconnect|done].
Qed.

End handler.

Arguments Handler : clear implicits.
