(* ===== verification/IntraDispatcher.v ===== *)
(** * Dispatching within a process (cyber/transport/dispatcher/dispatcher.h,
      intra_dispatcher.h)

    Two layers of handlers stand between a message and its listeners.  The dispatcher
    keeps one handler per channel, of the message type of the channel's first listener;
    what is connected to it are wrappers, which run the channel chain.  The chain keeps
    the listeners, by sender (or none), channel and message type, and converts a message
    for the types that are not its own by serializing and parsing it.

    A message type is the name [GetMessageName] answers, and a listener a number.  [M]
    are the messages of all types; [FullByteSize], [SerializeToHC] and [ParseFromHC] of
    cyber/message are arguments.  The table of handlers, an AtomicHashMap, is a finite
    map.  [sender] is the hash of the sender id in the message's information. *)

From stdpp Require Import base numbers list gmap strings.
From Stdlib Require Import ZArith Lia String.
From S2P Require Import Prelude Signal ListenerHandler.

Open Scope nat_scope.

(** ** std::map from message types to handlers, in the order of the names *)

Section typed_map.
Context {A : Type}.

Fixpoint tm_find (t : string) (l : list (string * A)) : option A :=
  match l with
  | [] => None
  | (t', a) :: l => if String.eqb t t' then Some a else tm_find t l
  end.

Fixpoint tm_replace (t : string) (a : A) (l : list (string * A)) : list (string * A) :=
  match l with
  | [] => []
  | (t', a') :: l => if String.eqb t t' then (t', a) :: l else (t', a') :: tm_replace t a l
  end.

Fixpoint tm_add (t : string) (a : A) (l : list (string * A)) : list (string * A) :=
  match l with
  | [] => [(t, a)]
  | (t', a') :: l' => if String.ltb t t' then (t, a) :: l else (t', a') :: tm_add t a l'
  end.

(** [m[t] = a]. *)
Definition tm_set (t : string) (a : A) (l : list (string * A)) : list (string * A) :=
  match tm_find t l with Some _ => tm_replace t a l | None => tm_add t a l end.

Definition tm_erase (t : string) (l : list (string * A)) : list (string * A) :=
  filter (λ x, x.1 ≠ t) l.
End typed_map.

(** ** Facts on the maps *)

Section typed_map_facts.
Context {A : Type}.
Implicit Types (l : list (string * A)).

Lemma tm_find_elem t l : is_Some (tm_find t l) ↔ t ∈ l.*1.
Proof.
  induction l as [|[t' a] l IH]; cbn; [split; [by intros [? ?]|set_solver]|].
  destruct (String.eqb_spec t t') as [->|]; [split; [set_solver|eauto]|]. rewrite IH. set_solver.
Qed.

Lemma tm_find_None t l : tm_find t l = None ↔ t ∉ l.*1.
Proof. rewrite <- tm_find_elem, eq_None_not_Some. done. Qed.

Lemma tm_add_keys t a l : (tm_add t a l).*1 ≡ₚ t :: l.*1.
Proof.
  induction l as [|[t' a'] l IH]; cbn; [done|]. destruct (String.ltb t t'); cbn; [done|].
  rewrite IH. constructor.
Qed.

Lemma tm_replace_keys t a l : (tm_replace t a l).*1 = l.*1.
Proof. induction l as [|[t' a'] l IH]; cbn; [done|]. destruct (String.eqb t t'); cbn; by rewrite ?IH. Qed.

Lemma tm_set_NoDup t a l : NoDup l.*1 → NoDup (tm_set t a l).*1.
Proof.
  unfold tm_set. destruct (tm_find t l) eqn:E; [by rewrite tm_replace_keys|].
  apply tm_find_None in E. rewrite tm_add_keys. by constructor.
Qed.

Lemma tm_find_set t a l t' : tm_find t' (tm_set t a l) = if decide (t' = t) then Some a else tm_find t' l.
Proof.
  unfold tm_set. destruct (tm_find t l) as [b|] eqn:E.
  - clear -E. revert E. induction l as [|[k x] l IH]; intros E; [done|]. cbn in *.
    destruct (String.eqb_spec t k) as [->|Hne]; cbn.
    + case_decide; [subst; by rewrite String.eqb_refl|]. by destruct (String.eqb_spec t' k).
    + destruct (String.eqb_spec t' k) as [->|]; [by rewrite decide_False|]. by apply IH.
  - clear -E. revert E. induction l as [|[k x] l IH]; intros E; cbn in *.
    { case_decide; destruct (String.eqb_spec t' t); naive_solver. }
    destruct (String.eqb_spec t k) as [->|Hne]; [done|]. specialize (IH E).
    destruct (String.ltb t k); cbn.
    + case_decide; destruct (String.eqb_spec t' t); naive_solver.
    + destruct (String.eqb_spec t' k) as [->|]; [by rewrite decide_False|done].
Qed.

Lemma tm_find_erase t l : tm_find t (tm_erase t l) = None.
Proof.
  apply tm_find_None. unfold tm_erase. intros [[? a] [-> Hx]]%list_elem_of_fmap.
  apply list_elem_of_filter in Hx as [Hx _]. done.
Qed.
End typed_map_facts.

(** ** The channel chain *)

(** Handlers by channel and message type. *)
Abbreviation Groups := (gmap Z (list (string * Handler nat))).

Record Chain := mkChain { handlers_ : Groups; oppo_handlers_ : gmap Z Groups }.
Definition Chain_new : Chain := mkChain ∅ ∅.

(** [GetHandler<MessageT>(channel_id, message_type, handlers)]: the handler, null if it is
    of another class, and whether it was created. *)
Definition Chain_GetHandler (g : Groups) (channel_id : Z) (t : string) : Groups * option (Handler nat) * bool :=
  let channel := default [] (g !! channel_id) in
  match tm_find t channel with
  | None =>
      let h := Handler_new t in
      (<[channel_id := tm_set t h channel]> g, Some h, true)
  | Some h =>
      (<[channel_id := channel]> g, if String.eqb (message_type h) t then Some h else None, false)
  end.

(** The handler that the map points to, after a call changed it. *)
Definition put (g : Groups) (channel_id : Z) (t : string) (h : Handler nat) : Groups :=
  <[channel_id := tm_set t h (default [] (g !! channel_id))]> g.

(** [RemoveHandler(channel_id, message_type, handlers)]. *)
Definition RemoveHandler (g : Groups) (channel_id : Z) (t : string) : Groups * option (Handler nat) :=
  match g !! channel_id with
  | None => (g, None)
  | Some channel =>
      let handler_base := tm_find t channel in
      let channel := tm_erase t channel in
      (match channel with [] => delete channel_id g | _ => <[channel_id := channel]> g end, handler_base)
  end.

(** [AddListener(self_id, channel_id, ..)] and [AddListener(self_id, oppo_id, channel_id, ..)]:
    whether the handler was created. *)
Definition Chain_AddListener (ch : Chain) (self_id channel_id : Z) (t : string) (listener : nat) : Chain * bool :=
  match Chain_GetHandler (handlers_ ch) channel_id t with
  | (g, None, created) => (mkChain g (oppo_handlers_ ch), created)
  | (g, Some h, created) =>
      (mkChain (put g channel_id t (Handler_Connect h self_id listener)) (oppo_handlers_ ch), created)
  end.

Definition Chain_AddListener_oppo (ch : Chain) (self_id oppo_id channel_id : Z) (t : string) (listener : nat)
  : Chain * bool :=
  let handlers := default ∅ (oppo_handlers_ ch !! oppo_id) in
  match Chain_GetHandler handlers channel_id t with
  | (g, None, created) => (mkChain (handlers_ ch) (<[oppo_id := g]> (oppo_handlers_ ch)), created)
  | (g, Some h, created) =>
      (mkChain (handlers_ ch)
         (<[oppo_id := put g channel_id t (Handler_Connect_oppo h self_id oppo_id listener)]> (oppo_handlers_ ch)),
       created)
  end.

(** [RemoveListener(self_id, channel_id, ..)] and with [oppo_id].  The handler that was
    taken out is disconnected from and forgotten. *)
Definition Chain_RemoveListener (ch : Chain) (self_id channel_id : Z) (t : string) : Chain :=
  mkChain (RemoveHandler (handlers_ ch) channel_id t).1 (oppo_handlers_ ch).

Definition Chain_RemoveListener_oppo (ch : Chain) (self_id oppo_id channel_id : Z) (t : string) : Chain :=
  match oppo_handlers_ ch !! oppo_id with
  | None => ch
  | Some handlers =>
      let g := (RemoveHandler handlers channel_id t).1 in
      mkChain (handlers_ ch)
        (if bool_decide (g = ∅) then delete oppo_id (oppo_handlers_ ch) else <[oppo_id := g]> (oppo_handlers_ ch))
  end.

Section messages.
Context {M : Type}.
Context (FullByteSize : M → Z) (SerializeToHC : M → option (list Z)) (ParseFromHC : string → list Z → option M).

(** A call of a listener: the type it is for, the listener, the message. *)
Definition Delivery : Type := string * nat * M.
Definition calls (t : string) (m : M) (l : list nat) : list Delivery := (λ f, (t, f, m)) <$> l.

(** [RunFromString(str, msg_info)]. *)
Definition RunFromString (h : Handler nat) (str : list Z) (sender : Z) : list Delivery :=
  match ParseFromHC (message_type h) str with
  | Some m => calls (message_type h) m (Handler_Run h sender).2
  | None => []
  end.

(** [Run(channel_id, message_type, handlers, ..)]: the loop, with the string serialized
    so far. *)
Fixpoint run_handlers (t : string) (l : list (string * Handler nat)) (m : M) (sender : Z) (msg : list Z)
  : list Delivery :=
  match l with
  | [] => []
  | (t', h) :: l =>
      if String.eqb t t' then calls t m (Handler_Run h sender).2 ++ run_handlers t l m sender msg
      else
        let msg := match msg with
                   | [] => if (FullByteSize m <? 0)%Z then [] else default [] (SerializeToHC m)
                   | _ => msg
                   end in
        match msg with
        | [] => run_handlers t l m sender []
        | _ => RunFromString h msg sender ++ run_handlers t l m sender msg
        end
  end.

Definition run_groups (g : Groups) (channel_id : Z) (t : string) (m : M) (sender : Z) : list Delivery :=
  match g !! channel_id with
  | None => []
  | Some channel => run_handlers t channel m sender []
  end.

(** [Run(self_id, ..)] and [Run(self_id, oppo_id, ..)]. *)
Definition Chain_Run (ch : Chain) (oppo : option Z) (channel_id : Z) (t : string) (m : M) (sender : Z)
  : list Delivery :=
  match oppo with
  | None => run_groups (handlers_ ch) channel_id t m sender
  | Some oppo_id =>
      match oppo_handlers_ ch !! oppo_id with
      | None => []
      | Some handlers => run_groups handlers channel_id t m sender
      end
  end.

(** ** The dispatcher *)

(** The closure [listener_wrapper]: what it captures. *)
Record Wrapper := mkWrapper { w_oppo : option Z; w_channel : Z; w_type : string }.

Record IntraDispatcher := mkIntra {
  is_shutdown_ : bool;
  msg_listeners_ : gmap Z (Handler Wrapper);
  chain_ : Chain
}.
Definition IntraDispatcher_new : IntraDispatcher := mkIntra false ∅ Chain_new.
Definition Shutdown (d : IntraDispatcher) : IntraDispatcher := mkIntra true (msg_listeners_ d) (chain_ d).
Definition HasChannel (d : IntraDispatcher) (channel_id : Z) : bool :=
  bool_decide (is_Some (msg_listeners_ d !! channel_id)).

(** [OnMessage<MessageT>(channel_id, message, message_info)]: the listeners called. *)
Definition OnMessage (d : IntraDispatcher) (channel_id : Z) (t : string) (m : M) (sender : Z) : list Delivery :=
  if is_shutdown_ d then []
  else
    match msg_listeners_ d !! channel_id with
    | None => []
    | Some h =>
        let run (m : M) (w : Wrapper) := Chain_Run (chain_ d) (w_oppo w) (w_channel w) (w_type w) m sender in
        if String.eqb (message_type h) t then (Handler_Run h sender).2 ≫= run m
        else if (FullByteSize m <? 0)%Z then []
        else
          match SerializeToHC m with
          | None => []
          | Some str =>
              match ParseFromHC (message_type h) str with
              | Some m => (Handler_Run h sender).2 ≫= run m
              | None => []
              end
          end
    end.

(** [GetHandler<MessageT>(channel_id)]: null if the channel's handler is of another type. *)
Definition GetHandler (ls : gmap Z (Handler Wrapper)) (channel_id : Z) (t : string)
  : gmap Z (Handler Wrapper) * option (Handler Wrapper) :=
  match ls !! channel_id with
  | Some h => (ls, if String.eqb (message_type h) t then Some h else None)
  | None => (<[channel_id := Handler_new t]> ls, Some (Handler_new t))
  end.

(** Both [AddListener]s, [oppo] being [opposite_attr.id()] where there is one. *)
Definition AddListener (d : IntraDispatcher) (self_id channel_id : Z) (oppo : option Z) (t : string)
    (listener : nat) : IntraDispatcher :=
  if is_shutdown_ d then d
  else
    let '(ch, created) :=
      match oppo with
      | None => Chain_AddListener (chain_ d) self_id channel_id t listener
      | Some o => Chain_AddListener_oppo (chain_ d) self_id o channel_id t listener
      end in
    let '(ls, handler) := GetHandler (msg_listeners_ d) channel_id t in
    match handler with
    | Some h =>
        if created
        then mkIntra false (<[channel_id := listen h self_id oppo (mkWrapper oppo channel_id t)]> ls) ch
        else mkIntra false ls ch
    | None => mkIntra false ls ch
    end.

(** Both [RemoveListener]s, [Dispatcher::RemoveListener] included. *)
Definition RemoveListener (d : IntraDispatcher) (self_id channel_id : Z) (oppo : option Z) (t : string)
  : IntraDispatcher :=
  if is_shutdown_ d then d
  else
    mkIntra false
      (match msg_listeners_ d !! channel_id with
       | Some h => <[channel_id := stop_listening h self_id oppo]> (msg_listeners_ d)
       | None => msg_listeners_ d
       end)
      (match oppo with
       | None => Chain_RemoveListener (chain_ d) self_id channel_id t
       | Some o => Chain_RemoveListener_oppo (chain_ d) self_id o channel_id t
       end).

(** ** Histories of listeners *)

Record Reg := mkReg {
  r_self : Z; r_channel : Z; r_oppo : option Z; r_type : string; r_listener : nat
}.
Definition add_reg (d : IntraDispatcher) (r : Reg) : IntraDispatcher :=
  AddListener d (r_self r) (r_channel r) (r_oppo r) (r_type r) (r_listener r).
Definition adds (l : list Reg) : IntraDispatcher := foldl add_reg IntraDispatcher_new l.

(** The listeners for a sender (or all), channel and type, in the order they came. *)
Definition heard (l : list Reg) (oppo : option Z) (c : Z) (t : string) : list nat :=
  r_listener <$> filter (λ r, r_oppo r = oppo ∧ r_channel r = c ∧ r_type r = t) l.
(** The type of the channel's first listener. *)
Definition first_type (l : list Reg) (c : Z) : option string :=
  r_type <$> head (filter (λ r, r_channel r = c) l).

(** A message as the channel's first type, and from there as type [t]. *)
Definition as_first (t t0 : string) (m : M) : option M :=
  if String.eqb t0 t then Some m
  else if (FullByteSize m <? 0)%Z then None else SerializeToHC m ≫= ParseFromHC t0.
Definition as_type (t0 : string) (m : M) (t : string) : option M :=
  if String.eqb t0 t then Some m
  else if (FullByteSize m <? 0)%Z then None
  else match SerializeToHC m with None | Some [] => None | Some str => ParseFromHC t str end.

(** ** What the dispatcher and its chain hold *)

Definition group (ch : Chain) (oppo : option Z) : Groups :=
  match oppo with None => handlers_ ch | Some o => default ∅ (oppo_handlers_ ch !! o) end.

(** A channel's handlers of the group [og]. *)
Definition chan_ok (regs : list Reg) (og : option Z) (c : Z) (l : list (string * Handler nat)) : Prop :=
  NoDup l.*1 ∧ ∀ t,
  match tm_find t l with
  | None => heard regs og c t = []
  | Some h => handler_inv h ∧ message_type h = t ∧ heard regs og c t ≠ [] ∧
      ∀ og', ears h og' = if decide (og' = og) then heard regs og c t else []
  end.

(** The dispatcher's handler of a channel. *)
Definition main_ok (regs : list Reg) (c : Z) (oh : option (Handler Wrapper)) : Prop :=
  match oh with
  | None => first_type regs c = None
  | Some h => first_type regs c = Some (message_type h) ∧ handler_inv h ∧
      ∀ og, ears h og = match heard regs og c (message_type h) with
                        | [] => []
                        | _ => [mkWrapper og c (message_type h)]
                        end
  end.

Record rep (regs : list Reg) (d : IntraDispatcher) : Prop := {
  rp_up : is_shutdown_ d = false;
  rp_chain : ∀ og c, chan_ok regs og c (default [] (group (chain_ d) og !! c));
  rp_main : ∀ c, main_ok regs c (msg_listeners_ d !! c)
}.

Lemma heard_snoc regs r og c t :
  heard (regs ++ [r]) og c t =
  heard regs og c t ++ if decide (r_oppo r = og ∧ r_channel r = c ∧ r_type r = t) then [r_listener r] else [].
Proof.
  unfold heard. rewrite filter_app, fmap_app. f_equal. rewrite filter_cons. by case_decide.
Qed.

Lemma first_type_snoc regs r c :
  first_type (regs ++ [r]) c =
  match first_type regs c with
  | Some t => Some t
  | None => if decide (r_channel r = c) then Some (r_type r) else None
  end.
Proof.
  unfold first_type. rewrite filter_app. destruct (filter _ regs) eqn:E; [|done].
  cbn [app]. rewrite filter_cons. by case_decide.
Qed.

Lemma first_type_heard regs c og t : first_type regs c = None → heard regs og c t = [].
Proof.
  unfold first_type, heard. intros H. destruct (filter (λ r, r_channel r = c) regs) as [|x l] eqn:E; [|done].
  rewrite filter_none; [done|]. intros r Hr (_ & Hc & _).
  assert (r ∈ filter (λ r, r_channel r = c) regs) as Hx by (by apply list_elem_of_filter).
  rewrite E in Hx. set_solver.
Qed.

(** The chain with a listener more, whichever kind. *)
Definition chain_add (ch : Chain) (r : Reg) : Chain * bool :=
  match r_oppo r with
  | None => Chain_AddListener ch (r_self r) (r_channel r) (r_type r) (r_listener r)
  | Some o => Chain_AddListener_oppo ch (r_self r) o (r_channel r) (r_type r) (r_listener r)
  end.

(** One group with a listener more. *)
Definition group_add (g : Groups) (r : Reg) : Groups * bool :=
  match Chain_GetHandler g (r_channel r) (r_type r) with
  | (g, None, created) => (g, created)
  | (g, Some h, created) =>
      (put g (r_channel r) (r_type r) (listen h (r_self r) (r_oppo r) (r_listener r)), created)
  end.

Lemma chain_add_group ch r :
  (chain_add ch r).2 = (group_add (group ch (r_oppo r)) r).2 ∧
  ∀ og, group (chain_add ch r).1 og =
    if decide (og = r_oppo r) then (group_add (group ch (r_oppo r)) r).1 else group ch og.
Proof.
  unfold chain_add, group_add, Chain_AddListener, Chain_AddListener_oppo.
  destruct (r_oppo r) as [o|]; cbn [group listen].
  - destruct (Chain_GetHandler _ _ _) as [[g [h|]] created]; (split; [done|]);
      intros [o'|]; cbn; try done; rewrite ?lookup_insert;
      (destruct (decide (o = o')) as [->|]; [by rewrite decide_True|by rewrite decide_False by congruence]).
  - destruct (Chain_GetHandler _ _ _) as [[g [h|]] created]; (split; [done|]); by intros [o'|].
Qed.

Lemma group_add_chan regs g r c :
  chan_ok regs (r_oppo r) (r_channel r) (default [] (g !! r_channel r)) →
  (group_add g r).2 = bool_decide (heard regs (r_oppo r) (r_channel r) (r_type r) = []) ∧
  chan_ok (regs ++ [r]) (r_oppo r) (r_channel r) (default [] ((group_add g r).1 !! r_channel r)) ∧
  (c ≠ r_channel r → default [] ((group_add g r).1 !! c) = default [] (g !! c)).
Proof.
  intros [Hn Ht]. unfold group_add, Chain_GetHandler, put. set (l := default [] (g !! r_channel r)) in *.
  assert (∃ h, handler_inv h ∧ message_type h = r_type r ∧
    (∀ og', ears h og' = if decide (og' = r_oppo r) then heard regs (r_oppo r) (r_channel r) (r_type r) else []) ∧
    (heard regs (r_oppo r) (r_channel r) (r_type r) = [] ↔ tm_find (r_type r) l = None) ∧
    from_option id (Handler_new (r_type r)) (tm_find (r_type r) l) = h) as (h & Hi & Hty & He & Hnone & Hh).
  { specialize (Ht (r_type r)). destruct (tm_find (r_type r) l) as [h|].
    - destruct Ht as (? & ? & ? & ?). by exists h.
    - exists (Handler_new (r_type r)). split; [apply handler_inv_new|]. split; [done|]. split; [|done].
      intros og'. rewrite ears_new, Ht. by case_decide. }
  destruct (listen_spec h (r_self r) (r_oppo r) (r_listener r) Hi) as (Hi' & Hty' & He').
  set (h' := listen h (r_self r) (r_oppo r) (r_listener r)) in *.
  assert (chan_ok (regs ++ [r]) (r_oppo r) (r_channel r) (tm_set (r_type r) h' l)) as Hok.
  { split; [by apply tm_set_NoDup|]. intros t. rewrite tm_find_set, heard_snoc. case_decide as Hd.
    - subst t. rewrite decide_True by done. split; [done|]. split; [congruence|]. split; [by destruct (heard regs _ _ _)|].
      intros og'. rewrite He', He. case_decide; [done|]. done.
    - rewrite decide_False by (intros (_ & _ & ?); congruence). rewrite app_nil_r. apply Ht. }
  destruct (tm_find (r_type r) l) as [h0|] eqn:E; cbn in Hh; subst.
  - rewrite (proj2 (String.eqb_eq _ _) Hty). cbn. rewrite lookup_insert_eq. cbn. split_and!.
    + symmetry. apply bool_decide_eq_false. intros Hx. by apply Hnone in Hx.
    + rewrite lookup_insert_eq. cbn. exact Hok.
    + intros Hc. by rewrite !lookup_insert_ne by done.
  - cbn. rewrite lookup_insert_eq. cbn. split_and!.
    + symmetry. apply bool_decide_eq_true. by apply Hnone.
    + rewrite lookup_insert_eq. cbn. destruct Hok as [_ Hok]. split; [by apply tm_set_NoDup, tm_set_NoDup|].
      intros t. specialize (Hok t). rewrite !tm_find_set in *. by destruct (decide (t = r_type r)).
    + intros Hc. by rewrite !lookup_insert_ne by done.
Qed.

Lemma chan_ok_other regs r og c l :
  chan_ok regs og c l → og ≠ r_oppo r ∨ c ≠ r_channel r → chan_ok (regs ++ [r]) og c l.
Proof.
  intros [Hn Ht] Hne. split; [done|]. intros t. rewrite heard_snoc, decide_False by naive_solver.
  rewrite app_nil_r. apply Ht.
Qed.

Lemma chain_add_ok regs ch r :
  (∀ og c, chan_ok regs og c (default [] (group ch og !! c))) →
  (chain_add ch r).2 = bool_decide (heard regs (r_oppo r) (r_channel r) (r_type r) = []) ∧
  ∀ og c, chan_ok (regs ++ [r]) og c (default [] (group (chain_add ch r).1 og !! c)).
Proof.
  intros H. destruct (chain_add_group ch r) as [-> Hg].
  destruct (group_add_chan regs (group ch (r_oppo r)) r 0%Z (H _ _)) as (-> & Hok & _). split; [done|].
  intros og c. rewrite Hg. case_decide as Ho; [subst og|by apply chan_ok_other; [apply H|left]].
  destruct (decide (c = r_channel r)) as [->|Hc]; [done|].
  rewrite (proj2 (proj2 (group_add_chan regs (group ch (r_oppo r)) r c (H _ _))) Hc).
  apply chan_ok_other; [apply H|by right].
Qed.

Lemma main_ok_other regs r c oh : main_ok regs c oh → r_channel r ≠ c → main_ok (regs ++ [r]) c oh.
Proof.
  intros H Hc. unfold main_ok in *. rewrite first_type_snoc, decide_False by done.
  destruct oh as [h|]; [|by rewrite H]. destruct H as (-> & Hi & He). split; [done|]. split; [done|].
  intros og. rewrite heard_snoc, decide_False, app_nil_r by naive_solver. apply He.
Qed.

Lemma main_ok_add regs ls r ls' oh :
  main_ok regs (r_channel r) (ls !! r_channel r) → GetHandler ls (r_channel r) (r_type r) = (ls', oh) →
  let created := bool_decide (heard regs (r_oppo r) (r_channel r) (r_type r) = []) in
  (∀ c, c ≠ r_channel r → ls' !! c = ls !! c) ∧
  match oh with
  | Some h => main_ok (regs ++ [r]) (r_channel r)
      (if created then Some (listen h (r_self r) (r_oppo r) (mkWrapper (r_oppo r) (r_channel r) (r_type r)))
       else ls' !! r_channel r)
  | None => main_ok (regs ++ [r]) (r_channel r) (ls' !! r_channel r)
  end.
Proof.
  intros H E. cbv zeta. unfold GetHandler in E. destruct (ls !! r_channel r) as [h|] eqn:El.
  - destruct H as (Hf & Hi & He). unfold main_ok. rewrite first_type_snoc, Hf.
    destruct (String.eqb_spec (message_type h) (r_type r)) as [Hty|Hty]; simplify_eq; (split; [done|]).
    + rewrite El. case_bool_decide as Hh.
      * destruct (listen_spec h (r_self r) (r_oppo r) (mkWrapper (r_oppo r) (r_channel r) (r_type r)) Hi)
          as (Hi' & -> & He'). split; [done|]. split; [done|]. intros og. rewrite He', He, Hty, heard_snoc.
        destruct (decide (og = r_oppo r)) as [->|].
        -- by rewrite Hh, decide_True.
        -- by rewrite decide_False, !app_nil_r by naive_solver.
      * split; [done|]. split; [done|]. intros og. rewrite He, Hty, heard_snoc.
        case_decide as Hd; [|by rewrite app_nil_r]. destruct Hd as (<- & _ & _).
        by destruct (heard regs _ _ _).
    + rewrite El. split; [done|]. split; [done|]. intros og. rewrite He, heard_snoc.
      rewrite decide_False, app_nil_r by naive_solver. done.
  - simplify_eq. split; [intros c Hc; by rewrite lookup_insert_ne|].
    rewrite bool_decide_eq_true_2 by (by apply first_type_heard). unfold main_ok in *.
    destruct (listen_spec (Handler_new (r_type r)) (r_self r) (r_oppo r) (mkWrapper (r_oppo r) (r_channel r) (r_type r))
      (handler_inv_new _)) as (Hi' & -> & He'). rewrite first_type_snoc, H, decide_True by done.
    split; [done|]. split; [done|]. intros og. cbn [message_type Handler_new]. rewrite He', ears_new, heard_snoc.
    rewrite first_type_heard by done. cbn [app]. destruct (decide (og = r_oppo r)) as [->|].
    + by rewrite decide_True.
    + by rewrite decide_False by naive_solver.
Qed.

Lemma rep_add regs d r : rep regs d → rep (regs ++ [r]) (add_reg d r).
Proof.
  intros [Hu Hc Hm]. unfold add_reg, AddListener. rewrite Hu.
  change (match r_oppo r with
    | Some o => Chain_AddListener_oppo (chain_ d) (r_self r) o (r_channel r) (r_type r) (r_listener r)
    | None => Chain_AddListener (chain_ d) (r_self r) (r_channel r) (r_type r) (r_listener r) end)
    with (chain_add (chain_ d) r).
  destruct (chain_add_ok regs (chain_ d) r Hc) as [Hcr Hc'].
  destruct (chain_add (chain_ d) r) as [ch created]. cbn in Hcr, Hc'. subst created.
  destruct (GetHandler (msg_listeners_ d) (r_channel r) (r_type r)) as [ls oh] eqn:E.
  destruct (main_ok_add regs (msg_listeners_ d) r ls oh (Hm _) E) as [Hls Hnew].
  assert (∀ c, c ≠ r_channel r → main_ok (regs ++ [r]) c (ls !! c)) as Hold
    by (intros c Hne; rewrite Hls by done; by apply main_ok_other).
  destruct oh as [h|]; [case_bool_decide|]; (split; [done|done|]); intros c; cbn;
    destruct (decide (c = r_channel r)) as [->|Hne]; rewrite ?lookup_insert_eq, ?lookup_insert_ne by done; auto.
Qed.

Lemma rep_adds regs : rep regs (adds regs).
Proof.
  induction regs as [|r regs IH] using rev_ind.
  - split; [done| |done]. intros og c. replace (group (chain_ (adds [])) og !! c) with (None : option (list (string * Handler nat)))
      by (by destruct og). split; [constructor|done].
  - unfold adds. rewrite foldl_snoc. by apply rep_add.
Qed.

(** ** A message on its way *)

Lemma filter_calls (t t' : string) (m : M) (l : list nat) :
  filter (λ x : Delivery, x.1.1 = t') (calls t m l) = if decide (t = t') then calls t m l else [].
Proof.
  unfold calls. case_decide as Hd.
  - apply filter_all. intros x Hx. apply list_elem_of_fmap in Hx as (f & -> & _). done.
  - apply filter_none. intros x Hx. apply list_elem_of_fmap in Hx as (f & -> & _). done.
Qed.

(** Handlers that are filed under their type. *)
Definition typed (l : list (string * Handler nat)) : Prop :=
  NoDup l.*1 ∧ Forall (λ x, message_type x.2 = x.1 ∧ handler_inv x.2) l.

Lemma tm_find_in {A} t (a : A) l : NoDup l.*1 → tm_find t l = Some a ↔ (t, a) ∈ l.
Proof.
  induction l as [|[t' a'] l IH]; cbn; [split; [done|set_solver]|]. intros [Hx Hn]%NoDup_cons.
  rewrite elem_of_cons. destruct (String.eqb_spec t t') as [->|Hne].
  - split; [intros [= ->]; by left|]. intros [[= ->]|Hin]; [done|]. exfalso. apply Hx.
    by apply (list_elem_of_fmap_2 fst _ (t', a)).
  - rewrite IH by done. naive_solver.
Qed.

(** A chain run hands every handler the message in the handler's type. *)
Lemma run_handlers_type t0 l m sender msg t :
  typed l →
  let hc := if (FullByteSize m <? 0)%Z then [] else default [] (SerializeToHC m) in
  msg = [] ∨ msg = hc →
  filter (λ x : Delivery, x.1.1 = t) (run_handlers t0 l m sender msg) =
  match tm_find t l, as_type t0 m t with
  | Some h, Some m' => calls t m' (ears h None ++ ears h (Some sender))
  | _, _ => []
  end.
Proof.
  intros [Hn Hl] hc. revert msg. induction l as [|[t' h] l IH]; intros msg Hmsg; [done|]. cbn [run_handlers tm_find].
  apply NoDup_cons in Hn as [Hx Hn]. apply Forall_cons in Hl as [[Hty Hi] Hl]. cbn in Hty, Hi, Hx.
  specialize (IH Hn Hl). rewrite Handler_Run_spec by done. cbn [snd].
  assert (t = t' → tm_find t l = None) as Hnone by (intros ->; by apply tm_find_None).
  destruct (String.eqb_spec t0 t') as [->|H0].
  - rewrite filter_app, filter_calls, IH by done. destruct (String.eqb_spec t t') as [->|Hne].
    + rewrite decide_True, Hnone by done. unfold as_type. rewrite String.eqb_refl. by rewrite app_nil_r.
    + by rewrite decide_False by congruence.
  - set (msg' := match msg with [] => if (FullByteSize m <? 0)%Z then [] else default [] (SerializeToHC m) | _ => msg end).
    assert (msg' = hc) as -> by (unfold msg'; destruct Hmsg as [->| ->]; [done|by destruct hc eqn:E]).
    assert (as_type t0 m t' = match hc with [] => None | _ => ParseFromHC t' hc end) as Hat.
    { unfold as_type, hc. rewrite (proj2 (String.eqb_neq _ _) H0). destruct (FullByteSize m <? 0)%Z; [done|].
      by destruct (SerializeToHC m) as [[|]|]. }
    destruct hc as [|b hc'] eqn:E.
    + rewrite IH by (by left). destruct (String.eqb_spec t t') as [->|Hne]; [|done]. by rewrite Hnone, Hat.
    + rewrite filter_app, IH by (by right). unfold RunFromString. rewrite Hty, <- Hat, Handler_Run_spec by done. cbn [snd].
      destruct (String.eqb_spec t t') as [->|Hne].
      * rewrite Hnone by done. destruct (as_type t0 m t') as [m'|]; [|done].
        rewrite filter_calls, decide_True by done. by rewrite app_nil_r.
      * destruct (as_type t0 m t') as [m'|]; [|done]. by rewrite filter_calls, decide_False by congruence.
Qed.

Lemma chan_ok_typed regs og c l : chan_ok regs og c l → typed l.
Proof.
  intros [Hn Ht]. split; [done|]. apply Forall_forall. intros [t h] Hx. apply (tm_find_in t h l Hn) in Hx.
  specialize (Ht t). rewrite Hx in Ht. cbn. naive_solver.
Qed.

Lemma Chain_Run_group ch og c t m sender :
  Chain_Run ch og c t m sender = run_handlers t (default [] (group ch og !! c)) m sender [].
Proof.
  unfold Chain_Run, group, run_groups. destruct og as [o|]; [|by destruct (handlers_ ch !! c)].
  destruct (oppo_handlers_ ch !! o) as [g|]; cbn; [by destruct (g !! c)|by rewrite lookup_empty].
Qed.

(** The run of one group. *)
Lemma Chain_Run_type regs d og c t0 m sender t :
  rep regs d → og = None ∨ og = Some sender →
  filter (λ x : Delivery, x.1.1 = t) (Chain_Run (chain_ d) og c t0 m sender) =
  match as_type t0 m t with Some m' => calls t m' (heard regs og c t) | None => [] end.
Proof.
  intros [_ Hc _] Hog. rewrite Chain_Run_group. specialize (Hc og c).
  rewrite run_handlers_type by (by eauto using chan_ok_typed).
  destruct Hc as [_ Hc]. specialize (Hc t). destruct (tm_find t _) as [h|].
  - destruct Hc as (_ & _ & _ & He). destruct (as_type t0 m t); [|done]. rewrite !He. f_equal.
    destruct Hog as [->| ->]; [by rewrite decide_True, decide_False, app_nil_r|].
    by rewrite decide_False, decide_True.
  - rewrite Hc. by destruct (as_type t0 m t).
Qed.

(** What a process's listeners hear: however many were added to however many
    channels, a message is converted to the type [t0] of its channel's first listener,
    if it is of another, and handed, for each type [t], exactly once to each listener of
    that type on the channel, those for every sender first, then those for the message's
    sender, in the order they were added and in their own type; listeners for a sender
    (or for all) are left out where none of them is of the type [t0]. *)
Theorem intra_delivers regs c t m sender :
  match first_type regs c with
  | None => OnMessage (adds regs) c t m sender = []
  | Some t0 => ∀ t',
      filter (λ x : Delivery, x.1.1 = t') (OnMessage (adds regs) c t m sender) =
      match as_first t t0 m ≫= λ m0, as_type t0 m0 t' with
      | Some m' =>
          calls t' m'
            ((if decide (heard regs None c t0 = []) then [] else heard regs None c t') ++
             (if decide (heard regs (Some sender) c t0 = []) then [] else heard regs (Some sender) c t'))
      | None => []
      end
  end.
Proof.
  pose proof (rep_adds regs) as Hr. set (d := adds regs) in *. pose proof (rp_main _ _ Hr c) as Hm.
  unfold OnMessage. rewrite (rp_up _ _ Hr). unfold main_ok in Hm.
  destruct (msg_listeners_ d !! c) as [h|]; [|by rewrite Hm]. destruct Hm as (Hf & Hi & He). rewrite Hf.
  intros t'. set (t0 := message_type h) in *. rewrite Handler_Run_spec by done. cbn [snd]. rewrite !He.
  assert (∀ m0, filter (λ x : Delivery, x.1.1 = t')
      ((match heard regs None c t0 with [] => [] | _ => [mkWrapper None c t0] end ++
        match heard regs (Some sender) c t0 with [] => [] | _ => [mkWrapper (Some sender) c t0] end) ≫=
       λ w, Chain_Run (chain_ d) (w_oppo w) (w_channel w) (w_type w) m0 sender) =
    match as_type t0 m0 t' with
    | Some m' => calls t' m'
        ((if decide (heard regs None c t0 = []) then [] else heard regs None c t') ++
         (if decide (heard regs (Some sender) c t0 = []) then [] else heard regs (Some sender) c t'))
    | None => []
    end) as Hrun.
  { intros m0.
    pose proof (Chain_Run_type regs d None c t0 m0 sender t' Hr ltac:(by left)) as H1.
    pose proof (Chain_Run_type regs d (Some sender) c t0 m0 sender t' Hr ltac:(by right)) as H2.
    destruct (heard regs None c t0), (heard regs (Some sender) c t0); cbn [app mbind list_bind w_oppo w_channel w_type];
      rewrite ?app_nil_r, ?filter_app, ?H1, ?H2; destruct (as_type t0 m0 t'); try done;
      repeat case_decide; try done; unfold calls; by rewrite ?fmap_app, ?app_nil_r. }
  unfold as_first. destruct (String.eqb_spec t0 t) as [_|_]; cbn [mbind option_bind]; [apply Hrun|].
  destruct (FullByteSize m <? 0)%Z; [done|]. destruct (SerializeToHC m) as [str|]; cbn; [|done].
  destruct (ParseFromHC t0 str) as [m0|]; cbn; [apply Hrun|done].
Qed.

(** ** Removing a listener *)

Lemma RemoveHandler_chan g c t : default [] ((RemoveHandler g c t).1 !! c) = tm_erase t (default [] (g !! c)).
Proof.
  unfold RemoveHandler. destruct (g !! c) as [l|] eqn:E; cbn [fst default from_option id]; [|by rewrite E].
  destruct (tm_erase t l); [by rewrite lookup_delete_eq|by rewrite lookup_insert_eq].
Qed.

Lemma remove_chan d self c o t :
  is_shutdown_ d = false →
  default [] (group (chain_ (RemoveListener d self c (Some o) t)) (Some o) !! c) =
  tm_erase t (default [] (group (chain_ d) (Some o) !! c)).
Proof.
  intros Hu. unfold RemoveListener, Chain_RemoveListener_oppo. rewrite Hu. cbn [chain_ group].
  destruct (oppo_handlers_ (chain_ d) !! o) as [g|] eqn:E; cbn; [|by rewrite E].
  rewrite <- RemoveHandler_chan. case_bool_decide as Hd.
  - by rewrite lookup_delete_eq, Hd, lookup_empty.
  - by rewrite lookup_insert_eq.
Qed.

Lemma typed_erase t l : typed l → typed (tm_erase t l).
Proof.
  intros [Hn Hl]. split; [|by apply Forall_filter_sub]. unfold tm_erase.
  eapply sublist_NoDup; [exact Hn|]. apply fmap_sublist, sublist_filter.
Qed.

Lemma erased_type regs d self c o t t0 m :
  rep regs d →
  filter (λ x : Delivery, x.1.1 = t) (Chain_Run (chain_ (RemoveListener d self c (Some o) t)) (Some o) c t0 m o) = [].
Proof.
  intros Hr. pose proof (rp_chain _ _ Hr (Some o) c) as Hc. rewrite Chain_Run_group, remove_chan by apply Hr.
  rewrite run_handlers_type; [|by eapply typed_erase, chan_ok_typed|by left]. by rewrite tm_find_erase.
Qed.

(** Removing one listener removes all of its kind: whatever listeners chose their
    senders on a channel, after [RemoveListener] for any one receiver, even one that never
    listened, a message of that sender reaches no listener of that type any more. *)
Theorem intra_remove_evicts regs self c o t' t m :
  (∀ t, heard regs None c t = []) →
  filter (λ x : Delivery, x.1.1 = t') (OnMessage (RemoveListener (adds regs) self c (Some o) t') c t m o) = [].
Proof.
  intros Hnone. pose proof (rep_adds regs) as Hr. set (d := adds regs) in *. pose proof (rp_main _ _ Hr c) as Hm.
  pose proof (λ t0 m, erased_type regs d self c o t' t0 m Hr) as He.
  set (d' := RemoveListener d self c (Some o) t') in *.
  assert (is_shutdown_ d' = false) as Hu by (unfold d', RemoveListener; by rewrite (rp_up _ _ Hr)).
  assert (msg_listeners_ d' !! c = (λ h, stop_listening h self (Some o)) <$> msg_listeners_ d !! c) as Hls.
  { unfold d', RemoveListener. rewrite (rp_up _ _ Hr). cbn. destruct (msg_listeners_ d !! c) eqn:E; cbn; [|done].
    by rewrite lookup_insert_eq. }
  unfold OnMessage. rewrite Hu, Hls. unfold main_ok in Hm. destruct (msg_listeners_ d !! c) as [h|]; [|done].
  cbn [fmap option_fmap option_map]. destruct Hm as (Hf & Hi & Hears).
  destruct (stop_listening_spec h self (Some o) Hi) as (Hi' & Hty & Hstop). rewrite Hty, Handler_Run_spec by done. cbn [snd].
  destruct (Hstop None) as [_ ->]; [|done]. destruct (Hstop (Some o)) as [Hsub _]. rewrite Hears, Hnone. cbn [app].
  assert (∀ m0, filter (λ x : Delivery, x.1.1 = t') (ears (stop_listening h self (Some o)) (Some o) ≫=
    λ w, Chain_Run (chain_ d') (w_oppo w) (w_channel w) (w_type w) m0 o) = []) as Hrun.
  { intros m0. rewrite Hears in Hsub. revert Hsub. generalize (ears (stop_listening h self (Some o)) (Some o)).
    intros l Hl. assert (∀ w, w ∈ l → w = mkWrapper (Some o) c (message_type h)) as Hw.
    { intros w Hw. apply (elem_of_sublist _ _ _ Hw) in Hl. destruct (heard regs (Some o) c _); set_solver. }
    clear Hl. induction l as [|w l IH]; cbn [mbind list_bind]; [done|]. rewrite filter_app, (IH ltac:(set_solver)).
    rewrite (Hw w) by set_solver. cbn [w_oppo w_channel w_type]. by rewrite He. }
  destruct (String.eqb (message_type h) t); [apply Hrun|]. destruct (FullByteSize m <? 0)%Z; [done|].
  destruct (SerializeToHC m); [|done]. destruct (ParseFromHC _ _); [apply Hrun|done].
Qed.

End messages.

(** Two receivers of one type listen to sender 7 on channel 1; the first leaves, and the
    second, 200, is not called any more. *)
Lemma intra_remove_evicts_witness :
  let size (m : nat) := 1%Z in
  let ser (m : nat) := Some [Z.of_nat m] in
  let parse (t : string) (s : list Z) := Z.to_nat <$> head s in
  let regs := [mkReg 10 1 (Some 7%Z) "A" 100; mkReg 20 1 (Some 7%Z) "A" 200] in
  OnMessage size ser parse (adds regs) 1 "A" 5 7 = [("A", 100, 5); ("A", 200, 5)]%string ∧
  filter (λ x : Delivery, x.1.1 = "A"%string)
    (OnMessage size ser parse (RemoveListener (adds regs) 10 1 (Some 7%Z) "A") 1 "A" 5 7) = [].
Proof.
  intros size ser parse regs. split; [vm_compute; reflexivity|].
  apply (intra_remove_evicts size ser parse regs 10 1 7 "A" "A" 5). intros t. reflexivity.
Defined.

(** A third receiver then listens, while the first one's wrapper stays because the second
    left: it is called twice for each message. *)
Example intra_heard_twice :
  let regs := [mkReg 10 1 (Some 7%Z) "A" 100; mkReg 20 1 (Some 7%Z) "A" 200] in
  let d := RemoveListener (adds regs) 20 1 (Some 7%Z) "A" in
  OnMessage (λ m : nat, 1%Z) (λ m, Some [Z.of_nat m]) (λ _ s, Z.to_nat <$> head s)
    (AddListener d 30 1 (Some 7%Z) "A" 300) 1 "A" 5 7 = [("A", 300, 5); ("A", 300, 5)]%string.
Proof. vm_compute. reflexivity. Qed.
