(* ===== verification/HybridTransport.v ===== *)
(** * Choosing the transport (cyber/transport/transmitter, receiver)

    A writer's hybrid transmitter owns one transmitter per mode (within the process,
    shared memory, RTPS) and enables that of the mode a reader's place asks for when the
    reader joins; a reader's hybrid receiver does the same for the writers.  Modelled are
    the choice, the bookkeeping and the state of the transmitters; what an enabled
    transmitter does with a message is in IntraDispatcher and ShmTransport.

    What other parts answer is the argument [Env]: whether the arena of the channel can
    be enabled, and whether there is a participant and it creates a publisher. *)

From Stdlib Require Import ZArith Lia.
From stdpp Require Import pretty countable base numbers list gmap strings.
From S2P Require Import Prelude History.

Open Scope Z_scope.

Inductive Relation := NO_RELATION | DIFF_HOST | DIFF_PROC | SAME_PROC.
Inductive OptionalMode := HYBRID | INTRA | SHM | RTPS.

#[global] Instance Relation_eq_dec : EqDecision Relation.
Proof. solve_decision. Defined.
#[global] Instance OptionalMode_eq_dec : EqDecision OptionalMode.
Proof. solve_decision. Defined.
#[global] Instance OptionalMode_countable : Countable OptionalMode.
Proof.
  refine (inj_countable' (λ m, match m with HYBRID => 0%N | INTRA => 1%N | SHM => 2%N | RTPS => 3%N end)
    (λ n, match n with 0%N => HYBRID | 1%N => INTRA | 2%N => SHM | _ => RTPS end) _). by intros [].
Defined.

(** The attributes of a role that this code reads; [a_raw] is whether the message type
    is RawMessage or PyMessageWrap. *)
Record Attr := mkAttr {
  a_channel_name : string;
  a_host_ip : string;
  a_process_id : Z;
  a_id : Z;
  a_raw : bool;
  a_transient_local : bool;        (* qos_profile().durability() *)
  a_history : HistoryAttributes    (* qos_profile().history(), .depth() *)
}.

#[global] Instance Attr_eq_dec : EqDecision Attr.
Proof. solve_decision. Defined.

(** [GetRelation(opposite_attr)] of both classes. *)
Definition GetRelation (self opposite : Attr) : Relation :=
  if negb (bool_decide (a_channel_name opposite = a_channel_name self)) then NO_RELATION
  else if negb (bool_decide (a_host_ip opposite = a_host_ip self)) then DIFF_HOST
  else if negb (a_process_id opposite =? a_process_id self) then DIFF_PROC
  else SAME_PROC.

(** [proto::CommunicationMode] and its defaults. *)
Record CommunicationMode := mkMode { same_proc : OptionalMode; diff_proc : OptionalMode; diff_host : OptionalMode }.
Definition default_mode : CommunicationMode := mkMode INTRA SHM RTPS.

(** [InitMode()] and [ObtainConfig()], the configured mode if there is one. *)
Definition ObtainConfig (conf : option CommunicationMode) : CommunicationMode := default default_mode conf.

(** [mapping_table_]; a missing entry reads as 0. *)
Definition mapping_table (mode : CommunicationMode) (r : Relation) : OptionalMode :=
  match r with
  | SAME_PROC => same_proc mode
  | DIFF_PROC => diff_proc mode
  | DIFF_HOST => diff_host mode
  | NO_RELATION => HYBRID
  end.

Definition modes (mode : CommunicationMode) : list OptionalMode := [same_proc mode; diff_proc mode; diff_host mode].

(** ** Transmitters *)

Record Env := mkEnv { arena_enabled : bool; has_participant : bool; has_publisher : bool }.

Record ShmCounts := mkCounts {
  shm_enabled : bool;
  arena_transmit_ : bool;
  serialized_receiver_count_ : Z;     (* std::atomic<int> *)
  arena_receiver_count_ : Z
}.

Inductive Transmitter :=
| IntraTransmitter (enabled : bool)
| ShmTransmitter (s : ShmCounts)
| RtpsTransmitter (enabled : bool).

(** What [InitTransmitters()] makes for a mode. *)
Definition make_transmitter (arena_transmit : bool) (m : OptionalMode) : Transmitter :=
  match m with
  | INTRA => IntraTransmitter false
  | SHM => ShmTransmitter (mkCounts false arena_transmit 0 0)
  | _ => RtpsTransmitter false
  end.

Definition enabled (t : Transmitter) : bool :=
  match t with IntraTransmitter b | RtpsTransmitter b => b | ShmTransmitter s => shm_enabled s end.

Definition set_shm_enabled (s : ShmCounts) (b : bool) : ShmCounts :=
  mkCounts b (arena_transmit_ s) (serialized_receiver_count_ s) (arena_receiver_count_ s).

(** [ShmTransmitter::Enable()]. *)
Definition Shm_Enable (e : Env) (s : ShmCounts) : ShmCounts :=
  if shm_enabled s then s
  else if ((serialized_receiver_count_ s =? 0) && (arena_receiver_count_ s =? 0))%bool then s
  else if (arena_transmit_ s && negb (arena_enabled e))%bool then s
  else set_shm_enabled s true.
Definition Shm_Disable (s : ShmCounts) : ShmCounts := set_shm_enabled s false.

(** Which counter a receiver is counted in, and [fetch_add] on it. *)
Definition count_receiver (s : ShmCounts) (raw : bool) (d : Z) : ShmCounts :=
  if (arena_transmit_ s && negb raw)%bool
  then mkCounts (shm_enabled s) (arena_transmit_ s) (serialized_receiver_count_ s) (i32 (arena_receiver_count_ s + d))
  else mkCounts (shm_enabled s) (arena_transmit_ s) (i32 (serialized_receiver_count_ s + d)) (arena_receiver_count_ s).

(** [ShmTransmitter::Enable(opposite_attr)], [Disable(opposite_attr)]. *)
Definition Shm_Enable_for (e : Env) (s : ShmCounts) (opposite : Attr) : ShmCounts :=
  let s := count_receiver s (a_raw opposite) 1 in
  if shm_enabled s then s else Shm_Enable e s.
Definition Shm_Disable_for (s : ShmCounts) (opposite : Attr) : ShmCounts :=
  if shm_enabled s then
    let s := count_receiver s (a_raw opposite) (-1) in
    if arena_transmit_ s
    then if ((serialized_receiver_count_ s <=? 0) && (arena_receiver_count_ s <=? 0))%bool then Shm_Disable s else s
    else if serialized_receiver_count_ s <=? 0 then Shm_Disable s else s
  else s.

(** The virtual methods. *)
Definition Transmitter_Enable (e : Env) (t : Transmitter) : Transmitter :=
  match t with
  | IntraTransmitter _ => IntraTransmitter true
  | ShmTransmitter s => ShmTransmitter (Shm_Enable e s)
  | RtpsTransmitter b => RtpsTransmitter (b || (has_participant e && has_publisher e))
  end.
Definition Transmitter_Disable (t : Transmitter) : Transmitter :=
  match t with
  | IntraTransmitter _ => IntraTransmitter false
  | ShmTransmitter s => ShmTransmitter (Shm_Disable s)
  | RtpsTransmitter _ => RtpsTransmitter false
  end.
Definition Transmitter_Enable_for (e : Env) (t : Transmitter) (opposite : Attr) : Transmitter :=
  match t with
  | ShmTransmitter s => ShmTransmitter (Shm_Enable_for e s opposite)
  | _ => Transmitter_Enable e t
  end.
Definition Transmitter_Disable_for (t : Transmitter) (opposite : Attr) : Transmitter :=
  match t with
  | ShmTransmitter s => ShmTransmitter (Shm_Disable_for s opposite)
  | _ => Transmitter_Disable t
  end.

(** ** The hybrid transmitter *)

Section hybrid.
Context {M : Type}.

Record HybridTransmitter := mkHybridTransmitter {
  ht_attr : Attr;
  ht_mode : CommunicationMode;
  transmitters_ : gmap OptionalMode Transmitter;
  receivers_ : gmap OptionalMode (gset Z);
  history_ : History M;
  history_tasks : list (string * list M)    (* cyber::Async of ThreadFunc: its channel and messages *)
}.

Definition set_transmitters (h : HybridTransmitter) (t : gmap OptionalMode Transmitter) : HybridTransmitter :=
  mkHybridTransmitter (ht_attr h) (ht_mode h) t (receivers_ h) (history_ h) (history_tasks h).

(** The constructor. *)
Definition HybridTransmitter_new (max_history_depth : option Z) (arena_transmit : bool)
    (conf : option CommunicationMode) (attr : Attr) : HybridTransmitter :=
  let mode := ObtainConfig conf in
  let history := History_new max_history_depth (a_history attr) in
  let history := if a_transient_local attr then History.Enable history else history in
  let transmitters := list_to_map ((λ m, (m, make_transmitter arena_transmit m)) <$> modes mode) in
  mkHybridTransmitter attr mode transmitters ((λ _, ∅) <$> transmitters) history [].

Definition HT_Enable (e : Env) (h : HybridTransmitter) : HybridTransmitter :=
  set_transmitters h (Transmitter_Enable e <$> transmitters_ h).
Definition HT_Disable (h : HybridTransmitter) : HybridTransmitter :=
  set_transmitters h (Transmitter_Disable <$> transmitters_ h).

(** The channel over which the history goes: the ids of writer and reader. *)
Definition history_channel (writer reader : Attr) : string := pretty (a_id writer) +:+ pretty (a_id reader).

(** [TransmitHistoryMsg(opposite_attr)]. *)
Definition TransmitHistoryMsg (h : HybridTransmitter) (opposite : Attr) : HybridTransmitter :=
  if negb (a_transient_local (ht_attr h)) then h
  else
    match GetCachedMessage (history_ h) [] with
    | [] => h
    | unsent => mkHybridTransmitter (ht_attr h) (ht_mode h) (transmitters_ h) (receivers_ h) (history_ h)
                  (history_tasks h ++ [(history_channel (ht_attr h) opposite, unsent)])
    end.

(** [Enable(opposite_attr)]. *)
Definition HT_Enable_for (e : Env) (h : HybridTransmitter) (opposite : Attr) : HybridTransmitter :=
  let relation := GetRelation (ht_attr h) opposite in
  if bool_decide (relation = NO_RELATION) then h
  else
    let m := mapping_table (ht_mode h) relation in
    let h := mkHybridTransmitter (ht_attr h) (ht_mode h)
               (alter (λ t, Transmitter_Enable_for e t opposite) m (transmitters_ h))
               (partial_alter (λ s, Some ({[a_id opposite]} ∪ default ∅ s)) m (receivers_ h))
               (history_ h) (history_tasks h) in
    TransmitHistoryMsg h opposite.

(** [Disable(opposite_attr)]. *)
Definition HT_Disable_for (h : HybridTransmitter) (opposite : Attr) : HybridTransmitter :=
  let relation := GetRelation (ht_attr h) opposite in
  if bool_decide (relation = NO_RELATION) then h
  else
    let m := mapping_table (ht_mode h) relation in
    mkHybridTransmitter (ht_attr h) (ht_mode h)
      (alter (λ t, Transmitter_Disable_for t opposite) m (transmitters_ h))
      (partial_alter (λ s, Some (default ∅ s ∖ {[a_id opposite]})) m (receivers_ h))
      (history_ h) (history_tasks h).

(** [Transmit(msg, msg_info)]: the modes whose transmitters send; the answer is true. *)
Definition Transmit (h : HybridTransmitter) (msg : M) : HybridTransmitter * list OptionalMode :=
  (mkHybridTransmitter (ht_attr h) (ht_mode h) (transmitters_ h) (receivers_ h)
     (History.Add (history_ h) msg) (history_tasks h),
   filter (λ m, enabled <$> transmitters_ h !! m = Some true) [HYBRID; INTRA; SHM; RTPS]).

(** Whether the messages go out by the mode of this reader's place. *)
Definition serves (h : HybridTransmitter) (reader : Attr) (msg : M) : bool :=
  bool_decide (mapping_table (ht_mode h) (GetRelation (ht_attr h) reader) ∈ (Transmit h msg).2).
(** Readers join and leave ([Writer::OnChannelChange], [JoinTheTopology]). *)
Inductive Ev := Join (r : Attr) | Leave (r : Attr).
Definition ev_attr (v : Ev) : Attr := match v with Join r | Leave r => r end.

Definition ht_step (e : Env) (h : HybridTransmitter) (v : Ev) : HybridTransmitter :=
  match v with Join r => HT_Enable_for e h r | Leave r => HT_Disable_for h r end.
Definition ht_run (e : Env) (h : HybridTransmitter) (l : list Ev) : HybridTransmitter := foldl (ht_step e) h l.

(** The mode of a reader's place, if it reads this channel at all. *)
Definition mode_of (mode : CommunicationMode) (self r : Attr) : option OptionalMode :=
  if bool_decide (GetRelation self r = NO_RELATION) then None else Some (mapping_table mode (GetRelation self r)).

(** ** One transmitter *)

Definition tx_step (e : Env) (t : Transmitter) (v : Ev) : Transmitter :=
  match v with Join r => Transmitter_Enable_for e t r | Leave r => Transmitter_Disable_for t r end.

Lemma history_frame h r :
  transmitters_ (TransmitHistoryMsg h r) = transmitters_ h ∧
  ht_attr (TransmitHistoryMsg h r) = ht_attr h ∧ ht_mode (TransmitHistoryMsg h r) = ht_mode h.
Proof. unfold TransmitHistoryMsg. repeat destruct_match; done. Qed.

Lemma ht_step_spec e h v :
  ht_attr (ht_step e h v) = ht_attr h ∧ ht_mode (ht_step e h v) = ht_mode h ∧
  ∀ m, transmitters_ (ht_step e h v) !! m =
    if decide (mode_of (ht_mode h) (ht_attr h) (ev_attr v) = Some m)
    then (λ t, tx_step e t v) <$> transmitters_ h !! m else transmitters_ h !! m.
Proof.
  assert (∀ (f : Transmitter → Transmitter) k (x : gmap OptionalMode Transmitter) m,
    alter f k x !! m = if decide (Some k = Some m) then f <$> x !! m else x !! m) as Ha.
  { intros f k x m. rewrite lookup_alter. destruct (decide (k = m)) as [->|]; [by rewrite decide_True|].
    by rewrite decide_False by congruence. }
  unfold mode_of. destruct v as [r|r]; cbn [ht_step ev_attr tx_step]; unfold HT_Enable_for, HT_Disable_for;
    case_bool_decide; try done.
  - destruct (history_frame (mkHybridTransmitter (ht_attr h) (ht_mode h)
      (alter (λ t, Transmitter_Enable_for e t r) (mapping_table (ht_mode h) (GetRelation (ht_attr h) r)) (transmitters_ h))
      (partial_alter (λ s, Some ({[a_id r]} ∪ default ∅ s)) (mapping_table (ht_mode h) (GetRelation (ht_attr h) r))
         (receivers_ h)) (history_ h) (history_tasks h)) r) as (-> & -> & ->).
    split; [done|]. split; [done|]. intros m. apply Ha.
  - split; [done|]. split; [done|]. intros m. apply Ha.
Qed.

(** A transmitter sees the readers of its mode. *)
Lemma ht_run_transmitter e h l m :
  ht_attr (ht_run e h l) = ht_attr h ∧ ht_mode (ht_run e h l) = ht_mode h ∧
  transmitters_ (ht_run e h l) !! m =
  (λ t, foldl (tx_step e) t (filter (λ v, mode_of (ht_mode h) (ht_attr h) (ev_attr v) = Some m) l)) <$> transmitters_ h !! m.
Proof.
  revert h. induction l as [|v l IH]; intros h; cbn [ht_run foldl].
  - split; [done|]. split; [done|]. by destruct (transmitters_ h !! m).
  - destruct (ht_step_spec e h v) as (E1 & E2 & E3). destruct (IH (ht_step e h v)) as (H1 & H2 & H3).
    unfold ht_run in *. rewrite H1, H2, H3, E1, E2, E3. split; [done|]. split; [done|]. rewrite filter_cons.
    case_decide; [|done]. by destruct (transmitters_ h !! m).
Qed.

Lemma new_transmitter limit arena conf attr m :
  m ∈ modes (ObtainConfig conf) →
  transmitters_ (HybridTransmitter_new limit arena conf attr) !! m = Some (make_transmitter arena m).
Proof.
  intros Hm. cbn [HybridTransmitter_new transmitters_]. generalize dependent (modes (ObtainConfig conf)).
  induction l as [|x l IH]; intros Hm; [set_solver|]. cbn. destruct (decide (x = m)) as [->|Hne].
  - by rewrite lookup_insert_eq.
  - rewrite lookup_insert_ne by done. apply IH. set_solver.
Qed.

Lemma serves_enabled h r msg m t :
  mode_of (ht_mode h) (ht_attr h) r = Some m → transmitters_ h !! m = Some t → serves h r msg = enabled t.
Proof.
  unfold mode_of, serves. case_bool_decide; [done|]. intros [= <-] Ht. cbn [Transmit snd].
  set (m := mapping_table _ _) in *. destruct (enabled t) eqn:E.
  - apply bool_decide_eq_true. apply list_elem_of_filter. rewrite Ht. cbn. rewrite E. split; [done|].
    destruct m; set_solver.
  - apply bool_decide_eq_false. intros Hx. apply list_elem_of_filter in Hx as [Hx _]. rewrite Ht in Hx. cbn in Hx. congruence.
Qed.

(** Within the process and over RTPS the last word counts. *)
Lemma last_word e m arena l :
  has_participant e = true → has_publisher e = true → m ≠ SHM →
  enabled (foldl (tx_step e) (make_transmitter arena m) l) =
  match last l with Some (Join _) => true | _ => false end.
Proof.
  intros H1 H2 Hm. induction l as [|v l IH] using rev_ind; [by destruct m|].
  rewrite foldl_snoc, last_snoc.
  assert (match foldl (tx_step e) (make_transmitter arena m) l with ShmTransmitter _ => False | _ => True end) as Hk.
  { clear -Hm. induction l as [|v l IH] using rev_ind; [by destruct m|]. rewrite foldl_snoc.
    destruct (foldl _ _ l), v; done. }
  destruct (foldl _ _ l), v; cbn; try done. rewrite H1, H2. by destruct (enabled0).
Qed.

(** Over shared memory readers are counted. *)
Fixpoint leave_one (l : list Attr) (r : Attr) : list Attr :=
  match l with
  | [] => []
  | x :: l => if decide (x = r) then l else x :: leave_one l r
  end.
Definition present_step (l : list Attr) (v : Ev) : list Attr :=
  match v with Join r => l ++ [r] | Leave r => leave_one l r end.
Definition present (l : list Ev) : list Attr := foldl present_step [] l.

(** Only readers that are there leave. *)
Fixpoint orderly (there : list Attr) (l : list Ev) : Prop :=
  match l with
  | [] => True
  | v :: l => match v with Join _ => True | Leave r => r ∈ there end ∧ orderly (present_step there v) l
  end.

(** The receivers counted as arena receivers ([b] true) or as serialized ones. *)
Definition in_arena (arena : bool) (r : Attr) : bool := arena && negb (a_raw r).
#[local] Arguments in_arena : simpl never.
Fixpoint number (arena b : bool) (l : list Attr) : Z :=
  match l with
  | [] => 0
  | r :: l => (if eqb (in_arena arena r) b then 1 else 0) + number arena b l
  end.
Definition counted (s : ShmCounts) (l : list Attr) : Prop :=
  serialized_receiver_count_ s = number (arena_transmit_ s) false l ∧
  arena_receiver_count_ s = number (arena_transmit_ s) true l ∧
  shm_enabled s = bool_decide (l ≠ []).

Lemma number_app arena b l1 l2 : number arena b (l1 ++ l2) = number arena b l1 + number arena b l2.
Proof. induction l1 as [|r l1 IH]; cbn; [done|]. rewrite IH. lia. Qed.
Lemma number_nonneg arena b l : 0 <= number arena b l.
Proof. induction l as [|r l IH]; cbn; [done|]. destruct (eqb _ _); lia. Qed.
Lemma number_split arena l : number arena false l + number arena true l = Z.of_nat (length l).
Proof. induction l as [|r l IH]; [done|]. cbn [number length]. destruct (in_arena arena r); cbn; lia. Qed.
Lemma number_no_arena l : number false true l = 0.
Proof. induction l as [|r l IH]; [done|]. exact IH. Qed.

Lemma counted_join e s l r :
  arena_enabled e = true → Z.of_nat (length l) + 1 < 2 ^ 31 → counted s l → counted (Shm_Enable_for e s r) (l ++ [r]).
Proof.
  intros He Hb (H1 & H2 & H3). destruct s as [en ar x y]. cbn in H1, H2, H3.
  pose proof (number_split ar l). pose proof (number_nonneg ar false l). pose proof (number_nonneg ar true l).
  assert (∀ b x' y', counted (mkCounts b ar x' y') (l ++ [r]) ↔
    x' = x + (if in_arena ar r then 0 else 1) ∧ y' = y + (if in_arena ar r then 1 else 0) ∧ b = true) as Hc.
  { intros b x' y'. unfold counted. cbn. rewrite !number_app. cbn.
    rewrite (bool_decide_eq_true_2 (l ++ [r] ≠ [])) by (by destruct l). destruct (in_arena ar r); cbn; intuition lia. }
  unfold Shm_Enable_for, count_receiver. cbn. fold (in_arena ar r).
  unfold Shm_Enable, set_shm_enabled. rewrite He. destruct (in_arena ar r) eqn:Er; cbn;
    rewrite i32_small by (unfold is_i32; lia); rewrite andb_false_r; destruct en; cbn; try (apply Hc; lia);
    rewrite (proj2 (andb_false_iff _ _)) by (rewrite !Z.eqb_neq; lia); apply Hc; lia.
Qed.

Lemma leave_one_split l r : r ∈ l → ∃ l1 l2, l = l1 ++ r :: l2 ∧ leave_one l r = l1 ++ l2.
Proof.
  induction l as [|x l IH]; intros Hr; [set_solver|]. cbn. destruct (decide (x = r)) as [->|Hne].
  - by exists [], l.
  - destruct IH as (l1 & l2 & -> & ->); [set_solver|]. by exists (x :: l1), l2.
Qed.

Lemma counted_leave s l r :
  Z.of_nat (length l) < 2 ^ 31 → r ∈ l → counted s l → counted (Shm_Disable_for s r) (leave_one l r).
Proof.
  intros Hb Hr (H1 & H2 & H3). destruct (leave_one_split l r Hr) as (l1 & l2 & -> & ->).
  destruct s as [en ar x y]. cbn in H1, H2, H3. rewrite bool_decide_eq_true_2 in H3 by (by destruct l1). subst en.
  rewrite number_app in H1, H2. cbn in H1, H2. rewrite length_app in Hb. cbn in Hb.
  pose proof (number_split ar (l1 ++ l2)) as Hl. rewrite !number_app, length_app in Hl.
  pose proof (number_nonneg ar false l1). pose proof (number_nonneg ar true l1).
  pose proof (number_nonneg ar false l2). pose proof (number_nonneg ar true l2).
  assert (ar = false → number ar true l1 = 0 ∧ number ar true l2 = 0) as Hna by (intros ->; by rewrite !number_no_arena).
  assert (∀ b x' y', counted (mkCounts b ar x' y') (l1 ++ l2) ↔
    x' = number ar false l1 + number ar false l2 ∧ y' = number ar true l1 + number ar true l2 ∧
    (b = true ↔ 0 < x' + y')) as Hc.
  { intros b x' y'. unfold counted. cbn. rewrite !number_app.
    assert (bool_decide (l1 ++ l2 ≠ []) = true ↔ 0 < Z.of_nat (length l1 + length l2)) as Hd
      by (rewrite bool_decide_eq_true; destruct l1, l2; cbn; split; (done || lia)).
    destruct b, (bool_decide (l1 ++ l2 ≠ [])); split; intros (-> & -> & ?); naive_solver lia. }
  unfold Shm_Disable_for, count_receiver. cbn. fold (in_arena ar r).
  unfold Shm_Disable, set_shm_enabled. destruct (in_arena ar r) eqn:Er; cbn in *;
    rewrite i32_small by (unfold is_i32; lia); destruct ar; cbn in *; try done;
    repeat match goal with |- context [?a <=? 0] => destruct (Z.leb_spec a 0) end; cbn; apply Hc; naive_solver lia.
Qed.
Lemma counted_run e s l there :
  arena_enabled e = true → Z.of_nat (length there + length l) < 2 ^ 31 → orderly there l → counted s there →
  ∃ s', foldl (tx_step e) (ShmTransmitter s) l = ShmTransmitter s' ∧ counted s' (foldl present_step there l).
Proof.
  intros He. revert s there. induction l as [|v l IH]; intros s there Hb Ho Hc; [by exists s|].
  cbn [orderly length] in *. destruct Ho as [Hv Ho]. cbn [foldl]. destruct v as [r|r]; cbn [tx_step Transmitter_Enable_for Transmitter_Disable_for].
  - apply IH; [cbn [present_step]; rewrite length_app; cbn; lia|done|apply counted_join; [done|lia|done]].
  - apply IH; [|done|apply counted_leave; [lia|done|done]].
    destruct (leave_one_split there r Hv) as (l1 & l2 & -> & E). cbn [present_step]. rewrite E.
    rewrite length_app in *. cbn in *. lia.
Qed.

(** The readers of one mode come and go among themselves. *)
Lemma leave_one_filter (P : Attr → Prop) `{∀ x, Decision (P x)} l r :
  filter P (leave_one l r) = if decide (P r) then leave_one (filter P l) r else filter P l.
Proof.
  induction l as [|x l IH]; cbn [leave_one]; [by case_decide|]. rewrite (filter_cons P x l). destruct (decide (x = r)) as [->|Hne].
  - destruct (decide (P r)) as [Hp|Hp]; [|done]. cbn. by rewrite decide_True.
  - rewrite filter_cons, IH. destruct (decide (P r)), (decide (P x)); cbn; by rewrite ?decide_False.
Qed.

Lemma orderly_filter (P : Attr → Prop) `{∀ x, Decision (P x)} there l :
  orderly there l →
  orderly (filter P there) (filter (λ v, P (ev_attr v)) l) ∧
  foldl present_step (filter P there) (filter (λ v, P (ev_attr v)) l) = filter P (foldl present_step there l).
Proof.
  revert there. induction l as [|v l IH]; intros there; [done|]. cbn [orderly foldl]. intros [Hv Ho].
  destruct (IH _ Ho) as [H1 H2]. rewrite filter_cons.
  assert (filter P (present_step there v) =
    if decide (P (ev_attr v)) then present_step (filter P there) v else filter P there) as E.
  { destruct v as [r|r]; cbn [present_step ev_attr]; [|apply leave_one_filter].
    rewrite filter_app, filter_cons. case_decide; [done|]. by rewrite app_nil_r. }
  rewrite E in H1, H2. case_decide as Hp; [|done]. cbn [orderly foldl]. split; [|done]. split; [|done].
  destruct v; [done|]. by apply list_elem_of_filter.
Qed.

(** A reader is served by what the readers of its mode made of the mode's transmitter. *)
Lemma serves_new e limit arena conf attr l reader m msg :
  mode_of (ObtainConfig conf) attr reader = Some m →
  serves (ht_run e (HybridTransmitter_new limit arena conf attr) l) reader msg =
  enabled (foldl (tx_step e) (make_transmitter arena m)
    (filter (λ v, mode_of (ObtainConfig conf) attr (ev_attr v) = Some m) l)).
Proof.
  intros Hm. assert (m ∈ modes (ObtainConfig conf)) as Hin.
  { unfold mode_of in Hm. case_bool_decide; [done|]. injection Hm as <-. unfold modes.
    destruct (GetRelation attr reader); set_solver. }
  destruct (ht_run_transmitter e (HybridTransmitter_new limit arena conf attr) l m) as (E1 & E2 & E3).
  rewrite (new_transmitter _ _ _ _ _ Hin) in E3. apply (serves_enabled _ _ _ m); [by rewrite E1, E2|exact E3].
Qed.

(** [C33] Whom a hybrid transmitter's messages reach: after any joins and leaves of readers
    (only of readers that are there), with its participant and arena in order, they go out
    by shared memory exactly while a reader in a place of that mode is there, and by a
    direct call or RTPS exactly when the last word from a reader of that mode was a join. *)
Theorem hybrid_serves limit arena conf attr l reader m msg :
  Z.of_nat (length l) < 2 ^ 31 → orderly [] l → mode_of (ObtainConfig conf) attr reader = Some m →
  let h := ht_run (mkEnv true true true) (HybridTransmitter_new limit arena conf attr) l in
  let of_mode r := mode_of (ObtainConfig conf) attr r = Some m in
  serves h reader msg =
  if decide (m = SHM) then bool_decide (filter of_mode (present l) ≠ [])
  else match last (filter (λ v, of_mode (ev_attr v)) l) with Some (Join _) => true | _ => false end.
Proof.
  intros Hlen Ho Hm h of_mode. unfold h. rewrite (serves_new _ _ _ _ _ _ _ _ _ Hm).
  destruct (decide (m = SHM)) as [->|Hne]; [|by apply last_word].
  destruct (orderly_filter of_mode [] l Ho) as [H1 H2]. change (filter of_mode []) with (@nil Attr) in H1, H2.
  destruct (counted_run (mkEnv true true true) (mkCounts false arena 0 0) (filter (λ v, of_mode (ev_attr v)) l) [])
    as (s' & E & _ & _ & Hs); [done| |done|done|].
  { pose proof (length_filter (λ v, of_mode (ev_attr v)) l). cbn. lia. }
  cbn [make_transmitter]. rewrite H2 in Hs.
  transitivity (enabled (ShmTransmitter s')); [f_equal; exact E|exact Hs].
Qed.

(** One leaving reader silences the others: within a process, and over RTPS, once a
    reader leaves, no reader of the same mode is served any more, whoever of them stays. *)
Theorem first_leave_silences limit arena conf attr l gone reader m msg :
  m ≠ SHM → mode_of (ObtainConfig conf) attr gone = Some m → mode_of (ObtainConfig conf) attr reader = Some m →
  serves (ht_run (mkEnv true true true) (HybridTransmitter_new limit arena conf attr) (l ++ [Leave gone])) reader msg = false.
Proof.
  intros Hne Hg Hm. rewrite (serves_new _ _ _ _ _ _ _ _ _ Hm), last_word by done.
  by rewrite filter_app, last_app, (filter_cons_True _ (Leave gone)) by done.
Qed.

(** ** The hybrid receiver *)

(** What it asks of the receiver of a mode: to add or remove the listener for a writer. *)
Inductive RxCall := RxEnable (m : OptionalMode) (w : Attr) | RxDisable (m : OptionalMode) (w : Attr).

Record HybridReceiver := mkHybridReceiver {
  hr_attr : Attr;
  hr_mode : CommunicationMode;
  hr_transmitters : gmap OptionalMode (gmap Z Attr);
  rx_calls : list RxCall;
  hr_history_tasks : list string          (* cyber::Async of ThreadFunc: its channel *)
}.

Definition HybridReceiver_new (conf : option CommunicationMode) (attr : Attr) : HybridReceiver :=
  let mode := ObtainConfig conf in
  mkHybridReceiver attr mode (list_to_map ((λ m, (m, ∅)) <$> modes mode)) [] [].

(** [ReceiveHistoryMsg(opposite_attr)]. *)
Definition ReceiveHistoryMsg (h : HybridReceiver) (opposite : Attr) : HybridReceiver :=
  if negb (a_transient_local opposite) then h
  else mkHybridReceiver (hr_attr h) (hr_mode h) (hr_transmitters h) (rx_calls h)
         (hr_history_tasks h ++ [history_channel opposite (hr_attr h)]).

(** [Enable(opposite_attr)], [Disable(opposite_attr)]. *)
Definition HR_Enable_for (h : HybridReceiver) (opposite : Attr) : HybridReceiver :=
  let relation := GetRelation (hr_attr h) opposite in
  if bool_decide (relation = NO_RELATION) then h
  else
    let m := mapping_table (hr_mode h) relation in
    let ws := default ∅ (hr_transmitters h !! m) in
    match ws !! a_id opposite with
    | Some _ => h
    | None =>
        ReceiveHistoryMsg
          (mkHybridReceiver (hr_attr h) (hr_mode h) (<[m := <[a_id opposite := opposite]> ws]> (hr_transmitters h))
             (rx_calls h ++ [RxEnable m opposite]) (hr_history_tasks h)) opposite
    end.
Definition HR_Disable_for (h : HybridReceiver) (opposite : Attr) : HybridReceiver :=
  let relation := GetRelation (hr_attr h) opposite in
  if bool_decide (relation = NO_RELATION) then h
  else
    let m := mapping_table (hr_mode h) relation in
    let ws := default ∅ (hr_transmitters h !! m) in
    match ws !! a_id opposite with
    | None => h
    | Some _ =>
        mkHybridReceiver (hr_attr h) (hr_mode h) (<[m := delete (a_id opposite) ws]> (hr_transmitters h))
          (rx_calls h ++ [RxDisable m opposite]) (hr_history_tasks h)
    end.

(** [ClearTransmitters()], of the destructor. *)
Definition ClearTransmitters (h : HybridReceiver) : HybridReceiver :=
  mkHybridReceiver (hr_attr h) (hr_mode h) ∅
    (rx_calls h ++ (map_to_list (hr_transmitters h) ≫= λ '(m, ws), (λ '(_, w), RxDisable m w) <$> map_to_list ws))
    (hr_history_tasks h).

Definition hr_step (h : HybridReceiver) (v : Ev) : HybridReceiver :=
  match v with Join w => HR_Enable_for h w | Leave w => HR_Disable_for h w end.
Definition hr_run (h : HybridReceiver) (l : list Ev) : HybridReceiver := foldl hr_step h l.

(** The listeners the calls leave behind; [None] when one is added twice, or removed
    while there is none. *)
Definition rx_effect (o : option (gset (OptionalMode * Z))) (c : RxCall) : option (gset (OptionalMode * Z)) :=
  s ← o;
  match c with
  | RxEnable m w => if decide ((m, a_id w) ∈ s) then None else Some ({[(m, a_id w)]} ∪ s)
  | RxDisable m w => if decide ((m, a_id w) ∈ s) then Some (s ∖ {[(m, a_id w)]}) else None
  end.
Definition listeners (l : list RxCall) : option (gset (OptionalMode * Z)) := foldl rx_effect (Some ∅) l.

(** The writers the receiver knows, each under its id. *)
Definition known (h : HybridReceiver) (m : OptionalMode) (i : Z) : option Attr :=
  hr_transmitters h !! m ≫= lookup i.

Definition hr_inv (h : HybridReceiver) : Prop :=
  ∃ s, listeners (rx_calls h) = Some s ∧ (∀ m i, (m, i) ∈ s ↔ is_Some (known h m i)) ∧
    ∀ m i w, known h m i = Some w → a_id w = i.

Lemma known_default h m i : default ∅ (hr_transmitters h !! m) !! i = known h m i.
Proof. unfold known. destruct (hr_transmitters h !! m); cbn; [done|apply lookup_empty]. Qed.

Lemma hr_inv_step h v : hr_inv h → hr_inv (hr_step h v).
Proof.
  intros (s & Hs & Hin & Hid). destruct v as [w|w]; cbn [hr_step]; unfold HR_Enable_for, HR_Disable_for;
    case_bool_decide; try (by exists s); set (m := mapping_table _ _); rewrite known_default;
    destruct (known h m (a_id w)) as [w'|] eqn:Ek; try (by exists s).
  - set (h' := mkHybridReceiver _ _ _ _ _).
    assert (∀ m' i, known h' m' i = if decide (m' = m ∧ i = a_id w) then Some w else known h m' i) as Hk.
    { intros m' i. unfold known, h'. cbn. destruct (decide (m' = m)) as [->|]; [|by rewrite lookup_insert_ne, decide_False by naive_solver].
      rewrite lookup_insert_eq. cbn. destruct (decide (i = a_id w)) as [->|].
      - by rewrite lookup_insert_eq, decide_True.
      - rewrite lookup_insert_ne, decide_False by naive_solver. apply known_default. }
    assert (hr_inv h') as Hh.
    { exists ({[(m, a_id w)]} ∪ s). unfold h'. cbn [rx_calls]. unfold listeners in *. rewrite foldl_snoc, Hs. cbn.
      rewrite decide_False by (rewrite Hin, Ek; by intros [? ?]). split; [done|]. split.
      - intros m' i. rewrite Hk, elem_of_union, elem_of_singleton, Hin.
        destruct (decide (m' = m ∧ i = a_id w)) as [[-> ->]|]; naive_solver.
      - intros m' i x. rewrite Hk. case_decide; [naive_solver|apply Hid]. }
    unfold ReceiveHistoryMsg. by destruct (a_transient_local w).
  - set (h' := mkHybridReceiver _ _ _ _ _).
    assert (∀ m' i, known h' m' i = if decide (m' = m ∧ i = a_id w) then None else known h m' i) as Hk.
    { intros m' i. unfold known, h'. cbn. destruct (decide (m' = m)) as [->|]; [|by rewrite lookup_insert_ne, decide_False by naive_solver].
      rewrite lookup_insert_eq. cbn. destruct (decide (i = a_id w)) as [->|].
      - by rewrite lookup_delete_eq, decide_True.
      - rewrite lookup_delete_ne, decide_False by naive_solver. apply known_default. }
    exists (s ∖ {[(m, a_id w)]}). unfold h'. cbn [rx_calls]. unfold listeners in *. rewrite foldl_snoc, Hs. cbn.
    rewrite decide_True by (rewrite Hin, Ek; eauto). split; [done|]. split.
    + intros m' i. rewrite Hk, elem_of_difference, elem_of_singleton, Hin.
      destruct (decide (m' = m ∧ i = a_id w)) as [[-> ->]|Hn]; [split; [naive_solver|by intros [? ?]]|naive_solver].
    + intros m' i x. rewrite Hk. case_decide; [done|apply Hid].
Qed.

(** The calls that remove the listeners of one mode, and of all. *)
Lemma disable_mode m (l : list (Z * Attr)) s :
  NoDup l.*1 → (∀ i w, (i, w) ∈ l → a_id w = i ∧ (m, i) ∈ s) →
  ∃ s', foldl rx_effect (Some s) ((λ '(_, w), RxDisable m w) <$> l) = Some s' ∧
    ∀ m' i, (m', i) ∈ s' ↔ (m', i) ∈ s ∧ ¬ (m' = m ∧ i ∈ l.*1).
Proof.
  revert s. induction l as [|[i w] l IH]; intros s Hn Hl; cbn; [exists s; set_solver|].
  cbn in Hn. apply NoDup_cons in Hn as [Hi Hn]. destruct (Hl i w) as [<- Hin]; [set_solver|].
  rewrite decide_True by done.
  destruct (IH (s ∖ {[(m, a_id w)]}) Hn) as (s' & E & Hs').
  { intros j x Hx. destruct (Hl j x) as [Ej Hj]; [set_solver|]. split; [done|].
    apply elem_of_difference. split; [done|]. rewrite elem_of_singleton. intros [= ->].
    apply Hi. by apply (list_elem_of_fmap_2 fst _ (a_id w, x)). }
  exists s'. split; [done|]. intros m' j. rewrite Hs', elem_of_difference, elem_of_singleton.
  rewrite elem_of_cons. split; [intros [[? Hne] ?]; split; [done|]; intros [-> [->|?]]; naive_solver|].
  intros [? Hne]. split; [split; [done|]|]; naive_solver.
Qed.

Lemma disable_modes (l : list (OptionalMode * gmap Z Attr)) s :
  NoDup l.*1 → (∀ m ws i w, (m, ws) ∈ l → ws !! i = Some w → a_id w = i ∧ (m, i) ∈ s) →
  ∃ s', foldl rx_effect (Some s) (l ≫= λ '(m, ws), (λ '(_, w), RxDisable m w) <$> map_to_list ws) = Some s' ∧
    ∀ m i, (m, i) ∈ s' ↔ (m, i) ∈ s ∧ ∀ ws, (m, ws) ∈ l → ws !! i = None.
Proof.
  revert s. induction l as [|[m ws] l IH]; intros s Hn Hl; cbn [mbind list_bind]; [exists s; set_solver|].
  cbn in Hn. apply NoDup_cons in Hn as [Hm Hn]. rewrite foldl_app.
  destruct (disable_mode m (map_to_list ws) s) as (s1 & -> & H1).
  { apply NoDup_fst_map_to_list. }
  { intros i w Hx. apply elem_of_map_to_list in Hx. apply (Hl m ws i w); [set_solver|done]. }
  assert (∀ i, i ∈ (map_to_list ws).*1 ↔ is_Some (ws !! i)) as Hdom.
  { intros i. rewrite list_elem_of_fmap. split.
    - intros ([? w] & -> & Hx%elem_of_map_to_list). cbn. eauto.
    - intros [w Hw]. exists (i, w). split; [done|by apply elem_of_map_to_list]. }
  destruct (IH s1 Hn) as (s' & E & Hs').
  { intros m' ws' i w Hx Hw. destruct (Hl m' ws' i w) as [E Hin]; [set_solver|done|]. split; [done|].
    apply H1. split; [done|]. intros [-> _]. apply Hm. by apply (list_elem_of_fmap_2 fst _ (m, ws')). }
  exists s'. split; [done|]. intros m' i. rewrite Hs', H1, Hdom. split.
  - intros ([Hin Hne] & Hrest). split; [done|]. intros ws' [[= -> ->]|Hx]%elem_of_cons; [|by apply Hrest].
    destruct (ws !! i) eqn:E'; [|done]. exfalso. apply Hne. eauto.
  - intros [Hin Hrest]. split; [split; [done|]|set_solver]. intros [-> [w Hw]].
    specialize (Hrest ws ltac:(set_solver)). congruence.
Qed.

(** The hybrid receiver's bookkeeping: through any joins and leaves of writers,
    repeated ones included, it never adds a listener twice nor removes one that is not
    there; the listeners added and not removed are those of the writers it knows, and when
    it is destroyed every listener has been removed. *)
Theorem hybrid_receiver_balanced conf attr l :
  let h := hr_run (HybridReceiver_new conf attr) l in
  (∃ s, listeners (rx_calls h) = Some s ∧ ∀ m i, (m, i) ∈ s ↔ is_Some (known h m i)) ∧
  listeners (rx_calls (ClearTransmitters h)) = Some ∅.
Proof.
  intros h. assert (hr_inv h) as (s & Hs & Hin & Hid).
  { unfold h, hr_run. induction l as [|v l IH] using rev_ind; [|rewrite foldl_snoc; by apply hr_inv_step].
    exists ∅. split; [done|]. assert (∀ m i, known (HybridReceiver_new conf attr) m i = None) as Hk.
    { intros m i. unfold known. cbn [HybridReceiver_new hr_transmitters].
      generalize (modes (ObtainConfig conf)). induction l as [|x k IH]; cbn; [done|].
      destruct (decide (x = m)) as [->|]; [by rewrite lookup_insert_eq|by rewrite lookup_insert_ne]. }
    split; [|intros m i w; by rewrite Hk]. intros m i. cbn. rewrite Hk. split; [set_solver|by intros [? ?]]. }
  split; [by exists s|]. unfold ClearTransmitters, listeners in *. cbn [rx_calls]. rewrite foldl_app, Hs.
  destruct (disable_modes (map_to_list (hr_transmitters h)) s) as (s' & -> & Hs').
  { apply NoDup_fst_map_to_list. }
  { intros m ws i w Hx%elem_of_map_to_list Hw. assert (known h m i = Some w) as Hk by (unfold known; by rewrite Hx).
    split; [by eapply Hid|]. apply Hin. by rewrite Hk. }
  f_equal. apply set_eq. intros [m i]. rewrite Hs', Hin. split; [|set_solver]. intros [[w Hw] Hno]. unfold known in Hw.
  destruct (hr_transmitters h !! m) as [ws|] eqn:E; [|done]. cbn in Hw.
  rewrite (Hno ws) in Hw by (by apply elem_of_map_to_list). done.
Qed.
End hybrid.

(** ** Witnesses *)

Definition attr_at (ip : string) (pid i : Z) : Attr :=
  mkAttr "c" ip pid i false false (mkHistoryAttributes HISTORY_KEEP_LAST 1).

(** Two readers in another process; one leaves. *)
Lemma hybrid_serves_witness :
  let r1 := attr_at "h" 2 20 in
  let r2 := attr_at "h" 2 21 in
  serves (ht_run (mkEnv true true true) (HybridTransmitter_new None false None (attr_at "h" 1 10))
    [Join r1; Join r2; Leave r1]) r2 tt = true.
Proof.
  intros r1 r2. rewrite (hybrid_serves None false None (attr_at "h" 1 10) [Join r1; Join r2; Leave r1] r2 SHM tt).
  - vm_compute. reflexivity.
  - cbn. lia.
  - cbn. split; [done|]. split; [done|]. split; [|done]. apply elem_of_cons. by left.
  - reflexivity.
Defined.

(** Two readers in the writer's process; one leaves. *)
Lemma first_leave_silences_witness :
  let r1 := attr_at "h" 1 20 in
  let r2 := attr_at "h" 1 21 in
  let h := HybridTransmitter_new None false None (attr_at "h" 1 10) in
  serves (ht_run (mkEnv true true true) h [Join r1; Join r2]) r2 tt = true ∧
  serves (ht_run (mkEnv true true true) h [Join r1; Join r2; Leave r1]) r2 tt = false.
Proof.
  intros r1 r2 h. split; [vm_compute; reflexivity|].
  apply (first_leave_silences None false None (attr_at "h" 1 10) [Join r1; Join r2] r1 r2 INTRA tt); [done|reflexivity..].
Defined.

(** The history channels of writer 1 for reader 23 and of writer 12 for reader 3 are one. *)
Example history_channel_collision :
  history_channel (attr_at "h" 1 1) (attr_at "h" 1 23) = history_channel (attr_at "h" 1 12) (attr_at "h" 1 3).
Proof. vm_compute. reflexivity. Qed.
