(* ===== verification/ShmTransport.v ===== *)
(** * Messages through shared memory (cyber/transport/transmitter/shm_transmitter.h,
      dispatcher/shm_dispatcher.h, shm_dispatcher.cc)

    The path of a message from one process to another: the transmitter acquires a block
    of the channel's segment, serializes the message and its information into the block's
    buffer, releases the block and notifies; the dispatcher of the other process listens
    for notifications, locks the block, parses and calls the listeners.  The file puts
    Segment, WireFormat, ConditionNotifier and ListenerHandler together over one memory:
    bytes by region and offset.

    [ByteSize], [SerializeToArray] and [ParseFromArray] of cyber/message are arguments, and
    so is [arena_wrapper], the kilobyte that stands for a message in an arena (it comes from
    the protobuf arena manager, which is not modelled: an arena listener is given these
    bytes).  Processes take turns; within a turn nobody else runs. *)

From stdpp Require Import base numbers list gmap strings.
From Stdlib Require Import ZArith Lia.
From S2P Require Import Prelude Signal ListenerHandler WireFormat ConditionNotifier ShmBlock ShmConf Segment.

Open Scope Z_scope.

(** ** Memory *)

Abbreviation Mem := (gmap (nat * Z) Z).

Fixpoint write_mem (me : Mem) (r : nat) (a : Z) (bs : list Z) : Mem :=
  match bs with
  | [] => me
  | b :: bs => write_mem (<[(r, a) := b]> me) r (a + 1) bs
  end.
Definition read_mem (me : Mem) (r : nat) (a : Z) (n : nat) : list Z :=
  (λ i, default 0 (me !! (r, a + Z.of_nat i))) <$> seq 0 n.

Record World := mkWorld { shm : Shm; mem : Mem }.

(** [wb.block->set_..(v)] on block [i] of the mapped region. *)
Definition at_block (m : Shm) (s : Segment) (i : Z) (f : Block → Block) : option Shm :=
  '(r, rg) ← mapped m s;
  b ← blocks rg !! Z.to_nat i;
  Some (set_region m r (set_blocks rg (<[Z.to_nat i := f b]> (blocks rg)))).
Definition at_arena_block (m : Shm) (s : Segment) (i : Z) (f : Block → Block) : option Shm :=
  '(r, rg) ← mapped m s;
  b ← arena_blocks rg !! Z.to_nat i;
  Some (set_region m r (set_arena rg (<[Z.to_nat i := f b]> (arena_blocks rg)))).

Section transport.
Context (V : Virtuals) (Hash : list Z → Z).
Context {M : Type}.
Context (ByteSize : M → Z) (SerializeToArray : M → Z → option (list Z)) (ParseFromArray : list Z → option M).
Context (arena_wrapper : M → option (list Z)).

(** ** The transmitter *)

Record ShmTx := mkShmTx {
  tx_enabled : bool;
  tx_segment : Segment;
  tx_host_id : Z;
  tx_channel_id : Z;
  tx_arena : bool;           (* arena_transmit_ *)
  tx_serialized : Z          (* serialized_receiver_count_ *)
}.
Definition set_segment (t : ShmTx) (s : Segment) : ShmTx :=
  mkShmTx (tx_enabled t) s (tx_host_id t) (tx_channel_id t) (tx_arena t) (tx_serialized t).

(** The message information into the bytes behind the message. *)
Definition put_info (me : Mem) (r : nat) (a : Z) (info : MessageInfo) : option Mem :=
  write_mem me r a <$> SerializeTo_buffer info (read_mem me r a (Z.to_nat MessageInfo_kSize)) MessageInfo_kSize.

(** From [AcquireBlockToWrite] to [ReleaseWrittenBlock]: the block written, or none. *)
Definition put_message (fuel : nat) (k : Kernel) (w : World) (s : Segment) (msg : M) (info : MessageInfo)
  : option (World * Segment * option Z) :=
  let msg_size := ByteSize msg in
  '(m, s, owb) ← AcquireBlockToWrite V fuel k (shm w) s msg_size;
  match owb with
  | None => Some (mkWorld m (mem w), s, None)
  | Some wb =>
      r ← managed_shm_ s;
      a ← buf wb;
      match SerializeToArray msg (i32 msg_size) with
      | None =>
          '(m, s, _) ← ReleaseWrittenBlock m s (index wb);
          Some (mkWorld m (mem w), s, None)
      | Some bs =>
          let me := write_mem (mem w) r a bs in
          m ← at_block m s (index wb) (λ b, set_msg_size b msg_size);
          match put_info me r (a + msg_size) info with
          | None =>
              '(m, s, _) ← ReleaseWrittenBlock m s (index wb);
              Some (mkWorld m me, s, None)
          | Some me =>
              m ← at_block m s (index wb) (λ b, set_msg_info_size b MessageInfo_kSize);
              '(m, s, _) ← ReleaseWrittenBlock m s (index wb);
              Some (mkWorld m me, s, Some (index wb))
          end
      end
  end.

(** The same for the arena block, which stays locked. *)
Definition arena_msg_size : Z := 1024.
Definition put_arena (fuel : nat) (k : Kernel) (w : World) (s : Segment) (msg : M) (info : MessageInfo)
  : option (World * Segment * option Z) :=
  '(m, s, owb) ← AcquireArenaBlockToWrite V fuel k (shm w) s;
  match owb with
  | None => Some (mkWorld m (mem w), s, None)
  | Some wb =>
      r ← managed_shm_ s;
      a ← buf wb;
      match arena_wrapper msg with
      | None =>
          '(m, s, _) ← ReleaseArenaWrittenBlock m s (index wb);
          Some (mkWorld m (mem w), s, None)
      | Some bs =>
          let me := write_mem (mem w) r a (take (Z.to_nat arena_msg_size) bs) in
          m ← at_arena_block m s (index wb) (λ b, set_msg_size b arena_msg_size);
          match put_info me r (a + arena_msg_size) info with
          | None =>
              '(m, s, _) ← ReleaseArenaWrittenBlock m s (index wb);
              Some (mkWorld m me, s, None)
          | Some me =>
              m ← at_arena_block m s (index wb) (λ b, set_msg_info_size b MessageInfo_kSize);
              Some (mkWorld m me, s, Some (index wb))
          end
      end
  end.

(** [ShmTransmitter::Transmit(msg, msg_info)]. *)
Definition Transmit (fuel : nat) (k : Kernel) (n : Notifier) (w : World) (ind : Indicator) (t : ShmTx) (msg : M)
    (info : MessageInfo) : option (World * Indicator * ShmTx * bool) :=
  if negb (tx_enabled t) then Some (w, ind, t, false)
  else if tx_arena t then
    '(w, s, oai) ← put_arena fuel k w (tx_segment t) msg info;
    match oai with
    | None => Some (w, ind, set_segment t s, false)
    | Some ai =>
        if 0 <? tx_serialized t then
          '(w, s, oi) ← put_message fuel k w s msg info;
          match oi with
          | None => Some (w, ind, set_segment t s, false)
          | Some i =>
              '(m, s, _) ← ReleaseArenaWrittenBlock (shm w) s ai;
              let '(ind, ok) := Notify n ind (mkReadableInfo (tx_host_id t) i ai (tx_channel_id t)) in
              Some (mkWorld m (mem w), ind, set_segment t s, ok)
          end
        else
          '(m, s, _) ← ReleaseArenaWrittenBlock (shm w) s ai;
          let '(ind, ok) := Notify n ind (mkReadableInfo (tx_host_id t) (-1) ai (tx_channel_id t)) in
          Some (mkWorld m (mem w), ind, set_segment t s, ok)
    end
  else
    '(w, s, oi) ← put_message fuel k w (tx_segment t) msg info;
    match oi with
    | None => Some (w, ind, set_segment t s, false)
    | Some i =>
        let '(ind, ok) := Notify n ind (mkReadableInfo (tx_host_id t) i (-1) (tx_channel_id t)) in
        Some (w, ind, set_segment t s, ok)
    end.

(** ** The dispatcher *)

Record ShmDispatcher := mkShmDispatcher {
  sd_is_shutdown : bool;
  sd_host_id : Z;
  segments_ : gmap Z Segment;
  previous_indexes_ : gmap Z Z;
  arena_previous_indexes_ : gmap Z Z;
  msg_listeners_ : gmap Z (Handler nat);
  arena_msg_listeners_ : gmap Z (Handler nat)
}.

Definition UINT32_MAX : Z := 2 ^ 32 - 1.

(** [AddSegment(self_attr)]. *)
Definition AddSegment (d : ShmDispatcher) (channel_id : Z) : ShmDispatcher :=
  match segments_ d !! channel_id with
  | Some _ => d
  | None =>
      mkShmDispatcher (sd_is_shutdown d) (sd_host_id d) (<[channel_id := Segment_new channel_id]> (segments_ d))
        (<[channel_id := UINT32_MAX]> (previous_indexes_ d)) (<[channel_id := UINT32_MAX]> (arena_previous_indexes_ d))
        (msg_listeners_ d) (arena_msg_listeners_ d)
  end.

(** Every handler here is a [ListenerHandler<ReadableBlock>]. *)
Definition readable_block : string := "ReadableBlock".
Definition handler_of (ls : gmap Z (Handler nat)) (channel_id : Z) : Handler nat :=
  default (Handler_new readable_block) (ls !! channel_id).

(** Both [Dispatcher::AddListener]s, and both [AddArenaListener]s: the latter connect the
    listener for every sender. *)
Definition Dispatcher_AddListener (d : ShmDispatcher) (self_id channel_id : Z) (oppo : option Z) (listener : nat)
  : ShmDispatcher :=
  if sd_is_shutdown d then d
  else mkShmDispatcher false (sd_host_id d) (segments_ d) (previous_indexes_ d) (arena_previous_indexes_ d)
         (<[channel_id := listen (handler_of (msg_listeners_ d) channel_id) self_id oppo listener]> (msg_listeners_ d))
         (arena_msg_listeners_ d).
Definition AddArenaListener (d : ShmDispatcher) (self_id channel_id : Z) (oppo : option Z) (listener : nat)
  : ShmDispatcher :=
  if sd_is_shutdown d then d
  else mkShmDispatcher false (sd_host_id d) (segments_ d) (previous_indexes_ d) (arena_previous_indexes_ d)
         (msg_listeners_ d)
         (<[channel_id := Handler_Connect (handler_of (arena_msg_listeners_ d) channel_id) self_id listener]>
            (arena_msg_listeners_ d)).

(** Both [ShmDispatcher::AddListener]s; [arena] is whether the channel is an arena channel
    and the message type neither of the raw ones. *)
Definition AddListener (d : ShmDispatcher) (arena : bool) (self_id channel_id : Z) (oppo : option Z) (listener : nat)
  : ShmDispatcher :=
  AddSegment (if arena then AddArenaListener d self_id channel_id oppo listener
              else Dispatcher_AddListener d self_id channel_id oppo listener) channel_id.

(** Both [RemoveListener]s, inherited from [Dispatcher]. *)
Definition RemoveListener (d : ShmDispatcher) (self_id channel_id : Z) (oppo : option Z) : ShmDispatcher :=
  if sd_is_shutdown d then d
  else match msg_listeners_ d !! channel_id with
       | None => d
       | Some h =>
           mkShmDispatcher false (sd_host_id d) (segments_ d) (previous_indexes_ d) (arena_previous_indexes_ d)
             (<[channel_id := stop_listening h self_id oppo]> (msg_listeners_ d)) (arena_msg_listeners_ d)
       end.

(** A listener called: with a message, or with the bytes of an arena wrapper. *)
Inductive Call := Heard (listener : nat) (msg : M) (info : MessageInfo)
                | HeardArena (listener : nat) (wrapper : list Z) (info : MessageInfo).

(** [OnMessage] with the adapter around each listener: parse, then call. *)
Definition OnMessage (d : ShmDispatcher) (channel_id : Z) (bytes : list Z) (info : MessageInfo) : list Call :=
  if sd_is_shutdown d then []
  else match msg_listeners_ d !! channel_id with
       | None => []
       | Some h =>
           (Handler_Run h (hash_value_ (sender_id_ info))).2 ≫= λ f,
             match ParseFromArray bytes with Some msg => [Heard f msg info] | None => [] end
       end.
Definition OnArenaMessage (d : ShmDispatcher) (channel_id : Z) (bytes : list Z) (info : MessageInfo) : list Call :=
  if sd_is_shutdown d then []
  else match arena_msg_listeners_ d !! channel_id with
       | None => []
       | Some h => (λ f, HeardArena f bytes info) <$> (Handler_Run h (hash_value_ (sender_id_ info))).2
       end.

Definition set_segments (d : ShmDispatcher) (channel_id : Z) (s : Segment) : ShmDispatcher :=
  mkShmDispatcher (sd_is_shutdown d) (sd_host_id d) (<[channel_id := s]> (segments_ d)) (previous_indexes_ d)
    (arena_previous_indexes_ d) (msg_listeners_ d) (arena_msg_listeners_ d).

(** A default [MessageInfo], as the local variable is. *)
Definition no_info : MessageInfo :=
  mkMessageInfo (Identity_new Hash false []) 0 0 (Identity_new Hash false []) 0.

(** What a locked block holds: the message's bytes, and its information if it is one. *)
Definition read_block (me : Mem) (r : nat) (a : Z) (b : Block) : list Z * option MessageInfo :=
  let '(info, ok) :=
    DeserializeFrom_buffer Hash no_info (read_mem me r (a + msg_size_ b) (Z.to_nat (msg_info_size_ b))) (msg_info_size_ b) in
  (read_mem me r a (Z.to_nat (i32 (msg_size_ b))), if ok then Some info else None).

(** [ReadMessage(channel_id, block_index)]. *)
Definition ReadMessage (k : Kernel) (w : World) (d : ShmDispatcher) (channel_id block_index : Z)
  : option (World * ShmDispatcher * list Call) :=
  s ← segments_ d !! channel_id;
  '(m, s, orb) ← AcquireBlockToRead V k (shm w) s block_index;
  let d := set_segments d channel_id s in
  match orb with
  | None => Some (mkWorld m (mem w), d, [])
  | Some rb =>
      '(r, rg) ← mapped m s;
      a ← buf rb;
      b ← blocks rg !! Z.to_nat (index rb);
      let '(bytes, oinfo) := read_block (mem w) r a b in
      let calls := match oinfo with Some info => OnMessage d channel_id bytes info | None => [] end in
      '(m, s, _) ← ReleaseReadBlock m s (index rb);
      Some (mkWorld m (mem w), set_segments d channel_id s, calls)
  end.

(** [ReadArenaMessage(channel_id, arena_block_index)]. *)
Definition ReadArenaMessage (k : Kernel) (w : World) (d : ShmDispatcher) (channel_id arena_block_index : Z)
  : option (World * ShmDispatcher * list Call) :=
  s ← segments_ d !! channel_id;
  '(m, s, orb) ← AcquireArenaBlockToRead V k (shm w) s arena_block_index;
  let d := set_segments d channel_id s in
  match orb with
  | None => Some (mkWorld m (mem w), d, [])
  | Some rb =>
      '(r, rg) ← mapped m s;
      a ← buf rb;
      b ← arena_blocks rg !! Z.to_nat (index rb);
      let calls :=
        match (read_block (mem w) r a b).2 with
        | Some info => OnArenaMessage d channel_id (read_mem (mem w) r a (Z.to_nat arena_msg_size)) info
        | None => []
        end in
      '(m, s, _) ← ReleaseArenaReadBlock m s (index rb);
      Some (mkWorld m (mem w), set_segments d channel_id s, calls)
  end.

(** One turn of [ThreadFunc] with a notification. *)
Definition on_notification (k : Kernel) (w : World) (d : ShmDispatcher) (i : ReadableInfo)
  : option (World * ShmDispatcher * list Call) :=
  if negb (host_id_ i =? sd_host_id d) then Some (w, d, [])
  else
    let channel_id := WireFormat.channel_id_ i in
    match segments_ d !! channel_id with
    | None => Some (w, d, [])
    | Some _ =>
        '(w, d, calls1) ←
          (if negb (block_index_ i =? -1) then
             let d := mkShmDispatcher (sd_is_shutdown d) (sd_host_id d) (segments_ d)
                        (<[channel_id := u32 (block_index_ i)]> (previous_indexes_ d)) (arena_previous_indexes_ d)
                        (msg_listeners_ d) (arena_msg_listeners_ d) in
             ReadMessage k w d channel_id (u32 (block_index_ i))
           else Some (w, d, []));
        '(w, d, calls2) ←
          (if negb (arena_block_index_ i =? -1) then
             let d := mkShmDispatcher (sd_is_shutdown d) (sd_host_id d) (segments_ d) (previous_indexes_ d)
                        (<[channel_id := u32 (arena_block_index_ i)]> (arena_previous_indexes_ d))
                        (msg_listeners_ d) (arena_msg_listeners_ d) in
             ReadArenaMessage k w d channel_id (u32 (arena_block_index_ i))
           else Some (w, d, []));
        Some (w, d, calls1 ++ calls2)
    end.

(** [turns] turns of [ThreadFunc] while the ring stays as it is. *)
Fixpoint ThreadFunc (turns : nat) (k : Kernel) (ind : Indicator) (n : Notifier) (w : World) (d : ShmDispatcher)
  : option (World * ShmDispatcher * list Call) :=
  match turns with
  | O => Some (w, d, [])
  | S turns =>
      if sd_is_shutdown d then Some (w, d, [])
      else
        match Listen [(ind, false)] 100 n with
        | (n, None) => ThreadFunc turns k ind n w d
        | (n, Some i) =>
            '(w, d, calls1) ← on_notification k w d i;
            '(w, d, calls2) ← ThreadFunc turns k ind n w d;
            Some (w, d, calls1 ++ calls2)
        end
  end.

(** Transmitting one message after the other; [None] if one is refused. *)
Fixpoint transmit_all (fuel : nat) (k : Kernel) (n : Notifier) (w : World) (ind : Indicator) (t : ShmTx)
    (l : list (M * MessageInfo)) : option (World * Indicator * ShmTx) :=
  match l with
  | [] => Some (w, ind, t)
  | (msg, info) :: l =>
      match Transmit fuel k n w ind t msg info with
      | Some (w, ind, t, true) => transmit_all fuel k n w ind t l
      | _ => None
      end
  end.
End transport.

(** ** Memory *)

Lemma lookup_write_mem me r a bs r' x :
  write_mem me r a bs !! (r', x) =
  if decide (r' = r ∧ a <= x < a + Z.of_nat (length bs)) then bs !! Z.to_nat (x - a) else me !! (r', x).
Proof.
  revert me a. induction bs as [|b bs IH]; intros me a; cbn [write_mem length].
  - rewrite decide_False by lia. done.
  - rewrite IH. destruct (decide (r' = r ∧ a + 1 <= x < a + 1 + Z.of_nat (length bs))) as [[-> Hx]|Hn].
    + rewrite decide_True by lia. replace (Z.to_nat (x - a)) with (S (Z.to_nat (x - (a + 1)))) by lia. done.
    + destruct (decide ((r', x) = (r, a))) as [[= -> ->]|Hne].
      * rewrite lookup_insert_eq, decide_True, Z.sub_diag by lia. done.
      * rewrite lookup_insert_ne by done. rewrite decide_False; [done|]. intros [-> ?]. apply Hn. split; [done|].
        assert (x ≠ a) by congruence. lia.
Qed.

Lemma length_read_mem me r a n : length (read_mem me r a n) = n.
Proof. unfold read_mem. by rewrite length_fmap, length_seq. Qed.

Lemma lookup_read_mem me r a n i :
  (i < n)%nat → read_mem me r a n !! i = Some (default 0 (me !! (r, a + Z.of_nat i))).
Proof. intros Hi. unfold read_mem. rewrite list_lookup_fmap, lookup_seq_lt by done. done. Qed.

Lemma block_read_write_same me r a bs : read_mem (write_mem me r a bs) r a (length bs) = bs.
Proof.
  apply list_eq. intros i. destruct (decide (i < length bs)%nat) as [Hi|Hi].
  - rewrite lookup_read_mem by done. rewrite lookup_write_mem, decide_True by lia.
    replace (Z.to_nat (a + Z.of_nat i - a)) with i by lia.
    destruct (lookup_lt_is_Some_2 bs i Hi) as [b ->]. done.
  - rewrite !lookup_ge_None_2; [done|lia|rewrite length_read_mem; lia].
Qed.

Lemma read_write_apart me r a bs r' a' n :
  a + Z.of_nat (length bs) <= a' ∨ a' + Z.of_nat n <= a →
  read_mem (write_mem me r a bs) r' a' n = read_mem me r' a' n.
Proof.
  intros Hd. unfold read_mem. apply list_fmap_ext. intros i x Hx. apply lookup_seq in Hx as [-> Hi].
  rewrite lookup_write_mem, decide_False; [done|lia].
Qed.

Lemma bind_numbered {A B C} (f : A → list B) (g : nat → C) (l : list A) :
  (imap (λ j x, (g j, x)) l ≫= λ y, f y.2) = l ≫= f.
Proof. revert g. induction l as [|x l IH]; intros g; cbn; [done|]. f_equal. apply (IH (g ∘ S)). Qed.

(** ** A segment that is open *)

Section delivery.
Context (sizeof_State sizeof_Block : Z) (Hash : list Z → Z).
Context {M : Type}.
Context (ByteSize : M → Z) (SerializeToArray : M → Z → option (list Z)) (ParseFromArray : list Z → option M).
Context (arena_wrapper : M → option (list Z)).
Context (c : ShmConf) (Hc : c ∈ size_classes) (r : nat).

Local Abbreviation V := (Xsi sizeof_State sizeof_Block).
Local Abbreviation off := (block_buf_offset sizeof_State sizeof_Block c).
Local Abbreviation num := (block_num_ c).

(** The region of size class [c] with no block locked. *)
Record open_region (m : Shm) (rg : Region) : Prop := {
  or_region : regions m !! r = Some rg;
  or_class : ShmConf.Update (state_ceiling_ (state rg)) = c;
  or_current : need_remap_ (state rg) = false;
  or_blocks : length (blocks rg) = Z.to_nat num;
  or_free : ∀ i b, blocks rg !! i = Some b → lock_num_ b = 0
}.

(** A process's segment that maps it. *)
Record maps (s : Segment) : Prop := {
  mp_init : init_ s = true;
  mp_region : managed_shm_ s = Some r;
  mp_conf : conf_ s = c;
  mp_addrs : ∀ i, 0 <= i < num → block_buf_addrs_ s !! i = Some (off i)
}.

(** A block that holds a message. *)
Definition holds (me : Mem) (rg : Region) (i : Z) (x : M * MessageInfo) : Prop :=
  ∃ bs lock rest, blocks rg !! Z.to_nat i = Some (mkBlock lock (Z.of_nat (length bs)) MessageInfo_kSize) ∧
    Z.of_nat (length bs) <= ceiling_msg_size_ c ∧ ParseFromArray bs = Some x.1 ∧ info_wf Hash x.2 ∧
    read_mem me r (off i) (length bs) = bs ∧
    read_mem me r (off i + Z.of_nat (length bs)) (Z.to_nat MessageInfo_kSize) = SerializeTo_string x.2 ++ rest.

(** A message that can be sent in this class. *)
Definition sendable (x : M * MessageInfo) : Prop :=
  info_wf Hash x.2 ∧ ∃ bs, ByteSize x.1 = Z.of_nat (length bs) ∧ SerializeToArray x.1 (ByteSize x.1) = Some bs ∧
    ByteSize x.1 <= ceiling_msg_size_ c ∧ ParseFromArray bs = Some x.1.

Lemma class_bounds : 8 <= num <= 512 ∧ 2 ^ 32 mod num = 0 ∧ 0 <= ceiling_msg_size_ c < 2 ^ 31 ∧
  ceiling_msg_size_ c + MessageInfo_kSize <= block_buf_size_ c.
Proof.
  destruct (class_block_num c Hc) as [? ?]. split; [done|]. split; [done|].
  apply (size_classes_Forall (λ c, 0 <= ceiling_msg_size_ c < 2 ^ 31 ∧
    ceiling_msg_size_ c + MessageInfo_kSize <= block_buf_size_ c) c); [|done].
  unfold size_classes. cbn [map]. repeat constructor; done.
Qed.

(** The buffers of different blocks are apart. *)
Lemma buffers_apart i j n n' :
  i ≠ j → 0 <= n <= block_buf_size_ c → 0 <= n' <= block_buf_size_ c → off i + n <= off j ∨ off j + n' <= off i.
Proof. intros Hij Hn Hn'. unfold block_buf_offset. destruct (Z.lt_gt_cases i j) as [H _]. specialize (H Hij). nia. Qed.

Lemma set_region_twice m rg rg' : set_region (set_region m r rg) r rg' = set_region m r rg'.
Proof. unfold set_region. cbn. by rewrite insert_insert_eq. Qed.

Lemma mapped_set m s rg : managed_shm_ s = Some r → mapped (set_region m r rg) s = Some (r, rg).
Proof. intros Hs. unfold mapped. rewrite Hs. cbn. by rewrite lookup_insert_eq. Qed.

Lemma at_block_set m s rg i b f :
  managed_shm_ s = Some r → blocks rg !! Z.to_nat i = Some b →
  at_block (set_region m r rg) s i f = Some (set_region m r (set_blocks rg (<[Z.to_nat i := f b]> (blocks rg)))).
Proof.
  intros Hs Hb. unfold at_block. rewrite mapped_set by done. cbn. rewrite Hb. cbn. by rewrite set_region_twice.
Qed.

Lemma on_block_set m s rg i b f :
  maps s → 0 <= i < num → blocks rg !! Z.to_nat i = Some b →
  on_block (set_region m r rg) s i f =
  Some (set_region m r (set_blocks rg (<[Z.to_nat i := f b]> (blocks rg))), s, true).
Proof.
  intros Hs Hi Hb. unfold on_block. rewrite (mp_conf _ Hs), (proj2 (Z.leb_gt _ _)) by lia.
  rewrite mapped_set by apply Hs. cbn. rewrite Hb. cbn. by rewrite set_region_twice.
Qed.

(** The first block tried is free. *)
Lemma acquire_first fuel k m s rg size :
  open_region m rg → maps s → size <= ceiling_msg_size_ c →
  let i := seq_ (state rg) mod num in
  let rg1 := mkRegion (FetchAddSeq (state rg) 1).1 in
  ∃ b, blocks rg !! Z.to_nat i = Some b ∧
    AcquireBlockToWrite V (S fuel) k m s size =
    Some (set_region m r (rg1 (<[Z.to_nat i := set_lock_num b kWriteExclusive]> (blocks rg)) (arena_blocks rg)), s,
          Some (mkWritableBlock i (Some (off i)))).
Proof.
  intros [Hr Hcl Hnr Hl Hf] Hs Hsz i rg1. destruct class_bounds as (Hn & _).
  assert (0 <= i < num) as Hi by (apply Z.mod_pos_bound; lia).
  destruct (lookup_lt_is_Some_2 (blocks rg) (Z.to_nat i)) as [b Hb]; [lia|]. exists b. split; [done|].
  unfold AcquireBlockToWrite, remap_if_needed, mapped. rewrite (mp_init _ Hs). cbn [mbind option_bind negb].
  rewrite (mp_region _ Hs). cbn [mbind option_bind]. rewrite Hr. cbn [mbind option_bind]. rewrite Hnr.
  cbn [mbind option_bind negb]. rewrite (mp_conf _ Hs), (proj2 (Z.ltb_ge _ _)) by lia.
  cbn [mbind option_bind negb]. rewrite (mp_region _ Hs). cbn [mbind option_bind]. rewrite Hr.
  cbn [mbind option_bind next_writable FetchAddSeq]. rewrite (mp_conf _ Hs). fold i. cbn [blocks set_state]. rewrite Hb. cbn [mbind option_bind].
  unfold TryLockForWrite. rewrite (Hf _ _ Hb). cbn. by rewrite (mp_addrs _ Hs) by done.
Qed.

(** The region with a message written into block [i]. *)
Definition written (rg : Region) (i size : Z) : Region :=
  mkRegion (FetchAddSeq (state rg) 1).1 (<[Z.to_nat i := mkBlock 0 size MessageInfo_kSize]> (blocks rg)) (arena_blocks rg).

Lemma SerializeTo_string_length info : info_wf Hash info → length (SerializeTo_string info) = 40%nat.
Proof.
  intros ([Hls _] & [Hlp _] & _). unfold SerializeTo_string, ID_SIZE in *.
  by rewrite !length_app, !length_take, !length_le_bytes, Hls, Hlp.
Qed.

Lemma put_info_ok me a info :
  info_wf Hash info → ∃ ib rest, put_info me r a info = Some (write_mem me r a ib) ∧
    length ib = Z.to_nat MessageInfo_kSize ∧ ib = SerializeTo_string info ++ rest.
Proof.
  intros Hi. unfold put_info. rewrite (SerializeTo_buffer_bytes Hash) by (rewrite ?length_read_mem; done || (unfold MessageInfo_kSize; lia)).
  eexists _, _. split; [reflexivity|]. split; [|reflexivity].
  rewrite length_app, SerializeTo_string_length, length_drop, length_read_mem by done. done.
Qed.

(** Acquiring, writing and releasing, in one. *)
Lemma put_message_ok fuel k w s rg x :
  open_region (shm w) rg → maps s → sendable x →
  let i := seq_ (state rg) mod num in
  ∃ bs ib rest, ByteSize x.1 = Z.of_nat (length bs) ∧ ByteSize x.1 <= ceiling_msg_size_ c ∧ ParseFromArray bs = Some x.1 ∧
    length ib = Z.to_nat MessageInfo_kSize ∧ ib = SerializeTo_string x.2 ++ rest ∧
    put_message V ByteSize SerializeToArray (S fuel) k w s x.1 x.2 =
    Some (mkWorld (set_region (shm w) r (written rg i (ByteSize x.1)))
            (write_mem (write_mem (mem w) r (off i) bs) r (off i + ByteSize x.1) ib), s, Some i).
Proof.
  intros Ho Hs (Hinfo & bs & Hbs & Hser & Hsz & Hparse) i. destruct class_bounds as (Hn & _ & Hceil & _).
  assert (0 <= i < num) as Hi by (apply Z.mod_pos_bound; lia).
  destruct (acquire_first fuel k (shm w) s rg (ByteSize x.1) Ho Hs Hsz) as (b & Hb & Hacq). fold i in Hb, Hacq.
  destruct (put_info_ok (write_mem (mem w) r (off i) bs) (off i + ByteSize x.1) x.2 Hinfo) as (ib & rest & Hput & Hib & Hrest).
  exists bs, ib, rest. split_and!; try done. unfold put_message. rewrite Hacq. cbn [mbind option_bind].
  rewrite (mp_region _ Hs). cbn [mbind option_bind buf index].
  rewrite i32_small, Hser by (unfold is_i32; lia).
  pose proof (lookup_lt_Some _ _ _ Hb) as Hlt.
  erewrite at_block_set by (done || apply Hs || by apply list_lookup_insert_eq). cbn [mbind option_bind].
  rewrite Hput. cbn [blocks set_blocks]. rewrite list_insert_insert_eq.
  erewrite at_block_set by (done || apply Hs || by apply list_lookup_insert_eq). cbn [mbind option_bind blocks set_blocks].
  rewrite list_insert_insert_eq. unfold ReleaseWrittenBlock.
  erewrite on_block_set by (done || apply Hs || by apply list_lookup_insert_eq). cbn [mbind option_bind blocks set_blocks].
  rewrite list_insert_insert_eq. done.
Qed.

Lemma written_open m rg i size : open_region m rg → open_region (set_region m r (written rg i size)) (written rg i size).
Proof.
  intros [Hr Hcl Hnr Hl Hf]. split; cbn; [apply lookup_insert_eq|done|done|by rewrite length_insert|].
  intros j b Hj. apply list_lookup_insert_Some in Hj as [(_ & <- & _)|[_ Hj]]; [done|by eapply Hf].
Qed.

(** What the other blocks hold stays. *)
Lemma put_message_holds me rg i bs ib rest x :
  0 <= i < num → length (blocks rg) = Z.to_nat num → Z.of_nat (length bs) <= ceiling_msg_size_ c →
  ParseFromArray bs = Some x.1 → info_wf Hash x.2 →
  length ib = Z.to_nat MessageInfo_kSize → ib = SerializeTo_string x.2 ++ rest →
  let n := Z.of_nat (length bs) in
  let me' := write_mem (write_mem me r (off i) bs) r (off i + n) ib in
  holds me' (written rg i n) i x ∧
  ∀ j y, j ≠ i → 0 <= j → holds me rg j y → holds me' (written rg i n) j y.
Proof.
  intros Hi Hl Hsz Hparse Hinfo Hib Hrest n me'. destruct class_bounds as (Hn & _ & Hceil & Hbuf).
  assert (MessageInfo_kSize = 44) as Hk by done. split.
  - exists bs, 0, rest. split; [cbn; apply list_lookup_insert_eq; lia|]. split_and!; try done.
    + unfold me'. rewrite read_write_apart by lia. apply block_read_write_same.
    + unfold me', n. rewrite <- Hib, block_read_write_same. done.
  - intros j y Hj Hj0 (bs' & lock & rest' & Hb & Hsz' & Hp' & Hi' & Hr1 & Hr2).
    exists bs', lock, rest'. split; [cbn; rewrite list_lookup_insert_ne by lia; done|]. split_and!; try done.
    + rewrite <- Hr1 at 2. unfold me'.
      destruct (buffers_apart i j (n + 44) (Z.of_nat (length bs'))) as [H|H]; [done|lia|lia| |];
        rewrite !read_write_apart by lia; done.
    + rewrite <- Hr2. unfold me'.
      destruct (buffers_apart i j (n + 44) (Z.of_nat (length bs') + 44)) as [H|H]; [done|lia|lia| |];
        rewrite !read_write_apart by lia; done.
Qed.

(** ** The writer's side *)

Local Abbreviation transmit := (Transmit V ByteSize SerializeToArray arena_wrapper).

Lemma transmit_one fuel k n w ind t rg x :
  tx_enabled t = true → tx_arena t = false → maps (tx_segment t) → is_shutdown_ n = false →
  open_region (shm w) rg → sendable x →
  let i := seq_ (state rg) mod num in
  ∃ w', transmit (S fuel) k n w ind t x.1 x.2 =
      Some (w', (Notify n ind (mkReadableInfo (tx_host_id t) i (-1) (tx_channel_id t))).1, t, true) ∧
    names (shm w') = names (shm w) ∧ open_region (shm w') (written rg i (ByteSize x.1)) ∧
    holds (mem w') (written rg i (ByteSize x.1)) i x ∧
    ∀ j y, j ≠ i → 0 <= j → holds (mem w) rg j y → holds (mem w') (written rg i (ByteSize x.1)) j y.
Proof.
  intros He Ha Hs Hn Ho Hx i. pose proof Hx as [Hinfo _]. destruct class_bounds as (Hnum & _).
  assert (0 <= i < num) as Hi by (apply Z.mod_pos_bound; lia).
  destruct (put_message_ok fuel k w (tx_segment t) rg x Ho Hs Hx) as (bs & ib & rest & Hsz & Hle & Hp & Hib & Hrest & Hput).
  fold i in Hput. destruct (put_message_holds (mem w) rg i bs ib rest x) as [H1 H2];
    [done|apply Ho|lia|done|done|done|done|]. rewrite <- Hsz in H1, H2.
  eexists. split.
  - unfold Transmit. rewrite He, Ha, Hput. cbn [negb mbind option_bind]. unfold Notify. rewrite Hn. cbn [negb].
    destruct (notify_reserve ind) as [ind1 seq]. cbn [fst]. unfold set_segment. by destruct t.
  - split; [done|]. split; [by apply written_open|]. done.
Qed.

Section several.
Context (q0 : Z).
Local Abbreviation idx := (λ j : nat, (q0 + Z.of_nat j) mod num).

Lemma idx_inj j j' : (j < Z.to_nat num)%nat → (j' < Z.to_nat num)%nat → idx j = idx j' → j = j'.
Proof.
  intros Hj Hj' He. destruct class_bounds as (Hnum & _).
  assert (q0 + Z.of_nat j = q0 + Z.of_nat j'); [|lia].
  apply (ring_idx_inj num); [lia|unfold ring_idx; by rewrite He|lia].
Qed.

(** The notifications of the messages from the [k]-th on. *)
Definition infos_from (t : ShmTx) (k : nat) (l : list (M * MessageInfo)) : list ReadableInfo :=
  imap (λ j _, mkReadableInfo (tx_host_id t) (idx (k + j)%nat) (-1) (tx_channel_id t)) l.

Lemma transmit_all_ok fuel k n t l :
  tx_enabled t = true → tx_arena t = false → maps (tx_segment t) → is_shutdown_ n = false → Forall sendable l →
  ∀ past w ind rg, open_region (shm w) rg → seq_ (state rg) mod num = idx (length past) →
    (length past + length l <= Z.to_nat num)%nat → (∀ j y, past !! j = Some y → holds (mem w) rg (idx j) y) →
  ∃ w' rg', transmit_all V ByteSize SerializeToArray arena_wrapper (S fuel) k n w ind t l =
      Some (w', notified n ind (infos_from t (length past) l), t) ∧
    open_region (shm w') rg' ∧ names (shm w') = names (shm w) ∧
    ∀ j y, (past ++ l) !! j = Some y → holds (mem w') rg' (idx j) y.
Proof.
  intros He Ha Hs Hn. destruct class_bounds as (Hnum & Hdiv & _).
  induction l as [|x l IH]; intros Hl past w ind rg Ho Hseq Hlen Hpast.
  - exists w, rg. rewrite app_nil_r. done.
  - apply Forall_cons in Hl as [Hx Hl]. cbn [length] in Hlen.
    destruct (transmit_one fuel k n w ind t rg x He Ha Hs Hn Ho Hx) as (w1 & Ht & Hnames & Ho1 & Hnew & Hold).
    rewrite Hseq in Ht, Ho1, Hnew, Hold. cbn [transmit_all]. destruct x as [msg info]. cbn [fst snd] in Ht. rewrite Ht.
    destruct (IH Hl (past ++ [(msg, info)]) w1
      (Notify n ind (mkReadableInfo (tx_host_id t) (idx (length past)) (-1) (tx_channel_id t))).1 _ Ho1)
      as (w' & rg' & E & Ho' & Hnames' & Hh).
    + cbn. rewrite u32_mod_divides by (done || lia). rewrite Z.add_mod, Hseq, <- Z.add_mod by lia.
      rewrite length_app. cbn. f_equal. lia.
    + rewrite length_app. cbn. lia.
    + intros j y Hj. apply lookup_app_Some in Hj as [Hj|[Hj Hy]].
      * apply Hold; [|apply Z.mod_pos_bound; lia|by apply Hpast]. intros Hij. apply lookup_lt_Some in Hj.
        apply idx_inj in Hij; lia.
      * apply list_lookup_singleton_Some in Hy as [Hj0 <-]. replace j with (length past) by lia. done.
    + exists w', rg'. split; [|split; [done|split; [congruence|]]].
      * rewrite E. do 3 f_equal. unfold infos_from. rewrite length_app. cbn [imap]. unfold notified. cbn [foldl].
        rewrite Nat.add_0_r. f_equal. apply imap_ext. intros j y _. cbn. do 2 f_equal. lia.
      * intros j y Hj. apply Hh. rewrite <- app_assoc. done.
Qed.
End several.

(** ** The reader's side *)

(** A segment that maps the region or will when it is first used. *)
Definition can_map (m : Shm) (s : Segment) : Prop :=
  maps s ∨ (init_ s = false ∧ names m !! key_ s = Some r).

Lemma open_mapped k m rg s :
  attach_ok k = true → open_region m rg → can_map m s →
  ∃ m' rg' s', (if init_ s then Some (m, s, true) else Xsi_OpenOnly sizeof_State sizeof_Block k m s) = Some (m', s', true) ∧
    open_region m' rg' ∧ blocks rg' = blocks rg ∧ names m' = names m ∧ maps s'.
Proof.
  intros Hk Ho [Hs|[Hi Hn]].
  - rewrite (mp_init _ Hs). by exists m, rg, s.
  - rewrite Hi. unfold Xsi_OpenOnly. rewrite Hi, Hn, Hk. cbn [negb]. pose proof Ho as [Hr Hcl Hnr Hl Hf]. rewrite Hr.
    cbn [mbind option_bind]. eexists _, (set_state rg (IncreaseReferenceCounts (state rg))), _. split; [reflexivity|]. rewrite Hcl. split; [|split; [reflexivity|split; [done|]]].
    + split; cbn; [apply lookup_insert_eq|done..].
    + split; cbn; [done..|]. intros i Hin. apply lookup_union_Some_l. by apply block_addrs_lookup.
Qed.

Lemma acquire_read k m rg s i b :
  attach_ok k = true → open_region m rg → can_map m s → 0 <= i < num → blocks rg !! Z.to_nat i = Some b →
  ∃ m' rg' s', AcquireBlockToRead V k m s i =
      Some (set_region m' r (set_blocks rg' (<[Z.to_nat i := set_lock_num b 1]> (blocks rg'))), s',
            Some (mkWritableBlock i (Some (off i)))) ∧
    open_region m' rg' ∧ blocks rg' = blocks rg ∧ names m' = names m ∧ maps s'.
Proof.
  intros Hk Ho Hs Hi Hb. destruct (open_mapped k m rg s Hk Ho Hs) as (m' & rg' & s' & E & Ho' & Hbs & Hn & Hs').
  exists m', rg', s'. split; [|done]. unfold AcquireBlockToRead. cbn [OpenOnly Xsi]. rewrite E.
  cbn [mbind option_bind negb]. rewrite (mp_conf _ Hs'), (proj2 (Z.leb_gt _ _)) by lia.
  unfold remap_if_needed, mapped. rewrite (mp_region _ Hs'). cbn [mbind option_bind]. rewrite (or_region _ _ Ho').
  cbn [mbind option_bind]. rewrite (or_current _ _ Ho'). cbn [mbind option_bind negb]. rewrite (mp_region _ Hs').
  cbn [mbind option_bind]. rewrite (or_region _ _ Ho'). cbn [mbind option_bind]. rewrite Hbs, Hb. cbn [mbind option_bind].
  unfold TryLockForRead_alone. rewrite (or_free _ _ Ho _ _ Hb). cbn. by rewrite (mp_addrs _ Hs').
Qed.
(** The calls for a message. *)
Definition heard_by (d : ShmDispatcher) (channel_id : Z) (x : M * MessageInfo) : list Call :=
  match msg_listeners_ d !! channel_id with
  | None => []
  | Some h => (λ f, Heard f x.1 x.2) <$> (ears h None ++ ears h (Some (hash_value_ (sender_id_ x.2))))
  end.

Lemma OnMessage_heard d ch bs x :
  sd_is_shutdown d = false → map_Forall (λ _, handler_inv) (msg_listeners_ d) → ParseFromArray bs = Some x.1 →
  OnMessage ParseFromArray d ch bs x.2 = heard_by d ch x.
Proof.
  intros Hu Hh Hp. unfold OnMessage, heard_by. rewrite Hu. destruct (msg_listeners_ d !! ch) as [h|] eqn:E; [|done].
  rewrite Handler_Run_spec by (by eapply Hh). cbn [snd]. rewrite Hp. generalize (ears h None ++ ears h (Some (hash_value_ (sender_id_ x.2)))).
  induction l as [|f l IH]; cbn; [done|]. by f_equal.
Qed.

Lemma holds_same me rg rg' i x : blocks rg' = blocks rg → holds me rg i x → holds me rg' i x.
Proof. intros Hb. unfold holds. by rewrite Hb. Qed.

(** Reading a block calls the listeners and changes nothing that is held. *)
Lemma read_message_ok k w d rg s ch i x :
  attach_ok k = true → sd_is_shutdown d = false → map_Forall (λ _, handler_inv) (msg_listeners_ d) →
  open_region (shm w) rg → segments_ d !! ch = Some s → can_map (shm w) s → 0 <= i < num → holds (mem w) rg i x →
  ∃ m' rg' s', ReadMessage V Hash ParseFromArray k w d ch i = Some (mkWorld m' (mem w), set_segments d ch s', heard_by d ch x) ∧
    open_region m' rg' ∧ blocks rg' = blocks rg ∧ names m' = names (shm w) ∧ maps s'.
Proof.
  intros Hk Hu Hh Ho Hseg Hs Hi (bs & lock & rest & Hb & Hsz & Hp & Hinfo & Hr1 & Hr2).
  pose proof (or_free _ _ Ho _ _ Hb) as Hlock. cbn in Hlock. subst lock. destruct class_bounds as (_ & _ & Hceil & _).
  destruct (acquire_read k (shm w) rg s i _ Hk Ho Hs Hi Hb) as (m' & rg' & s' & E & Ho' & Hbs & Hn & Hs').
  pose proof (lookup_lt_Some _ _ _ Hb) as Hlt.
  exists (set_region m' r rg'), rg', s'. split.
  - unfold ReadMessage. rewrite Hseg. cbn [mbind option_bind]. rewrite E. cbn [mbind option_bind].
    rewrite mapped_set by apply Hs'. cbn [mbind option_bind buf index blocks set_blocks].
    rewrite Hbs, list_lookup_insert_eq by done. cbn [mbind option_bind]. unfold read_block.
    cbn [msg_size_ msg_info_size_ set_lock_num]. rewrite i32_small, Nat2Z.id by (unfold is_i32; lia). rewrite Hr1, Hr2.
    rewrite DeserializeFrom_bytes by done. rewrite (OnMessage_heard _ _ _ x) by done.
    unfold ReleaseReadBlock. erewrite on_block_set by first [exact Hs'|exact Hi|by apply list_lookup_insert_eq].
    cbn [mbind option_bind blocks set_blocks]. rewrite list_insert_insert_eq. unfold ReleaseReadLock, set_lock_num. cbn [lock_num_ msg_size_ msg_info_size_].
    change (i32 (1 - 1)) with 0. rewrite (list_insert_id (blocks rg) _ _ Hb).
    unfold set_segments. cbn. rewrite insert_insert_eq. do 5 f_equal. rewrite <- Hbs. by destruct rg'.
  - split; [|split; [done|split; [done|done]]]. destruct Ho' as [? ? ? ? ?]. split; try done. apply lookup_insert_eq.
Qed.

(** A dispatcher that listens to the channel. *)
Record attends (w : World) (d : ShmDispatcher) (host ch : Z) : Prop := {
  at_up : sd_is_shutdown d = false;
  at_host : sd_host_id d = host;
  at_handlers : map_Forall (λ _, handler_inv) (msg_listeners_ d);
  at_segment : ∃ s, segments_ d !! ch = Some s ∧ can_map (shm w) s
}.

Lemma notification_ok k w d rg host ch i x :
  attach_ok k = true → attends w d host ch → open_region (shm w) rg → 0 <= i < num → holds (mem w) rg i x →
  ∃ w' rg' d', on_notification V Hash ParseFromArray k w d (mkReadableInfo host i (-1) ch) = Some (w', d', heard_by d ch x) ∧
    attends w' d' host ch ∧ open_region (shm w') rg' ∧ blocks rg' = blocks rg ∧ mem w' = mem w ∧
    msg_listeners_ d' = msg_listeners_ d.
Proof.
  intros Hk [Hu Hhost Hh (s & Hseg & Hs)] Ho Hi Hx. destruct class_bounds as (Hnum & _).
  unfold on_notification. cbn [host_id_ WireFormat.channel_id_ block_index_ arena_block_index_].
  rewrite Hhost, Z.eqb_refl. cbn [negb]. rewrite Hseg.
  rewrite (proj2 (Z.eqb_neq i (-1))) by lia. cbn [negb]. rewrite (u32_small i) by (unfold is_u32; lia).
  set (d1 := mkShmDispatcher _ _ _ _ _ _ _).
  destruct (read_message_ok k w d1 rg s ch i x Hk Hu Hh Ho Hseg Hs Hi Hx) as (m' & rg' & s' & E & Ho' & Hbs & Hn & Hs').
  rewrite E. cbn [mbind option_bind]. change (-1 =? -1) with true. cbn [negb mbind option_bind]. rewrite app_nil_r.
  exists (mkWorld m' (mem w)), rg', (set_segments d1 ch s'). split; [done|]. split; [|done].
  split; [done|done|done|]. exists s'. split; [apply lookup_insert_eq|by left].
Qed.

(** The loop over the notifications that are there. *)
Lemma thread_func_ok k ind host ch :
  attach_ok k = true → ∀ turns n w d rg (l : list (Z * (M * MessageInfo))),
  drain turns ind n = (λ y, mkReadableInfo host y.1 (-1) ch) <$> l → attends w d host ch → open_region (shm w) rg →
  Forall (λ y, 0 <= y.1 < num ∧ holds (mem w) rg y.1 y.2) l →
  ∃ w' d', ThreadFunc V Hash ParseFromArray turns k ind n w d = Some (w', d', l ≫= λ y, heard_by d ch y.2).
Proof.
  intros Hk. induction turns as [|turns IH]; intros n w d rg l Hd Ha Ho Hl.
  { destruct l; [|done]. by exists w, d. }
  cbn [ThreadFunc drain] in *. rewrite (at_up _ _ _ _ Ha).
  assert (Listen [(ind, false)] 100 n = Listen [(ind, false)] 0 n) as Ht.
  { unfold Listen. destruct (is_shutdown_ n); [done|]. cbn. by destruct (listen_once ind (next_seq_ n)) as [[? ?]|]. }
  rewrite Ht. destruct (Listen [(ind, false)] 0 n) as [n' [i|]] eqn:En.
  - destruct l as [|[j x] l]; [done|]. cbn in Hd. injection Hd as -> Hd. apply Forall_cons in Hl as [[Hj Hx] Hl].
    destruct (notification_ok k w d rg host ch j x Hk Ha Ho Hj Hx) as (w1 & rg1 & d1 & E & Ha1 & Ho1 & Hb1 & Hm1 & Hl1).
    cbn [fst]. rewrite E. cbn [mbind option_bind].
    destruct (IH n' w1 d1 rg1 l Hd Ha1 Ho1) as (w' & d' & E').
    { eapply Forall_impl; [exact Hl|]. intros [j' y] [? ?]. rewrite Hm1. split; [done|]. by eapply holds_same. }
    rewrite E'. cbn. exists w', d'. unfold heard_by. by rewrite Hl1.
  - destruct l; [|done]. assert (n' = n) as ->.
    { unfold Listen in En. destruct (is_shutdown_ n); [by injection En|]. cbn in En.
      destruct (listen_once ind (next_seq_ n)) as [[? ?]|]; by injection En. }
    apply (IH n w d rg []); [|done|done|done]. destruct turns; [done|]. cbn [drain]. by rewrite En.
Qed.

End delivery.

(** ** An example: two messages, a reader that has not mapped the segment yet *)

Module Demo.
Definition conf : ShmConf := ShmConf.Update MESSAGE_SIZE_16K.
Definition region : Region :=
  mkRegion (IncreaseReferenceCounts (State_new MESSAGE_SIZE_16K)) (replicate 512 Block_new) (replicate 512 Block_new).
Definition world : World := mkWorld (mkShm {[9 := 0%nat]} {[0%nat := region]} 1) ∅.
Definition segment : Segment := mkSegment true conf 9 (Some 0%nat) (block_addrs 32 32 conf) (arena_addrs 32 32 conf).
Definition tx : ShmTx := mkShmTx true segment 5 9 false 1.
Definition dispatcher : ShmDispatcher :=
  AddListener (mkShmDispatcher false 5 ∅ ∅ ∅ ∅ ∅) false 20 9 (Some 36) 100.
Definition size (m : list Z) : Z := Z.of_nat (length m).
Definition ser (m : list Z) (n : Z) : option (list Z) := if n =? size m then Some m else None.

(** The world is the one that [OpenOrCreate] makes. *)
Lemma world_made : Xsi_OpenOrCreate 32 32 kernel_ok empty_shm (Segment_new 9) = Some (shm world, segment, true).
Proof. vm_compute. reflexivity. Qed.

Lemma region_open : open_region conf 0 (shm world) region.
Proof.
  split; [by apply lookup_singleton_eq|done..|]. intros i b Hb. apply lookup_replicate in Hb as [-> _]. done.
Qed.
Lemma segment_maps : maps 32 32 conf 0 segment.
Proof. split; [done..|]. intros i Hi. by apply block_addrs_lookup. Qed.
Lemma dispatcher_attends : attends 32 32 conf 0 world dispatcher 5 9.
Proof.
  split; [done|done| |].
  - intros ch h Hh.
    change (msg_listeners_ dispatcher) with (<[9 := listen (Handler_new readable_block) 20 (Some 36) 100%nat]> (∅ : gmap Z (Handler nat))) in Hh.
    apply lookup_insert_Some in Hh as [[_ <-]|[_ Hh]]; [|done].
    apply listen_spec, handler_inv_new.
  - exists (Segment_new 9). split; [reflexivity|]. right. split; [done|]. by apply lookup_singleton_eq.
Qed.
Lemma messages_sendable : Forall (sendable sum_hash size ser Some conf) [([1; 2; 3], sample_info); ([4], sample_info)].
Proof.
  repeat constructor; try apply sample_info_wf; eexists; (split; [reflexivity|]); (split; [reflexivity|]);
    (split; [by vm_compute|done]).
Qed.
End Demo.


(** ** Arena listeners and arena blocks *)

Lemma handler_of_insert ls ch h : handler_of (<[ch := h]> ls) ch = h.
Proof. unfold handler_of. by rewrite lookup_insert_eq. Qed.

(** Arena listeners pile up: a receiver that is enabled for several writers of an arena
    channel is called as many times for each message, whoever sent it, and still after it
    was disabled for all of them. *)
Theorem arena_listeners_pile_up {M} d self ch (f : nat) (os gone : list Z) bytes info :
  sd_is_shutdown d = false → arena_msg_listeners_ d !! ch = None →
  let d1 := foldl (λ d o, AddListener d true self ch (Some o) f) d os in
  let d2 := foldl (λ d o, RemoveListener d self ch (Some o)) d1 gone in
  OnArenaMessage (M := M) d2 ch bytes info = replicate (length os) (HeardArena f bytes info).
Proof.
  intros Hu Hn d1 d2.
  assert (sd_is_shutdown d1 = false ∧ handler_inv (handler_of (arena_msg_listeners_ d1) ch) ∧
    (arena_msg_listeners_ d1 !! ch = None → os = []) ∧
    ∀ og, ears (handler_of (arena_msg_listeners_ d1) ch) og = if decide (og = None) then replicate (length os) f else [])
    as (H1 & H2 & H3 & H4).
  { unfold d1. clear d1 d2. induction os as [|o os IH] using rev_ind.
    - cbn [foldl length replicate]. unfold handler_of. rewrite Hn. cbn [default from_option]. split; [done|].
      split; [apply handler_inv_new|]. split; [done|]. intros og. rewrite ears_new. by destruct (decide (og = None)).
    - rewrite foldl_snoc. set (d1 := foldl _ d os) in *. destruct IH as (I1 & I2 & _ & I4).
      destruct (listen_spec (handler_of (arena_msg_listeners_ d1) ch) self None f I2) as (J1 & _ & J2).
      assert (∀ e, arena_msg_listeners_ (AddSegment e ch) = arena_msg_listeners_ e ∧
        sd_is_shutdown (AddSegment e ch) = sd_is_shutdown e) as Has by (intros e; unfold AddSegment; by destruct (segments_ e !! ch)).
      unfold AddListener, AddArenaListener. rewrite I1. destruct (Has (mkShmDispatcher false (sd_host_id d1) (segments_ d1)
        (previous_indexes_ d1) (arena_previous_indexes_ d1) (msg_listeners_ d1)
        (<[ch := Handler_Connect (handler_of (arena_msg_listeners_ d1) ch) self f]> (arena_msg_listeners_ d1)))) as [-> ->].
      cbn [arena_msg_listeners_ sd_is_shutdown]. rewrite !handler_of_insert.
      split; [done|]. split; [exact J1|]. split; [by rewrite lookup_insert_eq|].
      intros og. cbn [listen] in J2. rewrite J2, I4, length_app. repeat case_decide; cbn; try done. by rewrite replicate_add. }
  assert (sd_is_shutdown d2 = false ∧ arena_msg_listeners_ d2 = arena_msg_listeners_ d1) as [E1 E2].
  { unfold d2. clear -H1. induction gone as [|o gone IH] using rev_ind; [done|]. rewrite foldl_snoc.
    set (d2 := foldl _ d1 gone) in *. destruct IH as [I1 I2]. unfold RemoveListener. rewrite I1.
    by destruct (msg_listeners_ d2 !! ch). }
  unfold OnArenaMessage. rewrite E1, E2. unfold handler_of in *.
  destruct (arena_msg_listeners_ d1 !! ch) as [h|]; [|by rewrite H3]. cbn [default from_option id] in *.
  rewrite Handler_Run_spec by done. cbn [snd]. rewrite !H4, decide_True, decide_False, app_nil_r by done.
  by rewrite fmap_replicate.
Qed.

(** When the message behind an arena block cannot be serialized, [Transmit] fails and the
    arena block stays locked for writing. *)
Example arena_block_stays_locked :
  let tx := mkShmTx true Demo.segment 5 9 true 1 in
  match Transmit (Xsi 32 32) Demo.size (λ _ _, None) (λ m, Some m) 1 kernel_ok (mkNotifier 0 false) Demo.world Indicator_new
          tx [1; 2] sample_info with
  | Some (w, _, _, ok) =>
      ok = false ∧ (rg ← regions (shm w) !! 0%nat; b ← arena_blocks rg !! 0%nat; Some (lock_num_ b)) = Some kWriteExclusive
  | None => False
  end.
Proof. vm_compute. done. Qed.
