(* ===== verification/RtpsTransport.v ===== *)
(** * Messages over RTPS (cyber/transport/transmitter/rtps_transmitter.h, rtps/publisher.cc,
      dispatcher/subscriber_listener.cc, dispatcher/rtps_dispatcher.h, .cc)

    What the program does around Fast DDS: the transmitter serializes the message and packs
    the message information into the write parameters of the sample; the listener of the
    other process unpacks it and the dispatcher calls the listeners of the channel.  Fast DDS
    itself is not modelled: a sample is a value, and which reader is given it is up to
    whoever uses this file.  Whether it creates a publisher or a subscriber is an argument.

    [Encode] and [Decode] are SerializeToString and ParseFromString of cyber/message. *)

From stdpp Require Import base numbers list gmap strings.
From Stdlib Require Import ZArith Lia.
From S2P Require Import Prelude Signal ListenerHandler WireFormat.

Open Scope Z_scope.

(** ** Samples *)

Record UnderlayMessage := mkUnderlay { timestamp : Z; seq : Z; data : list Z }.

(** [WriteParams::related_sample_identity()]: the bytes of the guid, the sequence number in
    two halves. *)
Record SampleIdentity := mkSampleIdentity { writer_guid : list Z; high : Z; low : Z }.
Record Sample := mkSample { topic : string; underlay : UnderlayMessage; related : SampleIdentity }.

Record Publisher := mkPublisher { pub_shutdown : bool; pub_topic : string }.

(** [Publisher::Write(msg, msg_info)]: the sample written. *)
Definition Publisher_Write (p : Publisher) (msg : UnderlayMessage) (info : MessageInfo) : option Sample :=
  if pub_shutdown p then None
  else
    let guid := write_at (replicate 16 0) 0 (take ID_SIZE (data_ (sender_id_ info))) in
    let guid := write_at guid ID_SIZE (take ID_SIZE (data_ (spare_id_ info))) in
    Some (mkSample (pub_topic p) msg
            (mkSampleIdentity guid (i32 (Z.shiftr (Z.land (seq_num_ info) 0xFFFFFFFF00000000) 32))
               (i32 (Z.land (seq_num_ info) 0xFFFFFFFF)))).

Section rtps.
Context (Hash : list Z → Z) (HashName : string → Z).
Context {M : Type} (Encode : M → option (list Z)) (Decode : list Z → option M).

(** ** The transmitter *)

Record RtpsTransmitter := mkRtpsTransmitter {
  rt_enabled : bool;
  rt_channel_name : string;
  participant_ : option bool;      (* whether it is shut down *)
  publisher_ : option Publisher
}.

(** [Enable()]; [created] is whether the participant creates the publisher. *)
Definition Rtps_Enable (t : RtpsTransmitter) (created : bool) : RtpsTransmitter :=
  if rt_enabled t then t
  else match participant_ t with
       | None => t
       | Some _ =>
           if created
           then mkRtpsTransmitter true (rt_channel_name t) (participant_ t) (Some (mkPublisher false (rt_channel_name t)))
           else mkRtpsTransmitter false (rt_channel_name t) (participant_ t) None
       end.
Definition Rtps_Disable (t : RtpsTransmitter) : RtpsTransmitter :=
  if rt_enabled t then mkRtpsTransmitter false (rt_channel_name t) (participant_ t) None else t.

(** [Transmit(msg, msg_info)]: the sample that goes out, if any. *)
Definition Transmit (t : RtpsTransmitter) (msg : M) (info : MessageInfo) : option Sample :=
  if negb (rt_enabled t) then None
  else
    bs ← Encode msg;
    let m := mkUnderlay (send_time_ info) (seq_num_ info) bs in
    match participant_ t with
    | Some false => p ← publisher_ t; Publisher_Write p m info
    | _ => None
    end.

(** ** The listener of a reader

    [msg_info_] is a member of the listener; the channel's id in it stays as it is. *)
Definition unpack (msg_info : MessageInfo) (s : Sample) : MessageInfo :=
  let guid := writer_guid (related s) in
  mkMessageInfo (set_data Hash (mkIdentity (replicate ID_SIZE 0) 0) (take ID_SIZE guid)) (msg_channel_id_ msg_info)
    (seq (underlay s)) (set_data Hash (mkIdentity (replicate ID_SIZE 0) 0) (take ID_SIZE (drop ID_SIZE guid)))
    (timestamp (underlay s)).

(** [on_data_available] for samples, [None] one without valid data: the calls of [callback_]. *)
Fixpoint on_data_available (msg_info : MessageInfo) (samples : list (option Sample))
  : MessageInfo * list (list Z * Z * MessageInfo) :=
  match samples with
  | [] => (msg_info, [])
  | None :: l => on_data_available msg_info l
  | Some s :: l =>
      let info := unpack msg_info s in
      let '(info', calls) := on_data_available info l in
      (info', (data (underlay s), HashName (topic s), info) :: calls)
  end.

(** ** The dispatcher *)

Record RtpsDispatcher := mkRtpsDispatcher {
  rd_is_shutdown : bool;
  rd_participant : bool;
  subs_ : gmap Z (option string);        (* the channel each subscriber reads; null after [Shutdown] *)
  rd_listeners : gmap Z (Handler nat)    (* of serialized messages *)
}.
Definition RtpsDispatcher_new : RtpsDispatcher := mkRtpsDispatcher false true ∅ ∅.

Definition Rtps_Shutdown (d : RtpsDispatcher) : RtpsDispatcher :=
  if rd_is_shutdown d then d else mkRtpsDispatcher true false ((λ _, None) <$> subs_ d) (rd_listeners d).

Definition AddSubscriber (d : RtpsDispatcher) (channel_id : Z) (channel_name : string) (created : bool) : RtpsDispatcher :=
  if negb (rd_participant d) then d
  else match subs_ d !! channel_id with
       | Some _ => d
       | None =>
           if created
           then mkRtpsDispatcher (rd_is_shutdown d) true (<[channel_id := Some channel_name]> (subs_ d)) (rd_listeners d)
           else d
       end.

(** Every handler here is a [ListenerHandler<std::string>]. *)
Definition rtps_handler (d : RtpsDispatcher) (channel_id : Z) : Handler nat :=
  default (Handler_new "string") (rd_listeners d !! channel_id).

(** Both [AddListener]s. *)
Definition Rtps_AddListener (d : RtpsDispatcher) (self_id channel_id : Z) (channel_name : string) (oppo : option Z)
    (listener : nat) (created : bool) : RtpsDispatcher :=
  let d :=
    if rd_is_shutdown d then d
    else mkRtpsDispatcher false (rd_participant d) (subs_ d)
           (<[channel_id := listen (rtps_handler d channel_id) self_id oppo listener]> (rd_listeners d)) in
  AddSubscriber d channel_id channel_name created.

Definition Rtps_RemoveListener (d : RtpsDispatcher) (self_id channel_id : Z) (oppo : option Z) : RtpsDispatcher :=
  if rd_is_shutdown d then d
  else match rd_listeners d !! channel_id with
       | None => d
       | Some h => mkRtpsDispatcher false (rd_participant d) (subs_ d)
                     (<[channel_id := stop_listening h self_id oppo]> (rd_listeners d))
       end.

(** [OnMessage] with the adapter around each listener, which parses. *)
Definition Rtps_OnMessage (d : RtpsDispatcher) (channel_id : Z) (msg_str : list Z) (info : MessageInfo)
  : list (nat * M * MessageInfo) :=
  if rd_is_shutdown d then []
  else match rd_listeners d !! channel_id with
       | None => []
       | Some h =>
           (Handler_Run h (hash_value_ (sender_id_ info))).2 ≫= λ f,
             match Decode msg_str with Some msg => [(f, msg, info)] | None => [] end
       end.

(** The subscriber of [channel_id] is given samples. *)
Definition on_samples (d : RtpsDispatcher) (msg_info : MessageInfo) (samples : list (option Sample))
  : MessageInfo * list (nat * M * MessageInfo) :=
  let '(info, calls) := on_data_available msg_info samples in
  (info, calls ≫= λ '(str, channel_id, info), Rtps_OnMessage d channel_id str info).

(** ** Delivery *)

Lemma write_at_guid (a b : list Z) : length a = ID_SIZE → length b = ID_SIZE →
  write_at (write_at (replicate 16 0) 0 a) ID_SIZE b = a ++ b.
Proof.
  unfold ID_SIZE, write_at. intros Ha Hb. rewrite Ha, Hb. simpl.
  rewrite take_app_length' by done. f_equal. rewrite drop_ge; [by rewrite app_nil_r|].
  rewrite length_app. simpl. lia.
Qed.

(** What was packed is what is unpacked, the channel's id apart. *)
Lemma unpack_packed t msg info s info0 :
  id_wf Hash (sender_id_ info) → id_wf Hash (spare_id_ info) → Transmit t msg info = Some s →
  unpack info0 s = mkMessageInfo (sender_id_ info) (msg_channel_id_ info0) (seq_num_ info) (spare_id_ info) (send_time_ info) ∧
  ∃ bs, Encode msg = Some bs ∧ data (underlay s) = bs.
Proof.
  intros Hs Hp Ht. unfold Transmit in Ht. destruct (negb (rt_enabled t)); [done|].
  destruct (Encode msg) as [bs|]; [|done]. simpl in Ht. destruct (participant_ t) as [[]|]; [done| |done].
  destruct (publisher_ t) as [p|]; [|done]. simpl in Ht. unfold Publisher_Write in Ht.
  destruct (pub_shutdown p); [done|]. injection Ht as <-. split; [|by exists bs]. unfold unpack. simpl.
  pose proof Hs as [Hls _]. pose proof Hp as [Hlp _].
  rewrite !(take_ge (data_ _)) by lia. rewrite write_at_guid by done.
  rewrite take_app_length' by done. rewrite drop_app_length' by done. rewrite take_ge by lia.
  rewrite !set_data_wf by done. by rewrite !(id_wf_eta Hash).
Qed.

Lemma Transmit_topic t msg info s : Transmit t msg info = Some s → ∃ p, publisher_ t = Some p ∧ topic s = pub_topic p.
Proof.
  unfold Transmit. destruct (negb _); [done|]. destruct (Encode msg); [|done]. simpl.
  destruct (participant_ t) as [[]|]; [done| |done]. destruct (publisher_ t) as [p|]; [|done]. simpl.
  unfold Publisher_Write. destruct (pub_shutdown p); [done|]. intros [= <-]. by exists p.
Qed.

(** [C21] Messages sent over RTPS: each sample that a reader of the channel is given calls the
    listeners for every sender and those for this sender, in the order of their connection,
    with the message and with the sender, number, spare id and time it was sent with. *)
Theorem rtps_delivers t p d h (l : list (M * MessageInfo)) samples info0 :
  rd_is_shutdown d = false → rd_listeners d !! HashName (pub_topic p) = Some h → handler_inv h →
  publisher_ t = Some p → Forall (λ x, id_wf Hash (sender_id_ x.2) ∧ id_wf Hash (spare_id_ x.2)) l →
  Forall (λ x, ∀ bs, Encode x.1 = Some bs → Decode bs = Some x.1) l →
  Forall2 (λ x s, Transmit t x.1 x.2 = Some s) l samples →
  (on_samples d info0 (Some <$> samples)).2 =
  l ≫= λ x, (λ f, (f, x.1, mkMessageInfo (sender_id_ x.2) (msg_channel_id_ info0) (seq_num_ x.2) (spare_id_ x.2) (send_time_ x.2)))
              <$> ears h None ++ ears h (Some (hash_value_ (sender_id_ x.2))).
Proof.
  intros Hsd Hh Hinv Hp Hwf Hdec Hsent. revert info0 Hwf Hdec.
  induction Hsent as [|[msg info] s l samples Hs _ IH]; intros info0 Hwf Hdec; [done|].
  apply Forall_cons in Hwf as [Hi Hwf], Hdec as [Hd Hdec]. simpl in Hs, Hi, Hd.
  destruct (unpack_packed _ _ _ _ info0 (proj1 Hi) (proj2 Hi) Hs) as (Hu & bs & Hbs & Hdata).
  destruct (Transmit_topic _ _ _ _ Hs) as (p' & Hp' & Ht). rewrite Hp in Hp'. injection Hp' as <-.
  specialize (IH (unpack info0 s) Hwf Hdec). unfold on_samples in *. rewrite fmap_cons. cbn [on_data_available].
  destruct (on_data_available (unpack info0 s) (Some <$> samples)) as [info' calls]. cbn [snd] in *.
  cbn [mbind list_bind]. f_equal.
  - unfold Rtps_OnMessage. rewrite Hsd, Ht, Hh, Handler_Run_spec by done. cbn [snd]. rewrite Hu. cbn [sender_id_].
    rewrite Hdata, (Hd _ Hbs). clear. induction (ears h None ++ _) as [|f fs IH]; [done|]. simpl. by f_equal.
  - setoid_rewrite IH. rewrite Hu. done.
Qed.

(** The receiving side computes the channel's id from the name of the topic, while listeners
    are filed under the id that the name was registered with.  When two names collide, the
    second is registered under another id ([GlobalData]): its messages go to the listeners of
    the first. *)
Lemma rtps_collision_misroutes d name name' id' h h' listener self_id :
  HashName name' = HashName name → id' ≠ HashName name →
  rd_is_shutdown d = false → handler_inv h → handler_inv h' →
  rd_listeners d !! HashName name = Some h → rd_listeners d !! id' = Some h' →
  let d' := Rtps_AddListener d self_id id' name' None listener true in
  ∀ s info msg, topic s = name' → Decode (data (underlay s)) = Some msg →
  ∃ calls, (on_samples d' info [Some s]).2 = (λ f, (f, msg, unpack info s)) <$> calls ∧
    calls = ears h None ++ ears h (Some (hash_value_ (sender_id_ (unpack info s)))).
Proof.
  intros Hc Hne Hsd Hi Hi' Hh Hh' d' s info msg Ht Hd. eexists. split; [|done].
  assert (rd_is_shutdown d' = false ∧ rd_listeners d' !! HashName name = Some h) as [Hs' Hl'].
  { unfold d', Rtps_AddListener. rewrite Hsd. unfold AddSubscriber. cbn [rd_participant subs_].
    destruct (rd_participant d), (subs_ d !! id'); simpl; by rewrite lookup_insert_ne by done. }
  unfold on_samples. cbn [on_data_available]. cbn [snd mbind list_bind]. rewrite app_nil_r.
  unfold Rtps_OnMessage. rewrite Hs', Ht, Hc, Hl', Handler_Run_spec by done. cbn [snd]. rewrite Hd.
  clear. induction (ears h None ++ _) as [|f fs IH]; [done|]. simpl. by f_equal.
Qed.
End rtps.

Arguments Transmit {M}.

(** ** A demonstration *)

Module Demo.
Definition hash (l : list Z) : Z := foldr Z.add 0 l.
Definition name_hash (s : string) : Z := Z.of_nat (String.length s).
Definition writer : Identity := Identity_new hash true [1; 2; 3; 4; 5; 6; 7; 8].
Definition info (n : Z) : MessageInfo := mkMessageInfo writer 3 n writer (1000 + n).
Definition tx : RtpsTransmitter := Rtps_Enable (mkRtpsTransmitter false "abc" (Some false) None) true.
Definition process : RtpsDispatcher :=
  Rtps_AddListener (Rtps_AddListener RtpsDispatcher_new 70 3 "abc" None 7 true) 80 3 "abc" (Some (hash_value_ writer)) 8 true.
Definition encode (m : Z) : option (list Z) := Some [m].
Definition decode (l : list Z) : option Z := head l.
Definition messages : list (Z * MessageInfo) := [(5, info 1); (6, info 2)].
Definition samples : list Sample := omap (λ x, Transmit encode tx x.1 x.2) messages.
End Demo.

Lemma rtps_delivers_witness :
  length Demo.samples = 2%nat ∧
  (on_samples Demo.hash Demo.name_hash Demo.decode Demo.process (Demo.info 0) (Some <$> Demo.samples)).2 =
  [(7%nat, 5, Demo.info 1); (8%nat, 5, Demo.info 1); (7%nat, 6, Demo.info 2); (8%nat, 6, Demo.info 2)].
Proof.
  split; [done|].
  rewrite (rtps_delivers Demo.hash Demo.name_hash Demo.encode Demo.decode Demo.tx (mkPublisher false "abc") Demo.process
    (default (Handler_new "string") (rd_listeners Demo.process !! 3)) Demo.messages Demo.samples (Demo.info 0)).
  - vm_compute. reflexivity.
  - reflexivity.
  - vm_compute. reflexivity.
  - apply (listen_spec _ 80 (Some (hash_value_ Demo.writer)) 8%nat).
    apply (listen_spec _ 70 None 7%nat), handler_inv_new.
  - reflexivity.
  - by repeat constructor.
  - repeat constructor; intros bs [= <-]; reflexivity.
  - repeat constructor.
Defined.
