(* ===== verification/Service.v ===== *)
(** * Requests and responses (cyber/service/service.h, client.h)

    A client sends requests on a channel of the service over RTPS and waits for responses on
    another; the number of the request and the client's id travel with both.  A service files
    requests into a list; its thread takes them in order, runs the callback and sends the
    response.  Clients, services and the samples in flight make up the state of a transition
    system: a sample may be given to any receiver of its channel at any time, any number of
    times, in any order or never.

    Callbacks of services are functions on a state that services may share; in
    cyber/parameter they are.  Promises are cells of a store; who holds a future reads the
    promise's cell.  The trace lists what happened. *)

From stdpp Require Import base numbers list gmap strings.
From Stdlib Require Import ZArith Lia.
From S2P Require Import Prelude WireFormat RtpsTransport.

Open Scope Z_scope.

Definition SRV_CHANNEL_REQ_SUFFIX : string := "__SRV__REQUEST".
Definition SRV_CHANNEL_RES_SUFFIX : string := "__SRV__RESPONSE".

(** Suffixes that differ in their last character keep the channels apart. *)
Lemma ascii_app (s t : string) :
  String.list_ascii_of_string (s +:+ t) = String.list_ascii_of_string s ++ String.list_ascii_of_string t.
Proof. induction s as [|c s IH]; [done|]. simpl. by f_equal. Qed.

Lemma channels_apart n m : n +:+ SRV_CHANNEL_REQ_SUFFIX ≠ m +:+ SRV_CHANNEL_RES_SUFFIX.
Proof.
  intros H. apply (f_equal (λ s, last (String.list_ascii_of_string s))) in H.
  rewrite !ascii_app, !last_app in H. vm_compute in H. discriminate.
Qed.

Lemma suffix_inj (a b x : string) : a +:+ x = b +:+ x → a = b.
Proof.
  intros H. apply (f_equal String.list_ascii_of_string) in H. rewrite !ascii_app in H. apply app_inv_tail in H.
  rewrite <- (String.string_of_list_ascii_of_string a), <- (String.string_of_list_ascii_of_string b). by rewrite H.
Qed.

Section service.
Context (Hash : list Z → Z).
Context {Req Res St : Type}.
Context (EncodeReq : Req → option (list Z)) (DecodeReq : list Z → option Req).
Context (EncodeRes : Res → option (list Z)) (DecodeRes : list Z → option Res).

(** ** The client *)

Record Pending := mkPending { promise : nat; callback : nat }.
Record Client := mkClient {
  cl_service_name : string;
  request_transmitter_ : RtpsTransmitter;
  response_receiver_ : bool;               (* not null *)
  writer_id_ : Identity;
  sequence_number_ : Z;                    (* uint64_t *)
  pending_requests_ : gmap Z Pending
}.
Definition cl_request_channel (c : Client) : string := cl_service_name c +:+ SRV_CHANNEL_REQ_SUFFIX.
Definition cl_response_channel (c : Client) : string := cl_service_name c +:+ SRV_CHANNEL_RES_SUFFIX.

Definition Client_new (service_name : string) : Client :=
  mkClient service_name (mkRtpsTransmitter false "" None None) false (Identity_new Hash false []) 0 ∅.

(** [Init()]: the transmitter and its id, and whether the transport makes either endpoint. *)
Definition Client_Init (c : Client) (transmitter : option (RtpsTransmitter * Identity)) (receiver : bool) : Client * bool :=
  match transmitter with
  | None => (c, false)
  | Some (t, id) =>
      if receiver
      then (mkClient (cl_service_name c) t true id (sequence_number_ c) (pending_requests_ c), true)
      else (mkClient (cl_service_name c) (mkRtpsTransmitter false "" None None) false id (sequence_number_ c) (pending_requests_ c),
            false)
  end.

(** [AsyncSendRequest(request, cb)]: the sample sent and the future, that is the promise,
    which is a new cell; [None] is the invalid future.  The callee runs under
    [pending_requests_mutex_]. *)
Definition AsyncSendRequest (c : Client) (promises : list (option Res)) (request : Req) (cb : nat) (garbage : Z)
  : Client * list (option Res) * option Sample * option nat :=
  if negb (response_receiver_ c) then (c, promises, None, None)
  else
    let n := u64 (sequence_number_ c + 1) in
    let info := MessageInfo_new garbage (writer_id_ c) n (writer_id_ c) in
    let sent := Transmit EncodeReq (request_transmitter_ c) request info in
    let p := length promises in
    (mkClient (cl_service_name c) (request_transmitter_ c) true (writer_id_ c) n (<[n := mkPending p cb]> (pending_requests_ c)),
     promises ++ [None], sent, Some p).

(** [HandleResponse(response, request_header)]: the callback that runs, with its future.
    [None] is the exception of a promise that is satisfied twice. *)
Definition HandleResponse (c : Client) (promises : list (option Res)) (response : Res) (info : MessageInfo)
  : option (Client * list (option Res) * option Pending) :=
  if negb (Identity_eq (spare_id_ info) (writer_id_ c)) then Some (c, promises, None)
  else match pending_requests_ c !! seq_num_ info with
       | None => Some (c, promises, None)
       | Some t =>
           match promises !! promise t with
           | Some None =>
               Some (mkClient (cl_service_name c) (request_transmitter_ c) (response_receiver_ c) (writer_id_ c) (sequence_number_ c)
                       (delete (seq_num_ info) (pending_requests_ c)),
                     <[promise t := Some response]> promises, Some t)
           | _ => None
           end
       end.

(** What [SendRequest] returns when its wait is over: what the promise holds then. *)
Definition SendRequest_result (promises : list (option Res)) (future : option nat) : option Res :=
  p ← future; r ← promises !! p; r.

(** ** The service *)

Record Service := mkService {
  sv_service_name : string;
  response_transmitter_ : RtpsTransmitter;
  sv_id : Identity;                        (* of the transmitter *)
  request_receiver_ : bool;
  inited_ : bool;
  tasks_ : list (Req * MessageInfo);
  running : option (Req * MessageInfo);    (* taken by the thread *)
  thread_ : bool                           (* joinable *)
}.
Definition sv_request_channel (v : Service) : string := sv_service_name v +:+ SRV_CHANNEL_REQ_SUFFIX.
Definition sv_response_channel (v : Service) : string := sv_service_name v +:+ SRV_CHANNEL_RES_SUFFIX.

Definition set_tasks (v : Service) (ts : list (Req * MessageInfo)) (r : option (Req * MessageInfo)) : Service :=
  mkService (sv_service_name v) (response_transmitter_ v) (sv_id v) (request_receiver_ v) (inited_ v) ts r (thread_ v).

Definition Service_new (service_name : string) : Service :=
  mkService service_name (mkRtpsTransmitter false "" None None) (Identity_new Hash false []) false false [] None false.

(** [Init()]; the thread is started before the receiver is looked at. *)
Definition Service_Init (v : Service) (transmitter : option (RtpsTransmitter * Identity)) (receiver : bool) : Service * bool :=
  if request_receiver_ v then (v, true)
  else match transmitter with
       | None => (v, false)
       | Some (t, id) =>
           if receiver then (mkService (sv_service_name v) t id true true (tasks_ v) (running v) true, true)
           else (mkService (sv_service_name v) (mkRtpsTransmitter false "" None None) id false true (tasks_ v) (running v) true, false)
       end.

Definition Enqueue (v : Service) (task : Req * MessageInfo) : Service := set_tasks v (tasks_ v ++ [task]) (running v).

(** A turn of [Process] at the condition variable: the first task; the thread ends when
    [inited_] is false, and waits, which is no step, when there is no task. *)
Definition Process_take (v : Service) : option Service :=
  if negb (thread_ v) then None
  else match running v with
       | Some _ => None
       | None =>
           if negb (inited_ v)
           then Some (mkService (sv_service_name v) (response_transmitter_ v) (sv_id v) (request_receiver_ v) false (tasks_ v) None false)
           else match tasks_ v with
                | [] => None
                | t :: ts => Some (set_tasks v ts (Some t))
                end
       end.

(** [HandleRequest(request, message_info)] with [SendResponse]: the callback's state, its
    answer and the sample sent.  The information is copied twice on the way. *)
Definition HandleRequest (handle : Req → St → St * Res) (v : Service) (st : St) (request : Req) (info : MessageInfo) (garbage : Z)
  : St * option (Res * option Sample) :=
  if negb (request_receiver_ v) then (st, None)
  else
    let '(st, response) := handle request st in
    let i := MessageInfo_copy garbage (MessageInfo_copy garbage info) in
    let msg_info := mkMessageInfo (sv_id v) (msg_channel_id_ i) (seq_num_ i) (spare_id_ i) (send_time_ i) in
    (st, Some (response, Transmit EncodeRes (response_transmitter_ v) response msg_info)).

(** [destroy()] up to the join, which waits for the thread to end. *)
Definition destroy (v : Service) : Service :=
  mkService (sv_service_name v) (response_transmitter_ v) (sv_id v) (request_receiver_ v) false [] (running v) (thread_ v).

(** ** The system *)

(** [handle j] is the callback of service [j]; [local] what the process does to the
    callbacks' state besides. *)
Context {Loc : Type} (handle : nat → Req → St → St * Res) (local : Loc → St → St).

Record Sys := mkSys {
  clients : list Client;
  services : list Service;
  state : St;
  net : list Sample;
  promises : list (option Res)
}.

Inductive Action :=
| ASend (i : nat) (request : Req) (cb : nat) (garbage : Z)   (* client i: AsyncSendRequest *)
| ARequest (j k : nat)                                      (* service j is given sample k *)
| ATake (j : nat) | ARun (j : nat) (garbage : Z)            (* its thread *)
| AResponse (i k : nat)                                     (* client i is given sample k *)
| ADestroy (j : nat)
| ALocal (l : Loc).

Inductive Event :=
| Asked (i : nat) (n : Z) (p : nat) (q : Req)
| Served (j : nat) (q : Req) (r : Res)
| Answered (p : nat) (r : Res) (cb : nat)
| Changed (l : Loc).

Definition set_client (s : Sys) (i : nat) (c : Client) : Sys :=
  mkSys (<[i := c]> (clients s)) (services s) (state s) (net s) (promises s).
Definition set_service (s : Sys) (j : nat) (v : Service) : Sys :=
  mkSys (clients s) (<[j := v]> (services s)) (state s) (net s) (promises s).
Definition fresh_info : MessageInfo := MessageInfo_new 0 (Identity_new Hash false []) 0 (Identity_new Hash false []).

(** The receiver of a service or of a client: the listener of [rtps_delivers], which parses
    what it is given and passes it on. *)
Definition on_request (v : Service) (s : Sample) : option Service :=
  if request_receiver_ v && bool_decide (topic s = sv_request_channel v)
  then Some (match DecodeReq (data (underlay s)) with
             | Some q => Enqueue v (q, unpack Hash fresh_info s)
             | None => v
             end)
  else None.

Definition step (s : Sys) (a : Action) : option (Sys * list Event) :=
  match a with
  | ASend i request cb garbage =>
      c ← clients s !! i;
      let '(c', ps, sent, future) := AsyncSendRequest c (promises s) request cb garbage in
      Some (mkSys (<[i := c']> (clients s)) (services s) (state s) (net s ++ option_list sent) ps,
            match future with Some p => [Asked i (sequence_number_ c') p request] | None => [] end)
  | ARequest j k =>
      v ← services s !! j; m ← net s !! k; v' ← on_request v m;
      Some (set_service s j v', [])
  | ATake j => v ← services s !! j; v' ← Process_take v; Some (set_service s j v', [])
  | ARun j garbage =>
      v ← services s !! j; '(q, info) ← running v;
      let '(st, res) := HandleRequest (handle j) v (state s) q info garbage in
      Some (mkSys (clients s) (<[j := set_tasks v (tasks_ v) None]> (services s)) st
              (net s ++ match res with Some (_, sent) => option_list sent | None => [] end) (promises s),
            match res with Some (r, _) => [Served j q r] | None => [] end)
  | AResponse i k =>
      c ← clients s !! i; m ← net s !! k;
      if response_receiver_ c && bool_decide (topic m = cl_response_channel c) then
        match DecodeRes (data (underlay m)) with
        | None => Some (s, [])
        | Some r =>
            '(c', ps, called) ← HandleResponse c (promises s) r (unpack Hash fresh_info m);
            Some (mkSys (<[i := c']> (clients s)) (services s) (state s) (net s) ps,
                  match called with Some t => [Answered (promise t) r (callback t)] | None => [] end)
        end
      else None
  | ADestroy j => v ← services s !! j; Some (set_service s j (destroy v), [])
  | ALocal l => Some (mkSys (clients s) (services s) (local l (state s)) (net s) (promises s), [Changed l])
  end.

Fixpoint steps (s : Sys) (l : list Action) : option (Sys * list Event) :=
  match l with
  | [] => Some (s, [])
  | a :: l => '(s, es) ← step s a; '(s, es') ← steps s l; Some (s, es ++ es')
  end.

Inductive reach (s0 : Sys) : list Event → Sys → Prop :=
| reach_start : reach s0 [] s0
| reach_next tr s a s' es : reach s0 tr s → step s a = Some (s', es) → reach s0 (tr ++ es) s'.

(** ** Responses reach their requests *)

Section matching.
Context (s0 : Sys).
Context (decode_req : ∀ q bs, EncodeReq q = Some bs → DecodeReq bs = Some q).
Context (decode_res : ∀ r bs, EncodeRes r = Some bs → DecodeRes bs = Some r).

(** What does not change about a client and a service that have been set up. *)
Definition cl_fixed (c : Client) : string * RtpsTransmitter * bool * Identity :=
  (cl_service_name c, request_transmitter_ c, response_receiver_ c, writer_id_ c).
Definition sv_fixed (v : Service) : string * RtpsTransmitter * bool * Identity :=
  (sv_service_name v, response_transmitter_ v, request_receiver_ v, sv_id v).

(** Set up and not used yet: publishers on the right channels and ids of their own. *)
Record start : Prop := {
  st_client : ∀ i c, clients s0 !! i = Some c →
    id_wf Hash (writer_id_ c) ∧ sequence_number_ c = 0 ∧ pending_requests_ c = ∅ ∧
    ∀ p, publisher_ (request_transmitter_ c) = Some p → pub_topic p = cl_request_channel c;
  st_service : ∀ j v, services s0 !! j = Some v →
    id_wf Hash (sv_id v) ∧ tasks_ v = [] ∧ running v = None ∧
    ∀ p, publisher_ (response_transmitter_ v) = Some p → pub_topic p = sv_response_channel v;
  st_ids : ∀ i i' c c', clients s0 !! i = Some c → clients s0 !! i' = Some c' →
    data_ (writer_id_ c) = data_ (writer_id_ c') → i = i';
  st_empty : net s0 = [] ∧ promises s0 = []
}.

(** The request behind message information that came with it or with its response. *)
Definition asker (tr : list Event) (nm : string) (q : Req) (info : MessageInfo) : Prop :=
  ∃ i c p, clients s0 !! i = Some c ∧ cl_service_name c = nm ∧ Asked i (seq_num_ info) p q ∈ tr ∧
    spare_id_ info = writer_id_ c.
Definition answerer (tr : list Event) (nm : string) (r : Res) (info : MessageInfo) : Prop :=
  ∃ q j v, asker tr nm q info ∧ Served j q r ∈ tr ∧ services s0 !! j = Some v ∧ sv_service_name v = nm.
Definition sample_ok (tr : list Event) (m : Sample) : Prop :=
  ∃ nm, (topic m = nm +:+ SRV_CHANNEL_REQ_SUFFIX ∧
           ∃ q, DecodeReq (data (underlay m)) = Some q ∧ asker tr nm q (unpack Hash fresh_info m)) ∨
        (topic m = nm +:+ SRV_CHANNEL_RES_SUFFIX ∧
           ∃ r, DecodeRes (data (underlay m)) = Some r ∧ answerer tr nm r (unpack Hash fresh_info m)).
Definition task_ok (tr : list Event) (v : Service) (t : Req * MessageInfo) : Prop := asker tr (sv_service_name v) t.1 t.2.

Definition answered (tr : list Event) : list nat :=
  omap (λ e, match e with Answered p _ _ => Some p | _ => None end) tr.

(** A promise that is satisfied was so by a response to its request. *)
Definition matched (tr : list Event) (p : nat) (r : Res) : Prop :=
  ∃ i c n q j v, clients s0 !! i = Some c ∧ services s0 !! j = Some v ∧ sv_service_name v = cl_service_name c ∧
    Asked i n p q ∈ tr ∧ Served j q r ∈ tr.

Record inv (tr : list Event) (s : Sys) : Prop := {
  i_clients : cl_fixed <$> clients s = cl_fixed <$> clients s0;
  i_services : sv_fixed <$> services s = sv_fixed <$> services s0;
  i_seq : ∀ i c, clients s !! i = Some c → 0 ≤ sequence_number_ c ≤ Z.of_nat (length tr);
  i_asked : ∀ i n p q, Asked i n p q ∈ tr →
    (∃ c, clients s !! i = Some c ∧ n ≤ sequence_number_ c) ∧ (p < length (promises s))%nat;
  i_unique : ∀ i n p q i' n' p' q', Asked i n p q ∈ tr → Asked i' n' p' q' ∈ tr →
    (i = i' ∧ n = n' ↔ p = p') ∧ (p = p' → q = q');
  i_pending : ∀ i c n t, clients s !! i = Some c → pending_requests_ c !! n = Some t →
    (∃ q, Asked i n (promise t) q ∈ tr) ∧ promises s !! promise t = Some None;
  i_matched : ∀ p r, promises s !! p = Some (Some r) → matched tr p r;
  i_answered : ∀ p, p ∈ answered tr ↔ ∃ r, promises s !! p = Some (Some r);
  i_once : NoDup (answered tr);
  i_net : Forall (sample_ok tr) (net s);
  i_tasks : ∀ j v, services s !! j = Some v → Forall (task_ok tr v) (tasks_ v ++ option_list (running v))
}.

Lemma fixed_client s i c : cl_fixed <$> clients s = cl_fixed <$> clients s0 → clients s !! i = Some c →
  ∃ c0, clients s0 !! i = Some c0 ∧ cl_fixed c0 = cl_fixed c.
Proof.
  intros H Hi. assert ((cl_fixed <$> clients s0) !! i = Some (cl_fixed c)) as H0 by (by rewrite <- H, list_lookup_fmap, Hi).
  rewrite list_lookup_fmap in H0. destruct (clients s0 !! i) as [c0|]; [|done]. exists c0. split; [done|]. by apply (inj Some) in H0.
Qed.

Lemma fixed_service s j v : sv_fixed <$> services s = sv_fixed <$> services s0 → services s !! j = Some v →
  ∃ v0, services s0 !! j = Some v0 ∧ sv_fixed v0 = sv_fixed v.
Proof.
  intros H Hi. assert ((sv_fixed <$> services s0) !! j = Some (sv_fixed v)) as H0 by (by rewrite <- H, list_lookup_fmap, Hi).
  rewrite list_lookup_fmap in H0. destruct (services s0 !! j) as [v0|]; [|done]. exists v0. split; [done|]. by apply (inj Some) in H0.
Qed.

Lemma fmap_same {A B} (f : A → B) (l : list A) i x y : l !! i = Some x → f y = f x → f <$> <[i := y]> l = f <$> l.
Proof. intros Hi Hf. rewrite list_fmap_insert, Hf. apply list_insert_id. by rewrite list_lookup_fmap, Hi. Qed.

(** More may have happened since. *)
Section more.
Context (tr tr' : list Event) (Hsub : tr ⊆ tr').
Lemma asker_more nm q info : asker tr nm q info → asker tr' nm q info.
Proof using Hsub. intros (i & c & p & ? & ? & H & ?). exists i, c, p. split_and!; try done. by apply Hsub. Qed.
Lemma answerer_more nm r info : answerer tr nm r info → answerer tr' nm r info.
Proof using Hsub. intros (q & j & v & H & ? & ? & ?). exists q, j, v. split_and!; try done; [by apply asker_more|by apply Hsub]. Qed.
Lemma sample_more m : sample_ok tr m → sample_ok tr' m.
Proof using Hsub. intros (nm & [(? & q & ? & ?)|(? & r & ? & ?)]); exists nm; [left|right]; eauto using asker_more, answerer_more. Qed.
Lemma matched_more p r : matched tr p r → matched tr' p r.
Proof using Hsub. intros (i & c & n & q & j & v & ? & ? & ? & ? & ?). exists i, c, n, q, j, v. split_and!; try done; by apply Hsub. Qed.
Lemma task_more v t : task_ok tr v t → task_ok tr' v t.
Proof using Hsub. apply asker_more. Qed.
End more.

Lemma sub_app (tr es : list Event) : tr ⊆ tr ++ es.
Proof. intros x Hx. set_solver. Qed.

Lemma start_inv : start → inv [] s0.
Proof.
  intros [Hc Hv _ [Hn Hp]]. split; try done.
  - intros i c Hi. destruct (Hc i c Hi) as (_ & -> & _). simpl. lia.
  - by intros i n p q H%not_elem_of_nil.
  - by intros i n p q i' n' p' q' H%not_elem_of_nil.
  - intros i c n t Hi Ht. destruct (Hc i c Hi) as (_ & _ & He & _). by rewrite He in Ht.
  - intros p r H. by rewrite Hp in H.
  - intros p. split; [by intros H%not_elem_of_nil|]. intros [r H]. by rewrite Hp in H.
  - constructor.
  - rewrite Hn. constructor.
  - intros j v Hj. destruct (Hv j v Hj) as (_ & -> & -> & _). constructor.
Qed.

(** Nothing to do with clients. *)
Lemma inv_service tr s j v v' : inv tr s → services s !! j = Some v → sv_fixed v' = sv_fixed v →
  Forall (task_ok tr v') (tasks_ v' ++ option_list (running v')) → inv tr (set_service s j v').
Proof.
  intros [] Hj Hf Ht. split; simpl; try done.
  - rewrite <- i_services0. by eapply fmap_same.
  - intros j' w Hw. apply list_lookup_insert_Some in Hw as [(-> & -> & _)|[_ Hw]]; eauto.
Qed.

Lemma task_ok_fixed tr v v' t : sv_fixed v' = sv_fixed v → task_ok tr v t → task_ok tr v' t.
Proof. unfold task_ok. by intros [= -> _ _ _]. Qed.

Lemma inv_request tr s j k v m v' : inv tr s → services s !! j = Some v → net s !! k = Some m → on_request v m = Some v' →
  inv tr (set_service s j v').
Proof.
  intros Hinv Hj Hm Hr. unfold on_request in Hr. destruct (_ && _) eqn:Hc; [|done]. injection Hr as <-.
  apply andb_true_iff in Hc as [_ Ht%bool_decide_eq_true]. pose proof (i_tasks _ _ Hinv j v Hj) as Hts.
  destruct (DecodeReq (data (underlay m))) as [q|] eqn:Hd; [|by eapply inv_service].
  eapply inv_service; try done. simpl. apply Forall_app in Hts as [H1 H2].
  pose proof (Forall_lookup_1 _ _ _ _ (i_net _ _ Hinv) Hm) as (nm & [(Hnm & q' & Hq' & Ha)|(Hnm & _)]).
  - simplify_eq. rewrite Hnm in Ht. apply suffix_inj in Ht. repeat (apply Forall_app; split); try done.
    constructor; [|done]. unfold task_ok. simpl. by rewrite <- Ht.
  - rewrite Hnm in Ht. by apply eq_sym, channels_apart in Ht.
Qed.

Lemma inv_take tr s j v v' : inv tr s → services s !! j = Some v → Process_take v = Some v' → inv tr (set_service s j v').
Proof.
  intros Hinv Hj Ht. pose proof (i_tasks _ _ Hinv j v Hj) as Hts. unfold Process_take in Ht.
  destruct (negb (thread_ v)); [done|]. destruct (running v) as [|] eqn:Hr; [done|].
  destruct (inited_ v) eqn:Hini; simpl in Ht.
  - destruct (tasks_ v) as [|t ts] eqn:Htk; [done|]. injection Ht as <-. eapply inv_service; try done. simpl in *.
    rewrite app_nil_r in Hts. apply Forall_cons in Hts as [H1 H2]. apply Forall_app. split; [done|]. by constructor.
  - injection Ht as <-. eapply inv_service; try done.
Qed.

Lemma unpack_sent {A} (E : A → option (list Z)) t x info m : id_wf Hash (sender_id_ info) → id_wf Hash (spare_id_ info) →
  Transmit E t x info = Some m →
  seq_num_ (unpack Hash fresh_info m) = seq_num_ info ∧ spare_id_ (unpack Hash fresh_info m) = spare_id_ info ∧
  ∃ p bs, publisher_ t = Some p ∧ topic m = pub_topic p ∧ E x = Some bs ∧ data (underlay m) = bs.
Proof.
  intros H1 H2 Ht. destruct (unpack_packed Hash E _ _ _ _ fresh_info H1 H2 Ht) as (-> & bs & ? & ?).
  destruct (Transmit_topic E _ _ _ _ Ht) as (p & ? & ?). eauto 10.
Qed.

Lemma sent_fixed (P : Sample → Prop) (o : option Sample) : (∀ m, o = Some m → P m) → Forall P (option_list o).
Proof. destruct o; constructor; auto. Qed.

Lemma inv_run tr s j v q info garbage st res :
  start → inv tr s → services s !! j = Some v → running v = Some (q, info) →
  HandleRequest (handle j) v (state s) q info garbage = (st, res) →
  let es := match res with Some (r, _) => [Served j q r] | None => [] end in
  inv (tr ++ es) (mkSys (clients s) (<[j := set_tasks v (tasks_ v) None]> (services s)) st
              (net s ++ match res with Some (_, sent) => option_list sent | None => [] end) (promises s)).
Proof using decode_req decode_res.
  intros Hstart Hinv Hj Hrun Hh es. pose proof (i_tasks _ _ Hinv j v Hj) as Hts. rewrite Hrun in Hts.
  apply Forall_app in Hts as [Hts [Htask _]%Forall_cons].
  destruct (fixed_service _ _ _ (i_services _ _ Hinv) Hj) as (v0 & Hv0 & [= Hnm Htr Hrc Hid]).
  destruct (st_service Hstart _ _ Hv0) as (Hwf & _ & _ & Htop).
  assert (Forall (sample_ok (tr ++ es)) (match res with Some (_, sent) => option_list sent | None => [] end)) as Hsent.
  { unfold HandleRequest in Hh. destruct (negb _); [injection Hh as <- <-; constructor|].
    destruct (handle j q (state s)) as [st' r]. injection Hh as <- <-. apply sent_fixed. intros m Hm.
    pose proof Htask as (i & c & p & Hc & Hcn & Ha & Hsp). simpl in Hm, Hcn, Ha, Hsp.
    apply unpack_sent in Hm as (Hseq & Hspare & p' & bs & Hp & Ht & Hbs & Hd); cbn [sender_id_ spare_id_ seq_num_ MessageInfo_copy] in *;
      [|by rewrite <- Hid|rewrite Hsp; by apply (st_client Hstart _ _ Hc)].
    exists (sv_service_name v). right. rewrite <- Htr in Hp. rewrite Ht, (Htop _ Hp). unfold sv_response_channel.
    rewrite Hnm. split; [done|]. exists r. split; [rewrite Hd; by apply decode_res|].
    exists q, j, v0. split; [|set_solver]. exists i, c, p. rewrite Hseq, Hspare. set_solver. }
  pose proof (sub_app tr es) as Hsub. destruct Hinv. split; simpl; try done.
  - rewrite <- i_services0. by eapply fmap_same.
  - intros i c Hi. rewrite length_app. specialize (i_seq0 i c Hi). lia.
  - intros i n p q' [H|H]%elem_of_app; [by apply (i_asked0 _ _ _ q')|]. subst es. destruct res as [[r sent]|]; set_solver.
  - assert (∀ i n p q', Asked i n p q' ∈ tr ++ es → Asked i n p q' ∈ tr) as Ha.
    { intros i n p q' [H|H]%elem_of_app; [done|]. subst es. destruct res as [[r sent]|]; set_solver. }
    intros i n p q1 i' n' p' q2 H1 H2. apply i_unique0; by apply Ha.
  - intros i c n t Hi Ht. destruct (i_pending0 i c n t Hi Ht) as ((q' & Hq') & ?). eauto.
  - intros p r H. eapply matched_more; [exact Hsub|]. by apply i_matched0.
  - intros p. rewrite <- i_answered0. unfold answered. rewrite omap_app. subst es. destruct res as [[r sent]|]; simpl; by rewrite app_nil_r.
  - unfold answered. rewrite omap_app. subst es. destruct res as [[r sent]|]; simpl; by rewrite app_nil_r.
  - apply Forall_app. split; [|done]. eapply Forall_impl; [exact i_net0|]. intros m. by apply sample_more.
  - intros j' w Hw. apply list_lookup_insert_Some in Hw as [(-> & <- & _)|[_ Hw]]; simpl.
    + rewrite app_nil_r. eapply Forall_impl; [exact Hts|]. intros t Ht. exact (task_more _ _ Hsub v t Ht).
    + eapply Forall_impl; [by apply (i_tasks0 j')|]. intros t. by apply task_more.
Qed.

(** Requests stay apart when one with a number and a promise of its own is added. *)
Lemma asked_apart tr i n p q :
  (∀ i1 n1 p1 q1 i2 n2 p2 q2, Asked i1 n1 p1 q1 ∈ tr → Asked i2 n2 p2 q2 ∈ tr →
     (i1 = i2 ∧ n1 = n2 ↔ p1 = p2) ∧ (p1 = p2 → q1 = q2)) →
  (∀ i' n' p' q', Asked i' n' p' q' ∈ tr → (p' < p)%nat) → (∀ n' p' q', Asked i n' p' q' ∈ tr → n' < n) →
  ∀ i1 n1 p1 q1 i2 n2 p2 q2, Asked i1 n1 p1 q1 ∈ tr ++ [Asked i n p q] → Asked i2 n2 p2 q2 ∈ tr ++ [Asked i n p q] →
    (i1 = i2 ∧ n1 = n2 ↔ p1 = p2) ∧ (p1 = p2 → q1 = q2).
Proof.
  intros Hu Hp Hn i1 n1 p1 q1 i2 n2 p2 q2 [H1|H1%list_elem_of_singleton]%elem_of_app [H2|H2%list_elem_of_singleton]%elem_of_app.
  - by apply Hu.
  - injection H2 as -> -> -> ->. pose proof (Hp _ _ _ _ H1). split; [|lia]. split; [|lia]. intros [-> ->]. pose proof (Hn _ _ _ H1). lia.
  - injection H1 as -> -> -> ->. pose proof (Hp _ _ _ _ H2). split; [|lia]. split; [|lia]. intros [<- <-]. pose proof (Hn _ _ _ H2). lia.
  - by simplify_eq.
Qed.

(** A request adds a promise and a number of its own. *)
Lemma inv_send tr s i c q cb garbage :
  start → inv tr s → clients s !! i = Some c → response_receiver_ c = true → Z.of_nat (length tr) + 1 < 2 ^ 64 →
  let n := u64 (sequence_number_ c + 1) in
  let c' := mkClient (cl_service_name c) (request_transmitter_ c) true (writer_id_ c) n
              (<[n := mkPending (length (promises s)) cb]> (pending_requests_ c)) in
  inv (tr ++ [Asked i n (length (promises s)) q])
    (mkSys (<[i := c']> (clients s)) (services s) (state s)
       (net s ++ option_list (Transmit EncodeReq (request_transmitter_ c) q (MessageInfo_new garbage (writer_id_ c) n (writer_id_ c))))
       (promises s ++ [None])).
Proof using decode_req decode_res handle.
  intros Hstart Hinv Hi Hrc Hlen n c'. pose proof (i_seq _ _ Hinv i c Hi) as Hseq.
  assert (n = sequence_number_ c + 1) as Hn by (apply u64_small; unfold is_u64; lia).
  destruct (fixed_client _ _ _ (i_clients _ _ Hinv) Hi) as (c0 & Hc0 & [= Hnm Htr Hrc0 Hid]).
  destruct (st_client Hstart _ _ Hc0) as (Hwf & _ & _ & Htop). rewrite Hid in Hwf.
  set (e := Asked i n (length (promises s)) q). pose proof (sub_app tr [e]) as Hsub.
  assert (answered (tr ++ [e]) = answered tr) as Hans by (unfold answered; rewrite omap_app; simpl; by rewrite app_nil_r).
  assert (∀ n' p' q', Asked i n' p' q' ∈ tr → n' ≤ sequence_number_ c ∧ (p' < length (promises s))%nat) as Hold.
  { intros n' p' q' H. destruct (i_asked _ _ Hinv _ _ _ _ H) as ((c1 & Hc1 & ?) & ?). rewrite Hi in Hc1. by injection Hc1 as <-. }
  destruct Hinv. split; simpl; rewrite ?Hans; try done.
  - rewrite <- i_clients0. eapply fmap_same; [done|]. unfold cl_fixed. simpl. by rewrite Hrc.
  - intros i' c1 Hc1. rewrite length_app. simpl.
    apply list_lookup_insert_Some in Hc1 as [(-> & <- & _)|[_ Hc1]]; simpl; [lia|]. specialize (i_seq0 _ _ Hc1). lia.
  - intros i' n' p' q' H. rewrite length_app. simpl. pose proof (lookup_lt_Some _ _ _ Hi) as Hlt.
    apply elem_of_app in H as [H|H].
    + destruct (i_asked0 _ _ _ _ H) as ((c1 & Hc1 & Hle) & ?). split; [|lia].
      destruct (decide (i' = i)) as [->|Hne]; [|exists c1; by rewrite list_lookup_insert_ne].
      exists c'. rewrite list_lookup_insert_eq by done. split; [done|]. rewrite Hi in Hc1. injection Hc1 as <-. simpl. lia.
    + apply list_elem_of_singleton in H. injection H as -> -> -> ->. split; [|lia].
      exists c'. rewrite list_lookup_insert_eq by done. split; [done|]. simpl. lia.
  - apply asked_apart; [done|intros i' n' p' q' H; by apply (i_asked0 _ _ _ _ H)|]. intros n' p' q' H. destruct (Hold _ _ _ H). lia.
  - intros i' c1 n' t Hc1 Ht. apply list_lookup_insert_Some in Hc1 as [(-> & <- & _)|[Hne Hc1]]; simpl in *.
    + apply lookup_insert_Some in Ht as [(<- & <-)|[Hne Ht]]; simpl.
      * split; [exists q; set_solver|]. by rewrite lookup_app_r, Nat.sub_diag.
      * destruct (i_pending0 _ _ _ _ Hi Ht) as ((q' & ?) & Hp). split; [exists q'; set_solver|].
        by rewrite lookup_app_l by (by eapply lookup_lt_Some).
    + destruct (i_pending0 _ _ _ _ Hc1 Ht) as ((q' & ?) & Hp). split; [exists q'; set_solver|].
      by rewrite lookup_app_l by (by eapply lookup_lt_Some).
  - intros p r H. eapply matched_more; [exact Hsub|]. apply lookup_app_Some in H as [H|[_ H]]; [by apply i_matched0|].
    destruct (p - length (promises s))%nat; by simplify_eq/=.
  - intros p. rewrite i_answered0. split; intros [r H].
    + exists r. by rewrite lookup_app_l by (by eapply lookup_lt_Some).
    + apply lookup_app_Some in H as [H|[_ H]]; [by exists r|]. destruct (p - length (promises s))%nat; by simplify_eq/=.
  - apply Forall_app. split; [eapply Forall_impl; [exact i_net0|]; intros m; by apply sample_more|].
    apply sent_fixed. intros m Hm. apply unpack_sent in Hm as (Hs & Hsp & p & bs & Hp & Ht & Hbs & Hd); cbn [sender_id_ spare_id_ seq_num_ MessageInfo_new] in *; [|done..].
    exists (cl_service_name c). left. rewrite <- Htr in Hp. rewrite Ht, (Htop _ Hp). unfold cl_request_channel. rewrite Hnm.
    split; [done|]. exists q. split; [rewrite Hd; by apply decode_req|]. exists i, c0, (length (promises s)).
    rewrite Hs, Hsp, Hnm, Hid. set_solver.
  - intros j v Hj. eapply Forall_impl; [by apply (i_tasks0 j)|]. intros t. by apply task_more.
Qed.

(** A response whose request is pending is the one to that request. *)
Lemma response_pending tr s i c m r t :
  start → inv tr s → clients s !! i = Some c → m ∈ net s → topic m = cl_response_channel c →
  DecodeRes (data (underlay m)) = Some r →
  Identity_eq (spare_id_ (unpack Hash fresh_info m)) (writer_id_ c) = true →
  pending_requests_ c !! seq_num_ (unpack Hash fresh_info m) = Some t →
  promises s !! promise t = Some None ∧ matched tr (promise t) r.
Proof.
  intros Hstart Hinv Hi Hm Ht Hr Hid%bool_decide_eq_true Hp.
  destruct (i_pending _ _ Hinv _ _ _ _ Hi Hp) as ((q & Hq) & Hnone). split; [done|].
  destruct (fixed_client _ _ _ (i_clients _ _ Hinv) Hi) as (c0 & Hc0 & [= Hnm _ _ Hw]).
  pose proof (proj1 (Forall_forall _ _) (i_net _ _ Hinv) m Hm) as (nm & [(Hn & _)|(Hn & r' & Hr' & Ha)]).
  { rewrite Hn in Ht. by apply channels_apart in Ht. }
  rewrite Hr in Hr'. injection Hr' as <-. rewrite Hn in Ht. unfold cl_response_channel in Ht. apply suffix_inj in Ht as ->.
  destruct Ha as (q' & j & v & (i' & c' & p' & Hc' & Hcn & Hask & Hsp) & Hserved & Hv & Hvn).
  assert (i' = i) as ->.
  { eapply (st_ids Hstart); [done..|]. by rewrite <- Hsp, Hid, Hw. }
  destruct (i_unique _ _ Hinv _ _ _ _ _ _ _ _ Hq Hask) as [Hiff Hqq]. assert (promise t = p') as Hpp by (by apply Hiff).
  rewrite Hc0 in Hc'. injection Hc' as <-. specialize (Hqq Hpp) as <-.
  exists i, c0, (seq_num_ (unpack Hash fresh_info m)), q, j, v. split_and!; try done. congruence.
Qed.

Lemma inv_response tr s i c m r c' ps called :
  start → inv tr s → clients s !! i = Some c → m ∈ net s → topic m = cl_response_channel c →
  DecodeRes (data (underlay m)) = Some r →
  HandleResponse c (promises s) r (unpack Hash fresh_info m) = Some (c', ps, called) →
  inv (tr ++ match called with Some t => [Answered (promise t) r (callback t)] | None => [] end)
    (mkSys (<[i := c']> (clients s)) (services s) (state s) (net s) ps).
Proof.
  intros Hstart Hinv Hi Hm Ht Hr Hh. unfold HandleResponse in Hh.
  destruct (Identity_eq _ _) eqn:Hid; simpl in Hh; [|by injection Hh as <- <- <-; rewrite app_nil_r, list_insert_id; destruct s].
  destruct (pending_requests_ c !! _) as [t|] eqn:Hp; [|by injection Hh as <- <- <-; rewrite app_nil_r, list_insert_id; destruct s].
  destruct (response_pending _ _ _ _ _ _ _ Hstart Hinv Hi Hm Ht Hr Hid Hp) as [Hnone Hmat]. rewrite Hnone in Hh.
  injection Hh as <- <- <-. set (e := Answered (promise t) r (callback t)). pose proof (sub_app tr [e]) as Hsub.
  assert (answered (tr ++ [e]) = answered tr ++ [promise t]) as Hans by (unfold answered; by rewrite omap_app).
  assert (∀ i n p q, Asked i n p q ∈ tr ++ [e] → Asked i n p q ∈ tr) as Ha by set_solver.
  pose proof (lookup_lt_Some _ _ _ Hnone) as Hlt. pose proof (i_pending _ _ Hinv _ _ _ _ Hi Hp) as ((q0 & Hq0) & _).
  destruct Hinv. split; simpl; rewrite ?Hans, ?length_insert; try done.
  - rewrite <- i_clients0. by eapply fmap_same.
  - intros i1 c1 H1. rewrite length_app. apply list_lookup_insert_Some in H1 as [(-> & <- & _)|[_ H1]]; simpl.
    + specialize (i_seq0 _ _ Hi). lia.
    + specialize (i_seq0 _ _ H1). lia.
  - intros i1 n p q H. destruct (i_asked0 _ _ _ _ (Ha _ _ _ _ H)) as ((c1 & Hc1 & Hle) & ?). split; [|done].
    destruct (decide (i1 = i)) as [->|Hne]; [|exists c1; by rewrite list_lookup_insert_ne].
    rewrite Hi in Hc1. injection Hc1 as <-. eexists. by rewrite list_lookup_insert_eq by (by eapply lookup_lt_Some).
  - intros i1 n1 p1 q1 i2 n2 p2 q2 H1 H2. apply i_unique0; by apply Ha.
  - intros i1 c1 n1 t1 H1 Ht1.
    assert (∃ c2, clients s !! i1 = Some c2 ∧ pending_requests_ c2 !! n1 = Some t1 ∧
      (i1 = i → n1 ≠ seq_num_ (unpack Hash fresh_info m))) as (c2 & Hc2 & Ht2 & Hne).
    { apply list_lookup_insert_Some in H1 as [(-> & <- & _)|[Hne H1]].
      - cbn [pending_requests_] in Ht1. apply lookup_delete_Some in Ht1 as [Hne Ht1]. by exists c.
      - exists c1. by split_and!. }
    destruct (i_pending0 _ _ _ _ Hc2 Ht2) as ((q1 & Hq1) & Hn1). split; [exists q1; set_solver|].
    rewrite list_lookup_insert_ne; [done|]. intros Heq. destruct (i_unique0 _ _ _ _ _ _ _ _ Hq0 Hq1) as [Hiff _].
    apply Hiff in Heq as [-> <-]. by apply Hne.
  - intros p r1 H. eapply matched_more; [exact Hsub|]. apply list_lookup_insert_Some in H as [(<- & [= <-] & _)|[_ H]]; auto.
  - intros p. rewrite elem_of_app, i_answered0, list_elem_of_singleton. split.
    + intros [[r1 H]| ->]; [|exists r; by rewrite list_lookup_insert_eq]. exists r1. rewrite list_lookup_insert_ne; [done|]. congruence.
    + intros [r1 H]. apply list_lookup_insert_Some in H as [(-> & _)|[_ H]]; eauto.
  - apply NoDup_app. split_and!; [done| |repeat constructor; set_solver]. intros p H1 ->%list_elem_of_singleton.
    apply i_answered0 in H1 as [r1 H1]. congruence.
  - eapply Forall_impl; [exact i_net0|]. intros m'. by apply sample_more.
  - intros j v Hj. eapply Forall_impl; [by apply (i_tasks0 j)|]. intros t'. by apply task_more.
Qed.

Lemma inv_changed tr s l st : inv tr s → inv (tr ++ [Changed l]) (mkSys (clients s) (services s) st (net s) (promises s)).
Proof.
  intros []. pose proof (sub_app tr [Changed l]) as Hsub.
  assert (answered (tr ++ [Changed l]) = answered tr) as Hans by (unfold answered; rewrite omap_app; simpl; by rewrite app_nil_r).
  assert (∀ i n p q, Asked i n p q ∈ tr ++ [Changed l] → Asked i n p q ∈ tr) as Ha by set_solver.
  split; simpl; rewrite ?Hans; try done.
  - intros i c Hi. rewrite length_app. specialize (i_seq0 _ _ Hi). lia.
  - intros i n p q H. eapply i_asked0. by apply Ha.
  - intros i1 n1 p1 q1 i2 n2 p2 q2 H1 H2. apply i_unique0; by apply Ha.
  - intros i c n t Hi Ht. destruct (i_pending0 _ _ _ _ Hi Ht) as ((q & ?) & ?). split; [exists q; set_solver|done].
  - intros p r H. eapply matched_more; [exact Hsub|]. auto.
  - eapply Forall_impl; [exact i_net0|]. intros m'. by apply sample_more.
  - intros j v Hj. eapply Forall_impl; [by apply (i_tasks0 j)|]. intros t'. by apply task_more.
Qed.

Lemma service_step_inv tr s a s' es : start → inv tr s → step s a = Some (s', es) → Z.of_nat (length tr) + 1 < 2 ^ 64 →
  inv (tr ++ es) s'.
Proof using decode_req decode_res.
  intros Hstart Hinv Hs Hlen. destruct a as [i q cb g|j k|j|j g|i k|j|l]; simpl in Hs.
  - destruct (clients s !! i) as [c|] eqn:Hi; [|done]. simpl in Hs. unfold AsyncSendRequest in Hs.
    destruct (response_receiver_ c) eqn:Hrc; simpl in Hs.
    + injection Hs as <- <-. by apply inv_send.
    + injection Hs as <- <-. rewrite list_insert_id, !app_nil_r by done. by destruct s.
  - destruct (services s !! j) as [v|] eqn:Hj; [|done]. simpl in Hs. destruct (net s !! k) as [m|] eqn:Hm; [|done]. simpl in Hs.
    destruct (on_request v m) as [v'|] eqn:Hr; [|done]. injection Hs as <- <-. rewrite app_nil_r. by eapply inv_request.
  - destruct (services s !! j) as [v|] eqn:Hj; [|done]. simpl in Hs. destruct (Process_take v) as [v'|] eqn:Hr; [|done].
    injection Hs as <- <-. rewrite app_nil_r. by eapply inv_take.
  - destruct (services s !! j) as [v|] eqn:Hj; [|done]. simpl in Hs. destruct (running v) as [[q info]|] eqn:Hr; [|done]. simpl in Hs.
    destruct (HandleRequest _ _ _ _ _ _) as [st res] eqn:Hh. injection Hs as <- <-. by eapply inv_run.
  - destruct (clients s !! i) as [c|] eqn:Hi; [|done]. simpl in Hs. destruct (net s !! k) as [m|] eqn:Hm; [|done]. simpl in Hs.
    destruct (_ && _) eqn:Hc; [|done]. apply andb_true_iff in Hc as [_ Ht%bool_decide_eq_true].
    destruct (DecodeRes _) as [r|] eqn:Hr; [|injection Hs as <- <-; by rewrite app_nil_r].
    destruct (HandleResponse _ _ _ _) as [[[c' ps] called]|] eqn:Hh; [|done]. injection Hs as <- <-.
    eapply inv_response; try done. by eapply list_elem_of_lookup_2.
  - destruct (services s !! j) as [v|] eqn:Hj; [|done]. injection Hs as <- <-. rewrite app_nil_r.
    pose proof (i_tasks _ _ Hinv j v Hj) as Hts. eapply inv_service; try done. simpl. apply Forall_app in Hts as [_ ?]. done.
  - injection Hs as <- <-. by apply inv_changed.
Qed.

Lemma reach_inv tr s : start → reach s0 tr s → Z.of_nat (length tr) < 2 ^ 64 - 1 → inv tr s.
Proof using decode_req decode_res.
  intros Hstart. induction 1 as [|tr s a s' es Hr IH Hs]; intros Hlen; [by apply start_inv|].
  rewrite length_app in Hlen. eapply service_step_inv; [done|apply IH; lia|done|lia].
Qed.

(** [C9] However requests, responses and the threads of services interleave, and however
    often, late or out of order the samples are delivered: a promise holds only what the
    callback of a service of that name returned for the very request it belongs to, is
    satisfied at most once, and runs its callback when it is. *)
Theorem responses_match tr s : start → reach s0 tr s → Z.of_nat (length tr) < 2 ^ 64 - 1 →
  (∀ p r, promises s !! p = Some (Some r) → matched tr p r) ∧
  (∀ p, p ∈ answered tr ↔ ∃ r, promises s !! p = Some (Some r)) ∧ NoDup (answered tr) ∧
  (∀ i c m r, clients s !! i = Some c → m ∈ net s → topic m = cl_response_channel c →
    DecodeRes (data (underlay m)) = Some r → HandleResponse c (promises s) r (unpack Hash fresh_info m) ≠ None).
Proof using decode_req decode_res.
  intros Hstart Hr Hlen. pose proof (reach_inv tr s Hstart Hr Hlen) as Hinv. pose proof Hinv as [].
  split_and!; try done. intros i c m r Hi Hm Ht Hd Hn. unfold HandleResponse in Hn.
  destruct (Identity_eq _ _) eqn:Hid; [|done]. simpl in Hn. destruct (pending_requests_ c !! _) as [t|] eqn:Hp; [|done].
  destruct (response_pending _ _ _ _ _ _ _ Hstart Hinv Hi Hm Ht Hd Hid Hp) as [Hnone _]. by rewrite Hnone in Hn.
Qed.
End matching.

(** ** A request is answered *)

(** A transmitter that sends on [channel]. *)
Definition sending (t : RtpsTransmitter) (channel : string) : Prop :=
  rt_enabled t = true ∧ participant_ t = Some false ∧ publisher_ t = Some (mkPublisher false channel).

Lemma sending_transmits {A} (E : A → option (list Z)) t channel x info bs :
  sending t channel → E x = Some bs → id_wf Hash (sender_id_ info) → id_wf Hash (spare_id_ info) →
  ∃ m, Transmit E t x info = Some m ∧ topic m = channel ∧ data (underlay m) = bs ∧
    seq_num_ (unpack Hash fresh_info m) = seq_num_ info ∧ spare_id_ (unpack Hash fresh_info m) = spare_id_ info.
Proof.
  intros (H1 & H2 & H3) Hx Hi1 Hi2.
  assert (∃ m, Transmit E t x info = Some m) as [m Hm].
  { unfold Transmit. rewrite H1, Hx. simpl. rewrite H2, H3. simpl. eauto. }
  exists m. split; [done|]. destruct (unpack_sent E _ _ _ _ Hi1 Hi2 Hm) as (? & ? & p & bs' & Hp & Ht & Hb & Hd).
  rewrite H3 in Hp. rewrite Hx in Hb. simplify_eq. done.
Qed.

Lemma response_arrives s i k c m r t :
  clients s !! i = Some c → net s !! k = Some m → response_receiver_ c = true → topic m = cl_response_channel c →
  DecodeRes (data (underlay m)) = Some r → spare_id_ (unpack Hash fresh_info m) = writer_id_ c →
  pending_requests_ c !! seq_num_ (unpack Hash fresh_info m) = Some t → promises s !! promise t = Some None →
  ∃ c', step s (AResponse i k) =
    Some (mkSys (<[i := c']> (clients s)) (services s) (state s) (net s) (<[promise t := Some r]> (promises s)),
          [Answered (promise t) r (callback t)]).
Proof.
  intros Hi Hm Hrc Ht Hd Hsp Hp Hn. cbn [step]. rewrite Hi. cbn [mbind option_bind]. rewrite Hm. cbn [mbind option_bind].
  rewrite Hrc, bool_decide_true by done. cbn [andb]. rewrite Hd. unfold HandleResponse, Identity_eq.
  rewrite Hsp, bool_decide_true by done. cbn [negb]. rewrite Hp, Hn. by eexists.
Qed.

Lemma steps_app s l l' : steps s (l ++ l') = ('(s1, es) ← steps s l; '(s2, es') ← steps s1 l'; Some (s2, es ++ es')).
Proof.
  revert s. induction l as [|a l IH]; intros s; cbn [app steps mbind option_bind].
  - by destruct (steps s l') as [[]|].
  - destruct (step s a) as [[s1 es]|]; [|done]. cbn [mbind option_bind]. rewrite IH.
    destruct (steps s1 l) as [[s2 es2]|]; [|done]. cbn [mbind option_bind].
    destruct (steps s2 l') as [[s3 es3]|]; [|done]. cbn [mbind option_bind]. by rewrite app_assoc.
Qed.

Section answer.
Context (s : Sys) (i j : nat) (c : Client) (v : Service) (q : Req) (r : Res) (st : St) (bs bs' : list Z) (cb : nat) (g g' : Z).

(** An initialised client, and an initialised service of that name that has nothing to do;
    the request and its answer can be sent. *)
Record ready : Prop := {
  rd_client : clients s !! i = Some c;
  rd_service : services s !! j = Some v;
  rd_name : sv_service_name v = cl_service_name c;
  rd_cl : response_receiver_ c = true ∧ sending (request_transmitter_ c) (cl_request_channel c) ∧ id_wf Hash (writer_id_ c);
  rd_sv : request_receiver_ v = true ∧ sending (response_transmitter_ v) (sv_response_channel v) ∧ id_wf Hash (sv_id v);
  rd_idle : inited_ v = true ∧ thread_ v = true ∧ tasks_ v = [] ∧ running v = None;
  rd_request : EncodeReq q = Some bs ∧ DecodeReq bs = Some q;
  rd_answer : handle j q (state s) = (st, r) ∧ EncodeRes r = Some bs' ∧ DecodeRes bs' = Some r
}.
Context (Hready : ready).

Lemma request_is_served :
  let p := length (promises s) in let n := u64 (sequence_number_ c + 1) in
  ∃ m m', steps s [ASend i q cb g; ARequest j (length (net s)); ATake j; ARun j g'] =
      Some (mkSys (<[i := mkClient (cl_service_name c) (request_transmitter_ c) true (writer_id_ c) n
                              (<[n := mkPending p cb]> (pending_requests_ c))]> (clients s))
              (services s) st (net s ++ [m; m']) (promises s ++ [None]),
            [Asked i n p q; Served j q r]) ∧
    topic m' = cl_response_channel c ∧ DecodeRes (data (underlay m')) = Some r ∧
    spare_id_ (unpack Hash fresh_info m') = writer_id_ c ∧ seq_num_ (unpack Hash fresh_info m') = n.
Proof using Hready.
  destruct Hready as [Hi Hj Hnm (Hrc & Hst & Hid) (Hrr & Hsv & Hsid) (Hini & Hth & Htk & Hrun) (Hq & Hdq) (Hh & Hr & Hdr)]. intros p n.
  destruct (sending_transmits EncodeReq _ _ q (MessageInfo_new g (writer_id_ c) n (writer_id_ c)) bs Hst Hq Hid Hid)
    as (m & Hm & Ht & Hd & Hseq & Hsp). cbn [seq_num_ spare_id_ MessageInfo_new] in Hseq, Hsp.
  set (i1 := MessageInfo_copy g' (MessageInfo_copy g' (unpack Hash fresh_info m))).
  destruct (sending_transmits EncodeRes _ _ r
    (mkMessageInfo (sv_id v) (msg_channel_id_ i1) (seq_num_ i1) (spare_id_ i1) (send_time_ i1)) bs' Hsv Hr Hsid)
    as (m' & Hm' & Ht' & Hd' & Hseq' & Hsp'). { cbn [spare_id_ MessageInfo_copy i1]. by rewrite Hsp. }
  cbn [seq_num_ spare_id_ MessageInfo_copy i1] in Hseq', Hsp'. rewrite Hseq in Hseq'. rewrite Hsp in Hsp'.
  pose proof (lookup_lt_Some _ _ _ Hj) as Hlj. exists m, m'. split.
  2: { rewrite Ht', Hd'. unfold sv_response_channel, cl_response_channel. by rewrite Hnm. }
  (* send *)
  cbn [steps step set_service]. rewrite Hi. cbn [mbind option_bind]. unfold AsyncSendRequest. rewrite Hrc. cbn [negb].
  fold n. rewrite Hm. change (option_list (Some m)) with [m]. cbn [mbind option_bind].
  (* the service's receiver *)
  cbn [set_service services net clients]. rewrite Hj. cbn [mbind option_bind].
  rewrite lookup_app_r, Nat.sub_diag by lia. cbn [lookup list_lookup mbind option_bind].
  unfold on_request at 1. rewrite Hrr, bool_decide_true by (rewrite Ht; unfold cl_request_channel, sv_request_channel; by rewrite Hnm).
  cbn [andb]. rewrite Hd, Hdq. cbn [mbind option_bind].
  (* the thread *)
  cbn [set_service services net clients]. rewrite list_lookup_insert_eq by done. cbn [mbind option_bind].
  unfold Process_take, Enqueue. cbn [thread_ running inited_ tasks_ set_tasks]. rewrite Hth, Hrun, Hini, Htk. cbn [negb app mbind option_bind].
  cbn [set_service services net clients]. rewrite list_lookup_insert_eq by (by rewrite length_insert). cbn [mbind option_bind running set_tasks].
  unfold HandleRequest at 1. cbn [request_receiver_ set_tasks set_service state]. rewrite Hrr. cbn [negb]. rewrite Hh.
  cbn [sv_id response_transmitter_ set_tasks]. fold i1. rewrite Hm'. change (option_list (Some m')) with [m']. cbn [mbind option_bind].
  f_equal. f_equal. rewrite <- app_assoc, !list_insert_insert_eq. f_equal. apply list_insert_id. rewrite Hj. f_equal.
  unfold set_tasks. simpl. destruct v. simpl in *. congruence.
Qed.

(** [C12] A client whose service is idle gets its answer: the request is sent, filed, taken by
    the thread, answered by what the callback makes of it in its present state, and the
    response satisfies the promise that the request was given. *)
Theorem request_is_answered :
  let p := length (promises s) in
  ∃ s' n, steps s [ASend i q cb g; ARequest j (length (net s)); ATake j; ARun j g'; AResponse i (S (length (net s)))] =
      Some (s', [Asked i n p q; Served j q r; Answered p r cb]) ∧
    SendRequest_result (promises s') (Some p) = Some r ∧ state s' = st ∧ services s' = services s.
Proof using Hready.
  intros p. destruct request_is_served as (m & m' & Hs & Ht & Hd & Hsp & Hseq). pose proof (lookup_lt_Some _ _ _ (rd_client Hready)) as Hli.
  change [ASend i q cb g; ARequest j (length (net s)); ATake j; ARun j g'; AResponse i (S (length (net s)))]
    with ([ASend i q cb g; ARequest j (length (net s)); ATake j; ARun j g'] ++ [AResponse i (S (length (net s)))]).
  rewrite steps_app, Hs. cbn [steps mbind option_bind]. fold p. set (n := u64 (sequence_number_ c + 1)) in *.
  edestruct response_arrives as (c' & ->); cbn [clients net promises];
    [by apply list_lookup_insert_eq| |done|exact Ht|exact Hd|exact Hsp|..].
  { rewrite lookup_app_r by lia. by replace (S (length (net s)) - length (net s))%nat with 1%nat by lia. }
  { rewrite Hseq. by apply lookup_insert_eq. }
  { simpl. by rewrite lookup_app_r, Nat.sub_diag by done. }
  cbn [mbind option_bind promise callback]. eexists _, n. split; [reflexivity|].
  cbn [promises state services SendRequest_result mbind option_bind]. split_and!; [|done..].
  by rewrite list_lookup_insert_eq by (rewrite length_app; simpl; lia).
Qed.
End answer.

(** ** One order for all callbacks *)

(** What an event does to the callbacks' state. *)
Definition effect (st : St) (e : Event) : St :=
  match e with Served j q _ => (handle j q st).1 | Changed l => local l st | _ => st end.
Definition replay (st : St) (tr : list Event) : St := foldl effect st tr.

Lemma step_replay s a s' es : step s a = Some (s', es) →
  state s' = replay (state s) es ∧
  ∀ j q r, Served j q r ∈ es → es = [Served j q r] ∧ r = (handle j q (state s)).2.
Proof.
  intros Hs. destruct a as [i q cb g|j k|j|j g|i k|j|l]; cbn [step] in Hs.
  - destruct (clients s !! i) as [c|]; [|done]. cbn [mbind option_bind] in Hs.
    destruct (AsyncSendRequest _ _ _ _ _) as [[[c' ps] sent] [p|]]; injection Hs as <- <-; (split; [done|]); intros j' q' r' H;
      [by apply list_elem_of_singleton in H|by apply not_elem_of_nil in H].
  - destruct (services s !! j) as [v|]; [|done]. cbn [mbind option_bind] in Hs. destruct (net s !! k) as [m|]; [|done].
    cbn [mbind option_bind] in Hs. destruct (on_request v m); [|done]. injection Hs as <- <-. split; [done|].
    by intros j' q' r' H%not_elem_of_nil.
  - destruct (services s !! j) as [v|]; [|done]. cbn [mbind option_bind] in Hs. destruct (Process_take v); [|done].
    injection Hs as <- <-. split; [done|]. by intros j' q' r' H%not_elem_of_nil.
  - destruct (services s !! j) as [v|]; [|done]. cbn [mbind option_bind] in Hs. destruct (running v) as [[q info]|]; [|done].
    cbn [mbind option_bind] in Hs. unfold HandleRequest in Hs. destruct (negb _).
    + injection Hs as <- <-. split; [done|]. by intros j' q' r' H%not_elem_of_nil.
    + destruct (handle j q (state s)) as [st r] eqn:Hh. injection Hs as <- <-. split; [simpl; by rewrite Hh|].
      intros j' q' r' H%list_elem_of_singleton. injection H as -> -> ->. by rewrite Hh.
  - destruct (clients s !! i) as [c|]; [|done]. cbn [mbind option_bind] in Hs. destruct (net s !! k) as [m|]; [|done].
    cbn [mbind option_bind] in Hs. destruct (_ && _); [|done].
    destruct (DecodeRes _) as [r|]; [|injection Hs as <- <-; split; [done|]; by intros j' q' r' H%not_elem_of_nil].
    destruct (HandleResponse _ _ _ _) as [[[c' ps] [t|]]|]; [| |done]; injection Hs as <- <-; (split; [done|]); intros j' q' r' H;
      [by apply list_elem_of_singleton in H|by apply not_elem_of_nil in H].
  - destruct (services s !! j) as [v|]; [|done]. injection Hs as <- <-. split; [done|]. by intros j' q' r' H%not_elem_of_nil.
  - injection Hs as <- <-. split; [done|]. intros j' q' r' H. by apply list_elem_of_singleton in H.
Qed.

(** Every answer is the callback's in the state that the events before it made. *)
Lemma reach_replay s0 tr s : reach s0 tr s →
  state s = replay (state s0) tr ∧
  ∀ tr1 j q r tr2, tr = tr1 ++ Served j q r :: tr2 → r = (handle j q (replay (state s0) tr1)).2.
Proof.
  induction 1 as [|tr s a s' es Hr [IH1 IH2] Hs]; [split; [done|by intros [] ? ? ? ?]|].
  destruct (step_replay _ _ _ _ Hs) as [Hst Hserved]. split.
  - unfold replay in *. by rewrite foldl_app, <- IH1.
  - intros tr1 j q r tr2 Heq. apply app_eq_app in Heq as (l & [[-> Hl]|[-> Hl]]).
    + destruct l as [|e l]; simpl in Hl.
      * destruct (Hserved j q r) as [_ ->]; [rewrite <- Hl; set_solver|]. by rewrite app_nil_r in IH1; rewrite <- IH1.
      * injection Hl as <- ->. by eapply IH2.
    + destruct (Hserved j q r) as [Hes ->]; [rewrite Hl; set_solver|]. rewrite Hes in Hl.
      destruct l as [|e l]; [by rewrite app_nil_r, <- IH1|]. injection Hl as -> Hl. by destruct l.
Qed.

Lemma steps_reach s0 tr s l s' es : reach s0 tr s → steps s l = Some (s', es) → reach s0 (tr ++ es) s'.
Proof.
  revert tr s es. induction l as [|a l IH]; intros tr s es Hr Hs; cbn in Hs.
  - injection Hs as <- <-. by rewrite app_nil_r.
  - destruct (step s a) as [[s1 es1]|] eqn:E; [|done]. cbn in Hs. destruct (steps s1 l) as [[s2 es2]|] eqn:E2; [|done].
    injection Hs as <- <-. rewrite app_assoc. eapply IH; [|done]. by econstructor.
Qed.

Lemma steps_reach_start s0 l s' es : steps s0 l = Some (s', es) → reach s0 es s'.
Proof. intros H. apply (steps_reach s0 [] s0 l s' es); [constructor|done]. Qed.
End service.

Arguments Sys : clear implicits.
Arguments Action : clear implicits.
Arguments Event : clear implicits.
Arguments Service : clear implicits.

(** ** A demonstration: two clients of two services that count *)

Module Demo.
Definition hash (l : list Z) : Z := foldr Z.add 0 l.
Definition id (b : Z) : Identity := Identity_new hash true [b; 2; 3; 4; 5; 6; 7; 8].
Definition tx (channel : string) : RtpsTransmitter := Rtps_Enable (mkRtpsTransmitter false channel (Some false) None) true.
Definition client (b : Z) : Client :=
  (Client_Init (Client_new hash "count") (Some (tx ("count" +:+ SRV_CHANNEL_REQ_SUFFIX), id b)) true).1.
Definition server (b : Z) : Service Z :=
  (Service_Init (Service_new hash "count") (Some (tx ("count" +:+ SRV_CHANNEL_RES_SUFFIX), id b)) true).1.
Definition encode (m : Z) : option (list Z) := Some [m].
Definition decode (l : list Z) : option Z := head l.
Definition handle (j : nat) (q st : Z) : Z * Z := (st + q, st + q).
Definition s0 : Sys Z Z Z := mkSys [client 10; client 20] [server 30; server 40] 0 [] [].
Definition demo_step := step hash encode decode encode decode handle (λ (_ : unit) st, st).
Definition demo_steps := steps hash encode decode encode decode handle (λ (_ : unit) st, st).

(** Both clients ask; both services answer the second request; the answers come in reverse
    order and one of them twice. *)
Definition plan : list (Action Z unit) :=
  [ASend 0 5 70 1; ASend 1 6 71 1; ARequest 0 1; ARequest 1 1; ARequest 0 0; ATake 1; ARun 1 3; ATake 0; ARun 0 3;
   ATake 0; ARun 0 3; AResponse 0 4; AResponse 1 3; AResponse 1 2; AResponse 1 3; AResponse 0 2].
Definition outcome : Sys Z Z Z * list (Event Z Z unit) := default (s0, []) (demo_steps s0 plan).
End Demo.

(** Client 1 holds the answer of the service that answered last and had it delivered first. *)
Example demo_promises : promises Demo.outcome.1 = [Some 17; Some 12].
Proof. vm_compute. reflexivity. Qed.

Lemma demo_start : start Demo.hash Demo.s0.
Proof.
  split.
  - intros [|[|i]] c [= <-]; split_and!; try done; by intros p [= <-].
  - intros [|[|j]] v [= <-]; split_and!; try done; by intros p [= <-].
  - by intros [|[|i]] [|[|i']] c c' [= <-] [= <-].
  - done.
Qed.

Lemma demo_reach :
  reach Demo.hash Demo.encode Demo.decode Demo.encode Demo.decode Demo.handle (λ (_ : unit) st, st) Demo.s0
    Demo.outcome.2 Demo.outcome.1.
Proof. apply (steps_reach_start _ _ _ _ _ _ _ _ Demo.plan). vm_compute. reflexivity. Qed.

Lemma responses_match_witness :
  promises Demo.outcome.1 !! 1%nat = Some (Some 12) ∧ matched Demo.s0 Demo.outcome.2 1 12.
Proof.
  split; [vm_compute; reflexivity|].
  apply (responses_match Demo.hash Demo.encode Demo.decode Demo.encode Demo.decode Demo.handle (λ (_ : unit) st, st)
    Demo.s0 ltac:(intros q bs [= <-]; reflexivity) ltac:(intros q bs [= <-]; reflexivity) Demo.outcome.2 Demo.outcome.1
    demo_start demo_reach ltac:(vm_compute; reflexivity)).
  vm_compute. reflexivity.
Defined.

Lemma request_is_answered_witness :
  ∃ s' n, Demo.demo_steps Demo.s0 [ASend 0 5 70 1; ARequest 0 0; ATake 0; ARun 0 3; AResponse 0 1] =
      Some (s', [Asked 0 n 0 5; Served 0 5 5; Answered 0 5 70]) ∧
    SendRequest_result (promises s') (Some 0%nat) = Some 5.
Proof.
  destruct (request_is_answered Demo.hash Demo.encode Demo.decode Demo.encode Demo.decode Demo.handle (λ (_ : unit) st, st)
    Demo.s0 0 0 (Demo.client 10) (Demo.server 30) 5 5 5 [5] [5] 70 1 3) as (s' & n & Hs & Hr & _);
    [by split|]. exists s', n. split; [exact Hs|exact Hr].
Defined.

(** A request that is given up after its timeout stays in [pending_requests_]. *)
Example given_up_stays :
  (pending_requests_ <$> (clients (default (Demo.s0, []) (Demo.demo_steps Demo.s0 [ASend 0 5 70 1])).1 !! 0%nat)) =
    Some {[1 := mkPending 0 70]} ∧
  SendRequest_result (promises (default (Demo.s0, []) (Demo.demo_steps Demo.s0 [ASend 0 5 70 1])).1) (Some 0%nat) = None.
Proof. split; vm_compute; reflexivity. Qed.
