(* ===== verification/Parameter.v ===== *)
(** * Parameters (cyber/parameter/parameter.h, parameter.cc, parameter_server.cc,
      parameter_client.cc, proto/parameter.proto)

    A parameter is a named, typed value.  A parameter server keeps a map of them behind three
    services, and clients in other nodes get, set and list them with requests: the system of
    [Service] with the callbacks of this file.

    [Double], its printing, and what protobuf does with messages and descriptors are
    arguments; so is the order in which a std::unordered_map is walked. *)

From stdpp Require Import base numbers list gmap strings pretty.
From Stdlib Require Import ZArith Lia.
From S2P Require Import Prelude WireFormat RtpsTransport Service.

Open Scope Z_scope.

Inductive ParamType := NOT_SET | BOOL | INT | DOUBLE | STRING | PROTOBUF.
#[global] Instance ParamType_eq_dec : EqDecision ParamType.
Proof. solve_decision. Defined.

Section parameter.
Context {Double : Type} (zero : Double) (double_to_string : Double → string).

(** The oneof of the message. *)
Inductive OneofValue := ONone | OBool (b : bool) | OInt (z : Z) | ODouble (d : Double) | OString (s : string).

Record Param := mkParam {
  name_ : string;
  type_ : ParamType;
  type_name_ : string;
  value_ : OneofValue;
  proto_desc_ : string
}.

(** Protobuf's getters give the default of a field that is not set. *)
Definition bool_value (p : Param) : bool := match value_ p with OBool b => b | _ => false end.
Definition int_value (p : Param) : Z := match value_ p with OInt z => z | _ => 0 end.
Definition double_value (p : Param) : Double := match value_ p with ODouble d => d | _ => zero end.
Definition string_value (p : Param) : string := match value_ p with OString s => s | _ => "" end.
Definition Param_default : Param := mkParam "" NOT_SET "" ONone "".

(** ** Parameter: the constructors *)

Definition Parameter_new : Param := mkParam "" NOT_SET "" ONone "".
Definition Parameter_named (name : string) : Param := mkParam name NOT_SET "" ONone "".
Definition Parameter_bool (name : string) (b : bool) : Param := mkParam name BOOL "BOOL" (OBool b) "".
(** From int and from int64_t. *)
Definition Parameter_int (name : string) (z : Z) : Param := mkParam name INT "INT" (OInt (i32 z)) "".
Definition Parameter_int64 (name : string) (z : Z) : Param := mkParam name INT "INT" (OInt (i64 z)) "".
Definition Parameter_double (name : string) (d : Double) : Param := mkParam name DOUBLE "DOUBLE" (ODouble d) "".
Definition Parameter_string (name s : string) : Param := mkParam name STRING "STRING" (OString s) "".
Definition Parameter_proto (name msg_str full_name proto_desc : string) : Param :=
  mkParam name PROTOBUF full_name (OString msg_str) proto_desc.
(** From a message: its serialization, descriptor string and full name. *)
Definition Parameter_message {M : Type} (serialize descriptor full_name : M → string) (name : string) (msg : M) : Param :=
  mkParam name PROTOBUF (full_name msg) (OString (serialize msg)) (descriptor msg).

(** [CopyFrom] in either direction. *)
Definition FromProtoParam (param : Param) : Param := param.
Definition ToProtoParam (p : Param) : Param := p.

(** ** value<T>(): a wrong type is logged and the getter's result returned *)

Definition AsBool (p : Param) : bool := bool_value p.
Definition AsInt64 (p : Param) : Z := int_value p.
(** For an integral type of [bits] bits. *)
Definition value_int (bits : Z) (signed : bool) (p : Param) : Z :=
  if signed then (int_value p + 2 ^ (bits - 1)) mod 2 ^ bits - 2 ^ (bits - 1) else int_value p mod 2 ^ bits.
Definition AsDouble (p : Param) : Double := double_value p.
Definition AsString (p : Param) : string := string_value p.
(** For a message type with its default: what was parsed. *)
Definition value_message {M : Type} (empty : M) (parse : string → option M) (p : Param) : M :=
  default empty (parse (string_value p)).
(** Whether the error is logged. *)
Definition type_error (wanted : list ParamType) (p : Param) : bool := bool_decide (type_ p ∉ wanted).

Definition quote : string := String (Ascii.ascii_of_nat 34) "".

(** [DebugString()]; [short_debug] is what the factory's message of that descriptor and name,
    if there is one, prints for these bytes. *)
Definition DebugString (short_debug : string → string → string → option string) (p : Param) : string :=
  "{name: " +:+ quote +:+ name_ p +:+ quote +:+ ", " +:+ "type: " +:+ quote +:+ type_name_ p +:+ quote +:+ ", " +:+ "value: " +:+
  match type_ p with
  | BOOL => if AsBool p then "true" else "false"
  | INT => pretty (AsInt64 p)
  | DOUBLE => double_to_string (AsDouble p)
  | STRING => quote +:+ AsString p +:+ quote
  | PROTOBUF => match short_debug (proto_desc_ p) (type_name_ p) (AsString p) with
                | Some s => quote +:+ s +:+ quote | None => "" end
  | NOT_SET => "not set"
  end +:+ "}".

(** The type says which member of the oneof is set. *)
Definition param_wf (p : Param) : Prop :=
  match type_ p, value_ p with
  | NOT_SET, ONone | BOOL, OBool _ | DOUBLE, ODouble _ | STRING, OString _ | PROTOBUF, OString _ => True
  | INT, OInt z => is_i64 z
  | _, _ => False
  end.

(** What a program can make: by a constructor, or with [FromProtoParam] from a message
    whose type fits its value. *)
Inductive constructed : Param → Prop :=
| c_new : constructed Parameter_new
| c_named n : constructed (Parameter_named n)
| c_bool n b : constructed (Parameter_bool n b)
| c_int n z : constructed (Parameter_int n z)
| c_int64 n z : constructed (Parameter_int64 n z)
| c_double n d : constructed (Parameter_double n d)
| c_string n s : constructed (Parameter_string n s)
| c_proto n m f d : constructed (Parameter_proto n m f d)
| c_message {M : Type} serialize descriptor full_name n (msg : M) :
    constructed (Parameter_message serialize descriptor full_name n msg)
| c_from p : param_wf p → constructed (FromProtoParam p)
| c_copy p : constructed p → constructed (FromProtoParam (ToProtoParam p)).

Lemma constructed_wf p : constructed p → param_wf p.
Proof.
  induction 1; try done; cbn; unfold is_i64.
  - unfold i32. pose proof (Z.mod_pos_bound (z + 2 ^ 31) (2 ^ 32)). lia.
  - unfold i64. pose proof (Z.mod_pos_bound (z + 2 ^ 63) (2 ^ 64)). lia.
Qed.

(** ** The server *)

Abbreviation Params := (gmap string Param).
Context (walk : gmap string Param → list Param).   (* the order of the unordered_map *)

Inductive Request := RGet (name : string) | RSet (p : Param) | RList (node : string).
Inductive Response := Got (p : Param) | SetDone (b : bool) | Listed (ps : list Param).

(** [FixParameterServiceName]. *)
Definition FixParameterServiceName (node_name service_name : string) : string := node_name +:+ "/" +:+ service_name.
Definition GET_PARAMETER_SERVICE_NAME : string := "get_parameter".
Definition SET_PARAMETER_SERVICE_NAME : string := "set_parameter".
Definition LIST_PARAMETERS_SERVICE_NAME : string := "list_parameters".

(** The callbacks of the three services, each under [param_map_mutex_].  The channel of a
    service carries its own kind of request only. *)
Definition server_callback (j : nat) (request : Request) (param_map_ : Params) : Params * Response :=
  match request with
  | RGet name =>
      match param_map_ !! name with
      | Some p => (param_map_, Got p)
      | None => (param_map_, Got Param_default)
      end
  | RSet p => (<[name_ p := p]> param_map_, SetDone true)
  | RList _ => (param_map_, Listed (walk param_map_))
  end.

(** [ParameterServer::SetParameter], [GetParameter] and [ListParameters]. *)
Definition Server_SetParameter (parameter : Param) (param_map_ : Params) : Params :=
  <[name_ parameter := ToProtoParam parameter]> param_map_.
Definition Server_GetParameter (param_map_ : Params) (parameter_name : string) : option Param :=
  FromProtoParam <$> param_map_ !! parameter_name.
Definition Server_ListParameters (param_map_ : Params) : list Param := FromProtoParam <$> walk param_map_.

(** The services of [ParameterServer(node)] before they are initialised. *)
Definition ParameterServer_services (Hash : list Z → Z) (node_name : string) : list (Service Request) :=
  (λ n, Service_new Hash (FixParameterServiceName node_name n)) <$>
    [GET_PARAMETER_SERVICE_NAME; SET_PARAMETER_SERVICE_NAME; LIST_PARAMETERS_SERVICE_NAME].

(** ** The client: what it makes of the response to its request, null when it timed out *)

Definition Client_GetParameter (response : option Response) : option Param :=
  match response with
  | Some (Got p) => if decide (type_ p = NOT_SET) then None else Some (FromProtoParam p)
  | _ => None
  end.
Definition Client_SetParameter (response : option Response) : bool :=
  match response with Some (SetDone b) => b | _ => false end.
Definition Client_ListParameters (response : option Response) : option (list Param) :=
  match response with Some (Listed ps) => Some (FromProtoParam <$> ps) | _ => None end.

(** ** Clients see the last write *)

(** The parameters after these events, by the last write of each name. *)
Definition last_write (tr : list (Event Request Response Param)) : Params :=
  foldl (λ m e, match e with
                | Served _ (RSet p) _ | Changed p => <[name_ p := p]> m
                | _ => m
                end) ∅ tr.

Section system.
Context (Hash : list Z → Z) (EncodeReq : Request → option (list Z)) (DecodeReq : list Z → option Request).
Context (EncodeRes : Response → option (list Z)) (DecodeRes : list Z → option Response).
Context (decode_req : ∀ q bs, EncodeReq q = Some bs → DecodeReq bs = Some q).
Context (decode_res : ∀ r bs, EncodeRes r = Some bs → DecodeRes bs = Some r).

Definition param_reach : Sys Request Response Params → list (Event Request Response Param) → Sys Request Response Params → Prop :=
  reach Hash EncodeReq DecodeReq EncodeRes DecodeRes server_callback Server_SetParameter.

Lemma replay_last_write tr : replay server_callback Server_SetParameter ∅ tr = last_write tr.
Proof.
  unfold replay, last_write. generalize (∅ : Params). induction tr as [|e tr IH]; intros m; [done|]. simpl. rewrite <- IH. f_equal.
  destruct e as [i n p q|j q r|p r cb|l]; try done. simpl. destruct q as [name|p|node]; try done.
  simpl. by destruct (m !! name).
Qed.

(** [C11] However the requests of clients and the calls of the server's own process
    interleave, there is one order of all of them in which a client that gets a parameter is
    given what the last set of that name before it wrote, and one that lists is given them
    all; nothing else ever satisfies its promise. *)
Theorem parameters_linearize s0 tr s i n p q r :
  start Hash s0 → state s0 = ∅ → param_reach s0 tr s → Z.of_nat (length tr) < 2 ^ 64 - 1 →
  Asked i n p q ∈ tr → promises s !! p = Some (Some r) →
  ∃ tr1 tr2 j, tr = tr1 ++ Served j q r :: tr2 ∧
    match q with
    | RGet name => r = Got (default Param_default (last_write tr1 !! name)) ∧
        Client_GetParameter (Some r) = (p ← last_write tr1 !! name; if decide (type_ p = NOT_SET) then None else Some p)
    | RSet par => Client_SetParameter (Some r) = true ∧ last_write (tr1 ++ [Served j q r]) !! name_ par = Some par
    | RList _ => Client_ListParameters (Some r) = Some (walk (last_write tr1))
    end.
Proof using decode_req decode_res.
  intros Hstart H0 Hr Hlen Hask Hp.
  destruct (responses_match Hash _ _ _ _ _ _ s0 decode_req decode_res tr s Hstart Hr Hlen) as (Hm & _).
  destruct (Hm p r Hp) as (i' & c & n' & q' & j & v & _ & _ & _ & Hask' & Hserved).
  pose proof (reach_inv Hash _ _ _ _ _ _ s0 decode_req decode_res tr s Hstart Hr Hlen) as Hinv.
  edestruct i_unique as [_ Hqq]; [exact Hinv|exact Hask|exact Hask'|]. specialize (Hqq eq_refl) as <-.
  destruct (list_elem_of_split _ _ Hserved) as (tr1 & tr2 & Htr). exists tr1, tr2, j. split; [done|].
  destruct (reach_replay Hash _ _ _ _ _ _ _ _ _ Hr) as [_ Hrep]. specialize (Hrep tr1 j q r tr2 Htr).
  rewrite H0, replay_last_write in Hrep. rewrite Hrep. destruct q as [name|par|node]; simpl.
  - destruct (last_write tr1 !! name); simpl; [done|]. split; done.
  - split; [done|]. unfold last_write. rewrite foldl_app. simpl. by rewrite lookup_insert_eq.
  - by rewrite list_fmap_id.
Qed.
End system.

(** The value a constructor is given is the one read back, an integer cut to its width. *)
Lemma constructor_values n b z d str full desc :
  AsBool (Parameter_bool n b) = b ∧ AsInt64 (Parameter_int n z) = i32 z ∧ AsInt64 (Parameter_int64 n z) = i64 z ∧
  AsDouble (Parameter_double n d) = d ∧ AsString (Parameter_string n str) = str ∧
  AsString (Parameter_proto n str full desc) = str.
Proof. done. Qed.

(** A parameter made by any constructor, or copied, has the member of the oneof set that
    its type names; at another type the reader is given the type's default. *)
Theorem parameter_values p :
  constructed p → param_wf p ∧
  match type_ p with
  | NOT_SET => AsBool p = false ∧ AsInt64 p = 0 ∧ AsDouble p = zero ∧ AsString p = ""
  | BOOL => value_ p = OBool (AsBool p) ∧ AsInt64 p = 0 ∧ AsDouble p = zero ∧ AsString p = ""
  | INT => value_ p = OInt (AsInt64 p) ∧ value_int 64 true p = AsInt64 p ∧
      (is_i32 (AsInt64 p) → value_int 32 true p = AsInt64 p) ∧ AsBool p = false ∧ AsDouble p = zero ∧ AsString p = ""
  | DOUBLE => value_ p = ODouble (AsDouble p) ∧ AsBool p = false ∧ AsInt64 p = 0 ∧ AsString p = ""
  | STRING | PROTOBUF => value_ p = OString (AsString p) ∧ AsBool p = false ∧ AsInt64 p = 0 ∧ AsDouble p = zero
  end.
Proof.
  intros H%constructed_wf. split; [done|]. destruct p as [n t tn v d]. unfold param_wf in H. simpl in *.
  destruct t, v; try done; unfold AsBool, AsInt64, AsDouble, AsString, bool_value, int_value, double_value, string_value, value_int; simpl; try done.
  split_and!; try done.
  - change (64 - 1) with 63. unfold is_i64 in H. rewrite Z.mod_small by lia. lia.
  - intros Hz. unfold is_i32 in Hz. change (32 - 1) with 31. rewrite Z.mod_small by lia. lia.
Qed.

(** A parameter without a type set by a client hides the one that was there from clients,
    which take NOT_SET for absence, while the server's own process still finds it. *)
Lemma untyped_parameter_hides m name :
  let m' := (server_callback 1 (RSet (Parameter_named name)) m).1 in
  Client_GetParameter (Some (server_callback 0 (RGet name) m').2) = None ∧
  Server_GetParameter m' name = Some (Parameter_named name).
Proof. simpl. unfold Server_GetParameter. rewrite lookup_insert_eq. done. Qed.
End parameter.

Arguments Param : clear implicits.
Arguments OneofValue : clear implicits.
Arguments Request : clear implicits.
Arguments Response : clear implicits.

(** ** A demonstration: one client sets, another one reads

    Doubles are integers here, and messages travel as the number that codes them. *)

Module Demo.
#[global] Instance value_eq_dec : EqDecision (OneofValue Z).
Proof. solve_decision. Defined.
#[global] Instance value_countable : Countable (OneofValue Z).
Proof.
  refine (inj_countable'
    (λ v, match v with ONone => inl (inl ()) | OBool b => inl (inr (inl b)) | OInt z => inl (inr (inr z))
                     | ODouble d => inr (inl d) | OString s => inr (inr s) end)
    (λ x, match x with inl (inl ()) => ONone | inl (inr (inl b)) => OBool b | inl (inr (inr z)) => OInt z
                     | inr (inl d) => ODouble d | inr (inr s) => OString s end) _).
  by intros [].
Defined.
#[global] Instance type_countable : Countable ParamType.
Proof.
  refine (inj_countable' (λ t, match t with NOT_SET => 0 | BOOL => 1 | INT => 2 | DOUBLE => 3 | STRING => 4 | PROTOBUF => 5 end)
    (λ z, match z with 0 => NOT_SET | 1 => BOOL | 2 => INT | 3 => DOUBLE | 4 => STRING | _ => PROTOBUF end) _).
  by intros [].
Defined.
#[global] Instance param_eq_dec : EqDecision (Param Z).
Proof. solve_decision. Defined.
#[global] Instance param_countable : Countable (Param Z).
Proof.
  refine (inj_countable' (λ p, (name_ p, type_ p, type_name_ p, value_ p, proto_desc_ p))
    (λ '(n, t, tn, v, d), mkParam n t tn v d) _). by intros [].
Defined.
#[global] Instance request_eq_dec : EqDecision (Request Z).
Proof. solve_decision. Defined.
#[global] Instance request_countable : Countable (Request Z).
Proof.
  refine (inj_countable' (λ q, match q with RGet n => inl (inl n) | RSet p => inl (inr p) | RList n => inr n end)
    (λ x, match x with inl (inl n) => RGet n | inl (inr p) => RSet p | inr n => RList n end) _). by intros [].
Defined.
#[global] Instance response_eq_dec : EqDecision (Response Z).
Proof. solve_decision. Defined.
#[global] Instance response_countable : Countable (Response Z).
Proof.
  refine (inj_countable' (λ r, match r with Got p => inl (inl p) | SetDone b => inl (inr b) | Listed l => inr l end)
    (λ x, match x with inl (inl p) => Got p | inl (inr b) => SetDone b | inr l => Listed l end) _). by intros [].
Defined.
Definition enc {A} `{Countable A} (a : A) : option (list Z) := Some [Zpos (encode a)].
Definition dec {A} `{Countable A} (l : list Z) : option A := match l with [Zpos x] => decode x | _ => None end.
Lemma dec_enc {A} `{Countable A} (a : A) bs : enc a = Some bs → dec bs = Some a.
Proof. intros [= <-]. apply decode_encode. Qed.

Definition walk (m : gmap string (Param Z)) : list (Param Z) := (map_to_list m).*2.
Definition service (n : string) (b : Z) : Service (Request Z) :=
  (Service_Init (Service_new Service.Demo.hash (FixParameterServiceName "node" n))
     (Some (Service.Demo.tx ((FixParameterServiceName "node" n) +:+ SRV_CHANNEL_RES_SUFFIX), Service.Demo.id b)) true).1.
Definition client (n : string) (b : Z) : Client :=
  (Client_Init (Client_new Service.Demo.hash (FixParameterServiceName "node" n))
     (Some (Service.Demo.tx ((FixParameterServiceName "node" n) +:+ SRV_CHANNEL_REQ_SUFFIX), Service.Demo.id b)) true).1.
Definition s0 : Sys (Request Z) (Response Z) (gmap string (Param Z)) :=
  mkSys [client GET_PARAMETER_SERVICE_NAME 10; client SET_PARAMETER_SERVICE_NAME 20]
    [service GET_PARAMETER_SERVICE_NAME 30; service SET_PARAMETER_SERVICE_NAME 40] ∅ [] [].

(** Set to 5, then to 6 in the server's process; the read, asked before the second write, is
    served after it. *)
Definition speed (z : Z) : Param Z := Parameter_int "speed" z.
Definition plan : list (Action (Request Z) (Param Z)) :=
  [ASend 1 (RSet (speed 5)) 71 0; ARequest 1 0; ATake 1; ARun 1 0; AResponse 1 1;
   ASend 0 (RGet "speed") 70 0; ARequest 0 2; ATake 0; ALocal (speed 6); ARun 0 0; AResponse 0 3].
Definition outcome := default (s0, [])
  (steps Service.Demo.hash enc dec enc dec (server_callback walk) Server_SetParameter s0 plan).
End Demo.

Example demo_read : promises Demo.outcome.1 = [Some (SetDone true); Some (Got (Demo.speed 6))].
Proof. vm_compute. reflexivity. Qed.

Lemma demo_params_start : start Service.Demo.hash Demo.s0.
Proof.
  split.
  - intros [|[|i]] c [= <-]; split_and!; try done; by intros p [= <-].
  - intros [|[|j]] v [= <-]; split_and!; try done; by intros p [= <-].
  - by intros [|[|i]] [|[|i']] c c' [= <-] [= <-].
  - done.
Qed.

Lemma demo_params_reach :
  param_reach Demo.walk Service.Demo.hash Demo.enc Demo.dec Demo.enc Demo.dec Demo.s0 Demo.outcome.2 Demo.outcome.1.
Proof. apply (steps_reach_start _ _ _ _ _ _ _ _ Demo.plan). vm_compute. reflexivity. Qed.

Lemma parameters_linearize_witness :
  promises Demo.outcome.1 !! 1%nat = Some (Some (Got (Demo.speed 6))) ∧
  ∃ tr1 tr2 j, Demo.outcome.2 = tr1 ++ Served j (RGet "speed") (Got (Demo.speed 6)) :: tr2 ∧
    Demo.speed 6 = default Param_default (last_write tr1 !! "speed").
Proof.
  split; [vm_compute; reflexivity|].
  destruct (parameters_linearize Demo.walk Service.Demo.hash Demo.enc Demo.dec Demo.enc Demo.dec Demo.dec_enc Demo.dec_enc
    Demo.s0 Demo.outcome.2 Demo.outcome.1 0 1 1 (RGet "speed") (Got (Demo.speed 6)))
    as (tr1 & tr2 & j & Ht & Hg & _).
  - exact demo_params_start.
  - reflexivity.
  - exact demo_params_reach.
  - vm_compute. reflexivity.
  - apply (list_elem_of_lookup_2 _ 3). vm_compute. reflexivity.
  - vm_compute. reflexivity.
  - exists tr1, tr2, j. split; [exact Ht|congruence].
Defined.

Lemma parameter_values_witness :
  constructed (Parameter_int (Double := Z) "speed" (2 ^ 31)) ∧ AsInt64 (Parameter_int (Double := Z) "speed" (2 ^ 31)) = - 2 ^ 31 ∧
  param_wf (Parameter_int (Double := Z) "speed" (2 ^ 31)).
Proof.
  split; [constructor|]. split; [vm_compute; reflexivity|].
  apply (parameter_values 0 (Parameter_int "speed" (2 ^ 31))). constructor.
Defined.
