(* ===== verification/ArenaTree.v ===== *)
(** * The tree of arena addresses (the tree operations of
      cyber/transport/shm/arena_address_allocator.h, .cc)

    The allocator of [ArenaAllocator] keeps a binary search tree of channel keys in shared
    memory: nodes of an array linked by pointers, rotated and exchanged in place.  This file
    has the operations on the links and what they do to the tree that the links represent.

    Pointers are indices into the array, [None] is the null pointer, and a pointer to a
    pointer ([ArenaAddressNode **]) is a [Slot]: the root or a link of a node.  [None] as
    the result of an operation is a run that follows a null pointer (or runs out of fuel;
    the theorems show that it does not).  Operations run one at a time. *)

From stdpp Require Import base numbers list gmap sorting.
From Stdlib Require Import ZArith Lia Sorted.
From S2P Require Import Prelude.

Open Scope Z_scope.

Record Node := mkNode {
  key_ : Z;                     (* uint64_t *)
  index_ : nat;
  ref_count_ : Z;               (* std::atomic<uint64_t> *)
  parent_ : option nat;
  left_ : option nat;
  right_ : option nat
}.
Definition zero_node : Node := mkNode 0 0 0 None None None.

Definition set_key (k : Z) (n : Node) : Node := mkNode k (index_ n) (ref_count_ n) (parent_ n) (left_ n) (right_ n).
Definition set_index (i : nat) (n : Node) : Node := mkNode (key_ n) i (ref_count_ n) (parent_ n) (left_ n) (right_ n).
Definition set_ref_count (c : Z) (n : Node) : Node := mkNode (key_ n) (index_ n) c (parent_ n) (left_ n) (right_ n).
Definition set_parent (p : option nat) (n : Node) : Node := mkNode (key_ n) (index_ n) (ref_count_ n) p (left_ n) (right_ n).
Definition set_left (p : option nat) (n : Node) : Node := mkNode (key_ n) (index_ n) (ref_count_ n) (parent_ n) p (right_ n).
Definition set_right (p : option nat) (n : Node) : Node := mkNode (key_ n) (index_ n) (ref_count_ n) (parent_ n) (left_ n) p.

(** The nodes and the root pointer. *)
Record Store := mkStore { nodes_ : gmap nat Node; root_ : option nat }.

(** [node->field = ..]. *)
Definition upd (s : Store) (i : nat) (f : Node → Node) : option Store :=
  n ← nodes_ s !! i; Some (mkStore (<[i := f n]> (nodes_ s)) (root_ s)).
(** The same where the code checks for null. *)
Definition upd_if (s : Store) (p : option nat) (f : Node → Node) : option Store :=
  match p with Some i => upd s i f | None => Some s end.

Inductive Slot := SRoot | SLeft (i : nat) | SRight (i : nat).

(** [*slot = p]. *)
Definition write_slot (s : Store) (sl : Slot) (p : option nat) : option Store :=
  match sl with
  | SRoot => Some (mkStore (nodes_ s) p)
  | SLeft i => upd s i (set_left p)
  | SRight i => upd s i (set_right p)
  end.

(** ** The tree *)

Fixpoint FindNode (fuel : nat) (s : Store) (p : option nat) (key : Z) : option (option nat) :=
  match fuel with
  | O => None
  | S fuel =>
      match p with
      | None => Some None
      | Some i =>
          n ← nodes_ s !! i;
          if key <? key_ n then FindNode fuel s (left_ n) key
          else if key_ n <? key then FindNode fuel s (right_ n) key
          else Some (Some i)
      end
  end.

Fixpoint TreeHeight (fuel : nat) (s : Store) (p : option nat) : option Z :=
  match fuel with
  | O => None
  | S fuel =>
      match p with
      | None => Some 0
      | Some i =>
          n ← nodes_ s !! i;
          hl ← TreeHeight fuel s (left_ n);
          hr ← TreeHeight fuel s (right_ n);
          Some (1 + Z.max hl hr)
      end
  end.

Definition TreeBalanceFactor (fuel : nat) (s : Store) (p : option nat) : option Z :=
  match p with
  | None => Some 0
  | Some i =>
      n ← nodes_ s !! i;
      hl ← TreeHeight fuel s (left_ n);
      hr ← TreeHeight fuel s (right_ n);
      Some (i64 (u64 (hl - hr)))
  end.

(** The loops to the last node on the right and on the left, with the slot it is in. *)
Fixpoint TreeMax (fuel : nat) (s : Store) (i : nat) (sl : Slot) : option (nat * Slot) :=
  match fuel with
  | O => None
  | S fuel =>
      n ← nodes_ s !! i;
      match right_ n with
      | Some r => TreeMax fuel s r (SRight i)
      | None => Some (i, sl)
      end
  end.
Fixpoint TreeMin (fuel : nat) (s : Store) (i : nat) (sl : Slot) : option (nat * Slot) :=
  match fuel with
  | O => None
  | S fuel =>
      n ← nodes_ s !! i;
      match left_ n with
      | Some l => TreeMin fuel s l (SLeft i)
      | None => Some (i, sl)
      end
  end.

Definition TreeRotateLeft (s : Store) (node : nat) (sl : Slot) : option Store :=
  n ← nodes_ s !! node;
  let parent := parent_ n in
  right ← right_ n;
  rn ← nodes_ s !! right;
  s ← upd s node (set_right (left_ rn));
  s ← upd s right (set_left (Some node));
  s ← upd s node (set_parent (Some right));
  s ← write_slot s sl (Some right);
  upd s right (set_parent parent).

Definition TreeRotateRight (s : Store) (node : nat) (sl : Slot) : option Store :=
  n ← nodes_ s !! node;
  let parent := parent_ n in
  left ← left_ n;
  ln ← nodes_ s !! left;
  s ← upd s node (set_left (right_ ln));
  s ← upd s left (set_right (Some node));
  s ← upd s node (set_parent (Some left));
  s ← write_slot s sl (Some left);
  upd s left (set_parent parent).

Definition TreeRotateLeftRight (s : Store) (node : nat) (sl : Slot) : option Store :=
  n ← nodes_ s !! node;
  left ← left_ n;
  s ← TreeRotateLeft s left (SLeft node);
  TreeRotateRight s node sl.

Definition TreeRotateRightLeft (s : Store) (node : nat) (sl : Slot) : option Store :=
  n ← nodes_ s !! node;
  right ← right_ n;
  s ← TreeRotateRight s right (SRight node);
  TreeRotateLeft s node sl.

Definition TreeRebalance (fuel : nat) (s : Store) (p : option nat) (sl : Slot) : option Store :=
  match p with
  | None => Some s
  | Some node =>
      balance_factor ← TreeBalanceFactor fuel s p;
      n ← nodes_ s !! node;
      if 1 <? balance_factor then
        b ← TreeBalanceFactor fuel s (left_ n);
        if 0 <? b then TreeRotateRight s node sl else TreeRotateLeftRight s node sl
      else if balance_factor <? -1 then
        b ← TreeBalanceFactor fuel s (right_ n);
        if b <? 0 then TreeRotateLeft s node sl else TreeRotateRightLeft s node sl
      else Some s
  end.

(** [SwapNodePosition(x, x_p, y, y_p)] for nodes that are not null. *)
Definition SwapNodePosition (s : Store) (x : nat) (x_p : Slot) (y : nat) (y_p : Slot) : option Store :=
  s ← write_slot s x_p (Some y);
  s ← write_slot s y_p (Some x);
  xn ← nodes_ s !! x;
  yn ← nodes_ s !! y;
  let parent_x := parent_ xn in
  let parent_y := parent_ yn in
  s ← upd s x (set_parent parent_y);
  s ← upd s y (set_parent parent_x);
  (* swap left *)
  xn ← nodes_ s !! x;
  yn ← nodes_ s !! y;
  let tmp := left_ xn in
  s ← upd s x (set_left (left_ yn));
  s ← upd_if s (left_ yn) (set_parent (Some x));
  s ← upd s y (set_left tmp);
  s ← upd_if s tmp (set_parent (Some y));
  (* swap right *)
  xn ← nodes_ s !! x;
  yn ← nodes_ s !! y;
  let tmp := right_ xn in
  s ← upd s x (set_right (right_ yn));
  s ← upd_if s (right_ yn) (set_parent (Some x));
  s ← upd s y (set_right tmp);
  upd_if s tmp (set_parent (Some y)).


(** ** Trees and contexts

    What the links represent.  A context is the path from a node up to the root, the frame
    next to the hole first; [slot_of] is the pointer that the hole hangs from. *)

Inductive tree :=
| Leaf
| Br (l : tree) (i : nat) (k : Z) (r : tree).

Inductive frame :=
| FLeft (i : nat) (k : Z) (r : tree)      (* the hole is the left child of [i] *)
| FRight (l : tree) (i : nat) (k : Z).    (* the right child *)


Definition fill (f : frame) (t : tree) : tree :=
  match f with FLeft i k r => Br t i k r | FRight l i k => Br l i k t end.
Fixpoint plug (c : list frame) (t : tree) : tree :=
  match c with [] => t | f :: c => plug c (fill f t) end.

Definition rptr (t : tree) : option nat := match t with Leaf => None | Br _ i _ _ => Some i end.
Definition fid (f : frame) : nat := match f with FLeft i _ _ => i | FRight _ i _ => i end.
Definition fsub (f : frame) : tree := match f with FLeft _ _ r => r | FRight l _ _ => l end.
Definition fkey (f : frame) : Z := match f with FLeft _ k _ => k | FRight _ _ k => k end.
Definition slot_of (c : list frame) : Slot :=
  match c with [] => SRoot | FLeft i _ _ :: _ => SLeft i | FRight _ i _ :: _ => SRight i end.
(** The root of [plug c t] for a [t] with root [p]. *)
Fixpoint cptr (c : list frame) (p : option nat) : option nat :=
  match c with [] => p | f :: c => cptr c (Some (fid f)) end.

Fixpoint height (t : tree) : nat :=
  match t with Leaf => 0 | Br l _ _ r => S (Nat.max (height l) (height r)) end.

(** Nodes with their keys, from left to right. *)
Fixpoint inorder (t : tree) : list (nat * Z) :=
  match t with Leaf => [] | Br l i k r => inorder l ++ (i, k) :: inorder r end.
Fixpoint cpre (c : list frame) : list (nat * Z) :=
  match c with
  | [] => [] | FLeft _ _ _ :: c => cpre c | FRight l i k :: c => cpre c ++ inorder l ++ [(i, k)]
  end.
Fixpoint cpost (c : list frame) : list (nat * Z) :=
  match c with
  | [] => [] | FLeft i k r :: c => (i, k) :: inorder r ++ cpost c | FRight _ _ _ :: c => cpost c
  end.
Definition ids (t : tree) : list nat := (inorder t).*1.
Definition cids (c : list frame) : list nat := (cpre c).*1 ++ (cpost c).*1.

Ltac app_norm := repeat (rewrite <- !app_assoc; simpl).

Lemma inorder_plug c t : inorder (plug c t) = cpre c ++ inorder t ++ cpost c.
Proof.
  revert t. induction c as [|[i k r|l i k] c IH]; intros t; simpl; [by rewrite app_nil_r| |];
    rewrite IH; simpl; by rewrite <- ?app_assoc.
Qed.

Lemma ids_plug c t : ids (plug c t) ≡ₚ ids t ++ cids c.
Proof. unfold ids, cids. rewrite inorder_plug, !fmap_app. solve_Permutation. Qed.

Lemma plug_app d c t : plug (d ++ c) t = plug c (plug d t).
Proof. revert t. induction d; simpl; auto. Qed.

Lemma cptr_app d c p : cptr (d ++ c) p = cptr c (cptr d p).
Proof. revert p. induction d; simpl; auto. Qed.

Lemma rptr_plug c t : rptr (plug c t) = cptr c (rptr t).
Proof. revert t. induction c as [|[] c IH]; intros t; simpl; [done|..]; apply IH. Qed.

Lemma ids_Br l i k r : ids (Br l i k r) = ids l ++ i :: ids r.
Proof. unfold ids. simpl. by rewrite fmap_app. Qed.

Lemma height_ids t : (height t ≤ length (ids t))%nat.
Proof. induction t; [done|]. rewrite ids_Br, length_app. simpl. lia. Qed.

Lemma height_plug c t : (height t ≤ height (plug c t))%nat.
Proof.
  revert t. induction c as [|f c IH]; intros t; [done|]. simpl. rewrite <- IH.
  destruct f; simpl; lia.
Qed.

(** ** Links *)

Definition lk (n : Node) : Z * option nat * option nat := (key_ n, left_ n, right_ n).
Definition att (n : Node) : nat * Z := (index_ n, ref_count_ n).
Definition links (s : Store) : gmap nat (Z * option nat * option nat) := lk <$> nodes_ s.
Definition attrs (s : Store) : gmap nat (nat * Z) := att <$> nodes_ s.

(** The links [L] represent the tree [t]; a context, with [R] the pointer to its root and
    [p] the one in its hole. *)
Fixpoint shape (L : gmap nat (Z * option nat * option nat)) (t : tree) : Prop :=
  match t with
  | Leaf => True
  | Br l i k r => L !! i = Some (k, rptr l, rptr r) ∧ shape L l ∧ shape L r
  end.
Fixpoint cshape (L : gmap nat (Z * option nat * option nat)) (R : option nat) (c : list frame) (p : option nat) : Prop :=
  match c with
  | [] => R = p
  | FLeft i k r :: c => L !! i = Some (k, p, rptr r) ∧ shape L r ∧ cshape L R c (Some i)
  | FRight l i k :: c => L !! i = Some (k, rptr l, p) ∧ shape L l ∧ cshape L R c (Some i)
  end.

Lemma shape_plug L R c t : cshape L R c (rptr t) ∧ shape L t ↔ R = rptr (plug c t) ∧ shape L (plug c t).
Proof.
  revert t. induction c as [|[i k r|l i k] c IH]; intros t; simpl; [done| |]; rewrite <- IH; simpl; tauto.
Qed.

Lemma cshape_app L R d c p : cshape L R (d ++ c) p ↔ cshape L (cptr d p) d p ∧ cshape L R c (cptr d p).
Proof.
  revert p. induction d as [|[i k r|l i k] d IH]; intros p; simpl; [tauto| |]; rewrite IH; tauto.
Qed.

Lemma shape_ext L L' t : (∀ i, i ∈ ids t → L' !! i = L !! i) → shape L t → shape L' t.
Proof.
  induction t as [|l IHl i k r IHr]; [done|]. rewrite ids_Br. intros He (H & Hl & Hr). simpl.
  rewrite He by set_solver. split; [done|]. split; [apply IHl|apply IHr]; try done; set_solver.
Qed.

Lemma cids_cons f c :
  cids (f :: c) ≡ₚ fid f :: ids (fsub f) ++ cids c.
Proof.
  unfold cids, ids. destruct f; simpl; rewrite ?fmap_app; simpl; rewrite ?fmap_app; simpl; solve_Permutation.
Qed.

Lemma cshape_ext L L' R c p : (∀ i, i ∈ cids c → L' !! i = L !! i) → cshape L R c p → cshape L' R c p.
Proof.
  revert p. induction c as [|f c IH]; intros p He; [done|].
  assert (∀ i, i ∈ fid f :: ids (fsub f) ++ cids c →
    L' !! i = L !! i) as He' by (intros i Hi; apply He; by rewrite cids_cons).
  destruct f as [i k r|l i k]; simpl in *; intros (H & Ht & Hc);
    (split; [rewrite He' by set_solver; done|]; split; [eapply shape_ext, Ht; set_solver|apply IH; set_solver]).
Qed.

(** ** Single writes *)

(** A store by its links, its other attributes and its root. *)
Definition st (L : gmap nat (Z * option nat * option nat)) (A : gmap nat (nat * Z)) (R : option nat) (s : Store) : Prop :=
  links s = L ∧ attrs s = A ∧ root_ s = R.

Lemma st_read L A R s i v : st L A R s → L !! i = Some v → ∃ n, nodes_ s !! i = Some n ∧ lk n = v.
Proof.
  intros (<- & _ & _) H. unfold links in H. rewrite lookup_fmap in H. destruct (nodes_ s !! i) as [n|]; [|done].
  exists n. by simplify_eq/=.
Qed.

Lemma upd_st L A R s i f v w : st L A R s → L !! i = Some v →
  (∀ n, lk n = v → lk (f n) = w ∧ att (f n) = att n) →
  ∃ s', upd s i f = Some s' ∧ st (<[i := w]> L) A R s'.
Proof.
  intros Hs Hi Hf. destruct (st_read _ _ _ _ _ _ Hs Hi) as (n & Hn & Hv). destruct Hs as (<- & <- & <-).
  unfold upd. rewrite Hn. simpl. eexists. split; [done|]. destruct (Hf n Hv) as [Hw Ha].
  unfold st, links, attrs. simpl. rewrite !fmap_insert, Hw, Ha. split; [done|]. split; [|done].
  apply insert_id. by rewrite lookup_fmap, Hn.
Qed.

Lemma upd_left L A R s i k l r p : st L A R s → L !! i = Some (k, l, r) →
  ∃ s', upd s i (set_left p) = Some s' ∧ st (<[i := (k, p, r)]> L) A R s'.
Proof. intros Hs Hi. eapply upd_st; [done..|]. intros [] ?. unfold lk in *. by simplify_eq/=. Qed.

Lemma upd_right L A R s i k l r p : st L A R s → L !! i = Some (k, l, r) →
  ∃ s', upd s i (set_right p) = Some s' ∧ st (<[i := (k, l, p)]> L) A R s'.
Proof. intros Hs Hi. eapply upd_st; [done..|]. intros [] ?. unfold lk in *. by simplify_eq/=. Qed.

(** Parents are in no link. *)
Lemma upd_parent L A R s i p : st L A R s → is_Some (L !! i) → ∃ s', upd s i (set_parent p) = Some s' ∧ st L A R s'.
Proof.
  intros Hs [v Hi]. destruct (upd_st L A R s i (set_parent p) v v Hs Hi) as (s' & Hu & Hs'); [by intros []|].
  rewrite insert_id in Hs' by done. eauto.
Qed.

Lemma upd_if_parent L A R s o p : st L A R s → (∀ i, o = Some i → is_Some (L !! i)) →
  ∃ s', upd_if s o (set_parent p) = Some s' ∧ st L A R s'.
Proof.
  intros Hs Ho. destruct o as [i|]; simpl; [|by exists s]. eapply upd_parent; [done|]. by apply Ho.
Qed.

(** A write through the slot of a non-empty context, whatever is above it. *)
Lemma write_slot_frame L A R R0 s f c p q : st L A R0 s → cshape L R (f :: c) p → NoDup (cids (f :: c)) →
  ∃ s' L', write_slot s (slot_of (f :: c)) q = Some s' ∧ st L' A R0 s' ∧ cshape L' R (f :: c) q ∧
    (∀ i, i ∉ cids (f :: c) → L' !! i = L !! i) ∧ (∀ i, is_Some (L !! i) → is_Some (L' !! i)).
Proof.
  intros Hs Hc Hnd. rewrite cids_cons in Hnd. apply NoDup_cons in Hnd as [Hfresh _].
  assert (∀ v, ∀ j, is_Some (L !! j) → is_Some (<[fid f := v]> L !! j)) as Hdom.
  { intros v j Hj. destruct (decide (j = fid f)) as [->|]; [rewrite lookup_insert_eq|rewrite lookup_insert_ne]; by eauto. }
  assert (∀ v i, i ∉ cids (f :: c) → <[fid f := v]> L !! i = L !! i) as Hout.
  { intros v i Hi. rewrite cids_cons in Hi. apply lookup_insert_ne. set_solver. }
  destruct f as [i k r|l i k]; simpl in *; destruct Hc as (Hi & Ht & Hc);
    [destruct (upd_left _ _ _ _ _ _ _ _ q Hs Hi) as (s' & -> & Hs')
    |destruct (upd_right _ _ _ _ _ _ _ _ q Hs Hi) as (s' & -> & Hs')];
    (eexists _, _; split; [done|]; split; [done|]; rewrite lookup_insert_eq; split_and!; auto;
     [eapply shape_ext, Ht|eapply cshape_ext, Hc]; intros j Hj; apply lookup_insert_ne; set_solver).
Qed.

Lemma write_slot_ctx L A R s c p q : st L A R s → cshape L R c p → NoDup (cids c) →
  ∃ s' L' R', write_slot s (slot_of c) q = Some s' ∧ st L' A R' s' ∧ cshape L' R' c q ∧
    (∀ i, i ∉ cids c → L' !! i = L !! i) ∧ (∀ i, is_Some (L !! i) → is_Some (L' !! i)).
Proof.
  intros Hs Hc Hnd. destruct c as [|f c].
  - eexists _, L, q. split; [done|]. destruct Hs as (<- & <- & _). done.
  - destruct (write_slot_frame L A R R s f c p q) as (s' & L' & ? & ? & ? & ? & ?); [done..|].
    by exists s', L', R.
Qed.

(** ** Rotations *)

(** The store holds the tree [t], with the attributes [A]. *)
Definition rep (A : gmap nat (nat * Z)) (t : tree) (s : Store) : Prop :=
  ∃ L, st L A (rptr t) s ∧ shape L t.

Lemma rep_plug A c t s :
  rep A (plug c t) s ↔ ∃ L R, st L A R s ∧ cshape L R c (rptr t) ∧ shape L t.
Proof.
  split.
  - intros (L & Hs & Ht). exists L, (rptr (plug c t)). split; [done|]. by apply shape_plug.
  - intros (L & R & Hs & H). apply shape_plug in H as [-> H]. by exists L.
Qed.

Lemma nodup_plug c t : NoDup (ids (plug c t)) → NoDup (ids t) ∧ NoDup (cids c) ∧ ∀ i, i ∈ ids t → i ∉ cids c.
Proof. rewrite ids_plug, NoDup_app. naive_solver. Qed.

Lemma ids_plug_inorder c t t' : inorder t' = inorder t → ids (plug c t') = ids (plug c t).
Proof. unfold ids. rewrite !inorder_plug. by intros ->. Qed.

(** The end of a rotation: with the links of [n] and [m] exchanged, [m] is put where [n] was. *)
Lemma rotate_finish A c s L R n m wn wm p :
  st (<[m := wm]> (<[n := wn]> L)) A R s → cshape L R c (Some n) → NoDup (cids c) →
  n ∉ cids c → m ∉ cids c → n ≠ m →
  ∃ s' L' R', (s1 ← write_slot s (slot_of c) (Some m); upd s1 m (set_parent p)) = Some s' ∧
    st L' A R' s' ∧ cshape L' R' c (Some m) ∧ L' !! n = Some wn ∧ L' !! m = Some wm ∧
    (∀ j, j ∉ cids c → j ≠ n → j ≠ m → L' !! j = L !! j).
Proof.
  intros Hs Hc Hnd Hn Hm Hnm.
  destruct (write_slot_ctx _ _ _ _ c (Some n) (Some m) Hs) as (s4 & L4 & R4 & -> & Hs4 & Hc4 & Hout & _); [|done|].
  { eapply cshape_ext, Hc. intros j Hj. rewrite !lookup_insert_ne; [done|..]; by intros ->. }
  simpl. assert (L4 !! m = Some wm) as Hm4 by (by rewrite Hout, lookup_insert_eq).
  destruct (upd_parent _ _ _ _ m p Hs4) as (s5 & -> & Hs5); [by eauto|].
  exists s5, L4, R4. split_and!; try done.
  - by rewrite Hout, lookup_insert_ne, lookup_insert_eq.
  - intros j Hj Hjn Hjm. by rewrite Hout, !lookup_insert_ne.
Qed.

Lemma fresh_two (l C rest : list nat) n m : l ≡ₚ n :: m :: rest → NoDup l → (∀ i, i ∈ l → i ∉ C) →
  n ≠ m ∧ (n ∉ C) ∧ (m ∉ C) ∧ (∀ j, j ∈ rest → (j ∉ C) ∧ j ≠ n ∧ j ≠ m).
Proof.
  intros Hl Hnd HC. rewrite Hl, !NoDup_cons in Hnd. destruct Hnd as (Hn & Hm & _).
  assert (∀ i, i ∈ n :: m :: rest → i ∉ C) as HC' by (intros i Hi; apply HC; by rewrite Hl).
  clear HC Hl. split_and!; [set_solver|apply HC'; set_solver..|]. intros j Hj.
  split_and!; [apply HC'; set_solver|set_solver..].
Qed.

Lemma rotate_right A c a m km b n kn d s :
  rep A (plug c (Br (Br a m km b) n kn d)) s → NoDup (ids (plug c (Br (Br a m km b) n kn d))) →
  ∃ s', TreeRotateRight s n (slot_of c) = Some s' ∧ rep A (plug c (Br a m km (Br b n kn d))) s'.
Proof.
  intros (L & R & Hs & Hc & Hn & (Hm & Ha & Hb) & Hd)%rep_plug (Hnd & Hcn & Hdis)%nodup_plug.
  destruct (λ Hl, fresh_two _ (cids c) (ids a ++ ids b ++ ids d) n m Hl Hnd Hdis)
    as (Hnm & Hnc & Hmc & Hrest); [rewrite !ids_Br; solve_Permutation|]. clear Hnd Hdis.
  unfold TreeRotateRight. destruct (st_read _ _ _ _ _ _ Hs Hn) as (nn & -> & [= _ Hl _]). simpl. rewrite Hl. simpl.
  destruct (st_read _ _ _ _ _ _ Hs Hm) as (nm & -> & [= _ _ Hr]). simpl. rewrite Hr.
  destruct (upd_left _ _ _ _ _ _ _ _ (rptr b) Hs Hn) as (s1 & -> & Hs1). simpl.
  edestruct (upd_right _ _ _ _ m km (rptr a) (rptr b) (Some n) Hs1) as (s2 & -> & Hs2).
  { by rewrite lookup_insert_ne. }
  simpl. edestruct (upd_parent _ _ _ _ n (Some m) Hs2) as (s3 & -> & Hs3).
  { rewrite lookup_insert_ne, lookup_insert_eq by done. eauto. }
  simpl. edestruct (rotate_finish _ c _ _ _ n m _ _ (parent_ nn) Hs3 Hc)
    as (s4 & L4 & R4 & -> & Hs4 & Hc4 & Hn4 & Hm4 & Hout); [done..|].
  exists s4. split; [done|]. apply rep_plug. exists L4, R4. simpl. rewrite Hm4, Hn4.
  split_and!; try done; (eapply shape_ext; [|eassumption]); intros j Hj;
    apply Hout; apply Hrest; rewrite !elem_of_app; tauto.
Qed.

Lemma rotate_left A c a m km b n kn d s :
  rep A (plug c (Br d n kn (Br b m km a))) s → NoDup (ids (plug c (Br d n kn (Br b m km a)))) →
  ∃ s', TreeRotateLeft s n (slot_of c) = Some s' ∧ rep A (plug c (Br (Br d n kn b) m km a)) s'.
Proof.
  intros (L & R & Hs & Hc & Hn & Hd & (Hm & Hb & Ha))%rep_plug (Hnd & Hcn & Hdis)%nodup_plug.
  destruct (λ Hl, fresh_two _ (cids c) (ids a ++ ids b ++ ids d) n m Hl Hnd Hdis)
    as (Hnm & Hnc & Hmc & Hrest); [rewrite !ids_Br; solve_Permutation|]. clear Hnd Hdis.
  unfold TreeRotateLeft. destruct (st_read _ _ _ _ _ _ Hs Hn) as (nn & -> & [= _ _ Hr]). simpl. rewrite Hr. simpl.
  destruct (st_read _ _ _ _ _ _ Hs Hm) as (nm & -> & [= _ Hl _]). simpl. rewrite Hl.
  destruct (upd_right _ _ _ _ _ _ _ _ (rptr b) Hs Hn) as (s1 & -> & Hs1). simpl.
  edestruct (upd_left _ _ _ _ m km (rptr b) (rptr a) (Some n) Hs1) as (s2 & -> & Hs2).
  { by rewrite lookup_insert_ne. }
  simpl. edestruct (upd_parent _ _ _ _ n (Some m) Hs2) as (s3 & -> & Hs3).
  { rewrite lookup_insert_ne, lookup_insert_eq by done. eauto. }
  simpl. edestruct (rotate_finish _ c _ _ _ n m _ _ (parent_ nn) Hs3 Hc)
    as (s4 & L4 & R4 & -> & Hs4 & Hc4 & Hn4 & Hm4 & Hout); [done..|].
  exists s4. split; [done|]. apply rep_plug. exists L4, R4. simpl. rewrite Hm4, Hn4.
  split_and!; try done; (eapply shape_ext; [|eassumption]); intros j Hj;
    apply Hout; apply Hrest; rewrite !elem_of_app; tauto.
Qed.

(** Reads of a store that holds a tree. *)
Lemma rep_read A c l i k r s : rep A (plug c (Br l i k r)) s →
  ∃ n, nodes_ s !! i = Some n ∧ key_ n = k ∧ left_ n = rptr l ∧ right_ n = rptr r.
Proof.
  intros (L & R & Hs & _ & Hi & _)%rep_plug. destruct (st_read _ _ _ _ _ _ Hs Hi) as (n & Hn & [= <- <- <-]).
  by exists n.
Qed.

Lemma rotate_left_right A c a m km b x kx d n kn e s :
  let t := Br (Br a m km (Br b x kx d)) n kn e in
  rep A (plug c t) s → NoDup (ids (plug c t)) →
  ∃ s', TreeRotateLeftRight s n (slot_of c) = Some s' ∧ rep A (plug c (Br (Br a m km b) x kx (Br d n kn e))) s'.
Proof.
  intros t Hr Hnd. unfold TreeRotateLeftRight. destruct (rep_read _ _ _ _ _ _ _ Hr) as (nn & -> & _ & Hl & _).
  simpl. rewrite Hl. simpl.
  destruct (rotate_left A (FLeft n kn e :: c) d x kx b m km a s) as (s1 & Hs1 & Hr1); [done..|].
  simpl in Hs1. rewrite Hs1. simpl. apply rotate_right; [done|].
  erewrite ids_plug_inorder; [exact Hnd|]. simpl. by app_norm.
Qed.

Lemma rotate_right_left A c a m km b x kx d n kn e s :
  let t := Br e n kn (Br (Br d x kx b) m km a) in
  rep A (plug c t) s → NoDup (ids (plug c t)) →
  ∃ s', TreeRotateRightLeft s n (slot_of c) = Some s' ∧ rep A (plug c (Br (Br e n kn d) x kx (Br b m km a))) s'.
Proof.
  intros t Hr Hnd. unfold TreeRotateRightLeft. destruct (rep_read _ _ _ _ _ _ _ Hr) as (nn & -> & _ & _ & Hl).
  simpl. rewrite Hl. simpl.
  destruct (rotate_right A (FRight e n kn :: c) d x kx b m km a s) as (s1 & Hs1 & Hr1); [done..|].
  simpl in Hs1. rewrite Hs1. simpl. apply rotate_left; [done|].
  erewrite ids_plug_inorder; [exact Hnd|]. simpl. by app_norm.
Qed.

(** ** Heights and rebalancing *)

Lemma TreeHeight_spec A c t s fuel : rep A (plug c t) s → (height t < fuel)%nat →
  TreeHeight fuel s (rptr t) = Some (Z.of_nat (height t)).
Proof.
  revert c t. induction fuel as [|fuel IH]; intros c t Hr Hf; [lia|]. destruct t as [|l i k r]; [done|]. simpl in *.
  destruct (rep_read _ _ _ _ _ _ _ Hr) as (n & -> & _ & Hnl & Hnr). simpl. rewrite Hnl, Hnr.
  rewrite (IH (FLeft i k r :: c) l), (IH (FRight l i k :: c) r) by first [exact Hr|lia|done]. simpl. f_equal. lia.
Qed.

Definition bf (t : tree) : Z :=
  match t with Leaf => 0 | Br l _ _ r => Z.of_nat (height l) - Z.of_nat (height r) end.

Lemma TreeBalanceFactor_spec A c t s fuel : rep A (plug c t) s → (height t < fuel)%nat → Z.of_nat fuel < 2 ^ 63 →
  TreeBalanceFactor fuel s (rptr t) = Some (bf t).
Proof.
  intros Hr Hf Hs. destruct t as [|l i k r]; [done|]. simpl in *.
  destruct (rep_read _ _ _ _ _ _ _ Hr) as (n & -> & _ & Hnl & Hnr). simpl. rewrite Hnl, Hnr.
  rewrite (TreeHeight_spec A (FLeft i k r :: c) l), (TreeHeight_spec A (FRight l i k :: c) r) by first [exact Hr|lia|done].
  simpl. f_equal. set (z := Z.of_nat (height l) - Z.of_nat (height r)).
  assert (- 2 ^ 63 < z < 2 ^ 63) as Hz by lia. clearbody z. clear - Hz. unfold i64, u64.
  rewrite Zplus_mod_idemp_l. rewrite Z.mod_small; lia.
Qed.

Lemma TreeRebalance_spec A c t s fuel :
  rep A (plug c t) s → NoDup (ids (plug c t)) → (height t < fuel)%nat → Z.of_nat fuel < 2 ^ 63 →
  ∃ s' t', TreeRebalance fuel s (rptr t) (slot_of c) = Some s' ∧ rep A (plug c t') s' ∧ inorder t' = inorder t.
Proof.
  intros Hr Hnd Hf Hs. destruct t as [|l n k r]; [by exists s, Leaf|]. unfold TreeRebalance.
  rewrite (TreeBalanceFactor_spec A c (Br l n k r)) by done. simpl rptr. cbv iota. cbn [mbind option_bind].
  destruct (rep_read _ _ _ _ _ _ _ Hr) as (nn & -> & _ & Hnl & Hnr). cbn [mbind option_bind]. simpl in Hf.
  rewrite Hnl, Hnr.
  rewrite (TreeBalanceFactor_spec A (FLeft n k r :: c) l), (TreeBalanceFactor_spec A (FRight l n k :: c) r) by first [exact Hr|lia|done].
  cbn [mbind option_bind]. unfold bf at 1 3.
  destruct (1 <? _) eqn:H1; [|destruct (_ <? -1) eqn:H2]; zbool.
  - destruct l as [|a m km b]; [simpl in *; lia|]. destruct (0 <? _) eqn:H3; zbool.
    + destruct (rotate_right A c a m km b n k r s) as (s' & -> & ?); [done..|].
      eexists _, _. split; [done|]. split; [done|]. simpl. by app_norm.
    + destruct b as [|b x kx d]; [simpl in *; lia|].
      destruct (rotate_left_right A c a m km b x kx d n k r s) as (s' & -> & ?); [done..|].
      eexists _, _. split; [done|]. split; [done|]. simpl. by app_norm.
  - destruct r as [|b m km a]; [simpl in *; lia|]. destruct (_ <? 0) eqn:H3; zbool.
    + destruct (rotate_left A c a m km b n k l s) as (s' & -> & ?); [done..|].
      eexists _, _. split; [done|]. split; [done|]. simpl. by app_norm.
    + destruct b as [|d x kx b]; [simpl in *; lia|].
      destruct (rotate_right_left A c a m km b x kx d n k l s) as (s' & -> & ?); [done..|].
      eexists _, _. split; [done|]. split; [done|]. simpl. by app_norm.
  - by exists s, (Br l n k r).
Qed.

(** ** Exchange of two nodes *)

(** The frame with another node in it. *)
Definition refill (f : frame) (i : nat) (k : Z) : frame :=
  match f with FLeft _ _ r => FLeft i k r | FRight l _ _ => FRight l i k end.

Lemma cids_app d c : cids (d ++ c) ≡ₚ cids d ++ cids c.
Proof.
  induction d as [|f d IH]; [done|]. simpl. rewrite !cids_cons, IH. solve_Permutation.
Qed.

Lemma rptr_in L t i : shape L t → rptr t = Some i → is_Some (L !! i).
Proof. destruct t; simpl; [done|]. intros (H & _) [= <-]. eauto. Qed.

Lemma cptr_in L R d p i : cshape L R d p → (∀ i, p = Some i → is_Some (L !! i)) → cptr d p = Some i → is_Some (L !! i).
Proof.
  revert p. induction d as [|[j k r|l j k] d IH]; intros p; simpl; [auto| |]; intros (Hj & _ & Hd) _;
    (eapply IH; [done|]); intros ? [= <-]; eauto.
Qed.

Definition grows (L L' : gmap nat (Z * option nat * option nat)) : Prop := ∀ j, is_Some (L !! j) → is_Some (L' !! j).

Lemma grows_refl L : grows L L.
Proof. by intros j. Qed.

Lemma grows_insert L L' i v : grows L L' → grows L (<[i := v]> L').
Proof.
  intros H j Hj. destruct (decide (j = i)) as [->|]; [rewrite lookup_insert_eq|rewrite lookup_insert_ne]; eauto.
Qed.

(** What the assignments of [SwapNodePosition] to the two nodes do: each gets the other's
    links. *)
Lemma swap_links L A R s x y kx lx rx ky ly ry p q : st L A R s → x ≠ y →
  L !! x = Some (kx, lx, rx) → L !! y = Some (ky, ly, ry) →
  (∀ o i, o ∈ [lx; rx; ly; ry] → o = Some i → is_Some (L !! i)) →
  ∃ s',
    (s ← upd s x (set_parent p); s ← upd s y (set_parent q);
     xn ← nodes_ s !! x; yn ← nodes_ s !! y; let tmp := left_ xn in
     s ← upd s x (set_left (left_ yn)); s ← upd_if s (left_ yn) (set_parent (Some x));
     s ← upd s y (set_left tmp); s ← upd_if s tmp (set_parent (Some y));
     xn ← nodes_ s !! x; yn ← nodes_ s !! y; let tmp := right_ xn in
     s ← upd s x (set_right (right_ yn)); s ← upd_if s (right_ yn) (set_parent (Some x));
     s ← upd s y (set_right tmp); upd_if s tmp (set_parent (Some y))) = Some s' ∧
    st (<[y := (ky, lx, rx)]> (<[x := (kx, ly, ry)]> L)) A R s'.
Proof.
  intros Hs Hxy Hx Hy Hdom.
  assert (∀ L' o i, grows L L' → o ∈ [lx; rx; ly; ry] → o = Some i → is_Some (L' !! i)) as Hdom'
    by (intros L' o i HL Ho Hi; by eapply HL, Hdom).
  edestruct (upd_parent L A R s x p) as (s1 & -> & H1); [done|by eauto|]. simpl.
  edestruct (upd_parent L A R s1 y q) as (s2 & -> & H2); [done|by eauto|]. simpl.
  destruct (st_read _ _ _ _ _ _ H2 Hx) as (xn & -> & [= _ Hxl _]). simpl. rewrite Hxl.
  destruct (st_read _ _ _ _ _ _ H2 Hy) as (yn & -> & [= _ Hyl _]). simpl. rewrite Hyl.
  edestruct (upd_left _ _ _ _ x kx lx rx ly H2) as (s3 & -> & H3); [done|]. simpl.
  edestruct (upd_if_parent _ _ _ _ ly (Some x) H3) as (s4 & -> & H4).
  { intros i. apply Hdom'; [by auto 7 using grows_insert, grows_refl|set_solver]. }
  simpl. edestruct (upd_left _ _ _ _ y ky ly ry lx H4) as (s5 & -> & H5); [by rewrite lookup_insert_ne|]. simpl.
  edestruct (upd_if_parent _ _ _ _ lx (Some y) H5) as (s6 & -> & H6).
  { intros i. apply Hdom'; [by auto 7 using grows_insert, grows_refl|set_solver]. }
  simpl. edestruct (st_read _ _ _ _ x (kx, ly, rx) H6) as (xn' & -> & [= _ _ Hxr]).
  { by rewrite lookup_insert_ne, lookup_insert_eq. }
  simpl. edestruct (st_read _ _ _ _ y (ky, lx, ry) H6) as (yn' & -> & [= _ _ Hyr]); [by rewrite lookup_insert_eq|].
  simpl. rewrite Hxr, Hyr.
  edestruct (upd_right _ _ _ _ x kx ly rx ry H6) as (s7 & -> & H7).
  { by rewrite lookup_insert_ne, lookup_insert_eq. }
  simpl. edestruct (upd_if_parent _ _ _ _ ry (Some x) H7) as (s8 & -> & H8).
  { intros i. apply Hdom'; [by auto 7 using grows_insert, grows_refl|set_solver]. }
  simpl. edestruct (upd_right _ _ _ _ y ky lx ry rx H8) as (s9 & -> & H9).
  { by rewrite lookup_insert_ne, lookup_insert_eq. }
  simpl. edestruct (upd_if_parent _ _ _ _ rx (Some y) H9) as (s10 & -> & H10).
  { intros i. apply Hdom'; [by auto 7 using grows_insert, grows_refl|set_solver]. }
  exists s10. split; [done|]. destruct H10 as (HL & HA & HR). split; [|done]. rewrite HL.
  apply map_eq. intros j. destruct (decide (j = y)) as [->|]; [by rewrite !lookup_insert_eq|].
  rewrite !(lookup_insert_ne _ y) by done. destruct (decide (j = x)) as [->|]; [by rewrite !lookup_insert_eq|].
  rewrite !(lookup_insert_ne _ x) by done. by rewrite !(lookup_insert_ne _ y), ?(lookup_insert_ne _ x) by done.
Qed.

Definition flink (f : frame) (p : option nat) : Z * option nat * option nat :=
  match f with FLeft _ k r => (k, p, rptr r) | FRight l _ k => (k, rptr l, p) end.

Lemma cshape_cons L R f c p :
  cshape L R (f :: c) p ↔ L !! fid f = Some (flink f p) ∧ shape L (fsub f) ∧ cshape L R c (Some (fid f)).
Proof. by destruct f. Qed.

Lemma flink_refill f p kx lx rx y ky : flink f p = (kx, lx, rx) →
  kx = fkey f ∧ flink (refill f y ky) p = (ky, lx, rx) ∧ ∀ o, o ∈ [lx; rx] → o = p ∨ o = rptr (fsub f).
Proof. destruct f; intros [= <- <- <-]; simpl; split_and!; try done; set_solver. Qed.

Lemma refill_fields f y ky : fid (refill f y ky) = y ∧ fsub (refill f y ky) = fsub f.
Proof. by destruct f. Qed.

(** Reading off the tree which nodes are apart. *)
Lemma swap_fresh d f c yl y ky yr : NoDup (ids (plug (d ++ f :: c) (Br yl y ky yr))) →
  let rest := ids yl ++ ids yr ++ ids (fsub f) in
  fid f ≠ y ∧ NoDup (cids c) ∧ NoDup (cids (d ++ [f])) ∧
  (∀ j, j ∈ rest ++ cids d ++ cids c → j ≠ fid f ∧ j ≠ y) ∧
  (∀ j, j ∈ fid f :: y :: rest ++ cids d → j ∉ cids c) ∧
  (∀ j, j ∈ y :: ids yl ++ ids yr ++ cids c → j ∉ cids (d ++ [f])).
Proof.
  intros Hnd rest. rewrite ids_plug, cids_app, cids_cons, ids_Br in Hnd.
  assert (NoDup (fid f :: y :: (rest ++ cids d) ++ cids c)) as H1.
  { unfold rest. eapply NoDup_Permutation_proper, Hnd. solve_Permutation. }
  assert (NoDup ((y :: ids yl ++ ids yr ++ cids c) ++ cids (d ++ [f]))) as H2.
  { eapply NoDup_Permutation_proper, Hnd. rewrite cids_app, cids_cons. change (cids []) with (@nil nat).
    solve_Permutation. }
  clear Hnd. apply NoDup_app in H2 as (_ & H2 & H3). apply NoDup_cons in H1 as [Hf H1].
  apply NoDup_cons in H1 as [Hy H1]. apply NoDup_app in H1 as (_ & H1 & H4). rewrite <- app_assoc in Hf, Hy.
  split_and!; try done.
  - set_solver.
  - intros j Hj. split; intros ->; set_solver.
  - intros j [->|[->|Hj]%elem_of_cons]%elem_of_cons; [set_solver..|by apply H1].
Qed.

Lemma write_slot_below L A R R0 s c p q : c ≠ [] → st L A R0 s → cshape L R c p → NoDup (cids c) →
  ∃ s' L', write_slot s (slot_of c) q = Some s' ∧ st L' A R0 s' ∧ cshape L' R c q ∧
    (∀ i, i ∉ cids c → L' !! i = L !! i) ∧ grows L L'.
Proof. intros Hc. destruct c; [done|]. apply write_slot_frame. Qed.

Lemma swap_in L d f y yl yr lx rx kx ky i :
  L !! y = Some (ky, rptr yl, rptr yr) → L !! fid f = Some (flink f (cptr d (Some (fid f)))) →
  flink f (cptr d (Some (fid f))) = (kx, lx, rx) → cshape L (cptr d (Some (fid f))) d (Some (fid f)) →
  shape L (fsub f) → shape L yl → shape L yr → Some i ∈ [lx; rx; rptr yl; rptr yr] → is_Some (L !! i).
Proof.
  intros Hy Hx Hfl Hd Hsub Hyl Hyr Hi. destruct (flink_refill _ _ _ _ _ y ky Hfl) as (_ & _ & Ho).
  assert (Some i ∈ [lx; rx] ∨ Some i = rptr yl ∨ Some i = rptr yr) as [Hi'|[Hi'|Hi']] by set_solver.
  - destruct (Ho _ Hi') as [Hp|Hp].
    + eapply cptr_in; [exact Hd| |by symmetry]. intros ? [= <-]. eauto.
    + eapply rptr_in; [exact Hsub|by symmetry].
  - eapply rptr_in; [|by symmetry]; done.
  - eapply rptr_in; [|by symmetry]; done.
Qed.

Ltac mem := repeat first [rewrite elem_of_app | rewrite elem_of_cons]; first [tauto | intuition congruence].

Lemma SwapNodePosition_spec A d f c yl y ky yr s :
  rep A (plug (d ++ f :: c) (Br yl y ky yr)) s → NoDup (ids (plug (d ++ f :: c) (Br yl y ky yr))) →
  ∃ s', SwapNodePosition s (fid f) (slot_of c) y (slot_of (d ++ [f])) = Some s' ∧
    rep A (plug (d ++ refill f y ky :: c) (Br yl (fid f) (fkey f) yr)) s'.
Proof.
  intros (L & R & Hs & Hc & Hy & Hyl & Hyr)%rep_plug (Hxy & Hndc & Hndd & Hxy' & Hnc & Hnd)%swap_fresh.
  simpl in Hc. apply cshape_app in Hc as [Hd Hc]. apply cshape_cons in Hc as (Hx & Hsub & Hc). set (x := fid f) in *.
  unfold SwapNodePosition.
  destruct (write_slot_ctx _ _ _ _ c (Some x) (Some y) Hs Hc Hndc) as (s1 & L1 & R1 & -> & Hs1 & Hc1 & Hout1 & Hg1).
  simpl. destruct (write_slot_below L1 A (Some x) R1 s1 (d ++ [f]) (Some y) (Some x)) as (s2 & L2 & -> & Hs2 & Hd2 & Hout2 & Hg2);
    [by destruct d|done| |done|].
  { apply cshape_app. split; [eapply cshape_ext, Hd; intros; apply Hout1, Hnc; mem|]. apply cshape_cons.
    fold x. rewrite Hout1 by (apply Hnc; mem). split_and!; [done| |done].
    eapply shape_ext, Hsub. intros; apply Hout1, Hnc; mem. }
  apply cshape_app in Hd2 as [Hd2 Hf2]. apply cshape_cons in Hf2 as (Hx2 & Hsub2 & _). fold x in Hx2.
  destruct (flink f (cptr d (Some x))) as [[kx lx] rx] eqn:Hfl.
  destruct (flink_refill _ _ _ _ _ y ky Hfl) as (-> & Hfl' & Ho).
  assert (L2 !! y = Some (ky, rptr yl, rptr yr)) as Hy2.
  { rewrite Hout2 by (apply Hnd; mem). rewrite Hout1 by (apply Hnc; mem). done. }
  assert (∀ t, t = yl ∨ t = yr → shape L2 t) as Hsh2.
  { intros t Ht. apply shape_ext with L; [|by destruct Ht as [->| ->]]. intros j Hj.
    rewrite Hout2 by (apply Hnd; destruct Ht as [->| ->]; mem). apply Hout1, Hnc. destruct Ht as [->| ->]; mem. }
  simpl. destruct (st_read _ _ _ _ _ _ Hs2 Hx2) as (xn & -> & _). simpl.
  destruct (st_read _ _ _ _ _ _ Hs2 Hy2) as (yn & -> & _). simpl.
  destruct (swap_links L2 A R1 s2 x y _ _ _ _ _ _ (parent_ yn) (parent_ xn) Hs2 Hxy Hx2 Hy2) as (s3 & Hs3 & Hst3).
  { intros o i Hin ->. apply (swap_in L2 d f y yl yr lx rx (fkey f) ky i); [done|fold x; by rewrite Hfl|done|done|done|apply Hsh2; tauto..|done]. }
  exists s3. split; [exact Hs3|]. apply rep_plug. eexists _, R1. split; [exact Hst3|].
  assert (∀ j, j ∈ (ids yl ++ ids yr ++ ids (fsub f)) ++ cids d ++ cids c →
    <[y:=(ky, lx, rx)]> (<[x:=(fkey f, rptr yl, rptr yr)]> L2) !! j = L2 !! j) as Hout3.
  { intros j Hj. destruct (Hxy' j Hj). by rewrite !lookup_insert_ne. }
  destruct (refill_fields f y ky) as [Hfid Hfs]. split.
  - apply cshape_app. simpl. split; [eapply cshape_ext, Hd2; intros; apply Hout3; mem|]. apply cshape_cons.
    fold x. rewrite Hfid, Hfs, Hfl', lookup_insert_eq. split_and!; [done|eapply shape_ext, Hsub2; intros; apply Hout3; mem|].
    eapply cshape_ext, Hc1. intros j Hj. rewrite Hout3 by mem. apply Hout2, Hnd. mem.
  - simpl. fold x. rewrite lookup_insert_ne, lookup_insert_eq by done.
    split_and!; [done|..]; (eapply shape_ext; [|apply Hsh2; tauto]); intros; apply Hout3; mem.
Qed.

(** ** Searching *)

(** The node of a key in a list of nodes. *)
Fixpoint find_key (key : Z) (l : list (nat * Z)) : option nat :=
  match l with
  | [] => None
  | (i, k) :: l => if k =? key then Some i else find_key key l
  end.

Lemma find_key_app key l l' :
  find_key key (l ++ l') = match find_key key l with Some i => Some i | None => find_key key l' end.
Proof. induction l as [|[i k] l IH]; [done|]. simpl. by destruct (k =? key). Qed.

Lemma find_key_none key l : (∀ p, p ∈ l → p.2 ≠ key) → find_key key l = None.
Proof.
  induction l as [|[i k] l IH]; intros H; [done|]. simpl.
  destruct (Z.eqb_spec k key) as [->|]; [by destruct (H (i, key)); [set_solver|]|]. apply IH. set_solver.
Qed.

Lemma find_key_in key l i : find_key key l = Some i → (i, key) ∈ l.
Proof.
  induction l as [|[j k] l IH]; [done|]. simpl. destruct (Z.eqb_spec k key) as [->|]; [intros [= ->]|]; set_solver.
Qed.

Lemma find_key_None_inv key l : find_key key l = None → ∀ p, p ∈ l → p.2 ≠ key.
Proof.
  induction l as [|[i k] l IH]; intros H p Hp; [set_solver|]. simpl in H.
  destruct (Z.eqb_spec k key) as [->|]; [done|]. apply elem_of_cons in Hp as [->|Hp]; [done|auto].
Qed.

(** A search tree: the keys in order. *)
Definition ksorted (l : list (nat * Z)) : Prop := StronglySorted Z.lt l.*2.

Lemma ksorted_mid l i k r :
  ksorted (l ++ (i, k) :: r) ↔ ksorted l ∧ ksorted r ∧ (∀ p, p ∈ l → p.2 < k) ∧ (∀ p, p ∈ r → k < p.2) ∧
    (∀ p q, p ∈ l → q ∈ r → p.2 < q.2).
Proof.
  unfold ksorted. rewrite fmap_app, fmap_cons. simpl. rewrite StronglySorted_app, StronglySorted_cons, Forall_forall.
  setoid_rewrite elem_of_cons. setoid_rewrite list_elem_of_fmap. split.
  - intros (H1 & H2 & H3 & H4). split_and!; try done; intros p Hp; [|by eauto|]; naive_solver.
  - intros (H1 & H2 & H3 & H4 & H5). split_and!; try done; naive_solver.
Qed.

Lemma find_key_left key l i k r : ksorted (l ++ (i, k) :: r) → key < k → find_key key (l ++ (i, k) :: r) = find_key key l.
Proof.
  intros (_ & _ & _ & Hr & _)%ksorted_mid Hk. rewrite find_key_app. destruct (find_key key l); [done|].
  apply find_key_none. intros p [->|Hp]%elem_of_cons; simpl; [lia|]. specialize (Hr p Hp). lia.
Qed.

Lemma find_key_right key l i k r : ksorted (l ++ (i, k) :: r) → k < key → find_key key (l ++ (i, k) :: r) = find_key key r.
Proof.
  intros (_ & _ & Hl & _)%ksorted_mid Hk. rewrite find_key_app, (find_key_none key l).
  - simpl. destruct (Z.eqb_spec k key); [lia|done].
  - intros p Hp. specialize (Hl p Hp). lia.
Qed.

Lemma find_key_here l i k r : ksorted (l ++ (i, k) :: r) → find_key k (l ++ (i, k) :: r) = Some i.
Proof.
  intros (_ & _ & Hl & _)%ksorted_mid. rewrite find_key_app, (find_key_none k l).
  - simpl. by rewrite Z.eqb_refl.
  - intros p Hp. specialize (Hl p Hp). lia.
Qed.

Lemma FindNode_spec A c t s fuel key : rep A (plug c t) s → ksorted (inorder t) → (height t < fuel)%nat →
  FindNode fuel s (rptr t) key = Some (find_key key (inorder t)).
Proof.
  revert c t. induction fuel as [|fuel IH]; intros c t Hr Hk Hf; [lia|]. destruct t as [|l i k r]; [done|]. simpl in *.
  destruct (rep_read _ _ _ _ _ _ _ Hr) as (n & -> & Hkn & Hnl & Hnr). simpl. rewrite Hkn, Hnl, Hnr.
  pose proof (proj1 (ksorted_mid _ _ _ _) Hk) as (Hl & Hrr & _). destruct (Z.ltb_spec key k); [|destruct (Z.ltb_spec k key)].
  - rewrite find_key_left by done. apply (IH (FLeft i k r :: c)); [done..|lia].
  - rewrite find_key_right by done. apply (IH (FRight l i k :: c)); [done..|lia].
  - assert (key = k) as -> by lia. by rewrite find_key_here.
Qed.

(** The last node on the right, with its slot. *)
Lemma TreeMax_spec A t c s fuel : t ≠ Leaf → rep A (plug c t) s → (height t < fuel)%nat →
  ∃ d yl y ky, t = plug d (Br yl y ky Leaf) ∧ cpost d = [] ∧
    ∀ i, rptr t = Some i → TreeMax fuel s i (slot_of c) = Some (y, slot_of (d ++ c)).
Proof.
  revert c fuel. induction t as [|l _ i k r IH]; intros c fuel Ht Hr Hf; [done|]. destruct fuel as [|fuel]; [simpl in *; lia|].
  destruct (rep_read _ _ _ _ _ _ _ Hr) as (n & Hn & _ & _ & Hnr). destruct r as [|rl j kj rr].
  - exists [], l, i, k. split_and!; try done. intros ? [= <-]. simpl. rewrite Hn. simpl. by rewrite Hnr.
  - destruct (IH (FRight l i k :: c) fuel) as (d & yl & y & ky & Ht' & Hd & Hm); [done..|simpl in *; lia|].
    exists (d ++ [FRight l i k]), yl, y, ky. rewrite plug_app, <- Ht'. split_and!; [done| |].
    + clear -Hd. induction d as [|[] d IH]; [done|done|]. simpl in *. auto.
    + intros ? [= <-]. simpl. rewrite Hn. simpl. rewrite Hnr. simpl. rewrite <- app_assoc. by apply Hm.
Qed.

Lemma TreeMin_spec A t c s fuel : t ≠ Leaf → rep A (plug c t) s → (height t < fuel)%nat →
  ∃ d yr y ky, t = plug d (Br Leaf y ky yr) ∧ cpre d = [] ∧
    ∀ i, rptr t = Some i → TreeMin fuel s i (slot_of c) = Some (y, slot_of (d ++ c)).
Proof.
  revert c fuel. induction t as [|l IH i k r _]; intros c fuel Ht Hr Hf; [done|]. destruct fuel as [|fuel]; [simpl in *; lia|].
  destruct (rep_read _ _ _ _ _ _ _ Hr) as (n & Hn & _ & Hnl & _). destruct l as [|ll j kj lr].
  - exists [], r, i, k. split_and!; try done. intros ? [= <-]. simpl. rewrite Hn. simpl. by rewrite Hnl.
  - destruct (IH (FLeft i k r :: c) fuel) as (d & yr & y & ky & Ht' & Hd & Hm); [done..|simpl in *; lia|].
    exists (d ++ [FLeft i k r]), yr, y, ky. rewrite plug_app, <- Ht'. split_and!; [done| |].
    + clear -Hd. induction d as [|[|l0] d IH]; [done|by apply IH|]. simpl in Hd. by destruct (cpre d), (inorder l0).
    + intros ? [= <-]. simpl. rewrite Hn. simpl. rewrite Hnl. simpl. rewrite <- app_assoc. by apply Hm.
Qed.

(** A write that puts the tree [t'], whose links are there already, in the place of [t]. *)
Lemma graft A c t t' s : rep A (plug c t) s → NoDup (cids c) → (∀ i, i ∈ ids t' → i ∉ cids c) →
  shape (links s) t' →
  ∃ s', write_slot s (slot_of c) (rptr t') = Some s' ∧ rep A (plug c t') s'.
Proof.
  intros (L & R & Hs & Hc & _)%rep_plug Hnd Hdis Ht'. pose proof Hs as (HL & _ & _). rewrite HL in Ht'.
  destruct (write_slot_ctx _ _ _ _ c _ (rptr t') Hs Hc Hnd) as (s' & L' & R' & Hw & Hs' & Hc' & Hout & _).
  exists s'. split; [done|]. apply rep_plug. exists L', R'. split_and!; try done.
  eapply shape_ext, Ht'. intros i Hi. by apply Hout, Hdis.
Qed.
