(* ===== verification/ArenaAllocator.v ===== *)
(** * Arena addresses (the allocator of cyber/transport/shm/arena_address_allocator.h, .cc)

    Every arena channel gets a range of addresses of its own, the same in every process.
    The key of a channel has a node of the tree of [ArenaTree]; its address is computed from
    the index of that node in the array.  Nodes given up wait on a stack.  Calls run one
    after the other; [None] is a run that follows a null pointer. *)

From stdpp Require Import base numbers list gmap sorting.
From Stdlib Require Import ZArith Lia Sorted.
From S2P Require Import Prelude ArenaTree.

Open Scope Z_scope.

(** ** The allocator *)

Record Alloc := mkAlloc {
  store : Store;
  allocated_index_ : nat;
  reclaim_stack_ : list nat;    (* its top first *)
  capacity_ : nat;
  base_address_ : Z;
  address_segment_size_ : Z
}.
Definition set_store (a : Alloc) (s : Store) : Alloc :=
  mkAlloc s (allocated_index_ a) (reclaim_stack_ a) (capacity_ a) (base_address_ a) (address_segment_size_ a).

(** [OpenMetaShm] and [OpenNodeShm] for shared memory just created. *)
Definition Alloc_new (capacity : nat) (base_address address_segment_size : Z) : Alloc :=
  mkAlloc (mkStore ∅ None) 0 [] capacity base_address address_segment_size.

(** The node at an index of the array, which starts out as zeros. *)
Definition node_at (s : Store) (i : nat) : Node := default zero_node (nodes_ s !! i).

(** [NewNode(key)]. *)
Definition NewNode (a : Alloc) (key : Z) : Alloc * option nat :=
  let fresh i f :=
    mkStore (<[i := set_key key (set_right None (set_left None (f (node_at (store a) i))))]> (nodes_ (store a)))
      (root_ (store a)) in
  match reclaim_stack_ a with
  | index :: st =>
      (mkAlloc (fresh index (λ n, n)) (allocated_index_ a) st (capacity_ a) (base_address_ a) (address_segment_size_ a),
       Some index)
  | [] =>
      let i := allocated_index_ a in
      if decide (capacity_ a <= i)%nat then (a, None)
      else (mkAlloc (fresh i (set_index i)) (S i) [] (capacity_ a) (base_address_ a) (address_segment_size_ a), Some i)
  end.

(** [ReclaimNode(node)]. *)
Definition ReclaimNode (a : Alloc) (node : nat) : option Alloc :=
  n ← nodes_ (store a) !! node;
  s ← upd (store a) (index_ n) (λ n, set_parent None (set_right None (set_left None n)));
  Some (mkAlloc s (allocated_index_ a) (index_ n :: reclaim_stack_ a) (capacity_ a) (base_address_ a)
          (address_segment_size_ a)).

(** Enough fuel for every path of the tree. *)
Definition fuel_of (a : Alloc) : nat := S (S (allocated_index_ a)).

(** [FindOrInsertNode(node, node_p, parent, key)]; a null node from [NewNode] is followed. *)
Fixpoint FindOrInsertNode (fuel : nat) (a : Alloc) (p : option nat) (sl : Slot) (parent : option nat) (key : Z)
  : option (Alloc * nat) :=
  match fuel with
  | O => None
  | S fuel =>
      match p with
      | None =>
          let '(a, target) := NewNode a key in
          t ← target;
          s ← write_slot (store a) sl (Some t);
          s ← upd s t (set_parent parent);
          Some (set_store a s, t)
      | Some node =>
          n ← nodes_ (store a) !! node;
          if key <? key_ n then
            '(a, target) ← FindOrInsertNode fuel a (left_ n) (SLeft node) (Some node) key;
            n ← nodes_ (store a) !! node;
            s ← TreeRebalance (fuel_of a) (store a) (left_ n) (SLeft node);
            Some (set_store a s, target)
          else if key_ n <? key then
            '(a, target) ← FindOrInsertNode fuel a (right_ n) (SRight node) (Some node) key;
            n ← nodes_ (store a) !! node;
            s ← TreeRebalance (fuel_of a) (store a) (right_ n) (SRight node);
            Some (set_store a s, target)
          else Some (a, node)
      end
  end.

(** [TreeRebalance(meta_->struct_.root_, &(meta_->struct_.root_))], if [test] of the node's factor. *)
Definition rebalance_root_if (test : Z → bool) (a : Alloc) (node : nat) : option Alloc :=
  b ← TreeBalanceFactor (fuel_of a) (store a) (Some node);
  if test b then
    s ← TreeRebalance (fuel_of a) (store a) (root_ (store a)) SRoot;
    Some (set_store a s)
  else Some a.

(** [RemoveNode(node, node_p, key)]. *)
Fixpoint RemoveNode (fuel : nat) (a : Alloc) (p : option nat) (sl : Slot) (key : Z) : option Alloc :=
  match fuel with
  | O => None
  | S fuel =>
      match p with
      | None => Some a
      | Some node =>
          found ← FindNode (fuel_of a) (store a) p key;
          match found with
          | None => Some a
          | Some _ =>
              n ← nodes_ (store a) !! node;
              if key <? key_ n then
                a ← RemoveNode fuel a (left_ n) (SLeft node) key;
                rebalance_root_if (λ b, b <? -1) a node
              else if key_ n <? key then
                a ← RemoveNode fuel a (right_ n) (SRight node) key;
                rebalance_root_if (λ b, 1 <? b) a node
              else
                match left_ n, right_ n with
                | Some l, Some r =>
                    b ← TreeBalanceFactor (fuel_of a) (store a) (Some node);
                    if 0 <? b then
                      '(max, max_p) ← TreeMax (fuel_of a) (store a) l (SLeft node);
                      s ← SwapNodePosition (store a) node sl max max_p;
                      mn ← nodes_ s !! max;
                      RemoveNode fuel (set_store a s) (left_ mn) (SLeft max) key
                    else
                      '(min, min_p) ← TreeMin (fuel_of a) (store a) r (SRight node);
                      s ← SwapNodePosition (store a) node sl min min_p;
                      mn ← nodes_ s !! min;
                      RemoveNode fuel (set_store a s) (right_ mn) (SRight min) key
                | _, _ =>
                    s ← write_slot (store a) sl (match left_ n with Some l => Some l | None => right_ n end);
                    ReclaimNode (set_store a s) node
                end
          end
      end
  end.

(** [Allocate(key)]: the address. *)
Definition Allocate (a : Alloc) (key : Z) : option (Alloc * Z) :=
  '(a, node) ← FindOrInsertNode (fuel_of a) a (root_ (store a)) SRoot None key;
  n ← nodes_ (store a) !! node;
  s ← upd (store a) node (set_ref_count (u64 (ref_count_ n + 1)));
  Some (set_store a s, u64 (base_address_ a + address_segment_size_ a * Z.of_nat (index_ n))).

(** [Deallocate(key)]. *)
Definition Deallocate (a : Alloc) (key : Z) : option Alloc :=
  found ← FindNode (fuel_of a) (store a) (root_ (store a)) key;
  match found with
  | None => Some a
  | Some node =>
      n ← nodes_ (store a) !! node;
      s ← upd (store a) node (set_ref_count (u64 (ref_count_ n - 1)));
      let a := set_store a s in
      if ref_count_ n =? 0 then RemoveNode (fuel_of a) a (root_ (store a)) SRoot key else Some a
  end.

Inductive Call := CAllocate (key : Z) | CDeallocate (key : Z).

(** A sequence of calls, with the addresses handed out. *)
Fixpoint run (a : Alloc) (calls : list Call) : option (Alloc * list Z) :=
  match calls with
  | [] => Some (a, [])
  | CAllocate key :: calls =>
      '(a, x) ← Allocate a key; '(a, out) ← run a calls; Some (a, x :: out)
  | CDeallocate key :: calls => a ← Deallocate a key; run a calls
  end.

(** ** The specification: a book of which key has which index *)

Record Book := mkBook {
  binding : gmap Z nat;
  counts : gmap nat Z;      (* stays with the index when its key is removed *)
  free_ : list nat;
  next_ : nat
}.
Definition empty_book : Book := mkBook ∅ ∅ [] 0.

Definition set_count (b : Book) (i : nat) (c : Z) : Book :=
  mkBook (binding b) (<[i := u64 c]> (counts b)) (free_ b) (next_ b).
Definition count_of (b : Book) (i : nat) : Z := default 0 (counts b !! i).

Section book.
Context (capacity : nat) (base size : Z).

Definition book_allocate (b : Book) (key : Z) : option (Book * Z) :=
  '(b, i) ←
    match binding b !! key with
    | Some i => Some (b, i)
    | None =>
        match free_ b with
        | i :: fr => Some (mkBook (<[key := i]> (binding b)) (counts b) fr (next_ b), i)
        | [] =>
            if decide (capacity <= next_ b)%nat then None
            else Some (mkBook (<[key := next_ b]> (binding b)) (<[next_ b := 0]> (counts b)) [] (S (next_ b)), next_ b)
        end
    end;
  Some (set_count b i (count_of b i + 1), u64 (base + size * Z.of_nat i)).

Definition book_deallocate (b : Book) (key : Z) : Book :=
  match binding b !! key with
  | None => b
  | Some i =>
      let b' := set_count b i (count_of b i - 1) in
      if count_of b i =? 0 then mkBook (delete key (binding b')) (counts b') (i :: free_ b') (next_ b') else b'
  end.

Fixpoint book_run (b : Book) (calls : list Call) : option (Book * list Z) :=
  match calls with
  | [] => Some (b, [])
  | CAllocate key :: calls =>
      '(b, x) ← book_allocate b key; '(b, out) ← book_run b calls; Some (b, x :: out)
  | CDeallocate key :: calls => book_run (book_deallocate b key) calls
  end.
End book.

(** ** The invariant of the array *)

(** Every index below [allocated_index_] is in the tree (the nodes [l]) or on the stack. *)
Record ok (a : Alloc) (l : list nat) : Prop := {
  ok_ids : l ++ reclaim_stack_ a ≡ₚ seq 0 (allocated_index_ a);
  ok_capacity : (allocated_index_ a ≤ capacity_ a)%nat;
  ok_small : Z.of_nat (capacity_ a) < 2 ^ 62;
  ok_attrs : ∀ i, (i < allocated_index_ a)%nat → ∃ c, attrs (store a) !! i = Some (i, c);
  ok_unused : ∀ i, (allocated_index_ a ≤ i)%nat → attrs (store a) !! i = None
}.

Lemma ok_perm a l l' : l ≡ₚ l' → ok a l → ok a l'.
Proof. intros Hp []. split; try done. by rewrite <- Hp. Qed.

Lemma ok_nodup a l : ok a l → NoDup l.
Proof.
  intros [H _ _ _ _]. assert (NoDup (l ++ reclaim_stack_ a)) as Hnd by (rewrite H; apply NoDup_seq).
  by apply NoDup_app in Hnd as [? _].
Qed.

Lemma ok_store a l s : attrs s = attrs (store a) → ok a l → ok (set_store a s) l.
Proof. intros Hs []. split; try done; simpl; by rewrite Hs. Qed.

Lemma ok_lt a l i : ok a l → i ∈ l → (i < allocated_index_ a)%nat.
Proof.
  intros [H _ _ _ _] Hi. assert (i ∈ seq 0 (allocated_index_ a)) as Hs by (rewrite <- H; set_solver).
  apply elem_of_seq in Hs. lia.
Qed.

Lemma ok_height a t : ok a (ids t) → (height t < fuel_of a)%nat.
Proof.
  intros [H _ _ _ _]. pose proof (height_ids t). apply Permutation_length in H.
  rewrite length_app, length_seq in H. unfold fuel_of. lia.
Qed.

Lemma ok_height_plug a c t : ok a (ids (plug c t)) → (height t < fuel_of a)%nat.
Proof. intros H%ok_height. pose proof (height_plug c t). lia. Qed.

Lemma ok_fuel a l : ok a l → Z.of_nat (fuel_of a) < 2 ^ 63.
Proof. intros [_ H1 H2 _ _]. unfold fuel_of. lia. Qed.

Lemma rep_attrs A t s : rep A t s → attrs s = A.
Proof. by intros (L & (_ & H & _) & _). Qed.

(** ** Finding and inserting *)

Definition child (f : frame) (n : Node) : option nat := match f with FLeft _ _ _ => left_ n | FRight _ _ _ => right_ n end.

Lemma rep_child A f c t s : rep A (plug (f :: c) t) s → ∃ n, nodes_ s !! fid f = Some n ∧ child f n = rptr t.
Proof.
  intros H. destruct f as [i k r|l i k]; destruct (rep_read _ _ _ _ _ _ _ H) as (n & ? & ? & ? & ?); by exists n.
Qed.

(** What [FindOrInsertNode] does behind the recursive call. *)
Lemma rebalance_child A f c t a (target : nat) : rep A (plug (f :: c) t) (store a) → ok a (ids (plug (f :: c) t)) →
  ∃ s' t',
    (n ← nodes_ (store a) !! fid f;
     s ← TreeRebalance (fuel_of a) (store a) (child f n) (slot_of (f :: c));
     Some (set_store a s, target)) = Some (set_store a s', target) ∧
    rep A (plug (f :: c) t') s' ∧ inorder t' = inorder t.
Proof.
  intros Hr Hok. destruct (rep_child _ _ _ _ _ Hr) as (n & -> & Hn). cbn [mbind option_bind]. rewrite Hn.
  destruct (TreeRebalance_spec A (f :: c) t (store a) (fuel_of a)) as (s' & t' & -> & ? & ?);
    [done|by eapply ok_nodup|by eapply ok_height_plug|by eapply ok_fuel|]. by exists s', t'.
Qed.

Lemma FindOrInsert_found A c t fuel a parent key i :
  rep A (plug c t) (store a) → ok a (ids (plug c t)) → ksorted (inorder t) → (height t < fuel)%nat →
  find_key key (inorder t) = Some i →
  ∃ s' t', FindOrInsertNode fuel a (rptr t) (slot_of c) parent key = Some (set_store a s', i) ∧
    rep A (plug c t') s' ∧ inorder t' = inorder t.
Proof.
  revert c t parent. induction fuel as [|fuel IH]; intros c t parent Hr Hok Hks Hf Hfind; [lia|].
  destruct t as [|l n k r]; [done|]. simpl in Hks, Hf, Hfind. pose proof (proj1 (ksorted_mid _ _ _ _) Hks) as (Hl & Hrr & _).
  destruct (rep_read _ _ _ _ _ _ _ Hr) as (nn & Hn & Hkn & Hnl & Hnr). simpl. rewrite Hn. simpl. rewrite Hkn, Hnl, Hnr.
  destruct (Z.ltb_spec key k); [|destruct (Z.ltb_spec k key)].
  - rewrite find_key_left in Hfind by done.
    destruct (IH (FLeft n k r :: c) l (Some n)) as (s1 & l1 & Heq & Hr1 & Hi1); [done..|lia|done|].
    simpl in Heq. rewrite Heq. cbn [mbind option_bind].
    destruct (rebalance_child A (FLeft n k r) c l1 (set_store a s1) i) as (s2 & l2 & Heq2 & Hr2 & Hi2); [done| |].
    { rewrite (ids_plug_inorder _ l) by done. by apply ok_store; [rewrite (rep_attrs _ _ _ Hr1), (rep_attrs _ _ _ Hr)|]. }
    exists s2, (Br l2 n k r). split; [exact Heq2|]. split; [done|]. simpl. by rewrite Hi2, Hi1.
  - rewrite find_key_right in Hfind by done.
    destruct (IH (FRight l n k :: c) r (Some n)) as (s1 & r1 & Heq & Hr1 & Hi1); [done..|lia|done|].
    simpl in Heq. rewrite Heq. cbn [mbind option_bind].
    destruct (rebalance_child A (FRight l n k) c r1 (set_store a s1) i) as (s2 & r2 & Heq2 & Hr2 & Hi2); [done| |].
    { rewrite (ids_plug_inorder _ r) by done. by apply ok_store; [rewrite (rep_attrs _ _ _ Hr1), (rep_attrs _ _ _ Hr)|]. }
    exists s2, (Br l n k r2). split; [exact Heq2|]. split; [done|]. simpl. by rewrite Hi2, Hi1.
  - assert (key = k) as -> by lia. rewrite find_key_here in Hfind by done. injection Hfind as ->.
    exists (store a), (Br l i k r). by destruct a.
Qed.

(** Insertion into a list of nodes, in front of the first larger key. *)
Fixpoint ins (key : Z) (i : nat) (l : list (nat * Z)) : list (nat * Z) :=
  match l with
  | [] => [(i, key)]
  | (j, k) :: l => if key <? k then (i, key) :: (j, k) :: l else (j, k) :: ins key i l
  end.

Lemma ins_left key i l n k r : key < k → ins key i (l ++ (n, k) :: r) = ins key i l ++ (n, k) :: r.
Proof.
  intros Hk. induction l as [|[j kj] l IH]; simpl; [by destruct (Z.ltb_spec key k); [|lia]|].
  rewrite IH. by destruct (key <? kj).
Qed.

Lemma ins_right key i l n k r : k < key → (∀ p, p ∈ l → p.2 < k) →
  ins key i (l ++ (n, k) :: r) = l ++ (n, k) :: ins key i r.
Proof.
  intros Hk Hl. induction l as [|[j kj] l IH]; simpl; [by destruct (Z.ltb_spec key k); [lia|]|].
  assert (kj < k) by (apply (Hl (j, kj)); set_solver). destruct (Z.ltb_spec key kj); [lia|].
  rewrite IH; [done|]. intros p Hp. apply Hl. set_solver.
Qed.

Lemma ins_perm key i l : ins key i l ≡ₚ (i, key) :: l.
Proof.
  induction l as [|[j k] l IH]; [done|]. simpl. destruct (key <? k); [done|]. rewrite IH. constructor.
Qed.

Lemma ids_plug_ins c t t' key i : inorder t' = ins key i (inorder t) → ids (plug c t') ≡ₚ i :: ids (plug c t).
Proof. intros H. rewrite !ids_plug. unfold ids. by rewrite H, ins_perm. Qed.

Lemma ins_sorted key i l : ksorted l → find_key key l = None → ksorted (ins key i l).
Proof.
  unfold ksorted. induction l as [|[j k] l IH]; intros Hl Hf; [repeat constructor|]. simpl in *.
  destruct (Z.eqb_spec k key); [done|]. apply StronglySorted_cons in Hl as [Hall Hl].
  destruct (Z.ltb_spec key k); simpl.
  - constructor; [by constructor|]. constructor; [done|]. eapply Forall_impl; [exact Hall|]. simpl. lia.
  - constructor; [by apply IH|]. rewrite ins_perm. simpl. constructor; [lia|done].
Qed.

Lemma find_key_ins key i l key' : ksorted l → find_key key l = None →
  find_key key' (ins key i l) = if key =? key' then Some i else find_key key' l.
Proof.
  induction l as [|[j k] l IH]; intros Hl Hf; simpl in *; [done|]. destruct (Z.eqb_spec k key); [done|].
  apply StronglySorted_cons in Hl as [_ Hl]. destruct (Z.ltb_spec key k); simpl; [done|]. rewrite IH by done.
  destruct (Z.eqb_spec key key'); [|done]. by destruct (Z.eqb_spec k key'); [congruence|].
Qed.

(** A node given up, or one never used. *)
Lemma NewNode_spec a l key : ok a l →
  match NewNode a key with
  | (a1, Some i) =>
      (i ∉ l) ∧ ok a1 (i :: l) ∧ root_ (store a1) = root_ (store a) ∧
      links (store a1) = <[i := (key, None, None)]> (links (store a)) ∧
      match reclaim_stack_ a with
      | j :: fr => i = j ∧ attrs (store a1) = attrs (store a) ∧ reclaim_stack_ a1 = fr ∧
          allocated_index_ a1 = allocated_index_ a
      | [] => i = allocated_index_ a ∧ (allocated_index_ a < capacity_ a)%nat ∧
          attrs (store a1) = <[i := (i, 0)]> (attrs (store a)) ∧ reclaim_stack_ a1 = [] ∧
          allocated_index_ a1 = S (allocated_index_ a)
      end ∧
      capacity_ a1 = capacity_ a ∧ base_address_ a1 = base_address_ a ∧
      address_segment_size_ a1 = address_segment_size_ a
  | (_, None) => reclaim_stack_ a = [] ∧ (capacity_ a ≤ allocated_index_ a)%nat
  end.
Proof.
  intros Hok. pose proof (ok_nodup _ _ Hok) as Hnd. destruct Hok as [H1 H2 H3 H4 H5]. unfold NewNode.
  destruct (reclaim_stack_ a) as [|i fr] eqn:Hst.
  - destruct (decide _) as [|Hlt]; [done|]. set (i := allocated_index_ a) in *. rewrite app_nil_r in H1.
    assert (nodes_ (store a) !! i = None) as Hno.
    { specialize (H5 i ltac:(lia)). unfold attrs in H5. rewrite lookup_fmap in H5. by destruct (nodes_ (store a) !! i). }
    assert (attrs (mkStore (<[i := mkNode key i 0 None None None]> (nodes_ (store a))) (root_ (store a))) =
      <[i := (i, 0)]> (attrs (store a))) as Ha by (unfold attrs; simpl; by rewrite fmap_insert).
    unfold node_at. rewrite Hno. simpl. split_and!; try done; try lia.
    + rewrite H1. intros Hi%elem_of_seq. lia.
    + split; simpl; try lia.
      * rewrite app_nil_r, H1. fold i. change (0%nat :: seq 1 i) with (seq 0 (S i)). rewrite seq_S. apply Permutation_cons_append.
      * intros j Hj. setoid_rewrite Ha. destruct (decide (j = i)) as [->|]; [rewrite lookup_insert_eq; eauto|].
        rewrite lookup_insert_ne by done. apply H4. fold i. lia.
      * intros j Hj. setoid_rewrite Ha. rewrite lookup_insert_ne by lia. apply H5. fold i. lia.
    + unfold links. simpl. by rewrite fmap_insert.
  - assert (i < allocated_index_ a)%nat as Hi.
    { assert (i ∈ seq 0 (allocated_index_ a)) as Hs by (rewrite <- H1; set_solver). apply elem_of_seq in Hs. lia. }
    destruct (H4 i Hi) as [c Hc]. unfold attrs in Hc. rewrite lookup_fmap in Hc. unfold node_at.
    destruct (nodes_ (store a) !! i) as [n|] eqn:Hn; [|done]. simpl in Hc. injection Hc as Hin Hcn. simpl.
    assert (attrs (mkStore (<[i := set_key key (set_right None (set_left None n))]> (nodes_ (store a))) (root_ (store a))) =
      attrs (store a)) as Ha.
    { unfold attrs. simpl. rewrite fmap_insert. apply insert_id. by rewrite lookup_fmap, Hn. }
    split_and!; try done.
    + assert (NoDup (l ++ i :: fr)) as Hnd' by (rewrite H1; apply NoDup_seq). apply NoDup_app in Hnd' as (_ & H & _).
      intros Hl. apply (H _ Hl). set_solver.
    + split; simpl; try lia; try (setoid_rewrite Ha; done). rewrite <- H1. solve_Permutation.
    + unfold links. simpl. by rewrite fmap_insert.
Qed.

Lemma graft_new A A' c a a1 i key parent :
  rep A (plug c Leaf) (store a) → NoDup (cids c) → i ∉ cids c →
  root_ (store a1) = root_ (store a) → links (store a1) = <[i := (key, None, None)]> (links (store a)) →
  attrs (store a1) = A' →
  ∃ s', (s ← write_slot (store a1) (slot_of c) (Some i); s ← upd s i (set_parent parent); Some (set_store a1 s, i)) =
    Some (set_store a1 s', i) ∧ rep A' (plug c (Br Leaf i key Leaf)) s'.
Proof.
  intros (L & R & (HL & HA & HR) & Hc & _)%rep_plug Hnd Hi Hr Hl Ha.
  destruct (graft A' c Leaf (Br Leaf i key Leaf) (store a1)) as (s1 & Hw & Hr1); [|done|set_solver| |].
  { apply rep_plug. exists (<[i := (key, None, None)]> L), R. rewrite HL in Hl. split; [split_and!; congruence|].
    split; [|done]. eapply cshape_ext, Hc. intros j Hj. rewrite lookup_insert_ne; [done|]. by intros <-. }
  { simpl. rewrite Hl, lookup_insert_eq. done. }
  simpl in Hw. rewrite Hw. simpl. destruct (proj1 (rep_plug _ _ _ _) Hr1) as (L1 & R1 & Hs1 & Hc1 & Hi1 & _).
  destruct (upd_parent _ _ _ _ i parent Hs1) as (s2 & -> & Hs2); [by eauto|]. exists s2. split; [done|].
  apply rep_plug. exists L1, R1. done.
Qed.

Lemma FindOrInsert_new A c t fuel a parent key :
  rep A (plug c t) (store a) → ok a (ids (plug c t)) → ksorted (inorder t) → (height t < fuel)%nat →
  find_key key (inorder t) = None →
  match NewNode a key with
  | (_, None) => FindOrInsertNode fuel a (rptr t) (slot_of c) parent key = None
  | (a1, Some i) =>
      ∃ s' t', FindOrInsertNode fuel a (rptr t) (slot_of c) parent key = Some (set_store a1 s', i) ∧
        rep (attrs (store a1)) (plug c t') s' ∧ inorder t' = ins key i (inorder t)
  end.
Proof.
  revert c t parent. induction fuel as [|fuel IH]; intros c t parent Hr Hok Hks Hf Hfind; [lia|].
  pose proof (NewNode_spec _ _ key Hok) as Hnew. destruct t as [|l n k r].
  - simpl. destruct (NewNode a key) as [a1 [i|]]; [|done]. destruct Hnew as (Hi & Hok1 & Hroot & Hl & _).
    rewrite ids_plug in Hi. simpl in Hi. destruct (nodup_plug c Leaf (ok_nodup _ _ Hok)) as (_ & Hnd & _).
    destruct (graft_new A _ c a a1 i key parent Hr Hnd Hi Hroot Hl eq_refl) as (s' & Heq & Hr').
    by exists s', (Br Leaf i key Leaf).
  - simpl in Hks, Hf, Hfind. pose proof (proj1 (ksorted_mid _ _ _ _) Hks) as (Hl & Hrr & Hlk & _).
    destruct (rep_read _ _ _ _ _ _ _ Hr) as (nn & Hn & Hkn & Hnl & Hnr). simpl. rewrite Hn. simpl. rewrite Hkn, Hnl, Hnr.
    destruct (Z.ltb_spec key k); [|destruct (Z.ltb_spec k key)].
    + rewrite find_key_left in Hfind by done.
      specialize (IH (FLeft n k r :: c) l (Some n) Hr Hok Hl ltac:(lia) Hfind).
      destruct (NewNode a key) as [a1 [i|]]; [|simpl in IH; by rewrite IH]. destruct IH as (s1 & l1 & Heq & Hr1 & Hi1).
      simpl in Heq. rewrite Heq. cbn [mbind option_bind]. destruct Hnew as (_ & Hok1 & _).
      destruct (rebalance_child _ (FLeft n k r) c l1 (set_store a1 s1) i Hr1) as (s2 & l2 & Heq2 & Hr2 & Hi2).
      { apply ok_store; [by rewrite (rep_attrs _ _ _ Hr1)|]. eapply ok_perm, Hok1. symmetry.
        by apply (ids_plug_ins (FLeft n k r :: c) l l1 key). }
      exists s2, (Br l2 n k r). split; [exact Heq2|]. split; [done|]. simpl. by rewrite Hi2, Hi1, ins_left.
    + rewrite find_key_right in Hfind by done.
      specialize (IH (FRight l n k :: c) r (Some n) Hr Hok Hrr ltac:(lia) Hfind).
      destruct (NewNode a key) as [a1 [i|]]; [|simpl in IH; by rewrite IH]. destruct IH as (s1 & r1 & Heq & Hr1 & Hi1).
      simpl in Heq. rewrite Heq. cbn [mbind option_bind]. destruct Hnew as (_ & Hok1 & _).
      destruct (rebalance_child _ (FRight l n k) c r1 (set_store a1 s1) i Hr1) as (s2 & r2 & Heq2 & Hr2 & Hi2).
      { apply ok_store; [by rewrite (rep_attrs _ _ _ Hr1)|]. eapply ok_perm, Hok1. symmetry.
        by apply (ids_plug_ins (FRight l n k :: c) r r1 key). }
      exists s2, (Br l n k r2). split; [exact Heq2|]. split; [done|]. simpl. by rewrite Hi2, Hi1, ins_right.
    + assert (key = k) as -> by lia. by rewrite find_key_here in Hfind.
Qed.

(** ** Removing *)

Definition drop_key (key : Z) (l : list (nat * Z)) : list (nat * Z) := filter (λ p, p.2 ≠ key) l.

Lemma drop_none key l : (∀ p, p ∈ l → p.2 ≠ key) → drop_key key l = l.
Proof. intros H. by apply filter_all. Qed.

Lemma drop_app key l l' : drop_key key (l ++ l') = drop_key key l ++ drop_key key l'.
Proof. apply filter_app. Qed.

Lemma drop_here l i k r : ksorted (l ++ (i, k) :: r) → drop_key k (l ++ (i, k) :: r) = l ++ r.
Proof.
  intros (_ & _ & Hl & Hr & _)%ksorted_mid. unfold drop_key. rewrite filter_app, filter_cons_False by (simpl; tauto).
  f_equal; apply filter_all; intros p Hp; [specialize (Hl p Hp)|specialize (Hr p Hp)]; lia.
Qed.

Lemma drop_left key l i k r : ksorted (l ++ (i, k) :: r) → key < k →
  drop_key key (l ++ (i, k) :: r) = drop_key key l ++ (i, k) :: r.
Proof.
  intros (_ & _ & _ & Hr & _)%ksorted_mid Hk. rewrite drop_app. f_equal. apply drop_none.
  intros p [->|Hp]%elem_of_cons; simpl; [lia|]. specialize (Hr p Hp). lia.
Qed.

Lemma drop_right key l i k r : ksorted (l ++ (i, k) :: r) → k < key →
  drop_key key (l ++ (i, k) :: r) = l ++ (i, k) :: drop_key key r.
Proof.
  intros (_ & _ & Hl & _)%ksorted_mid Hk. rewrite drop_app, (drop_none key l).
  - unfold drop_key at 1. by rewrite filter_cons_True by (simpl; lia).
  - intros p Hp. specialize (Hl p Hp). lia.
Qed.

Lemma ksorted_drop key l : ksorted l → ksorted (drop_key key l).
Proof.
  unfold ksorted, drop_key. induction l as [|[i k] l IH]; [done|]. intros [Hall Hl]%StronglySorted_cons.
  rewrite filter_cons. destruct (decide _); [|by apply IH]. simpl. constructor; [by apply IH|].
  rewrite Forall_forall in *. intros x (p & -> & [_ Hp]%list_elem_of_filter)%list_elem_of_fmap.
  apply Hall. apply list_elem_of_fmap. eauto.
Qed.

Lemma find_key_drop key l key' : find_key key' (drop_key key l) = if key =? key' then None else find_key key' l.
Proof.
  induction l as [|[i k] l IH]; [by destruct (key =? key')|]. unfold drop_key. rewrite filter_cons.
  destruct (decide _) as [Hd|Hd]; simpl in *.
  - setoid_rewrite IH. by destruct (Z.eqb_spec k key'), (Z.eqb_spec key key'); try congruence.
  - setoid_rewrite IH. destruct (Z.eqb_spec k key'), (Z.eqb_spec key key'); try done. destruct Hd; congruence.
Qed.

Lemma drop_perm key l i : ksorted l → find_key key l = Some i → i :: (drop_key key l).*1 ≡ₚ l.*1.
Proof.
  intros Hk Hf. destruct (list_elem_of_split _ _ (find_key_in _ _ _ Hf)) as (l1 & l2 & ->).
  rewrite drop_here by done. rewrite !fmap_app. simpl. solve_Permutation.
Qed.

(** The allocator without the node [i]. *)
Definition given_back (a : Alloc) (i : nat) (s : Store) : Alloc :=
  mkAlloc s (allocated_index_ a) (i :: reclaim_stack_ a) (capacity_ a) (base_address_ a) (address_segment_size_ a).

Lemma ok_given_back a i l l' s : attrs s = attrs (store a) → i :: l' ≡ₚ l → ok a l → ok (given_back a i s) l'.
Proof. intros Hs Hl [H1 H2 H3 H4 H5]. split; simpl; rewrite ?Hs; try done. rewrite <- H1, <- Hl. solve_Permutation. Qed.

Lemma in_tree i t : i ∈ ids t → ∃ c l k r, t = plug c (Br l i k r).
Proof.
  induction t as [|l IHl j k r IHr]; [set_solver|]. rewrite ids_Br. intros [H|[->|H]%elem_of_cons]%elem_of_app.
  - destruct (IHl H) as (c & l' & k' & r' & ->). exists (c ++ [FLeft j k r]), l', k', r'. by rewrite plug_app.
  - by exists [], l, k, r.
  - destruct (IHr H) as (c & l' & k' & r' & ->). exists (c ++ [FRight l j k]), l', k', r'. by rewrite plug_app.
Qed.

Lemma rebalance_root_spec A a t node test : rep A t (store a) → ok a (ids t) → node ∈ ids t →
  ∃ s' t', rebalance_root_if test a node = Some (set_store a s') ∧ rep A t' s' ∧ inorder t' = inorder t.
Proof.
  intros Hr Hok Hn. unfold rebalance_root_if.
  destruct (in_tree _ _ Hn) as (c & l & k & r & Ht). rewrite Ht in Hr, Hok.
  pose proof (TreeBalanceFactor_spec A c _ _ (fuel_of a) Hr (ok_height_plug _ _ _ Hok) (ok_fuel _ _ Hok)) as Hb.
  simpl rptr in Hb. rewrite Hb. cbn [mbind option_bind]. rewrite <- Ht in Hr, Hok. destruct (test _).
  - destruct (TreeRebalance_spec A [] t (store a) (fuel_of a)) as (s' & t' & Heq & ? & ?);
      [done|by eapply ok_nodup|by apply ok_height|by eapply ok_fuel|].
    pose proof Hr as (L & (_ & _ & Hroot) & _). simpl in Heq. rewrite Hroot, Heq. by exists s', t'.
  - exists (store a), t. by destruct a.
Qed.

Lemma ReclaimNode_spec A a t i cnt : rep A t (store a) → attrs (store a) !! i = Some (i, cnt) → i ∉ ids t →
  ∃ s', ReclaimNode a i = Some (given_back a i s') ∧ rep A t s'.
Proof.
  intros (L & Hs & Ht) Hi Hni. unfold attrs in Hi. rewrite lookup_fmap in Hi. unfold ReclaimNode.
  destruct (nodes_ (store a) !! i) as [n|] eqn:Hn; [|done]. simpl in Hi. injection Hi as Hix _. simpl. rewrite Hix.
  destruct (upd_st L A _ (store a) i (λ n, set_parent None (set_right None (set_left None n))) (lk n) (key_ n, None, None) Hs)
    as (s' & -> & Hs').
  { destruct Hs as (<- & _). unfold links. by rewrite lookup_fmap, Hn. }
  { intros [] ?. unfold lk in *. by simplify_eq/=. }
  exists s'. split; [done|]. eexists. split; [exact Hs'|]. eapply shape_ext, Ht.
  intros j Hj. apply lookup_insert_ne. by intros <-.
Qed.

(** A node with at most one child. *)
Lemma remove_leaf A c l i k r a : rep A (plug c (Br l i k r)) (store a) → ok a (ids (plug c (Br l i k r))) →
  l = Leaf ∨ r = Leaf →
  ∃ s' t', (s ← write_slot (store a) (slot_of c) (match rptr l with Some j => Some j | None => rptr r end);
            ReclaimNode (set_store a s) i) = Some (given_back a i s') ∧
    rep A (plug c t') s' ∧ inorder t' = inorder l ++ inorder r.
Proof.
  intros Hr Hok Hlr. destruct (nodup_plug _ _ (ok_nodup _ _ Hok)) as (Hnt & Hnc & Hdis). rewrite ids_Br in Hnt, Hdis.
  set (t' := match l with Leaf => r | _ => l end).
  assert (match rptr l with Some j => Some j | None => rptr r end = rptr t') as -> by (by destruct l).
  assert (inorder t' = inorder l ++ inorder r) as Hin by (destruct l; [done|]; destruct Hlr as [? | ->]; [done|by rewrite app_nil_r]).
  assert (∀ j, j ∈ ids t' → j ∈ ids l ++ i :: ids r ∧ j ≠ i) as Hsub.
  { unfold ids. rewrite Hin, fmap_app. intros j Hj. split; [set_solver|]. intros ->.
    apply NoDup_app in Hnt as (_ & H1 & [H2 _]%NoDup_cons). unfold ids in *. set_solver. }
  destruct (proj1 (rep_plug _ _ _ _) Hr) as (L0 & R0 & Hs0 & _ & _ & Hl & Hrr).
  destruct (graft A c (Br l i k r) t' (store a)) as (s1 & -> & Hr1); [done|done| | |].
  { intros j Hj. by apply Hdis, Hsub. }
  { destruct Hs0 as (-> & _). by destruct l. }
  cbn [mbind option_bind]. destruct (ok_attrs _ _ Hok i) as [cnt Hcnt].
  { eapply ok_lt; [done|]. rewrite ids_plug, ids_Br. set_solver. }
  assert (attrs s1 = attrs (store a)) as Ha by (by rewrite (rep_attrs _ _ _ Hr1), (rep_attrs _ _ _ Hr)).
  rewrite <- Ha in Hcnt. destruct (ReclaimNode_spec A (set_store a s1) _ i cnt Hr1 Hcnt) as (s2 & -> & Hr2).
  { rewrite ids_plug. intros [Hj|Hj]%elem_of_app; [by apply Hsub in Hj as [_ ?]|]. apply (Hdis i); [set_solver|done]. }
  by exists s2, t'.
Qed.

Lemma slot_of_app d f c : slot_of (d ++ f :: c) = slot_of (d ++ [f]).
Proof. by destruct d as [|[] d]. Qed.

Lemma height_plug_eq d t t' : height t = height t' → height (plug d t) = height (plug d t').
Proof. revert t t'. induction d as [|[i k r|l i k] d IH]; intros t t' H; [done| |]; apply IH; simpl; by rewrite H. Qed.

(** What [RemoveNode] is to do with the subtree [t] in the context [c]. *)
Definition removes (A : gmap nat (nat * Z)) (c : list frame) (before : list (nat * Z)) (key : Z) (i : nat)
    (a : Alloc) (res : option Alloc) : Prop :=
  ∃ s' t', res = Some (given_back a i s') ∧ rep A t' s' ∧ inorder t' = cpre c ++ drop_key key before ++ cpost c.

Section remove.
Context (A : gmap nat (nat * Z)) (fuel : nat) (key : Z).
Context (IH : ∀ c t a, rep A (plug c t) (store a) → ok a (ids (plug c t)) → ksorted (inorder t) → (height t < fuel)%nat →
  ∀ i, find_key key (inorder t) = Some i → removes A c (inorder t) key i a (RemoveNode fuel a (rptr t) (slot_of c) key)).

(** Behind a recursive call into a child. *)
Lemma remove_child c f t a node test i :
  rep A (plug (f :: c) t) (store a) → ok a (ids (plug (f :: c) t)) → ksorted (inorder t) → (height t < fuel)%nat →
  find_key key (inorder t) = Some i → node = fid f →
  ∃ s' t', (a ← RemoveNode fuel a (rptr t) (slot_of (f :: c)) key; rebalance_root_if test a node) = Some (given_back a i s') ∧
    rep A t' s' ∧ inorder t' = cpre (f :: c) ++ drop_key key (inorder t) ++ cpost (f :: c).
Proof using IH.
  intros Hr Hok Hks Hf Hi ->. destruct (IH _ _ _ Hr Hok Hks Hf i Hi) as (s1 & t1 & -> & Hr1 & Hin1).
  cbn [mbind option_bind].
  destruct (rebalance_root_spec A (given_back a i s1) t1 (fid f) test Hr1) as (s2 & t2 & -> & Hr2 & Hin2).
  - eapply ok_given_back; [|..|exact Hok].
    + by rewrite (rep_attrs _ _ _ Hr1), (rep_attrs _ _ _ Hr).
    + unfold ids. rewrite Hin1, inorder_plug, !fmap_app, <- (drop_perm _ _ _ Hks Hi). solve_Permutation.
  - unfold ids. rewrite Hin1. destruct f; simpl; rewrite !fmap_app; simpl; rewrite ?fmap_app; set_solver.
  - exists s2, t2. by rewrite Hin2.
Qed.

(** The two children case: the node takes the place of its neighbour [y] in the order. *)
Lemma remove_swapped c f d yl y ky yr a k x :
  rep A (plug (d ++ f :: c) (Br yl y ky yr)) (store a) → ok a (ids (plug (d ++ f :: c) (Br yl y ky yr))) →
  x = fid f → k = fkey f → key = k →
  let t' := plug d (Br yl x k yr) in
  ksorted (inorder t') → (height (plug d (Br yl y ky yr)) < fuel)%nat →
  ∃ s', SwapNodePosition (store a) x (slot_of c) y (slot_of (d ++ f :: c)) = Some s' ∧
  ∃ n, nodes_ s' !! y = Some n ∧
    removes A (refill f y ky :: c) (inorder t') key x a
      (RemoveNode fuel (set_store a s') (child f n) (slot_of (refill f y ky :: c)) key).
Proof using IH.
  intros Hr Hok -> -> Hkey t' Hks Hf.
  destruct (SwapNodePosition_spec A d f c yl y ky yr (store a) Hr (ok_nodup _ _ Hok)) as (s1 & Hs1 & Hr1).
  rewrite slot_of_app. exists s1. split; [done|]. rewrite plug_app in Hr1. fold t' in Hr1.
  destruct (rep_child A (refill f y ky) c t' s1 Hr1) as (n & Hn & Hch). destruct (refill_fields f y ky) as [Hfy Hfs].
  rewrite Hfy in Hn. exists n. split; [done|]. replace (child f n) with (rptr t') by (by rewrite <- Hch; destruct f).
  destruct (IH (refill f y ky :: c) t' (set_store a s1)) with (i := fid f) as (s2 & t2 & ? & ? & ?); [done| |done| | |by exists s2, t2].
  - eapply ok_perm; [|apply ok_store; [|exact Hok]].
    + rewrite ids_plug. change (refill f y ky :: c) with ([refill f y ky] ++ c).
      unfold t'. rewrite !ids_plug, !cids_app, !cids_cons, !ids_Br, Hfy, Hfs.
      change (cids []) with (@nil nat). solve_Permutation.
    + by rewrite (rep_attrs _ _ _ Hr1), (rep_attrs _ _ _ Hr).
  - unfold t'. by rewrite (height_plug_eq d _ (Br yl y ky yr)).
  - rewrite Hkey. unfold t' in *. rewrite inorder_plug in *. simpl in *. rewrite <- app_assoc, app_assoc in *. simpl in *.
    by apply find_key_here.
Qed.
End remove.

Lemma ksorted_move l1 y ky x k r : ksorted ((l1 ++ [(y, ky)]) ++ (x, k) :: r) → ksorted (l1 ++ [(x, k)]).
Proof.
  intros (Hl & _ & Hlk & _)%ksorted_mid. apply ksorted_mid in Hl as (Hl & _).
  apply ksorted_mid. split_and!; [done|by constructor| |set_solver|set_solver].
  intros p Hp. apply Hlk. set_solver.
Qed.

Lemma ksorted_move' l x k y ky r1 : ksorted (l ++ (x, k) :: (y, ky) :: r1) → ksorted ((x, k) :: r1).
Proof.
  intros (_ & Hr & _ & Hrk & _)%ksorted_mid. apply (ksorted_mid [] y ky r1) in Hr as (_ & Hr & _).
  apply (ksorted_mid [] x k r1). split_and!; [by constructor|done|set_solver| |set_solver].
  intros p Hp. apply Hrk. set_solver.
Qed.

Section remove_both.
Context (A : gmap nat (nat * Z)) (fuel : nat) (key : Z).
Context (IH : ∀ c t a, rep A (plug c t) (store a) → ok a (ids (plug c t)) → ksorted (inorder t) → (height t < fuel)%nat →
  ∀ i, find_key key (inorder t) = Some i → removes A c (inorder t) key i a (RemoveNode fuel a (rptr t) (slot_of c) key)).
Context (c : list frame) (l r : tree) (x : nat) (a : Alloc).
Context (Hl : l ≠ Leaf) (Hr : r ≠ Leaf).
Context (Hrep : rep A (plug c (Br l x key r)) (store a)) (Hok : ok a (ids (plug c (Br l x key r)))).
Context (Hks : ksorted (inorder l ++ (x, key) :: inorder r)) (Hf : (height (Br l x key r) < S fuel)%nat).

Lemma remove_with_max :
  removes A c (inorder (Br l x key r)) key x a
    (p ← rptr l; '(max, max_p) ← TreeMax (fuel_of a) (store a) p (SLeft x);
     s ← SwapNodePosition (store a) x (slot_of c) max max_p;
     mn ← nodes_ s !! max;
     RemoveNode fuel (set_store a s) (left_ mn) (SLeft max) key).
Proof using All.
  destruct (TreeMax_spec A l (FLeft x key r :: c) (store a) (fuel_of a) Hl Hrep) as (d & yl & y & ky & Ht & Hd & Hm).
  { by apply (ok_height_plug _ (FLeft x key r :: c)). }
  destruct (rptr l) as [p|] eqn:Hp; [|by destruct l]. simpl. simpl in Hm. rewrite (Hm p) by done. simpl.
  assert (ksorted (inorder (plug d (Br yl x key Leaf)))) as Hks'.
  { rewrite Ht, !inorder_plug, Hd, !app_nil_r in Hks. rewrite inorder_plug, Hd, app_nil_r. simpl in *.
    rewrite app_assoc in *. by eapply ksorted_move. }
  destruct (remove_swapped A fuel key IH c (FLeft x key r) d yl y ky Leaf a key x) as (s1 & -> & n & Hn & s2 & t2 & Heq & Hr2 & Hin);
    [by rewrite plug_app; simpl; rewrite <- Ht..|done|done|done|done|rewrite <- Ht; simpl in Hf; lia|].
  simpl. rewrite Hn. simpl. exists s2, t2. split; [exact Heq|]. split; [done|]. rewrite Hin. simpl.
  rewrite drop_here by done. rewrite inorder_plug, Hd, app_nil_r in Hks'. simpl in Hks'. rewrite app_assoc in Hks'.
  pose proof (drop_here _ _ _ _ Hks') as Hdrop. rewrite app_nil_r in Hdrop.
  rewrite Ht, !inorder_plug, Hd, !app_nil_r. simpl. rewrite (app_assoc (cpre d) (inorder yl) [_]), Hdrop. by app_norm.
Qed.

Lemma remove_with_min :
  removes A c (inorder (Br l x key r)) key x a
    (p ← rptr r; '(min, min_p) ← TreeMin (fuel_of a) (store a) p (SRight x);
     s ← SwapNodePosition (store a) x (slot_of c) min min_p;
     mn ← nodes_ s !! min;
     RemoveNode fuel (set_store a s) (right_ mn) (SRight min) key).
Proof using All.
  destruct (TreeMin_spec A r (FRight l x key :: c) (store a) (fuel_of a) Hr Hrep) as (d & yr & y & ky & Ht & Hd & Hm).
  { by apply (ok_height_plug _ (FRight l x key :: c)). }
  destruct (rptr r) as [p|] eqn:Hp; [|by destruct r]. simpl. simpl in Hm. rewrite (Hm p) by done. simpl.
  assert (ksorted (inorder (plug d (Br Leaf x key yr)))) as Hks'.
  { rewrite Ht, !inorder_plug, Hd in Hks. rewrite inorder_plug, Hd. simpl in *. by eapply ksorted_move'. }
  destruct (remove_swapped A fuel key IH c (FRight l x key) d Leaf y ky yr a key x) as (s1 & -> & n & Hn & s2 & t2 & Heq & Hr2 & Hin);
    [by rewrite plug_app; simpl; rewrite <- Ht..|done|done|done|done|rewrite <- Ht; simpl in Hf; lia|].
  simpl. rewrite Hn. simpl. exists s2, t2. split; [exact Heq|]. split; [done|]. rewrite Hin. simpl.
  rewrite drop_here by done. rewrite Ht, !inorder_plug, Hd. simpl.
  rewrite inorder_plug, Hd in Hks'. simpl in Hks'. pose proof (drop_here [] x key (inorder yr ++ cpost d) Hks') as Hdrop.
  simpl in Hdrop. rewrite Hdrop. by app_norm.
Qed.
End remove_both.

Lemma RemoveNode_spec A fuel key c t a : rep A (plug c t) (store a) → ok a (ids (plug c t)) → ksorted (inorder t) →
  (height t < fuel)%nat → ∀ i, find_key key (inorder t) = Some i →
  removes A c (inorder t) key i a (RemoveNode fuel a (rptr t) (slot_of c) key).
Proof.
  revert c t a. induction fuel as [|fuel IH]; intros c t a Hr Hok Hks Hf i Hi; [lia|]. destruct t as [|l x k r]; [done|].
  pose proof (FindNode_spec _ _ _ _ (fuel_of a) key Hr Hks (ok_height_plug _ _ _ Hok)) as Hfind. rewrite Hi in Hfind.
  simpl rptr in *. cbn [RemoveNode]. rewrite Hfind. cbn [mbind option_bind]. clear Hfind.
  destruct (rep_read _ _ _ _ _ _ _ Hr) as (n & -> & Hkn & Hnl & Hnr). cbn [mbind option_bind]. rewrite Hkn, Hnl, Hnr.
  simpl inorder in Hks, Hi. pose proof (proj1 (ksorted_mid _ _ _ _) Hks) as (Hl & Hrr & _).
  destruct (Z.ltb_spec key k); [|destruct (Z.ltb_spec k key)].
  - rewrite find_key_left in Hi by done.
    destruct (remove_child A fuel key IH c (FLeft x k r) l a x (λ b, b <? -1) i) as (s' & t' & Heq & Hr' & Hin);
      [done..|simpl in Hf; lia|done|done|].
    exists s', t'. split; [exact Heq|]. split; [done|]. rewrite Hin. simpl. rewrite drop_left by done. by app_norm.
  - rewrite find_key_right in Hi by done.
    destruct (remove_child A fuel key IH c (FRight l x k) r a x (λ b, 1 <? b) i) as (s' & t' & Heq & Hr' & Hin);
      [done..|simpl in Hf; lia|done|done|].
    exists s', t'. split; [exact Heq|]. split; [done|]. rewrite Hin. simpl. rewrite drop_right by done. by app_norm.
  - assert (key = k) as <- by lia. rewrite find_key_here in Hi by done. injection Hi as <-.
    destruct (rptr l) as [pl|] eqn:Hpl; [destruct (rptr r) as [pr|] eqn:Hpr|].
    + pose proof (TreeBalanceFactor_spec A c _ _ (fuel_of a) Hr (ok_height_plug _ _ _ Hok) (ok_fuel _ _ Hok)) as Hb.
      simpl rptr in Hb. rewrite Hb. cbn [mbind option_bind]. destruct (0 <? _).
      * pose proof (remove_with_max A fuel key IH c l r x a) as Hm. rewrite Hpl in Hm.
        apply Hm; try done; [by intros ->|by intros ->].
      * pose proof (remove_with_min A fuel key IH c l r x a) as Hm. rewrite Hpr in Hm.
        apply Hm; try done; [by intros ->|by intros ->].
    + destruct (remove_leaf A c l x key r a Hr Hok) as (s' & t' & Heq & Hr' & Hin); [right; by destruct r|].
      rewrite Hpl in Heq. exists s', (plug c t'). split; [exact Heq|]. split; [done|].
      rewrite inorder_plug, Hin. simpl. by rewrite drop_here.
    + destruct (remove_leaf A c l x key r a Hr Hok) as (s' & t' & Heq & Hr' & Hin); [left; by destruct l|].
      rewrite Hpl in Heq. exists s', (plug c t'). split; [|split; [done|]; rewrite inorder_plug, Hin; simpl; by rewrite drop_here].
      destruct (rptr r); exact Heq.
Qed.

(** ** The allocator implements the book *)

Lemma upd_count A t s i j c0 c : rep A t s → A !! i = Some (j, c0) →
  ∃ n s', nodes_ s !! i = Some n ∧ index_ n = j ∧ ref_count_ n = c0 ∧
    upd s i (set_ref_count c) = Some s' ∧ rep (<[i := (j, c)]> A) t s'.
Proof.
  intros (L & (<- & <- & Hroot) & Ht) Hi. unfold attrs in Hi. rewrite lookup_fmap in Hi.
  destruct (nodes_ s !! i) as [n|] eqn:Hn; [|done]. simpl in Hi. injection Hi as <- <-.
  exists n. unfold upd. rewrite Hn. simpl. eexists. split_and!; try done.
  exists (links s). split; [|done]. split_and!; [|by unfold attrs; simpl; rewrite fmap_insert|done].
  unfold links. simpl. rewrite fmap_insert. apply insert_id. by rewrite lookup_fmap, Hn.
Qed.

Lemma ok_count a l i c s : attrs s = <[i := (i, c)]> (attrs (store a)) → (i < allocated_index_ a)%nat →
  ok a l → ok (set_store a s) l.
Proof.
  intros Hs Hi [H1 H2 H3 H4 H5]. split; simpl; try done; rewrite Hs; intros j Hj.
  - destruct (decide (j = i)) as [->|]; [rewrite lookup_insert_eq; eauto|]. rewrite lookup_insert_ne by done. auto.
  - rewrite lookup_insert_ne by lia. auto.
Qed.

Section refinement.
Context (capacity : nat) (base size : Z).

Record sim (a : Alloc) (b : Book) (t : tree) : Prop := {
  sim_rep : rep (attrs (store a)) t (store a);
  sim_ok : ok a (ids t);
  sim_sorted : ksorted (inorder t);
  sim_binding : ∀ k, binding b !! k = find_key k (inorder t);
  sim_counts : ∀ i, counts b !! i = snd <$> attrs (store a) !! i;
  sim_free : free_ b = reclaim_stack_ a;
  sim_next : next_ b = allocated_index_ a;
  sim_params : capacity_ a = capacity ∧ base_address_ a = base ∧ address_segment_size_ a = size
}.

Lemma sim_find a b t key : sim a b t →
  FindNode (fuel_of a) (store a) (root_ (store a)) key = Some (binding b !! key).
Proof.
  intros []. destruct sim_rep0 as (L & Hs & Ht). pose proof Hs as (_ & _ & ->). rewrite sim_binding0.
  eapply (FindNode_spec _ []); [by exists L|done|by apply ok_height].
Qed.

(** Writing the count of a bound index. *)
Lemma sim_set_count a b t i c0 c : sim a b t → attrs (store a) !! i = Some (i, c0) →
  (i < allocated_index_ a)%nat →
  ∃ n s', nodes_ (store a) !! i = Some n ∧ index_ n = i ∧ ref_count_ n = c0 ∧ count_of b i = c0 ∧
    upd (store a) i (set_ref_count (u64 c)) = Some s' ∧ sim (set_store a s') (set_count b i c) t.
Proof.
  intros [] Hi Hlt. destruct (upd_count _ _ _ _ _ _ (u64 c) sim_rep0 Hi) as (n & s' & Hn & Hix & Hc & Hu & Hr).
  pose proof (rep_attrs _ _ _ Hr) as Ha. exists n, s'. split_and!; try done.
  - unfold count_of. rewrite sim_counts0, Hi. done.
  - split; simpl; try done; [by rewrite Ha|by eapply ok_count|]. intros j. rewrite Ha.
    destruct (decide (j = i)) as [->|]; [by rewrite !lookup_insert_eq|]. by rewrite !lookup_insert_ne.
Qed.

Lemma sim_bound a b t k i : sim a b t → binding b !! k = Some i →
  (i < allocated_index_ a)%nat ∧ ∃ c, attrs (store a) !! i = Some (i, c).
Proof.
  intros [] H. rewrite sim_binding0 in H. apply find_key_in in H.
  assert (i < allocated_index_ a)%nat as Hlt.
  { eapply ok_lt; [done|]. apply list_elem_of_fmap. by exists (i, k). }
  split; [done|]. by eapply ok_attrs.
Qed.

(** [FindOrInsertNode] at the root, then the count. *)
Lemma allocate_found a b t key i : sim a b t → binding b !! key = Some i →
  ∃ a' t', Allocate a key = Some (a', u64 (base + size * Z.of_nat i)) ∧ sim a' (set_count b i (count_of b i + 1)) t'.
Proof.
  intros Hsim Hi. destruct (sim_bound _ _ _ _ _ Hsim Hi) as (Hlt & c0 & Hc0). pose proof Hsim as [].
  rewrite sim_binding0 in Hi. pose proof sim_rep0 as (L & (_ & _ & Hroot) & _).
  destruct (FindOrInsert_found _ [] t (fuel_of a) a None key i sim_rep0 sim_ok0 sim_sorted0) as (s1 & t1 & Heq & Hr1 & Hin1);
    [by apply ok_height|done|]. simpl in Hr1.
  assert (attrs s1 = attrs (store a)) as Ha by apply (rep_attrs _ _ _ Hr1).
  assert (sim (set_store a s1) b t1) as Hsim1.
  { split; simpl; rewrite ?Ha, ?Hin1; try done. unfold ids. rewrite Hin1. by apply ok_store. }
  destruct (sim_set_count _ _ _ i c0 (c0 + 1) Hsim1) as (n & s2 & Hn & Hix & Hc & Hcount & Hu & Hsim2);
    [simpl; by rewrite Ha|done|].
  unfold Allocate. rewrite Hroot. change (slot_of []) with SRoot in Heq. simpl in Hn, Hu. rewrite Heq. cbn [mbind option_bind]. simpl.
  rewrite Hn. simpl. rewrite Hc, Hu. simpl. rewrite Hix, Hcount. destruct sim_params0 as (_ & -> & ->). eauto.
Qed.

Lemma allocate_new a b t key : sim a b t → binding b !! key = None →
  match NewNode a key with
  | (_, None) => Allocate a key = None
  | (a1, Some i) =>
      ∃ a' t' c0, snd <$> attrs (store a1) !! i = Some c0 ∧ Allocate a key = Some (a', u64 (base + size * Z.of_nat i)) ∧
        sim a' (mkBook (<[key := i]> (binding b)) (<[i := u64 (c0 + 1)]> (counts b)) (reclaim_stack_ a1) (allocated_index_ a1)) t'
  end.
Proof.
  intros Hsim Hi. pose proof Hsim as []. rewrite sim_binding0 in Hi. pose proof sim_rep0 as (L & (_ & _ & Hroot) & _).
  pose proof (FindOrInsert_new _ [] t (fuel_of a) a None key sim_rep0 sim_ok0 sim_sorted0 (ok_height _ _ sim_ok0) Hi) as Hnew.
  pose proof (NewNode_spec a (ids t) key sim_ok0) as Hspec.
  unfold Allocate. rewrite Hroot. change (slot_of []) with SRoot in Hnew. 
  destruct (NewNode a key) as [a1 [i|]]; [|by rewrite Hnew].
  destruct Hnew as (s1 & t1 & Heq & Hr1 & Hin1). destruct Hspec as (Hni & Hok1 & _ & _ & Hcase & Hcap & Hbase & Hsize).
  change (plug [] t1) with t1 in Hr1. rewrite Heq. clear Heq. cbn [mbind option_bind].
  assert (attrs s1 = attrs (store a1)) as Ha by apply (rep_attrs _ _ _ Hr1).
  pose proof (ok_lt _ _ i Hok1 ltac:(set_solver)) as Hlt. destruct (ok_attrs _ _ Hok1 _ Hlt) as [c0 Hc0].
  set (b1 := mkBook (<[key := i]> (binding b)) (<[i := c0]> (counts b)) (reclaim_stack_ a1) (allocated_index_ a1)).
  assert (sim (set_store a1 s1) b1 t1) as Hsim1.
  { split; simpl; rewrite ?Ha, ?Hin1; try done; [|by apply ins_sorted|..|by rewrite Hcap, Hbase, Hsize].
    - eapply ok_perm; [symmetry; by apply (ids_plug_ins [] t t1 key i)|]. by apply ok_store.
    - intros k. rewrite find_key_ins by done. destruct (Z.eqb_spec key k) as [->|]; [by rewrite lookup_insert_eq|].
      by rewrite lookup_insert_ne.
    - intros j. destruct (decide (j = i)) as [->|]; [by rewrite lookup_insert_eq, Hc0|]. rewrite lookup_insert_ne by done.
      rewrite sim_counts0. destruct (reclaim_stack_ a); [|by destruct Hcase as (_ & -> & _)].
      destruct Hcase as (_ & _ & -> & _). by rewrite lookup_insert_ne. }
  destruct (sim_set_count _ _ _ i c0 (c0 + 1) Hsim1) as (n & s2 & Hn & Hix & Hc & _ & Hu & Hsim2);
    [simpl; by rewrite Ha|done|].
  simpl in Hn, Hu |- *. rewrite Hn. simpl. rewrite Hc, Hu. simpl. rewrite Hix, Hbase, Hsize.
  destruct sim_params0 as (_ & -> & ->). eexists _, t1, c0. split; [by rewrite Hc0|]. split; [done|].
  unfold set_count, b1 in Hsim2. simpl in Hsim2. by rewrite insert_insert_eq in Hsim2.
Qed.

Lemma sim_allocate a b t key : sim a b t →
  match book_allocate capacity base size b key with
  | None => Allocate a key = None
  | Some (b', x) => ∃ a' t', Allocate a key = Some (a', x) ∧ sim a' b' t'
  end.
Proof.
  intros Hsim. unfold book_allocate. destruct (binding b !! key) as [i|] eqn:Hb.
  - simpl. by eapply allocate_found.
  - pose proof (allocate_new _ _ _ key Hsim Hb) as Hnew. pose proof (NewNode_spec a (ids t) key (sim_ok _ _ _ Hsim)) as Hspec.
    destruct Hsim. rewrite sim_free0, sim_next0. destruct (reclaim_stack_ a) as [|j fr] eqn:Hst.
    + destruct (NewNode a key) as [a1 [i|]]; destruct sim_params0 as (Hcap & _).
      * destruct Hspec as (_ & _ & _ & _ & (-> & Hlt & Ha & Hrc & Hal) & _). destruct (decide _); [lia|]. simpl.
        destruct Hnew as (a' & t' & c0 & Hc0 & Heq & Hs). rewrite Ha, lookup_insert_eq in Hc0. injection Hc0 as <-.
        exists a', t'. split; [done|]. unfold set_count, count_of. simpl. rewrite lookup_insert_eq, insert_insert_eq.
        simpl. by rewrite Hrc, Hal in Hs.
      * destruct Hspec as [_ Hle]. destruct (decide _); [done|lia].
    + destruct (NewNode a key) as [a1 [i|]]; [|by destruct Hspec]. simpl.
      destruct Hspec as (_ & _ & _ & _ & (-> & Ha & Hrc & Hal) & _).
      destruct Hnew as (a' & t' & c0 & Hc0 & Heq & Hs). exists a', t'. split; [done|].
      unfold set_count, count_of. simpl. rewrite sim_counts0, <- Ha, Hc0. simpl. by rewrite Hrc, Hal in Hs.
Qed.

Lemma sim_deallocate a b t key : sim a b t →
  ∃ a' t', Deallocate a key = Some a' ∧ sim a' (book_deallocate b key) t'.
Proof.
  intros Hsim. unfold Deallocate, book_deallocate. rewrite (sim_find _ _ _ key Hsim). cbn [mbind option_bind].
  destruct (binding b !! key) as [i|] eqn:Hb; [|by exists a, t].
  destruct (sim_bound _ _ _ _ _ Hsim Hb) as (Hlt & c0 & Hc0).
  destruct (sim_set_count _ _ _ i c0 (c0 - 1) Hsim Hc0 Hlt) as (n & s1 & Hn & Hix & Hc & Hcount & Hu & Hsim1).
  rewrite Hn. cbn [mbind option_bind]. rewrite Hc, Hu, Hcount. cbn [mbind option_bind]. cbv zeta. destruct (c0 =? 0); [|by exists (set_store a s1), t].
  pose proof Hsim1 as []. pose proof sim_rep0 as (L & (_ & _ & Hroot) & _). rewrite Hroot.
  change (binding (set_count b i (c0 - 1))) with (binding b) in sim_binding0. rewrite sim_binding0 in Hb.
  destruct (RemoveNode_spec _ (fuel_of (set_store a s1)) key [] t (set_store a s1) sim_rep0 sim_ok0 sim_sorted0
    (ok_height _ _ sim_ok0) i Hb) as (s2 & t2 & Heq & Hr2 & Hin2).
  change (slot_of []) with SRoot in Heq. rewrite Heq. clear Heq. simpl in Hr2, Hin2. rewrite app_nil_r in Hin2.
  pose proof (rep_attrs _ _ _ Hr2) as Ha2. exists (given_back (set_store a s1) i s2), t2. split; [done|].
  split; simpl; rewrite ?Ha2; try done.
  - eapply ok_given_back; [by rewrite Ha2| |exact sim_ok0]. unfold ids. rewrite Hin2. by apply drop_perm.
  - rewrite Hin2. by apply ksorted_drop.
  - intros k. rewrite Hin2, find_key_drop. destruct (Z.eqb_spec key k) as [->|]; [by rewrite lookup_delete_eq|].
    rewrite lookup_delete_ne by done. apply sim_binding0.
  - simpl in sim_free0. by rewrite sim_free0.
Qed.

Lemma sim_run calls a b t : sim a b t →
  match book_run capacity base size b calls with
  | None => run a calls = None
  | Some (b', out) => ∃ a' t', run a calls = Some (a', out) ∧ sim a' b' t'
  end.
Proof.
  revert a b t. induction calls as [|[key|key] calls IH]; intros a b t Hsim; simpl; [by exists a, t|..].
  - pose proof (sim_allocate _ _ _ key Hsim) as H. destruct (book_allocate _ _ _ b key) as [[b1 x]|]; simpl; [|by rewrite H].
    destruct H as (a1 & t1 & -> & Hsim1). simpl. specialize (IH _ _ _ Hsim1).
    destruct (book_run _ _ _ b1 calls) as [[b2 out]|]; simpl; [|by rewrite IH].
    destruct IH as (a2 & t2 & -> & Hsim2). simpl. eauto.
  - destruct (sim_deallocate _ _ _ key Hsim) as (a1 & t1 & -> & Hsim1). simpl. by apply (IH _ _ _ Hsim1).
Qed.

Lemma sim_new : Z.of_nat capacity < 2 ^ 62 → sim (Alloc_new capacity base size) empty_book Leaf.
Proof.
  intros Hc. split; simpl; try done; [by exists ∅|split; simpl; try done; lia|constructor].
Qed.
End refinement.

(** ** The theorems *)

(** [C18] The tree in shared memory, with its rotations, its exchanges of nodes and its stack
    of reclaimed nodes, does what a map from keys to indices with a free list does: for every
    sequence of calls the same addresses are handed out, a null pointer is followed exactly
    where the map has no index left, and after it [FindNode] finds the index of every key. *)
Theorem allocator_refines_book capacity base size calls :
  Z.of_nat capacity < 2 ^ 62 →
  match book_run capacity base size empty_book calls with
  | None => run (Alloc_new capacity base size) calls = None
  | Some (b, out) =>
      ∃ a, run (Alloc_new capacity base size) calls = Some (a, out) ∧
        ∀ key, FindNode (fuel_of a) (store a) (root_ (store a)) key = Some (binding b !! key)
  end.
Proof.
  intros Hc. pose proof (sim_run capacity base size calls _ _ _ (sim_new capacity base size Hc)) as H.
  destruct (book_run _ _ _ _ calls) as [[b out]|]; [|done]. destruct H as (a & t & Hr & Hsim).
  exists a. split; [done|]. intros key. by eapply sim_find.
Qed.

Section apart.
Context (capacity : nat) (base size : Z).

Lemma sim_run_some calls a b t a' out : sim capacity base size a b t → run a calls = Some (a', out) →
  ∃ b' t', book_run capacity base size b calls = Some (b', out) ∧ sim capacity base size a' b' t'.
Proof.
  intros Hs Hr. pose proof (sim_run _ _ _ calls _ _ _ Hs) as H. destruct (book_run _ _ _ b calls) as [[b' out']|].
  - destruct H as (a'' & t' & Hr' & Hs'). simplify_eq. eauto.
  - by rewrite Hr in H.
Qed.

Lemma sim_allocate_some key a b t a' x : sim capacity base size a b t → Allocate a key = Some (a', x) →
  ∃ b' t', book_allocate capacity base size b key = Some (b', x) ∧ sim capacity base size a' b' t'.
Proof.
  intros Hs Hr. pose proof (sim_allocate _ _ _ _ _ _ key Hs) as H. destruct (book_allocate _ _ _ b key) as [[b' x']|].
  - destruct H as (a'' & t' & Hr' & Hs'). simplify_eq. eauto.
  - by rewrite Hr in H.
Qed.

(** An allocation binds its key, and leaves the other bindings alone. *)
Lemma book_allocate_binds b key b' x : book_allocate capacity base size b key = Some (b', x) →
  (∃ i, binding b' !! key = Some i ∧ x = u64 (base + size * Z.of_nat i)) ∧
  ∀ k i, binding b !! k = Some i → binding b' !! k = Some i.
Proof.
  unfold book_allocate. destruct (binding b !! key) as [i|] eqn:Hb.
  { intros [= <- <-]. split; [by exists i|done]. }
  assert (∀ j k i, binding b !! k = Some i → <[key := j]> (binding b) !! k = Some i) as Hins.
  { intros j k i Hk. rewrite lookup_insert_ne; [done|]. congruence. }
  destruct (free_ b) as [|j fr]; [destruct (decide _); [done|]|];
    (intros [= <- <-]; simpl; split; [eexists; split; [apply lookup_insert_eq|done]|apply Hins]).
Qed.

Lemma book_deallocate_keeps b key k : key ≠ k → binding (book_deallocate b key) !! k = binding b !! k.
Proof.
  intros Hk. unfold book_deallocate. destruct (binding b !! key); [|done]. destruct (_ =? 0); [|done].
  simpl. by rewrite lookup_delete_ne.
Qed.

Lemma book_run_keeps calls b b' out k i : CDeallocate k ∉ calls →
  book_run capacity base size b calls = Some (b', out) → binding b !! k = Some i → binding b' !! k = Some i.
Proof.
  revert b out. induction calls as [|[key|key] calls IH]; intros b out Hno Hr Hk; simpl in Hr; [by simplify_eq| |].
  - destruct (book_allocate _ _ _ b key) as [[b1 x]|] eqn:Ha; [|done]. simpl in Hr.
    destruct (book_run _ _ _ b1 calls) as [[b2 out2]|] eqn:Hr2; [|done]. simplify_eq/=.
    eapply IH; [set_solver|done|]. by apply (book_allocate_binds _ _ _ _ Ha).
  - eapply IH; [set_solver|done|]. rewrite book_deallocate_keeps; [done|]. set_solver.
Qed.

(** Bound indices are in the array, one key each. *)
Lemma sim_distinct a b t k1 k2 i1 i2 : sim capacity base size a b t → binding b !! k1 = Some i1 →
  binding b !! k2 = Some i2 → (i1 < capacity)%nat ∧ (i2 < capacity)%nat ∧ (k1 = k2 ↔ i1 = i2).
Proof.
  intros Hs H1 H2. destruct (sim_bound _ _ _ _ _ _ _ _ Hs H1) as (Hlt1 & _).
  destruct (sim_bound _ _ _ _ _ _ _ _ Hs H2) as (Hlt2 & _). destruct Hs. pose proof (ok_capacity _ _ sim_ok0).
  destruct sim_params0 as (<- & _). split_and!; [lia..|]. split; [congruence|]. intros ->.
  rewrite sim_binding0 in H1, H2. apply find_key_in in H1, H2. pose proof (ok_nodup _ _ sim_ok0) as Hnd.
  unfold ids in Hnd. apply list_elem_of_lookup in H1 as [j1 Hj1], H2 as [j2 Hj2].
  assert (j1 = j2) as ->; [|congruence].
  eapply NoDup_lookup; [exact Hnd|..]; by rewrite list_lookup_fmap, ?Hj1, ?Hj2.
Qed.
End apart.

(** [C19] A range of addresses that was handed out lies in the arena and is not shared: until
    the key is deallocated, an allocation of the same key, in any process, gets the same
    address, and one of another key gets a range apart from it. *)
Theorem arena_ranges_apart capacity base size before between k1 k2 a0 a1 a2 a3 out0 out2 x y :
  Z.of_nat capacity < 2 ^ 62 → 0 ≤ base → 0 < size → base + size * Z.of_nat capacity < 2 ^ 64 →
  run (Alloc_new capacity base size) before = Some (a0, out0) → Allocate a0 k1 = Some (a1, x) →
  run a1 between = Some (a2, out2) → CDeallocate k1 ∉ between → Allocate a2 k2 = Some (a3, y) →
  base ≤ x ∧ x + size ≤ base + size * Z.of_nat capacity ∧
  (k1 = k2 → x = y) ∧ (k1 ≠ k2 → x + size ≤ y ∨ y + size ≤ x).
Proof.
  intros Hc Hb Hs Hfit H0 H1 H2 Hno H3.
  destruct (sim_run_some _ _ _ _ _ _ _ _ _ (sim_new capacity base size Hc) H0) as (b0 & t0 & _ & Hs0).
  destruct (sim_allocate_some _ _ _ _ _ _ _ _ _ Hs0 H1) as (b1 & t1 & Ha1 & Hs1).
  destruct (sim_run_some _ _ _ _ _ _ _ _ _ Hs1 H2) as (b2 & t2 & Hr2 & Hs2).
  destruct (sim_allocate_some _ _ _ _ _ _ _ _ _ Hs2 H3) as (b3 & t3 & Ha3 & Hs3).
  destruct (book_allocate_binds _ _ _ _ _ _ _ Ha1) as ((i & Hi & ->) & _).
  destruct (book_allocate_binds _ _ _ _ _ _ _ Ha3) as ((j & Hj & ->) & Hkeep).
  pose proof (book_run_keeps _ _ _ _ _ _ _ _ _ Hno Hr2 Hi) as Hi2. apply Hkeep in Hi2.
  destruct (sim_distinct _ _ _ _ _ _ _ _ _ _ Hs3 Hi2 Hj) as (Hi3 & Hj3 & Hij).
  rewrite !u64_small by (unfold is_u64; nia).
  split_and!; [nia|nia|intros ->; by rewrite (proj1 Hij)|]. intros Hne.
  assert (i ≠ j) by tauto. nia.
Qed.

(** *** What balanced calls leave behind *)

Definition used_once (ks : list Z) : list Call := flat_map (λ k, [CAllocate k; CDeallocate k]) ks.

Lemma book_run_app capacity base size b l1 l2 :
  book_run capacity base size b (l1 ++ l2) =
  ('(b1, o1) ← book_run capacity base size b l1; '(b2, o2) ← book_run capacity base size b1 l2; Some (b2, o1 ++ o2)).
Proof.
  revert b. induction l1 as [|[k|k] l1 IH]; intros b; simpl.
  - by destruct (book_run _ _ _ b l2) as [[]|].
  - destruct (book_allocate _ _ _ b k) as [[b1 x]|]; [|done]. simpl. rewrite IH.
    destruct (book_run _ _ _ b1 l1) as [[b2 o]|]; [|done]. simpl. by destruct (book_run _ _ _ b2 l2) as [[]|].
  - apply IH.
Qed.

Lemma book_used_once capacity base size ks b : free_ b = [] → NoDup ks → (∀ k, k ∈ ks → binding b !! k = None) →
  (next_ b + length ks ≤ capacity)%nat →
  ∃ b' out, book_run capacity base size b (used_once ks) = Some (b', out) ∧ free_ b' = [] ∧
    next_ b' = (next_ b + length ks)%nat ∧ ∀ k, k ∉ ks → binding b' !! k = binding b !! k.
Proof.
  revert b. induction ks as [|k ks IH]; intros b Hf Hnd Hno Hle; simpl in *.
  { exists b, []. by rewrite Nat.add_0_r. }
  apply NoDup_cons in Hnd as [Hk Hnd]. unfold book_allocate. rewrite (Hno k), Hf by set_solver.
  destruct (decide _); [lia|]. simpl. unfold book_deallocate, set_count, count_of. simpl.
  repeat (rewrite lookup_insert_eq; simpl).
  set (b1 := mkBook _ _ _ _). destruct (IH b1) as (b' & out & Hr & Hf' & Hn' & Hb'); simpl; [done|done| |lia|].
  { intros k' Hk'. rewrite lookup_insert_ne by set_solver. apply Hno. set_solver. }
  setoid_rewrite Hr. simpl. eexists _, _. split; [done|]. split_and!; [done|rewrite Hn'; simpl; lia|].
  intros k' Hk'. rewrite Hb' by set_solver. simpl. rewrite lookup_insert_ne; [done|]. set_solver.
Qed.

(** A key allocated once and deallocated once keeps its node, since [Deallocate] removes
    a node whose count was zero before it is taken down: after as many keys as there are nodes,
    each used and given back, the next key follows a null pointer. *)
Theorem balanced_calls_leak capacity base size ks k :
  Z.of_nat capacity < 2 ^ 62 → NoDup ks → length ks = capacity → k ∉ ks →
  is_Some (run (Alloc_new capacity base size) (used_once ks)) ∧
  run (Alloc_new capacity base size) (used_once ks ++ [CAllocate k]) = None.
Proof.
  intros Hc Hnd Hlen Hk. pose proof (λ l, sim_run capacity base size l _ _ _ (sim_new capacity base size Hc)) as Hrun.
  destruct (book_used_once capacity base size ks empty_book) as (b & out & Hr & Hf & Hn & Hb);
    [done|done|done|simpl; lia|]. split.
  - specialize (Hrun (used_once ks)). rewrite Hr in Hrun. destruct Hrun as (a & t & -> & _). done.
  - specialize (Hrun (used_once ks ++ [CAllocate k])). rewrite book_run_app, Hr in Hrun. simpl in Hrun.
    unfold book_allocate in Hrun. rewrite Hb, Hf, Hn in Hrun by done. simpl in Hrun.
    destruct (decide _); [done|lia].
Qed.

(** ** Examples *)

(** The arena of the code: 1024 segments of two gigabytes. *)
Definition arena : Alloc := Alloc_new 1024 0x710000000000 0x80000000.

Definition busy_calls : list Call :=
  map CAllocate [5; 2; 8; 1; 3; 7; 9; 4; 6] ++ map CDeallocate [5; 5; 5] ++ [CDeallocate 8; CDeallocate 8; CAllocate 12; CAllocate 5].

Lemma allocator_refines_book_witness :
  Z.of_nat 1024 < 2 ^ 62 ∧
  match book_run 1024 0x710000000000 0x80000000 empty_book busy_calls with
  | None => run (Alloc_new 1024 0x710000000000 0x80000000) busy_calls = None
  | Some (b, out) =>
      ∃ a, run (Alloc_new 1024 0x710000000000 0x80000000) busy_calls = Some (a, out) ∧
        ∀ key, FindNode (fuel_of a) (store a) (root_ (store a)) key = Some (binding b !! key)
  end.
Proof. split; [lia|]. apply (allocator_refines_book 1024 0x710000000000 0x80000000 busy_calls). lia. Defined.

(** Keys 5 and 8, given back twice, leave their ranges: 12 gets that of 8, and 5 its own again. *)
Example busy_addresses :
  snd <$> run arena busy_calls =
    Some (map (λ i, 0x710000000000 + 0x80000000 * i) [0; 1; 2; 3; 4; 5; 6; 7; 8; 2; 0]).
Proof. vm_compute. reflexivity. Qed.

Lemma arena_ranges_apart_witness :
  ∃ a1 a2 a3 x y, Allocate arena 5 = Some (a1, x) ∧ run a1 [CAllocate 8; CDeallocate 8] = Some (a2, [x + 2147483648]) ∧
    Allocate a2 9 = Some (a3, y) ∧ (x + 2147483648 ≤ y ∨ y + 2147483648 ≤ x).
Proof.
  eexists _, _, _, _, _. split; [vm_compute; reflexivity|]. split; [vm_compute; reflexivity|].
  split; [vm_compute; reflexivity|].
  eapply (arena_ranges_apart 1024 0x710000000000 2147483648 [] [CAllocate 8; CDeallocate 8] 5 9);
    try (vm_compute; reflexivity); try lia; try (vm_compute; discriminate). set_solver.
Defined.

Lemma balanced_calls_leak_witness :
  length [10; 20; 30] = 3%nat ∧ run (Alloc_new 3 0 1) (used_once [10; 20; 30] ++ [CAllocate 40]) = None.
Proof.
  split; [done|]. apply (balanced_calls_leak 3 0 1 [10; 20; 30] 40); [lia|by repeat constructor; set_solver|done|set_solver].
Defined.

(** The deallocation that the code does not make would have given the node back. *)
Example second_deallocation_frees :
  run (Alloc_new 1 0 1) [CAllocate 1; CDeallocate 1; CDeallocate 1; CAllocate 2] ≠ None.
Proof. vm_compute. discriminate. Qed.
