(* ===== verification/Time.v ===== *)
(** * Time, durations, rates and the clock (cyber/time)

    [Time] is an unsigned and [Duration] a signed 64-bit number of nanoseconds; the
    operations mix them with C++'s conversions.  Overflow of the signed type is
    undefined, so the operations of [Duration] return [None] there.  The conversions to
    and from double and the printing are not modelled.  What the operating system's
    clock shows is an argument. *)

From stdpp Require Import base numbers list.
From Stdlib Require Import ZArith Lia.
From S2P Require Import Prelude.

(** ** Time and Duration *)

(** [nanoseconds_] of a [Time] and of a [Duration]. *)
Definition Time := Z.
Definition Duration := Z.

Definition Time_MAX : Time := 2 ^ 64 - 1.
Definition Time_MIN : Time := 0.
Definition Time_of_int (nanoseconds : Z) : Time := u64 nanoseconds.
Definition Time_of_parts (seconds nanoseconds : Z) : Time := u64 (u64 (seconds * 1000000000) + nanoseconds).
Definition Duration_of_parts (seconds nanoseconds : Z) : Duration :=
  i64 (u64 (u64 (seconds * 1000000000) + nanoseconds)).

(** The signed operations: [None] when the result does not fit. *)
Definition signed (z : Z) : option Duration :=
  if ((- 2 ^ 63 <=? z) && (z <? 2 ^ 63))%bool then Some z else None.
Definition Duration_add (d e : Duration) : option Duration := signed (d + e).
Definition Duration_sub (d e : Duration) : option Duration := signed (d - e).
Definition Duration_neg (d : Duration) : option Duration := signed (- d).

(** [Time - Time], [Time + Duration] and [Time - Duration]: in unsigned arithmetic. *)
Definition Time_diff (t u : Time) : Duration := i64 (u64 (t - u)).
Definition Time_add (t : Time) (d : Duration) : Time := u64 (t + u64 d).
Definition Time_sub (t : Time) (d : Duration) : Time := u64 (t - u64 d).

(** ** Rate *)

Record Rate := mkRate { start_ : Time; expected_cycle_time_ : Duration; actual_cycle_time_ : Duration }.

(** [Rate(d)], built when the clock shows [now]. *)
Definition Rate_new (now : Time) (d : Duration) : Rate := mkRate now d 0.
(** [Rate(uint64_t nanoseconds)]. *)
Definition Rate_of_nanoseconds (now : Time) (nanoseconds : Z) : Rate := mkRate now (i64 nanoseconds) 0.

(** [Sleep()] called when the clock shows [now]: the time slept until, if it sleeps. *)
Definition Rate_Sleep (r : Rate) (now : Time) : Rate * option Time :=
  let expected_end := Time_add (start_ r) (expected_cycle_time_ r) in
  let actual_end := now in
  let expected_end :=
    if actual_end <? start_ r then Time_add actual_end (expected_cycle_time_ r) else expected_end in
  let sleep_time := Time_diff expected_end actual_end in
  let actual_cycle_time := Time_diff actual_end (start_ r) in
  let start := expected_end in
  if sleep_time <? 0 then
    (mkRate (if Time_add expected_end (expected_cycle_time_ r) <? actual_end then actual_end else start)
       (expected_cycle_time_ r) actual_cycle_time, None)
  else (mkRate start (expected_cycle_time_ r) actual_cycle_time, Some expected_end).

Definition Rate_Reset (r : Rate) (now : Time) : Rate :=
  mkRate now (expected_cycle_time_ r) (actual_cycle_time_ r).
Definition CycleTime (r : Rate) : Duration := actual_cycle_time_ r.

(** A client's loop: work for some time, then [Sleep()]; the times the calls return,
    the system waking the thread at the time asked for. *)
Fixpoint rate_loop (r : Rate) (now : Time) (work : list Z) : list Time :=
  match work with
  | [] => []
  | w :: work =>
      let '(r, slept) := Rate_Sleep r (now + w) in
      let now := match slept with Some t => t | None => now + w end in
      now :: rate_loop r now work
  end.

(** ** Clock *)

(** [ClockMode]'s values; the field can hold others. *)
Definition MODE_CYBER : Z := 0.
Definition MODE_MOCK : Z := 1.

Record Clock := mkClock { mode_ : Z; mock_now_ : Time }.
Definition Clock_new (clock_mode : Z) : Clock := mkClock clock_mode 0.

(** [Now()] when the system's clock shows [sys]: [None] where it aborts. *)
Definition Clock_Now (c : Clock) (sys : Time) : option Time :=
  if mode_ c =? MODE_CYBER then Some sys
  else if mode_ c =? MODE_MOCK then Some (mock_now_ c)
  else None.

Definition Clock_SetMode (c : Clock) (mode : Z) : Clock :=
  let mode' :=
    if mode =? MODE_MOCK then mode else if mode =? MODE_CYBER then mode else mode_ c in
  mkClock mode' 0.

Definition Clock_SetNow (c : Clock) (now : Time) : Clock :=
  if negb (mode_ c =? MODE_MOCK) then c else mkClock (mode_ c) now.

Inductive ClockOp := OSetMode (mode : Z) | OSetNow (now : Time).
Definition clock_op (c : Clock) (o : ClockOp) : Clock :=
  match o with OSetMode m => Clock_SetMode c m | OSetNow t => Clock_SetNow c t end.

(** ** Arithmetic *)

Lemma u64_add_l a b : u64 (u64 a + b) = u64 (a + b).
Proof. unfold u64. apply Z.add_mod_idemp_l. lia. Qed.
Lemma u64_add_r a b : u64 (a + u64 b) = u64 (a + b).
Proof. unfold u64. apply Z.add_mod_idemp_r. lia. Qed.
Lemma u64_sub_l a b : u64 (u64 a - b) = u64 (a - b).
Proof. unfold u64. apply Zminus_mod_idemp_l. Qed.
Lemma u64_sub_r a b : u64 (a - u64 b) = u64 (a - b).
Proof. unfold u64. apply Zminus_mod_idemp_r. Qed.
Lemma u64_i64 a : u64 (i64 a) = u64 a.
Proof.
  unfold u64, i64. rewrite Zminus_mod_idemp_l. f_equal. lia.
Qed.
Lemma i64_u64 a : i64 (u64 a) = i64 a.
Proof. unfold u64, i64. rewrite Z.add_mod_idemp_l by lia. done. Qed.

(** Times and durations as they are, where nothing wraps. *)
Lemma Time_diff_small t u : is_i64 (t - u) → Time_diff t u = t - u.
Proof. intros H. unfold Time_diff. rewrite i64_u64. by apply i64_small. Qed.
Lemma Time_add_small t d : is_u64 (t + d) → Time_add t d = t + d.
Proof. intros H. unfold Time_add. rewrite u64_add_r. by apply u64_small. Qed.

(** Times and durations form an affine line of [2 ^ 64] points: moving a time by a
    duration and back, the difference of a moved time, moving by a difference, and two
    moves in a row come out exactly, wherever the unsigned operations wrap; a pair of
    seconds and nanoseconds never wraps. *)
Theorem time_duration_affine (t u : Time) (d e : Duration) :
  is_u64 t → is_u64 u → is_i64 d → is_i64 e →
  Time_diff (Time_add t d) t = d ∧
  Time_add u (Time_diff t u) = t ∧
  Time_sub (Time_add t d) d = t ∧
  (∀ f, Duration_add d e = Some f → Time_add (Time_add t d) e = Time_add t f) ∧
  (∀ s n, is_u32 s → is_u32 n → Time_of_parts s n = s * 1000000000 + n ∧
                                Duration_of_parts s n = Time_of_parts s n).
Proof.
  intros Ht Hu Hd He. unfold Time_diff, Time_add, Time_sub, Time_of_parts, Duration_of_parts.
  split_and!.
  - rewrite u64_add_r, u64_sub_l, i64_u64. replace (t + d - t) with d by lia. by apply i64_small.
  - rewrite u64_i64, !u64_add_r. replace (u + (t - u)) with t by lia. by apply u64_small.
  - rewrite u64_add_r, u64_sub_r, u64_sub_l. replace (t + d - d) with t by lia. by apply u64_small.
  - intros f. unfold Duration_add, signed. case_match; [|done]. intros [= <-].
    rewrite !u64_add_r, u64_add_l. f_equal. lia.
  - intros s n Hs Hn. unfold is_u32 in *. rewrite u64_add_l, i64_u64, u64_small, i64_small by (unfold is_u64, is_i64; lia). done.
Qed.

Lemma time_duration_affine_witness :
  Time_diff (Time_add (2 ^ 64 - 1) 5) (2 ^ 64 - 1) = 5.
Proof.
  apply (time_duration_affine (2 ^ 64 - 1) 3 5 (-7)); unfold is_u64, is_i64; lia.
Defined.

(** ** Rates *)

(** What [Sleep()] does, while nothing wraps. *)
Lemma Rate_Sleep_spec s c a now :
  0 <= s < 2 ^ 61 → 0 <= c < 2 ^ 61 → 0 <= now < 2 ^ 61 →
  Rate_Sleep (mkRate s c a) now =
  if now <? s then (mkRate (now + c) c (now - s), Some (now + c))
  else if now <=? s + c then (mkRate (s + c) c (now - s), Some (s + c))
  else (mkRate (if now <=? s + c + c then s + c else now) c (now - s), None).
Proof.
  intros Hs Hc Hn. unfold Rate_Sleep. cbn [start_ expected_cycle_time_].
  rewrite (Time_add_small s c), (Time_add_small now c), (Time_diff_small now s)
    by (unfold is_u64, is_i64; lia).
  destruct (now <? s) eqn:E1; zbool.
  - rewrite Time_diff_small by (unfold is_i64; lia).
    by replace (now + c - now <? 0) with false by (symmetry; apply Z.ltb_ge; lia).
  - rewrite Time_diff_small by (unfold is_i64; lia).
    rewrite Time_add_small by (unfold is_u64; lia).
    destruct (now <=? s + c) eqn:E2; zbool.
    + by replace (s + c - now <? 0) with false by (symmetry; apply Z.ltb_ge; lia).
    + replace (s + c - now <? 0) with true by (symmetry; apply Z.ltb_lt; lia).
      destruct (now <=? s + c + c) eqn:E3, (s + c + c <? now) eqn:E4; zbool; done || lia.
Qed.

(** The ideal times: each iteration ends on its point of the grid, or when its work is
    done if that is later. *)
Fixpoint ideal (g c now : Z) (work : list Z) : list Z :=
  match work with
  | [] => []
  | w :: work => let now := (now + w) `max` (g + c) in now :: ideal (g + c) c now work
  end.

(** No iteration ends more than one cycle behind its point. *)
Fixpoint within_a_cycle (g c now : Z) (work : list Z) : bool :=
  match work with
  | [] => true
  | w :: work =>
      ((0 <=? w) && (now + w <=? g + c + c) &&
       within_a_cycle (g + c) c ((now + w) `max` (g + c)) work)%bool
  end.

Lemma rate_loop_ideal work g c a now :
  0 <= g → g <= now → 0 < c → now <= g + c →
  g + c * (Z.of_nat (length work) + 2) < 2 ^ 61 →
  within_a_cycle g c now work = true →
  rate_loop (mkRate g c a) now work = ideal g c now work.
Proof.
  revert g a now. induction work as [|w work IH]; intros g a now Hg Hgn Hc Hl Hb Hw; [done|].
  cbn in Hw. zbool. cbn [length] in Hb. cbn [rate_loop ideal].
  rewrite Rate_Sleep_spec by nia. replace (now + w <? g) with false by (symmetry; apply Z.ltb_ge; lia).
  destruct (now + w <=? g + c) eqn:E; zbool.
  - rewrite Z.max_r in * by lia. f_equal. apply IH; try lia. done.
  - rewrite Z.max_l in * by lia. replace (now + w <=? g + c + c) with true by (symmetry; apply Z.leb_le; lia).
    f_equal. apply IH; try lia. done.
Qed.

Lemma ideal_prompt work g c :
  0 <= c → Forall (λ w, 0 <= w <= c) work →
  ideal g c g work = (λ k, g + c * Z.of_nat k) <$> seq 1 (length work) ∧
  within_a_cycle g c g work = true.
Proof.
  intros Hc Hw. revert g. induction Hw as [|w work Hw0 Hw IH]; intros g; [done|].
  cbn [ideal within_a_cycle length seq]. rewrite Z.max_r by lia. destruct (IH (g + c)) as [-> ->].
  split.
  - cbn. f_equal; [lia|]. rewrite <- (fmap_S_seq 1), <- list_fmap_compose. apply list_fmap_ext. intros i k _. cbn. lia.
  - rewrite andb_true_r. apply andb_true_iff. split; apply Z.leb_le; lia.
Qed.

(** A loop paced by a [Rate] does not drift: as long as no iteration ends more than
    one cycle behind its point of the grid, every [Sleep()] returns at its point, or as
    soon as the work is done when that is later, and later iterations catch up; when the
    work always fits a cycle the returns are exactly the points of the grid. *)
Theorem rate_keeps_grid (g : Time) (c : Duration) (work : list Z) :
  0 <= g → 0 < c → g + c * (Z.of_nat (length work) + 2) < 2 ^ 61 →
  (within_a_cycle g c g work = true → rate_loop (Rate_new g c) g work = ideal g c g work) ∧
  (Forall (λ w, 0 <= w <= c) work →
   rate_loop (Rate_new g c) g work = (λ k, g + c * Z.of_nat k) <$> seq 1 (length work)).
Proof.
  intros Hg Hc Hb. split.
  - intros Hw. apply rate_loop_ideal; lia || done.
  - intros Hw. destruct (ideal_prompt work g c ltac:(lia) Hw) as [<- Hi].
    apply rate_loop_ideal; lia || done.
Qed.

Lemma rate_keeps_grid_witness :
  rate_loop (Rate_new 1000 100) 1000 [30; 150; 20; 90] = [1100; 1250; 1300; 1400] ∧
  rate_loop (Rate_new 1000 100) 1000 [30; 100] = [1100; 1200].
Proof.
  split.
  - apply (rate_keeps_grid 1000 100 [30; 150; 20; 90]); [lia|lia|cbn; lia|reflexivity].
  - apply (rate_keeps_grid 1000 100 [30; 100]); [lia|lia|cbn; lia|]. repeat constructor; lia.
Defined.

(** A loop that fell more than a cycle behind starts a new grid where it is. *)
Example rate_resets : rate_loop (Rate_new 1000 100) 1000 [30; 250; 20] = [1100; 1350; 1450].
Proof. reflexivity. Qed.

(** ** The clock *)

(** The mock time and the mode that a history of calls leaves, newest call first. *)
Fixpoint last_mode (m0 : Z) (h : list ClockOp) : Z :=
  match h with
  | [] => m0
  | OSetMode m :: h => if bool_decide (m = MODE_MOCK ∨ m = MODE_CYBER) then m else last_mode m0 h
  | OSetNow _ :: h => last_mode m0 h
  end.
Definition last_mock (m0 : Z) (h : list ClockOp) : Time :=
  match h with
  | [] => 0
  | OSetMode _ :: _ => 0
  | OSetNow t :: h => if bool_decide (last_mode m0 h = MODE_MOCK) then t else 0
  end.

Lemma clock_history m0 h :
  let c := foldr (λ o c, clock_op c o) (Clock_new m0) h in
  mode_ c = last_mode m0 h ∧ (mode_ c = MODE_MOCK → mock_now_ c = last_mock m0 h).
Proof.
  unfold MODE_MOCK, MODE_CYBER. induction h as [|o h IH]; [done|]. destruct IH as [Hm Hn].
  cbn [foldr]. set (c := foldr _ _ h) in *. destruct o as [m|t]; cbn.
  - split; [|done]. rewrite Hm. unfold MODE_MOCK, MODE_CYBER. case_bool_decide as E.
    + destruct E as [-> | ->]; done.
    + destruct (Z.eqb_spec m 1), (Z.eqb_spec m 0); done || (exfalso; tauto).
  - unfold Clock_SetNow, MODE_MOCK. rewrite Hm. destruct (Z.eqb_spec (last_mode m0 h) 1) as [E|E]; cbn.
    + split; [done|]. intros _. by rewrite bool_decide_eq_true_2.
    + rewrite Hm. split; [done|]. intros; lia.
Qed.

(** After any calls of [SetMode] and [SetNow], [Now()] is the system's time in the
    mode MODE_CYBER and, in MODE_MOCK, the time of the last [SetNow] if no [SetMode] came
    after it and zero otherwise; an unknown mode leaves the mode but resets the mock time. *)
Theorem clock_now (m0 : Z) (h : list ClockOp) (sys : Time) :
  Clock_Now (foldr (λ o c, clock_op c o) (Clock_new m0) h) sys =
  if decide (last_mode m0 h = MODE_CYBER) then Some sys
  else if decide (last_mode m0 h = MODE_MOCK) then Some (last_mock m0 h)
  else None.
Proof.
  destruct (clock_history m0 h) as [Hm Hn]. set (c := foldr _ _ h) in *. unfold Clock_Now. rewrite Hm in *.
  repeat case_decide; destruct (Z.eqb_spec (last_mode m0 h) MODE_CYBER), (Z.eqb_spec (last_mode m0 h) MODE_MOCK);
    try done. by rewrite Hn.
Qed.
