(* ===== verification/Blocker.v ===== *)
(** * Blockers and intra-process readers and writers (cyber/blocker)

    A blocker keeps the last messages of one channel in the process; readers look at the
    snapshot taken by the last [Observe()].  The manager holds one blocker per channel,
    created by whoever mentions the channel first.  Messages are pointers, message types
    and callbacks are numbers; the calls of callbacks are returned in the order of the
    map, which the code leaves open. *)

From stdpp Require Import base numbers list gmap strings.
From Stdlib Require Import ZArith Lia.
From S2P Require Import Prelude.

Open Scope nat_scope.

(** A message, by its address. *)
Definition Msg := nat.

(** ** Blocker *)

Record Blocker := mkBlocker {
  capacity_ : nat;
  observed_msg_queue_ : list Msg;
  published_msg_queue_ : list Msg;
  published_callbacks_ : gmap string nat
}.

Definition Blocker_new (capacity : nat) : Blocker := mkBlocker capacity [] [] ∅.

(** [while (queue.size() > capacity) queue.pop_back()]: removes from the back. *)
Fixpoint pop_back_while (n : nat) (capacity : nat) (q : list Msg) : list Msg :=
  match n with
  | O => q
  | S n => if decide (capacity < length q) then pop_back_while n capacity (take (pred (length q)) q) else q
  end.

Definition Enqueue (b : Blocker) (msg : Msg) : Blocker :=
  if decide (capacity_ b = 0) then b
  else
    let q := msg :: published_msg_queue_ b in
    mkBlocker (capacity_ b) (observed_msg_queue_ b) (pop_back_while (length q) (capacity_ b) q)
      (published_callbacks_ b).

(** The calls made: callback id, callback and message. *)
Definition Notify (b : Blocker) (msg : Msg) : list (string * nat * Msg) :=
  (λ '(callback_id, callback), (callback_id, callback, msg)) <$> map_to_list (published_callbacks_ b).

Definition Publish (b : Blocker) (msg : Msg) : Blocker * list (string * nat * Msg) :=
  let b := Enqueue b msg in (b, Notify b msg).

Definition Blocker_Reset (b : Blocker) : Blocker := mkBlocker (capacity_ b) [] [] ∅.
Definition ClearObserved (b : Blocker) : Blocker :=
  mkBlocker (capacity_ b) [] (published_msg_queue_ b) (published_callbacks_ b).
Definition ClearPublished (b : Blocker) : Blocker :=
  mkBlocker (capacity_ b) (observed_msg_queue_ b) [] (published_callbacks_ b).
Definition Observe (b : Blocker) : Blocker :=
  mkBlocker (capacity_ b) (published_msg_queue_ b) (published_msg_queue_ b) (published_callbacks_ b).
Definition IsObservedEmpty (b : Blocker) : bool := bool_decide (observed_msg_queue_ b = []).
Definition IsPublishedEmpty (b : Blocker) : bool := bool_decide (published_msg_queue_ b = []).

Definition Subscribe (b : Blocker) (callback_id : string) (callback : nat) : Blocker * bool :=
  match published_callbacks_ b !! callback_id with
  | Some _ => (b, false)
  | None => (mkBlocker (capacity_ b) (observed_msg_queue_ b) (published_msg_queue_ b)
               (<[callback_id := callback]> (published_callbacks_ b)), true)
  end.

Definition Unsubscribe (b : Blocker) (callback_id : string) : Blocker * bool :=
  (mkBlocker (capacity_ b) (observed_msg_queue_ b) (published_msg_queue_ b)
     (delete callback_id (published_callbacks_ b)),
   bool_decide (is_Some (published_callbacks_ b !! callback_id))).

Definition GetLatestObservedPtr (b : Blocker) : option Msg := head (observed_msg_queue_ b).
Definition GetOldestObservedPtr (b : Blocker) : option Msg := last (observed_msg_queue_ b).
Definition GetLatestPublishedPtr (b : Blocker) : option Msg := head (published_msg_queue_ b).

Definition set_capacity (b : Blocker) (capacity : nat) : Blocker :=
  mkBlocker capacity (observed_msg_queue_ b)
    (pop_back_while (length (published_msg_queue_ b)) capacity (published_msg_queue_ b))
    (published_callbacks_ b).

(** ** BlockerManager *)

(** [blockers_]: each blocker with the message type it was made for. *)
Abbreviation BlockerManager := (gmap string (nat * Blocker)).

(** [GetBlocker<T>]: the dynamic cast gives null for another type. *)
Definition GetBlocker (m : BlockerManager) (T : nat) (channel_name : string) : option Blocker :=
  '(T', b) ← m !! channel_name; if decide (T' = T) then Some b else None.

(** [GetOrCreateBlocker<T>(BlockerAttr(capacity, channel_name))]. *)
Definition GetOrCreateBlocker (m : BlockerManager) (T capacity : nat) (channel_name : string)
  : BlockerManager * option Blocker :=
  match m !! channel_name with
  | Some _ => (m, GetBlocker m T channel_name)
  | None => let b := Blocker_new capacity in (<[channel_name := (T, b)]> m, Some b)
  end.

(** [BlockerAttr(channel_name)]'s capacity. *)
Definition default_capacity : nat := 10.

Definition Manager_Publish (m : BlockerManager) (T : nat) (channel_name : string) (msg : Msg)
  : BlockerManager * bool * list (string * nat * Msg) :=
  match GetOrCreateBlocker m T default_capacity channel_name with
  | (m, None) => (m, false, [])
  | (m, Some b) => let '(b, calls) := Publish b msg in (<[channel_name := (T, b)]> m, true, calls)
  end.

Definition Manager_Subscribe (m : BlockerManager) (T : nat) (channel_name : string) (capacity : nat)
    (callback_id : string) (callback : nat) : BlockerManager * bool :=
  match GetOrCreateBlocker m T capacity channel_name with
  | (m, None) => (m, false)
  | (m, Some b) =>
      let '(b, ok) := Subscribe b callback_id callback in (<[channel_name := (T, b)]> m, ok)
  end.

Definition Manager_Unsubscribe (m : BlockerManager) (T : nat) (channel_name callback_id : string)
  : BlockerManager * bool :=
  match GetBlocker m T channel_name with
  | None => (m, false)
  | Some b => let '(b, ok) := Unsubscribe b callback_id in (<[channel_name := (T, b)]> m, ok)
  end.

Definition Manager_Observe (m : BlockerManager) : BlockerManager :=
  (λ '(T, b), (T, Observe b)) <$> m.
(** [Reset()]: the blockers are emptied, for those who still hold them, and forgotten. *)
Definition Manager_Reset (m : BlockerManager) : BlockerManager := ∅.

(** An update of the channel's blocker through [GetBlocker]. *)
Definition with_blocker (m : BlockerManager) (T : nat) (channel_name : string) (f : Blocker → Blocker)
  : BlockerManager :=
  match GetBlocker m T channel_name with
  | Some b => <[channel_name := (T, f b)]> m
  | None => m
  end.

(** ** IntraReader and IntraWriter *)

Record IntraReader := mkReader {
  r_T : nat; r_channel_name : string; r_depth : nat; r_node_name : string; r_init_ : bool; r_callback : nat
}.
Definition set_r_init (r : IntraReader) (i : bool) : IntraReader :=
  mkReader (r_T r) (r_channel_name r) (r_depth r) (r_node_name r) i (r_callback r).

Definition Reader_Init (r : IntraReader) (m : BlockerManager) : IntraReader * BlockerManager * bool :=
  if r_init_ r then (r, m, true)
  else
    let '(m, ok) := Manager_Subscribe m (r_T r) (r_channel_name r) (r_depth r) (r_node_name r) (r_callback r) in
    (set_r_init r true, m, ok).

Definition Reader_Shutdown (r : IntraReader) (m : BlockerManager) : IntraReader * BlockerManager :=
  if negb (r_init_ r) then (r, m)
  else (set_r_init r false, (Manager_Unsubscribe m (r_T r) (r_channel_name r) (r_node_name r)).1).

Definition Reader_ClearData (r : IntraReader) (m : BlockerManager) : BlockerManager :=
  with_blocker m (r_T r) (r_channel_name r) (λ b, ClearPublished (ClearObserved b)).
Definition Reader_Observe (r : IntraReader) (m : BlockerManager) : BlockerManager :=
  with_blocker m (r_T r) (r_channel_name r) Observe.
Definition Reader_SetHistoryDepth (r : IntraReader) (depth : nat) (m : BlockerManager) : BlockerManager :=
  with_blocker m (r_T r) (r_channel_name r) (λ b, set_capacity b depth).
Definition Reader_Enqueue (r : IntraReader) (msg : Msg) (m : BlockerManager)
  : BlockerManager * list (string * nat * Msg) :=
  let '(m, _, calls) := Manager_Publish m (r_T r) (r_channel_name r) msg in (m, calls).

Definition Reader_blocker (r : IntraReader) (m : BlockerManager) : option Blocker :=
  GetBlocker m (r_T r) (r_channel_name r).
Definition Reader_Empty (r : IntraReader) (m : BlockerManager) : bool :=
  match Reader_blocker r m with Some b => IsObservedEmpty b | None => true end.
Definition Reader_HasReceived (r : IntraReader) (m : BlockerManager) : bool :=
  match Reader_blocker r m with Some b => negb (IsPublishedEmpty b) | None => false end.
Definition Reader_GetHistoryDepth (r : IntraReader) (m : BlockerManager) : Z :=
  match Reader_blocker r m with Some b => u32 (Z.of_nat (capacity_ b)) | None => 0%Z end.
Definition Reader_GetLatestObserved (r : IntraReader) (m : BlockerManager) : option Msg :=
  Reader_blocker r m ≫= GetLatestObservedPtr.
Definition Reader_GetOldestObserved (r : IntraReader) (m : BlockerManager) : option Msg :=
  Reader_blocker r m ≫= GetOldestObservedPtr.
(** [Begin()] to [End()]: [None] where the check fails. *)
Definition Reader_range (r : IntraReader) (m : BlockerManager) : option (list Msg) :=
  observed_msg_queue_ <$> Reader_blocker r m.

Record IntraWriter := mkWriter { w_T : nat; w_channel_name : string; w_init_ : bool }.

Definition Writer_Init (w : IntraWriter) (m : BlockerManager) : IntraWriter * BlockerManager * bool :=
  if w_init_ w then (w, m, true)
  else (mkWriter (w_T w) (w_channel_name w) true,
        (GetOrCreateBlocker m (w_T w) default_capacity (w_channel_name w)).1, true).
Definition Writer_Shutdown (w : IntraWriter) : IntraWriter :=
  if negb (w_init_ w) then w else mkWriter (w_T w) (w_channel_name w) false.
Definition Writer_Write (w : IntraWriter) (msg : Msg) (m : BlockerManager)
  : BlockerManager * bool * list (string * nat * Msg) :=
  if negb (w_init_ w) then (m, false, []) else Manager_Publish m (w_T w) (w_channel_name w) msg.

(** ** The operations on the manager *)

Inductive Op :=
  | OPublish (T : nat) (ch : string) (msg : Msg)
  | OSubscribe (T : nat) (ch : string) (capacity : nat) (id : string) (cb : nat)
  | OUnsubscribe (T : nat) (ch : string) (id : string)
  | OCreate (T : nat) (ch : string)
  | OObserve (T : nat) (ch : string)
  | OObserveAll
  | OClearData (T : nat) (ch : string)
  | OSetDepth (T : nat) (ch : string) (depth : nat)
  | OReset.

(** An operation's effect and the callbacks it makes, with their channel. *)
Definition op_step (m : BlockerManager) (o : Op) : BlockerManager * list (string * (string * nat * Msg)) :=
  match o with
  | OPublish T ch msg => let '(m, _, calls) := Manager_Publish m T ch msg in (m, pair ch <$> calls)
  | OSubscribe T ch capacity id cb => ((Manager_Subscribe m T ch capacity id cb).1, [])
  | OUnsubscribe T ch id => ((Manager_Unsubscribe m T ch id).1, [])
  | OCreate T ch => ((GetOrCreateBlocker m T default_capacity ch).1, [])
  | OObserve T ch => (with_blocker m T ch Observe, [])
  | OObserveAll => (Manager_Observe m, [])
  | OClearData T ch => (with_blocker m T ch (λ b, ClearPublished (ClearObserved b)), [])
  | OSetDepth T ch depth => (with_blocker m T ch (λ b, set_capacity b depth), [])
  | OReset => (Manager_Reset m, [])
  end.

Fixpoint op_run (m : BlockerManager) (ops : list Op) : BlockerManager * list (string * (string * nat * Msg)) :=
  match ops with
  | [] => (m, [])
  | o :: ops =>
      let '(m, calls) := op_step m o in let '(m, calls') := op_run m ops in (m, calls ++ calls')
  end.

(** The messages of [ops] published on the channel with its type. *)
Definition published_on (T : nat) (ch : string) (ops : list Op) : list Msg :=
  omap (λ o, match o with
             | OPublish T' ch' msg => if decide (T' = T ∧ ch' = ch) then Some msg else None
             | _ => None
             end) ops.

(** The calls made for the subscription [id] on the channel. *)
Definition calls_for (ch id : string) (calls : list (string * (string * nat * Msg))) : list (nat * Msg) :=
  omap (λ '(ch', (id', cb, msg)), if decide (ch' = ch ∧ id' = id) then Some (cb, msg) else None) calls.

(** Operations that empty or resize the channel's queue; that read it. *)
Definition disturbs (T : nat) (ch : string) (o : Op) : bool :=
  match o with
  | OClearData T' ch' | OSetDepth T' ch' _ => bool_decide (T' = T ∧ ch' = ch)
  | OReset => true
  | _ => false
  end.
Definition observes (T : nat) (ch : string) (o : Op) : bool :=
  match o with
  | OObserve T' ch' => bool_decide (T' = T ∧ ch' = ch)
  | OObserveAll => true
  | _ => false
  end.
Definition unsubscribes (T : nat) (ch id : string) (o : Op) : bool :=
  match o with
  | OUnsubscribe T' ch' id' => bool_decide (T' = T ∧ ch' = ch ∧ id' = id)
  | _ => false
  end.

(** ** Lemmas *)

Lemma pop_back_while_take n c q : length q <= n + c → pop_back_while n c q = take c q.
Proof.
  revert q. induction n as [|n IH]; intros q Hq; cbn.
  - by rewrite take_ge by lia.
  - case_decide.
    + rewrite IH by (rewrite length_take; lia). rewrite take_take. f_equal. lia.
    + by rewrite take_ge by lia.
Qed.

Lemma Enqueue_queue b msg :
  length (published_msg_queue_ b) <= capacity_ b →
  published_msg_queue_ (Enqueue b msg) = take (capacity_ b) (msg :: published_msg_queue_ b).
Proof.
  intros Hl. unfold Enqueue. case_decide as E; [|cbn [published_msg_queue_]; by rewrite pop_back_while_take by lia].
  rewrite E in *. by destruct (published_msg_queue_ b); cbn in *; [|lia].
Qed.

Lemma Enqueue_rest b msg :
  capacity_ (Enqueue b msg) = capacity_ b ∧ observed_msg_queue_ (Enqueue b msg) = observed_msg_queue_ b ∧
  published_callbacks_ (Enqueue b msg) = published_callbacks_ b.
Proof. unfold Enqueue. by case_decide. Qed.

(** The calls of one publication for a subscriber. *)
Lemma calls_for_Notify b msg ch id :
  calls_for ch id (pair ch <$> Notify b msg) =
  match published_callbacks_ b !! id with Some cb => [(cb, msg)] | None => [] end.
Proof.
  unfold calls_for, Notify. set (f := λ x : string * (string * nat * Msg), _).
  assert (∀ l : list (string * nat), id ∉ l.*1 →
    omap f (pair ch <$> ((λ '(i, c), (i, c, msg)) <$> l)) = []) as Hnone.
  { induction l as [|[i c] l IH]; intros Hl; cbn in *; [done|].
    apply not_elem_of_cons in Hl as [? ?]. rewrite decide_False by naive_solver. by apply IH. }
  destruct (published_callbacks_ b !! id) as [cb|] eqn:E.
  - apply Permutation_singleton_r. rewrite <- (insert_delete_id _ _ _ E).
    rewrite map_to_list_insert by apply lookup_delete_eq. cbn. rewrite decide_True by done.
    rewrite Hnone; [done|]. intros ([i c] & -> & Hi)%list_elem_of_fmap. apply elem_of_map_to_list in Hi.
    by rewrite lookup_delete_eq in Hi.
  - apply Hnone. intros ([i c] & -> & Hi)%list_elem_of_fmap. apply elem_of_map_to_list in Hi. cbn in E. congruence.
Qed.

Lemma calls_for_other ch ch' id (l : list (string * nat * Msg)) :
  ch' ≠ ch → calls_for ch id (pair ch' <$> l) = [].
Proof.
  intros Hne. unfold calls_for. induction l as [|[[i c] x] l IH]; cbn; [done|].
  by rewrite decide_False by naive_solver.
Qed.

Lemma calls_for_app ch id l k : calls_for ch id (l ++ k) = calls_for ch id l ++ calls_for ch id k.
Proof. unfold calls_for. apply omap_app. Qed.

(** What the blocker [b] of the channel becomes by an operation. *)
Record follows (T : nat) (ch : string) (b b' : Blocker) (o : Op) (calls : list (string * (string * nat * Msg)))
  : Prop := {
  fo_capacity : capacity_ b' = capacity_ b;
  fo_published : published_msg_queue_ b' = take (capacity_ b) (published_on T ch [o] ++ published_msg_queue_ b);
  fo_observed :
    observed_msg_queue_ b' = if observes T ch o then published_msg_queue_ b else observed_msg_queue_ b;
  fo_calls : ∀ id cb, published_callbacks_ b !! id = Some cb → unsubscribes T ch id o = false →
    published_callbacks_ b' !! id = Some cb ∧ calls_for ch id calls = pair cb <$> published_on T ch [o]
}.

Lemma follows_same T ch b o :
  length (published_msg_queue_ b) <= capacity_ b → published_on T ch [o] = [] → observes T ch o = false →
  follows T ch b b o [].
Proof. intros Hl Hp Ho. split; rewrite ?Hp, ?Ho; [done|by rewrite take_ge|done|done]. Qed.

Lemma GetBlocker_same m T T' ch b :
  m !! ch = Some (T, b) → GetBlocker m T' ch = if decide (T = T') then Some b else None.
Proof. intros H. unfold GetBlocker. by rewrite H. Qed.

Lemma with_blocker_lookup m T ch T' ch' f b :
  m !! ch = Some (T, b) →
  with_blocker m T' ch' f !! ch = Some (T, if decide (T' = T ∧ ch' = ch) then f b else b).
Proof.
  intros H. unfold with_blocker. destruct (decide (ch' = ch)) as [->|Hne].
  - rewrite (GetBlocker_same _ _ _ _ _ H). destruct (decide (T = T')) as [->|]; cbv iota.
    + by rewrite lookup_insert_eq, decide_True.
    + by rewrite decide_False by naive_solver.
  - rewrite decide_False by naive_solver. case_match; [by rewrite lookup_insert_ne|done].
Qed.

Lemma GetOrCreate_lookup m T ch T' ch' capacity b :
  m !! ch = Some (T, b) →
  (GetOrCreateBlocker m T' capacity ch').1 !! ch = Some (T, b) ∧
  (ch' = ch → GetOrCreateBlocker m T' capacity ch' = (m, if decide (T = T') then Some b else None)).
Proof.
  intros H. unfold GetOrCreateBlocker. destruct (decide (ch' = ch)) as [->|Hne].
  - rewrite H. split; [done|]. intros _. f_equal. by apply GetBlocker_same.
  - split; [|done]. case_match; [done|]. cbn. by rewrite lookup_insert_ne.
Qed.

Lemma publish_follows m T ch b T' ch' msg :
  m !! ch = Some (T, b) → length (published_msg_queue_ b) <= capacity_ b →
  ∃ b', (op_step m (OPublish T' ch' msg)).1 !! ch = Some (T, b') ∧
    follows T ch b b' (OPublish T' ch' msg) (op_step m (OPublish T' ch' msg)).2.
Proof.
  intros H Hl. cbn. unfold Manager_Publish.
  destruct (GetOrCreate_lookup m T ch T' ch' default_capacity b H) as [H1 H2].
  destruct (decide (ch' = ch)) as [->|Hne].
  - rewrite H2 by done. case_decide as E; cbn; [subst T'|].
    + eexists. rewrite lookup_insert_eq. split; [done|].
      destruct (Enqueue_rest b msg) as (Hc & Ho & Hcb). split; cbn; [done| |done|].
      * rewrite decide_True by done. by apply Enqueue_queue.
      * intros id cb Hid _. rewrite Hcb. split; [done|]. rewrite calls_for_Notify, Hcb, Hid.
        by rewrite decide_True.
    + exists b. split; [done|]. apply follows_same; cbn; rewrite ?decide_False by naive_solver; done.
  - destruct (GetOrCreateBlocker m T' default_capacity ch') as [m1 [b1|]]; cbn in *.
    + exists b. rewrite lookup_insert_ne by done. split; [done|].
      split; cbn; rewrite ?decide_False by naive_solver; [done|by rewrite take_ge|done|].
      intros id cb Hid _. split; [done|]. rewrite calls_for_other by done. done.
    + exists b. split; [done|]. apply follows_same; cbn; rewrite ?decide_False by naive_solver; done.
Qed.

Lemma subscribe_follows m T ch b T' ch' capacity id cb :
  m !! ch = Some (T, b) → length (published_msg_queue_ b) <= capacity_ b →
  ∃ b', (Manager_Subscribe m T' ch' capacity id cb).1 !! ch = Some (T, b') ∧
    follows T ch b b' (OSubscribe T' ch' capacity id cb) [].
Proof.
  intros H Hl. unfold Manager_Subscribe.
  destruct (GetOrCreate_lookup m T ch T' ch' capacity b H) as [H1 H2].
  destruct (decide (ch' = ch)) as [->|Hne].
  - rewrite H2 by done. case_decide as E; [subst T'|exists b; split; [done|by apply follows_same]].
    unfold Subscribe. destruct (published_callbacks_ b !! id) eqn:Eid; cbn; rewrite lookup_insert_eq;
      (eexists; split; [done|]); [by apply follows_same|]. split; cbn; [done|by rewrite take_ge|done|].
    intros id' cb' Hid' _. rewrite lookup_insert_ne by naive_solver. done.
  - exists b. split; [|by apply follows_same].
    destruct (GetOrCreateBlocker m T' capacity ch') as [m1 [b1|]]; cbn in *; [|done].
    destruct (Subscribe b1 id cb). cbn. by rewrite lookup_insert_ne.
Qed.

Lemma unsubscribe_follows m T ch b T' ch' id :
  m !! ch = Some (T, b) → length (published_msg_queue_ b) <= capacity_ b →
  ∃ b', (Manager_Unsubscribe m T' ch' id).1 !! ch = Some (T, b') ∧
    follows T ch b b' (OUnsubscribe T' ch' id) [].
Proof.
  intros H Hl. unfold Manager_Unsubscribe. destruct (decide (ch' = ch)) as [->|Hne].
  - rewrite (GetBlocker_same _ _ _ _ _ H). case_decide as E; [subst T'|exists b; split; [done|by apply follows_same]].
    cbn. rewrite lookup_insert_eq. eexists. split; [done|]. split; cbn; [done|by rewrite take_ge|done|].
    intros id' cb' Hid' Hu. apply bool_decide_eq_false in Hu. rewrite lookup_delete_ne by naive_solver. done.
  - exists b. split; [|by apply follows_same]. case_match; cbn; [by rewrite lookup_insert_ne|done].
Qed.

Lemma step_follows m T ch b o :
  m !! ch = Some (T, b) → length (published_msg_queue_ b) <= capacity_ b → disturbs T ch o = false →
  ∃ b', (op_step m o).1 !! ch = Some (T, b') ∧ follows T ch b b' o (op_step m o).2.
Proof.
  intros H Hl Hd. destruct o as [T' ch' msg|T' ch' c id cb|T' ch' id|T' ch'|T' ch'| |T' ch'|T' ch' n|];
    cbn [op_step fst snd] in *; cbn in Hd.
  - by apply publish_follows.
  - by apply subscribe_follows.
  - by apply unsubscribe_follows.
  - exists b. split; [by apply GetOrCreate_lookup|by apply follows_same].
  - rewrite (with_blocker_lookup _ _ _ _ _ _ _ H). eexists. split; [done|].
    split; cbn; repeat (case_decide || case_bool_decide); cbn; rewrite ?take_ge by done; tauto.
  - exists (Observe b). split; [unfold Manager_Observe; by rewrite lookup_fmap, H|].
    split; cbn; [done|by rewrite take_ge|done|done].
  - apply bool_decide_eq_false in Hd. exists b. rewrite (with_blocker_lookup _ _ _ _ _ _ _ H), decide_False by done.
    split; [done|by apply follows_same].
  - apply bool_decide_eq_false in Hd. exists b. rewrite (with_blocker_lookup _ _ _ _ _ _ _ H), decide_False by done.
    split; [done|by apply follows_same].
  - done.
Qed.

(** ** Every queue within its capacity *)

Definition bounded (b : Blocker) : Prop := length (published_msg_queue_ b) <= capacity_ b.
Definition bounded_all (m : BlockerManager) : Prop := map_Forall (λ _ x, bounded x.2) m.

Lemma bounded_insert m ch T b : bounded_all m → bounded b → bounded_all (<[ch := (T, b)]> m).
Proof. intros Hm Hb. by apply map_Forall_insert_2. Qed.

Lemma bounded_get m T ch b : bounded_all m → GetBlocker m T ch = Some b → bounded b.
Proof.
  unfold GetBlocker. intros Hm H. destruct (m !! ch) as [[T' b']|] eqn:E; [|done]. cbn in H.
  case_decide; simplify_eq. apply (Hm ch _ E).
Qed.

Lemma bounded_create m T capacity ch :
  bounded_all m →
  bounded_all (GetOrCreateBlocker m T capacity ch).1 ∧
  ∀ b, (GetOrCreateBlocker m T capacity ch).2 = Some b → bounded b.
Proof.
  intros Hm. unfold GetOrCreateBlocker. case_match; cbn.
  - split; [done|]. intros b. by apply bounded_get.
  - assert (bounded (Blocker_new capacity)) by (unfold bounded; cbn; lia).
    split; [by apply bounded_insert|]. by intros b [= <-].
Qed.

Lemma bounded_with m T ch f :
  (∀ b, bounded b → bounded (f b)) → bounded_all m → bounded_all (with_blocker m T ch f).
Proof.
  intros Hf Hm. unfold with_blocker. case_match eqn:E; [|done].
  apply bounded_insert; [done|]. by eapply Hf, bounded_get.
Qed.

Lemma bounded_step m o : bounded_all m → bounded_all (op_step m o).1.
Proof.
  intros Hm. destruct o; cbn.
  - unfold Manager_Publish. destruct (bounded_create m T default_capacity ch Hm) as [H1 H2].
    destruct (GetOrCreateBlocker m T default_capacity ch) as [m1 [b|]]; [|done]. cbn in *.
    apply bounded_insert; [done|]. specialize (H2 b eq_refl). unfold bounded in *.
    rewrite Enqueue_queue by done. destruct (Enqueue_rest b msg) as (-> & _). rewrite length_take. lia.
  - unfold Manager_Subscribe. destruct (bounded_create m T capacity ch Hm) as [H1 H2].
    destruct (GetOrCreateBlocker m T capacity ch) as [m1 [b|]]; [|done]. cbn in *.
    unfold Subscribe. specialize (H2 b eq_refl). destruct (published_callbacks_ b !! id); cbn; (apply bounded_insert; [done|exact H2]).
  - unfold Manager_Unsubscribe. case_match eqn:E; [|done]. cbn. apply bounded_insert; [done|].
    apply bounded_get in E; [exact E|done].
  - by apply bounded_create.
  - by apply bounded_with.
  - unfold Manager_Observe. intros i x. rewrite lookup_fmap. destruct (m !! i) as [[T b]|] eqn:E; [|done].
    cbn. intros [= <-]. apply (Hm i _ E).
  - apply bounded_with; [|done]. intros b _. unfold bounded. cbn. lia.
  - apply bounded_with; [|done]. intros b _. unfold bounded. cbn [published_msg_queue_ capacity_ set_capacity].
    rewrite pop_back_while_take, length_take by lia. lia.
  - apply map_Forall_empty.
Qed.

Lemma bounded_run m ops : bounded_all m → bounded_all (op_run m ops).1.
Proof.
  revert m. induction ops as [|o ops IH]; intros m Hm; [done|]. cbn.
  pose proof (bounded_step m o Hm) as H. destruct (op_step m o) as [m1 c]. specialize (IH m1 H).
  by destruct (op_run m1 ops).
Qed.

(** ** A channel over a run *)

Lemma published_on_cons T ch o ops : published_on T ch (o :: ops) = published_on T ch [o] ++ published_on T ch ops.
Proof. unfold published_on. cbn. by case_match. Qed.

Lemma take_app_take {A} n (l k : list A) : take n (l ++ take n k) = take n (l ++ k).
Proof. rewrite !take_app, take_take. f_equal. f_equal. lia. Qed.

Lemma run_follows m T ch b ops :
  m !! ch = Some (T, b) → bounded b → Forall (λ o, disturbs T ch o = false) ops →
  ∃ b', (op_run m ops).1 !! ch = Some (T, b') ∧ capacity_ b' = capacity_ b ∧
    published_msg_queue_ b' = take (capacity_ b) (reverse (published_on T ch ops) ++ published_msg_queue_ b) ∧
    (Forall (λ o, observes T ch o = false) ops → observed_msg_queue_ b' = observed_msg_queue_ b) ∧
    ∀ id cb, published_callbacks_ b !! id = Some cb → Forall (λ o, unsubscribes T ch id o = false) ops →
      calls_for ch id (op_run m ops).2 = pair cb <$> published_on T ch ops.
Proof.
  revert m b. induction ops as [|o ops IH]; intros m b H Hb Hd.
  - exists b. cbn. rewrite take_ge by done. naive_solver.
  - apply Forall_cons in Hd as [Hd0 Hd].
    destruct (step_follows m T ch b o H Hb Hd0) as (b1 & H1 & [Hc Hp Ho Hs]).
    cbn [op_run]. destruct (op_step m o) as [m1 c1]. cbn [fst snd] in *.
    assert (bounded b1) as Hb1 by (unfold bounded; rewrite Hc, Hp, length_take; lia).
    destruct (IH m1 b1 H1 Hb1 Hd) as (b' & H' & Hc' & Hp' & Ho' & Hs').
    destruct (op_run m1 ops) as [m2 c2]. cbn [fst snd] in *.
    exists b'. rewrite published_on_cons. split; [done|]. split; [congruence|]. split; [|split].
    + rewrite Hp', Hp, Hc. rewrite reverse_app, <- app_assoc.
      assert (length (published_on T ch [o]) ≤ 1) as Hlen by (unfold published_on; destruct o; cbn; try case_decide; cbn; lia).
      assert (reverse (published_on T ch [o]) = published_on T ch [o]) as ->
        by (destruct (published_on T ch [o]) as [|? []]; cbn in *; done || lia).
      apply take_app_take.
    + rewrite Forall_cons. intros [Hx Hrest]. rewrite Ho' by done. by rewrite Ho, Hx.
    + intros id cb Hid. rewrite Forall_cons. intros [Hx Hrest]. destruct (Hs id cb Hid Hx) as [Hid1 Hcalls].
      rewrite calls_for_app, Hcalls, fmap_app. f_equal. by apply Hs'.
Qed.

Lemma op_run_app m ops ops' :
  (op_run m (ops ++ ops')).1 = (op_run (op_run m ops).1 ops').1.
Proof.
  revert m. induction ops as [|o ops IH]; intros m; [done|]. cbn.
  destruct (op_step m o) as [m1 c1]. specialize (IH m1).
  destruct (op_run m1 (ops ++ ops')), (op_run m1 ops). done.
Qed.

(** Messages inside a process: from any state of the manager that calls lead to,
    while nobody clears or resizes the channel's queue, the queue holds exactly the last
    [capacity] messages published on the channel, newest first, whatever happens on
    other channels and with other types; readers see the queue as the last [Observe()]
    found it until the next; and a subscription's callback is called with every message
    published, once and in order, until it is removed. *)
Theorem intra_window (before ops ops' : list Op) (T : nat) (ch : string) (b : Blocker) :
  (op_run ∅ before).1 !! ch = Some (T, b) →
  Forall (λ o, disturbs T ch o = false) (ops ++ ops') →
  Forall (λ o, observes T ch o = false) ops' →
  let m := (op_run ∅ before).1 in
  let window k l := take k (reverse (published_on T ch l) ++ published_msg_queue_ b) in
  (∃ b', (op_run m (ops ++ OObserve T ch :: ops')).1 !! ch = Some (T, b') ∧
     published_msg_queue_ b' = window (capacity_ b) (ops ++ ops') ∧
     observed_msg_queue_ b' = window (capacity_ b) ops) ∧
  ∀ id cb, published_callbacks_ b !! id = Some cb →
    Forall (λ o, unsubscribes T ch id o = false) ops →
    calls_for ch id (op_run m ops).2 = pair cb <$> published_on T ch ops.
Proof.
  intros H Hd Ho. cbv zeta. apply Forall_app in Hd as [Hd Hd'].
  assert (bounded b) as Hb by (apply (bounded_run ∅ before (map_Forall_empty _) ch _ H)).
  set (m := (op_run ∅ before).1) in *.
  destruct (run_follows m T ch b ops H Hb Hd) as (b1 & H1 & Hc1 & Hp1 & _ & Hs1). split; [|done].
  rewrite op_run_app. set (m1 := (op_run m ops).1) in *.
  assert (bounded b1) as Hb1 by (unfold bounded; rewrite Hp1, Hc1, length_take; lia).
  destruct (step_follows m1 T ch b1 (OObserve T ch) H1 Hb1 eq_refl) as (b2 & H2 & [Hc2 Hp2 Ho2 _]).
  cbn [op_step fst snd published_on omap list_omap app] in *. rewrite take_ge in Hp2 by done.
  cbn [observes] in Ho2. rewrite bool_decide_eq_true_2 in Ho2 by done.
  assert (bounded b2) as Hb2 by (unfold bounded; by rewrite Hp2, Hc2).
  destruct (run_follows _ T ch b2 ops' H2 Hb2 Hd') as (b3 & H3 & Hc3 & Hp3 & Ho3 & _).
  exists b3. cbn [op_run op_step]. split; [by destruct (op_run _ ops')|]. rewrite Ho3, Ho2 by done. split; [|done].
  rewrite Hp3, Hp2, Hc2, Hp1, Hc1. unfold published_on at 3. rewrite omap_app, reverse_app, <- app_assoc.
  apply take_app_take.
Qed.

(** Capacity two, three messages, a snapshot between the last two. *)
Lemma intra_window_witness :
  let m := (op_run ∅ [OSubscribe 0 "chatter" 2 "n" 9; OPublish 0 "chatter" 1]).1 in
  let r := op_run m [OPublish 0 "other" 5; OPublish 0 "chatter" 2; OObserve 0 "chatter"; OPublish 0 "chatter" 3] in
  (∃ b', r.1 !! "chatter"%string = Some (0, b') ∧ published_msg_queue_ b' = [3; 2] ∧ observed_msg_queue_ b' = [2; 1]) ∧
  calls_for "chatter" "n" (op_run m [OPublish 0 "other" 5; OPublish 0 "chatter" 2]).2 = [(9, 2)].
Proof.
  destruct (intra_window [OSubscribe 0 "chatter" 2 "n" 9; OPublish 0 "chatter" 1]
    [OPublish 0 "other" 5; OPublish 0 "chatter" 2] [OPublish 0 "chatter" 3] 0 "chatter"
    (mkBlocker 2 [] [1] {[ "n" := 9 ]}%string)) as [H1 H2].
  - reflexivity.
  - repeat constructor.
  - repeat constructor.
  - split; [exact H1|]. apply (H2 "n"%string 9); [reflexivity|repeat constructor].
Defined.

(** A reader that joins a channel after its writer gets the writer's default
    capacity, not the depth its QoS asks for. *)
Theorem reader_depth_ignored (w : IntraWriter) (r : IntraReader) (m : BlockerManager) :
  w_init_ w = false → r_init_ r = false → w_T w = r_T r → w_channel_name w = r_channel_name r →
  m !! w_channel_name w = None →
  let '(_, m, _) := Writer_Init w m in
  let '(_, m, ok) := Reader_Init r m in
  ok = true ∧ Reader_GetHistoryDepth r m = Z.of_nat default_capacity.
Proof.
  intros Hw Hr HT Hch Hm. unfold Writer_Init, Reader_Init. rewrite Hw, Hr. unfold Manager_Subscribe.
  unfold GetOrCreateBlocker at 2. rewrite Hm. cbn [fst]. unfold GetOrCreateBlocker.
  rewrite <- Hch, lookup_insert_eq. unfold GetBlocker. rewrite lookup_insert_eq. cbn. rewrite decide_True by done.
  unfold Subscribe. cbn. split; [done|]. unfold Reader_GetHistoryDepth, Reader_blocker, GetBlocker. cbn.
  rewrite <- Hch, lookup_insert_eq. cbn. by rewrite decide_True.
Qed.

Lemma reader_depth_ignored_witness :
  let '(_, m, _) := Writer_Init (mkWriter 0 "c" false) ∅ in
  let '(_, m, ok) := Reader_Init (mkReader 0 "c" 1 "n" false 0) m in
  ok = true ∧ Reader_GetHistoryDepth (mkReader 0 "c" 1 "n" false 0) m = 10%Z.
Proof.
  apply (reader_depth_ignored (mkWriter 0 "c" false) (mkReader 0 "c" 1 "n" false 0) ∅); reflexivity.
Defined.
