(* ===== verification/Reader.v ===== *)
(** * Readers (cyber/node/reader.h, reader_base.h), from the receiver's listener to the
    user's callback

    A reader puts together the parts below it: it builds a data visitor (DataPath), a
    coroutine that fetches from it (CRoutine) and a task in the scheduler (Scheduler);
    the receiver of the channel hands each message to the data dispatcher, which fills
    the reader's buffer and notifies its task; a processor that picks the task fetches
    one message, puts it into the reader's blocker (Blocker) and runs the callback.
    This file models the runtime of a process in these terms, one call after the other,
    and what each call does to the tables of the data path and to the coroutines; that
    each reader behaves like a mailbox is proved in ReaderMailbox.  How the receivers get
    their messages and how readers and writers find each other is in Node.

    Not modelled here: statistics, and the times for [GetDelaySec]. *)

From stdpp Require Import base numbers list gmap strings.
From Stdlib Require Import ZArith Lia.
From S2P Require Import Prelude KeyedStore AtomicHashMap GlobalData Blocker CacheBuffer ChannelBuffer DataPath.
From S2P Require Import CRoutine Scheduler.

Open Scope Z_scope.

(** ** A reader object *)

Record Reader := mkReader {
  node_name_ : string;               (* role_attr_: node_name, channel_name, channel_id *)
  channel_name_ : string;
  channel_id_ : Z;
  type_ : Z;                         (* the template argument MessageT *)
  pending_queue_size_ : Z;           (* uint32_t *)
  reader_func_ : option nat;
  blocker_ : Blocker;
  croutine_name_ : string;
  init_ : bool
}.

(** The constructor; [depth] is that of the role's QoS profile. *)
Definition Reader_new (node channel : string) (id ty : Z) (depth : nat) (func : option nat)
    (pending_queue_size : Z) : Reader :=
  mkReader node channel id ty pending_queue_size func (Blocker_new depth) EmptyString false.

Definition set_blocker (r : Reader) (b : Blocker) : Reader :=
  mkReader (node_name_ r) (channel_name_ r) (channel_id_ r) (type_ r) (pending_queue_size_ r) (reader_func_ r) b
    (croutine_name_ r) (init_ r).
Definition set_init (r : Reader) (name : string) (i : bool) : Reader :=
  mkReader (node_name_ r) (channel_name_ r) (channel_id_ r) (type_ r) (pending_queue_size_ r) (reader_func_ r)
    (blocker_ r) name i.

Definition Reader_Enqueue (r : Reader) (m : nat) : Reader := set_blocker r (Blocker.Publish (blocker_ r) m).1.
Definition Reader_Observe (r : Reader) : Reader := set_blocker r (Blocker.Observe (blocker_ r)).
Definition Reader_ClearData (r : Reader) : Reader :=
  set_blocker r (Blocker.ClearObserved (Blocker.ClearPublished (blocker_ r))).
Definition Reader_HasReceived (r : Reader) : bool := negb (Blocker.IsPublishedEmpty (blocker_ r)).
Definition Reader_Empty (r : Reader) : bool := Blocker.IsObservedEmpty (blocker_ r).
Definition Reader_GetLatestObserved (r : Reader) : option nat := Blocker.GetLatestObservedPtr (blocker_ r).
Definition Reader_GetOldestObserved (r : Reader) : option nat := Blocker.GetOldestObservedPtr (blocker_ r).
Definition Reader_SetHistoryDepth (r : Reader) (depth : nat) : Reader :=
  set_blocker r (Blocker.set_capacity (blocker_ r) depth).
Definition Reader_GetHistoryDepth (r : Reader) : Z := u32 (Z.of_nat (Blocker.capacity_ (blocker_ r))).

(** ** The process *)

(** A call of the closure [func] of [Init]: the coroutine that made it, the reader whose
    [this] it captured, the callback and the message. *)
Record Call := mkCall { c_routine : CrPtr; c_reader : nat; c_func : option nat; c_msg : nat }.

Record Runtime := mkRuntime {
  world : World (M := AtomicHashMap (list Z));     (* buffers, dispatchers, notifiers *)
  process : Process;                               (* task names, scheduler *)
  readers : gmap nat Reader;
  routines : gmap CrPtr (nat * DataVisitor);       (* what a reader's coroutine captured *)
  calls : list Call
}.

Definition set_reader (rt : Runtime) (rid : nat) (r : Reader) : Runtime :=
  mkRuntime (world rt) (process rt) (<[rid := r]> (readers rt)) (routines rt) (calls rt).
Definition set_process (rt : Runtime) (p : Process) : Runtime :=
  mkRuntime (world rt) p (readers rt) (routines rt) (calls rt).
Definition set_sched (p : Process) (s : Classic) : Process := mkProcess (registries p) s (callbacks p).

(** [~DataVisitor()]: its buffers go; the dispatchers keep weak pointers to them. *)
Definition drop_visitor (w : World (M := AtomicHashMap (list Z))) (v : DataVisitor) :=
  set_buffers w (delete (fetch_buffer v) (buffers w)).

Section runtime.
Context (Hash : string → Z) (fuel : nat) (conf : ClassicConf).

(** [Init()] up to the creation of the task; the answer is whether to go on.  The
    visitor of a task that was refused goes with the coroutine and the factory. *)
Definition Init_task (now : Z) (rt : Runtime) (rid : nat) : option (Runtime * bool) :=
  match readers rt !! rid with
  | None => Some (rt, false)
  | Some r =>
      if init_ r then Some (rt, true)
      else
        let name := (node_name_ r +:+ "_" +:+ channel_name_ r)%string in
        let '(w, dv) := DataVisitor1_new (world rt)
                          (mkVisitorConfig (type_ r) (channel_id_ r) (pending_queue_size_ r)) in
        let p := fresh (sched (process rt)) in
        '(proc, ok) ← Scheduler_CreateTask Hash fuel conf now (process rt) name (Some (notifier_ dv));
        if negb ok
        then Some (mkRuntime (drop_visitor w dv) proc (<[rid := set_init r name false]> (readers rt)) (routines rt)
                     (calls rt), false)
        else Some (mkRuntime (RegisterNotifyCallback w dv (notifier_ dv)) proc
                     (<[rid := set_init r name true]> (readers rt)) (<[p := (rid, dv)]> (routines rt)) (calls rt), true)
  end.

(** The end of [Shutdown()]: [RemoveTask]; the coroutine taken out goes, and with it what
    it captured.  [None]: it waits for a processor to let the coroutine go. *)
Definition drop_routine (rt : Runtime) (p : CrPtr) : Runtime :=
  match routines rt !! p with
  | None => rt
  | Some (_, v) =>
      mkRuntime (drop_visitor (world rt) v) (process rt) (readers rt) (delete p (routines rt)) (calls rt)
  end.

Definition Reader_RemoveTask (rt : Runtime) (name : string) : option Runtime :=
  if bool_decide (name = EmptyString) then Some rt
  else
    let s := sched (process rt) in
    '(s', ok) ← Classic_RemoveTask Hash s name;
    let rt := set_process rt (set_sched (process rt) s') in
    Some (if stop_ s then rt
          else match id_cr_ s !! Hash name with Some p => drop_routine rt p | None => rt end).

Definition Shutdown_task (rt : Runtime) (rid : nat) : option Runtime :=
  match readers rt !! rid with
  | None => Some rt
  | Some r =>
      if negb (init_ r) then Some rt
      else Reader_RemoveTask (set_reader rt rid (set_init r (croutine_name_ r) false)) (croutine_name_ r)
  end.

(** The listener that [ReceiverManager::GetReceiver] gives to the receiver of a channel:
    [DataDispatcher::Dispatch], whose notifiers call [NotifyProcessor]. *)
Definition run_callbacks (p : Process) (l : list Z) : option Process :=
  foldl (λ op v, p ← op; run_callback p v) (Some p) l.
Definition on_message (rt : Runtime) (ty channel : Z) (m : nat) : option Runtime :=
  let w := (Dispatch (world rt) ty channel (Msg (Z.of_nat m))).1 in
  p ← run_callbacks (process rt) (drop (length (called (world rt))) (called w));
  Some (mkRuntime w p (readers rt) (routines rt) (calls rt)).

(** The closure [func] of [Init()]. *)
Definition func (rt : Runtime) (p : CrPtr) (rid : nat) (m : nat) : Runtime :=
  match readers rt !! rid with
  | None => rt
  | Some r =>
      mkRuntime (world rt) (process rt) (<[rid := Reader_Enqueue r m]> (readers rt)) (routines rt)
        (calls rt ++ [mkCall p rid (reader_func_ r) m])
  end.

(** One turn of the loop in [CreateRoutineFactory]: fetch, and run [func]. *)
Definition fetch (rt : Runtime) (p : CrPtr) (rid : nat) (v : DataVisitor) : Runtime :=
  match TryFetch1 (world rt) v with
  | None => rt
  | Some (v', m) =>
      let rt := mkRuntime (world rt) (process rt) (readers rt) (<[p := (rid, v')]> (routines rt)) (calls rt) in
      match m with Msg z => func rt p rid (Z.to_nat z) | _ => rt end
  end.

(** A processor of group [g] takes a turn: [NextRoutine], [Resume], [Release].  [slice] is
    what the coroutine does in its time slice if it is not a reader's. *)
Definition Processor_turn (now : Z) (g : string) (slice : CRoutine → CRoutine) (rt : Runtime)
  : option (Runtime * option CrPtr) :=
  let '(s, next) := ClassicContext_NextRoutine now (sched (process rt)) g in
  let rt := set_process rt (set_sched (process rt) s) in
  match next with
  | None => Some (rt, None)
  | Some p =>
      match routines rt !! p with
      | None => s ← Processor_run slice s p; Some (set_process rt (set_sched (process rt) s), Some p)
      | Some (rid, v) =>
          c ← heap s !! p;
          let runs := negb (force_stop_ c) && bool_decide (state_ c = READY) in
          let fetched := bool_decide (is_Some (TryFetch1 (world rt) v)) in
          let rt := if runs then fetch rt p rid v else rt in
          s ← Processor_run (factory_turn fetched id) s p;
          Some (set_process rt (set_sched (process rt) s), Some p)
      end
  end.

(** Other tasks of the process: [Scheduler::CreateTask] without a visitor. *)
Definition create_task (now : Z) (rt : Runtime) (name : string) : option Runtime :=
  '(p, _) ← Scheduler_CreateTask Hash fuel conf now (process rt) name None;
  Some (set_process rt p).

(** ** Any sequence of calls *)

Inductive DataOp := DoObserve | DoClearData | DoSetHistoryDepth (depth : nat).
Definition data_op (r : Reader) (d : DataOp) : Reader :=
  match d with
  | DoObserve => Reader_Observe r
  | DoClearData => Reader_ClearData r
  | DoSetHistoryDepth n => Reader_SetHistoryDepth r n
  end.

(** A method of a reader that does not exist is not called. *)
Inductive RtOp :=
| OpNew (rid : nat) (node channel : string) (id ty : Z) (depth : nat) (func : option nat) (size : Z)
| OpInit (now : Z) (rid : nat)
| OpShutdown (rid : nat)
| OpData (rid : nat) (d : DataOp)
| OpMessage (ty channel : Z) (m : nat)
| OpTurn (now : Z) (g : string) (slice : CRoutine → CRoutine)
| OpTask (now : Z) (name : string).

Definition rt_step (rt : Runtime) (op : RtOp) : option Runtime :=
  match op with
  | OpNew rid node channel id ty depth f size =>
      Some (match readers rt !! rid with
            | Some _ => rt
            | None => set_reader rt rid (Reader_new node channel id ty depth f size)
            end)
  | OpInit now rid => fst <$> Init_task now rt rid
  | OpShutdown rid => Shutdown_task rt rid
  | OpData rid d => Some (match readers rt !! rid with Some r => set_reader rt rid (data_op r d) | None => rt end)
  | OpMessage ty ch m => on_message rt ty ch m
  | OpTurn now g slice => fst <$> Processor_turn now g slice rt
  | OpTask now name => create_task now rt name
  end.
Definition rt_run (rt : Runtime) (ops : list RtOp) : option Runtime :=
  foldl (λ ort op, rt ← ort; rt_step rt op) (Some rt) ops.

Definition rt_new : Runtime :=
  mkRuntime (mkWorld ∅ ∅ ks_empty ∅ [] false 1) (process_new conf) ∅ ∅ [].

Definition rt_op_ok (op : RtOp) : Prop :=
  match op with
  | OpNew _ _ _ id _ _ _ _ | OpMessage _ id _ => is_u64 id
  | OpTurn _ _ slice => ∀ c, same_task c (slice c)
  | _ => True
  end.

(** ** A mailbox *)

(** What a reader is to its channel: messages are put into it, and each turn takes one,
    the oldest, or the newest of all at first and when more than [size] have piled up. *)
Record Mailbox := mkMailbox { mb_started : bool; mb_unread : list nat; mb_taken : list nat }.
Inductive MbEvent := Put (m : nat) | Take.
Definition mb_new : Mailbox := mkMailbox false [] [].
Definition mb_step (size : Z) (mb : Mailbox) (e : MbEvent) : Mailbox :=
  match e with
  | Put m => mkMailbox (mb_started mb) (mb_unread mb ++ [m]) (mb_taken mb)
  | Take =>
      match mb_unread mb with
      | [] => mb
      | m :: rest =>
          if mb_started mb && (Z.of_nat (length (m :: rest)) <=? size)
          then mkMailbox true rest (mb_taken mb ++ [m])
          else mkMailbox true [] (mb_taken mb ++ [default m (last rest)])
      end
  end.

(** What a call means to the mailbox of coroutine [p], whose reader listens to channel
    [ch] and type [ty]. *)
Definition mb_event (p : CrPtr) (ty ch : Z) (rt : Runtime) (op : RtOp) : list MbEvent :=
  match op with
  | OpMessage ty' ch' m => if decide (ty' = ty ∧ ch' = ch) then [Put m] else []
  | OpTurn now g slice =>
      match Processor_turn now g slice rt with
      | Some (_, Some p') => if decide (p' = p) then [Take] else []
      | _ => []
      end
  | _ => []
  end.
Fixpoint mb_events (p : CrPtr) (ty ch : Z) (rt : Runtime) (ops : list RtOp) : list MbEvent :=
  match ops with
  | [] => []
  | op :: ops =>
      mb_event p ty ch rt op ++
      match rt_step rt op with Some rt => mb_events p ty ch rt ops | None => [] end
  end.

End runtime.

(** ** The mailbox keeps the order *)

Definition puts (l : list MbEvent) : list nat := omap (λ e, match e with Put m => Some m | Take => None end) l.

(** What was taken, and what is unread, came in this order. *)
Lemma mb_sublist size l :
  let mb := foldl (mb_step size) mb_new l in mb_taken mb ++ mb_unread mb `sublist_of` puts l.
Proof.
  cbn. induction l as [|e l IH] using rev_ind; [done|].
  rewrite foldl_snoc. unfold puts in *. rewrite omap_app. destruct e as [m|]; cbn.
  - rewrite app_assoc. by apply sublist_app.
  - rewrite app_nil_r. set (mb := foldl _ _ l) in *. destruct (mb_unread mb) as [|x rest] eqn:E; [by rewrite E|].
    destruct (_ && _); cbn; [by rewrite <- app_assoc|].
    rewrite app_nil_r. etrans; [|exact IH]. apply sublist_app; [done|].
    destruct (last rest) as [y|] eqn:El; cbn; [|by apply sublist_skip, sublist_nil_l].
    apply last_Some in El as (pre & ->). by apply sublist_cons, sublist_inserts_l.
Qed.

(** ** Buffers *)

Definition box_rel (size : Z) (b : Buffer) (next : Z) (mb : Mailbox) (hist : list nat) : Prop :=
  represents b ((λ m, Msg (Z.of_nat m)) <$> hist) ∧ fusion_callback_ b = None ∧ capacity_ b = size + 1 ∧
  0 <= next <= Z.of_nat (length hist) + 1 ∧
  mb_started mb = bool_decide (0 < next) ∧ mb_unread mb = drop (Z.to_nat (next - 1)) hist.

Lemma box_new size : 0 < size < 2 ^ 32 → box_rel size (CacheBuffer_new Null size) 0 mb_new [].
Proof.
  intros Hs. split; [apply CacheBuffer_new_represents; lia|]. split; [done|].
  split; [cbn; rewrite u64_small; [lia|unfold is_u64; lia]|]. cbn. by repeat split.
Qed.

Lemma box_put size b next mb hist m :
  box_rel size b next mb hist → Z.of_nat (length hist) + 1 < 2 ^ 64 - 1 →
  box_rel size (Fill b (Msg (Z.of_nat m))).1 next (mb_step size mb (Put m)) (hist ++ [m]).
Proof.
  intros (Hr & Hf & Hc & Hn & Hs & Hu) Hl.
  destruct (Fill_represents b _ (Msg (Z.of_nat m)) Hr Hf) as (Hr' & _ & Hf' & Hc'); [by rewrite length_fmap|].
  split; [by rewrite fmap_app|]. split; [done|]. split; [congruence|]. cbn. rewrite length_app. cbn.
  split; [lia|]. split; [done|]. rewrite Hu, drop_app_le by lia. done.
Qed.

Lemma box_take size b next mb hist :
  0 < size → box_rel size b next mb hist →
  match Fetch b next with
  | None => mb_unread mb = []
  | Some (i, p) => ∃ m, p = Msg (Z.of_nat m) ∧ mb_taken (mb_step size mb Take) = mb_taken mb ++ [m] ∧
      u64 (i + 1) = i + 1 ∧ box_rel size b (i + 1) (mb_step size mb Take) hist
  end.
Proof.
  intros Hs0 (Hr & Hf & Hc & Hn & Hs & Hu). pose proof (rep_bound _ _ Hr) as Hb. pose proof (rep_tail _ _ Hr) as Ht.
  pose proof (Fetch_spec b _ next Hr ltac:(lia)) as HF. rewrite length_fmap in *. specialize (HF Hn).
  destruct (Fetch b next) as [[i p]|].
  - destruct HF as (Hx & Hrange & Hi). apply list_lookup_fmap_Some in Hx as (m & -> & Hm).
    assert (i - 1 < Z.of_nat (length hist)) by lia. exists m. split; [done|].
    assert (drop (Z.to_nat (i - 1)) hist = m :: drop (Z.to_nat i) hist) as Hd.
    { rewrite (drop_S _ m) by done. do 2 f_equal. lia. }
    assert (mb_unread mb ≠ []) as Hne.
    { rewrite Hu. intros E%(f_equal length). rewrite length_drop in E. cbn in E. case_decide; lia. }
    assert (length (mb_unread mb) = length hist - Z.to_nat (next - 1))%nat as Hlen by (rewrite Hu; apply length_drop).
    assert (∀ x rest, mb_unread mb = x :: rest → i = Z.of_nat (length hist) → default x (last rest) = m) as Hnewest.
    { intros x rest Eu Ei. assert (last (mb_unread mb) = Some m) as El.
      { rewrite last_lookup, Hu, length_drop, lookup_drop, <- Hm. f_equal. rewrite Eu in Hlen. cbn in Hlen. lia. }
      rewrite Eu, last_cons in El. by destruct (last rest); injection El. }
    assert (mb_step size mb Take = mkMailbox true (drop (Z.to_nat i) hist) (mb_taken mb ++ [m])) as E.
    { cbn. destruct (mb_unread mb) as [|x rest] eqn:Eu; [done|]. rewrite Hs. cbn [length] in Hlen.
      destruct (decide (0 < next)) as [H0|H0];
        [rewrite bool_decide_true by done; destruct (Z.leb_spec (Z.of_nat (S (length rest))) size)
        |rewrite bool_decide_false by done]; cbn [andb length].
      + rewrite decide_False in Hi by lia. subst i. rewrite Hd in Hu. injection Hu as -> ->. done.
      + rewrite decide_True in Hi by lia. f_equal; [by rewrite drop_ge by lia|]. f_equal. f_equal.
        by apply Hnewest.
      + rewrite decide_True in Hi by lia. f_equal; [by rewrite drop_ge by lia|]. do 2 f_equal. by apply Hnewest. }
    rewrite E. cbn [mb_taken]. split; [done|]. split; [apply u64_small; unfold is_u64; lia|].
    split; [done|]. split; [done|]. split; [done|]. split; [lia|]. cbn.
    split; [by rewrite bool_decide_true by lia|]. f_equal. lia.
  - rewrite Hu. apply drop_ge. destruct HF as [E%fmap_nil_inv| ->]; [subst; cbn; lia|lia].
Qed.

(** ** The tables of the data path *)

Abbreviation RWorld := (World (M := AtomicHashMap (list Z))).
Implicit Types (w : RWorld).

Definition listed (w : RWorld) (ty ch : Z) : option (list Z) := ks_view (dispatcher w ty) ch.
Definition notified_of (w : RWorld) (ch : Z) : option (list Z) := ks_view (notifies_map_ w) ch.

(** No fusion here, and every buffer is registered for one channel and type at most. *)
Record world_inv (w : RWorld) : Prop := {
  wi_notifies : ks_inv (notifies_map_ w);
  wi_disp : ∀ ty, ks_inv (dispatcher w ty);
  wi_up : is_shutdown w = false;
  wi_listed : ∀ ty ch l, is_u64 ch → listed w ty ch = Some l → NoDup l ∧ ∀ i, i ∈ l → i < next_id w;
  wi_owner : ∀ ty ch l ty' ch' l' i, is_u64 ch → is_u64 ch' →
    listed w ty ch = Some l → listed w ty' ch' = Some l' → i ∈ l → i ∈ l' → ty = ty' ∧ ch = ch';
  wi_plain : ∀ i b, buffers w !! i = Some b → fusion_callback_ b = None
}.

(** What ties a visitor to its channel. *)
Record wlink (w : RWorld) (ty ch : Z) (v : DataVisitor) : Prop := {
  wl_u64 : is_u64 ch;
  wl_buffer : fetch_buffer v < next_id w;
  wl_notifier : notifier_ v < next_id w;
  wl_listed : ∃ l, listed w ty ch = Some l ∧ fetch_buffer v ∈ l;
  wl_notified : ∃ ns, notified_of w ch = Some ns ∧ notifier_ v ∈ ns;
  wl_callback : notifiers w !! notifier_ v = Some (Some (notifier_ v));
  wl_live : is_Some (buffers w !! fetch_buffer v)
}.

(** The tables of [w'] are those of [w]. *)
Definition same_tables (w w' : RWorld) : Prop :=
  dispatchers w' = dispatchers w ∧ notifies_map_ w' = notifies_map_ w ∧ next_id w' = next_id w ∧
  is_shutdown w' = is_shutdown w.

Lemma world_inv_same w w' :
  world_inv w → same_tables w w' → (∀ i b, buffers w' !! i = Some b → fusion_callback_ b = None) → world_inv w'.
Proof.
  intros [H1 H2 H3 H4 H5 H6] (E1 & E2 & E3 & E4) Hb.
  assert (∀ ty, dispatcher w' ty = dispatcher w ty) as Ed by (intros; unfold dispatcher; by rewrite E1).
  assert (∀ ty ch, listed w' ty ch = listed w ty ch) as El by (intros; unfold listed; by rewrite Ed).
  split; [by rewrite E2|intros; by rewrite Ed|by rewrite E4| | |done].
  - intros ty ch l. rewrite El, E3. apply H4.
  - intros ty ch l ty' ch' l'. rewrite !El. apply H5.
Qed.

Lemma wlink_same w w' ty ch v :
  wlink w ty ch v → same_tables w w' → notifiers w' !! notifier_ v = Some (Some (notifier_ v)) →
  is_Some (buffers w' !! fetch_buffer v) → wlink w' ty ch v.
Proof.
  intros [H1 H2 H3 H4 H5 H6 H7] (E1 & E2 & E3 & E4) Hn Hb.
  split; try done; unfold listed, notified_of, dispatcher in *; by rewrite ?E1, ?E2, ?E3.
Qed.

Lemma visitor_new_spec w c :
  world_inv w → is_u64 (channel_id c) →
  let w' := (DataVisitor1_new w c).1 in
  (DataVisitor1_new w c).2 = mkDataVisitor 0 (next_id w + 1) (next_id w) ∧
  buffers w' = <[next_id w := CacheBuffer_new Null (queue_size c)]> (buffers w) ∧
  notifiers w' = <[next_id w + 1 := None]> (notifiers w) ∧ next_id w' = next_id w + 2 ∧
  called w' = called w ∧ is_shutdown w' = is_shutdown w ∧
  ks_inv (notifies_map_ w') ∧ (∀ ty, ks_inv (dispatcher w' ty)) ∧
  (∀ ty ch, is_u64 ch → listed w' ty ch =
     if decide (ty = msg_type c ∧ ch = channel_id c) then Some (default [] (listed w ty ch) ++ [next_id w])
     else listed w ty ch) ∧
  (∀ ch, is_u64 ch → notified_of w' ch =
     if decide (ch = channel_id c) then Some (default [] (notified_of w ch) ++ [next_id w + 1])
     else notified_of w ch).
Proof.
  intros Hw Hu w'.
  pose proof (λ k', append_view (dispatcher w (msg_type c)) (channel_id c) (next_id w) k' (wi_disp _ Hw _) Hu) as Hd.
  pose proof (λ k', append_view (notifies_map_ w) (channel_id c) (next_id w + 1) k' (wi_notifies _ Hw) Hu) as Hn.
  cbn zeta in Hd, Hn.
  split; [done|]. split; [done|]. split; [done|]. split; [cbn; lia|]. split; [done|]. split; [done|].
  split; [by apply (Hn (channel_id c))|].
  assert (∀ ty, dispatcher w' ty =
    if decide (ty = msg_type c) then AddBuffer (dispatcher w (msg_type c)) (channel_id c) (next_id w)
    else dispatcher w ty) as Ed.
  { intros ty. unfold dispatcher at 1. cbn. case_decide as E; [subst; by rewrite lookup_insert_eq|].
    by rewrite lookup_insert_ne by done. }
  split.
  { intros ty. rewrite Ed. case_decide; [|apply Hw]. by apply (Hd (channel_id c)). }
  split.
  - intros ty ch Hch. unfold listed at 1. rewrite Ed. case_decide as E.
    + subst ty. unfold AddBuffer. rewrite (proj2 (Hd ch Hch)).
      destruct (decide (channel_id c = ch)) as [->|]; [by rewrite decide_True|].
      by rewrite decide_False by naive_solver.
    + by rewrite decide_False by naive_solver.
  - intros ch Hch. etrans; [exact (proj2 (Hn ch Hch))|].
    destruct (decide (channel_id c = ch)) as [->|]; [by rewrite decide_True|by rewrite decide_False by done].
Qed.

Lemma visitor_new_inv w c : world_inv w → is_u64 (channel_id c) → world_inv (DataVisitor1_new w c).1.
Proof.
  intros Hw Hu. destruct (visitor_new_spec w c Hw Hu) as (_ & Eb & En & Ex & _ & Es & Hi & Hd & El & _).
  set (w' := (DataVisitor1_new w c).1) in *.
  assert (∀ ty ch l i, is_u64 ch → listed w' ty ch = Some l → i ∈ l →
    (i = next_id w ∧ ty = msg_type c ∧ ch = channel_id c) ∨
    ∃ l0, listed w ty ch = Some l0 ∧ i ∈ l0 ∧ i < next_id w) as Hin.
  { intros ty ch l i Hc. rewrite El by done. case_decide as E.
    - intros [= <-] [Hi'| ->%list_elem_of_singleton]%elem_of_app; [|naive_solver].
      right. destruct (listed w ty ch) as [l0|] eqn:E0; [|set_solver].
      exists l0. split; [done|]. split; [done|]. destruct (wi_listed _ Hw ty ch l0 Hc E0) as [_ Hb]. by apply Hb.
    - intros H Hx. right. exists l. split; [done|]. split; [done|]. destruct (wi_listed _ Hw ty ch l Hc H) as [_ Hb]. by apply Hb. }
  split; [done|done|by rewrite Es; apply Hw| | |].
  - intros ty ch l Hc Hl. split.
    + rewrite El in Hl by done. case_decide; [|by destruct (wi_listed _ Hw _ _ _ Hc Hl)]. injection Hl as <-.
      destruct (listed w ty ch) as [l0|] eqn:E0; cbn; [|apply NoDup_singleton].
      destruct (wi_listed _ Hw _ _ _ Hc E0) as [Hn Hlt]. apply NoDup_app. split; [done|].
      split; [|apply NoDup_singleton]. intros i Hi' ->%list_elem_of_singleton. apply Hlt in Hi'. lia.
    + intros i Hi'. rewrite Ex. destruct (Hin ty ch l i Hc Hl Hi') as [[-> _]|(_ & _ & _ & ?)]; lia.
  - intros ty ch l ty' ch' l' i Hc Hc' Hl Hl' Hi1 Hi2.
    destruct (Hin _ _ _ _ Hc Hl Hi1) as [(E & -> & ->)|(l1 & E1 & I1 & B1)],
      (Hin _ _ _ _ Hc' Hl' Hi2) as [(E' & -> & ->)|(l2 & E2 & I2 & B2)]; [done|lia|lia|].
    by apply (wi_owner _ Hw ty ch l1 ty' ch' l2 i).
  - intros i b. rewrite Eb. intros [[<- <-]|[_ ?]]%lookup_insert_Some; [done|by eapply (wi_plain _ Hw)].
Qed.

Lemma visitor_new_link w c ty ch v :
  world_inv w → is_u64 (channel_id c) → wlink w ty ch v → wlink (DataVisitor1_new w c).1 ty ch v.
Proof.
  intros Hw Hu [H1 H2 H3 (l & H4 & H4') (ns & H5 & H5') H6 H7].
  destruct (visitor_new_spec w c Hw Hu) as (_ & Eb & En & Ex & _ & _ & _ & _ & El & Eno).
  set (w' := (DataVisitor1_new w c).1) in *. split; rewrite ?Ex, ?Eb, ?En; try lia; try done.
  - rewrite El, H4 by done. case_decide; [|by exists l]. eexists. split; [done|]. cbn. set_solver.
  - rewrite Eno, H5 by done. case_decide; [|by exists ns]. eexists. split; [done|]. cbn. set_solver.
  - by rewrite lookup_insert_ne by lia.
  - by rewrite lookup_insert_ne by lia.
Qed.

(** The visitor of a task that was accepted is linked. *)
Lemma visitor_new_linked w c :
  world_inv w → is_u64 (channel_id c) →
  let '(w', v) := DataVisitor1_new w c in
  wlink (RegisterNotifyCallback w' v (notifier_ v)) (msg_type c) (channel_id c) v.
Proof.
  intros Hw Hu. destruct (visitor_new_spec w c Hw Hu) as (Ev & Eb & En & Ex & _ & _ & _ & _ & El & Eno).
  rewrite (surjective_pairing (DataVisitor1_new w c)), Ev. set (w' := (DataVisitor1_new w c).1) in *.
  split; cbn [fetch_buffer notifier_]; try done; cbn; try lia.
  - change (listed _ _ _) with (listed w' (msg_type c) (channel_id c)). rewrite El, decide_True by done.
    eexists. split; [done|set_solver].
  - change (notified_of _ _) with (notified_of w' (channel_id c)). rewrite Eno, decide_True by done.
    eexists. split; [done|set_solver].
  - by rewrite lookup_insert_eq.
  - change (is_Some (buffers w' !! next_id w)). rewrite Eb, lookup_insert_eq. eauto.
Qed.

Lemma drop_visitor_inv w v : world_inv w → world_inv (drop_visitor w v).
Proof.
  intros Hw. apply (world_inv_same w); [done|done|].
  intros i b Hb. cbn in Hb. apply lookup_delete_Some in Hb as [_ Hb]. by apply (wi_plain _ Hw) in Hb.
Qed.

Lemma drop_visitor_link w v ty ch v' :
  fetch_buffer v' ≠ fetch_buffer v → wlink w ty ch v' → wlink (drop_visitor w v) ty ch v'.
Proof.
  intros Hne Hl. apply (wlink_same w); [done|done|apply Hl|]. cbn. rewrite lookup_delete_ne by done. apply Hl.
Qed.

Lemma register_inv w v cb : world_inv w → world_inv (RegisterNotifyCallback w v cb).
Proof. intros Hw. apply (world_inv_same w); [done|done|apply Hw]. Qed.

Lemma register_link w v cb ty ch v' :
  notifier_ v' ≠ notifier_ v → wlink w ty ch v' → wlink (RegisterNotifyCallback w v cb) ty ch v'.
Proof.
  intros Hne Hl. apply (wlink_same w); [done|done| |apply Hl]. cbn. rewrite lookup_insert_ne by done. apply Hl.
Qed.

(** ** Dispatching a message *)

Lemma fill_plain (σ : Store) l m i :
  (∀ j b, σ !! j = Some b → fusion_callback_ b = None) → NoDup l →
  foldl (λ σ id, store_fill σ id m) σ l !! i =
  (λ b, if decide (i ∈ l) then (Fill b m).1 else b) <$> σ !! i.
Proof.
  intros Hp Hn. revert σ Hp. induction Hn as [|j l Hj Hn IH]; intros σ Hp; cbn [foldl]; [by destruct (σ !! i)|].
  assert (∀ x, store_fill σ j m !! x = (λ b, if decide (x = j) then (Fill b m).1 else b) <$> σ !! x) as Hs.
  { intros x. unfold store_fill. destruct (σ !! j) as [b|] eqn:Eb.
    - assert (Fill b m = ((Fill b m).1, None)) as ->.
      { unfold Fill. rewrite (Hp j b Eb). by destruct (Full b). }
      destruct (decide (x = j)) as [->|]; [by rewrite lookup_insert_eq, Eb|].
      rewrite lookup_insert_ne by done. by destruct (σ !! x).
    - destruct (decide (x = j)) as [->|]; [by rewrite !Eb|by destruct (σ !! x)]. }
  rewrite IH.
  - rewrite Hs. destruct (σ !! i) as [b|]; [|done]. cbn. f_equal.
    destruct (decide (i = j)) as [->|]; [by rewrite (decide_False (P := j ∈ l)), (decide_True (P := j ∈ j :: l)) by set_solver|].
    destruct (decide (i ∈ l)); [by rewrite (decide_True (P := i ∈ j :: l)) by set_solver|by rewrite (decide_False (P := i ∈ j :: l)) by set_solver].
  - intros x b. rewrite Hs. intros (b0 & E & ->)%fmap_Some. cbv beta.
    destruct (decide (x = j)); [rewrite Fill_callback|]; by eapply Hp.
Qed.

Lemma dispatch_spec w ty ch m :
  world_inv w → is_u64 ch →
  let w' := (Dispatch w ty ch m).1 in
  same_tables w w' ∧ notifiers w' = notifiers w ∧
  called w' = called w ++ match listed w ty ch with
                          | Some _ => notify_calls (notifiers w) (default [] (notified_of w ch))
                          | None => []
                          end ∧
  ∀ i, buffers w' !! i = (λ b, if decide (i ∈ default [] (listed w ty ch)) then (Fill b m).1 else b) <$> buffers w !! i.
Proof.
  intros Hw Hu w'. unfold w'. rewrite Dispatch_spec, (wi_up _ Hw) by apply Hw.
  rewrite Notify_spec by apply Hw. fold (listed w ty ch) (notified_of w ch).
  destruct (listed w ty ch) as [l|] eqn:El.
  - destruct (wi_listed _ Hw _ _ _ Hu El) as [Hn _].
    destruct (notified_of w ch); cbn; (split; [by repeat split; symmetry; apply Hw|]); (split; [done|]);
      (split; [done|]); intros i; by apply fill_plain; [apply Hw|].
  - cbn. split; [done|]. split; [done|]. split; [by rewrite app_nil_r|]. intros i.
    by destruct (buffers w !! i).
Qed.

Lemma dispatch_inv w ty ch m : world_inv w → is_u64 ch → world_inv (Dispatch w ty ch m).1.
Proof.
  intros Hw Hu. destruct (dispatch_spec w ty ch m Hw Hu) as (Es & _ & _ & Eb).
  apply (world_inv_same w); [done|done|]. intros i b. rewrite Eb.
  intros (b0 & E & ->)%fmap_Some. cbv beta.
  destruct (decide _); [rewrite Fill_callback|]; by eapply (wi_plain _ Hw).
Qed.

Lemma dispatch_link w ty ch m ty' ch' v :
  world_inv w → is_u64 ch → wlink w ty' ch' v → wlink (Dispatch w ty ch m).1 ty' ch' v.
Proof.
  intros Hw Hu Hl. destruct (dispatch_spec w ty ch m Hw Hu) as (Es & En & _ & Eb).
  apply (wlink_same w); [done|done|rewrite En; apply Hl|]. rewrite Eb. destruct (wl_live _ _ _ _ Hl) as [b ->]. eauto.
Qed.

(** The buffer of a linked visitor gets exactly the messages of its channel and type. *)
Lemma dispatch_fills w ty ch m ty' ch' v b :
  world_inv w → is_u64 ch → wlink w ty' ch' v → buffers w !! fetch_buffer v = Some b →
  buffers (Dispatch w ty ch m).1 !! fetch_buffer v =
  Some (if decide (ty = ty' ∧ ch = ch') then (Fill b m).1 else b).
Proof.
  intros Hw Hu Hl Hb. destruct (dispatch_spec w ty ch m Hw Hu) as (_ & _ & _ & Eb). rewrite Eb, Hb. cbn. f_equal.
  destruct (wl_listed _ _ _ _ Hl) as (l & El & Hin). destruct (decide (ty = ty' ∧ ch = ch')) as [[-> ->]|Hne].
  - by rewrite El, decide_True.
  - rewrite decide_False; [done|]. destruct (listed w ty ch) as [l'|] eqn:E'; [|set_solver]. cbn. intros Hin'.
    apply Hne. by apply (wi_owner _ Hw ty ch l' ty' ch' l (fetch_buffer v)); try done; apply Hl.
Qed.

(** The notifier of a linked visitor is among those called. *)
Lemma dispatch_calls w ty ch m v :
  world_inv w → wlink w ty ch v →
  notifier_ v ∈ drop (length (called w)) (called (Dispatch w ty ch m).1).
Proof.
  intros Hw Hl. destruct (dispatch_spec w ty ch m Hw (wl_u64 _ _ _ _ Hl)) as (_ & _ & Ec & _).
  destruct (wl_listed _ _ _ _ Hl) as (l & El & _). destruct (wl_notified _ _ _ _ Hl) as (ns & En & Hin).
  rewrite Ec, drop_app_length, El, En. cbn. unfold notify_calls. apply list_elem_of_omap.
  exists (notifier_ v). split; [done|]. by rewrite (wl_callback _ _ _ _ Hl).
Qed.

(** ** The coroutines of readers *)

Section processes.
Context (Hash : string → Z) (Hash_u64 : ∀ s, is_u64 (Hash s)).
#[local] Set Default Proof Using "Type".
Implicit Types (q : Process).

(** At most [n] task names are registered. *)
Record proc_inv (n : nat) q : Prop := {
  pi_sched : classic_inv (sched q);
  pi_free : all_released (sched q);
  pi_up : stop_ (sched q) = false;
  pi_names : registry_inv Hash (task_id_map_ (registries q));
  pi_cover : ∃ ks, covers (task_id_map_ (registries q)) ks ∧ (length ks <= n)%nat
}.

Definition at_rest (c : CRoutine) : Prop := state_ c = READY ∨ state_ c = DATA_WAIT.
(** A scan finds it ready, whatever the time. *)
Definition wakes (c : CRoutine) : Prop := state_ c = READY ∨ (state_ c = DATA_WAIT ∧ updated_ c = false).

(** The coroutine [c] at [p], which the notifier of visitor [v] notifies. *)
Record cr_ok q (p : CrPtr) (v : DataVisitor) (c : CRoutine) : Prop := {
  co_heap : heap (sched q) !! p = Some c;
  co_id : id_cr_ (sched q) !! id_ c = Some p;
  co_stop : force_stop_ c = false;
  co_state : at_rest c;
  co_callback : callbacks q !! notifier_ v = Some (id_ c)
}.

(** What happens to a coroutine that is not running. *)
Definition kept (c c' : CRoutine) : Prop :=
  id_ c' = id_ c ∧ force_stop_ c' = force_stop_ c ∧ (at_rest c → at_rest c') ∧ (wakes c → wakes c').

#[export] Instance kept_refl : Reflexive kept.
Proof. done. Qed.
#[export] Instance kept_trans : Transitive kept.
Proof. intros a b c (H1 & H2 & H3 & H4) (G1 & G2 & G3 & G4). repeat split; try congruence; auto. Qed.

Lemma wakes_ready now c : wakes c → ready_at now c = true.
Proof. intros [H|[H1 H2]]; apply ready_at_spec; rewrite ?H1, ?H2; auto. Qed.

Lemma kept_notified c : kept c (notified c).
Proof.
  unfold kept, notified, at_rest, wakes, waits_for_event. destruct (state_ c) eqn:E; cbn; rewrite ?E; naive_solver.
Qed.

Lemma notified_wakes c : at_rest c → wakes (notified c).
Proof. unfold at_rest, wakes, notified. intros [E|E]; rewrite E; cbn; rewrite ?E; auto. Qed.

Lemma kept_passed now c : at_rest c → ready_at now c = false → kept c (UpdateState now c).
Proof.
  intros Hr Hn. destruct (UpdateState_frame now c) as (_ & _ & Hf & _ & _ & Hi & _).
  split; [done|]. split; [done|]. split; [intros _|intros Hw; by rewrite (wakes_ready now) in Hn].
  unfold at_rest, UpdateState, sleep_over, take_event, test_and_set_updated in *.
  destruct Hr as [E|E]; rewrite E; cbn; destruct (updated_ c); cbn; rewrite ?E; cbn; auto.
Qed.

Lemma cr_ok_kept q q' p v c c' :
  cr_ok q p v c → heap (sched q') !! p = Some c' → kept c c' → id_cr_ (sched q') = id_cr_ (sched q) →
  callbacks q' = callbacks q → cr_ok q' p v c'.
Proof.
  intros [H1 H2 H3 H4 H5] Hp (E1 & E2 & E3 & _) Ei Ec. split; rewrite ?Ei, ?Ec, ?E1, ?E2; auto.
Qed.

(** Processes of the same tasks and names, with every coroutine kept. *)
Definition calm q q' : Prop :=
  registries q' = registries q ∧ callbacks q' = callbacks q ∧ id_cr_ (sched q') = id_cr_ (sched q) ∧
  fresh (sched q') = fresh (sched q) ∧
  ∀ x c, heap (sched q) !! x = Some c → ∃ c', heap (sched q') !! x = Some c' ∧ (at_rest c → kept c c').

#[export] Instance calm_refl : Reflexive calm.
Proof. intros q. split_and!; try done. eauto using kept_refl. Qed.
#[export] Instance calm_trans : Transitive calm.
Proof.
  intros a b c (E1 & E2 & E3 & E4 & E5) (F1 & F2 & F3 & F4 & F5). split_and!; try congruence.
  intros x r Hr. destruct (E5 x r Hr) as (r' & Hr' & Hk). destruct (F5 x r' Hr') as (r'' & Hr'' & Hk').
  exists r''. split; [done|]. intros Ha. specialize (Hk Ha). etrans; [exact Hk|]. apply Hk', Hk, Ha.
Qed.

Lemma cr_ok_calm q q' p v c : cr_ok q p v c → calm q q' → ∃ c', cr_ok q' p v c' ∧ (wakes c → wakes c').
Proof.
  intros Hc (_ & E2 & E3 & _ & E5). destruct (E5 p c (co_heap _ _ _ _ Hc)) as (c' & Hc' & Hk).
  specialize (Hk (co_state _ _ _ _ Hc)). exists c'. split; [by eapply cr_ok_kept|apply Hk].
Qed.

Lemma run_callback_spec n q v :
  proc_inv n q →
  ∃ q', run_callback q v = Some q' ∧ proc_inv n q' ∧ calm q q' ∧
    ∀ p v' c, notifier_ v' = v → cr_ok q p v' c → ∃ c', cr_ok q' p v' c' ∧ wakes c'.
Proof.
  intros Hq. unfold run_callback. destruct (callbacks q !! v) as [t|] eqn:Et.
  2: { exists q. split; [done|]. split; [done|]. split; [done|].
       intros p v' c <- Hc. rewrite (co_callback _ _ _ _ Hc) in Et. done. }
  rewrite (pi_up _ _ Hq).
  destruct (NotifyProcessor_inv (sched q) t (pi_sched _ _ Hq)) as (s & b & E & Hs).
  destruct (NotifyProcessor_heap (sched q) t (pi_sched _ _ Hq) (pi_up _ _ Hq)) as (s' & b' & E' & Ei & Ef & Est & Eh).
  rewrite E in E'. injection E' as <- <-. rewrite E. cbn.
  assert (∀ x c, heap (sched q) !! x = Some c → ∃ c', heap s !! x = Some c' ∧ lock_ c' = lock_ c ∧ kept c c') as Hk.
  { intros x c Hx. rewrite Eh, Hx. case_decide; [|by exists c].
    exists (notified c). split; [done|]. split; [|apply kept_notified]. unfold notified. by destruct (waits_for_event _). }
  eexists. split; [done|]. split; [|split].
  - destruct Hq as [H1 H2 H3 H4 H5]. split; try done. intros x c Hx. cbn in Hx. rewrite Eh in Hx.
    case_decide; [|by eapply H2]. apply fmap_Some in Hx as (c0 & Hc0 & ->). unfold notified.
    destruct (waits_for_event _); cbn; by eapply H2.
  - split_and!; try done. intros x c Hx. destruct (Hk x c Hx) as (c' & Hx' & _ & Hkept). eauto.
  - intros p v' c <- Hc. pose proof (co_callback _ _ _ _ Hc) as Ec. rewrite Et in Ec. injection Ec as ->.
    assert (heap s !! p = Some (notified c)) as Hp.
    { rewrite Eh, decide_True by apply Hc. by rewrite (co_heap _ _ _ _ Hc). }
    exists (notified c). split; [|apply notified_wakes, Hc].
    eapply cr_ok_kept; [exact Hc|exact Hp|apply kept_notified|done|done].
Qed.

Lemma run_callbacks_spec n q l :
  proc_inv n q →
  ∃ q', run_callbacks q l = Some q' ∧ proc_inv n q' ∧ calm q q' ∧
    ∀ p v c, notifier_ v ∈ l → cr_ok q p v c → ∃ c', cr_ok q' p v c' ∧ wakes c'.
Proof.
  clear Hash_u64. unfold run_callbacks. revert q. induction l as [|x l IH]; intros q Hq; cbn [foldl].
  { exists q. split; [done|]. split; [done|]. split; [done|]. intros p v c Hin. set_solver. }
  destruct (run_callback_spec n q x Hq) as (q1 & E & Hq1 & Hc1 & Hw1). cbn [mbind option_bind]. rewrite E.
  destruct (IH q1 Hq1) as (q' & E' & Hq' & Hc' & Hw'). exists q'. split; [exact E'|]. split; [done|].
  split; [by etrans|]. intros p v c Hin Hc. destruct (decide (notifier_ v = x)) as [Ex|Hne].
  - destruct (Hw1 p v c Ex Hc) as (c1 & Hok1 & Hwk). destruct (cr_ok_calm _ _ _ _ _ Hok1 Hc') as (c2 & ? & ?). eauto.
  - destruct (cr_ok_calm _ _ _ _ _ Hc Hc1) as (c1 & Hok1 & _). apply (Hw' p v c1); [set_solver|done].
Qed.

(** Creating a task: the others stay, and the new one is ready. *)
Lemma CreateTask_spec conf fuel n q now name visitor :
  groups conf ≠ [] → proc_inv n q → (n < fuel)%nat → Z.of_nat fuel < 2 ^ 64 →
  ∃ q' ok, Scheduler_CreateTask Hash fuel conf now q name visitor = Some (q', ok) ∧ proc_inv (S n) q' ∧
    fresh (sched q') = S (fresh (sched q)) ∧
    (∀ p v c, visitor ≠ Some (notifier_ v) → cr_ok q p v c → cr_ok q' p v c) ∧
    (ok = true → ∀ v, visitor = Some (notifier_ v) →
       ∃ c, cr_ok q' (fresh (sched q)) v c ∧ wakes c).
Proof using Hash_u64.
  intros Hg Hq Hn Hf. destruct (pi_cover _ _ Hq) as (ks & Hc & Hlen). unfold Scheduler_CreateTask. rewrite (pi_up _ _ Hq).
  destruct (Register_spec Hash Hash_u64 fuel (task_id_map_ (registries q)) name ks (pi_names _ _ Hq) Hc ltac:(lia) Hf)
    as (m & t & Er & _ & Hreg & Hcov & _).
  unfold RegisterTaskName. rewrite Er. cbn [mbind option_bind].
  destruct (CreateTask_inv conf now (sched q) name t Hg (pi_sched _ _ Hq)) as (s & E & Hs & _ & Hst & Hr).
  destruct (CreateTask_heap conf now (sched q) name t Hg (pi_sched _ _ Hq) (pi_up _ _ Hq))
    as (s' & c & E' & Eh & Ef & Ei & Hid & Hst' & Hfs).
  rewrite E in E'. injection E' as <- Eok. rewrite E. cbn [mbind option_bind]. rewrite (pi_up _ _ Hq). cbn [negb andb].
  assert (heap (sched q) !! fresh (sched q) = None) as Hnone by (apply (ci_fresh _ (pi_sched _ _ Hq)); lia).
  set (reg := mkRegistries _ _ _ m).
  assert (∀ cb, proc_inv (S n) (mkProcess reg s cb)) as Hinv.
  { intros cb. split; cbn; [done|apply Hr, Hq|by rewrite Hst; apply Hq|done|]. exists (t :: ks). split; [done|cbn; lia]. }
  assert (∀ p v c0 cb, cb !! notifier_ v = callbacks q !! notifier_ v → cr_ok q p v c0 → cr_ok (mkProcess reg s cb) p v c0) as Hold.
  { intros p v c0 cb Ecb [H1 H2 H3 H4 H5]. split; cbn; [|rewrite Ei|done|done|congruence].
    - rewrite Eh, lookup_insert_ne by congruence. done.
    - case_decide; [|done]. by rewrite lookup_insert_ne by congruence. }
  case_bool_decide as Hid0; cbn [negb].
  - eexists _, true. split; [done|]. split; [apply Hinv|]. split; [exact Ef|]. split.
    + intros p v c0 Hv Hok. apply Hold; [|done]. destruct visitor as [x|]; [|done]. by rewrite lookup_insert_ne by congruence.
    + intros _ v ->. exists c. split; [|by left]. split; cbn; [by rewrite Eh, lookup_insert_eq| |done|by left|].
      * by rewrite Hid, Ei, decide_True, lookup_insert_eq.
      * by rewrite Hid, lookup_insert_eq.
  - eexists _, false. split; [done|]. split; [apply Hinv|]. split; [exact Ef|]. split; [|done]. intros p v c0 _ Hok. by apply Hold.
Qed.

(** Removing a task leaves the others. *)
Lemma RemoveTask_spec n q name :
  proc_inv n q →
  ∃ s' ok, Classic_RemoveTask Hash (sched q) name = Some (s', ok) ∧ proc_inv n (set_sched q s') ∧ fresh s' = fresh (sched q) ∧
    ∀ p v c, id_cr_ (sched q) !! Hash name ≠ Some p → cr_ok q p v c → cr_ok (set_sched q s') p v c.
Proof.
  intros Hq. unfold Classic_RemoveTask. rewrite (pi_up _ _ Hq).
  destruct (id_cr_ (sched q) !! Hash name) as [p0|] eqn:Ep.
  2: { unfold Classic_RemoveCRoutine. rewrite Ep. eexists _, _. split; [done|]. by destruct q. }
  destruct (ci_ids _ (pi_sched _ _ Hq) _ _ Ep) as (c0 & _ & Hc0 & _).
  destruct (RemoveCRoutine_known (sched q) _ p0 c0 (pi_sched _ _ Hq) Ep Hc0) as (s & E & Hs & Hd & Hl & Hst & Hf & Hh).
  pose proof (pi_free _ _ Hq _ _ Hc0) as Hlk. rewrite Hlk in E. exists s, true. split; [done|]. split; [|split; [done|]].
  - destruct Hq as [H1 H2 H3 H4 H5]. split; cbn; [done| |by rewrite Hst|done|done].
    intros x c Hx. specialize (Hl Hlk x). rewrite Hx in Hl. destruct (heap (sched q) !! x) as [c1|] eqn:E1; [|done].
    cbn in Hl. injection Hl as ->. by eapply H2.
  - intros p v c Hne [G1 G2 G3 G4 G5]. split; cbn; [by rewrite Hh by congruence| |done|done|done].
    rewrite Hd, lookup_delete_ne by congruence. done.
Qed.

(** [NextRoutine]: the routine it returns was ready, the others are kept. *)
Lemma NextRoutine_spec n q now g s next :
  proc_inv n q → ClassicContext_NextRoutine now (sched q) g = (s, next) →
  classic_inv s ∧ stop_ s = false ∧ id_cr_ s = id_cr_ (sched q) ∧ fresh s = fresh (sched q) ∧
  (∀ x c, heap (sched q) !! x = Some c → next ≠ Some x →
     ∃ c', heap s !! x = Some c' ∧ lock_ c' = false ∧ (at_rest c → kept c c')) ∧
  (∀ x c', heap s !! x = Some c' → is_Some (heap (sched q) !! x)) ∧
  (∀ p, next = Some p → ∃ c c', heap (sched q) !! p = Some c ∧ heap s !! p = Some c' ∧
     id_ c' = id_ c ∧ force_stop_ c' = force_stop_ c ∧ state_ c' = READY).
Proof.
  intros Hq E. pose proof (run_order_NoDup (sched q) g (pi_sched _ _ Hq)) as Hnd.
  pose proof (NextRoutine_inv now (sched q) g (pi_sched _ _ Hq) Hnd) as Hi. rewrite E in Hi.
  unfold ClassicContext_NextRoutine in E. rewrite (pi_up _ _ Hq) in E.
  destruct (scan now (heap (sched q)) (run_order (sched q) g)) as [h r] eqn:Es. injection E as <- ->.
  destruct (scan_spec _ _ _ _ _ Hnd Es) as [Hf Hr].
  split; [done|]. split; [apply Hq|]. split; [done|]. split; [done|]. split; [|split].
  - intros x c Hx Hne. destruct (scan_others _ _ _ _ _ x Hnd Es Hne) as [Ex|(c0 & Hx0 & Hn & Ex)]; cbn; rewrite Ex.
    + exists c. split; [done|]. split; [by eapply (pi_free _ _ Hq)|done].
    + rewrite Hx in Hx0. injection Hx0 as <-. eexists. split; [done|]. split; [|intros Ha; by apply kept_passed].
      destruct (UpdateState_frame now c) as (_ & -> & _). by eapply (pi_free _ _ Hq).
  - intros x c' Hx. specialize (Hf x). cbn in Hx. rewrite Hx in Hf. inversion Hf; eauto.
  - intros p ->. destruct Hr as (_ & _ & c & _ & _ & Hc & _ & Hready & Hc'). eexists _, _. split; [done|]. split; [done|].
    destruct (UpdateState_frame now c) as (_ & _ & Hfs & _ & _ & Hid & _). cbn. rewrite Hfs, Hid.
    split; [done|]. split; [done|]. by apply bool_decide_eq_true in Hready.
Qed.

(** The rest of the turn. *)
Lemma Processor_run_spec n q now g s p slice :
  (∀ c, same_task c (slice c)) → proc_inv n q → ClassicContext_NextRoutine now (sched q) g = (s, Some p) →
  ∃ c c' s', heap (sched q) !! p = Some c ∧ heap s !! p = Some c' ∧ id_ c' = id_ c ∧
    force_stop_ c' = force_stop_ c ∧ state_ c' = READY ∧ Processor_run slice s p = Some s' ∧
    proc_inv n (set_sched q s') ∧ id_cr_ s' = id_cr_ (sched q) ∧ fresh s' = fresh (sched q) ∧
    heap s' !! p = Some (Release (Resume slice c')) ∧
    ∀ x c, x ≠ p → heap (sched q) !! x = Some c → ∃ c', heap s' !! x = Some c' ∧ (at_rest c → kept c c').
Proof.
  intros Hsl Hq E. destruct (NextRoutine_spec n q now g s (Some p) Hq E) as (Hs & Hst & Ei & Ef & Ho & Hd & Hp).
  destruct (Hp p eq_refl) as (c & c' & Hc & Hc' & Hid & Hfs & Hst'). exists c, c'.
  assert (Processor_run slice s p = Some (set_heap s (<[p := Release (Resume slice c')]> (heap s)))) as Er
    by (unfold Processor_run; by rewrite Hc'). eexists. do 5 (split; [done|]). split; [exact Er|].
  split; [|split; [done|split; [done|split; [apply lookup_insert_eq|]]]].
  - destruct Hq as [H1 H2 H3 H4 H5]. split; cbn; [by eapply Processor_run_inv| |done|done|done].
    intros x r Hx. cbn in Hx. apply lookup_insert_Some in Hx as [[<- <-]|[Hne Hx]]; [done|].
    destruct (Hd x r Hx) as [r0 Hr0]. destruct (Ho x r0 Hr0) as (r' & Hr' & Hlk & _); [congruence|]. congruence.
  - intros x r Hne Hr. destruct (Ho x r Hr) as (r' & Hr' & _ & Hk); [congruence|]. exists r'. cbn.
    by rewrite lookup_insert_ne.
Qed.
End processes.
