(* ===== verification/ReaderMailbox.v ===== *)
(** * Readers are mailboxes

    The runtime of Reader, through any sequence of calls: its invariant, what each call
    does to the coroutines it does not concern and to its own, and the theorem that each
    reader's callback gets what a mailbox yields. *)

From stdpp Require Import base numbers list gmap strings.
From Stdlib Require Import ZArith Lia.
From S2P Require Import Prelude KeyedStore AtomicHashMap GlobalData Blocker CacheBuffer ChannelBuffer DataPath.
From S2P Require Import CRoutine Scheduler Reader.

Open Scope Z_scope.

Section runtime.
Context (Hash : string → Z) (Hash_u64 : ∀ s, is_u64 (Hash s)).
Implicit Types (q : Process) (w : RWorld).
#[local] Abbreviation proc_inv := (proc_inv Hash).

(** ** The invariant *)

Context (fuel : nat) (conf : ClassicConf) (Hgroups : groups conf ≠ []) (Hfuel : Z.of_nat fuel < 2 ^ 64).

Definition same_role (r r' : Reader) : Prop :=
  type_ r' = type_ r ∧ channel_id_ r' = channel_id_ r ∧ pending_queue_size_ r' = pending_queue_size_ r ∧
  reader_func_ r' = reader_func_ r.

#[local] Instance same_role_refl : Reflexive same_role.
Proof. done. Qed.

Record rt_inv (n : nat) (rt : Runtime) : Prop := {
  ri_world : world_inv (world rt);
  ri_proc : proc_inv n (process rt);
  ri_readers : ∀ rid r, readers rt !! rid = Some r → is_u64 (channel_id_ r);
  ri_routines : ∀ p rid v, routines rt !! p = Some (rid, v) →
    ∃ r c, readers rt !! rid = Some r ∧ wlink (world rt) (type_ r) (channel_id_ r) v ∧ cr_ok (process rt) p v c;
  ri_apart : ∀ p p' rid rid' v v', routines rt !! p = Some (rid, v) → routines rt !! p' = Some (rid', v') → p ≠ p' →
    fetch_buffer v ≠ fetch_buffer v'
}.

(** The coroutine [p] of a reader [rid] of these attributes, seen as the mailbox [mb];
    [hist] is what was put into it. *)
Record mail (rt : Runtime) (p : CrPtr) (rid : nat) (ty ch size : Z) (f : option nat) (mb : Mailbox)
    (hist : list nat) : Prop := {
  ml_box : ∃ v r c b, routines rt !! p = Some (rid, v) ∧ readers rt !! rid = Some r ∧
    type_ r = ty ∧ channel_id_ r = ch ∧ reader_func_ r = f ∧ cr_ok (process rt) p v c ∧
    buffers (world rt) !! fetch_buffer v = Some b ∧ box_rel size b (next_msg_index_ v) mb hist ∧
    (mb_unread mb ≠ [] → wakes c);
  ml_calls : filter (λ c, c_routine c = p) (calls rt) = mkCall p rid f <$> mb_taken mb
}.

(** Readers may change in anything but their roles, and new ones may come. *)
Definition readers_grow (rt rt' : Runtime) : Prop :=
  ∀ rid r, readers rt !! rid = Some r → ∃ r', readers rt' !! rid = Some r' ∧ same_role r r'.

Lemma readers_grow_insert rt rt' rid r r' :
  readers rt !! rid = Some r → same_role r r' → readers rt' = <[rid := r']> (readers rt) → readers_grow rt rt'.
Proof.
  intros Hr Hs E rid0 r0 Hr0. rewrite E. destruct (decide (rid = rid0)) as [->|].
  - rewrite lookup_insert_eq. rewrite Hr in Hr0. injection Hr0 as <-. eauto.
  - rewrite lookup_insert_ne by done. exists r0. done.
Qed.

Lemma readers_grow_same rt rt' : readers rt' = readers rt → readers_grow rt rt'.
Proof. intros E rid r Hr. rewrite E. exists r. done. Qed.

(** A coroutine the step does not concern. *)
Lemma mail_quiet rt rt' p rid ty ch size f mb hist :
  mail rt p rid ty ch size f mb hist → readers_grow rt rt' → routines rt' !! p = routines rt !! p →
  filter (λ c, c_routine c = p) (calls rt') = filter (λ c, c_routine c = p) (calls rt) →
  (∀ v, routines rt !! p = Some (rid, v) →
     buffers (world rt') !! fetch_buffer v = buffers (world rt) !! fetch_buffer v) →
  (∀ v c, routines rt !! p = Some (rid, v) → cr_ok (process rt) p v c →
     ∃ c', cr_ok (process rt') p v c' ∧ (wakes c → wakes c')) →
  mail rt' p rid ty ch size f mb hist.
Proof.
  intros [(v & r & c & b & Hp & Hr & Et & Ec & Ef & Hc & Hb & Hbox & Hw) Hcalls] Hg Ep El Hbuf Hcr.
  destruct (Hg rid r Hr) as (r' & Hr' & E1 & E2 & _ & E3). destruct (Hcr v c Hp Hc) as (c' & Hc' & Hw').
  split; [|congruence]. exists v, r', c', b. rewrite Ep, Hbuf, E1, E2, E3 by done. auto 12.
Qed.

Lemma proc_inv_S n q : proc_inv n q → proc_inv (S n) q.
Proof. intros [H1 H2 H3 H4 (ks & H5 & H6)]. split; try done. exists ks. auto. Qed.

(** A step that takes no coroutine away keeps the invariant. *)
Lemma rt_inv_keep n n' rt rt' :
  rt_inv n rt → world_inv (world rt') → proc_inv n' (process rt') → readers_grow rt rt' →
  (∀ rid r, readers rt' !! rid = Some r → is_u64 (channel_id_ r)) →
  (∀ p rid v', routines rt' !! p = Some (rid, v') →
     ∃ v, routines rt !! p = Some (rid, v) ∧ fetch_buffer v' = fetch_buffer v ∧ notifier_ v' = notifier_ v) →
  (∀ p rid v ty ch, routines rt !! p = Some (rid, v) → is_Some (routines rt' !! p) →
     wlink (world rt) ty ch v → wlink (world rt') ty ch v) →
  (∀ p rid v c, routines rt !! p = Some (rid, v) → is_Some (routines rt' !! p) →
     cr_ok (process rt) p v c → ∃ c', cr_ok (process rt') p v c') →
  rt_inv n' rt'.
Proof.
  intros Hi Hw Hp Hg Hu Hr Hl Hc. split; [done|done|done| |].
  - intros p rid v' Hv'. destruct (Hr _ _ _ Hv') as (v & Hv & Eb & En).
    destruct (ri_routines _ _ Hi _ _ _ Hv) as (r & c & Hrd & Hwl & Hok). destruct (Hg _ _ Hrd) as (r' & Hr' & E1 & E2 & _).
    destruct (Hc p rid v c Hv) as (c' & Hok'); [eauto|done|].
    exists r', c'. split; [done|]. rewrite E1, E2. split.
    + apply (Hl p rid v) in Hwl as [G1 G2 G3 G4 G5 G6 G7]; eauto. split; rewrite ?Eb, ?En; done.
    + destruct Hok'. split; rewrite ?En; done.
  - intros p p' rid rid' v v' Hv Hv' Hne.
    destruct (Hr _ _ _ Hv) as (v0 & Hv0 & -> & _). destruct (Hr _ _ _ Hv') as (v1 & Hv1 & -> & _).
    by apply (ri_apart _ _ Hi p p' rid rid').
Qed.

(** Coroutines come as new ones only, and call nothing before. *)
Definition grows (rt rt' : Runtime) : Prop :=
  (fresh (sched (process rt)) <= fresh (sched (process rt')))%nat ∧
  (∀ p, (p < fresh (sched (process rt)))%nat → is_Some (routines rt' !! p) → is_Some (routines rt !! p)) ∧
  ∀ p, (fresh (sched (process rt')) <= p)%nat →
    filter (λ c, c_routine c = p) (calls rt') = filter (λ c, c_routine c = p) (calls rt).

Lemma grows_same rt rt' :
  fresh (sched (process rt')) = fresh (sched (process rt)) → routines rt' = routines rt →
  calls rt' = calls rt → grows rt rt'.
Proof. intros E1 E2 E3. unfold grows. rewrite E1, E2, E3. auto. Qed.

(** What one step does: it succeeds, and every coroutine that stays sees its events. *)
Definition step_ok (n : nat) (rt : Runtime) (op : RtOp) : Prop :=
  ∃ rt', rt_step Hash fuel conf rt op = Some rt' ∧ rt_inv (S n) rt' ∧ grows rt rt' ∧
    ∀ p rid ty ch size f mb hist, 0 < size → Z.of_nat (length hist) + 1 < 2 ^ 64 - 1 →
      mail rt p rid ty ch size f mb hist → is_Some (routines rt' !! p) →
      ∃ hist', (length hist' <= S (length hist))%nat ∧
        mail rt' p rid ty ch size f (foldl (mb_step size) mb (mb_event p ty ch rt op)) hist'.

Lemma step_readers n rt rt' op :
  rt_inv n rt → rt_step Hash fuel conf rt op = Some rt' → (∀ p ty ch, mb_event p ty ch rt op = []) →
  world rt' = world rt → process rt' = process rt → routines rt' = routines rt → calls rt' = calls rt →
  readers_grow rt rt' → (∀ rid r, readers rt' !! rid = Some r → is_u64 (channel_id_ r)) → step_ok n rt op.
Proof.
  intros Hi E Ev Ew Ep Er Ec Hg Hu. exists rt'. split; [done|]. split; [|split; [apply grows_same; congruence|]].
  - apply (rt_inv_keep n _ rt); rewrite ?Ew, ?Ep, ?Er; try done; [apply Hi|apply proc_inv_S, Hi|eauto|eauto].
  - intros p rid ty ch size f mb hist _ _ Hm _. exists hist. split; [lia|]. rewrite Ev. cbn.
    apply (mail_quiet rt); rewrite ?Ew, ?Ep, ?Er, ?Ec; eauto.
Qed.

Lemma step_new n rt rid node channel id ty depth f size :
  rt_inv n rt → is_u64 id → step_ok n rt (OpNew rid node channel id ty depth f size).
Proof.
  intros Hi Hu. eapply step_readers; [done|done|done| | | | | |]; cbn; destruct (readers rt !! rid) as [r0|] eqn:E; try done.
  - by apply readers_grow_same.
  - intros rid0 r0 Hr0. exists r0. split; [|done]. cbn. by rewrite lookup_insert_ne by congruence.
  - apply Hi.
  - intros rid0 r0. cbn. intros [[_ <-]|[_ Hr0]]%lookup_insert_Some; [done|by eapply (ri_readers _ _ Hi)].
Qed.

Lemma step_data n rt rid d : rt_inv n rt → step_ok n rt (OpData rid d).
Proof.
  intros Hi. eapply step_readers; [done|done|done| | | | | |]; cbn; destruct (readers rt !! rid) as [r0|] eqn:E; try done.
  - eapply readers_grow_insert; [done| |done]. by destruct d.
  - by apply readers_grow_same.
  - intros rid0 r1. cbn. intros [[_ <-]|[_ Hr0]]%lookup_insert_Some; [|by eapply (ri_readers _ _ Hi)].
    apply (ri_readers _ _ Hi) in E. by destruct d.
  - apply Hi.
Qed.

Lemma step_task n rt now name : (n < fuel)%nat → rt_inv n rt → step_ok n rt (OpTask now name).
Proof using Hash_u64 Hgroups Hfuel.
  intros Hn Hi. destruct (CreateTask_spec Hash Hash_u64 conf fuel n (process rt) now name None Hgroups (ri_proc _ _ Hi) Hn Hfuel)
    as (q & ok & E & Hq & Hf & Hold & _).
  exists (set_process rt q). unfold rt_step, create_task. rewrite E. split; [done|].
  split; [|split; [split; cbn; [lia|done]|]].
  - apply (rt_inv_keep n _ rt); cbn; try done; try apply Hi; [by apply readers_grow_same|eauto|].
    intros p rid v c _ _ Hc. exists c. by apply Hold.
  - intros p rid ty ch size f mb hist _ _ Hm _. exists hist. split; [lia|]. cbn.
    apply (mail_quiet rt); cbn; try done; [by apply readers_grow_same|]. intros v c _ Hc. exists c. split; [by apply Hold|done].
Qed.

(** The visitor [Init] makes, and what becomes of the others. *)
Record init_result (n : nat) (rt : Runtime) (r : Reader) (w' : RWorld) (dv : DataVisitor) (q : Process) (ok : bool)
    : Prop := {
  ir_world : world_inv w';
  ir_proc : proc_inv (S n) q;
  ir_links : ∀ ty ch v, wlink (world rt) ty ch v → wlink w' ty ch v;
  ir_link : wlink (RegisterNotifyCallback w' dv (notifier_ dv)) (type_ r) (channel_id_ r) dv;
  ir_buffers : ∀ i, i ≠ fetch_buffer dv → buffers w' !! i = buffers (world rt) !! i;
  ir_buffer : buffers w' !! fetch_buffer dv = Some (CacheBuffer_new Null (pending_queue_size_ r));
  ir_index : next_msg_index_ dv = 0;
  ir_apart : ∀ p rid v, routines rt !! p = Some (rid, v) →
    notifier_ v ≠ notifier_ dv ∧ fetch_buffer v ≠ fetch_buffer dv ∧ p ≠ fresh (sched (process rt)) ∧
    ∀ c, cr_ok (process rt) p v c → cr_ok q p v c;
  ir_fresh : fresh (sched q) = S (fresh (sched (process rt)));
  ir_new : ok = true → ∃ c, cr_ok q (fresh (sched (process rt))) dv c ∧ wakes c
}.

(** The runtime after [Init], the task accepted or not. *)
Definition init_state (rt : Runtime) (rid : nat) (r : Reader) (w' : RWorld) (dv : DataVisitor) (q : Process) (ok : bool)
    : Runtime :=
  let name := (node_name_ r +:+ "_" +:+ channel_name_ r)%string in
  if ok
  then mkRuntime (RegisterNotifyCallback w' dv (notifier_ dv)) q (<[rid := set_init r name true]> (readers rt))
         (<[fresh (sched (process rt)) := (rid, dv)]> (routines rt)) (calls rt)
  else mkRuntime (drop_visitor w' dv) q (<[rid := set_init r name false]> (readers rt)) (routines rt) (calls rt).

Lemma Init_task_spec n rt now rid r :
  (n < fuel)%nat → rt_inv n rt → readers rt !! rid = Some r → init_ r = false →
  ∃ w' dv q ok, Init_task Hash fuel conf now rt rid = Some (init_state rt rid r w' dv q ok, ok) ∧
    init_result n rt r w' dv q ok.
Proof using Hash_u64 Hgroups Hfuel.
  intros Hn Hi Er Einit. pose proof (ri_world _ _ Hi) as Hw. pose proof (ri_readers _ _ Hi _ _ Er) as Hu.
  set (cfg := mkVisitorConfig (type_ r) (channel_id_ r) (pending_queue_size_ r)).
  set (name := (node_name_ r +:+ "_" +:+ channel_name_ r)%string).
  destruct (visitor_new_spec (world rt) cfg Hw Hu) as (Ev & Eb & _).
  pose proof (visitor_new_linked (world rt) cfg Hw Hu) as Hlk.
  rewrite (surjective_pairing (DataVisitor1_new (world rt) cfg)), Ev in Hlk.
  set (w' := (DataVisitor1_new (world rt) cfg).1) in *.
  set (dv := mkDataVisitor 0 (next_id (world rt) + 1) (next_id (world rt))) in *.
  destruct (CreateTask_spec Hash Hash_u64 conf fuel n (process rt) now name (Some (notifier_ dv)) Hgroups (ri_proc _ _ Hi) Hn Hfuel)
    as (q & ok & E & Hq & Hfr & Hcr & Hnew).
  exists w', dv, q, ok. split.
  { unfold Init_task. rewrite Er, Einit. fold cfg name.
    rewrite (surjective_pairing (DataVisitor1_new (world rt) cfg)), Ev. fold w'. rewrite E. by destruct ok. }
  split; [by apply visitor_new_inv|done|by intros; apply visitor_new_link|done| | |done| |done|by intros ->; apply Hnew].
  - intros i Hne. rewrite Eb. by rewrite lookup_insert_ne by (by intros <-).
  - rewrite Eb. apply lookup_insert_eq.
  - intros p rid0 v Hp. destruct (ri_routines _ _ Hi _ _ _ Hp) as (r0 & c0 & _ & Hl0 & Hc0).
    pose proof (wl_notifier _ _ _ _ Hl0). pose proof (wl_buffer _ _ _ _ Hl0).
    assert (notifier_ v ≠ notifier_ dv) as Hnv by (cbn; lia). split_and!; [done|cbn; lia| |intros c; apply Hcr; congruence].
    intros ->. pose proof (co_heap _ _ _ _ Hc0) as Hh. rewrite (ci_fresh _ (pi_sched _ _ _ (ri_proc _ _ Hi))) in Hh; [done|lia].
Qed.

Lemma readers_init_u64 n rt rid r name b rid0 r0 :
  rt_inv n rt → readers rt !! rid = Some r → <[rid := set_init r name b]> (readers rt) !! rid0 = Some r0 →
  is_u64 (channel_id_ r0).
Proof.
  intros Hi Er. intros [[_ <-]|[_ ?]]%lookup_insert_Some; [by apply (ri_readers _ _ Hi) in Er|by eapply (ri_readers _ _ Hi)].
Qed.

Lemma init_readers_grow rt rid r w' dv q ok :
  readers rt !! rid = Some r → readers_grow rt (init_state rt rid r w' dv q ok).
Proof.
  intros Er. set (name := (node_name_ r +:+ "_" +:+ channel_name_ r)%string).
  apply (readers_grow_insert rt _ rid r (set_init r name ok)); [done|done|by destruct ok].
Qed.

Lemma init_state_inv n rt rid r w' dv q ok :
  rt_inv n rt → readers rt !! rid = Some r → init_result n rt r w' dv q ok → rt_inv (S n) (init_state rt rid r w' dv q ok).
Proof.
  intros Hi Er [H1 H2 H3 H4 H5 H6 H7 H8 _ H9]. destruct ok; cbn.
  2: { apply (rt_inv_keep n _ rt); cbn; try done; [by apply drop_visitor_inv| | |eauto| |].
       - by apply (init_readers_grow rt rid r w' dv q false).
       - intros rid0 r0. by apply (readers_init_u64 n).
       - intros p rid0 v ty ch Hp _ Hl. apply drop_visitor_link; [by apply (H8 p rid0)|auto].
       - intros p rid0 v c Hp _ Hc. exists c. by apply (H8 p rid0). }
  split; cbn; [by apply register_inv|done|intros rid0 r0; by apply (readers_init_u64 n)| |].
  - intros p rid0 v. intros [[<- [= <- <-]]|[Hne Hp]]%lookup_insert_Some.
    + destruct (H9 eq_refl) as (c & Hc & _). exists (set_init r (node_name_ r +:+ "_" +:+ channel_name_ r)%string true), c.
      by rewrite lookup_insert_eq.
    + destruct (ri_routines _ _ Hi _ _ _ Hp) as (r0 & c0 & Hr0 & Hl0 & Hc0). destruct (H8 p rid0 v Hp) as (G1 & G2 & G3 & G4).
      destruct (init_readers_grow rt rid r w' dv q true Er rid0 r0 Hr0) as (r1 & Hr1 & E1 & E2 & _). exists r1, c0. split; [exact Hr1|]. rewrite E1, E2.
      split; [|by apply G4]. by apply register_link; [|apply H3].
  - intros p p' rid0 rid' v v'.
    intros [[<- [= <- <-]]|[Hne Hp]]%lookup_insert_Some [[<- [= <- <-]]|[Hne' Hp']]%lookup_insert_Some ?; try done.
    + intros E. by destruct (H8 p' rid' v' Hp') as (_ & [] & _).
    + intros E. by destruct (H8 p rid0 v Hp) as (_ & [] & _).
    + by apply (ri_apart _ _ Hi p p' rid0 rid').
Qed.

Lemma init_state_mail n rt rid r w' dv q ok p rid0 ty ch size f mb hist :
  readers rt !! rid = Some r → init_result n rt r w' dv q ok → mail rt p rid0 ty ch size f mb hist →
  mail (init_state rt rid r w' dv q ok) p rid0 ty ch size f mb hist.
Proof.
  intros Er [H1 H2 H3 H4 H5 H6 H7 H8 _ H9] Hm.
  assert (∀ v, routines rt !! p = Some (rid0, v) → fetch_buffer v ≠ fetch_buffer dv ∧ p ≠ fresh (sched (process rt))) as Hne
    by (intros v Hp; by destruct (H8 p rid0 v Hp) as (_ & ? & ? & _)).
  apply (mail_quiet rt); [done|by apply init_readers_grow|destruct ok|by destruct ok| |].
  - destruct (ml_box _ _ _ _ _ _ _ _ _ Hm) as (v & _ & _ & _ & Hp & _). cbn.
    by rewrite lookup_insert_ne by (apply not_eq_sym, (Hne v Hp)).
  - done.
  - intros v Hp. destruct (Hne v Hp) as [Hb _]. rewrite <- (H5 _ Hb). destruct ok; cbn; [done|].
    by rewrite lookup_delete_ne by congruence.
  - intros v c Hp Hc. exists c. split; [|done]. destruct ok; by apply (H8 p rid0).
Qed.

Lemma step_init n rt now rid : (n < fuel)%nat → rt_inv n rt → step_ok n rt (OpInit now rid).
Proof using Hash_u64 Hgroups Hfuel.
  intros Hn Hi.
  assert (Init_task Hash fuel conf now rt rid = Some (rt, true) ∨ Init_task Hash fuel conf now rt rid = Some (rt, false) →
    step_ok n rt (OpInit now rid)) as Hquiet.
  { intros E. eapply step_readers; try done; [|by apply readers_grow_same|apply Hi]. cbn. by destruct E as [-> | ->]. }
  destruct (readers rt !! rid) as [r|] eqn:Er; [|apply Hquiet; unfold Init_task; rewrite Er; auto].
  destruct (init_ r) eqn:Einit; [apply Hquiet; unfold Init_task; rewrite Er, Einit; auto|].
  destruct (Init_task_spec n rt now rid r Hn Hi Er Einit) as (w' & dv & q & ok & E & Hres).
  eexists. unfold rt_step. rewrite E. split; [done|]. split; [by eapply init_state_inv|]. split.
  { pose proof (ir_fresh _ _ _ _ _ _ _ Hres) as Hf. split; [|split]; destruct ok; cbn; rewrite ?Hf; try lia; try done.
    intros p Hp. by rewrite lookup_insert_ne by lia. }
  intros p rid0 ty ch size f mb hist _ _ Hm _. exists hist. split; [lia|]. by eapply init_state_mail.
Qed.

(** Taking a task out: of the coroutines only that of the task goes. *)
Lemma RemoveTask_rt n rt name :
  rt_inv n rt →
  ∃ rt', Reader_RemoveTask Hash rt name = Some rt' ∧ rt_inv n rt' ∧ readers rt' = readers rt ∧ grows rt rt' ∧
    ∀ p rid ty ch size f mb hist, mail rt p rid ty ch size f mb hist → is_Some (routines rt' !! p) →
      mail rt' p rid ty ch size f mb hist.
Proof.
  intros Hi. unfold Reader_RemoveTask. case_bool_decide; [exists rt; split; [done|]; split; [done|]; split; [done|]; by split; [by apply grows_same|]|].
  destruct (RemoveTask_spec Hash n (process rt) name (ri_proc _ _ Hi)) as (s & ok & -> & Hq & Hfr & Hcr).
  cbn [mbind option_bind]. rewrite (pi_up _ _ _ (ri_proc _ _ Hi)). set (rt1 := set_process rt _).
  eexists. split; [done|]. set (t := id_cr_ (sched (process rt)) !! Hash name) in *.
  set (rt' := match t with Some p => drop_routine rt1 p | None => rt1 end).
  assert (∀ p x, routines rt' !! p = Some x → routines rt !! p = Some x ∧ t ≠ Some p) as Hsub.
  { unfold rt', drop_routine. intros p x. destruct t as [p0|]; [|done]. cbn.
    destruct (routines rt !! p0) as [[rid0 v0]|] eqn:E; cbn; [intros [? ?]%lookup_delete_Some; split; [done|congruence]|].
    intros Hp. split; [done|congruence]. }
  assert (readers rt' = readers rt ∧ calls rt' = calls rt ∧ process rt' = set_sched (process rt) s ∧ world_inv (world rt') ∧
    ∀ p rid v, routines rt' !! p = Some (rid, v) →
      buffers (world rt') !! fetch_buffer v = buffers (world rt) !! fetch_buffer v ∧
      ∀ ty ch, wlink (world rt) ty ch v → wlink (world rt') ty ch v) as (Er & Ec & Ep & Hw & Hlive).
  { pose proof (ri_world _ _ Hi) as Hw. unfold rt', drop_routine in *. destruct t as [p0|]; [|done]. cbn.
    destruct (routines rt !! p0) as [[rid0 v0]|] eqn:E; [|done]. cbn. split_and!; try done; [by apply drop_visitor_inv|].
    intros p rid v [Hne Hp]%lookup_delete_Some.
    assert (fetch_buffer v ≠ fetch_buffer v0) as Hb by (by apply (ri_apart _ _ Hi p p0 rid rid0)).
    split; [by rewrite lookup_delete_ne|]. intros ty ch. by apply drop_visitor_link. }
  split; [|split; [done|split]].
  2: { split; [rewrite Ep; cbn; lia|]. split; [|by rewrite Ec]. intros p _ [x Hx]. destruct (Hsub p x Hx) as [-> _]. eauto. }
  - apply (rt_inv_keep n _ rt); [done|done|by rewrite Ep|by apply readers_grow_same|rewrite Er; apply Hi| | |].
    + intros p rid v Hp. exists v. split; [by apply Hsub|done].
    + intros p rid v ty ch Hp [[rid' v'] Hp']. destruct (Hsub _ _ Hp') as [E _]. rewrite Hp in E. injection E as <- <-.
      by apply (Hlive p rid v Hp').
    + intros p rid v c Hp [x Hp'] Hc. exists c. rewrite Ep. apply Hcr; [by apply (Hsub p x)|done].
  - intros p rid ty ch size f mb hist Hm [[rid' v'] Hp']. destruct (Hsub _ _ Hp') as [E Ht].
    apply (mail_quiet rt); [done|by apply readers_grow_same|congruence|by rewrite Ec| |].
    + intros v Hp. rewrite Hp in E. injection E as <- <-. by apply (Hlive p rid v).
    + intros v c Hp Hc. exists c. rewrite Ep. split; [by apply Hcr|done].
Qed.

Lemma rt_inv_S n rt : rt_inv n rt → rt_inv (S n) rt.
Proof. intros [H1 H2 H3 H4 H5]. split; try done. by apply proc_inv_S. Qed.

(** [Shutdown] of a reader that is initialised. *)
Lemma Shutdown_task_rt n rt rid r :
  rt_inv n rt → readers rt !! rid = Some r → init_ r = true →
  ∃ rt', Shutdown_task Hash rt rid = Some rt' ∧ rt_inv n rt' ∧
    readers rt' = <[rid := set_init r (croutine_name_ r) false]> (readers rt) ∧ grows rt rt' ∧
    ∀ p rid' ty ch size f mb hist, mail rt p rid' ty ch size f mb hist → is_Some (routines rt' !! p) →
      mail rt' p rid' ty ch size f mb hist.
Proof.
  intros Hi Er Einit. set (rt1 := set_reader rt rid (set_init r (croutine_name_ r) false)).
  assert (readers_grow rt rt1) as Hg by by apply (readers_grow_insert rt rt1 rid r (set_init r (croutine_name_ r) false)).
  assert (rt_inv n rt1) as Hi1.
  { apply (rt_inv_keep n _ rt); cbn; try done; [apply Hi|apply Hi| |eauto|eauto].
    intros rid0 r0. by apply (readers_init_u64 n). }
  destruct (RemoveTask_rt n rt1 (croutine_name_ r) Hi1) as (rt' & E & Hi' & Erd & Hgr & Hmail).
  exists rt'. unfold Shutdown_task. rewrite Er, Einit. split; [done|]. split; [done|]. split; [done|]. split; [done|].
  intros p rid0 ty ch size f mb hist Hm Hp. apply Hmail; [|done].
  apply (mail_quiet rt); try done. intros v c _ Hc. by exists c.
Qed.

Lemma step_shutdown n rt rid : rt_inv n rt → step_ok n rt (OpShutdown rid).
Proof.
  intros Hi. assert (Shutdown_task Hash rt rid = Some rt → step_ok n rt (OpShutdown rid)) as Hquiet.
  { intros E. eapply step_readers; try done; [by apply readers_grow_same|apply Hi]. }
  destruct (readers rt !! rid) as [r|] eqn:Er; [|apply Hquiet; unfold Shutdown_task; by rewrite Er].
  destruct (init_ r) eqn:Einit; [|apply Hquiet; unfold Shutdown_task; by rewrite Er, Einit].
  destruct (Shutdown_task_rt n rt rid r Hi Er Einit) as (rt' & E & Hi' & _ & Hgr & Hmail).
  exists rt'. split; [done|]. split; [by apply rt_inv_S|]. split; [done|].
  intros p rid0 ty ch size f mb hist _ _ Hm Hp. exists hist. split; [lia|]. by apply Hmail.
Qed.

Lemma step_message n rt ty ch m : is_u64 ch → rt_inv n rt → step_ok n rt (OpMessage ty ch m).
Proof.
  intros Hu Hi. pose proof (ri_world _ _ Hi) as Hw. set (msg := Msg (Z.of_nat m)).
  destruct (run_callbacks_spec Hash n (process rt) (drop (length (called (world rt))) (called (Dispatch (world rt) ty ch msg).1))
    (ri_proc _ _ Hi)) as (q & E & Hq & Hcalm & Hwake).
  eexists. unfold rt_step, on_message. fold msg. rewrite E. cbn [mbind option_bind]. split; [done|].
  split; [|split; [apply grows_same; [apply Hcalm|done|done]|]].
  - apply (rt_inv_keep n _ rt); cbn; try done; [by apply dispatch_inv|by apply proc_inv_S|by apply readers_grow_same|apply Hi|eauto| |].
    + intros p rid v ty' ch' _ _. by apply dispatch_link.
    + intros p rid v c _ _ Hc. destruct (cr_ok_calm _ _ _ _ _ Hc Hcalm) as (c' & ? & _). eauto.
  - intros p rid ty' ch' size f mb hist Hs Hl [(v & r & c & b & Hp & Hr & Et & Ech & Ef & Hc & Hb & Hbox & Hwk) Hcalls] _.
    destruct (ri_routines _ _ Hi _ _ _ Hp) as (r' & _ & Hr' & Hlk & _). rewrite Hr in Hr'. injection Hr' as <-.
    rewrite Et, Ech in Hlk. pose proof (dispatch_fills _ ty ch msg ty' ch' v b Hw Hu Hlk Hb) as Hfill.
    cbn [mb_event]. destruct (decide (ty = ty' ∧ ch = ch')) as [[-> ->]|Hne]; cbn [foldl].
    + exists (hist ++ [m]). split; [rewrite length_app; cbn; lia|]. split; [|done].
      destruct (Hwake p v c) as (c' & Hc' & Hw'); [by apply dispatch_calls|done|].
      exists v, r, c', (Fill b msg).1. repeat (split; [done|]). split; [|done]. by apply box_put.
    + exists hist. split; [lia|]. split; [|done].
      destruct (cr_ok_calm _ _ _ _ _ Hc Hcalm) as (c' & Hc' & Hw'). exists v, r, c', b. repeat (split; [done|]). auto.
Qed.

(** ** A turn *)

Lemma fetch_process rt a b p rid v :
  set_process (fetch (set_process rt a) p rid v) b = set_process (fetch rt p rid v) b.
Proof.
  unfold fetch, func, set_process. cbn. destruct (TryFetch1 (world rt) v) as [[v' [|z|l]]|]; cbn; try done.
  by destruct (readers rt !! rid).
Qed.

Lemma TryFetch1_same w v v' m :
  TryFetch1 w v = Some (v', m) → fetch_buffer v' = fetch_buffer v ∧ notifier_ v' = notifier_ v.
Proof.
  unfold TryFetch1. destruct (buffers w !! fetch_buffer v); [|done]. destruct (Fetch _ _) as [[i x]|]; [|done].
  by intros [= <- _].
Qed.

(** What a fetch changes. *)
Lemma fetch_frame rt p rid v :
  routines rt !! p = Some (rid, v) →
  let rt' := fetch rt p rid v in
  world rt' = world rt ∧ process rt' = process rt ∧ readers_grow rt rt' ∧
  (∀ rid0 r0, readers rt' !! rid0 = Some r0 → ∃ r, readers rt !! rid0 = Some r ∧ same_role r r0) ∧
  (∃ v', routines rt' !! p = Some (rid, v') ∧ fetch_buffer v' = fetch_buffer v ∧ notifier_ v' = notifier_ v) ∧
  (∀ p', p' ≠ p → routines rt' !! p' = routines rt !! p' ∧
     filter (λ c, c_routine c = p') (calls rt') = filter (λ c, c_routine c = p') (calls rt)).
Proof.
  intros Hp. cbn. assert (∀ rid0 r0, readers rt !! rid0 = Some r0 → ∃ r, readers rt !! rid0 = Some r ∧ same_role r r0)
    as Hid by (intros rid0 r0 H0; by exists r0).
  unfold fetch. destruct (TryFetch1 (world rt) v) as [[v' m]|] eqn:E.
  2: { split_and!; try done; [by apply readers_grow_same|by exists v]. }
  apply TryFetch1_same in E as [E1 E2].
  assert (∃ v0, <[p := (rid, v')]> (routines rt) !! p = Some (rid, v0) ∧ fetch_buffer v0 = fetch_buffer v ∧
    notifier_ v0 = notifier_ v) as Hv by (exists v'; by rewrite lookup_insert_eq).
  destruct m as [|z|l]; unfold func; cbn [readers];
    try (split_and!; try done; [by apply readers_grow_same|intros p' Hne; split; [by apply lookup_insert_ne|done]]).
  destruct (readers rt !! rid) as [r|] eqn:Er.
  - split_and!; try done.
    + by apply (readers_grow_insert rt _ rid r (Reader_Enqueue r (Z.to_nat z))).
    + intros rid0 r0. cbn. intros [[<- <-]|[_ H0]]%lookup_insert_Some; [by exists r|by exists r0].
    + intros p' Hne. cbn. split; [by apply lookup_insert_ne|]. rewrite filter_app, filter_cons_False by done.
      by rewrite filter_nil, app_nil_r.
  - split_and!; try done; [by apply readers_grow_same|intros p' Hne; split; [by apply lookup_insert_ne|done]].
Qed.

(** What a fetch does for the mailbox. *)
Lemma fetch_takes rt p rid v r b ty ch size f mb hist :
  0 < size → routines rt !! p = Some (rid, v) → readers rt !! rid = Some r → type_ r = ty → channel_id_ r = ch →
  reader_func_ r = f → buffers (world rt) !! fetch_buffer v = Some b → box_rel size b (next_msg_index_ v) mb hist →
  filter (λ c, c_routine c = p) (calls rt) = mkCall p rid f <$> mb_taken mb →
  let rt' := fetch rt p rid v in let mb' := mb_step size mb Take in
  (∃ v' r', routines rt' !! p = Some (rid, v') ∧ readers rt' !! rid = Some r' ∧ type_ r' = ty ∧ channel_id_ r' = ch ∧
     reader_func_ r' = f ∧ fetch_buffer v' = fetch_buffer v ∧ box_rel size b (next_msg_index_ v') mb' hist) ∧
  filter (λ c, c_routine c = p) (calls rt') = mkCall p rid f <$> mb_taken mb' ∧
  (TryFetch1 (world rt) v = None → mb_unread mb' = []).
Proof.
  intros Hs Hp Hr Et Ech Ef Hb Hbox Hcalls. cbn zeta. pose proof (box_take size b _ mb hist Hs Hbox) as Ht.
  assert (mb_unread mb = [] → mb_step size mb Take = mb) as Hmb by (intros E; cbn; by rewrite E).
  set (mb' := mb_step size mb Take) in *. clearbody mb'.
  unfold fetch, TryFetch1. rewrite Hb. destruct (Fetch b (next_msg_index_ v)) as [[i x]|].
  - destruct Ht as (m & -> & Etk & Eu & Hbox'). rewrite Eu. unfold func. cbn [readers]. rewrite Hr, Nat2Z.id. cbn.
    split; [|split; [|done]].
    + eexists _, _. rewrite !lookup_insert_eq. split; [done|]. split; [done|]. done.
    + rewrite filter_app, filter_cons_True, filter_nil, Hcalls, Ef, Etk by done. by rewrite fmap_app.
  - rewrite (Hmb Ht). split; [by exists v, r|done].
Qed.

(** The three turns a processor can take. *)
Lemma Processor_turn_cases n rt now g slice :
  (∀ c, same_task c (slice c)) → rt_inv n rt →
  let q := process rt in
  (∃ s, ClassicContext_NextRoutine now (sched q) g = (s, None) ∧
     Processor_turn now g slice rt = Some (set_process rt (set_sched q s), None)) ∨
  (∃ s p s' slice', ClassicContext_NextRoutine now (sched q) g = (s, Some p) ∧ (∀ c, same_task c (slice' c)) ∧
     Processor_run slice' s p = Some s' ∧
     ((routines rt !! p = None ∧ Processor_turn now g slice rt = Some (set_process rt (set_sched q s'), Some p)) ∨
      (∃ rid v, routines rt !! p = Some (rid, v) ∧
         slice' = factory_turn (bool_decide (is_Some (TryFetch1 (world rt) v))) id ∧
         Processor_turn now g slice rt = Some (set_process (fetch rt p rid v) (set_sched q s'), Some p)))).
Proof.
  intros Hsl Hi q. unfold Processor_turn. fold q.
  destruct (ClassicContext_NextRoutine now (sched q) g) as [s [p|]] eqn:E; [right|by left; exists s].
  destruct (routines rt !! p) as [[rid v]|] eqn:Ep.
  - set (slice' := factory_turn (bool_decide (is_Some (TryFetch1 (world rt) v))) id).
    assert (∀ c, same_task c (slice' c)) as Hsl' by (intros c; unfold slice', factory_turn; by case_bool_decide).
    destruct (Processor_run_spec Hash n q now g s p slice' Hsl' (ri_proc _ _ Hi) E) as (c & c' & s' & Hc & Hc' & _ & Ef & Est & Er & _).
    destruct (ri_routines _ _ Hi _ _ _ Ep) as (_ & c0 & _ & _ & Hok). pose proof (co_heap _ _ _ _ Hok) as Hc0.
    fold q in Hc0. rewrite Hc in Hc0. injection Hc0 as <-.
    exists s, p, s', slice'. split; [done|]. split; [done|]. split; [done|]. right. exists rid, v. split; [done|]. split; [done|].
    cbn [routines set_process]. rewrite Ep, Hc'. cbn [mbind option_bind]. rewrite Ef, (co_stop _ _ _ _ Hok), Est. cbn [negb andb].
    rewrite bool_decide_true by done. cbn [world set_process]. fold slice'. rewrite Er. cbn [mbind option_bind].
    destruct (fetch_frame (set_process rt (set_sched q s)) p rid v Ep) as (_ & -> & _). f_equal. f_equal.
    apply (fetch_process rt (set_sched q s) (set_sched q s')).
  - destruct (Processor_run_spec Hash n q now g s p slice Hsl (ri_proc _ _ Hi) E) as (c & c' & s' & _ & _ & _ & _ & _ & Er & _).
    exists s, p, s', slice. split; [done|]. split; [done|]. split; [done|]. left. split; [done|].
    cbn [routines set_process]. by rewrite Ep, Er.
Qed.

Lemma turn_others n q now g s p slice s' x v c :
  (∀ c, same_task c (slice c)) → proc_inv n q → ClassicContext_NextRoutine now (sched q) g = (s, Some p) →
  Processor_run slice s p = Some s' → x ≠ p → cr_ok q x v c →
  ∃ c', cr_ok (set_sched q s') x v c' ∧ (wakes c → wakes c').
Proof.
  intros Hsl Hq E Er Hne Hc.
  destruct (Processor_run_spec Hash n q now g s p slice Hsl Hq E) as (_ & _ & s0 & _ & _ & _ & _ & _ & Er' & _ & Ei & _ & _ & Ho).
  rewrite Er in Er'. injection Er' as <-. destruct (Ho x c Hne (co_heap _ _ _ _ Hc)) as (c' & Hc' & Hk).
  specialize (Hk (co_state _ _ _ _ Hc)). exists c'. split; [by eapply cr_ok_kept|apply Hk].
Qed.

Lemma turn_self n q now g s p b s' v c :
  let slice := factory_turn b id in
  (∀ c, same_task c (slice c)) → proc_inv n q → ClassicContext_NextRoutine now (sched q) g = (s, Some p) →
  Processor_run slice s p = Some s' → cr_ok q p v c →
  ∃ c', cr_ok (set_sched q s') p v c' ∧ (b = true → wakes c').
Proof.
  intros slice Hsl Hq E Er [H1 H2 H3 H4 H5].
  destruct (Processor_run_spec Hash n q now g s p slice Hsl Hq E)
    as (c0 & c1 & s0 & Hc0 & _ & Eid & Ef & Est & Er' & _ & Ei & _ & Hp & _).
  rewrite Er in Er'. injection Er' as <-. rewrite H1 in Hc0. injection Hc0 as <-.
  eexists. unfold Resume in Hp. rewrite Ef, H3, Est, bool_decide_true in Hp by done.
  split; [split; [exact Hp| | | |]|]; cbn; unfold slice, factory_turn, Yield_state.
  - rewrite Ei. by destruct b; cbn; rewrite Eid.
  - by destruct b; cbn; rewrite Ef.
  - destruct b; cbn; [by left|by right].
  - by destruct b; cbn; rewrite Eid.
  - intros ->. by left.
Qed.

(** A turn of the coroutine [p] leaves the other mailboxes alone. *)
Lemma mail_other rt rt' p0 p rid ty ch size f mb hist s' n now g s slice :
  (∀ c, same_task c (slice c)) → rt_inv n rt → ClassicContext_NextRoutine now (sched (process rt)) g = (s, Some p0) →
  Processor_run slice s p0 = Some s' → process rt' = set_sched (process rt) s' →
  world rt' = world rt → readers_grow rt rt' → p ≠ p0 → routines rt' !! p = routines rt !! p →
  filter (λ c, c_routine c = p) (calls rt') = filter (λ c, c_routine c = p) (calls rt) →
  mail rt p rid ty ch size f mb hist → mail rt' p rid ty ch size f mb hist.
Proof.
  intros Hsl Hi E Er Ep Ew Hg Hne Ert Ec Hm. apply (mail_quiet rt); [done|done|done|done|by rewrite Ew|].
  intros v c _ Hc. rewrite Ep. by eapply (turn_others n _ now g s p0 slice); [|apply Hi|..].
Qed.

(** The turn of a reader's coroutine. *)
Lemma step_fetch n rt now g s p s' rid v :
  rt_inv n rt → ClassicContext_NextRoutine now (sched (process rt)) g = (s, Some p) → routines rt !! p = Some (rid, v) →
  let slice := factory_turn (bool_decide (is_Some (TryFetch1 (world rt) v))) id in
  (∀ c, same_task c (slice c)) → Processor_run slice s p = Some s' →
  let rt' := set_process (fetch rt p rid v) (set_sched (process rt) s') in
  rt_inv n rt' ∧ grows rt rt' ∧ ∀ p' rid' ty ch size f mb hist, 0 < size → mail rt p' rid' ty ch size f mb hist →
    mail rt' p' rid' ty ch size f (if decide (p = p') then mb_step size mb Take else mb) hist.
Proof.
  intros Hi E Hp slice Hsl Er rt'.
  destruct (fetch_frame rt p rid v Hp) as (Ew & _ & Hg & Hback & (v' & Hv' & Eb & En) & Ho).
  destruct (Processor_run_spec Hash n (process rt) now g s p slice Hsl (ri_proc _ _ Hi) E)
    as (_ & _ & s0 & _ & _ & _ & _ & _ & Er' & Hq & _ & Hfr & _). rewrite Er in Er'. injection Er' as <-.
  split; [|split].
  2: { split; [cbn; by rewrite Hfr|]. split.
       - intros x _ Hx. destruct (decide (x = p)) as [->|Hne]; [by rewrite Hp|].
         destruct (Ho x Hne) as [Eo _]. unfold rt' in Hx. cbn in Hx. by rewrite Eo in Hx.
       - intros x Hx. apply Ho. intros ->. destruct (ri_routines _ _ Hi _ _ _ Hp) as (_ & c0 & _ & _ & Hc0).
         pose proof (co_heap _ _ _ _ Hc0) as Hh. cbn in Hx. rewrite Hfr in Hx.
         by rewrite (ci_fresh _ (pi_sched _ _ _ (ri_proc _ _ Hi))) in Hh. }
  - apply (rt_inv_keep n _ rt); cbn; try done; [rewrite Ew; apply Hi| | |by rewrite Ew|].
    + intros rid0 r0 Hr0. destruct (Hback rid0 r0 Hr0) as (r & Hr & _ & -> & _). by apply (ri_readers _ _ Hi) in Hr.
    + intros p0 rid0 v0 Hv0. destruct (decide (p0 = p)) as [->|Hne].
      * rewrite Hv' in Hv0. injection Hv0 as <- <-. by exists v.
      * destruct (Ho p0 Hne) as [Eo _]. rewrite Eo in Hv0. by exists v0.
    + intros p0 rid0 v0 c _ _ Hc. destruct (decide (p0 = p)) as [->|Hne].
      * destruct (turn_self n _ now g s p _ s' v0 c Hsl (ri_proc _ _ Hi) E Er Hc) as (c' & ? & _). eauto.
      * destruct (turn_others n _ now g s p slice s' p0 v0 c Hsl (ri_proc _ _ Hi) E Er Hne Hc) as (c' & ? & _). eauto.
  - intros p' rid' ty ch size f mb hist Hs Hm. destruct (decide (p = p')) as [<-|Hne].
    2: { destruct (Ho p' (not_eq_sym Hne)) as [E1 E2].
         by apply (mail_other rt rt' p p' rid' ty ch size f mb hist s' n now g s slice). }
    destruct Hm as [(v0 & r & c & b & Hp0 & Hr & Et & Ech & Ef & Hc & Hb & Hbox & _) Hcalls].
    rewrite Hp in Hp0. injection Hp0 as <- <-.
    destruct (fetch_takes rt p rid v r b ty ch size f mb hist Hs Hp Hr Et Ech Ef Hb Hbox Hcalls)
      as ((v1 & r1 & Hp1 & Hr1 & E1 & E2 & E3 & E4 & Hbox1) & Hcalls1 & Hempty).
    rewrite Hv' in Hp1. injection Hp1 as <-.
    destruct (turn_self n _ now g s p _ s' v c Hsl (ri_proc _ _ Hi) E Er Hc) as (c1 & [G1 G2 G3 G4 G5] & Hwk).
    split; [|exact Hcalls1]. exists v', r1, c1, b. repeat (split; [done|]).
    split; [split; cbn in *; by rewrite ?En|]. split; [cbn; by rewrite Ew, E4|]. split; [done|].
    intros Hu. apply Hwk, bool_decide_true. destruct (TryFetch1 (world rt) v); [eauto|]. by rewrite Hempty in Hu.
Qed.

(** A processor that finds nothing. *)
Lemma step_idle n rt now g s slice :
  rt_inv n rt → ClassicContext_NextRoutine now (sched (process rt)) g = (s, None) →
  Processor_turn now g slice rt = Some (set_process rt (set_sched (process rt) s), None) → step_ok n rt (OpTurn now g slice).
Proof.
  intros Hi E Et. unfold step_ok, mb_event, rt_step. rewrite Et.
  destruct (NextRoutine_spec Hash n (process rt) now g s None (ri_proc _ _ Hi) E) as (Hs & Hst & Eid & Ef & Ho & Hd & _).
  assert (calm (process rt) (set_sched (process rt) s)) as Hcalm.
  { split_and!; try done. intros x c Hx. destruct (Ho x c Hx) as (c' & ? & _ & ?); [done|]. eauto. }
  eexists. split; [done|]. split; [|split; [by apply grows_same|]].
  - apply (rt_inv_keep n _ rt); cbn; try done; try apply Hi; [|by apply readers_grow_same|eauto|].
    + apply proc_inv_S. destruct (ri_proc _ _ Hi) as [H1 H2 H3 H4 H5]. split; try done.
      intros x c Hx. destruct (Hd x c Hx) as [c0 Hc0]. destruct (Ho x c0 Hc0) as (c' & Hc' & Hl & _); [done|]. cbn in Hx. congruence.
    + intros p rid v c _ _ Hc. destruct (cr_ok_calm _ _ _ _ _ Hc Hcalm) as (c' & ? & _). eauto.
  - intros p rid ty ch size f mb hist _ _ Hm _. exists hist. split; [lia|]. cbn.
    apply (mail_quiet rt); try done; [by apply readers_grow_same|]. intros v c _ Hc. by apply (cr_ok_calm (process rt)).
Qed.

Lemma step_turn n rt now g slice :
  (∀ c, same_task c (slice c)) → rt_inv n rt → step_ok n rt (OpTurn now g slice).
Proof.
  intros Hsl Hi.
  destruct (Processor_turn_cases n rt now g slice Hsl Hi) as [(s & E & Et)|(s & p & s' & slice' & E & Hsl' & Er & Hcase)];
    [by eapply step_idle|]. unfold step_ok, mb_event, rt_step.
  destruct Hcase as [[Hp ->]|(rid & v & Hp & -> & ->)]; cbn [fst fmap option_fmap option_map].
    + destruct (Processor_run_spec Hash n (process rt) now g s p slice' Hsl' (ri_proc _ _ Hi) E)
        as (_ & _ & s0 & _ & _ & _ & _ & _ & Er' & Hq & _ & Hfr & _). rewrite Er in Er'. injection Er' as <-.
      assert (∀ p' v, p' = p → routines rt !! p' ≠ Some v) as Hne by (intros p' v' ->; congruence).
      eexists. split; [done|]. split; [|split; [by apply grows_same|]].
      * apply (rt_inv_keep n _ rt); cbn; try done; try apply Hi; [by apply proc_inv_S|by apply readers_grow_same|eauto|].
        intros p' rid v c Hp' _ Hc. assert (p' ≠ p) as Hpp by (intros Epp; by destruct (Hne p' (rid, v))).
        destruct (turn_others n _ now g s p slice' s' p' v c Hsl' (ri_proc _ _ Hi) E Er Hpp Hc) as (c' & ? & _). eauto.
      * intros p' rid ty ch size f mb hist _ _ Hm _. exists hist. split; [lia|].
        assert (p' ≠ p) as Hpp by (intros Epp; destruct (ml_box _ _ _ _ _ _ _ _ _ Hm) as (v & _ & _ & _ & Hp' & _); by destruct (Hne p' (rid, v))).
        rewrite decide_False by done.
        by apply (mail_other rt _ p p' rid ty ch size f mb hist s' n now g s slice' Hsl' Hi E Er); try apply readers_grow_same.
    + destruct (step_fetch n rt now g s p s' rid v Hi E Hp Hsl' Er) as (Hi' & Hgr & Hm').
      eexists. split; [done|]. split; [by apply rt_inv_S|]. split; [done|].
      intros p' rid' ty ch size f mb hist Hs _ Hm _. exists hist. split; [lia|]. specialize (Hm' _ _ _ _ _ _ _ _ Hs Hm).
      by destruct (decide (p = p')).
Qed.

Lemma step_all n rt op : (n < fuel)%nat → rt_op_ok op → rt_inv n rt → step_ok n rt op.
Proof using Hash_u64 Hgroups Hfuel.
  intros Hn Hok Hi. destruct op; cbn in Hok.
  - by apply step_new.
  - by apply step_init.
  - by apply step_shutdown.
  - by apply step_data.
  - by apply step_message.
  - by apply step_turn.
  - by apply step_task.
Qed.

Lemma world_new_inv : world_inv (world (rt_new conf)).
Proof.
  assert (∀ ty, dispatcher (world (rt_new conf)) ty = ks_empty) as Ed by done.
  assert (∀ ty ch, listed (world (rt_new conf)) ty ch = None) as El by (intros; unfold listed; by rewrite Ed, ks_empty_view).
  split.
  - change (ks_inv (ks_empty : AtomicHashMap (list Z))). apply ks_empty_inv.
  - intros ty. rewrite Ed. apply ks_empty_inv.
  - done.
  - intros ty ch l _. by rewrite El.
  - intros ty ch l ty' ch' l' i _ _. by rewrite El.
  - done.
Qed.

Lemma rt_new_inv : rt_inv 0 (rt_new conf).
Proof.
  split; try done; [apply world_new_inv|].
  destruct (CreateProcessor_frame conf Classic_new) as (Eh & _ & Est). split.
  - apply CreateProcessor_inv, classic_inv_new.
  - intros p c. cbn. by rewrite Eh.
  - done.
  - change (registry_inv Hash (ks_empty : AtomicHashMap string)).
    split; [apply ks_empty_inv|]. intros id name _ Hv. by rewrite ks_empty_view in Hv.
  - exists []. split; [|done]. change (covers (ks_empty : AtomicHashMap string) []).
    intros id _ [x Hv]. by rewrite ks_empty_view in Hv.
Qed.

Lemma rt_run_cons rt op ops :
  rt_run Hash fuel conf rt (op :: ops) = rt' ← rt_step Hash fuel conf rt op; rt_run Hash fuel conf rt' ops.
Proof.
  unfold rt_run. cbn [foldl mbind option_bind]. destruct (rt_step Hash fuel conf rt op); [done|].
  induction ops as [|o ops IH]; [done|exact IH].
Qed.

(** A run succeeds, and a mailbox that is there at the end has seen its events. *)
Lemma run_all n rt ops :
  (n + length ops < fuel)%nat → Forall rt_op_ok ops → rt_inv n rt →
  ∃ rt', rt_run Hash fuel conf rt ops = Some rt' ∧ rt_inv (n + length ops) rt' ∧ grows rt rt' ∧
    ∀ p rid ty ch size f mb hist, 0 < size → Z.of_nat (length hist + length ops) + 1 < 2 ^ 64 - 1 →
      (p < fresh (sched (process rt)))%nat →
      mail rt p rid ty ch size f mb hist → is_Some (routines rt' !! p) →
      ∃ hist', mail rt' p rid ty ch size f (foldl (mb_step size) mb (mb_events Hash fuel conf p ty ch rt ops)) hist'.
Proof using Hash_u64 Hgroups Hfuel.
  revert n rt. induction ops as [|op ops IH]; intros n rt Hn Hok Hi.
  { exists rt. split; [done|]. cbn. rewrite Nat.add_0_r. split; [done|]. split; [by apply grows_same|].
    intros p rid ty ch size f mb hist _ _ _ Hm _. by exists hist. }
  apply Forall_cons in Hok as [Hop Hok]. cbn [length] in *.
  destruct (step_all n rt op ltac:(lia) Hop Hi) as (rt1 & E & Hi1 & (Hf1 & Hg1 & Hc1) & Hm1).
  destruct (IH (S n) rt1 ltac:(lia) Hok Hi1) as (rt' & E' & Hi' & (Hf' & Hg' & Hc') & Hm').
  exists rt'. rewrite rt_run_cons, E. split; [exact E'|]. rewrite <- Nat.add_succ_comm. split; [done|].
  split; [split; [lia|split]|].
  { intros p Hp Hs. apply Hg1, Hg'; [done|lia|done]. }
  { intros p Hp. rewrite Hc', Hc1 by lia. done. }
  intros p rid ty ch size f mb hist Hs Hl Hp Hm Hend. cbn [mb_events]. rewrite E, foldl_app.
  assert (is_Some (routines rt1 !! p)) as Hmid by (apply Hg'; [lia|done]).
  destruct (Hm1 p rid ty ch size f mb hist Hs ltac:(lia) Hm Hmid) as (hist1 & Hl1 & Hmail1).
  apply (Hm' p rid ty ch size f _ hist1); [done|lia|lia|done|done].
Qed.

Lemma init_mail n rt rid r w' dv q :
  rt_inv n rt → readers rt !! rid = Some r → 0 < pending_queue_size_ r < 2 ^ 32 → init_result n rt r w' dv q true →
  filter (λ c, c_routine c = fresh (sched (process rt))) (calls rt) = [] →
  mail (init_state rt rid r w' dv q true) (fresh (sched (process rt))) rid (type_ r) (channel_id_ r)
    (pending_queue_size_ r) (reader_func_ r) mb_new [].
Proof.
  intros Hi Er Hs [H1 H2 H3 H4 H5 H6 H7 H8 _ H9] Hc. destruct (H9 eq_refl) as (c & Hok & Hw).
  split; [|cbn; by rewrite Hc].
  exists dv, (set_init r (node_name_ r +:+ "_" +:+ channel_name_ r)%string true), c, (CacheBuffer_new Null (pending_queue_size_ r)).
  cbn [init_state routines readers process world]. rewrite !lookup_insert_eq. do 6 (split; [done|]). split; [done|].
  rewrite H7. split; [by apply box_new|done].
Qed.

Lemma task_in_run_order n q p v c : proc_inv n q → cr_ok q p v c → p ∈ run_order (sched q) (group_name_ c).
Proof.
  intros Hq [H1 H2 _ _ _]. destruct (ci_ids _ (pi_sched _ _ _ Hq) _ _ H2) as (c0 & l & Hc & _ & _ & Hl & Hin).
  rewrite H1 in Hc. injection Hc as <-. unfold run_order. apply list_elem_of_In, in_concat. exists l.
  split; [|by apply list_elem_of_In]. apply list_elem_of_In, elem_of_reverse. by eapply list_elem_of_lookup_2.
Qed.

(** A coroutine with unread mail keeps the processors of its group busy. *)
Lemma wakes_found n q p v c now :
  proc_inv n q → cr_ok q p v c → wakes c → (ClassicContext_NextRoutine now (sched q) (group_name_ c)).2 ≠ None.
Proof.
  intros Hq Hc Hw. unfold ClassicContext_NextRoutine. rewrite (pi_up _ _ _ Hq).
  pose proof (scan_finds now (heap (sched q)) (run_order (sched q) (group_name_ c)) p c
    (run_order_NoDup _ _ (pi_sched _ _ _ Hq)) (task_in_run_order n q p v c Hq Hc) (co_heap _ _ _ _ Hc)
    (pi_free _ _ _ Hq _ _ (co_heap _ _ _ _ Hc)) (wakes_ready now c Hw)) as H.
  by destruct (scan _ _ _).
Qed.

(** [C10] Every reader is a mailbox.  Through any calls on any readers and tasks of the
    process, messages and processor turns, none of which gets stuck, the coroutine that
    [Init] started runs the reader's callback on exactly the messages that a mailbox
    yields into which the messages of its channel and type are put and from which each
    of its turns takes one: in the order in which they came, each at most once.  While
    mail is unread, a processor of its group finds a routine to run. *)
Theorem reader_is_mailbox ops1 now rid rt0 r ops2 :
  Forall rt_op_ok (ops1 ++ ops2) → (length ops1 + length ops2 + 1 < fuel)%nat →
  rt_run Hash fuel conf (rt_new conf) ops1 = Some rt0 → readers rt0 !! rid = Some r → init_ r = false →
  0 < pending_queue_size_ r < 2 ^ 32 →
  ∃ rt1 ok rt2, Init_task Hash fuel conf now rt0 rid = Some (rt1, ok) ∧ rt_run Hash fuel conf rt1 ops2 = Some rt2 ∧
    let p := fresh (sched (process rt0)) in
    let events := mb_events Hash fuel conf p (type_ r) (channel_id_ r) rt1 ops2 in
    let mb := foldl (mb_step (pending_queue_size_ r)) mb_new events in
    (ok = true → is_Some (routines rt2 !! p) →
       filter (λ c, c_routine c = p) (calls rt2) = mkCall p rid (reader_func_ r) <$> mb_taken mb ∧
       mb_taken mb ++ mb_unread mb `sublist_of` puts events ∧
       (mb_unread mb ≠ [] → ∃ c, heap (sched (process rt2)) !! p = Some c ∧
          ∀ now, (ClassicContext_NextRoutine now (sched (process rt2)) (group_name_ c)).2 ≠ None)).
Proof using Hash_u64 Hgroups Hfuel.
  intros [Hok1 Hok2]%Forall_app Hlen Hrun Er Einit Hs.
  destruct (run_all 0 (rt_new conf) ops1 ltac:(lia) Hok1 rt_new_inv) as (rt0' & E0 & Hi0 & Hg0 & _).
  rewrite Hrun in E0. injection E0 as <-. cbn [Nat.add] in Hi0.
  destruct (Init_task_spec (length ops1) rt0 now rid r ltac:(lia) Hi0 Er Einit) as (w' & dv & q & ok & E1 & Hres).
  pose proof (init_state_inv _ _ _ _ _ _ _ _ Hi0 Er Hres) as Hi1.
  destruct (run_all (S (length ops1)) _ ops2 ltac:(lia) Hok2 Hi1) as (rt2 & E2 & Hi2 & _ & Hm2).
  eexists _, ok, rt2. split; [exact E1|]. split; [exact E2|]. cbn zeta. intros -> Hend.
  assert (filter (λ c, c_routine c = fresh (sched (process rt0))) (calls rt0) = []) as Hnone.
  { destruct Hg0 as (_ & _ & Hg0). rewrite Hg0 by done. done. }
  pose proof (init_mail _ _ _ _ _ _ _ Hi0 Er Hs Hres Hnone) as Hmail.
  destruct ((λ A B C, Hm2 _ _ _ _ _ _ _ _ A B C Hmail Hend)) as (hist & [Hbox Hcalls]);
    [lia|cbn [length]; lia|cbn; rewrite (ir_fresh _ _ _ _ _ _ _ Hres); lia|].
  split; [exact Hcalls|]. split; [apply mb_sublist|].
  intros Hun. destruct Hbox as (v & _ & c & _ & _ & _ & _ & _ & _ & Hc & _ & _ & Hw).
  exists c. split; [apply Hc|]. intros t. apply (wakes_found _ _ _ _ _ t (ri_proc _ _ Hi2) Hc). by apply Hw.
Qed.
End runtime.

(** ** Witnesses *)

Definition demo_hash (s : string) : Z := u64 (Z.of_nat (String.length s)).
Definition demo_sched : ClassicConf := mkClassicConf ∅ [("pool", 1%nat)].
(** Two readers of channel 7, one with a queue of 2 messages and one with a queue of 10. *)
Definition demo_setup : list RtOp :=
  [OpNew 1 "talker" "chatter" 7 0 1 None 10; OpInit 0 1; OpTurn 0 "pool" id; OpNew 2 "listener" "chatter" 7 0 3 (Some 40%nat) 2].
Definition demo_traffic : list RtOp :=
  [OpTurn 1 "pool" id; OpMessage 0 7 100; OpTurn 1 "pool" id; OpTurn 1 "pool" id; OpMessage 0 7 101; OpMessage 0 7 102;
   OpTurn 2 "pool" id; OpTurn 2 "pool" id; OpTurn 2 "pool" id; OpTurn 2 "pool" id; OpData 2 DoObserve].

Lemma demo_calls_ok : Forall rt_op_ok (demo_setup ++ demo_traffic).
Proof. repeat constructor; cbn; unfold is_u64; lia. Qed.

(** The state a run ends in, if it does. *)
Definition ran (ops : list RtOp) : Runtime :=
  default (rt_new demo_sched) (rt_run demo_hash 30 demo_sched (rt_new demo_sched) ops).

Lemma demo_hash_u64 s : is_u64 (demo_hash s).
Proof. apply u64_range. Qed.

Definition demo_start : Runtime := ran (demo_setup ++ [OpInit 0 2]).
Definition demo_end : Runtime := ran (demo_setup ++ OpInit 0 2 :: demo_traffic).

Lemma demo_init : Init_task demo_hash 30 demo_sched 0 (ran demo_setup) 2 = Some (demo_start, true).
Proof. vm_compute. reflexivity. Qed.
Lemma demo_run : rt_run demo_hash 30 demo_sched demo_start demo_traffic = Some demo_end.
Proof. vm_compute. reflexivity. Qed.

Lemma reader_is_mailbox_witness :
  filter (λ c, c_routine c = 1%nat) (calls demo_end) = [mkCall 1 2 (Some 40%nat) 102].
Proof.
  destruct (reader_is_mailbox demo_hash demo_hash_u64 30 demo_sched ltac:(done) ltac:(lia) demo_setup 0 2 (ran demo_setup)
    (Reader_new "listener" "chatter" 7 0 3 (Some 40%nat) 2) demo_traffic)
    as (rt1 & ok & rt2 & E1 & E2 & H);
    [apply demo_calls_ok|cbn; lia|vm_compute; reflexivity|vm_compute; reflexivity|reflexivity|cbn; lia|].
  pose proof (eq_trans (eq_sym E1) demo_init) as F1. apply (inj Some), pair_eq in F1 as [-> ->].
  pose proof (eq_trans (eq_sym E2) demo_run) as F2. apply (inj Some) in F2 as ->.
  destruct H as [H _]; [done|vm_compute; eauto|]. etrans; [exact H|]. vm_compute. reflexivity.
Defined.

(** The first fetch jumps to the newest message: a queue of 10 loses two of the three
    messages that came before the reader's first turn. *)
Example first_fetch_skips :
  let rt := ran [OpNew 1 "listener" "chatter" 7 0 1 (Some 40%nat) 10; OpInit 0 1; OpMessage 0 7 100; OpMessage 0 7 101;
                 OpMessage 0 7 102; OpTurn 0 "pool" id; OpTurn 0 "pool" id; OpTurn 0 "pool" id] in
  c_msg <$> calls rt = [102]%nat.
Proof. by vm_compute. Qed.

(** Node "a" reading "b_c" and node "a_b" reading "c" would give their tasks one name: the
    second reader cannot be initialised. *)
Example reader_name_collision :
  let rt := ran [OpNew 1 "a" "b_c" 7 0 1 None 1; OpInit 0 1; OpNew 2 "a_b" "c" 8 0 1 None 1; OpInit 0 2] in
  (init_ <$> readers rt !! 1%nat, init_ <$> readers rt !! 2%nat) = (Some true, Some false).
Proof. by vm_compute. Qed.

(** The notifier of a reader that was shut down stays: initialised again, the reader is
    notified twice for each message. *)
Example notifiers_stay :
  let rt := ran [OpNew 1 "a" "c" 7 0 1 None 1; OpInit 0 1; OpShutdown 1; OpInit 0 1; OpMessage 0 7 100] in
  called (world rt) = [2; 4] ∧ buffers (world rt) !! 1 = None ∧ is_Some (buffers (world rt) !! 3).
Proof. vm_compute. split; [done|]. split; [done|eauto]. Qed.
