(* ===== verification/Node.v ===== *)
(** * Nodes, readers and writers of a process (cyber/node)

    The parts below, put together: nodes make writers and readers; both announce
    themselves to the channel manager (Topology) and hear of each other through its change
    signal; a writer's hybrid transmitter and a channel's hybrid receiver (HybridTransport)
    are enabled for each other accordingly; a message written within the process goes
    through the dispatcher (IntraDispatcher) to the channel's receiver, which hands it to
    the readers' runtime (Reader).

    One process is modelled, and one message type [ty], called [tname]; the classes that
    are templates over the message type have an instance for it.  Messages are numbers.
    The change signal is the list of its slots: no slot connects or disconnects another.
    The four registries of names are one object in the code; the task names of [Process]
    and the names here are in different maps of it.  The endpoints below a hybrid one have
    identities of their own, which nothing here reads.

    Not modelled: other processes (their roles come through [OnRemoteChange] and their
    messages through ShmTransport and RtpsTransport), the history of transient-local
    writers, which goes over RTPS, and the simulation mode, whose readers and writers are
    those of Blocker. *)

From stdpp Require Import base numbers list gmap strings.
From Stdlib Require Import ZArith Lia.
From S2P Require Import Prelude KeyedStore AtomicHashMap GlobalData DataPath CRoutine Scheduler Reader IntraDispatcher History.
From S2P Require Import HybridTransport Topology Warehouse.

Open Scope Z_scope.

(** ** Role attributes *)

Definition RAW_MESSAGE_TYPES : list string := ["apollo.cyber.message.RawMessage"; "apollo.cyber.message.PyMessage"]%string.

(** [QosProfileConf::QOS_PROFILE_DEFAULT], which is also what an unset profile reads as. *)
Definition QOS_PROFILE_DEFAULT : HistoryAttributes * bool := (mkHistoryAttributes HISTORY_KEEP_LAST 1, false).
Definition qos (a : RoleAttributes) : HistoryAttributes * bool := default QOS_PROFILE_DEFAULT (qos_profile a).

(** The part of a role's attributes the transport reads. *)
Definition attr_of_role (a : RoleAttributes) : Attr :=
  mkAttr (get_str (channel_name a)) (get_str (host_ip a)) (get_num (process_id a)) (get_num (Warehouse.id a))
    (bool_decide (get_str (message_type a) ∈ RAW_MESSAGE_TYPES)) (qos a).2 (qos a).1.

Definition set_id (a : RoleAttributes) (i : Z) : RoleAttributes :=
  mkRoleAttributes (host_name a) (process_id a) (node_name a) (node_id a) (channel_name a) (channel_id a)
    (message_type a) (proto_desc a) (Some i) (service_name a) (service_id a) (host_ip a) (qos_profile a).

Definition or_set {A} (o : option A) (x : A) : option A := Some (default x o).

(** ** The objects of the process *)

(** A receiver: its endpoint's attributes and the hybrid receiver's state. *)
Record Rx := mkRx { rx_attr : RoleAttributes; rx_hybrid : HybridReceiver }.

Record Writer := mkWriter {
  w_role : RoleAttributes;                                  (* role_attr_ *)
  w_transmitter : option (HybridTransmitter (M := nat) * Z);  (* transmitter_, with the hash of its id_ *)
  w_init : bool
}.

Record Node := mkNode {
  node_attr_ : RoleAttributes;
  readers_ : gmap string nat                                (* channel name -> reader *)
}.

(** Who hears of changes of the topology. *)
Inductive Slot := SlotReader (rid : nat) | SlotWriter (wid : nat).
#[global] Instance Slot_eq_dec : EqDecision Slot.
Proof. solve_decision. Defined.

(** Names and managers. *)
Record Topo := mkTopo {
  names : Registries (M := AtomicHashMap string);
  channel_manager : Manager ChannelStore;
  node_manager : Manager NodeStore;
  change_signal : list Slot
}.

(** The transport: [ReceiverManager], its receivers, and the dispatcher. *)
Record Links := mkLinks {
  receiver_map_ : gmap string nat;
  receivers : gmap nat Rx;
  intra : IntraDispatcher
}.

Record Net := mkNet {
  rt : Runtime;
  topo : Topo;
  links : Links;
  reader_roles : gmap nat RoleAttributes;     (* role_attr_ of the readers *)
  receiver_ : gmap nat nat;                   (* and their receiver_, where it is not null *)
  writers : gmap nat Writer;
  nodes : gmap nat Node;
  held : gset nat;                            (* readers the user has a pointer to *)
  count : nat                                 (* the next object or endpoint *)
}.

Definition set_rt (n : Net) (r : Runtime) : Net :=
  mkNet r (topo n) (links n) (reader_roles n) (receiver_ n) (writers n) (nodes n) (held n) (count n).
Definition set_topo (n : Net) (t : Topo) : Net :=
  mkNet (rt n) t (links n) (reader_roles n) (receiver_ n) (writers n) (nodes n) (held n) (count n).
Definition set_links (n : Net) (l : Links) : Net :=
  mkNet (rt n) (topo n) l (reader_roles n) (receiver_ n) (writers n) (nodes n) (held n) (count n).
Definition set_writer (n : Net) (wid : nat) (w : Writer) : Net :=
  mkNet (rt n) (topo n) (links n) (reader_roles n) (receiver_ n) (<[wid := w]> (writers n)) (nodes n) (held n) (count n).
Definition set_node (n : Net) (nid : nat) (nd : Node) : Net :=
  mkNet (rt n) (topo n) (links n) (reader_roles n) (receiver_ n) (writers n) (<[nid := nd]> (nodes n)) (held n) (count n).
Definition set_held (n : Net) (h : gset nat) : Net :=
  mkNet (rt n) (topo n) (links n) (reader_roles n) (receiver_ n) (writers n) (nodes n) h (count n).
Definition next (n : Net) : Net :=
  mkNet (rt n) (topo n) (links n) (reader_roles n) (receiver_ n) (writers n) (nodes n) (held n) (S (count n)).

Section process.
Context (Hash : string → Z) (fuel : nat) (conf : ClassicConf).
Context (host ip : string) (pid : Z).                      (* of GlobalData *)
Context (mode : option CommunicationMode) (env : Env) (max_history_depth : option Z) (arena_transmit : bool).
Context (uuid : nat → Z).                                  (* HashValue() of an endpoint's id *)
Context (ty : Z) (tname : string) (GetDescriptorString : string → string).
Context (FullByteSize : nat → Z) (SerializeToHC : nat → option (list Z)) (ParseFromHC : string → list Z → option nat).

(** [Endpoint(attr)], of the endpoint [k]. *)
Definition Endpoint_attr (a : RoleAttributes) (k : nat) : RoleAttributes :=
  mkRoleAttributes (or_set (host_name a) host) (or_set (process_id a) pid) (node_name a) (node_id a) (channel_name a)
    (channel_id a) (message_type a) (proto_desc a) (or_set (Warehouse.id a) (uuid k)) (service_name a) (service_id a)
    (host_ip a) (qos_profile a).

(** ** Names *)

Definition set_names (t : Topo) (g : Registries) : Topo :=
  mkTopo g (channel_manager t) (node_manager t) (change_signal t).
Definition channel_key (t : Topo) (channel : string) : option (Topo * Z) :=
  '(g, key) ← RegisterChannel Hash fuel (names t) channel; Some (set_names t g, key).
Definition node_key (t : Topo) (node : string) : option (Topo * Z) :=
  '(g, key) ← RegisterNode Hash fuel (names t) node; Some (set_names t g, key).

(** [FillInAttr<MessageT>(attr)]. *)
Definition FillInAttr (t : Topo) (node_attr : RoleAttributes) (a : RoleAttributes) : option (Topo * RoleAttributes) :=
  '(t, id) ← channel_key t (get_str (channel_name a));
  let mtype := default tname (message_type a) in
  Some (t, mkRoleAttributes (Some (get_str (host_name node_attr))) (Some (get_num (process_id node_attr)))
             (Some (get_str (node_name node_attr))) (Some (get_num (node_id node_attr))) (channel_name a) (Some id)
             (Some mtype) (or_set (proto_desc a) (GetDescriptorString mtype)) (Warehouse.id a) (service_name a)
             (service_id a) (Some (get_str (host_ip node_attr))) (or_set (qos_profile a) QOS_PROFILE_DEFAULT)).

(** ** What a change of the topology does *)

(** The receiver's calls of the intra-process receiver. *)
Definition rx_apply (k : nat) (a : RoleAttributes) (d : IntraDispatcher) (c : RxCall) : IntraDispatcher :=
  match c with
  | RxEnable INTRA w =>
      AddListener d (get_num (Warehouse.id a)) (get_num (channel_id a)) (Some (a_id w)) tname k
  | RxDisable INTRA w =>
      RemoveListener d (get_num (Warehouse.id a)) (get_num (channel_id a)) (Some (a_id w)) tname
  | _ => d
  end.

(** [receiver_->Enable(writer_attr)] or [Disable]. *)
Definition rx_step (l : Links) (k : nat) (v : Ev) : Links :=
  match receivers l !! k with
  | None => l
  | Some rx =>
      let h := hr_step (rx_hybrid rx) v in
      mkLinks (receiver_map_ l) (<[k := mkRx (rx_attr rx) h]> (receivers l))
        (foldl (rx_apply k (rx_attr rx)) (intra l) (drop (length (rx_calls (rx_hybrid rx))) (rx_calls h)))
  end.

(** [transmitter_->Enable(reader_attr)] or [Disable]. *)
Definition tx_apply (w : Writer) (v : Ev) : Writer :=
  mkWriter (w_role w) ((λ '(h, i), (ht_step env h v, i)) <$> w_transmitter w) (w_init w).

(** [OnChannelChange(change_msg)] of a reader and of a writer. *)
Definition event_of (msg : ChangeMsg) : Ev :=
  match operate_type msg with
  | OPT_JOIN => HybridTransport.Join (attr_of_role (role_attr msg))
  | OPT_LEAVE => HybridTransport.Leave (attr_of_role (role_attr msg))
  end.
Definition OnChannelChange (msg : ChangeMsg) (n : Net) (s : Slot) : Net :=
  match s with
  | SlotReader rid =>
      match role_type msg, reader_roles n !! rid, receiver_ n !! rid with
      | ROLE_WRITER, Some a, Some k =>
          if negb (bool_decide (get_str (channel_name (role_attr msg)) = get_str (channel_name a))) then n
          else set_links n (rx_step (links n) k (event_of msg))
      | _, _, _ => n
      end
  | SlotWriter wid =>
      match role_type msg, writers n !! wid with
      | ROLE_READER, Some w =>
          if negb (bool_decide (get_str (channel_name (role_attr msg)) = get_str (channel_name (w_role w)))) then n
          else set_writer n wid (tx_apply w (event_of msg))
      | _, _ => n
      end
  end.

(** [Notify(msg)]: the signal runs its slots.  Broadcasting is to other processes. *)
Definition announce (n : Net) (es : list Effect) : Net :=
  foldl (λ n e, match e with
                | Notified msg => foldl (OnChannelChange msg) n (change_signal (topo n))
                | _ => n
                end) n es.

Definition set_slots (n : Net) (l : list Slot) : Net :=
  set_topo n (mkTopo (names (topo n)) (channel_manager (topo n)) (node_manager (topo n)) l).
Definition AddChangeListener (n : Net) (s : Slot) : Net := set_slots n (change_signal (topo n) ++ [s]).
Definition RemoveChangeListener (n : Net) (s : Slot) : Net :=
  set_slots n (filter (λ s', s' ≠ s) (change_signal (topo n))).

(** [channel_manager_->Join(attr, role)] and [Leave]. *)
Definition set_manager (t : Topo) (m : Manager ChannelStore) : Topo :=
  mkTopo (names t) m (node_manager t) (change_signal t).
Definition cm_Join (now : Z) (n : Net) (a : RoleAttributes) (role : RoleType) : Net :=
  let '(m, es, _) := Topology.Join now (channel_manager (topo n)) a role true in
  announce (set_topo n (set_manager (topo n) m)) es.
Definition cm_Leave (now : Z) (n : Net) (a : RoleAttributes) (role : RoleType) : Net :=
  let '(m, es, _) := Topology.Leave now (channel_manager (topo n)) a role in
  announce (set_topo n (set_manager (topo n) m)) es.

(** ** Writers *)

Definition Writer_JoinTheTopology (now : Z) (n : Net) (wid : nat) (a : RoleAttributes) : option Net :=
  let n := AddChangeListener n (SlotWriter wid) in
  '(t, key) ← channel_key (topo n) (get_str (channel_name a));
  let n := set_topo n t in
  let n := foldl (λ n r, match writers n !! wid with
                         | Some w => set_writer n wid (tx_apply w (HybridTransport.Join (attr_of_role r)))
                         | None => n
                         end) n (GetReadersOfChannel (store (channel_manager t)) key) in
  Some (cm_Join now n a ROLE_WRITER).

(** [Init()], [CreateTransmitter] included. *)
Definition Writer_Init (now : Z) (n : Net) (wid : nat) : option (Net * bool) :=
  match writers n !! wid with
  | None => Some (n, false)
  | Some w =>
      if w_init w then Some (n, true)
      else
        let k := count n in
        let h := HybridTransmitter_new max_history_depth arena_transmit mode (attr_of_role (Endpoint_attr (w_role w) k)) in
        let a := set_id (w_role w) (uuid k) in
        n ← Writer_JoinTheTopology now (set_writer (next n) wid (mkWriter a (Some (h, uuid k)) true)) wid a;
        Some (n, true)
  end.

Definition Writer_Shutdown (now : Z) (n : Net) (wid : nat) : Net :=
  match writers n !! wid with
  | None => n
  | Some w =>
      if negb (w_init w) then n
      else
        let n := set_writer n wid (mkWriter (w_role w) (w_transmitter w) false) in
        let n := RemoveChangeListener n (SlotWriter wid) in
        let n := cm_Leave now n (w_role w) ROLE_WRITER in
        set_writer n wid (mkWriter (w_role w) None false)
  end.

(** The listeners the dispatcher calls, each a receiver: [Receiver::OnNewMessage], whose
    listener is that of [GetReceiver]. *)
Definition deliver (n : Net) (l : list (string * nat * nat)) : option Net :=
  foldl (λ on '(_, k, m), n ← on;
           match receivers (links n) !! k with
           | Some rx => r ← on_message (rt n) ty (get_num (channel_id (rx_attr rx))) m; Some (set_rt n r)
           | None => Some n
           end) (Some n) l.

(** [Write(msg_ptr)]: [HybridTransmitter::Transmit], and [IntraTransmitter::Transmit] if
    that mode is on. *)
Definition Writer_Write (n : Net) (wid m : nat) : option (Net * bool) :=
  match writers n !! wid with
  | None => Some (n, false)
  | Some w =>
      match w_init w, w_transmitter w with
      | true, Some (h, i) =>
          let '(h, ms) := Transmit h m in
          let n := set_writer n wid (mkWriter (w_role w) (Some (h, i)) true) in
          n ← (if bool_decide (INTRA ∈ ms)
               then deliver n (OnMessage FullByteSize SerializeToHC ParseFromHC (intra (links n))
                                 (get_num (channel_id (w_role w))) tname m i)
               else Some n);
          Some (n, true)
      | _, _ => Some (n, false)
      end
  end.

Definition Writer_HasReader (n : Net) (wid : nat) : option (Net * bool) :=
  match writers n !! wid with
  | None => Some (n, false)
  | Some w =>
      if negb (w_init w) then Some (n, false)
      else '(t, key) ← channel_key (topo n) (get_str (channel_name (w_role w)));
           Some (set_topo n t, HasReader (store (channel_manager t)) key)
  end.

(** ** Readers *)

(** [ReceiverManager::GetReceiver(role_attr)], [CreateReceiver] included. *)
Definition GetReceiver (n : Net) (a : RoleAttributes) : Net * nat :=
  let channel := get_str (channel_name a) in
  match receiver_map_ (links n) !! channel with
  | Some k => (n, k)
  | None =>
      let k := count n in
      let rx := mkRx (Endpoint_attr a k) (HybridReceiver_new mode (attr_of_role (Endpoint_attr a k))) in
      (next (set_links n (mkLinks (<[channel := k]> (receiver_map_ (links n))) (<[k := rx]> (receivers (links n)))
                            (intra (links n)))), k)
  end.

Definition Reader_JoinTheTopology (now : Z) (n : Net) (rid k : nat) (a : RoleAttributes) : option Net :=
  let n := AddChangeListener n (SlotReader rid) in
  '(t, key) ← channel_key (topo n) (get_str (channel_name a));
  let n := set_topo n t in
  let n := foldl (λ n w, set_links n (rx_step (links n) k (HybridTransport.Join (attr_of_role w)))) n
             (GetWritersOfChannel (store (channel_manager t)) key) in
  Some (cm_Join now n a ROLE_READER).

(** [receiver_ = GetReceiver(role_attr_); role_attr_.set_id(..)]. *)
Definition set_receiver (n : Net) (rid : nat) (a : RoleAttributes) (k : nat) : Net :=
  mkNet (rt n) (topo n) (links n) (<[rid := a]> (reader_roles n)) (<[rid := k]> (receiver_ n)) (writers n) (nodes n)
    (held n) (count n).
Definition drop_receiver (n : Net) (rid : nat) : Net :=
  mkNet (rt n) (topo n) (links n) (reader_roles n) (delete rid (receiver_ n)) (writers n) (nodes n) (held n) (count n).

Definition Reader_Init (now : Z) (n : Net) (rid : nat) : option (Net * bool) :=
  match Reader.readers (rt n) !! rid, reader_roles n !! rid with
  | Some r, Some a =>
      if init_ r then Some (n, true)
      else
        '(r, ok) ← Init_task Hash fuel conf now (rt n) rid;
        let n := set_rt n r in
        if negb ok then Some (n, false)
        else
          let '(n, k) := GetReceiver n a in
          let a := set_id a (uuid k) in
          n ← Reader_JoinTheTopology now (set_receiver n rid a k) rid k a;
          Some (n, true)
  | _, _ => Some (n, false)
  end.

Definition Reader_Shutdown (now : Z) (n : Net) (rid : nat) : option Net :=
  match Reader.readers (rt n) !! rid, reader_roles n !! rid with
  | Some r, Some a =>
      if negb (init_ r) then Some n
      else
        let n := RemoveChangeListener n (SlotReader rid) in
        let n := cm_Leave now n a ROLE_READER in
        let n := drop_receiver n rid in
        r ← Shutdown_task Hash (rt n) rid;
        Some (set_rt n r)
  | _, _ => Some n
  end.

Definition Reader_HasWriter (n : Net) (rid : nat) : option (Net * bool) :=
  match Reader.readers (rt n) !! rid, reader_roles n !! rid with
  | Some r, Some a =>
      if negb (init_ r) then Some (n, false)
      else '(t, key) ← channel_key (topo n) (get_str (channel_name a));
           Some (set_topo n t, HasWriter (store (channel_manager t)) key)
  | _, _ => Some (n, false)
  end.

(** ** Nodes *)

(** [NodeChannelImpl(node_name)]. *)
Definition Node_new (now : Z) (n : Net) (name : string) : option (Net * nat) :=
  '(t, id) ← node_key (topo n) name;
  let a := mkRoleAttributes (Some host) (Some pid) (Some name) (Some id) None None None None None None None (Some ip) None in
  let '(m, _, _) := Topology.Join now (node_manager t) a ROLE_NODE true in
  let t := mkTopo (names t) (channel_manager t) m (change_signal t) in
  Some (next (set_node (set_topo n t) (count n) (mkNode a ∅)), count n).

Definition has_channel (a : RoleAttributes) : bool :=
  bool_decide (is_Some (channel_name a)) && negb (bool_decide (get_str (channel_name a) = EmptyString)).

(** [CreateWriter(role_attr)]: the writer, or null. *)
Definition CreateWriter (now : Z) (n : Net) (nid : nat) (role : RoleAttributes) : option (Net * option nat) :=
  match nodes n !! nid with
  | None => Some (n, None)
  | Some nd =>
      if negb (has_channel role) then Some (n, None)
      else
        '(t, a) ← FillInAttr (topo n) (node_attr_ nd) role;
        let wid := count n in
        '(n, ok) ← Writer_Init now (next (set_writer (set_topo n t) wid (mkWriter a None false))) wid;
        Some (n, if (ok : bool) then Some wid else None)
  end.

(** The object [new Reader(new_attr, reader_func, pending_queue_size)]. *)
Definition new_reader (n : Net) (a : RoleAttributes) (func : option nat) (pending_queue_size : Z) : Net :=
  let rid := count n in
  mkNet (set_reader (rt n) rid
           (Reader_new (get_str (node_name a)) (get_str (channel_name a)) (get_num (channel_id a)) ty
              (Z.to_nat (depth (qos a).1)) func pending_queue_size))
    (topo n) (links n) (<[rid := a]> (reader_roles n)) (receiver_ n) (writers n) (nodes n) (held n) (S rid).

(** [NodeChannelImpl::CreateReader(role_attr, reader_func, pending_queue_size)]. *)
Definition Impl_CreateReader (now : Z) (n : Net) (nd : Node) (role : RoleAttributes) (func : option nat) (size : Z)
  : option (Net * option nat) :=
  if negb (has_channel role) then Some (n, None)
  else
    '(t, a) ← FillInAttr (topo n) (node_attr_ nd) role;
    let rid := count n in
    '(n, ok) ← Reader_Init now (new_reader (set_topo n t) a func size) rid;
    Some (n, if (ok : bool) then Some rid else None).

(** [Node::CreateReader]. *)
Definition CreateReader (now : Z) (n : Net) (nid : nat) (role : RoleAttributes) (func : option nat) (size : Z)
  : option (Net * option nat) :=
  match nodes n !! nid with
  | None => Some (n, None)
  | Some nd =>
      let channel := get_str (channel_name role) in
      match readers_ nd !! channel with
      | Some _ => Some (n, None)
      | None =>
          '(n, reader) ← Impl_CreateReader now n nd role func size;
          match reader with
          | None => Some (n, None)
          | Some rid =>
              Some (set_held (set_node n nid (mkNode (node_attr_ nd) (<[channel := rid]> (readers_ nd)))) ({[rid]} ∪ held n),
                    Some rid)
          end
      end
  end.

(** A pointer to a reader is gone: the last one takes the reader along, [~Reader()]. *)
Definition owned (n : Net) (rid : nat) : bool :=
  orb (bool_decide (rid ∈ held n))
    (existsb (λ x : nat * Node, existsb (λ y : string * nat, Nat.eqb y.2 rid) (map_to_list (readers_ x.2)))
       (map_to_list (nodes n))).
Definition release (now : Z) (n : Net) (rid : nat) : option Net :=
  if owned n rid then Some n else Reader_Shutdown now n rid.

Definition Node_DeleteReader (now : Z) (n : Net) (nid : nat) (channel : string) : option (Net * bool) :=
  match nodes n !! nid with
  | None => Some (n, false)
  | Some nd =>
      match readers_ nd !! channel with
      | None => Some (n, false)
      | Some rid =>
          n ← release now (set_node n nid (mkNode (node_attr_ nd) (delete channel (readers_ nd)))) rid;
          Some (n, true)
      end
  end.

Definition Node_GetReader (n : Net) (nid : nat) (channel : string) : Net * option nat :=
  match nodes n !! nid with
  | None => (n, None)
  | Some nd =>
      match readers_ nd !! channel with
      | None => (n, None)
      | Some rid => (set_held n ({[rid]} ∪ held n), Some rid)
      end
  end.

(** [Observe()] and [ClearData()] of a node. *)
Definition data_ops (n : Net) (nid : nat) (d : DataOp) : list RtOp :=
  match nodes n !! nid with
  | None => []
  | Some nd => (λ '(_, rid), OpData rid d) <$> map_to_list (readers_ nd)
  end.
Definition Node_data (n : Net) (nid : nat) (d : DataOp) : option Net :=
  r ← rt_run Hash fuel conf (rt n) (data_ops n nid d); Some (set_rt n r).

(** ** Any sequence of calls *)

(** The calls of a user, who calls what he has a pointer to, and the turns of the
    processors. *)
Inductive NetOp :=
| DoNode (now : Z) (name : string)
| DoCreateWriter (now : Z) (nid : nat) (role : RoleAttributes)
| DoCreateReader (now : Z) (nid : nat) (role : RoleAttributes) (func : option nat) (size : Z)
| DoInitWriter (now : Z) (wid : nat)
| DoShutdownWriter (now : Z) (wid : nat)
| DoInitReader (now : Z) (rid : nat)
| DoShutdownReader (now : Z) (rid : nat)
| DoRelease (now : Z) (rid : nat)
| DoDeleteReader (now : Z) (nid : nat) (channel : string)
| DoGetReader (nid : nat) (channel : string)
| DoNodeData (nid : nat) (d : DataOp)
| DoReaderData (rid : nat) (d : DataOp)
| DoWrite (wid m : nat)
| DoHasReader (wid : nat)
| DoHasWriter (rid : nat)
| DoTurn (now : Z) (g : string) (slice : CRoutine → CRoutine)
| DoTask (now : Z) (name : string).

Definition if_held (n : Net) (rid : nat) (on : option Net) : option Net :=
  if bool_decide (rid ∈ held n) then on else Some n.
Definition rt_do (n : Net) (op : RtOp) : option Net :=
  r ← rt_step Hash fuel conf (rt n) op; Some (set_rt n r).

Definition net_step (n : Net) (op : NetOp) : option Net :=
  match op with
  | DoNode now name => fst <$> Node_new now n name
  | DoCreateWriter now nid role => fst <$> CreateWriter now n nid role
  | DoCreateReader now nid role f size => fst <$> CreateReader now n nid role f size
  | DoInitWriter now wid => fst <$> Writer_Init now n wid
  | DoShutdownWriter now wid => Some (Writer_Shutdown now n wid)
  | DoInitReader now rid => if_held n rid (fst <$> Reader_Init now n rid)
  | DoShutdownReader now rid => if_held n rid (Reader_Shutdown now n rid)
  | DoRelease now rid => if_held n rid (release now (set_held n (held n ∖ {[rid]})) rid)
  | DoDeleteReader now nid channel => fst <$> Node_DeleteReader now n nid channel
  | DoGetReader nid channel => Some (Node_GetReader n nid channel).1
  | DoNodeData nid d => Node_data n nid d
  | DoReaderData rid d => if_held n rid (rt_do n (OpData rid d))
  | DoWrite wid m => fst <$> Writer_Write n wid m
  | DoHasReader wid => fst <$> Writer_HasReader n wid
  | DoHasWriter rid => if_held n rid (fst <$> Reader_HasWriter n rid)
  | DoTurn now g slice => rt_do n (OpTurn now g slice)
  | DoTask now name => rt_do n (OpTask now name)
  end.
Definition net_run (n : Net) (ops : list NetOp) : option Net := foldl (λ on op, n ← on; net_step n op) (Some n) ops.

Definition net_new : Net :=
  mkNet (rt_new conf)
    (mkTopo registries_empty (ChannelManager_new host pid) (NodeManager_new host pid) [])
    (mkLinks ∅ ∅ IntraDispatcher_new) ∅ ∅ ∅ ∅ ∅ 0.

(** No role is transient-local; slices keep the task. *)
Definition net_op_ok (op : NetOp) : Prop :=
  match op with
  | DoCreateWriter _ _ role | DoCreateReader _ _ role _ _ => (qos role).2 = false
  | DoTurn _ _ slice => ∀ c, same_task c (slice c)
  | _ => True
  end.

(** ** A switchboard *)

(** Who hears whom, told by the comings and goings alone: a writer is connected when it
    finds a reader of its channel there or when one comes; when any reader of the channel
    goes, all its writers are disconnected. *)
Record Board := mkBoard {
  b_present : gset (string * string);               (* readers, by node and channel *)
  b_writers : gmap nat (string * bool)              (* channel, and whether it is connected *)
}.
Definition board_new : Board := mkBoard ∅ ∅.

Inductive Change :=
| ReaderComes (node channel : string)
| ReaderGoes (node channel : string)
| WriterComes (wid : nat) (channel : string)
| WriterGoes (wid : nat).

Definition switch (c : string) (on : bool) (x : string * bool) : string * bool :=
  if decide (x.1 = c) then (c, on) else x.
Definition has_reader (b : Board) (c : string) : bool := bool_decide (c ∈ (set_map snd (b_present b) : gset string)).
Definition board_step (b : Board) (e : Change) : Board :=
  match e with
  | ReaderComes v c => mkBoard ({[(v, c)]} ∪ b_present b) (switch c true <$> b_writers b)
  | ReaderGoes v c => mkBoard (b_present b ∖ {[(v, c)]}) (switch c false <$> b_writers b)
  | WriterComes wid c =>
      mkBoard (b_present b) (<[wid := (c, has_reader b c)]> (b_writers b))
  | WriterGoes wid => mkBoard (b_present b) (delete wid (b_writers b))
  end.

(** Who came and went between two states. *)
Definition live_writers (n : Net) : gset nat := dom (filter (λ x, w_init x.2 = true) (writers n)).
Definition reader_change (f : string → string → Change) (n : Net) (rid : nat) : Change :=
  let a := default no_attributes (reader_roles n !! rid) in f (get_str (node_name a)) (get_str (channel_name a)).
Definition writer_channel (n : Net) (wid : nat) : string :=
  get_str (writers n !! wid ≫= λ w, channel_name (w_role w)).
Definition changes (n n' : Net) : list Change :=
  (reader_change ReaderGoes n <$> elements (dom (receiver_ n) ∖ dom (receiver_ n'))) ++
  (reader_change ReaderComes n' <$> elements (dom (receiver_ n') ∖ dom (receiver_ n))) ++
  (WriterGoes <$> elements (live_writers n ∖ live_writers n')) ++
  ((λ wid, WriterComes wid (writer_channel n' wid)) <$> elements (live_writers n' ∖ live_writers n)).

(** The board after a run, and what a call means to the mailbox of coroutine [p] on
    channel [c]: the messages of connected writers of [c] are put into it. *)
Fixpoint board_run (n : Net) (b : Board) (ops : list NetOp) : Board :=
  match ops with
  | [] => b
  | op :: ops =>
      match net_step n op with
      | Some n' => board_run n' (foldl board_step b (changes n n')) ops
      | None => b
      end
  end.
Definition net_event (p : CrPtr) (c : string) (n : Net) (b : Board) (op : NetOp) : list MbEvent :=
  match op with
  | DoWrite wid m => if decide (b_writers b !! wid = Some (c, true)) then [Put m] else []
  | DoTurn now g slice =>
      match Processor_turn now g slice (rt n) with
      | Some (_, Some p') => if decide (p' = p) then [Take] else []
      | _ => []
      end
  | _ => []
  end.
Fixpoint net_events (p : CrPtr) (c : string) (n : Net) (b : Board) (ops : list NetOp) : list MbEvent :=
  match ops with
  | [] => []
  | op :: ops =>
      net_event p c n b op ++
      match net_step n op with
      | Some n' => net_events p c n' (foldl board_step b (changes n n')) ops
      | None => []
      end
  end.

End process.
