(* ===== verification/NodeLinks.v ===== *)
(** * The transport within a process, seen from its channels

    What the dispatcher holds for one sender and channel when all listeners are of one
    type, and how the receivers of the channels keep it in step with the writers they
    know. *)

From stdpp Require Import base numbers list gmap strings.
From Stdlib Require Import ZArith Lia.
From S2P Require Import Prelude Signal ListenerHandler GlobalData IntraDispatcher History HybridTransport Topology Warehouse Node.

Open Scope nat_scope.

(** ** One sender on one channel *)

Section tuned.
Context (t : string).
Implicit Types (d : IntraDispatcher) (o c : Z) (l : list nat).

Record dinv d : Prop := {
  di_up : IntraDispatcher.is_shutdown_ d = false;
  di_handlers : ∀ c h, msg_listeners_ d !! c = Some h → ListenerHandler.message_type h = t ∧ handler_inv h ∧ ears h None = []
}.

(** The listeners of sender [o] on channel [c] are [l]. *)
Record tuned d o c l : Prop := {
  tn_main : match msg_listeners_ d !! c with
            | None => l = []
            | Some h => ears h (Some o) = match l with [] => [] | _ => [mkWrapper (Some o) c t] end
            end;
  tn_chain : match l with
             | [] => default [] (group (chain_ d) (Some o) !! c) = []
             | _ => ∃ h, default [] (group (chain_ d) (Some o) !! c) = [(t, h)] ∧ handler_inv h ∧
                 ListenerHandler.message_type h = t ∧ ears h None = [] ∧ ears h (Some o) = l
             end
}.

Lemma dinv_new : dinv IntraDispatcher_new.
Proof. by split. Qed.

Lemma tuned_new o c : tuned IntraDispatcher_new o c [].
Proof. by split. Qed.

(** A message of the sender is handed to them. *)
Lemma tuned_message F S P d o c l (m : nat) :
  dinv d → tuned d o c l → OnMessage F S P d c t m o = calls t m l.
Proof.
  intros [Hu Hh] [Hm Hc]. unfold OnMessage. rewrite Hu. destruct (msg_listeners_ d !! c) as [h|] eqn:E; [|by subst].
  destruct (Hh _ _ E) as (-> & Hi & Hn). rewrite String.eqb_refl, Handler_Run_spec by done. cbn [snd]. rewrite Hn, Hm.
  destruct l as [|f l]; [done|]. cbn [app mbind list_bind w_oppo w_channel w_type]. rewrite app_nil_r.
  destruct Hc as (h' & Hg & Hi' & Ht & Hn' & He). rewrite Chain_Run_group, Hg. cbn [run_handlers].
  rewrite String.eqb_refl, Handler_Run_spec by done. cbn [snd]. by rewrite Hn', He, app_nil_r.
Qed.

Lemma tuned_add d self o c f :
  dinv d → tuned d o c [] →
  let d' := AddListener d self c (Some o) t f in
  dinv d' ∧ tuned d' o c [f] ∧ ∀ o' c' l, ¬ (o' = o ∧ c' = c) → tuned d o' c' l → tuned d' o' c' l.
Proof.
  intros [Hu Hh] [Hm Hc]. cbn zeta. set (r := mkReg self c (Some o) t f).
  destruct (chain_add_group (chain_ d) r) as [Ecr Eg]. cbn [r_oppo r] in Ecr, Eg.
  assert (group_add (group (chain_ d) (Some o)) r =
    (<[c := [(t, listen (Handler_new t) self (Some o) f)]]> (<[c := [(t, Handler_new t)]]> (group (chain_ d) (Some o))), true)) as Ea.
  { unfold group_add, Chain_GetHandler, Chain_GetHandler, IntraDispatcher.put. cbn [r_channel r_type r_self r_oppo r_listener r].
    rewrite Hc. cbn. rewrite lookup_insert_eq. cbn. unfold tm_set. cbn. by rewrite String.eqb_refl. }
  rewrite Ea in Ecr, Eg. cbn [fst snd] in Ecr, Eg.
  destruct (listen_spec (Handler_new t) self (Some o) f (handler_inv_new t)) as (Hi' & Ht' & He').
  unfold AddListener. rewrite Hu. change (Chain_AddListener_oppo (chain_ d) self o c t f) with (chain_add (chain_ d) r).
  destruct (chain_add (chain_ d) r) as [ch created]. cbn [fst snd] in Ecr, Eg. subst created.
  set (h0 := default (Handler_new t) (msg_listeners_ d !! c)).
  assert (ListenerHandler.message_type h0 = t ∧ handler_inv h0 ∧ ears h0 None = [] ∧ ears h0 (Some o) = []) as (H1 & H2 & H3 & H4).
  { unfold h0. destruct (msg_listeners_ d !! c) as [h|] eqn:E; cbn [default from_option id].
    - destruct (Hh _ _ E) as (? & ? & ?). by split_and!.
    - split; [done|]. split; [apply handler_inv_new|]. by rewrite !ears_new. }
  assert (∃ ls, GetHandler (msg_listeners_ d) c t = (ls, Some h0) ∧ ∀ c', c' ≠ c → ls !! c' = msg_listeners_ d !! c') as (ls & El & Hls).
  { unfold GetHandler, h0 in *. destruct (msg_listeners_ d !! c) as [h|] eqn:E; cbn in *.
    - rewrite H1, String.eqb_refl. by exists (msg_listeners_ d).
    - exists (<[c := Handler_new t]> (msg_listeners_ d)). split; [done|]. intros c' Hne. by rewrite lookup_insert_ne. }
  rewrite El. destruct (listen_spec h0 self (Some o) (mkWrapper (Some o) c t) H2) as (G1 & G2 & G3).
  split; [|split].
  - split; [done|]. cbn [msg_listeners_]. intros c' h. intros [[<- <-]|[Hne Hx]]%lookup_insert_Some.
    + rewrite G2. split; [done|]. split; [done|]. by rewrite G3, H3, decide_False.
    + rewrite Hls in Hx by done. by apply (Hh c').
  - split; cbn [msg_listeners_ chain_].
    { rewrite lookup_insert_eq, G3, H4. by rewrite decide_True. }
    rewrite Eg, decide_True by done. rewrite lookup_insert_eq. eexists. split; [done|].
    split; [done|]. split; [done|]. rewrite !He', !ears_new, decide_False by done. by rewrite decide_True.
  - intros o' c' l Hne [Hm' Hc']. split; cbn [msg_listeners_ chain_].
    + destruct (decide (c' = c)) as [->|Hcc]; [|by rewrite lookup_insert_ne, Hls].
      rewrite lookup_insert_eq, G3, decide_False by naive_solver. rewrite app_nil_r. unfold h0.
      destruct (msg_listeners_ d !! c); [done|]. by rewrite Hm'.
    + rewrite Eg. destruct (decide (o' = o)) as [->|]; [|by rewrite decide_False by congruence].
      rewrite decide_True by done. rewrite !lookup_insert_ne by naive_solver. done.
Qed.

Lemma RemoveHandler_other g c c' : c' ≠ c → (RemoveHandler g c t).1 !! c' = g !! c'.
Proof.
  intros Hne. unfold RemoveHandler. destruct (g !! c) as [l|]; [|done]. cbn.
  destruct (tm_erase t l); [by rewrite lookup_delete_ne|by rewrite lookup_insert_ne].
Qed.

Lemma tuned_remove d self o c :
  dinv d →
  let d' := RemoveListener d self c (Some o) t in
  dinv d' ∧ ∀ o' c' l, ¬ (o' = o ∧ c' = c) → tuned d o' c' l → tuned d' o' c' l.
Proof.
  intros [Hu Hh]. cbn zeta. unfold RemoveListener. rewrite Hu. split.
  - split; [done|]. cbn [msg_listeners_]. intros c' h Hx. destruct (msg_listeners_ d !! c) as [h0|] eqn:E; [|by apply (Hh c')].
    apply lookup_insert_Some in Hx as [[<- <-]|[_ Hx]]; [|by apply (Hh c')]. destruct (Hh _ _ E) as (H1 & H2 & H3).
    destruct (stop_listening_spec h0 self (Some o) H2) as (G1 & G2 & G3). rewrite G2. split; [done|]. split; [done|].
    destruct (G3 None) as [_ ->]; done.
  - intros o' c' l Hne [Hm Hc]. split; cbn [msg_listeners_ chain_].
    + destruct (msg_listeners_ d !! c) as [h0|] eqn:E; [|done].
      destruct (decide (c' = c)) as [->|Hcc]; [|by rewrite lookup_insert_ne].
      rewrite lookup_insert_eq. rewrite E in Hm. destruct (Hh _ _ E) as (_ & H2 & _).
      destruct (stop_listening_spec h0 self (Some o) H2) as (_ & _ & G3). destruct (G3 (Some o')) as [_ ->]; [done|naive_solver].
    + assert (default [] (group (Chain_RemoveListener_oppo (chain_ d) self o c t) (Some o') !! c') =
        default [] (group (chain_ d) (Some o') !! c')) as ->; [|done].
      unfold Chain_RemoveListener_oppo. destruct (oppo_handlers_ (chain_ d) !! o) as [g|] eqn:E; [|done]. cbn.
      destruct (decide (o' = o)) as [->|Hoo].
      * assert (c' ≠ c) as Hcc by naive_solver. rewrite E. cbn. pose proof (RemoveHandler_other g c c' Hcc) as Eo.
        case_bool_decide as Hd; [rewrite lookup_delete_eq; cbn; by rewrite <- Eo, Hd, lookup_empty|].
        by rewrite lookup_insert_eq; cbn; rewrite Eo.
      * case_bool_decide; by rewrite ?lookup_delete_ne, ?lookup_insert_ne by done.
Qed.
End tuned.

(** ** The receivers of the channels *)

Section links.
Context (ip : string) (pid : Z) (mode : option CommunicationMode) (tname : string).
Context (Hmode : same_proc (ObtainConfig mode) = INTRA).
Implicit Types (l : Links) (w : Attr).

(** Within the process, on the channel [c]. *)
Definition here (c : string) (a : Attr) : Prop := a_channel_name a = c ∧ a_host_ip a = ip ∧ a_process_id a = pid.

Definition rx_chan (rx : Rx) : string := get_str (channel_name (rx_attr rx)).
Definition rx_cid (rx : Rx) : Z := get_num (channel_id (rx_attr rx)).

(** Whether the receiver listens to the writer of this id. *)
Definition knows (rx : Rx) (o : Z) : Prop := is_Some (known (rx_hybrid rx) INTRA o).
#[global] Instance knows_dec rx o : Decision (knows rx o).
Proof. unfold knows. apply _. Defined.

Record rx_ok (rx : Rx) : Prop := {
  rk_here : here (rx_chan rx) (hr_attr (rx_hybrid rx));
  rk_mode : hr_mode (rx_hybrid rx) = ObtainConfig mode
}.

(** [gone] are the ids of writers that left; they do not come back. *)
Record links_inv (gone : Z → Prop) l : Prop := {
  li_disp : dinv tname (intra l);
  li_map : ∀ c k, receiver_map_ l !! c = Some k → ∃ rx, receivers l !! k = Some rx ∧ rx_chan rx = c;
  li_rx : ∀ k rx, receivers l !! k = Some rx → rx_ok rx ∧ receiver_map_ l !! rx_chan rx = Some k;
  li_apart : ∀ k k' rx rx', receivers l !! k = Some rx → receivers l !! k' = Some rx' → rx_cid rx = rx_cid rx' → k = k';
  li_known : ∀ k rx o, receivers l !! k = Some rx → knows rx o → ¬ gone o → tuned tname (intra l) o (rx_cid rx) [k];
  li_unknown : ∀ o x, ¬ gone o → (∀ k rx, receivers l !! k = Some rx → rx_cid rx = x → ¬ knows rx o) →
    tuned tname (intra l) o x []
}.

Lemma links_weaken (gone gone' : Z → Prop) l : (∀ o, gone o → gone' o) → links_inv gone l → links_inv gone' l.
Proof. intros Hg [H1 H2 H3 H4 H5 H6]. split; auto. Qed.

Lemma here_same_proc c a w : here c a → here c w → GetRelation a w = SAME_PROC.
Proof.
  intros (E1 & E2 & E3) (F1 & F2 & F3). unfold GetRelation. rewrite E1, E2, E3, F1, F2, F3, !bool_decide_true by done.
  cbn. by rewrite Z.eqb_refl.
Qed.

(** What a step of the hybrid receiver does for a writer of this process and channel. *)
Lemma hr_join rx w :
  rx_ok rx → here (rx_chan rx) w →
  let h := hr_step (rx_hybrid rx) (HybridTransport.Join w) in
  hr_attr h = hr_attr (rx_hybrid rx) ∧ hr_mode h = hr_mode (rx_hybrid rx) ∧
  (∀ o, known h INTRA o = if decide (o = a_id w ∧ ¬ knows rx o) then Some w else known (rx_hybrid rx) INTRA o) ∧
  drop (length (rx_calls (rx_hybrid rx))) (rx_calls h) = if decide (knows rx (a_id w)) then [] else [RxEnable INTRA w].
Proof using Hmode.
  intros [Hh Hm] Hw. cbn zeta. cbn [hr_step]. unfold HR_Enable_for. rewrite (here_same_proc _ _ _ Hh Hw), bool_decide_false by done.
  cbn [mapping_table]. rewrite Hm, Hmode, known_default.
  destruct (decide (knows rx (a_id w))) as [Hkn|Hkn].
  - destruct Hkn as [x E]. rewrite E. split; [done|]. split; [done|]. split; [|by apply drop_ge].
    intros o. case_decide as Hd; [|done]. destruct Hd as [-> Hd]. destruct Hd. by exists x.
  - assert (known (rx_hybrid rx) INTRA (a_id w) = None) as E by (by apply eq_None_not_Some). rewrite E. unfold ReceiveHistoryMsg. set (h := mkHybridReceiver _ _ _ _ _).
    assert (known h INTRA = known (mkHybridReceiver (hr_attr h) (hr_mode h) (hr_transmitters h) (rx_calls h)
      (hr_history_tasks h ++ [history_channel w (hr_attr h)])) INTRA) as Ek by done.
    assert (∀ o, known h INTRA o = if decide (o = a_id w ∧ ¬ knows rx o) then Some w
      else known (rx_hybrid rx) INTRA o) as Hk.
    { intros o. unfold known at 1, h. cbn. rewrite lookup_insert_eq. cbn. destruct (decide (o = a_id w)) as [->|Hne].
      - by rewrite lookup_insert_eq, decide_True.
      - rewrite lookup_insert_ne by done. rewrite known_default, decide_False by naive_solver. done. }
    destruct (negb (a_transient_local w)); cbn [hr_attr hr_mode rx_calls h] in *;
      (split; [done|]; split; [done|]; split; [exact Hk|]; by rewrite drop_app_length).
Qed.

Lemma hr_leave rx w :
  rx_ok rx → here (rx_chan rx) w →
  let h := hr_step (rx_hybrid rx) (HybridTransport.Leave w) in
  hr_attr h = hr_attr (rx_hybrid rx) ∧ hr_mode h = hr_mode (rx_hybrid rx) ∧
  (∀ o, known h INTRA o = if decide (o = a_id w) then None else known (rx_hybrid rx) INTRA o) ∧
  drop (length (rx_calls (rx_hybrid rx))) (rx_calls h) = if decide (knows rx (a_id w)) then [RxDisable INTRA w] else [].
Proof using Hmode.
  intros [Hh Hm] Hw. cbn zeta. cbn [hr_step]. unfold HR_Disable_for. rewrite (here_same_proc _ _ _ Hh Hw), bool_decide_false by done.
  cbn [mapping_table]. rewrite Hm, Hmode, known_default.
  destruct (decide (knows rx (a_id w))) as [Hkn|Hkn].
  - destruct Hkn as [x E]. rewrite E. cbn [hr_attr hr_mode rx_calls]. split; [done|]. split; [done|].
    split; [|by rewrite drop_app_length]. intros o. unfold known at 1. cbn. rewrite lookup_insert_eq. cbn.
    destruct (decide (o = a_id w)) as [->|Hne]; [by rewrite lookup_delete_eq|].
    rewrite lookup_delete_ne by done. apply known_default.
  - assert (known (rx_hybrid rx) INTRA (a_id w) = None) as E by (by apply eq_None_not_Some). rewrite E.
    split; [done|]. split; [done|]. split; [|by apply drop_ge]. intros o. case_decide; [by subst|done].
Qed.

(** ** Steps *)

(** The links after receiver [k] has become [rx'] and the dispatcher [d]. *)
Lemma links_update gone gone' l k rx h d :
  links_inv gone l → receivers l !! k = Some rx →
  hr_attr h = hr_attr (rx_hybrid rx) → hr_mode h = hr_mode (rx_hybrid rx) → dinv tname d →
  (∀ o, gone o → gone' o) →
  (∀ o, ¬ gone' o → known h INTRA o = known (rx_hybrid rx) INTRA o →
     ∀ x lst, tuned tname (intra l) o x lst → tuned tname d o x lst) →
  (∀ o, ¬ gone' o → known h INTRA o ≠ known (rx_hybrid rx) INTRA o →
     is_Some (known h INTRA o) ∧ tuned tname d o (rx_cid rx) [k] ∧
     ∀ x lst, x ≠ rx_cid rx → tuned tname (intra l) o x lst → tuned tname d o x lst) →
  links_inv gone' (mkLinks (receiver_map_ l) (<[k := mkRx (rx_attr rx) h]> (receivers l)) d).
Proof.
  intros [H1 H2 H3 H4 H5 H6] Hk Ha Hm Hd Hg Hsame Hnew. set (rx' := mkRx (rx_attr rx) h).
  assert (∀ k' r, <[k := rx']> (receivers l) !! k' = Some r →
    ∃ r0, receivers l !! k' = Some r0 ∧ rx_attr r = rx_attr r0 ∧ (k' ≠ k → r = r0) ∧ (k' = k → r = rx' ∧ r0 = rx)) as Hback.
  { intros k' r [[<- <-]|[Hne Hr]]%lookup_insert_Some; [by exists rx|]. exists r. split_and!; done. }
  assert (∀ o, known h INTRA o = known (rx_hybrid rx) INTRA o ∨ known h INTRA o ≠ known (rx_hybrid rx) INTRA o) as Hdec
    by (intros o; destruct (decide (known h INTRA o = known (rx_hybrid rx) INTRA o)); auto).
  split; cbn [receiver_map_ receivers intra]; [done| | | | |].
  - intros c k' Hc. destruct (H2 c k' Hc) as (r0 & Hr0 & Hc0). destruct (decide (k' = k)) as [->|Hne].
    + exists rx'. rewrite lookup_insert_eq. rewrite Hk in Hr0. by injection Hr0 as <-.
    + exists r0. by rewrite lookup_insert_ne.
  - intros k' r Hr. destruct (Hback k' r Hr) as (r0 & Hr0 & Ea & Hn & He). destruct (H3 k' r0 Hr0) as ([G1 G2] & G3).
    unfold rx_chan in *. rewrite Ea. split; [|done]. destruct (decide (k' = k)) as [->|Hne]; [|by rewrite Hn].
    destruct (He eq_refl) as [-> ->]. split; unfold rx_chan; cbn; congruence.
  - intros k1 k2 r1 r2 Hr1 Hr2. destruct (Hback _ _ Hr1) as (r1' & Hr1' & E1 & _). destruct (Hback _ _ Hr2) as (r2' & Hr2' & E2 & _).
    unfold rx_cid. rewrite E1, E2. by apply H4.
  - intros k' r o Hr Hkn Ho. destruct (Hback k' r Hr) as (r0 & Hr0 & Ea & Hn & He).
    assert (rx_cid r = rx_cid r0) as -> by (unfold rx_cid; by rewrite Ea).
    assert (¬ gone o) as Ho' by auto.
    destruct (decide (k' = k)) as [->|Hne].
    + destruct (He eq_refl) as [-> ->]. destruct (Hdec o) as [E|E]; [|by destruct (Hnew o Ho E) as (_ & ? & _)].
      apply (Hsame o Ho E). apply (H5 k rx o Hk); [|done]. unfold knows in *. cbn in Hkn. by rewrite <- E.
    + rewrite (Hn Hne) in Hkn. pose proof (H5 k' r0 o Hr0 Hkn Ho') as Ht.
      destruct (Hdec o) as [E|E]; [by apply (Hsame o Ho E)|].
      apply (Hnew o Ho E); [|done]. intros Ec. by apply Hne, (H4 k' k r0 rx).
  - intros o x Ho Hno. assert (¬ gone o) as Ho' by auto.
    assert (x = rx_cid rx → ¬ is_Some (known h INTRA o)) as Hnk.
    { intros ->. apply (Hno k rx'); [by rewrite lookup_insert_eq|done]. }
    destruct (Hdec o) as [E|E].
    + apply (Hsame o Ho E), H6; [done|]. intros k' r0 Hr0 Hx. destruct (decide (k' = k)) as [->|Hne].
      * rewrite Hk in Hr0. injection Hr0 as <-. unfold knows. rewrite <- E. by apply Hnk.
      * apply (Hno k' r0); [by rewrite lookup_insert_ne|done].
    + destruct (Hnew o Ho E) as (G1 & G2 & G3). assert (x ≠ rx_cid rx) as Hx by (intros Hx; by apply Hnk).
      apply G3; [done|]. apply H6; [done|]. intros k' r0 Hr0 Hx'. destruct (decide (k' = k)) as [->|Hne].
      * rewrite Hk in Hr0. injection Hr0 as <-. congruence.
      * apply (Hno k' r0); [by rewrite lookup_insert_ne|done].
Qed.

(** The receiver of the writer's channel hears of it. *)
Lemma rx_join gone l k rx w :
  links_inv gone l → receivers l !! k = Some rx → here (rx_chan rx) w → ¬ gone (a_id w) →
  let l' := rx_step tname l k (HybridTransport.Join w) in
  links_inv gone l' ∧ receiver_map_ l' = receiver_map_ l ∧
  ∃ rx', receivers l' = <[k := rx']> (receivers l) ∧ rx_attr rx' = rx_attr rx ∧
    ∀ o, knows rx' o ↔ o = a_id w ∨ knows rx o.
Proof using Hmode.
  intros Hi Hk Hw Hg. cbn zeta. destruct (li_rx _ _ Hi _ _ Hk) as [Hok _].
  destruct (hr_join rx w Hok Hw) as (E1 & E2 & E3 & E4). unfold rx_step. rewrite Hk, E4.
  set (h := hr_step (rx_hybrid rx) (HybridTransport.Join w)) in *. split; [|split; [done|]].
  - destruct (decide (knows rx (a_id w))) as [Hkn|Hkn].
    + apply (links_update gone gone l k rx h _ Hi Hk E1 E2); [apply Hi|done|done|].
      intros o _ []. rewrite E3. case_decide as Hd; [|done]. destruct Hd as [-> []]. done.
    + cbn [foldl rx_apply].
      assert (tuned tname (intra l) (a_id w) (rx_cid rx) []) as Ht.
      { apply (li_unknown _ _ Hi); [done|]. intros k' r' Hr' Hx. assert (k' = k) as -> by by eapply (li_apart _ _ Hi).
        rewrite Hk in Hr'. by injection Hr' as <-. }
      destruct (tuned_add tname (intra l) (get_num (Warehouse.id (rx_attr rx))) (a_id w) (rx_cid rx) k (li_disp _ _ Hi) Ht)
        as (G1 & G2 & G3).
      apply (links_update gone gone l k rx h _ Hi Hk E1 E2); [done|done| |].
      * intros o _ E x lst Hx. apply G3; [|done]. intros [-> ->]. rewrite E3, decide_True in E by done.
        apply Hkn. unfold knows. by rewrite <- E.
      * intros o _ E. rewrite E3 in E. destruct (decide (o = a_id w ∧ ¬ knows rx o)) as [[-> Hn]|]; [|done].
        split; [rewrite E3, decide_True by done; eauto|]. split; [done|]. intros x lst Hx. apply G3. naive_solver.
  - exists (mkRx (rx_attr rx) h). split; [done|]. split; [done|]. intros o. unfold knows. cbn. rewrite E3.
    destruct (decide (o = a_id w ∧ ¬ knows rx o)) as [[-> _]|Hd]; [naive_solver|].
    split; [auto|]. intros [->|]; [|done]. destruct (decide (knows rx (a_id w))) as [Hx|Hx]; [exact Hx|naive_solver].
Qed.

(** A receiver that hears of several writers. *)
Lemma rx_join_all gone l k rx (ws : list Attr) :
  links_inv gone l → receivers l !! k = Some rx →
  Forall (λ w, here (rx_chan rx) w ∧ ¬ gone (a_id w)) ws →
  let l' := foldl (λ l w, rx_step tname l k (HybridTransport.Join w)) l ws in
  links_inv gone l' ∧ receiver_map_ l' = receiver_map_ l ∧
  ∃ rx', receivers l' = <[k := rx']> (receivers l) ∧ rx_attr rx' = rx_attr rx ∧
    ∀ o, knows rx' o ↔ o ∈ (a_id <$> ws) ∨ knows rx o.
Proof using Hmode.
  intros Hi Hk. induction ws as [|w ws IH] using rev_ind; intros Hws; cbn zeta.
  - split; [done|]. split; [done|]. exists rx. split; [by rewrite insert_id|]. split; [done|]. intros o. cbn.
    rewrite elem_of_nil. tauto.
  - apply Forall_app in Hws as [Hws [Hw _]%Forall_cons]. destruct (IH Hws) as (H1 & H2 & rx1 & H3 & H4 & H5).
    rewrite foldl_snoc. set (l1 := foldl _ l ws) in *.
    destruct (rx_join gone l1 k rx1 w H1) as (G1 & G2 & rx2 & G3 & G4 & G5); [by rewrite H3, lookup_insert_eq| |apply Hw|].
    { unfold rx_chan. rewrite H4. apply Hw. }
    split; [done|]. split; [congruence|]. exists rx2. rewrite G3, H3, insert_insert_eq. split; [done|]. split; [congruence|].
    intros o. rewrite G5, H5, fmap_app, elem_of_app. cbn. rewrite list_elem_of_singleton. tauto.
Qed.

Lemma rx_leave gone l k rx w :
  links_inv gone l → receivers l !! k = Some rx → here (rx_chan rx) w →
  let l' := rx_step tname l k (HybridTransport.Leave w) in
  links_inv (λ o, gone o ∨ o = a_id w) l' ∧ receiver_map_ l' = receiver_map_ l ∧
  ∃ rx', receivers l' = <[k := rx']> (receivers l) ∧ rx_attr rx' = rx_attr rx ∧
    ∀ o, knows rx' o ↔ o ≠ a_id w ∧ knows rx o.
Proof using Hmode.
  intros Hi Hk Hw. cbn zeta. destruct (li_rx _ _ Hi _ _ Hk) as [Hok _].
  destruct (hr_leave rx w Hok Hw) as (E1 & E2 & E3 & E4). unfold rx_step. rewrite Hk, E4.
  set (h := hr_step (rx_hybrid rx) (HybridTransport.Leave w)) in *.
  assert (∀ o, ¬ (gone o ∨ o = a_id w) → known h INTRA o ≠ known (rx_hybrid rx) INTRA o → False) as Hdiff.
  { intros o Ho []. rewrite E3, decide_False; [done|]. intros ->. apply Ho. by right. }
  split; [|split; [done|]].
  - assert (dinv tname (foldl (rx_apply tname k (rx_attr rx)) (intra l) (if decide (knows rx (a_id w)) then [RxDisable INTRA w] else [])) ∧
      ∀ o x lst, o ≠ a_id w → tuned tname (intra l) o x lst →
        tuned tname (foldl (rx_apply tname k (rx_attr rx)) (intra l) (if decide (knows rx (a_id w)) then [RxDisable INTRA w] else [])) o x lst)
      as [G1 G2].
    { destruct (decide _); [|by split; [apply Hi|]]. cbn [foldl rx_apply].
      destruct (tuned_remove tname (intra l) (get_num (Warehouse.id (rx_attr rx))) (a_id w) (get_num (channel_id (rx_attr rx)))
        (li_disp _ _ Hi)) as [G1 G2]. split; [done|]. intros o x lst Hne. apply G2. naive_solver. }
    apply (links_update gone _ l k rx h _ Hi Hk E1 E2); [done|by left| |].
    + intros o Ho _ x lst. apply G2. naive_solver.
    + intros o Ho E. by destruct (Hdiff o Ho E).
  - exists (mkRx (rx_attr rx) h). split; [done|]. split; [done|]. intros o. unfold knows. cbn. rewrite E3.
    destruct (decide (o = a_id w)) as [->|]; [split; [by intros [? ?]|naive_solver]|naive_solver].
Qed.

(** A channel's first reader makes its receiver. *)
Lemma rx_new gone l k rx :
  links_inv gone l → receivers l !! k = None → receiver_map_ l !! rx_chan rx = None → rx_ok rx →
  (∀ o, ¬ knows rx o) → (∀ k' rx', receivers l !! k' = Some rx' → rx_cid rx' ≠ rx_cid rx) →
  links_inv gone (mkLinks (<[rx_chan rx := k]> (receiver_map_ l)) (<[k := rx]> (receivers l)) (intra l)).
Proof.
  intros [H1 H2 H3 H4 H5 H6] Hk Hc Hok Hno Hcid. split; cbn [receiver_map_ receivers intra]; [done| | | | |].
  - intros c k' [[<- <-]|[Hne Hx]]%lookup_insert_Some; [exists rx; by rewrite lookup_insert_eq|].
    destruct (H2 c k' Hx) as (r & Hr & Hrc). exists r. split; [|done]. rewrite lookup_insert_ne; [done|congruence].
  - intros k' r [[<- <-]|[Hne Hx]]%lookup_insert_Some; [by rewrite lookup_insert_eq|].
    destruct (H3 k' r Hx) as [G1 G2]. split; [done|]. rewrite lookup_insert_ne; [done|congruence].
  - intros k1 k2 r1 r2 [[<- <-]|[Hn1 Hx1]]%lookup_insert_Some [[<- <-]|[Hn2 Hx2]]%lookup_insert_Some E; try done.
    + by destruct (Hcid k2 r2).
    + by destruct (Hcid k1 r1).
    + by apply (H4 k1 k2 r1 r2).
  - intros k' r o [[<- <-]|[Hne Hx]]%lookup_insert_Some Hkn Ho; [by destruct (Hno o)|by apply H5].
  - intros o x Ho Hx. apply H6; [done|]. intros k' r Hr Ec. apply (Hx k' r); [|done].
    rewrite lookup_insert_ne; [done|congruence].
Qed.
End links.
