(* ===== verification/NodeBoard.v ===== *)
(** * The process as a switchboard

    Nodes, readers and writers of Node, through any sequence of calls: the invariant that
    ties topology, transport and readers together, and the theorem that the messages of a
    writer reach the readers' runtime exactly while the switchboard connects it. *)

From stdpp Require Import base numbers list gmap strings.
From Stdlib Require Import ZArith Lia.
From S2P Require Import Prelude KeyedStore AtomicHashMap GlobalData DataPath CRoutine Scheduler Reader ReaderMailbox.
From S2P Require Import IntraDispatcher History HybridTransport Topology Warehouse Node NodeLinks.

Open Scope Z_scope.

(** ** Names *)

Definition chan (a : RoleAttributes) : string := get_str (channel_name a).
Definition cid (a : RoleAttributes) : Z := get_num (channel_id a).
Definition node_of (a : RoleAttributes) : string := get_str (node_name a).

Section names.
Context (Hash : string → Z) (Hash_u64 : ∀ s, is_u64 (Hash s)) (fuel : nat) (Hfuel : Z.of_nat fuel < 2 ^ 64).
Implicit Types (t : Topo).

(** At most [N] ids are in use. *)
Definition names_inv (N : nat) t : Prop := ∃ ks, registries_ok Hash (names t) ks ∧ (length ks <= N)%nat.
Definition named t (k : Kind) (i : Z) (x : string) : Prop := is_u64 i ∧ ks_view (map_of (names t) k) i = Some x.

(** The names of [t] are kept in [t']. *)
Definition renamed t t' : Prop := ∀ k i x, named t k i x → named t' k i x.

Lemma register_spec N t k x :
  (N < fuel)%nat → names_inv N t →
  ∃ g i, register_kind Hash fuel (names t) k x = Some (g, i) ∧ names_inv (S N) (set_names t g) ∧
    named (set_names t g) k i x ∧ renamed t (set_names t g).
Proof using Hash_u64 Hfuel.
  intros HN (ks & Hk & Hl). destruct (register_kind_spec Hash Hash_u64 fuel (names t) k x ks Hk ltac:(lia) Hfuel)
    as (g & i & E & Hi & Hg & Hv & Hold). exists g, i. split; [done|]. split; [|split].
  - exists (i :: ks). split; [done|]. cbn. lia.
  - by split.
  - intros k' i' x' [Hu Hx]. split; [done|]. by apply Hold.
Qed.

Lemma channel_key_spec N t c :
  (N < fuel)%nat → names_inv N t →
  ∃ g i, channel_key Hash fuel t c = Some (set_names t g, i) ∧ names_inv (S N) (set_names t g) ∧
    named (set_names t g) KChannel i c ∧ renamed t (set_names t g).
Proof using Hash_u64 Hfuel.
  intros HN Hi. destruct (register_spec N t KChannel c HN Hi) as (g & i & E & H). exists g, i.
  unfold channel_key. cbn [register_kind] in E. by rewrite E.
Qed.

Lemma node_key_spec N t c :
  (N < fuel)%nat → names_inv N t →
  ∃ g i, node_key Hash fuel t c = Some (set_names t g, i) ∧ names_inv (S N) (set_names t g) ∧
    named (set_names t g) KNode i c ∧ renamed t (set_names t g).
Proof using Hash_u64 Hfuel.
  intros HN Hi. destruct (register_spec N t KNode c HN Hi) as (g & i & E & H). exists g, i.
  unfold node_key. cbn [register_kind] in E. by rewrite E.
Qed.

(** Ids and names go together. *)
Lemma named_inj N t k i i' x x' : names_inv N t → named t k i x → named t k i' x' → i = i' ↔ x = x'.
Proof.
  intros (ks & Hk & _) [Hu Hx] [Hu' Hx']. split; intros ->; [congruence|].
  by apply (registry_unique Hash (map_of (names t) k) i i' x' (proj1 (Hk k))).
Qed.

Lemma names_inv_le N N' t : (N <= N')%nat → names_inv N t → names_inv N' t.
Proof. intros HN (ks & Hk & Hl). exists ks. split; [done|lia]. Qed.
End names.

#[global] Instance renamed_refl : Reflexive renamed.
Proof. by intros t k i x. Qed.
#[global] Instance renamed_trans : Transitive renamed.
Proof. intros t1 t2 t3 H1 H2 k i x Hx. by apply H2, H1. Qed.

(** ** Who comes and goes *)

Definition same_comers (n n' : Net) : Prop := receiver_ n' = receiver_ n ∧ live_writers n' = live_writers n.

Lemma comers_diff (X : gset nat) x : x ∉ X → elements (({[x]} ∪ X) ∖ X) = [x].
Proof. intros Hx. rewrite <- (elements_singleton (C := gset nat) x). f_equal. set_solver. Qed.
Lemma goers_diff (X : gset nat) x : x ∈ X → elements (X ∖ (X ∖ {[x]})) = [x].
Proof.
  intros Hx. rewrite <- (elements_singleton (C := gset nat) x). f_equal. apply set_eq. intros y.
  rewrite !elem_of_difference, elem_of_singleton. destruct (decide (y = x)) as [->|]; naive_solver.
Qed.
Lemma none_diff (X Y : gset nat) : X ⊆ Y → elements (X ∖ Y) = [].
Proof. intros HX. rewrite <- (elements_empty (C := gset nat)). f_equal. set_solver. Qed.

Lemma changes_none n n' : same_comers n n' → changes n n' = [].
Proof. intros [E1 E2]. unfold changes. by rewrite E1, E2, !none_diff. Qed.
Lemma changes_writer_comes n n' wid :
  receiver_ n' = receiver_ n → live_writers n' = {[wid]} ∪ live_writers n → wid ∉ live_writers n →
  changes n n' = [WriterComes wid (writer_channel n' wid)].
Proof. intros E1 E2 Hw. unfold changes. rewrite E1, E2, comers_diff, !none_diff by set_solver. done. Qed.
Lemma changes_writer_goes n n' wid :
  receiver_ n' = receiver_ n → live_writers n' = live_writers n ∖ {[wid]} → wid ∈ live_writers n →
  changes n n' = [WriterGoes wid].
Proof. intros E1 E2 Hw. unfold changes. rewrite E1, E2, goers_diff, !none_diff by set_solver. done. Qed.
Lemma changes_reader_comes n n' rid k :
  receiver_ n' = <[rid := k]> (receiver_ n) → receiver_ n !! rid = None → live_writers n' = live_writers n →
  changes n n' = [reader_change ReaderComes n' rid].
Proof.
  intros E1 Hr E2. unfold changes. rewrite E1, E2, dom_insert_L, comers_diff, !none_diff by (set_solver || by apply not_elem_of_dom). done.
Qed.
Lemma changes_reader_goes n n' rid :
  receiver_ n' = delete rid (receiver_ n) → is_Some (receiver_ n !! rid) → live_writers n' = live_writers n →
  changes n n' = [reader_change ReaderGoes n rid].
Proof.
  intros E1 Hr E2. unfold changes. rewrite E1, E2, dom_delete_L, goers_diff, !none_diff by (set_solver || by apply elem_of_dom). done.
Qed.

Section board.
Context (Hash : string → Z) (Hash_u64 : ∀ s, is_u64 (Hash s)) (fuel : nat) (Hfuel : Z.of_nat fuel < 2 ^ 64).
Context (conf : ClassicConf) (Hgroups : groups conf ≠ []).
Context (host ip : string) (pid : Z) (mode : option CommunicationMode) (env : Env) (limit : option Z) (arena : bool).
Context (Hmode : same_proc (ObtainConfig mode) = INTRA).
Context (uuid : nat → Z) (uuid_inj : Inj eq eq uuid).
Context (ty : Z) (tname : string).
Implicit Types (n : Net) (b : Board) (t : Topo) (w : Writer) (a : RoleAttributes).

(** ** Roles *)

(** A role of this process whose channel and node are registered. *)
Record role_ok t a : Prop := {
  ro_host : host_name a = Some host;
  ro_ip : host_ip a = Some ip;
  ro_pid : process_id a = Some pid;
  ro_chan : is_Some (channel_name a);
  ro_cid : channel_id a = Some (cid a) ∧ named t KChannel (cid a) (chan a);
  ro_node : ∃ i, node_id a = Some i ∧ named t KNode i (node_of a)
}.

Lemma role_ok_renamed t t' a : renamed t t' → role_ok t a → role_ok t' a.
Proof.
  intros Hr [H1 H2 H3 H4 [H5 H6] (i & H7 & H8)]. split; try done.
  - split; [done|]. by apply Hr.
  - exists i. split; [done|]. by apply Hr.
Qed.

Lemma role_ok_set_id t a i : role_ok t a → role_ok t (set_id a i).
Proof. by intros []. Qed.

Lemma role_here t a : role_ok t a → here ip pid (chan a) (attr_of_role a).
Proof. intros [_ H1 H2 _ _ _]. unfold here, attr_of_role. cbn. by rewrite H1, H2. Qed.

Lemma role_Endpoint t a k : role_ok t a → role_ok t (Endpoint_attr host pid uuid a k).
Proof. intros [H1 H2 H3 H4 [H5 H6] H7]. split; cbn; unfold or_set; by rewrite ?H1, ?H3. Qed.

(** ** Writers *)

(** A writer whose transmitter sends under the id [i], within the process iff [on]. *)
Definition wired w (i : Z) (on : bool) : Prop :=
  Warehouse.id (w_role w) = Some i ∧
  ∃ h, w_transmitter w = Some (h, i) ∧ here ip pid (chan (w_role w)) (ht_attr h) ∧ ht_mode h = ObtainConfig mode ∧
    transmitters_ h !! INTRA = Some (IntraTransmitter on).

Lemma wired_apply w i on r v :
  wired w i on → here ip pid (chan (w_role w)) r → v = HybridTransport.Join r ∨ v = HybridTransport.Leave r →
  wired (tx_apply env w v) i (match v with HybridTransport.Join _ => true | _ => false end).
Proof using Hmode.
  intros (Ei & h & E & Hh & Hm & Ht) Hr Hv. split; [done|]. exists (ht_step env h v). unfold tx_apply. cbn [w_transmitter w_role].
  rewrite E. split; [done|]. destruct (ht_step_spec env h v) as (E1 & E2 & E3). rewrite E1, E2, E3. split; [done|]. split; [done|].
  assert (ev_attr v = r) as -> by by destruct Hv as [-> | ->].
  unfold mode_of. rewrite (here_same_proc _ _ _ _ _ Hh Hr), bool_decide_false, decide_True, Ht by (rewrite ?Hm; cbn; congruence).
  by destruct Hv as [-> | ->].
Qed.

Lemma wired_new a k :
  here ip pid (chan a) (attr_of_role (Endpoint_attr host pid uuid a k)) →
  wired (mkWriter (set_id a (uuid k)) (Some (HybridTransmitter_new limit arena mode (attr_of_role (Endpoint_attr host pid uuid a k)), uuid k)) true)
    (uuid k) false.
Proof using Hmode.
  intros Hh. split; [done|]. eexists. split; [done|]. split; [exact Hh|]. split; [done|].
  rewrite (new_transmitter limit arena mode); [done|]. unfold modes. rewrite Hmode. by left.
Qed.

(** What announcements to the slots [l] do to the writers: those of channel [c] among
    them are wired anew. *)
Definition rewired (l : list Slot) (c : string) (on : bool) (ws ws' : gmap nat Writer) : Prop :=
  ∀ wid, match ws !! wid, ws' !! wid with
         | Some w, Some w' => w_role w' = w_role w ∧ w_init w' = w_init w ∧
             ∀ i x, wired w i x → wired w' i (if decide (SlotWriter wid ∈ l ∧ chan (w_role w) = c) then on else x)
         | None, None => True
         | _, _ => False
         end.

Lemma rewired_nil c on ws : rewired [] c on ws ws.
Proof.
  intros wid. destruct (ws !! wid) as [w|]; [|done]. split; [done|]. split; [done|]. intros i x Hw.
  rewrite decide_False; [done|]. intros [Hx _]. by apply not_elem_of_nil in Hx.
Qed.

Lemma rewired_app l1 l2 c on ws1 ws2 ws3 :
  rewired l1 c on ws1 ws2 → rewired l2 c on ws2 ws3 → rewired (l1 ++ l2) c on ws1 ws3.
Proof.
  intros H1 H2 wid. specialize (H1 wid). specialize (H2 wid).
  destruct (ws1 !! wid) as [w1|], (ws2 !! wid) as [w2|], (ws3 !! wid) as [w3|]; try done.
  destruct H1 as (E1 & E2 & E3), H2 as (F1 & F2 & F3). split; [congruence|]. split; [congruence|]. intros i x Hw.
  specialize (F3 i _ (E3 i x Hw)). rewrite E1 in F3.
  assert (SlotWriter wid ∈ l1 ++ l2 ↔ SlotWriter wid ∈ l1 ∨ SlotWriter wid ∈ l2) as Hin by apply elem_of_app.
  destruct (decide (SlotWriter wid ∈ l2 ∧ chan (w_role w1) = c)) as [Hd|Hd]; [by rewrite decide_True by (clear -Hin Hd; tauto)|].
  destruct (decide (SlotWriter wid ∈ l1 ∧ chan (w_role w1) = c)) as [Hd1|Hd1];
    [by rewrite decide_True by (clear -Hin Hd1; tauto)|by rewrite decide_False by (clear -Hin Hd Hd1; tauto)].
Qed.

(** ** Announcements *)

Definition set_writers n (ws : gmap nat Writer) : Net :=
  mkNet (rt n) (topo n) (links n) (reader_roles n) (receiver_ n) ws (nodes n) (held n) (count n).

Lemma on_change_reader msg n s :
  role_type msg = ROLE_READER → here ip pid (chan (role_attr msg)) (attr_of_role (role_attr msg)) →
  ∃ ws, OnChannelChange env tname msg n s = set_writers n ws ∧
    rewired [s] (chan (role_attr msg)) (match operate_type msg with OPT_JOIN => true | OPT_LEAVE => false end) (writers n) ws.
Proof using Hmode.
  intros Hr Hh. unfold OnChannelChange. rewrite Hr.
  assert (rewired [s] (chan (role_attr msg)) (match operate_type msg with OPT_JOIN => true | OPT_LEAVE => false end) (writers n) (writers n) →
    ∃ ws, n = set_writers n ws ∧ rewired [s] (chan (role_attr msg))
      (match operate_type msg with OPT_JOIN => true | OPT_LEAVE => false end) (writers n) ws) as Hid
    by (intros H; exists (writers n); split; [by destruct n|done]).
  destruct s as [rid|wid].
  { apply Hid. intros wid. destruct (writers n !! wid) as [w|]; [|done]. split; [done|]. split; [done|]. intros i x Hw.
    rewrite decide_False; [done|]. intros [Hx%list_elem_of_singleton _]. done. }
  destruct (writers n !! wid) as [w|] eqn:Ew.
  2: { apply Hid. intros wid'. destruct (writers n !! wid') as [w|] eqn:E; [|done]. split; [done|]. split; [done|]. intros i x Hw.
       rewrite decide_False; [done|]. intros [Hx%list_elem_of_singleton _]. congruence. }
  case_bool_decide as Hc; cbn [negb].
  - exists (<[wid := tx_apply env w (event_of msg)]> (writers n)). split; [done|]. intros wid'.
    destruct (decide (wid = wid')) as [<-|Hne].
    + rewrite Ew, lookup_insert_eq. split; [done|]. split; [done|]. intros i x Hw.
      rewrite decide_True by (split; [by apply list_elem_of_singleton|done]).
      apply (wired_apply w i x (attr_of_role (role_attr msg)) (event_of msg)) in Hw.
      * unfold event_of in *. by destruct (operate_type msg).
      * unfold chan in *. by rewrite <- Hc.
      * unfold event_of. destruct (operate_type msg); auto.
    + rewrite lookup_insert_ne by done. destruct (writers n !! wid') as [w'|]; [|done]. split; [done|]. split; [done|].
      intros i x Hw. rewrite decide_False; [done|]. intros [Hx%list_elem_of_singleton _]. congruence.
  - apply Hid. intros wid'. destruct (writers n !! wid') as [w'|] eqn:E; [|done]. split; [done|]. split; [done|]. intros i x Hw.
    rewrite decide_False; [done|]. intros [Hx%list_elem_of_singleton Hy]. unfold chan in Hy. congruence.
Qed.

(** A reader comes or goes. *)
Lemma announce_reader msg n l :
  role_type msg = ROLE_READER → here ip pid (chan (role_attr msg)) (attr_of_role (role_attr msg)) →
  ∃ ws, foldl (OnChannelChange env tname msg) n l = set_writers n ws ∧
    rewired l (chan (role_attr msg)) (match operate_type msg with OPT_JOIN => true | OPT_LEAVE => false end) (writers n) ws.
Proof using Hmode.
  intros Hr Hh. induction l as [|s l IH] using rev_ind.
  - exists (writers n). split; [by destruct n|apply rewired_nil].
  - destruct IH as (ws & E & Hws). rewrite foldl_snoc, E.
    destruct (on_change_reader msg (set_writers n ws) s Hr Hh) as (ws' & -> & Hws'). exists ws'. split; [done|].
    by eapply rewired_app.
Qed.

(** What announcements to [l] do to the receivers and the dispatcher: only what concerns
    the writer [o] changes. *)
Record relinked (o : Z) (l l' : Links) : Prop := {
  rl_map : receiver_map_ l' = receiver_map_ l;
  rl_rx : ∀ k, match receivers l !! k, receivers l' !! k with
               | Some rx, Some rx' => rx_attr rx' = rx_attr rx ∧ ∀ o', o' ≠ o → knows rx' o' ↔ knows rx o'
               | None, None => True
               | _, _ => False
               end
}.
#[local] Instance relinked_refl o : Reflexive (relinked o).
Proof. intros l. split; [done|]. intros k. by destruct (receivers l !! k). Qed.
#[local] Instance relinked_trans o : Transitive (relinked o).
Proof.
  intros l1 l2 l3 [H1 H2] [G1 G2]. split; [congruence|]. intros k. specialize (H2 k). specialize (G2 k).
  destruct (receivers l1 !! k), (receivers l2 !! k), (receivers l3 !! k); try done.
  destruct H2 as [E1 E2], G2 as [F1 F2]. split; [congruence|]. intros o' Ho. by rewrite F2, E2.
Qed.

(** The readers' receivers are those of their channels. *)
Definition pointers_ok n : Prop :=
  ∀ rid k a, receiver_ n !! rid = Some k → reader_roles n !! rid = Some a → receiver_map_ (links n) !! chan a = Some k.
#[local] Abbreviation links_inv := (links_inv ip pid mode tname).

(** The reader of a slot hears of the writers of [c]. *)
Definition hears n (c : string) (s : Slot) (k : nat) : Prop :=
  ∃ rid a, s = SlotReader rid ∧ receiver_ n !! rid = Some k ∧ reader_roles n !! rid = Some a ∧ chan a = c.

Lemma on_change_writer msg n s gone :
  role_type msg = ROLE_WRITER → here ip pid (chan (role_attr msg)) (attr_of_role (role_attr msg)) →
  links_inv gone (links n) → pointers_ok n →
  let o := get_num (Warehouse.id (role_attr msg)) in
  match operate_type msg with OPT_JOIN => ¬ gone o | OPT_LEAVE => gone o end →
  ∃ l', OnChannelChange env tname msg n s = set_links n l' ∧ links_inv gone l' ∧ relinked o (links n) l' ∧
    (operate_type msg = OPT_JOIN → ∀ k rx, receivers (links n) !! k = Some rx →
       knows rx o ∨ hears n (chan (role_attr msg)) s k → ∃ rx', receivers l' !! k = Some rx' ∧ knows rx' o).
Proof using Hmode.
  intros Hr Hh Hi Hp o Hg.
  assert ((∀ k, ¬ hears n (chan (role_attr msg)) s k) → ∃ l', n = set_links n l' ∧ links_inv gone l' ∧ relinked o (links n) l' ∧
    (operate_type msg = OPT_JOIN → ∀ k rx, receivers (links n) !! k = Some rx →
       knows rx o ∨ hears n (chan (role_attr msg)) s k → ∃ rx', receivers l' !! k = Some rx' ∧ knows rx' o)) as Hid.
  { intros Hn. exists (links n). split; [by destruct n|]. split; [done|]. split; [done|]. intros _ k rx Hk [H|H]; [eauto|].
    by destruct (Hn k). }
  unfold OnChannelChange. rewrite Hr.
  destruct s as [rid|wid]; [|destruct (writers n !! wid); apply Hid; intros k (? & ? & [=] & _)].
  destruct (reader_roles n !! rid) as [a|] eqn:Ea; [|apply Hid; intros k (? & ? & [= <-] & _ & ? & _); congruence].
  destruct (receiver_ n !! rid) as [k|] eqn:Ek; [|apply Hid; intros k (? & ? & [= <-] & ? & _); congruence].
  case_bool_decide as Hc; cbn [negb].
  2: { apply Hid. intros k' (? & a' & [= <-] & _ & Ha' & Hc'). unfold chan in *. congruence. }
  destruct (li_map _ _ _ _ _ _ Hi _ _ (Hp rid k a Ek Ea)) as (rx & Hrx & Hch).
  assert (here ip pid (rx_chan rx) (attr_of_role (role_attr msg))) as Hh' by (rewrite Hch; unfold chan in *; by rewrite <- Hc).
  exists (rx_step tname (links n) k (event_of msg)). split; [done|].
  unfold event_of. destruct (operate_type msg).
  - destruct (rx_join ip pid mode tname Hmode gone (links n) k rx (attr_of_role (role_attr msg)) Hi Hrx Hh' Hg)
      as (G1 & G2 & rx' & G3 & G4 & G5). split; [done|]. split.
    + split; [done|]. intros k'. rewrite G3. destruct (decide (k = k')) as [<-|Hne].
      * rewrite Hrx, lookup_insert_eq. split; [done|]. intros o' Ho'. rewrite G5. unfold o in Ho'. cbn. naive_solver.
      * rewrite lookup_insert_ne by done. by destruct (receivers (links n) !! k').
    + intros _ k' rx0 Hk' Hor. rewrite G3. destruct (decide (k = k')) as [<-|Hne].
      * rewrite lookup_insert_eq. exists rx'. split; [done|]. apply G5. by left.
      * rewrite lookup_insert_ne by done. exists rx0. split; [done|]. destruct Hor as [|(? & a' & [= <-] & ? & _)]; [done|].
        congruence.
  - destruct (rx_leave ip pid mode tname Hmode gone (links n) k rx (attr_of_role (role_attr msg)) Hi Hrx Hh')
      as (G1 & G2 & rx' & G3 & G4 & G5). split; [|split; [|done]].
    + eapply links_weaken; [|exact G1]. intros x [H| ->]; [done|exact Hg].
    + split; [done|]. intros k'. rewrite G3. destruct (decide (k = k')) as [<-|Hne].
      * rewrite Hrx, lookup_insert_eq. split; [done|]. intros o' Ho'. rewrite G5. unfold o in Ho'. cbn. naive_solver.
      * rewrite lookup_insert_ne by done. by destruct (receivers (links n) !! k').
Qed.

(** A writer comes or goes. *)
Lemma announce_writer msg n l gone :
  role_type msg = ROLE_WRITER → here ip pid (chan (role_attr msg)) (attr_of_role (role_attr msg)) →
  links_inv gone (links n) → pointers_ok n →
  let o := get_num (Warehouse.id (role_attr msg)) in
  match operate_type msg with OPT_JOIN => ¬ gone o | OPT_LEAVE => gone o end →
  ∃ l', foldl (OnChannelChange env tname msg) n l = set_links n l' ∧ links_inv gone l' ∧ relinked o (links n) l' ∧
    (operate_type msg = OPT_JOIN → ∀ s k rx, s ∈ l → receivers (links n) !! k = Some rx →
       hears n (chan (role_attr msg)) s k → ∃ rx', receivers l' !! k = Some rx' ∧ knows rx' o).
Proof using Hmode.
  intros Hr Hh Hi Hp o Hg. induction l as [|s l IH] using rev_ind.
  - exists (links n). split; [by destruct n|]. split; [done|]. split; [done|]. intros _ s k rx Hs. by apply not_elem_of_nil in Hs.
  - destruct IH as (l1 & E & Hi1 & Hr1 & He1). rewrite foldl_snoc, E.
    assert (pointers_ok (set_links n l1)) as Hp1.
    { intros rid k a Hk Ha. cbn. rewrite (rl_map _ _ _ Hr1). by apply (Hp rid). }
    destruct (on_change_writer msg (set_links n l1) s gone Hr Hh Hi1 Hp1 Hg) as (l2 & E2 & Hi2 & Hr2 & He2).
    exists l2. split; [by rewrite E2|]. split; [done|]. split; [by etrans|]. intros Hj s' k rx Hs Hk Hh'.
    pose proof (rl_rx _ _ _ Hr1 k) as Hk1. rewrite Hk in Hk1. destruct (receivers l1 !! k) as [rx1|] eqn:E1; [|done].
    apply elem_of_app in Hs as [Hs|Hs%list_elem_of_singleton].
    + destruct (He1 Hj s' k rx Hs Hk Hh') as (rx' & Hrx' & Hkn). apply (He2 Hj k rx'); [done|by left].
    + subst s'. apply (He2 Hj k rx1); [done|by right].
Qed.

(** ** The channel manager *)

Abbreviation st n := (store (channel_manager (topo n))) (only parsing).
Definition cm_base : Base := base (ChannelManager_new host pid).

Lemma Convert_ok t now a role opt : role_ok t a → Convert cm_base now a role opt = mkChangeMsg now CHANGE_CHANNEL opt role a.
Proof. intros [H1 _ H3 _ _ _]. unfold Convert. rewrite H1. cbn. by rewrite H3. Qed.

Lemma Check_ok t a : role_ok t a → is_Some (Warehouse.id a) → ChannelManager_Check a = true.
Proof.
  intros [_ _ _ H4 [H5 _] _] Hid. unfold ChannelManager_Check. rewrite H5, !bool_decide_true; [done|done|by eexists|done].
Qed.

Lemma cm_join t now (m : Manager ChannelStore) a role :
  base m = cm_base → role = ROLE_WRITER ∨ role = ROLE_READER → role_ok t a → is_Some (Warehouse.id a) →
  let msg := mkChangeMsg now CHANGE_CHANNEL OPT_JOIN role a in
  Topology.Join now m a role true = (mkManager cm_base (ChannelManager_DisposeJoin (store m) msg), [Notified msg], false).
Proof.
  intros Hb Hr Ha Hid msg. unfold Topology.Join. rewrite Hb. change (is_shutdown_ cm_base) with false.
  assert (role_allowed cm_base role = true) as -> by by destruct Hr as [-> | ->].
  cbn [Check channel_disposer negb]. rewrite (Check_ok t) by done. cbn [negb].
  by rewrite (Convert_ok t) by done.
Qed.

Lemma cm_leave t now (m : Manager ChannelStore) a role :
  base m = cm_base → role = ROLE_WRITER ∨ role = ROLE_READER → role_ok t a → is_Some (Warehouse.id a) →
  let msg := mkChangeMsg now CHANGE_CHANNEL OPT_LEAVE role a in
  Topology.Leave now m a role = (mkManager cm_base (ChannelManager_DisposeLeave (store m) msg), [Notified msg], false).
Proof.
  intros Hb Hr Ha Hid msg. unfold Topology.Leave. rewrite Hb. change (is_shutdown_ cm_base) with false.
  assert (role_allowed cm_base role = true) as -> by by destruct Hr as [-> | ->].
  cbn [Check channel_disposer negb]. rewrite (Check_ok t) by done. cbn [negb].
  by rewrite (Convert_ok t) by done.
Qed.

(** ** The invariant *)

Definition live n (wid : nat) w : Prop := writers n !! wid = Some w ∧ w_init w = true.

Record node_ok t a : Prop := {
  no_host : host_name a = Some host;
  no_ip : host_ip a = Some ip;
  no_pid : process_id a = Some pid;
  no_node : ∃ i v, node_id a = Some i ∧ node_name a = Some v ∧ named t KNode i v
}.

(** The objects, what they are called and what they refer to. *)
Record objects_ok (N : nat) n : Prop := {
  ob_rt : rt_inv Hash N (rt n);
  ob_names : names_inv Hash N (topo n);
  ob_base : base (channel_manager (topo n)) = cm_base;
  ob_nodes : ∀ nid nd, nodes n !! nid = Some nd → node_ok (topo n) (node_attr_ nd) ∧ (size (readers_ nd) <= count n)%nat;
  ob_reader : ∀ rid r, Reader.readers (rt n) !! rid = Some r →
    (rid < count n)%nat ∧ type_ r = ty ∧ ∃ a, reader_roles n !! rid = Some a ∧ role_ok (topo n) a ∧
    channel_id_ r = cid a ∧ (init_ r = true ↔ is_Some (receiver_ n !! rid));
  ob_receiver : ∀ rid k, receiver_ n !! rid = Some k →
    ∃ r a, Reader.readers (rt n) !! rid = Some r ∧ reader_roles n !! rid = Some a ∧
      receiver_map_ (links n) !! chan a = Some k ∧ Warehouse.id a = Some (uuid k)
}.

(** The change signal calls the initialised readers and writers. *)
Definition slots_ok n : Prop := ∀ s, s ∈ change_signal (topo n) ↔
  match s with SlotReader rid => is_Some (receiver_ n !! rid) | SlotWriter wid => ∃ w, live n wid w end.

(** [gone] are the ids of writers that left; no receiver knows an id to come. *)
Record transport_ok n (gone : Z → Prop) : Prop := {
  tp_links : links_inv gone (links n);
  tp_rx : ∀ k rx, receivers (links n) !! k = Some rx → (k < count n)%nat ∧ role_ok (topo n) (rx_attr rx);
  tp_fresh : ∀ k, (count n <= k)%nat → ¬ gone (uuid k) ∧
    ∀ k' rx, receivers (links n) !! k' = Some rx → ¬ knows rx (uuid k)
}.

(** A receiver of channel [c] knows the writer of id [i]. *)
Definition heard (l : Links) (c : string) (i : Z) : Prop :=
  ∃ kr rx, receivers l !! kr = Some rx ∧ rx_chan rx = c ∧ knows rx i.

(** The writers are wired as the board says, and heard if they are connected. *)
Record writers_ok n b (gone : Z → Prop) : Prop := {
  wr_writer : ∀ wid w, writers n !! wid = Some w → (wid < count n)%nat ∧ role_ok (topo n) (w_role w);
  wr_live : ∀ wid w, live n wid w → ∃ k on, (k < count n)%nat ∧ ¬ gone (uuid k) ∧ wired w (uuid k) on ∧
    b_writers b !! wid = Some (chan (w_role w), on) ∧ (on = true → heard (links n) (chan (w_role w)) (uuid k));
  wr_board : ∀ wid x, b_writers b !! wid = Some x → ∃ w, live n wid w;
  wr_ids : ∀ wid wid' w w', live n wid w → live n wid' w' → Warehouse.id (w_role w) = Warehouse.id (w_role w') → wid = wid'
}.

(** The channel manager has the initialised writers, and the readers of the board. *)
Record roster_writers n : Prop := {
  rw_role : ∀ key r, (key, r) ∈ channel_writers_ (st n) →
    ∃ wid w, live n wid w ∧ attributes_ r = w_role w ∧ kind r = KWriter ∧ key = cid (w_role w);
  rw_all : ∀ wid w, live n wid w → ∃ ts, (cid (w_role w), mkRole KWriter (w_role w) ts) ∈ channel_writers_ (st n)
}.
Record roster_readers n b : Prop := {
  rr_role : ∀ key r, (key, r) ∈ channel_readers_ (st n) →
    kind r = KWriter ∧ key = cid (attributes_ r) ∧ role_ok (topo n) (attributes_ r) ∧
    (node_of (attributes_ r), chan (attributes_ r)) ∈ b_present b ∧
    ∃ k, receiver_map_ (links n) !! chan (attributes_ r) = Some k ∧ Warehouse.id (attributes_ r) = Some (uuid k);
  rr_all : ∀ v c, (v, c) ∈ b_present b →
    (∃ key r, (key, r) ∈ channel_readers_ (st n) ∧ node_of (attributes_ r) = v ∧ chan (attributes_ r) = c) ∧
    ∃ rid a, is_Some (receiver_ n !! rid) ∧ reader_roles n !! rid = Some a ∧ chan a = c ∧ node_of a = v
}.

Record net_inv (N : nat) n b (gone : Z → Prop) : Prop := {
  nv_objects :> objects_ok N n;
  nv_slots :> slots_ok n;
  nv_transport :> transport_ok n gone;
  nv_writers :> writers_ok n b gone;
  nv_roster_writers :> roster_writers n;
  nv_roster_readers :> roster_readers n b
}.

Lemma nv_pointers N n b gone : net_inv N n b gone → pointers_ok n.
Proof.
  intros Hi rid k a Hk Ha. destruct (ob_receiver _ _ Hi _ _ Hk) as (r & a' & _ & Ha' & Hm & _).
  rewrite Ha in Ha'. by injection Ha' as <-.
Qed.

(** Roles whose channels have one key have one channel. *)
Lemma same_channel N t a a' :
  names_inv Hash N t → role_ok t a → role_ok t a' → cid a = cid a' ↔ chan a = chan a'.
Proof. intros Hn [_ _ _ _ [_ H] _] [_ _ _ _ [_ H'] _]. by apply (named_inj Hash N t KChannel). Qed.

Lemma role_cid N t a c i : names_inv Hash N t → role_ok t a → named t KChannel i c → i = cid a ↔ c = chan a.
Proof. intros Hn [_ _ _ _ [_ H] _] Hc. by apply (named_inj Hash N t KChannel). Qed.

(** ** A writer comes *)

Lemma tx_apply_all n wid w i on rs :
  writers n !! wid = Some w → wired w i on → Forall (λ r, here ip pid (chan (w_role w)) (attr_of_role r)) rs →
  ∃ w', foldl (λ n r, match writers n !! wid with
                      | Some w => set_writer n wid (tx_apply env w (HybridTransport.Join (attr_of_role r)))
                      | None => n
                      end) n rs = set_writer n wid w' ∧
    w_role w' = w_role w ∧ w_init w' = w_init w ∧ wired w' i (on || negb (bool_decide (rs = []))).
Proof using Hmode.
  intros Hw Hwi. induction rs as [|r rs IH] using rev_ind; intros Hrs.
  - exists w. split; [unfold set_writer; rewrite insert_id by done; by destruct n|]. by rewrite bool_decide_true, orb_false_r.
  - apply Forall_app in Hrs as [Hrs [Hr _]%Forall_cons].
    destruct (IH Hrs) as (w1 & E & Er & Ei & Hw1). rewrite foldl_snoc, E. cbn [writers set_writer]. rewrite lookup_insert_eq.
    exists (tx_apply env w1 (HybridTransport.Join (attr_of_role r))). split.
    { unfold set_writer. cbn. by rewrite insert_insert_eq. }
    split; [done|]. split; [done|]. rewrite (bool_decide_false (rs ++ [r] = [])) by (by destruct rs). rewrite orb_true_r.
    eapply (wired_apply _ _ _ (attr_of_role r) (HybridTransport.Join (attr_of_role r))); [exact Hw1|by rewrite Er|by left].
Qed.

(** The roles found under a channel's key. *)
Lemma readers_of_channel N N' n b gone t key c :
  net_inv N n b gone → renamed (topo n) t → names_inv Hash N' t → named t KChannel key c →
  let rs := GetReadersOfChannel (st n) key in
  Forall (λ r, role_ok t r ∧ chan r = c) rs ∧ (rs = [] ↔ ∀ v, (v, c) ∉ b_present b).
Proof.
  intros Hi Hr Hn Hc rs.
  assert (∀ r, r ∈ rs ↔ ∃ ro, (key, ro) ∈ channel_readers_ (st n) ∧ attributes_ ro = r) as Hin.
  { intros r. unfold rs, GetReadersOfChannel, Multi.Search. rewrite list_elem_of_fmap. setoid_rewrite list_elem_of_fmap. split.
    - intros (ro & -> & ([k ro'] & -> & [Hk Hx]%list_elem_of_filter)). cbn in Hk. subst. eauto.
    - intros (ro & Hx & <-). exists ro. split; [done|]. exists (key, ro). split; [done|]. by apply list_elem_of_filter. }
  split.
  - apply Forall_forall. intros r (ro & Hx & <-)%Hin. destruct (rr_role _ _ Hi _ _ Hx) as (_ & Ek & Ho & _).
    apply (role_ok_renamed _ _ _ Hr) in Ho. split; [done|]. symmetry. by apply (role_cid N' t _ c key Hn Ho Hc).
  - split.
    + intros E v Hv. destruct (rr_all _ _ Hi _ _ Hv) as ((k & ro & Hx & _ & Ech) & _).
      destruct (rr_role _ _ Hi _ _ Hx) as (_ & Ek & Ho & _). apply (role_ok_renamed _ _ _ Hr) in Ho.
      assert (attributes_ ro ∈ rs) as Hro; [|rewrite E in Hro; by apply not_elem_of_nil in Hro]. apply Hin. exists ro. split; [|done].
      assert (key = k) as ->; [|done]. rewrite Ek. apply (role_cid N' t _ c key Hn Ho Hc). done.
    + intros Hno. destruct rs as [|r rs'] eqn:E; [done|]. destruct (proj1 (Hin r)) as (ro & Hx & <-); [by left|].
      destruct (rr_role _ _ Hi _ _ Hx) as (_ & Ek & Ho & Hp & _). apply (role_ok_renamed _ _ _ Hr) in Ho.
      apply (role_cid N' t _ c key Hn Ho Hc) in Ek. destruct (Hno (node_of (attributes_ ro))). by rewrite Ek.
Qed.

Lemma writers_of_channel N N' n b gone t key c :
  net_inv N n b gone → renamed (topo n) t → names_inv Hash N' t → named t KChannel key c →
  let ws := GetWritersOfChannel (st n) key in
  (∀ r, r ∈ ws ↔ ∃ wid w, live n wid w ∧ chan (w_role w) = c ∧ r = w_role w).
Proof.
  intros Hi Hr Hn Hc ws r. unfold ws, GetWritersOfChannel, Multi.Search. rewrite list_elem_of_fmap. setoid_rewrite list_elem_of_fmap.
  assert (∀ wid w, live n wid w → key = cid (w_role w) ↔ c = chan (w_role w)) as Hkey.
  { intros wid w [Hw _]. destruct (wr_writer _ _ _ Hi _ _ Hw) as [_ Ho]. apply (role_ok_renamed _ _ _ Hr) in Ho.
    by apply (role_cid N' t _ c key Hn Ho Hc). }
  split.
  - intros (ro & -> & ([k ro'] & -> & [Hk Hx]%list_elem_of_filter)). cbn in Hk. subst k.
    destruct (rw_role _ Hi _ _ Hx) as (wid & w & Hl & E & _ & Ek). exists wid, w. split; [done|]. split; [|done].
    symmetry. by apply (Hkey wid w Hl).
  - intros (wid & w & Hl & Ech & ->). destruct (rw_all _ Hi _ _ Hl) as [ts Hx].
    exists (mkRole KWriter (w_role w) ts). split; [done|].
    exists (cid (w_role w), mkRole KWriter (w_role w) ts). split; [done|]. apply list_elem_of_filter. split; [|exact Hx].
    cbn. symmetry. by apply (Hkey wid w Hl).
Qed.

#[local] Abbreviation Writer_Join := (Writer_JoinTheTopology Hash fuel env tname).
#[local] Abbreviation Writer_Init := (Writer_Init Hash fuel host pid mode env limit arena uuid tname).

Lemma relinked_back o l l' k rx' :
  relinked o l l' → receivers l' !! k = Some rx' →
  ∃ rx, receivers l !! k = Some rx ∧ rx_attr rx' = rx_attr rx ∧ ∀ o', o' ≠ o → knows rx' o' ↔ knows rx o'.
Proof.
  intros [_ H] Hk. specialize (H k). rewrite Hk in H. destruct (receivers l !! k) as [rx|]; [|done]. by exists rx.
Qed.
Lemma relinked_forth o l l' k rx :
  relinked o l l' → receivers l !! k = Some rx →
  ∃ rx', receivers l' !! k = Some rx' ∧ rx_attr rx' = rx_attr rx ∧ ∀ o', o' ≠ o → knows rx' o' ↔ knows rx o'.
Proof.
  intros [_ H] Hk. specialize (H k). rewrite Hk in H. destruct (receivers l' !! k) as [rx'|]; [|done]. by exists rx'.
Qed.

Lemma has_reader_spec b c : has_reader b c = true ↔ ∃ v, (v, c) ∈ b_present b.
Proof.
  unfold has_reader. rewrite bool_decide_eq_true, elem_of_map. split.
  - intros ([v c'] & -> & Hx). by exists v.
  - intros [v Hx]. by exists (v, c).
Qed.

(** The board says whether a channel has readers, and those hear of its writers. *)
Lemma readers_there b c (rs : list RoleAttributes) :
  (rs = [] ↔ ∀ v, (v, c) ∉ b_present b) → negb (bool_decide (rs = [])) = has_reader b c.
Proof.
  intros Hemp. destruct (has_reader b c) eqn:E.
  - apply has_reader_spec in E as [v Hv]. rewrite bool_decide_false; [done|]. rewrite Hemp. intros Hno. by apply (Hno v).
  - rewrite bool_decide_true; [done|]. apply Hemp. intros v Hv. assert (has_reader b c = true) by (apply has_reader_spec; by exists v).
    congruence.
Qed.

Lemma present_hears N n b gone c :
  net_inv N n b gone → has_reader b c = true →
  ∃ s k rx, s ∈ change_signal (topo n) ∧ hears n c s k ∧ receivers (links n) !! k = Some rx ∧ rx_chan rx = c.
Proof.
  intros Hi [v Hv]%has_reader_spec. destruct (rr_all _ _ Hi _ _ Hv) as (_ & rid & a & [k Hk] & Ha & Hc & _).
  destruct (ob_receiver _ _ Hi _ _ Hk) as (r & a' & _ & Ha' & Hm & _). rewrite Ha in Ha'. injection Ha' as <-.
  destruct (li_map _ _ _ _ _ _ (tp_links _ _ Hi) _ _ Hm) as (rx & Hrx & Hrc).
  exists (SlotReader rid), k, rx. split; [apply (nv_slots _ _ _ _ Hi (SlotReader rid)); by exists k|].
  split; [by exists rid, a|]. split; [done|congruence].
Qed.

(** What [Init] makes of a writer. *)
Lemma Writer_Init_spec N now n wid w gone b :
  (N < fuel)%nat → net_inv N n b gone → writers n !! wid = Some w → w_init w = false →
  ∃ g t' w' l' on, let k := count n in let a := set_id (w_role w) (uuid k) in
    let msg := mkChangeMsg now CHANGE_CHANNEL OPT_JOIN ROLE_WRITER a in
    Writer_Init now n wid = Some (set_links (set_topo (set_writer (next n) wid w') t') l', true) ∧
    t' = mkTopo g (mkManager cm_base (ChannelManager_DisposeJoin (st n) msg)) (node_manager (topo n)) (change_signal (topo n) ++ [SlotWriter wid]) ∧
    names_inv Hash (S N) t' ∧ renamed (topo n) t' ∧
    w_role w' = a ∧ w_init w' = true ∧ wired w' (uuid k) on ∧ on = has_reader b (chan a) ∧
    links_inv gone l' ∧ relinked (uuid k) (links n) l' ∧
    (on = true → ∃ kr rx, receivers l' !! kr = Some rx ∧ rx_chan rx = chan a ∧ knows rx (uuid k)).
Proof.
  intros HN Hi Hw Hinit. set (k := count n). set (a := set_id (w_role w) (uuid k)).
  set (h := HybridTransmitter_new (M := nat) limit arena mode (attr_of_role (Endpoint_attr host pid uuid (w_role w) k))).
  set (w0 := mkWriter a (Some (h, uuid k)) true).
  destruct (wr_writer _ _ _ Hi _ _ Hw) as [_ Hro]. assert (role_ok (topo n) a) as Ha by by apply role_ok_set_id.
  set (n1 := AddChangeListener (set_writer (next n) wid w0) (SlotWriter wid)).
  destruct (channel_key_spec Hash Hash_u64 fuel Hfuel N (topo n1) (chan a) HN (ob_names _ _ Hi)) as (g & key & Ek & Hn & Hk & Hr).
  set (t1 := set_names (topo n1) g) in *. change (renamed (topo n) t1) in Hr.
  destruct (readers_of_channel N (S N) n b gone t1 key (chan a) Hi Hr Hn Hk) as [Hrs Hemp].
  set (rs := GetReadersOfChannel (st n) key) in *. apply (role_ok_renamed _ _ _ Hr) in Ha.
  destruct (tx_apply_all (set_topo n1 t1) wid w0 (uuid k) false rs) as (w1 & Etx & Er & Ei & Hw1).
  { apply lookup_insert_eq. }
  { apply wired_new. apply (role_here t1 (Endpoint_attr host pid uuid (w_role w) k)). by apply role_Endpoint, (role_ok_renamed _ _ _ Hr). }
  { eapply Forall_impl; [exact Hrs|]. cbn. intros r [Hr1 <-]. by apply (role_here t1). }
  set (msg := mkChangeMsg now CHANGE_CHANNEL OPT_JOIN ROLE_WRITER a).
  set (t2 := set_manager t1 (mkManager cm_base (ChannelManager_DisposeJoin (st n) msg))).
  set (n2 := set_topo (set_writer (next n) wid w1) t2).
  destruct (announce_writer msg n2 (change_signal t2) gone) as (l' & El & Hl & Hre & Heff); [done| |apply Hi| |apply Hi; lia|].
  { by apply (role_here t1). }
  { exact (nv_pointers _ _ _ _ Hi). }
  exists g, t2, w1, l', (has_reader b (chan a)). cbn zeta. split; [|split; [done|]].
  - unfold Node.Writer_Init. rewrite Hw, Hinit. fold k h a w0. unfold Writer_JoinTheTopology. fold n1. change (get_str (channel_name a)) with (chan a).
    rewrite Ek. cbn [mbind option_bind]. change (store (channel_manager t1)) with (st n). fold rs. rewrite Etx.
    unfold cm_Join.
    assert (Topology.Join now (channel_manager t1) a ROLE_WRITER true = (mkManager cm_base (ChannelManager_DisposeJoin (st n) msg), [Notified msg], false))
      as Ej by (apply (cm_join t1); [apply Hi|by left|done|by eexists]).
    change (channel_manager (topo (set_writer (set_topo n1 t1) wid w1))) with (channel_manager t1). rewrite Ej.
    assert (set_topo (set_writer (set_topo n1 t1) wid w1) t2 = n2) as En.
    { unfold n2, n1, set_topo, set_writer. cbn. by rewrite insert_insert_eq. }
    change (set_manager (topo (set_writer (set_topo n1 t1) wid w1)) (mkManager cm_base (ChannelManager_DisposeJoin (st n) msg))) with t2.
    rewrite En. unfold announce. cbn [foldl]. change (change_signal (topo n2)) with (change_signal t2). by rewrite El.
  - split; [exact Hn|]. split; [exact Hr|]. split; [done|]. split; [done|].
    split; [by rewrite <- (readers_there b (chan a) rs Hemp)|]. do 3 (split; [done|]). intros Hb.
    destruct (present_hears N n b gone (chan a) Hi Hb) as (x & kr & rx & Hx & Hh & Hrx & Hrc).
    destruct (Heff eq_refl x kr rx) as (rx' & Hrx' & Hkn); [by apply elem_of_app; left|done|done|].
    exists kr, rx'. split; [done|]. split; [|done]. destruct (relinked_back _ _ _ _ _ Hre Hrx') as (rx0 & Hrx0 & Ea & _).
    change (links n2) with (links n) in Hrx0. rewrite Hrx in Hrx0. injection Hrx0 as <-. unfold rx_chan in *. by rewrite Ea.
Qed.

(** The receivers after changes that concern [o] only. *)
Lemma relinked_rx o n l' t :
  relinked o (links n) l' → renamed (topo n) t →
  (∀ k rx, receivers (links n) !! k = Some rx → (k < count n)%nat ∧ role_ok (topo n) (rx_attr rx)) →
  ∀ k rx, receivers l' !! k = Some rx → (k < count n)%nat ∧ role_ok t (rx_attr rx).
Proof.
  intros Hl Ht H k rx Hk. destruct (relinked_back _ _ _ _ _ Hl Hk) as (rx0 & Hk0 & Ea & _).
  destruct (H _ _ Hk0) as [H1 H2]. split; [done|]. rewrite Ea. by apply (role_ok_renamed _ _ _ Ht).
Qed.

Lemma relinked_knows o l l' c i :
  relinked o l l' → i ≠ o → (∃ kr rx, receivers l !! kr = Some rx ∧ rx_chan rx = c ∧ knows rx i) →
  ∃ kr rx, receivers l' !! kr = Some rx ∧ rx_chan rx = c ∧ knows rx i.
Proof.
  intros Hl Hne (kr & rx & Hk & Hc & Hkn). destruct (relinked_forth _ _ _ _ _ Hl Hk) as (rx' & Hk' & Ea & H).
  exists kr, rx'. unfold rx_chan in *. rewrite Ea, H by done. done.
Qed.

Lemma wired_id w i on : wired w i on → Warehouse.id (w_role w) = Some i.
Proof. by intros [H _]. Qed.

Lemma elem_of_live n wid : wid ∈ live_writers n ↔ ∃ w, live n wid w.
Proof.
  unfold live_writers, live. rewrite elem_of_dom. split.
  - intros [w Hw%map_lookup_filter_Some]. by exists w.
  - intros (w & Hw). exists w. by apply map_lookup_filter_Some.
Qed.

Lemma node_ok_renamed t t' a : renamed t t' → node_ok t a → node_ok t' a.
Proof. intros Hr [H1 H2 H3 (i & v & H4 & H5 & H6)]. split; [done..|]. exists i, v. split; [done|]. split; [done|]. by apply Hr. Qed.

Lemma rewired_back l c on ws ws' wid w' :
  rewired l c on ws ws' → ws' !! wid = Some w' →
  ∃ w, ws !! wid = Some w ∧ w_role w' = w_role w ∧ w_init w' = w_init w ∧
    ∀ i x, wired w i x → wired w' i (if decide (SlotWriter wid ∈ l ∧ chan (w_role w) = c) then on else x).
Proof. intros H Hw. specialize (H wid). rewrite Hw in H. destruct (ws !! wid) as [w|]; [|done]. by exists w. Qed.

Lemma rewired_forth l c on ws ws' wid w :
  rewired l c on ws ws' → ws !! wid = Some w →
  ∃ w', ws' !! wid = Some w' ∧ w_role w' = w_role w ∧ w_init w' = w_init w ∧
    ∀ i x, wired w i x → wired w' i (if decide (SlotWriter wid ∈ l ∧ chan (w_role w) = c) then on else x).
Proof. intros H Hw. specialize (H wid). rewrite Hw in H. destruct (ws' !! wid) as [w'|]; [|done]. by exists w'. Qed.

Lemma rewired_live n n' l c on wid w' :
  rewired l c on (writers n) (writers n') → live n' wid w' →
  ∃ w, live n wid w ∧ w_role w' = w_role w ∧
    ∀ i x, wired w i x → wired w' i (if decide (SlotWriter wid ∈ l ∧ chan (w_role w) = c) then on else x).
Proof.
  intros H [Hw Hi]. destruct (rewired_back _ _ _ _ _ _ _ H Hw) as (w & Hw0 & Er & Ei & Hx).
  exists w. split; [split; [done|congruence]|done].
Qed.

Lemma rewired_live_forth n n' l c on wid w :
  rewired l c on (writers n) (writers n') → live n wid w → ∃ w', live n' wid w' ∧ w_role w' = w_role w.
Proof.
  intros H [Hw Hi]. destruct (rewired_forth _ _ _ _ _ _ _ H Hw) as (w' & Hw0 & Er & Ei & Hx).
  exists w'. split; [split; [done|congruence]|done].
Qed.

Lemma rewired_live_writers n n' l c on :
  rewired l c on (writers n) (writers n') → live_writers n' = live_writers n.
Proof.
  intros H. apply set_eq. intros wid. rewrite !elem_of_live. split.
  - intros [w' Hw]. destruct (rewired_live _ _ _ _ _ _ _ H Hw) as (w & Hw0 & _). by exists w.
  - intros [w Hw]. destruct (rewired_live_forth _ _ _ _ _ _ _ H Hw) as (w' & Hw0 & _). by exists w'.
Qed.

Lemma switch_eq c on c' x : switch c on (c', x) = (c', if decide (c' = c) then on else x).
Proof. unfold switch. cbn. by case_decide; subst. Qed.

Lemma rt_inv_le N N' r : (N <= N')%nat → rt_inv Hash N r → rt_inv Hash N' r.
Proof. induction 1; [done|]. intros H'. apply rt_inv_S. by apply IHle. Qed.

(** *** Parts of the invariant that steps keep *)

Lemma objects_kept N N' n n' :
  objects_ok N n → (N <= N')%nat → rt n' = rt n → names_inv Hash N' (topo n') → renamed (topo n) (topo n') →
  base (channel_manager (topo n')) = cm_base → nodes n' = nodes n → reader_roles n' = reader_roles n →
  receiver_ n' = receiver_ n → receiver_map_ (links n') = receiver_map_ (links n) → (count n <= count n')%nat →
  objects_ok N' n'.
Proof.
  intros [H1 H2 H3 H4 H5 H6] HN Er Hn Hr Eb Eno Ero Erc Em Hc. split; rewrite ?Er, ?Eno, ?Ero, ?Erc, ?Em; try done.
  - by apply (rt_inv_le N).
  - intros nid nd Hx. destruct (H4 _ _ Hx) as [G1 G2]. split; [by apply (node_ok_renamed _ _ _ Hr)|lia].
  - intros rid r Hx. destruct (H5 _ _ Hx) as (G1 & G2 & ar & G3 & G4 & G5). split; [lia|]. split; [done|].
    exists ar. split; [done|]. split; [by apply (role_ok_renamed _ _ _ Hr)|done].
Qed.

Lemma transport_relinked n n' gone gone' o :
  transport_ok n gone → relinked o (links n) (links n') → links_inv gone' (links n') → renamed (topo n) (topo n') →
  (count n <= count n')%nat → (∀ j, (count n' <= j)%nat → uuid j ≠ o ∧ (¬ gone (uuid j) → ¬ gone' (uuid j))) →
  transport_ok n' gone'.
Proof.
  intros [H1 H2 H3] Hre Hl Hr Hc Hj. split; [done| |].
  - intros k rx Hx. destruct (relinked_rx _ _ _ _ Hre Hr H2 _ _ Hx) as [G1 G2]. split; [lia|done].
  - intros j Hj'. destruct (H3 j ltac:(lia)) as [G1 G2]. destruct (Hj j Hj') as [G3 G4]. split; [by apply G4|].
    intros kr rx Hx. destruct (relinked_back _ _ _ _ _ Hre Hx) as (rx0 & Hx0 & _ & Hkn). rewrite Hkn by done. by eapply G2.
Qed.

Lemma transport_renamed n n' gone :
  transport_ok n gone → links n' = links n → renamed (topo n) (topo n') → (count n <= count n')%nat → transport_ok n' gone.
Proof.
  intros [H1 H2 H3] E Hr Hc. split; rewrite E; [done| |].
  - intros k rx Hk. destruct (H2 _ _ Hk). split; [lia|by apply (role_ok_renamed _ _ _ Hr)].
  - intros k Hk. apply H3. lia.
Qed.

Lemma roster_readers_kept n n' b b' :
  roster_readers n b → renamed (topo n) (topo n') → channel_readers_ (st n') = channel_readers_ (st n) →
  receiver_map_ (links n') = receiver_map_ (links n) → reader_roles n' = reader_roles n → receiver_ n' = receiver_ n →
  b_present b' = b_present b → roster_readers n' b'.
Proof.
  intros [H1 H2] Hr E1 E2 E3 E4 E5. split; rewrite ?E1, ?E2, ?E3, ?E4, ?E5; [|done].
  intros key r Hx. destruct (H1 _ _ Hx) as (G1 & G2 & G3 & G4). split; [done|]. split; [done|].
  split; [by apply (role_ok_renamed _ _ _ Hr)|done].
Qed.

Lemma wired_roster n n' l c on :
  roster_writers n → rewired l c on (writers n) (writers n') → channel_writers_ (st n') = channel_writers_ (st n) →
  roster_writers n'.
Proof.
  intros [H1 H2] Hre E. split; rewrite E.
  - intros key r Hx. destruct (H1 _ _ Hx) as (wid & w & G1 & G2 & G3 & G4).
    destruct (rewired_live_forth _ _ _ _ _ _ _ Hre G1) as (w' & Hw' & Ew). exists wid, w'. by rewrite Ew.
  - intros wid w' Hx. destruct (rewired_live _ _ _ _ _ _ _ Hre Hx) as (w & Hw & -> & _). by apply (H2 wid).
Qed.

Lemma wired_slots n n' l c on :
  slots_ok n → rewired l c on (writers n) (writers n') →
  (∀ s, s ∈ change_signal (topo n') ↔ match s with SlotReader rid => is_Some (receiver_ n' !! rid) | _ => s ∈ change_signal (topo n) end) →
  slots_ok n'.
Proof.
  intros H Hre Hs s. rewrite Hs. destruct s as [rid|wid]; [done|]. rewrite (H (SlotWriter wid)). split.
  - intros [w Hx]. destruct (rewired_live_forth _ _ _ _ _ _ _ Hre Hx) as (w' & Hx' & _). by exists w'.
  - intros [w' Hx]. destruct (rewired_live _ _ _ _ _ _ _ Hre Hx) as (w & Hx' & _). by exists w.
Qed.

(** The board is switched as the writers are wired. *)
Lemma wired_writers n n' b b' gone l c on :
  writers_ok n b gone → rewired l c on (writers n) (writers n') → (∀ wid w, live n wid w → SlotWriter wid ∈ l) →
  b_writers b' = switch c on <$> b_writers b → renamed (topo n) (topo n') → (count n <= count n')%nat →
  (∀ c' i, heard (links n) c' i → heard (links n') c' i) →
  (on = true → ∀ wid w i, live n wid w → Warehouse.id (w_role w) = Some i → chan (w_role w) = c → heard (links n') c i) →
  writers_ok n' b' gone.
Proof.
  intros [H1 H2 H3 H4] Hre Hl Eb Hr Hc Hold Hnew. split; rewrite ?Eb.
  - intros wid w' Hx. destruct (rewired_back _ _ _ _ _ _ _ Hre Hx) as (w & Hw & -> & _). destruct (H1 _ _ Hw) as [G1 G2].
    split; [lia|by apply (role_ok_renamed _ _ _ Hr)].
  - intros wid w' Hx. destruct (rewired_live _ _ _ _ _ _ _ Hre Hx) as (w & Hw & Ew & Hwi).
    destruct (H2 _ _ Hw) as (j & on0 & G1 & G2 & G3 & G4 & G5). exists j, (if decide (chan (w_role w) = c) then on else on0).
    split; [lia|]. split; [done|]. rewrite Ew, lookup_fmap, G4. cbn. rewrite switch_eq. split; [|split; [done|]].
    + specialize (Hwi _ _ G3). rewrite (decide_ext _ (chan (w_role w) = c)) in Hwi; [exact Hwi|].
      split; [by intros [_ ?]|]. intros Hch. split; [by eapply Hl|done].
    + destruct (decide (chan (w_role w) = c)) as [Hd|Hd]; [|by intros Ho; apply Hold, G5].
      intros Ho. rewrite Hd. apply (Hnew Ho wid w); [done|by eapply wired_id|done].
  - intros wid y. rewrite lookup_fmap. intros (z & Hz & ->)%fmap_Some. destruct (H3 _ _ Hz) as [w Hw].
    destruct (rewired_live_forth _ _ _ _ _ _ _ Hre Hw) as (w' & Hw' & _). by exists w'.
  - intros w1 w2 r1 r2 Hx1 Hx2. destruct (rewired_live _ _ _ _ _ _ _ Hre Hx1) as (w & Hw & -> & _).
    destruct (rewired_live _ _ _ _ _ _ _ Hre Hx2) as (y & Hy & -> & _). by eapply H4.
Qed.

(** *** Joining *)

Section joining.
Context (N : nat) (n n' : Net) (b : Board) (gone : Z → Prop) (wid k : nat) (w' : Writer) (on : bool).
Context (Hi : net_inv N n b gone) (Hno : ∀ w, ¬ live n wid w) (Hlt : (wid < count n)%nat) (Hk : k = count n) (Hc : count n' = S k).
Context (Ew : writers n' = <[wid := w']> (writers n)) (Hinit : w_init w' = true) (Hro : role_ok (topo n') (w_role w')).
Context (Hr : renamed (topo n) (topo n')) (Hw : wired w' (uuid k) on) (Hre : relinked (uuid k) (links n) (links n')).

Lemma joining_live wid' w0 : live n' wid' w0 ↔ (wid' = wid ∧ w0 = w') ∨ (wid' ≠ wid ∧ live n wid' w0).
Proof using Ew Hinit.
  unfold live. rewrite Ew, lookup_insert_Some. split.
  - intros [[[<- <-]|[Hne Hx]] Hy]; [by left|right]. by split_and!.
  - intros [[-> ->]|(Hne & Hx & Hy)]; [by split; [left|]|]. split; [right; by split; [apply not_eq_sym|]|done].
Qed.

Lemma joining_other wid' w0 : live n wid' w0 → wid' ≠ wid.
Proof using Hno. intros Hx ->. by eapply Hno. Qed.

Lemma joining_old wid' w0 : live n wid' w0 → live n' wid' w0.
Proof using Ew Hinit Hno. intros Hx. apply joining_live. right. split; [by eapply joining_other|done]. Qed.

Lemma joining_fresh wid' w0 : live n wid' w0 → Warehouse.id (w_role w0) ≠ Some (uuid k).
Proof using Hi Hk uuid_inj.
  intros Hx. destruct (wr_live _ _ _ Hi _ _ Hx) as (j & ? & Hj & _ & Hwj%wired_id & _). rewrite Hwj.
  intros [= He%(inj uuid)]. clear -Hj He Hk. lia.
Qed.

Lemma joining_slots :
  change_signal (topo n') = change_signal (topo n) ++ [SlotWriter wid] → receiver_ n' = receiver_ n → slots_ok n'.
Proof using Hi Ew Hinit Hno.
  intros Es Erc s. rewrite Es, Erc, elem_of_app, list_elem_of_singleton, (nv_slots _ _ _ _ Hi s). destruct s as [rid|wid'].
  - split; [by intros [?|?]|by left].
  - setoid_rewrite joining_live. split.
    + intros [[w0 Hx]|[= ->]]; [exists w0; right; split; [by eapply joining_other|done]|exists w'; by left].
    + intros (w0 & [[-> _]|[_ Hx]]); [by right|left; by exists w0].
Qed.

Lemma joining_writers b' :
  b_writers b' = <[wid := (chan (w_role w'), on)]> (b_writers b) → (on = true → heard (links n') (chan (w_role w')) (uuid k)) →
  writers_ok n' b' gone.
Proof using Hi Hlt Hk Hc Ew Hinit Hro Hr Hw Hre Hno uuid_inj fuel.
  intros Eb Hon. split; rewrite ?Eb.
  - rewrite Ew. intros wid' w0 [[<- <-]|[_ Hx]]%lookup_insert_Some; [split; [lia|done]|].
    destruct (wr_writer _ _ _ Hi _ _ Hx) as [G1 G2]. split; [lia|by apply (role_ok_renamed _ _ _ Hr)].
  - intros wid' w0 [[-> ->]|[Hne Hx]]%joining_live.
    + exists k, on. rewrite lookup_insert_eq. split; [lia|]. split; [apply (tp_fresh _ _ Hi); lia|done].
    + destruct (wr_live _ _ _ Hi _ _ Hx) as (j & on0 & G1 & G2 & G3 & G4 & G5). exists j, on0.
      rewrite lookup_insert_ne by done. split; [lia|]. do 3 (split; [done|]).
      intros Ho. apply (relinked_knows _ _ _ _ _ Hre); [intros He%(inj uuid); lia|by apply G5].
  - intros wid' x [[<- _]|[Hne Hx]]%lookup_insert_Some; [exists w'; apply joining_live; by left|].
    destruct (wr_board _ _ _ Hi _ _ Hx) as [w0 Hx']. exists w0. by apply joining_old.
  - intros w1 w2 r1 r2 [[-> ->]|[Hn1 Hx1]]%joining_live [[-> ->]|[Hn2 Hx2]]%joining_live; [done| | |by eapply (wr_ids _ _ _ Hi)].
    + rewrite (wired_id _ _ _ Hw). intros He. by destruct (joining_fresh _ _ Hx2).
    + rewrite (wired_id _ _ _ Hw). intros He. by destruct (joining_fresh _ _ Hx1).
Qed.

Lemma joining_roster ts :
  channel_writers_ (st n') = channel_writers_ (st n) ++ [(cid (w_role w'), mkRole KWriter (w_role w') ts)] → roster_writers n'.
Proof using Hi Ew Hinit Hno.
  intros E. split; rewrite E.
  - intros key r [Hx|[= -> ->]%list_elem_of_singleton]%elem_of_app.
    + destruct (rw_role _ Hi _ _ Hx) as (wid' & w0 & G1 & G2). exists wid', w0. split; [by apply joining_old|done].
    + exists wid, w'. split; [apply joining_live; by left|done].
  - intros wid' w0 [[-> ->]|[Hne Hx]]%joining_live; setoid_rewrite elem_of_app.
    + exists ts. right. by apply list_elem_of_singleton.
    + destruct (rw_all _ Hi _ _ Hx) as [ts0 Hts]. exists ts0. by left.
Qed.

Lemma joining_live_writers : live_writers n' = {[wid]} ∪ live_writers n.
Proof using Ew Hinit Hno.
  apply set_eq. intros x. rewrite elem_of_union, elem_of_singleton, !elem_of_live. setoid_rewrite joining_live.
  split; [intros (w0 & [[-> _]|[_ Hx]]); eauto|]. intros [->|[w0 Hx]]; [exists w'; by left|].
  exists w0. right. split; [by eapply joining_other|done].
Qed.
End joining.

Lemma Writer_Init_inv N now n wid w gone b :
  (N < fuel)%nat → net_inv N n b gone → writers n !! wid = Some w → w_init w = false →
  ∃ n', Writer_Init now n wid = Some (n', true) ∧ rt n' = rt n ∧ receiver_ n' = receiver_ n ∧
    renamed (topo n) (topo n') ∧ count n' = S (count n) ∧ live_writers n' = {[wid]} ∪ live_writers n ∧ writer_channel n' wid = chan (w_role w) ∧
    net_inv (S N) n' (board_step b (WriterComes wid (chan (w_role w)))) gone.
Proof.
  intros HN Hi Hw Hinit.
  destruct (Writer_Init_spec N now n wid w gone b HN Hi Hw Hinit)
    as (g & t' & w' & l' & on & E & Et & Hn & Hr & Er & Ei & Hwi & Eon & Hl & Hre & Hon). cbn zeta in *.
  set (k := count n) in *. set (a := set_id (w_role w) (uuid k)) in *.
  eexists. split; [exact E|]. set (n' := set_links _ l'). do 4 (split; [done|]).
  assert (∀ w0, ¬ live n wid w0) as Hno by (intros w0 [Hx Hy]; congruence).
  destruct (wr_writer _ _ _ Hi _ _ Hw) as [Hlt Hrw].
  assert (role_ok (topo n') (w_role w')) as Hro by (rewrite Er; by apply role_ok_set_id, (role_ok_renamed _ _ _ Hr)).
  split; [by apply (joining_live_writers n n' wid w')|]. split; [unfold writer_channel, n'; cbn; by rewrite lookup_insert_eq; cbn; rewrite Er|].
  split.
  - apply (objects_kept N (S N) n); try done; [apply Hi|lia|by subst t'|apply Hre|cbn; lia].
  - by apply (joining_slots N n n' b gone wid w'); try done; subst t'.
  - apply (transport_relinked n n' gone gone (uuid k)); try done; [apply Hi|cbn; lia|].
    intros j Hj. split; [|done]. intros He%(inj uuid). cbn in Hj. unfold k in *. lia.
  - apply (joining_writers N n n' b gone wid k w' on); try done; [cbn; by rewrite Er, Eon|by rewrite Er].
  - apply (joining_roster N n n' b gone wid w' Hi Hno eq_refl Ei now). rewrite Er. by subst t'.
  - apply (roster_readers_kept n n' b); try done; [apply Hi|by subst t'|apply Hre].
Qed.

(** ** A writer goes *)

#[local] Abbreviation Writer_Shutdown := (Writer_Shutdown env tname).

(** The entries a role's leave takes out are those of its channel, node and id. *)
Lemma removed_role t (ro : Role) a i :
  kind ro = KWriter → role_ok t (attributes_ ro) → role_ok t a → Warehouse.id a = Some i →
  Match ro a = true ↔ cid (attributes_ ro) = cid a ∧ node_id (attributes_ ro) = node_id a ∧
    get_num (Warehouse.id (attributes_ ro)) = i.
Proof.
  intros Hk [H1 _ H3 _ [H5 _] (y & H7 & _)] [G1 _ G3 _ [G5 _] (z & G7 & _)] Hi.
  rewrite Match_writer by done. rewrite G1, G3, G5, G7, Hi, H1, H3, H5, H7. cbn. split.
  - intros (E1 & E2 & E3 & _). split; [by rewrite <- (E1 (cid a))|]. split; [by rewrite (E3 z)|by rewrite (E2 i)].
  - intros (E1 & [= ->] & E2). split_and!; intros x [= <-]; congruence.
Qed.

Lemma Writer_Shutdown_spec N now n wid w gone b :
  net_inv N n b gone → live n wid w →
  ∃ t' l' i, let a := w_role w in let msg := mkChangeMsg now CHANGE_CHANNEL OPT_LEAVE ROLE_WRITER a in
    Writer_Shutdown now n wid = set_links (set_topo (set_writer n wid (mkWriter a None false)) t') l' ∧
    t' = mkTopo (names (topo n)) (mkManager cm_base (ChannelManager_DisposeLeave (st n) msg)) (node_manager (topo n))
      (filter (λ s, s ≠ SlotWriter wid) (change_signal (topo n))) ∧
    Warehouse.id a = Some i ∧ links_inv (λ o, gone o ∨ o = i) l' ∧ relinked i (links n) l'.
Proof using Hmode.
  intros Hi [Hw Hinit]. destruct (wr_live _ _ _ Hi _ _ (conj Hw Hinit)) as (k & on & _ & _ & Hwi & _ & _).
  apply wired_id in Hwi. set (a := w_role w) in *. destruct (wr_writer _ _ _ Hi _ _ Hw) as [_ Ha]. fold a in Ha.
  set (msg := mkChangeMsg now CHANGE_CHANNEL OPT_LEAVE ROLE_WRITER a).
  set (t' := mkTopo (names (topo n)) (mkManager cm_base (ChannelManager_DisposeLeave (st n) msg)) (node_manager (topo n))
    (filter (λ s, s ≠ SlotWriter wid) (change_signal (topo n)))).
  set (n1 := set_topo (set_writer n wid (mkWriter a (w_transmitter w) false)) t').
  destruct (announce_writer msg n1 (change_signal t') (λ o, gone o ∨ o = uuid k)) as (l' & El & Hl & Hre & _); [done| | | | |].
  { by apply (role_here (topo n)). }
  { apply (links_weaken _ _ _ _ gone); [by left|apply Hi]. }
  { exact (nv_pointers _ _ _ _ Hi). }
  { right. cbn. by rewrite Hwi. }
  cbn [role_attr msg] in Hre. rewrite Hwi in Hre. cbn in Hre.
  exists t', l', (uuid k). cbn zeta. split; [|done].
  unfold Node.Writer_Shutdown. rewrite Hw, Hinit. cbn [negb]. fold a. unfold cm_Leave.
  assert (Topology.Leave now (channel_manager (topo n)) a ROLE_WRITER = (mkManager cm_base (ChannelManager_DisposeLeave (st n) msg), [Notified msg], false))
    as Ej by (apply (cm_leave (topo n)); [apply Hi|by left|done|by eexists]).
  match goal with |- context [Topology.Leave now ?m a _] => change m with (channel_manager (topo n)) end. rewrite Ej.
  unfold announce. cbn [foldl].
  match goal with |- context [foldl _ ?m (change_signal (topo ?m))] => change m with n1; change (change_signal (topo n1)) with (change_signal t') end.
  rewrite El. unfold set_writer, set_links. cbn. by rewrite insert_insert_eq.
Qed.

Section leaving.
Context (N : nat) (n n' : Net) (b : Board) (gone : Z → Prop) (wid k : nat) (w w' : Writer).
Context (Hi : net_inv N n b gone) (Hlw : live n wid w) (Hk : Warehouse.id (w_role w) = Some (uuid k)) (Hc : count n' = count n).
Context (Ew : writers n' = <[wid := w']> (writers n)) (Er : w_role w' = w_role w) (Ei : w_init w' = false).
Context (Hr : renamed (topo n) (topo n')) (Hre : relinked (uuid k) (links n) (links n')).

Lemma leaving_live wid' w0 : live n' wid' w0 ↔ wid' ≠ wid ∧ live n wid' w0.
Proof using Ew Ei.
  unfold live. rewrite Ew, lookup_insert_Some. split.
  - intros [[[_ <-]|[Hne Hx]] Hy]; [congruence|]. by split; [apply not_eq_sym|].
  - intros (Hne & Hx & Hy). split; [right; by split; [apply not_eq_sym|]|done].
Qed.

Lemma leaving_ids wid' w0 : live n wid' w0 → wid' ≠ wid → Warehouse.id (w_role w0) ≠ Some (uuid k).
Proof using Hi Hlw Hk. intros Hx Hne He. apply Hne, (wr_ids _ _ _ Hi _ _ _ _ Hx Hlw). by rewrite He. Qed.

Lemma leaving_slots :
  change_signal (topo n') = filter (λ s, s ≠ SlotWriter wid) (change_signal (topo n)) → receiver_ n' = receiver_ n → slots_ok n'.
Proof using Hi Ew Ei.
  intros Es Erc s. rewrite Es, Erc, list_elem_of_filter, (nv_slots _ _ _ _ Hi s). destruct s as [rid|wid'].
  - by split; [intros [_ ?]|].
  - setoid_rewrite leaving_live. split.
    + intros [Hne [w0 Hx]]. exists w0. by split; [intros ->|].
    + intros (w0 & Hne & Hx). split; [by intros [= ->]|by exists w0].
Qed.

Lemma leaving_writers b' : b_writers b' = delete wid (b_writers b) → writers_ok n' b' (λ o, gone o ∨ o = uuid k).
Proof using Hi Hlw Hk Hc Ew Er Ei Hr Hre fuel.
  intros Eb. split; rewrite ?Eb.
  - rewrite Ew. intros wid' w0 [[<- <-]|[_ Hx]]%lookup_insert_Some.
    + destruct (wr_writer _ _ _ Hi _ _ (proj1 Hlw)) as [G1 G2]. rewrite Er. split; [lia|by apply (role_ok_renamed _ _ _ Hr)].
    + destruct (wr_writer _ _ _ Hi _ _ Hx) as [G1 G2]. split; [lia|by apply (role_ok_renamed _ _ _ Hr)].
  - intros wid' w0 [Hne Hx]%leaving_live. destruct (wr_live _ _ _ Hi _ _ Hx) as (j & on0 & G1 & G2 & G3 & G4 & G5).
    assert (uuid j ≠ uuid k) as Hne' by (intros He; apply (leaving_ids _ _ Hx Hne); rewrite <- He; by eapply wired_id).
    exists j, on0. rewrite lookup_delete_ne by done. split; [lia|]. split; [by intros [?|?]|]. do 2 (split; [done|]).
    intros Ho. apply (relinked_knows _ _ _ _ _ Hre); [done|by apply G5].
  - intros wid' x [Hne Hx]%lookup_delete_Some. destruct (wr_board _ _ _ Hi _ _ Hx) as [w0 Hx']. exists w0. apply leaving_live.
    split; [by apply not_eq_sym|done].
  - intros w1 w2 r1 r2 [_ Hx1]%leaving_live [_ Hx2]%leaving_live. by eapply (wr_ids _ _ _ Hi).
Qed.

Lemma leaving_roster :
  channel_writers_ (st n') = filter (λ kr, ¬ (kr.1 = cid (w_role w) ∧ Match kr.2 (w_role w) = true)) (channel_writers_ (st n)) →
  roster_writers n'.
Proof using Hi Hlw Hk Ew Ei.
  intros E. split; rewrite E.
  - intros key r [Hno Hx]%list_elem_of_filter. cbn in Hno.
    destruct (rw_role _ Hi _ _ Hx) as (wid' & w0 & G1 & G2 & G3 & G4). exists wid', w0. split; [|done]. apply leaving_live.
    split; [|done]. intros ->. assert (w0 = w) as -> by (destruct G1, Hlw; congruence). apply Hno. split; [done|].
    rewrite <- G2. apply Match_self.
  - intros wid' w0 [Hne Hx]%leaving_live. destruct (rw_all _ Hi _ _ Hx) as [ts Hts]. exists ts. apply list_elem_of_filter.
    split; [|done]. intros [_ Hm]. destruct (wr_writer _ _ _ Hi _ _ (proj1 Hx)) as [_ Hro].
    destruct (wr_writer _ _ _ Hi _ _ (proj1 Hlw)) as [_ Hro'].
    apply (removed_role (topo n) (mkRole KWriter (w_role w0) ts) (w_role w) (uuid k)) in Hm as (_ & _ & Hm); try done.
    destruct (wr_live _ _ _ Hi _ _ Hx) as (j & onj & _ & _ & Hj%wired_id & _).
    apply (leaving_ids _ _ Hx Hne). cbn in Hm. rewrite Hj in *. cbn in Hm. congruence.
Qed.

Lemma leaving_live_writers : live_writers n' = live_writers n ∖ {[wid]}.
Proof using Ew Ei.
  apply set_eq. intros x. rewrite elem_of_difference, elem_of_singleton, !elem_of_live. setoid_rewrite leaving_live. naive_solver.
Qed.
End leaving.

Lemma Writer_Shutdown_inv N now n wid w gone b :
  net_inv N n b gone → live n wid w →
  let n' := Writer_Shutdown now n wid in
  ∃ gone', rt n' = rt n ∧ receiver_ n' = receiver_ n ∧ renamed (topo n) (topo n') ∧ count n' = count n ∧
    live_writers n' = live_writers n ∖ {[wid]} ∧
    net_inv N n' (board_step b (WriterGoes wid)) gone'.
Proof.
  intros Hi Hlw. destruct (Writer_Shutdown_spec N now n wid w gone b Hi Hlw) as (t' & l' & i & E & Et & Hid & Hl & Hre).
  cbn zeta in *. rewrite E. clear E. set (n' := set_links _ l'). exists (λ o, gone o ∨ o = i).
  destruct (wr_live _ _ _ Hi _ _ Hlw) as (k & on & Hk & _ & Hwi%wired_id & _). rewrite Hid in Hwi. injection Hwi as ->.
  assert (renamed (topo n) (topo n')) as Hr by (intros ???; by subst t').
  do 4 (split; [done|]). split; [by apply (leaving_live_writers n n' wid (mkWriter (w_role w) None false))|].
  split.
  - apply (objects_kept N N n); try done; [apply Hi|subst t'; apply (ob_names _ _ Hi)|by subst t'|apply Hre].
  - by apply (leaving_slots N n n' b gone wid (mkWriter (w_role w) None false)); try done; subst t'.
  - apply (transport_relinked n n' gone _ (uuid k)); try done; [apply Hi|]. intros j Hj.
    assert (uuid j ≠ uuid k) as Hne by (intros He%(inj uuid); cbn in Hj; lia). split; [done|]. by intros ? [?|?].
  - by apply (leaving_writers N n n' b gone wid k w (mkWriter (w_role w) None false)).
  - apply (leaving_roster N n n' b gone wid k w (mkWriter (w_role w) None false)); try done. by subst t'.
  - apply (roster_readers_kept n n' b); try done; [apply Hi|by subst t'|apply Hre].
Qed.

(** ** A reader comes *)

#[local] Abbreviation Reader_Init := (Reader_Init Hash fuel conf host pid mode env uuid tname).
#[local] Abbreviation GetReceiver := (GetReceiver host pid mode uuid).

(** Links with receivers and connections more: what was there is kept, and only the
    writers [ids] are new to anyone. *)
Record extended (ids : Z → Prop) (l l' : Links) : Prop := {
  ex_map : ∀ c k, receiver_map_ l !! c = Some k → receiver_map_ l' !! c = Some k;
  ex_rx : ∀ k rx, receivers l !! k = Some rx →
    ∃ rx', receivers l' !! k = Some rx' ∧ rx_attr rx' = rx_attr rx ∧ ∀ o, knows rx o → knows rx' o;
  ex_back : ∀ k rx' o, receivers l' !! k = Some rx' → knows rx' o →
    ids o ∨ ∃ rx, receivers l !! k = Some rx ∧ knows rx o
}.

(** The receiver of a reader's channel, which may be new. *)
Lemma GetReceiver_spec N n b gone a :
  net_inv N n b gone → role_ok (topo n) a →
  ∃ l k m, GetReceiver n a = (mkNet (rt n) (topo n) l (reader_roles n) (receiver_ n) (writers n) (nodes n) (held n) m, k) ∧
    links_inv gone l ∧ extended (λ _, False) (links n) l ∧ receiver_map_ l !! chan a = Some k ∧ (count n <= m <= S (count n))%nat ∧ (k < m)%nat ∧
    (∀ c, c ≠ chan a → receiver_map_ l !! c = receiver_map_ (links n) !! c) ∧
    (∀ k rx, receivers l !! k = Some rx → (k < m)%nat ∧ role_ok (topo n) (rx_attr rx)).
Proof.
  intros Hi Ha. unfold Node.GetReceiver. change (get_str (channel_name a)) with (chan a).
  destruct (receiver_map_ (links n) !! chan a) as [k|] eqn:E.
  - destruct (li_map _ _ _ _ _ _ (tp_links _ _ Hi) _ _ E) as (rx & Hrx & _).
    destruct (tp_rx _ _ Hi _ _ Hrx) as [Hk _].
    exists (links n), k, (count n). split; [by destruct n|]. split; [apply Hi|]. split; [split; [done| |]|].
    + intros k' rx' Hk'. by exists rx'.
    + intros k' rx' o Hk' Hkn. right. by exists rx'.
    + split; [done|]. split; [lia|]. split; [done|]. split; [done|]. apply Hi.
  - set (k := count n). set (a' := Endpoint_attr host pid uuid a k).
    set (rx := mkRx a' (HybridReceiver_new mode (attr_of_role a'))).
    assert (role_ok (topo n) a') as Ha' by by apply role_Endpoint.
    assert (receivers (links n) !! k = None) as Hk.
    { destruct (receivers (links n) !! k) as [rx0|] eqn:E0; [|done]. apply (tp_rx _ _ Hi) in E0 as [? _]. unfold k in *. lia. }
    assert (∀ o, ¬ knows rx o) as Hno.
    { intros o [x Hx]. unfold rx, known in Hx. cbn in Hx. unfold modes in Hx. rewrite Hmode in Hx. cbn in Hx.
      rewrite lookup_insert_eq in Hx. cbn in Hx. by rewrite lookup_empty in Hx. }
    eexists (mkLinks (<[chan a := k]> _) _ _), k, (S k). split; [reflexivity|].
    split; [|split; [|split; [|split; [|split; [|split]]]]].
    + change (chan a) with (rx_chan rx). apply rx_new; [apply Hi|done|exact E| |done|].
      * split; [|done]. exact (role_here _ _ Ha').
      * intros k' rx' Hk' Hc. destruct (li_rx _ _ _ _ _ _ (tp_links _ _ Hi) _ _ Hk') as [_ Hm].
        destruct (tp_rx _ _ Hi _ _ Hk') as [_ Hro].
        assert (rx_chan rx' = chan a) as Ec by exact (proj1 (same_channel _ _ _ _ (ob_names _ _ Hi) Hro Ha') Hc). congruence.
    + split; cbn [receiver_map_ receivers].
      * intros c k' Hc. rewrite lookup_insert_ne; [done|congruence].
      * intros k' rx' Hk'. exists rx'. split; [rewrite lookup_insert_ne; [done|congruence]|done].
      * intros k' rx' o [[<- <-]|[_ Hk']]%lookup_insert_Some Hkn; [by destruct (Hno o)|right; by exists rx'].
    + apply lookup_insert_eq.
    + unfold k. lia.
    + lia.
    + intros c Hc. cbn. by rewrite lookup_insert_ne.
    + cbn [receivers]. intros k' rx' [[<- <-]|[_ Hk']]%lookup_insert_Some; [split; [lia|done]|].
      destruct (tp_rx _ _ Hi _ _ Hk') as [G1 G2]. split; [unfold k; lia|done].
Qed.

Lemma links_fold n k (rs : list RoleAttributes) :
  foldl (λ n x, set_links n (rx_step tname (links n) k (HybridTransport.Join (attr_of_role x)))) n rs =
  set_links n (foldl (λ l x, rx_step tname l k (HybridTransport.Join x)) (links n) (attr_of_role <$> rs)).
Proof.
  revert n. induction rs as [|x rs IH]; intros n; [by destruct n|]. cbn. by rewrite IH.
Qed.

(** A reader with receiver [k] joins; the rest of the process is that of [n]. *)
Lemma Reader_Join_spec N now n b gone r l R P m rid k a rx :
  (N < fuel)%nat → net_inv N n b gone → links_inv gone l → receivers l !! k = Some rx → rx_chan rx = chan a →
  role_ok (topo n) a → is_Some (Warehouse.id a) →
  ∃ g l' ws rx', let msg := mkChangeMsg now CHANGE_CHANNEL OPT_JOIN ROLE_READER a in
    let t' := mkTopo g (mkManager cm_base (ChannelManager_DisposeJoin (st n) msg)) (node_manager (topo n))
                (change_signal (topo n) ++ [SlotReader rid]) in
    Reader_JoinTheTopology Hash fuel env tname now (mkNet r (topo n) l R P (writers n) (nodes n) (held n) m) rid k a =
      Some (mkNet r t' l' R P ws (nodes n) (held n) m) ∧
    names_inv Hash (S N) t' ∧ renamed (topo n) t' ∧ links_inv gone l' ∧ receiver_map_ l' = receiver_map_ l ∧
    receivers l' = <[k := rx']> (receivers l) ∧ rx_attr rx' = rx_attr rx ∧
    (∀ o, knows rx' o ↔ (∃ wid w, live n wid w ∧ chan (w_role w) = chan a ∧ Warehouse.id (w_role w) = Some o) ∨ knows rx o) ∧
    rewired (change_signal (topo n) ++ [SlotReader rid]) (chan a) true (writers n) ws.
Proof.
  intros HN Hi Hl Hk Hc Ha Hid. set (n0 := mkNet r (topo n) l R P (writers n) (nodes n) (held n) m).
  set (n1 := AddChangeListener n0 (SlotReader rid)).
  destruct (channel_key_spec Hash Hash_u64 fuel Hfuel N (topo n1) (chan a) HN (ob_names _ _ Hi)) as (g & key & Ek & Hn & Hkey & Hr).
  set (t1 := set_names (topo n1) g) in *. change (renamed (topo n) t1) in Hr.
  pose proof (writers_of_channel N (S N) n b gone t1 key (chan a) Hi Hr Hn Hkey) as Hin. cbn zeta in Hin.
  set (rs := GetWritersOfChannel (st n) key) in *.
  assert (∀ wid w, live n wid w → ∃ j, Warehouse.id (w_role w) = Some (uuid j) ∧ ¬ gone (uuid j)) as Hids.
  { intros wid w Hw. destruct (wr_live _ _ _ Hi _ _ Hw) as (j & ? & _ & Hj & Hwj%wired_id & _). by exists j. }
  destruct (rx_join_all ip pid mode tname Hmode gone l k rx (attr_of_role <$> rs) Hl Hk) as (Hl2 & Hm2 & rx' & Hk2 & Ea & Hkn).
  { apply Forall_fmap, Forall_forall. intros a0 (wid & w & Hw & Ech & ->)%Hin. cbn.
    destruct Hw as [Hw Hw']. destruct (wr_writer _ _ _ Hi _ _ Hw) as [_ Ho]. destruct (Hids wid w (conj Hw Hw')) as (j & Ej & Hj).
    split; [rewrite Hc, <- Ech; by apply (role_here (topo n))|]. rewrite Ej. done. }
  set (l2 := foldl _ l (attr_of_role <$> rs)) in *.
  set (msg := mkChangeMsg now CHANGE_CHANNEL OPT_JOIN ROLE_READER a).
  set (t' := mkTopo g (mkManager cm_base (ChannelManager_DisposeJoin (st n) msg)) (node_manager (topo n)) (change_signal (topo n) ++ [SlotReader rid])).
  set (n2 := mkNet r t' l2 R P (writers n) (nodes n) (held n) m).
  destruct (announce_reader msg n2 (change_signal t')) as (ws & Ews & Hws); [done|by apply (role_here (topo n))|].
  exists g, l2, ws, rx'. cbn zeta. split; [|split; [done|]; split; [done|]; split; [done|]; split; [done|]; split; [done|]; split; [done|]].
  - unfold Reader_JoinTheTopology. fold n1. change (get_str (channel_name a)) with (chan a). rewrite Ek. cbn [mbind option_bind].
    change (store (channel_manager t1)) with (st n). fold rs. rewrite links_fold. change (links (set_topo n1 t1)) with l. fold l2.
    unfold cm_Join.
    assert (Topology.Join now (channel_manager t1) a ROLE_READER true = (mkManager cm_base (ChannelManager_DisposeJoin (st n) msg), [Notified msg], false))
      as Ej by (apply (cm_join (topo n)); [apply Hi|by right|done|done]).
    match goal with |- context [Topology.Join now ?m a _ _] => change m with (channel_manager t1) end. rewrite Ej.
    unfold announce. cbn [foldl].
    match goal with |- context [foldl _ ?m (change_signal (topo ?m))] => change m with n2; change (change_signal (topo n2)) with (change_signal t') end.
    by rewrite Ews.
  - split; [|exact Hws]. intros o. rewrite Hkn. rewrite list_elem_of_fmap. setoid_rewrite list_elem_of_fmap. split.
    + intros [(? & -> & (a0 & -> & (wid & w & Hw & Ech & ->)%Hin))|Hx]; [|by right]. left. exists wid, w. split; [done|]. split; [done|].
      destruct (Hids _ _ Hw) as (j & Ej & _). cbn. by rewrite Ej.
    + intros [(wid & w & Hw & Ech & Ew)|Hx]; [|by right]. left. exists (attr_of_role (w_role w)). split; [cbn; by rewrite Ew|].
      exists (w_role w). split; [done|]. apply Hin. by exists wid, w.
Qed.

(** The runtime may change in anything but its readers' roles and states. *)
Definition readers_like (r r' : Runtime) : Prop :=
  ∀ rid, match Reader.readers r !! rid, Reader.readers r' !! rid with
         | Some x, Some x' => type_ x' = type_ x ∧ channel_id_ x' = channel_id_ x ∧ init_ x' = init_ x
         | None, None => True
         | _, _ => False
         end.

#[local] Instance readers_like_refl : Reflexive readers_like.
Proof. intros r rid. by destruct (Reader.readers r !! rid). Qed.

Lemma readers_like_insert r r' rid x x' :
  Reader.readers r !! rid = Some x → Reader.readers r' = <[rid := x']> (Reader.readers r) →
  type_ x' = type_ x → channel_id_ x' = channel_id_ x → init_ x' = init_ x → readers_like r r'.
Proof.
  intros Hx E E1 E2 E3 rid'. rewrite E. destruct (decide (rid = rid')) as [<-|Hne]; [by rewrite Hx, lookup_insert_eq|].
  rewrite lookup_insert_ne by done. by destruct (Reader.readers r !! rid').
Qed.

Lemma net_inv_rt N N' n b gone r :
  net_inv N n b gone → (N <= N')%nat → rt_inv Hash N' r → readers_like (rt n) r → net_inv N' (set_rt n r) b gone.
Proof.
  intros [[H1 H2 H3 H4 H5 H6] Hs Ht Hw Hrw Hrr] HN Hr Hlike. split; [|exact Hs|by destruct Ht|by destruct Hw|by destruct Hrw|by destruct Hrr].
  split; cbn [rt topo links count nodes reader_roles receiver_ set_rt]; try done.
  - by eapply names_inv_le.
  - intros rid x' Hx. specialize (Hlike rid). rewrite Hx in Hlike.
    destruct (Reader.readers (rt n) !! rid) as [x|] eqn:E; [|done]. destruct Hlike as (-> & -> & ->). by apply H5.
  - intros rid k Hx. destruct (H6 _ _ Hx) as (x & a & E & G). specialize (Hlike rid). rewrite E in Hlike.
    destruct (Reader.readers r !! rid) as [x'|]; [|done]. by exists x', a.
Qed.

Lemma extended_heard ids l l' c i : extended ids l l' → heard l c i → heard l' c i.
Proof.
  intros He (kr & rx & Hk & Hc & Hkn). destruct (ex_rx _ _ _ He _ _ Hk) as (rx' & Hk' & Ea & H).
  exists kr, rx'. unfold rx_chan in *. rewrite Ea. auto.
Qed.

(** The process after the reader [rid] of role [a] has come. *)
Section coming.
Context (N : nat) (n n' : Net) (b : Board) (gone : Z → Prop) (rid k : nat) (a : RoleAttributes) (ids : Z → Prop) (x : Reader) (now : Z).
Context (Hi : net_inv N n b gone) (Hnew : receiver_ n !! rid = None) (Hlt : (rid < count n)%nat) (Hc : (count n <= count n')%nat).
Context (Ha : role_ok (topo n) a) (Hid : Warehouse.id a = Some (uuid k)).
Context (Hr : renamed (topo n) (topo n')).
Context (Ero : reader_roles n' = <[rid := a]> (reader_roles n)) (Erc : receiver_ n' = <[rid := k]> (receiver_ n)).
Context (Hex : extended ids (links n) (links n')) (Hmap : receiver_map_ (links n') !! chan a = Some k).

Lemma coming_objects :
  rt_inv Hash (S N) (rt n') → Reader.readers (rt n') = <[rid := x]> (Reader.readers (rt n)) →
  type_ x = ty → channel_id_ x = cid a → init_ x = true → nodes n' = nodes n → names_inv Hash (S N) (topo n') →
  base (channel_manager (topo n')) = cm_base → objects_ok (S N) n'.
Proof using Hi Hnew Hlt Hc Ha Hid Hr Ero Erc Hex Hmap fuel.
  intros Hrt Erd Ext Exc Exi Eno Hn Eb. split; rewrite ?Eno, ?Erd, ?Ero, ?Erc; try done.
  - intros nid nd Hx. destruct (ob_nodes _ _ Hi _ _ Hx) as [G1 G2]. split; [by apply (node_ok_renamed _ _ _ Hr)|lia].
  - intros rid' y [[<- <-]|[Hne Hx]]%lookup_insert_Some.
    + split; [lia|]. split; [done|]. exists a. rewrite !lookup_insert_eq. split; [done|].
      split; [by apply (role_ok_renamed _ _ _ Hr)|]. split; [done|]. split; [by eexists|done].
    + destruct (ob_reader _ _ Hi _ _ Hx) as (G1 & G2 & ar & G3 & G4 & G5). split; [lia|]. split; [done|].
      exists ar. rewrite !lookup_insert_ne by done. split; [done|]. split; [by apply (role_ok_renamed _ _ _ Hr)|done].
  - intros rid' kr [[<- <-]|[Hne Hx]]%lookup_insert_Some.
    + exists x, a. by rewrite !lookup_insert_eq.
    + destruct (ob_receiver _ _ Hi _ _ Hx) as (y & ar & G1 & G2 & G3 & G4). exists y, ar. rewrite !lookup_insert_ne by done.
      split; [done|]. split; [done|]. split; [by apply Hex|done].
Qed.

Lemma coming_slots l c on :
  rewired l c on (writers n) (writers n') → change_signal (topo n') = change_signal (topo n) ++ [SlotReader rid] → slots_ok n'.
Proof using Hi Erc.
  intros Hre Es. apply (wired_slots n n' l c on Hi Hre). intros s.
  rewrite Es, elem_of_app, list_elem_of_singleton. destruct s as [rid'|wid']; [|by split; [intros [?|[=]]|left]].
  rewrite Erc, (nv_slots _ _ _ _ Hi (SlotReader rid')). destruct (decide (rid = rid')) as [<-|Hne].
  - rewrite lookup_insert_eq. split; [by eexists|by right].
  - rewrite lookup_insert_ne by done. split; [by intros [?|[= ->]]|by left].
Qed.

Lemma coming_transport :
  links_inv gone (links n') → (∀ o, ids o → ∃ j, (j < count n)%nat ∧ o = uuid j) →
  (∀ kr rx, receivers (links n') !! kr = Some rx → (kr < count n')%nat ∧ role_ok (topo n) (rx_attr rx)) → transport_ok n' gone.
Proof using Hi Hc Hr Hex uuid_inj fuel.
  intros Hl Hids Hrx. split; [done| |].
  - intros kr rx Hx. destruct (Hrx _ _ Hx) as [G1 G2]. split; [done|by apply (role_ok_renamed _ _ _ Hr)].
  - intros j Hj. destruct (tp_fresh _ _ Hi j ltac:(clear -Hj Hc; lia)) as [G1 G2]. split; [done|]. intros kr rx Hx Hkn.
    destruct (ex_back _ _ _ Hex _ _ _ Hx Hkn) as [Ho|(rx0 & Hx0 & Hkn0)]; [|by eapply G2].
    destruct (Hids _ Ho) as (j' & Hj' & He%(inj uuid)). clear -Hj Hj' He Hc. lia.
Qed.

Lemma coming_roster b' :
  st n' = ChannelManager_DisposeJoin (st n) (mkChangeMsg now CHANGE_CHANNEL OPT_JOIN ROLE_READER a) →
  b_present b' = {[(node_of a, chan a)]} ∪ b_present b → roster_readers n' b'.
Proof using Hi Hnew Ha Hid Hr Ero Erc Hex Hmap.
  intros Est Eb. split; rewrite Est, Eb; cbn [ChannelManager_DisposeJoin role_type channel_readers_].
  - intros key r [Hx|[= -> ->]%list_elem_of_singleton]%elem_of_app.
    + destruct (rr_role _ _ Hi _ _ Hx) as (G1 & G2 & G3 & G4 & kr & G5 & G6). split; [done|]. split; [done|].
      split; [by apply (role_ok_renamed _ _ _ Hr)|]. split; [by apply elem_of_union_r|]. exists kr. split; [by apply Hex|done].
    + cbn. split; [done|]. split; [done|]. split; [by apply (role_ok_renamed _ _ _ Hr)|].
      split; [by apply elem_of_union_l, elem_of_singleton|by exists k].
  - rewrite Ero, Erc. intros v c [[= -> ->]%elem_of_singleton|Hv]%elem_of_union.
    + split; [|exists rid, a; by rewrite !lookup_insert_eq]. exists (cid a), (mkRole KWriter a now). split; [|done].
      apply elem_of_app. right. by apply list_elem_of_singleton.
    + destruct (rr_all _ _ Hi _ _ Hv) as ((key & r & G1 & G2) & rid' & ar & [kr G3] & G4). split.
      * exists key, r. split; [apply elem_of_app; by left|done].
      * exists rid', ar. assert (rid ≠ rid') by congruence. rewrite !lookup_insert_ne by done. by split; [exists kr|].
Qed.
End coming.

Lemma extended_trans ids1 ids2 l1 l2 l3 :
  extended ids1 l1 l2 → extended ids2 l2 l3 → extended (λ o, ids1 o ∨ ids2 o) l1 l3.
Proof.
  intros [A1 A2 A3] [B1 B2 B3]. split; [auto| |].
  - intros k rx Hk. destruct (A2 _ _ Hk) as (rx1 & Hk1 & E1 & H1). destruct (B2 _ _ Hk1) as (rx2 & Hk2 & E2 & H2).
    exists rx2. split; [done|]. split; [congruence|auto].
  - intros k rx o Hk Hkn. destruct (B3 _ _ _ Hk Hkn) as [|(rx1 & Hk1 & Hkn1)]; [auto|].
    destruct (A3 _ _ _ Hk1 Hkn1); auto.
Qed.

(** The receiver of a reader's channel, and what it knows when the reader has joined. *)
Lemma joined_extended k rx rx' l l' (ids : Z → Prop) :
  receivers l !! k = Some rx → receiver_map_ l' = receiver_map_ l → receivers l' = <[k := rx']> (receivers l) →
  rx_attr rx' = rx_attr rx → (∀ o, knows rx' o ↔ ids o ∨ knows rx o) → extended ids l l'.
Proof.
  intros Hk Em Er Ea Hkn. split; [by rewrite Em| |]; rewrite Er.
  - intros k0 y Hy. destruct (decide (k = k0)) as [<-|Hne].
    + rewrite lookup_insert_eq. exists rx'. assert (y = rx) as -> by congruence. split; [done|]. split; [done|].
      intros o Ho. apply Hkn. by right.
    + rewrite lookup_insert_ne by done. by exists y.
  - intros k0 y o [[<- <-]|[Hne Hy]]%lookup_insert_Some Ho; [|right; by exists y].
    apply Hkn in Ho as [Ho|Ho]; [by left|right; by exists rx].
Qed.

(** A reader whose task was made gets its receiver and joins the topology. *)
Lemma Reader_Join_inv N now n b gone r1 rid a x :
  (N < fuel)%nat → net_inv N n b gone → receiver_ n !! rid = None → (rid < count n)%nat → role_ok (topo n) a →
  rt_inv Hash (S N) r1 → Reader.readers r1 = <[rid := x]> (Reader.readers (rt n)) →
  type_ x = ty → channel_id_ x = cid a → init_ x = true →
  ∃ n' k, (let '(n, k) := GetReceiver (set_rt n r1) a in
           let a := set_id a (uuid k) in
           n ← Reader_JoinTheTopology Hash fuel env tname now (set_receiver n rid a k) rid k a; Some (n, true)) = Some (n', true) ∧
    r1 = rt n' ∧ renamed (topo n) (topo n') ∧ (count n <= count n' <= S (count n))%nat ∧
    live_writers n' = live_writers n ∧ nodes n' = nodes n ∧ held n' = held n ∧
    reader_roles n' = <[rid := set_id a (uuid k)]> (reader_roles n) ∧ receiver_ n' = <[rid := k]> (receiver_ n) ∧
    net_inv (S N) n' (board_step b (ReaderComes (node_of a) (chan a))) gone.
Proof.
  intros HN Hi Hnone Hlt Hro Hrt Erd Ext Exc Exi.
  destruct (GetReceiver_spec N n b gone a Hi Hro) as (l & k & m & Eg & Hl & Hex & Hmap & Hm & Hk & Hother & Hrx).
  destruct (li_map _ _ _ _ _ _ Hl _ _ Hmap) as (rx & Hrxk & Hrxc).
  assert (GetReceiver (set_rt n r1) a = (mkNet r1 (topo n) l (reader_roles n) (receiver_ n) (writers n) (nodes n) (held n) m, k)) as ->.
  { transitivity (set_rt (GetReceiver n a).1 r1, (GetReceiver n a).2); [|by rewrite Eg].
    unfold Node.GetReceiver. cbn [links set_rt]. by destruct (receiver_map_ (links n) !! _). }
  set (a' := set_id a (uuid k)).
  destruct (Reader_Join_spec N now n b gone r1 l (<[rid := a']> (reader_roles n)) (<[rid := k]> (receiver_ n)) m rid k a' rx)
    as (g & l' & ws & rx' & Ej & Hn & Hren & Hl' & Hm' & Hk' & Ea & Hkn & Hre);
    [done..|by apply role_ok_set_id|by eexists|].
  cbn zeta in *. unfold set_receiver. cbn [rt topo links reader_roles receiver_ writers nodes held count]. fold a'. rewrite Ej.
  cbn [mbind option_bind]. set (t' := mkTopo g _ _ _) in *. set (n' := mkNet _ t' l' _ _ ws _ _ m).
  exists n', k. do 4 (split; [done|]). split; [by apply (rewired_live_writers n n' _ _ _ Hre)|]. do 4 (split; [done|]).
  set (ids := λ o, ∃ wid w, live n wid w ∧ chan (w_role w) = chan a' ∧ Warehouse.id (w_role w) = Some o).
  assert (extended (λ o, False ∨ ids o) (links n) (links n')) as Hext
    by (eapply extended_trans; [exact Hex|by apply (joined_extended k rx rx' l l' ids)]).
  assert (receiver_map_ (links n') !! chan a' = Some k) as Hmap' by (cbn [links n']; by rewrite Hm').
  assert (role_ok (topo n) a') as Ha' by by apply role_ok_set_id.
  split.
  - by apply (coming_objects N n n' b gone rid k a' (λ o, False ∨ ids o) x Hi); try done; apply Hm.
  - by apply (coming_slots N n n' b gone rid k Hi eq_refl _ _ _ Hre).
  - apply (coming_transport N n n' b gone (λ o, False ∨ ids o) Hi); try done; [apply Hm| |].
    + intros o [[]|(wid & w & Hw & _ & Ew)]. destruct (wr_live _ _ _ Hi _ _ Hw) as (j & on & G1 & _ & G2%wired_id & _).
      exists j. split; [done|]. congruence.
    + intros kr y. cbn [links n']. rewrite Hk'. intros [[<- <-]|[_ Hy]]%lookup_insert_Some; [|by apply Hrx].
      rewrite Ea. by apply Hrx.
  - apply (wired_writers n n' b _ gone _ _ _ Hi Hre); try done; [|apply Hm|intros c' i; by apply (extended_heard _ _ _ _ _ Hext)|].
    + intros wid w Hw. apply elem_of_app. left. apply (nv_slots _ _ _ _ Hi (SlotWriter wid)). by exists w.
    + intros _ wid w i Hw Ew Ec. exists k, rx'. cbn [links n']. rewrite Hk', lookup_insert_eq. split; [done|].
      split; [unfold rx_chan in *; by rewrite Ea|]. apply Hkn. left. by exists wid, w.
  - by apply (wired_roster n n' _ _ _ Hi Hre).
  - by apply (coming_roster N n n' b gone rid k a' (λ o, False ∨ ids o) now Hi).
Qed.

(** [Init] of a reader that is not initialised, as the runtime and the process see it. *)
Lemma Reader_Init_inv N now n rid r a gone b :
  (N < fuel)%nat → net_inv N n b gone → Reader.readers (rt n) !! rid = Some r → reader_roles n !! rid = Some a → init_ r = false →
  ∃ n' ok, Reader_Init now n rid = Some (n', ok) ∧ Init_task Hash fuel conf now (rt n) rid = Some (rt n', ok) ∧
    renamed (topo n) (topo n') ∧ (count n <= count n' <= S (count n))%nat ∧
    live_writers n' = live_writers n ∧ nodes n' = nodes n ∧ held n' = held n ∧
    if ok then ∃ i k, receiver_ n' = <[rid := k]> (receiver_ n) ∧ reader_roles n' !! rid = Some (set_id a i) ∧
                      net_inv (S N) n' (board_step b (ReaderComes (node_of a) (chan a))) gone
    else receiver_ n' = receiver_ n ∧ net_inv (S N) n' b gone.
Proof.
  intros HN Hi Hr Ha Hinit.
  destruct (ob_reader _ _ Hi _ _ Hr) as (Hlt & Hty & a' & Ha' & Hro & Hcid & Hrc). rewrite Ha in Ha'. injection Ha' as <-.
  destruct (Init_task_spec Hash Hash_u64 fuel conf Hgroups Hfuel N (rt n) now rid r HN (ob_rt _ _ Hi) Hr Hinit)
    as (w' & dv & q & ok & Ei & Hres).
  pose proof (init_state_inv _ _ _ _ _ _ _ _ _ (ob_rt _ _ Hi) Hr Hres) as Hrt.
  set (r1 := init_state (rt n) rid r w' dv q ok) in *. set (nm := (node_name_ r +:+ "_" +:+ channel_name_ r)%string).
  assert (Reader.readers r1 = <[rid := set_init r nm ok]> (Reader.readers (rt n))) as Erd by by destruct ok.
  unfold Node.Reader_Init. rewrite Hr, Ha, Hinit, Ei. cbn [mbind option_bind]. destruct ok; cbn [negb].
  2: { exists (set_rt n r1), false. do 3 (split; [done|]). split; [cbn; lia|]. do 4 (split; [done|]). apply (net_inv_rt N); [done|lia|done|].
       by apply (readers_like_insert _ _ rid r (set_init r nm false)). }
  assert (receiver_ n !! rid = None) as Hnone.
  { destruct (receiver_ n !! rid) eqn:E; [|done]. assert (init_ r = true) by (apply Hrc; by eexists). congruence. }
  destruct (Reader_Join_inv N now n b gone r1 rid a (set_init r nm true) HN Hi Hnone Hlt Hro) as (n' & k & E & Hp); try done.
  exists n', true. split; [exact E|]. destruct Hp as (<- & Hp1 & Hp2 & Hp3 & Hp4 & Hp5 & Hp6 & Hp7 & Hp8).
  do 6 (split; [done|]). exists (uuid k), k. split; [done|]. split; [by rewrite Hp6; apply lookup_insert_eq|done].
Qed.

(** ** A reader goes *)

#[local] Abbreviation Reader_Shutdown := (Reader_Shutdown Hash env tname).

Lemma Reader_Shutdown_spec N now n rid r a gone b :
  net_inv N n b gone → Reader.readers (rt n) !! rid = Some r → reader_roles n !! rid = Some a → init_ r = true →
  ∃ r1 ws, let msg := mkChangeMsg now CHANGE_CHANNEL OPT_LEAVE ROLE_READER a in
    let t' := mkTopo (names (topo n)) (mkManager cm_base (ChannelManager_DisposeLeave (st n) msg)) (node_manager (topo n))
                (filter (λ s, s ≠ SlotReader rid) (change_signal (topo n))) in
    Reader_Shutdown now n rid =
      Some (mkNet r1 t' (links n) (reader_roles n) (delete rid (receiver_ n)) ws (nodes n) (held n) (count n)) ∧
    Shutdown_task Hash (rt n) rid = Some r1 ∧ rt_inv Hash N r1 ∧
    Reader.readers r1 = <[rid := set_init r (croutine_name_ r) false]> (Reader.readers (rt n)) ∧
    rewired (filter (λ s, s ≠ SlotReader rid) (change_signal (topo n))) (chan a) false (writers n) ws.
Proof.
  intros Hi Hr Ha Hinit.
  destruct (ob_reader _ _ Hi _ _ Hr) as (_ & _ & a' & Ha' & Hro & _ & Hrc). rewrite Ha in Ha'. injection Ha' as <-.
  assert (is_Some (Warehouse.id a)) as Hid.
  { destruct (proj1 Hrc Hinit) as [k Hk]. destruct (ob_receiver _ _ Hi _ _ Hk) as (_ & a' & _ & Ha' & _ & E).
    rewrite Ha in Ha'. injection Ha' as <-. by eexists. }
  destruct (Shutdown_task_rt Hash fuel N (rt n) rid r (ob_rt _ _ Hi) Hr Hinit) as (r1 & Er1 & Hrt & Erd & _).
  set (msg := mkChangeMsg now CHANGE_CHANNEL OPT_LEAVE ROLE_READER a).
  set (t' := mkTopo (names (topo n)) (mkManager cm_base (ChannelManager_DisposeLeave (st n) msg)) (node_manager (topo n))
               (filter (λ s, s ≠ SlotReader rid) (change_signal (topo n)))).
  set (n1 := set_topo n t').
  destruct (announce_reader msg n1 (change_signal t')) as (ws & Ews & Hws); [done|by apply (role_here (topo n))|].
  exists r1, ws. cbn zeta. split; [|done]. unfold Node.Reader_Shutdown. rewrite Hr, Ha, Hinit. cbn [negb]. unfold cm_Leave.
  assert (Topology.Leave now (channel_manager (topo n)) a ROLE_READER = (mkManager cm_base (ChannelManager_DisposeLeave (st n) msg), [Notified msg], false))
    as Ej by (apply (cm_leave (topo n)); [apply Hi|by right|done|done]).
  match goal with |- context [Topology.Leave now ?m a _] => change m with (channel_manager (topo n)) end. rewrite Ej.
  unfold announce. cbn [foldl].
  match goal with |- context [foldl _ ?m (change_signal (topo ?m))] => change m with n1; change (change_signal (topo n1)) with (change_signal t') end.
  rewrite Ews. cbn [rt drop_receiver set_writers n1 set_topo]. by rewrite Er1.
Qed.

(** Readers of one channel and node look alike to a leave. *)
Lemma reader_matches N n b gone key ro a k :
  net_inv N n b gone → (key, ro) ∈ channel_readers_ (st n) → role_ok (topo n) a →
  receiver_map_ (links n) !! chan a = Some k → Warehouse.id a = Some (uuid k) →
  (key = cid a ∧ Match ro a = true) ↔ (node_of (attributes_ ro), chan (attributes_ ro)) = (node_of a, chan a).
Proof.
  intros Hi Hx Ha Hk Hid. destruct (rr_role _ _ Hi _ _ Hx) as (Hkind & -> & Ho & _ & k' & Hk' & Hid').
  rewrite (removed_role (topo n) ro a (uuid k)) by done. pose proof (same_channel _ _ _ _ (ob_names _ _ Hi) Ho Ha) as Hc.
  destruct (ro_node _ _ Ho) as (i & Ei & Hi1). destruct (ro_node _ _ Ha) as (j & Ej & Hj1). rewrite Ei, Ej, Hid'. cbn.
  pose proof (named_inj Hash N (topo n) KNode _ _ _ _ (ob_names _ _ Hi) Hi1 Hj1) as Hn. split.
  - intros (E1 & _ & [= E2] & _). f_equal; [by apply Hn|by apply Hc].
  - intros [= E1 E2]. split; [by apply Hc|]. split; [by apply Hc|]. split; [f_equal; by apply Hn|]. rewrite E2 in Hk'. congruence.
Qed.

(** The process after the reader [rid] of role [a] has gone. *)
Section going.
Context (N : nat) (n n' : Net) (b : Board) (gone : Z → Prop) (rid k : nat) (a : RoleAttributes) (r : Reader).
Context (Hi : net_inv N n b gone) (Er : Reader.readers (rt n) !! rid = Some r) (Ea : reader_roles n !! rid = Some a) (Ek : receiver_ n !! rid = Some k).
Context (Hr : renamed (topo n) (topo n')) (Ero : reader_roles n' = reader_roles n) (Erc : receiver_ n' = delete rid (receiver_ n))
  (El : links n' = links n) (Ec : count n' = count n).

Lemma going_objects x :
  rt_inv Hash N (rt n') → Reader.readers (rt n') = <[rid := x]> (Reader.readers (rt n)) →
  type_ x = type_ r → channel_id_ x = channel_id_ r → init_ x = false → nodes n' = nodes n → names_inv Hash N (topo n') →
  base (channel_manager (topo n')) = cm_base → objects_ok N n'.
Proof using Hi Er Ea Ek Hr Ero Erc El Ec.
  intros Hrt Erd Ext Exc Exi Eno Hn Eb. split; rewrite ?Eno, ?Erd, ?Ero, ?Erc, ?El, ?Ec; try done.
  - intros nid nd Hx. destruct (ob_nodes _ _ Hi _ _ Hx) as [G1 G2]. split; [by apply (node_ok_renamed _ _ _ Hr)|done].
  - intros rid' y [[<- <-]|[Hne Hx]]%lookup_insert_Some.
    + destruct (ob_reader _ _ Hi _ _ Er) as (G1 & G2 & ar & G3 & G4 & G5 & _). rewrite Ext, Exc, Exi. split; [done|]. split; [done|].
      exists ar. split; [done|]. split; [by apply (role_ok_renamed _ _ _ Hr)|]. split; [done|].
      rewrite lookup_delete_eq. split; [done|by intros [? ?]].
    + destruct (ob_reader _ _ Hi _ _ Hx) as (G1 & G2 & ar & G3 & G4 & G5 & G6). split; [done|]. split; [done|]. exists ar.
      split; [done|]. split; [by apply (role_ok_renamed _ _ _ Hr)|]. split; [done|]. by rewrite lookup_delete_ne.
  - intros rid' kr [Hne Hx]%lookup_delete_Some. destruct (ob_receiver _ _ Hi _ _ Hx) as (y & ar & G1 & G2).
    exists y, ar. by rewrite lookup_insert_ne.
Qed.

Lemma going_slots l c on :
  rewired l c on (writers n) (writers n') → change_signal (topo n') = filter (λ s, s ≠ SlotReader rid) (change_signal (topo n)) →
  slots_ok n'.
Proof using Hi Erc.
  intros Hre Es. apply (wired_slots n n' l c on Hi Hre). intros s.
  rewrite Es, list_elem_of_filter. destruct s as [rid'|wid']; [|by split; [intros [_ ?]|split]].
  rewrite Erc, (nv_slots _ _ _ _ Hi (SlotReader rid')). destruct (decide (rid = rid')) as [<-|Hne].
  - rewrite lookup_delete_eq. split; [by intros [? _]|by intros [? ?]].
  - rewrite lookup_delete_ne by done. split; [by intros [_ ?]|]. split; [congruence|done].
Qed.

Lemma going_roster b' now :
  st n' = ChannelManager_DisposeLeave (st n) (mkChangeMsg now CHANGE_CHANNEL OPT_LEAVE ROLE_READER a) →
  b_present b' = b_present b ∖ {[(node_of a, chan a)]} → roster_readers n' b'.
Proof using Hi Ea Ek Hr Ero Erc El.
  intros Est Eb. destruct (ob_receiver _ _ Hi _ _ Ek) as (x & a' & Hx & Ha' & Hm & Hid). rewrite Ea in Ha'. injection Ha' as <-.
  destruct (ob_reader _ _ Hi _ _ Hx) as (_ & _ & a' & Ha' & Hro & _). rewrite Ea in Ha'. injection Ha' as <-.
  pose proof (λ key ro H, reader_matches N n b gone key ro a k Hi H Hro Hm Hid) as Hmatch.
  split; rewrite Est, Eb; cbn [ChannelManager_DisposeLeave role_type channel_readers_].
  - intros key ro [Hno Hin]%list_elem_of_filter. destruct (rr_role _ _ Hi _ _ Hin) as (G1 & G2 & G3 & G4 & G5). split; [done|]. split; [done|].
    split; [by apply (role_ok_renamed _ _ _ Hr)|]. rewrite El. split; [|done]. apply elem_of_difference. split; [done|].
    rewrite elem_of_singleton. intros He. apply Hno. by apply (Hmatch key ro Hin).
  - rewrite Ero, Erc. intros v c [Hv Hne]%elem_of_difference. rewrite elem_of_singleton in Hne.
    destruct (rr_all _ _ Hi _ _ Hv) as ((key & ro & G1 & <- & <-) & rid' & ar & [kr G3] & G4 & G5 & G6). split.
    + exists key, ro. split; [|done]. apply list_elem_of_filter. split; [|done]. intros Hin. apply Hne. by apply (Hmatch key ro G1).
    + exists rid', ar. assert (rid ≠ rid') as Hrid by (intros <-; apply Hne; congruence). rewrite lookup_delete_ne by done.
      by split; [exists kr|].
Qed.
End going.

Lemma Reader_Shutdown_inv N now n rid r a gone b :
  net_inv N n b gone → Reader.readers (rt n) !! rid = Some r → reader_roles n !! rid = Some a → init_ r = true →
  ∃ n', Reader_Shutdown now n rid = Some n' ∧ Shutdown_task Hash (rt n) rid = Some (rt n') ∧
    renamed (topo n) (topo n') ∧ count n' = count n ∧
    live_writers n' = live_writers n ∧ nodes n' = nodes n ∧ held n' = held n ∧ reader_roles n' = reader_roles n ∧
    receiver_ n' = delete rid (receiver_ n) ∧ is_Some (receiver_ n !! rid) ∧
    net_inv N n' (board_step b (ReaderGoes (node_of a) (chan a))) gone.
Proof.
  intros Hi Hr Ha Hinit. destruct (Reader_Shutdown_spec N now n rid r a gone b Hi Hr Ha Hinit) as (r1 & ws & E & Es & Hrt & Erd & Hre).
  cbn zeta in *. set (t' := mkTopo (names (topo n)) _ _ _) in *. set (n' := mkNet _ _ _ _ _ _ _ _ _) in *.
  destruct (ob_reader _ _ Hi _ _ Hr) as (_ & _ & a' & _ & _ & _ & Hrc). destruct (proj1 Hrc Hinit) as [k Hk].
  assert (renamed (topo n) (topo n')) as Hren by by intros ???.
  exists n'. do 4 (split; [done|]). split; [by apply (rewired_live_writers n n' _ _ _ Hre)|]. do 4 (split; [done|]).
  split; [by exists k|]. split.
  - apply (going_objects N n n' b gone rid k a r Hi Hr Ha Hk Hren eq_refl eq_refl eq_refl eq_refl _ Hrt Erd); try done; apply (ob_names _ _ Hi).
  - by apply (going_slots N n n' b gone rid Hi eq_refl _ _ _ Hre).
  - by apply (transport_renamed n n' gone Hi).
  - apply (wired_writers n n' b _ gone _ _ _ Hi Hre); try done.
    intros wid w Hw. apply list_elem_of_filter. split; [done|]. apply (nv_slots _ _ _ _ Hi (SlotWriter wid)). by exists w.
  - by apply (wired_roster n n' _ _ _ Hi Hre).
  - by apply (going_roster N n n' b gone rid k a Hi Ha Hk Hren eq_refl eq_refl eq_refl _ now).
Qed.

(** ** The rest of the calls *)

Definition like (x x' : Reader) : Prop := type_ x' = type_ x ∧ channel_id_ x' = channel_id_ x ∧ init_ x' = init_ x.

(** A change in which nobody comes or goes: objects may be new, but are not initialised. *)
Record quiet (N' : nat) n n' : Prop := {
  qt_count : (count n <= count n')%nat;
  qt_rt : rt_inv Hash N' (rt n');
  qt_readers : ∀ rid x', Reader.readers (rt n') !! rid = Some x' →
    (∃ x, Reader.readers (rt n) !! rid = Some x ∧ like x x') ∨
    (rid = count n ∧ (rid < count n')%nat ∧ type_ x' = ty ∧ init_ x' = false ∧
     ∃ a, reader_roles n' !! rid = Some a ∧ role_ok (topo n') a ∧ channel_id_ x' = cid a);
  qt_kept : ∀ rid x, Reader.readers (rt n) !! rid = Some x → is_Some (Reader.readers (rt n') !! rid);
  qt_roles : ∀ rid, (rid < count n)%nat → reader_roles n' !! rid = reader_roles n !! rid;
  qt_receiver : receiver_ n' = receiver_ n;
  qt_links : links n' = links n;
  qt_names : names_inv Hash N' (topo n');
  qt_renamed : renamed (topo n) (topo n');
  qt_manager : channel_manager (topo n') = channel_manager (topo n);
  qt_slots : change_signal (topo n') = change_signal (topo n);
  qt_nodes : ∀ nid nd, nodes n' !! nid = Some nd → node_ok (topo n') (node_attr_ nd) ∧ (size (readers_ nd) <= count n')%nat;
  qt_writers : ∀ wid w', writers n' !! wid = Some w' →
    (∃ w, writers n !! wid = Some w ∧ w_role w' = w_role w ∧ w_init w' = w_init w ∧ ∀ i on, wired w i on → wired w' i on) ∨
    (wid = count n ∧ (wid < count n')%nat ∧ w_init w' = false ∧ role_ok (topo n') (w_role w'));
  qt_writers_kept : ∀ wid w, writers n !! wid = Some w → ∃ w', writers n' !! wid = Some w' ∧ w_role w' = w_role w ∧ w_init w' = w_init w
}.

Lemma quiet_live N' n n' wid w' :
  quiet N' n n' → live n' wid w' →
  ∃ w, live n wid w ∧ w_role w' = w_role w ∧ ∀ i on, wired w i on → wired w' i on.
Proof.
  intros Hq [Hw Hi]. destruct (qt_writers _ _ _ Hq _ _ Hw) as [(w & G1 & G2 & G3 & G4)|(_ & _ & ? & _)]; [|congruence].
  exists w. split; [split; [done|congruence]|done].
Qed.

Lemma quiet_live_forth N' n n' wid w : quiet N' n n' → live n wid w → ∃ w', live n' wid w' ∧ w_role w' = w_role w.
Proof.
  intros Hq [Hw Hi]. destruct (qt_writers_kept _ _ _ Hq _ _ Hw) as (w' & G1 & G2 & G3).
  exists w'. split; [split; [done|congruence]|done].
Qed.

Lemma quiet_live_writers N' n n' : quiet N' n n' → live_writers n' = live_writers n.
Proof.
  intros Hq. apply set_eq. intros wid. rewrite !elem_of_live. split.
  - intros [w' Hw]. destruct (quiet_live _ _ _ _ _ Hq Hw) as (w & Hw0 & _). by exists w.
  - intros [w Hw]. destruct (quiet_live_forth _ _ _ _ _ Hq Hw) as (w' & Hw0 & _). by exists w'.
Qed.

Lemma quiet_writers N' n n' b gone : writers_ok n b gone → quiet N' n n' → writers_ok n' b gone.
Proof.
  intros [H1 H2 H3 H4] Hq. pose proof (qt_renamed _ _ _ Hq) as Hr. pose proof (qt_count _ _ _ Hq) as Hc. split.
  - intros wid w' Hw. destruct (qt_writers _ _ _ Hq _ _ Hw) as [(w & Hw0 & -> & _)|(-> & ? & _ & ?)]; [|by split].
    destruct (H1 _ _ Hw0). split; [lia|by apply (role_ok_renamed _ _ _ Hr)].
  - intros wid w' Hw. destruct (quiet_live _ _ _ _ _ Hq Hw) as (w & Hw0 & -> & Hwi). destruct (H2 _ _ Hw0) as (k & on & G1 & G2 & G3 & G4).
    exists k, on. rewrite (qt_links _ _ _ Hq). split; [lia|]. split; [done|]. split; [by apply Hwi|done].
  - intros wid x Hx. destruct (H3 _ _ Hx) as [w Hw]. destruct (quiet_live_forth _ _ _ _ _ Hq Hw) as (w' & Hw' & _). by exists w'.
  - intros w1 w2 r1 r2 Hx1 Hx2. destruct (quiet_live _ _ _ _ _ Hq Hx1) as (w & Hw & -> & _).
    destruct (quiet_live _ _ _ _ _ Hq Hx2) as (y & Hy & -> & _). by eapply H4.
Qed.

Lemma quiet_objects N N' n n' : objects_ok N n → quiet N' n n' → objects_ok N' n'.
Proof.
  intros [H1 H2 H3 H4 H5 H6] Hq. pose proof (qt_renamed _ _ _ Hq) as Hr. pose proof (qt_count _ _ _ Hq) as Hc.
  split; rewrite ?(qt_receiver _ _ _ Hq), ?(qt_links _ _ _ Hq), ?(qt_manager _ _ _ Hq); try done; try apply Hq.
  - intros rid x' Hx. destruct (qt_readers _ _ _ Hq _ _ Hx) as [(x & Hx0 & -> & -> & ->)|(-> & G1 & G2 & G3 & a & G4 & G5 & G6)].
    + destruct (H5 _ _ Hx0) as (G1 & G2 & a & G3 & G4 & G5). split; [lia|]. split; [done|]. exists a. rewrite (qt_roles _ _ _ Hq) by done.
      split; [done|]. split; [by apply (role_ok_renamed _ _ _ Hr)|done].
    + split; [lia|]. split; [done|]. exists a. split; [done|]. split; [done|]. split; [done|]. rewrite G3. split; [done|].
      intros [k Hk]. destruct (H6 _ _ Hk) as (x & _ & Hx0 & _). destruct (H5 _ _ Hx0) as [? _]. lia.
  - intros rid k Hk. destruct (H6 _ _ Hk) as (x & a & Hx & Ha & G). destruct (qt_kept _ _ _ Hq _ _ Hx) as [x' Hx']. exists x', a.
    split; [done|]. rewrite (qt_roles _ _ _ Hq) by (by eapply H5). done.
Qed.

Lemma net_inv_quiet N N' n n' b gone : net_inv N n b gone → quiet N' n n' → net_inv N' n' b gone.
Proof.
  intros Hi Hq. pose proof (qt_renamed _ _ _ Hq) as Hr. pose proof (qt_manager _ _ _ Hq) as Em. split.
  - exact (quiet_objects N N' n n' Hi Hq).
  - intros s. rewrite (qt_slots _ _ _ Hq), (qt_receiver _ _ _ Hq), (nv_slots _ _ _ _ Hi s). destruct s as [rid|wid]; [done|].
    split; intros [w Hw].
    + destruct (quiet_live_forth _ _ _ _ _ Hq Hw) as (w' & Hw' & _). by exists w'.
    + destruct (quiet_live _ _ _ _ _ Hq Hw) as (w' & Hw' & _). by exists w'.
  - apply (transport_renamed n n' gone Hi); [apply Hq|done|apply Hq].
  - by apply (quiet_writers N' n n' b gone Hi).
  - split; rewrite Em.
    + intros key r Hx. destruct (rw_role _ Hi _ _ Hx) as (wid & w & G1 & G2 & G3 & G4).
      destruct (quiet_live_forth _ _ _ _ _ Hq G1) as (w' & Hw' & Ew). exists wid, w'. by rewrite Ew.
    + intros wid w' Hx. destruct (quiet_live _ _ _ _ _ Hq Hx) as (w & Hw & -> & _). by apply (rw_all _ Hi wid).
  - split; rewrite Em, ?(qt_links _ _ _ Hq), ?(qt_receiver _ _ _ Hq).
    + intros key r Hx. destruct (rr_role _ _ Hi _ _ Hx) as (G1 & G2 & G3 & G4). split; [done|]. split; [done|].
      split; [by apply (role_ok_renamed _ _ _ Hr)|done].
    + intros v c Hv. destruct (rr_all _ _ Hi _ _ Hv) as (G1 & rid & a & [k Hk] & Ha & G2). split; [done|]. exists rid, a.
      split; [by exists k|]. destruct (ob_receiver _ _ Hi _ _ Hk) as (x & _ & Hx & _).
      rewrite (qt_roles _ _ _ Hq) by (by eapply (ob_reader _ _ Hi)). done.
Qed.

(** Steps that leave transport and writers alone. *)
Lemma quiet_same N N' n n' b gone :
  net_inv N n b gone → (count n <= count n')%nat → rt_inv Hash N' (rt n') → readers_like (rt n) (rt n') →
  names_inv Hash N' (topo n') → renamed (topo n) (topo n') → channel_manager (topo n') = channel_manager (topo n) →
  change_signal (topo n') = change_signal (topo n) → links n' = links n → reader_roles n' = reader_roles n →
  receiver_ n' = receiver_ n → writers n' = writers n →
  (∀ nid nd, nodes n' !! nid = Some nd → node_ok (topo n') (node_attr_ nd) ∧ (size (readers_ nd) <= count n')%nat) →
  quiet N' n n'.
Proof.
  intros Hi Hc Hrt Hl Hn Hr Em Es El Er Erc Ew Hno. split; try done.
  - intros rid x' Hx. left. specialize (Hl rid). rewrite Hx in Hl. destruct (Reader.readers (rt n) !! rid) as [x|]; [|done].
    by exists x.
  - intros rid x Hx. specialize (Hl rid). rewrite Hx in Hl. by destruct (Reader.readers (rt n') !! rid).
  - intros rid _. by rewrite Er.
  - intros wid w. rewrite Ew. intros Hw. left. by exists w.
  - intros wid w. rewrite Ew. intros Hw. by exists w.
Qed.

Lemma net_inv_le N N' n b gone : (N <= N')%nat → net_inv N n b gone → net_inv N' n b gone.
Proof.
  intros HN Hi. apply (net_inv_quiet N _ n); [done|]. apply (quiet_same N N' n n b gone); try done; try (by eapply (ob_nodes _ _ Hi)).
  - by apply (rt_inv_le N), Hi.
  - by eapply names_inv_le, (ob_names _ _ Hi).
Qed.

(** Names are added to the registries. *)
Lemma net_inv_names N n b gone t :
  net_inv N n b gone → names_inv Hash (S N) t → renamed (topo n) t →
  channel_manager t = channel_manager (topo n) → change_signal t = change_signal (topo n) → net_inv (S N) (set_topo n t) b gone.
Proof.
  intros Hi Hn Hr Em Es. apply (net_inv_quiet N _ n); [done|]. apply (quiet_same N (S N) n _ b gone); try done.
  - apply rt_inv_S, Hi.
  - intros nid nd Hx. destruct (ob_nodes _ _ Hi _ _ Hx). split; [by apply (node_ok_renamed _ _ _ Hr)|done].
Qed.

(** The nodes' tables and the user's pointers. *)
Lemma net_inv_nodes N n b gone n' :
  net_inv N n b gone → rt n' = rt n → topo n' = topo n → links n' = links n → reader_roles n' = reader_roles n →
  receiver_ n' = receiver_ n → writers n' = writers n → count n' = count n →
  (∀ nid nd, nodes n' !! nid = Some nd → ∃ nd0, nodes n !! nid = Some nd0 ∧ node_attr_ nd = node_attr_ nd0 ∧
     (size (readers_ nd) <= count n)%nat) →
  net_inv N n' b gone.
Proof.
  intros Hi Er Et El Ero Erc Ew Ec Hno. apply (net_inv_quiet N _ n); [done|].
  apply (quiet_same N N n n' b gone); rewrite ?Et; try done; [by rewrite Ec|rewrite Er; apply Hi|by rewrite Er|apply Hi|].
  intros nid nd Hx. destruct (Hno _ _ Hx) as (nd0 & Hx0 & -> & Hs). rewrite Ec. split; [by eapply (ob_nodes _ _ Hi)|done].
Qed.

(** ** Roles as nodes fill them in *)


(** ** New objects *)

Lemma FillInAttr_spec N t na a desc :
  (N < fuel)%nat → names_inv Hash N t → node_ok t na → has_channel a = true →
  ∃ g a', Node.FillInAttr Hash fuel tname desc t na a = Some (set_names t g, a') ∧ names_inv Hash (S N) (set_names t g) ∧
    renamed t (set_names t g) ∧ role_ok (set_names t g) a' ∧ chan a' = chan a.
Proof using Hash_u64 Hfuel.
  intros HN Hn [E1 E2 E3 (i & v & E4 & E5 & E6)] Hc. unfold Node.FillInAttr. change (get_str (channel_name a)) with (chan a).
  destruct (channel_key_spec Hash Hash_u64 fuel Hfuel N t (chan a) HN Hn) as (g & key & -> & Hn' & Hk & Hr).
  cbn [mbind option_bind]. eexists g, _. split; [reflexivity|]. split; [done|]. split; [done|]. split; [|done].
  apply andb_prop in Hc as [Hc _]. apply bool_decide_eq_true in Hc. rewrite E1, E2, E3, E4, E5.
  split; try done. exists i. split; [done|]. by apply Hr.
Qed.

Lemma new_writer_inv N n b gone g a :
  net_inv N n b gone → names_inv Hash (S N) (set_names (topo n) g) → renamed (topo n) (set_names (topo n) g) →
  role_ok (set_names (topo n) g) a →
  let n' := next (set_writer (set_topo n (set_names (topo n) g)) (count n) (mkWriter a None false)) in
  net_inv (S N) n' b gone ∧ live_writers n' = live_writers n.
Proof.
  intros Hi Hn Hr Ha n'.
  assert (∀ wid w, writers n !! wid = Some w → count n ≠ wid) as Hne by (intros wid w Hw <-; apply (wr_writer _ _ _ Hi) in Hw as [? _]; lia).
  assert (quiet (S N) n n') as Hq; [|split; [by apply (net_inv_quiet N _ n)|by eapply quiet_live_writers]].
  split; try done; cbn [n' next set_writer set_topo count rt topo writers Reader.readers nodes].
  - lia.
  - apply rt_inv_S, Hi.
  - intros rid x' Hx. left. by exists x'.
  - intros nid nd Hx. destruct (ob_nodes _ _ Hi _ _ Hx). split; [by apply (node_ok_renamed _ _ _ Hr)|lia].
  - intros wid w' [[<- <-]|[_ Hw]]%lookup_insert_Some; [right; split; [done|]; split; [lia|done]|left; by exists w'].
  - intros wid w Hw. exists w. rewrite lookup_insert_ne by by eapply Hne. done.
Qed.

Lemma new_reader_inv N n b gone g a f size :
  net_inv N n b gone → names_inv Hash (S N) (set_names (topo n) g) → renamed (topo n) (set_names (topo n) g) →
  role_ok (set_names (topo n) g) a →
  let n' := new_reader ty (set_topo n (set_names (topo n) g)) a f size in
  net_inv (S N) n' b gone ∧ live_writers n' = live_writers n ∧ Reader.readers (rt n) !! count n = None.
Proof.
  intros Hi Hn Hr Ha n'. pose proof (ro_cid _ _ Ha) as [_ [Hu _]].
  assert (Reader.readers (rt n) !! count n = None) as Hnone.
  { destruct (Reader.readers (rt n) !! count n) eqn:E; [|done]. apply (ob_reader _ _ Hi) in E as [? _]. lia. }
  assert (quiet (S N) n n') as Hq; [|split; [by apply (net_inv_quiet N _ n)|split; [by eapply quiet_live_writers|done]]].
  destruct (step_new Hash fuel conf N (rt n) (count n) (get_str (node_name a)) (get_str (channel_name a)) (get_num (channel_id a)) ty
    (Z.to_nat (depth (qos a).1)) f size (ob_rt _ _ Hi) Hu) as (r' & E & Hrt & _).
  cbn in E. rewrite Hnone in E. injection E as <-.
  split; try done; cbn [n' new_reader set_topo count rt topo writers nodes set_reader Reader.readers reader_roles].
  - lia.
  - intros rid x' [[<- <-]|[_ Hx]]%lookup_insert_Some; [right|left; by exists x'].
    split; [done|]. split; [lia|]. split; [done|]. split; [done|]. exists a. by rewrite lookup_insert_eq.
  - intros rid x Hx. rewrite lookup_insert_is_Some. destruct (decide (count n = rid)); [by left|right]. by split; [|eexists].
  - intros rid Hlt. by rewrite lookup_insert_ne by lia.
  - intros nid nd Hx. destruct (ob_nodes _ _ Hi _ _ Hx). split; [by apply (node_ok_renamed _ _ _ Hr)|lia].
  - intros wid w Hw. left. by exists w.
  - intros wid w Hw. by exists w.
Qed.

Lemma Node_new_inv N now n name b gone :
  (N < fuel)%nat → net_inv N n b gone →
  ∃ n' k, Node_new Hash fuel host ip pid now n name = Some (n', k) ∧ rt n' = rt n ∧ renamed (topo n) (topo n') ∧
    same_comers n n' ∧ count n' = S (count n) ∧ net_inv (S N) n' b gone.
Proof using Hash_u64 Hfuel.
  intros HN Hi. unfold Node_new.
  destruct (node_key_spec Hash Hash_u64 fuel Hfuel N (topo n) name HN (ob_names _ _ Hi)) as (g & i & -> & Hn & Hk & Hr).
  cbn [mbind option_bind]. set (a := mkRoleAttributes _ _ _ _ _ _ _ _ _ _ _ _ _).
  destruct (Topology.Join _ _ _ _ _) as [[m es] x]. eexists _, _. split; [reflexivity|]. do 4 (split; [done|]).
  apply (net_inv_quiet N _ n); [done|]. apply (quiet_same N (S N) n _ b gone); try done; cbn [count rt topo nodes next set_node set_topo].
  - lia.
  - apply rt_inv_S, Hi.
  - intros nid nd [[<- <-]|[_ Hx]]%lookup_insert_Some; cbn.
    + split; [|rewrite map_size_empty; lia]. split; try done. by exists i, name.
    + destruct (ob_nodes _ _ Hi _ _ Hx). split; [by apply (node_ok_renamed (topo n))|lia].
Qed.

Lemma has_peers_inv N n b gone c :
  (N < fuel)%nat → net_inv N n b gone →
  ∃ g key, channel_key Hash fuel (topo n) c = Some (set_names (topo n) g, key) ∧ net_inv (S N) (set_topo n (set_names (topo n) g)) b gone.
Proof using Hash_u64 Hfuel.
  intros HN Hi. destruct (channel_key_spec Hash Hash_u64 fuel Hfuel N (topo n) c HN (ob_names _ _ Hi)) as (g & key & -> & Hn & _ & Hr).
  exists g, key. split; [done|]. by apply net_inv_names.
Qed.

(** ** Data, turns, tasks and messages *)

#[local] Instance readers_like_trans : Transitive readers_like.
Proof.
  intros r1 r2 r3 H1 H2 rid. specialize (H1 rid). specialize (H2 rid).
  destruct (Reader.readers r1 !! rid), (Reader.readers r2 !! rid), (Reader.readers r3 !! rid); try done.
  destruct H1 as (-> & -> & ->) in H2. done.
Qed.

Lemma readers_like_same r r' : Reader.readers r' = Reader.readers r → readers_like r r'.
Proof. intros E rid. rewrite E. by destruct (Reader.readers r !! rid). Qed.

Lemma fetch_like r p rid v : readers_like r (fetch r p rid v).
Proof.
  unfold fetch. destruct (TryFetch1 (world r) v) as [[v' [|z|l]]|]; try by apply readers_like_same.
  unfold func. cbn [Reader.readers]. destruct (Reader.readers r !! rid) as [x|] eqn:E; [|by apply readers_like_same].
  by apply (readers_like_insert r _ rid x (Reader_Enqueue x (Z.to_nat z))).
Qed.

(** No call but [Init] and [Shutdown] initialises a reader or takes it down. *)
Definition steady (op : RtOp) : Prop :=
  match op with OpNew _ _ _ _ _ _ _ _ | OpInit _ _ | OpShutdown _ => False | _ => True end.

Lemma steady_like r r' op : steady op → rt_step Hash fuel conf r op = Some r' → readers_like r r'.
Proof.
  destruct op as [| | |rid d|ty' ch m|now g slice|now name]; try done; intros _; cbn [rt_step].
  - destruct (Reader.readers r !! rid) as [x|] eqn:E; intros [= <-]; [|done].
    eapply readers_like_insert; [done|done|by destruct d..].
  - unfold on_message. intros (q & _ & [= <-])%bind_Some. by apply readers_like_same.
  - intros ([r1 x] & E & [= <-])%fmap_Some. unfold Processor_turn in E.
    destruct (ClassicContext_NextRoutine _ _ _) as [s [p|]]; [|injection E as <- _; by apply readers_like_same].
    cbn [routines set_process] in E. destruct (routines r !! p) as [[rid v]|].
    + apply bind_Some in E as (c & _ & E). apply bind_Some in E as (s' & _ & E). injection E as <- _.
      set (r2 := set_process r _). assert (readers_like r r2) as H2 by by apply readers_like_same.
      etrans; [|by apply readers_like_same]. destruct (_ && _); [|exact H2]. etrans; [exact H2|apply fetch_like].
    + apply bind_Some in E as (s' & _ & E). injection E as <- _. by apply readers_like_same.
  - unfold create_task. intros ([q x] & _ & [= <-])%bind_Some. by apply readers_like_same.
Qed.

Lemma steady_inv N n b gone op :
  (N < fuel)%nat → net_inv N n b gone → rt_op_ok op → steady op →
  ∃ r, rt_step Hash fuel conf (rt n) op = Some r ∧ net_inv (S N) (set_rt n r) b gone.
Proof using Hash_u64 Hfuel Hgroups.
  intros HN Hi Hok Hs. destruct (step_all Hash Hash_u64 fuel conf Hgroups Hfuel N (rt n) op HN Hok (ob_rt _ _ Hi)) as (r & E & Hrt & _).
  exists r. split; [done|]. apply (net_inv_rt N); [done|lia|done|by eapply steady_like].
Qed.

(** Several of them. *)
Lemma steady_run N n b gone ops :
  (N + length ops <= fuel)%nat → net_inv N n b gone → Forall rt_op_ok ops → Forall steady ops →
  ∃ r, rt_run Hash fuel conf (rt n) ops = Some r ∧ net_inv (N + length ops) (set_rt n r) b gone.
Proof using Hash_u64 Hfuel Hgroups.
  revert N n. induction ops as [|op ops IH]; intros N n HN Hi Hok Hs.
  - exists (rt n). split; [done|]. cbn. rewrite Nat.add_0_r. by destruct n.
  - apply Forall_cons in Hok as [Hop Hok]. apply Forall_cons in Hs as [Hsop Hs]. cbn [length] in *.
    destruct (steady_inv N n b gone op ltac:(lia) Hi Hop Hsop) as (r & E & Hi').
    destruct (IH (S N) (set_rt n r) ltac:(lia) Hi' Hok Hs) as (r' & E' & Hi''). exists r'. rewrite rt_run_cons, E.
    split; [exact E'|]. by rewrite <- Nat.add_succ_comm.
Qed.

(** ** A message is written *)

Lemma Transmit_wired w h i on (m : nat) h' ms :
  wired w i on → w_transmitter w = Some (h, i) → Transmit h m = (h', ms) →
  (INTRA ∈ ms ↔ on = true) ∧ ∀ x, wired (mkWriter (w_role w) (Some (h', i)) x) i on.
Proof.
  intros (E & h0 & E1 & Hh & Hm & Ht) Eh Etr. rewrite Eh in E1. injection E1 as <-. unfold Transmit in Etr. injection Etr as <- <-. split.
  - rewrite list_elem_of_filter, Ht. cbn. split; [by intros [[= ->] _]|]. intros ->. split; [done|]. right. by left.
  - intros x. split; [done|]. eexists. by split.
Qed.

(** The channel of an event. *)
Lemma message_events N t a c ch p r (m : nat) :
  names_inv Hash N t → role_ok t a → named t KChannel ch c →
  mb_events Hash fuel conf p ty ch r [OpMessage ty (cid a) m] = if decide (chan a = c) then [Put m] else [].
Proof.
  intros Hn Ha Hc. cbn [mb_events mb_event]. assert (cid a = ch ↔ chan a = c) as Hiff.
  { pose proof (role_cid N t a c ch Hn Ha Hc) as [G1 G2]. split; intros E; symmetry; auto. }
  assert (match rt_step Hash fuel conf r (OpMessage ty (cid a) m) with Some r' => @nil MbEvent | None => [] end = []) as -> by by destruct (rt_step _ _ _ _ _).
  rewrite app_nil_r. apply decide_ext. rewrite Hiff. naive_solver.
Qed.

Lemma wires_inv N n b gone wid w w' :
  net_inv N n b gone → writers n !! wid = Some w → w_role w' = w_role w → w_init w' = w_init w →
  (∀ i on, wired w i on → wired w' i on) → net_inv N (set_writer n wid w') b gone ∧ live_writers (set_writer n wid w') = live_writers n.
Proof.
  intros Hi Hw Er Ei Hwi. assert (quiet N n (set_writer n wid w')) as Hq;
    [|split; [by apply (net_inv_quiet N _ n)|by eapply quiet_live_writers]].
  split; try done; try apply Hi; cbn [set_writer writers rt Reader.readers].
  - intros rid x' Hx. left. by exists x'.
  - intros wid' w0 [[<- <-]|[_ Hx]]%lookup_insert_Some; left; [by exists w|by exists w0].
  - intros wid' w0 Hx. destruct (decide (wid = wid')) as [<-|Hne].
    + rewrite lookup_insert_eq. exists w'. assert (w0 = w) as -> by congruence. done.
    + rewrite lookup_insert_ne by done. by exists w0.
Qed.

Lemma Writer_Write_inv F SZ P N n wid m b gone :
  (N < fuel)%nat → net_inv N n b gone →
  ∃ n' ok rops, Writer_Write ty tname F SZ P n wid m = Some (n', ok) ∧ rt_run Hash fuel conf (rt n) rops = Some (rt n') ∧
    Forall rt_op_ok rops ∧ (length rops <= 1)%nat ∧ topo n' = topo n ∧ count n' = count n ∧ receiver_ n' = receiver_ n ∧ live_writers n' = live_writers n ∧
    net_inv (S N) n' b gone ∧
    ((∀ c, b_writers b !! wid ≠ Some (c, true)) → rt n' = rt n) ∧
    ∀ p c ch, named (topo n) KChannel ch c →
      mb_events Hash fuel conf p ty ch (rt n) rops = if decide (b_writers b !! wid = Some (c, true)) then [Put m] else [].
Proof using Hash_u64 Hfuel Hgroups.
  intros HN Hi. assert (net_inv (S N) n b gone) as Hi1 by (apply (net_inv_le N); [lia|done]).
  assert ((∀ w, ¬ live n wid w) → ∀ p c ch, named (topo n) KChannel ch c →
    mb_events Hash fuel conf p ty ch (rt n) [] = if decide (b_writers b !! wid = Some (c, true)) then [Put m] else []) as Hdead.
  { intros Hno p c ch _. rewrite decide_False; [done|]. intros Hx. destruct (wr_board _ _ _ Hi _ _ Hx) as [w Hw]. by destruct (Hno w). }
  unfold Node.Writer_Write. destruct (writers n !! wid) as [w|] eqn:Ew.
  2: { exists n, false, []. split; [done|]. split; [done|]. split; [done|]. split; [cbn; lia|]. do 4 (split; [done|]).
       split; [done|]. split; [done|]. apply Hdead. intros w [Hw _]. congruence. }
  destruct (w_init w) eqn:Einit.
  2: { exists n, false, []. split; [done|]. split; [done|]. split; [done|]. split; [cbn; lia|]. do 4 (split; [done|]).
       split; [done|]. split; [done|]. apply Hdead. intros w' [Hw Hw']. congruence. }
  destruct (wr_live _ _ _ Hi wid w (conj Ew Einit)) as (k & on & _ & Hg & Hwi & Hb & Hon).
  pose proof Hwi as (_ & h & Eh & _). rewrite Eh. destruct (Transmit h m) as [h' ms] eqn:Etr.
  destruct (Transmit_wired w h (uuid k) on m h' ms Hwi Eh Etr) as [Hms Hwi']. set (w1 := mkWriter (w_role w) (Some (h', uuid k)) true).
  destruct (wires_inv N n b gone wid w w1 Hi Ew eq_refl (eq_sym Einit)) as [Hi' Hlw].
  { intros i x (_ & h0 & E0 & Hh0 & Hm0 & Ht0). rewrite Eh in E0. injection E0 as <- <-. destruct Hwi as (Ei & Hwi). split; [done|].
    unfold Transmit in Etr. injection Etr as <- _. eexists. split; [done|]. by split_and!. }
  set (n1 := set_writer n wid w1) in *. destruct on.
  - rewrite bool_decide_true by by apply Hms. destruct (Hon eq_refl) as (kr & rx & Hrx & Hch & Hkn).
    destruct (tp_rx _ _ Hi _ _ Hrx) as [_ Hro]. destruct (wr_writer _ _ _ Hi _ _ Ew) as [_ Hrw].
    assert (cid (rx_attr rx) = cid (w_role w)) as Ecid by by apply (same_channel N (topo n)); [apply Hi|..].
    pose proof (li_known _ _ _ _ _ _ (tp_links _ _ Hi) _ _ _ Hrx Hkn Hg) as Ht. change (rx_cid rx) with (cid (rx_attr rx)) in Ht.
    rewrite Ecid in Ht. change (get_num (channel_id (w_role w))) with (cid (w_role w)). change (intra (links n1)) with (intra (links n)).
    rewrite (tuned_message tname F SZ P (intra (links n)) (uuid k) (cid (w_role w)) [kr] m (li_disp _ _ _ _ _ _ (tp_links _ _ Hi)) Ht).
    unfold deliver. cbn [calls fmap list_fmap foldl mbind option_bind]. change (receivers (links n1)) with (receivers (links n)). rewrite Hrx.
    change (get_num (channel_id (rx_attr rx))) with (cid (rx_attr rx)).
    assert (rt_op_ok (OpMessage ty (cid (rx_attr rx)) m)) as Hop by (destruct (ro_cid _ _ Hro) as [_ [Hu _]]; exact Hu).
    destruct (steady_inv N n1 b gone (OpMessage ty (cid (rx_attr rx)) m) HN Hi' Hop I) as (r & Er & Hi2). cbn [rt_step] in Er. rewrite Er.
    eexists _, true, [OpMessage ty (cid (rx_attr rx)) m]. split; [done|]. split; [cbn; exact Er|].
    split; [by constructor|]. do 4 (split; [done|]). split; [exact Hlw|]. split; [done|].
    split; [intros Hno; by destruct (Hno (chan (w_role w)))|]. intros p c ch Hc.
    rewrite (message_events N (topo n) _ c) by (done || apply Hi). rewrite Hb. apply decide_ext.
    unfold rx_chan in Hch. change (chan (rx_attr rx) = chan (w_role w)) in Hch. rewrite Hch. naive_solver.
  - rewrite bool_decide_false by (intros Hx; apply Hms in Hx; done). exists n1, true, []. split; [done|]. split; [done|].
    split; [done|]. split; [cbn; lia|]. do 4 (split; [done|]). split; [by apply (net_inv_le N); [lia|]|].
    split; [done|]. intros p c ch _. rewrite decide_False; [done|]. rewrite Hb. by intros [= _ ?].
Qed.

(** ** Every call *)

Context (desc : string → string) (F : nat → Z) (SZ : nat → option (list Z)) (P : string → list Z → option nat).
#[local] Abbreviation net_step := (net_step Hash fuel conf host ip pid mode env limit arena uuid ty tname desc F SZ P).
#[local] Abbreviation rt_run := (rt_run Hash fuel conf).
#[local] Abbreviation mb_events := (mb_events Hash fuel conf).

(** What a call does: names stay, the invariant holds of the board after the changes, and
    the readers' runtime makes calls that mean [ev] to the mailboxes. *)
Record sim (N' : nat) n b (ev : CrPtr → string → list MbEvent) n' : Prop := {
  sm_names : renamed (topo n) (topo n');
  sm_count : (count n <= count n' <= 2 + count n)%nat;
  sm_inv : ∃ gone, net_inv N' n' (foldl board_step b (changes n n')) gone;
  sm_runtime : ∃ ops, rt_run (rt n) ops = Some (rt n') ∧ Forall rt_op_ok ops ∧ (length ops <= 2 + count n)%nat ∧
    ∀ p c ch, named (topo n) KChannel ch c → mb_events p ty ch (rt n) ops = ev p c
}.

Definition no_events : CrPtr → string → list MbEvent := λ _ _, [].

Lemma sim_le N' N'' n b ev n' : (N' <= N'')%nat → sim N' n b ev n' → sim N'' n b ev n'.
Proof. intros HN [H1 H2 [gone H3] H4]. split; try done. exists gone. by apply (net_inv_le N'). Qed.

(** The runtime is left alone. *)
Lemma sim_still N' n b n' gone :
  net_inv N' n' (foldl board_step b (changes n n')) gone → renamed (topo n) (topo n') →
  (count n <= count n' <= 2 + count n)%nat → rt n' = rt n → sim N' n b no_events n'.
Proof.
  intros Hi Hr Hc E. split; [done|done|by exists gone|]. exists []. rewrite E. split; [done|]. split; [done|].
  split; [cbn; lia|done].
Qed.

Lemma sim_none N n b gone : net_inv N n b gone → sim N n b no_events n.
Proof. intros Hi. apply (sim_still N n b n gone); [by rewrite changes_none|done|lia|done]. Qed.

(** Calls that mean nothing to a mailbox. *)
Definition silent (op : RtOp) : Prop := match op with OpMessage _ _ _ | OpTurn _ _ _ => False | _ => True end.

Lemma events_silent p ch r ops : Forall silent ops → mb_events p ty ch r ops = [].
Proof.
  intros Ho. revert r. induction Ho as [|op ops Hop _ IH]; intros r; [done|].
  cbn. assert (mb_event p ty ch r op = []) as -> by by destruct op. destruct (rt_step Hash fuel conf r op); [apply IH|done].
Qed.

(** Steps before and after that only concern the nodes' tables and the user's pointers. *)
Definition same_but_nodes n n' : Prop :=
  rt n' = rt n ∧ topo n' = topo n ∧ links n' = links n ∧ reader_roles n' = reader_roles n ∧
  receiver_ n' = receiver_ n ∧ writers n' = writers n ∧ count n' = count n.

Lemma sim_before N' n n1 b ev n' : same_but_nodes n n1 → sim N' n1 b ev n' → sim N' n b ev n'.
Proof.
  intros (E1 & E2 & _ & E4 & E5 & E6 & E7) [H1 H2 H3 H4].
  assert (changes n1 n' = changes n n') as Ec by (unfold changes, reader_change, live_writers; by rewrite E4, E5, E6).
  split; [by rewrite <- E2|by rewrite <- E7|by rewrite <- Ec|]. destruct H4 as (ops & G1 & G2 & G3 & G4).
  exists ops. rewrite E1, E2, E7 in *. done.
Qed.

Lemma sim_after N' n n1 b ev n' :
  same_but_nodes n1 n' →
  (∀ nid nd, nodes n' !! nid = Some nd → ∃ nd0, nodes n1 !! nid = Some nd0 ∧ node_attr_ nd = node_attr_ nd0 ∧
     (size (readers_ nd) <= count n1)%nat) →
  sim N' n b ev n1 → sim N' n b ev n'.
Proof.
  intros (E1 & E2 & E3 & E4 & E5 & E6 & E7) Hno [H1 H2 [gone H3] H4].
  assert (changes n n' = changes n n1) as Ec by (unfold changes, reader_change, writer_channel, live_writers; by rewrite E4, E5, E6).
  split; [by rewrite E2|by rewrite E7| |by rewrite E1]. exists gone. rewrite Ec. by apply (net_inv_nodes N' n1).
Qed.

(** A process that is the same but for one node's readers. *)
Lemma set_node_sizes N n b gone nid nd m (x : gmap string nat) :
  net_inv N n b gone → nodes n !! nid = Some nd → (size x <= m)%nat → (count n <= m)%nat →
  ∀ nid' nd', <[nid := mkNode (node_attr_ nd) x]> (nodes n) !! nid' = Some nd' →
    ∃ nd0, nodes n !! nid' = Some nd0 ∧ node_attr_ nd' = node_attr_ nd0 ∧ (size (readers_ nd') <= m)%nat.
Proof.
  intros Hi Hn Hx Hm nid' nd' [[<- <-]|[_ Hy]]%lookup_insert_Some; [by exists nd|].
  exists nd'. split; [done|]. split; [done|]. destruct (ob_nodes _ _ Hi _ _ Hy). lia.
Qed.

(** *** Writers *)

Lemma not_live_count N n b gone : net_inv N n b gone → count n ∉ live_writers n.
Proof. intros Hi (w & Hw & _)%elem_of_live. apply (wr_writer _ _ _ Hi) in Hw as [? _]. lia. Qed.

Lemma Writer_Init_sim N now n wid w b gone :
  (N < fuel)%nat → net_inv N n b gone → writers n !! wid = Some w → w_init w = false →
  ∃ n', Writer_Init now n wid = Some (n', true) ∧ count n' = S (count n) ∧ rt n' = rt n ∧ renamed (topo n) (topo n') ∧
    ∀ n0, receiver_ n0 = receiver_ n → live_writers n0 = live_writers n →
    net_inv (S N) n' (foldl board_step b (changes n0 n')) gone.
Proof using Hash_u64 Hfuel Hgroups Hmode uuid_inj.
  intros HN Hi Hw Hinit. destruct (Writer_Init_inv N now n wid w gone b HN Hi Hw Hinit) as (n' & E & Er & Erc & Hr & Ec & El & Ech & Hi').
  exists n'. split; [done|]. split; [done|]. split; [done|]. split; [done|]. intros n0 E1 E2. rewrite (changes_writer_comes n0 n' wid).
  - by rewrite Ech.
  - congruence.
  - by rewrite El, E2.
  - rewrite E2. intros (w' & Hw' & Hi0)%elem_of_live. congruence.
Qed.

Lemma do_init_writer N now n wid b gone :
  (N < fuel)%nat → net_inv N n b gone → ∃ n', net_step n (DoInitWriter now wid) = Some n' ∧ sim (S N) n b no_events n'.
Proof using Hash_u64 Hfuel Hgroups Hmode uuid_inj.
  intros HN Hi. assert (sim (S N) n b no_events n) as Hn by (apply (sim_le N); [lia|by eapply sim_none]).
  cbn [Node.net_step]. destruct (writers n !! wid) as [w|] eqn:Ew; [|exists n; unfold Node.Writer_Init; by rewrite Ew].
  destruct (w_init w) eqn:Ei; [exists n; unfold Node.Writer_Init; by rewrite Ew, Ei|].
  destruct (Writer_Init_sim N now n wid w b gone HN Hi Ew Ei) as (n' & -> & Ec & Er & Hr & Hi'). exists n'. split; [done|].
  apply (sim_still _ n b n' gone); [by apply Hi'|done|lia|done].
Qed.

Lemma do_create_writer N now n nid role b gone :
  (S N < fuel)%nat → net_inv N n b gone →
  ∃ n', net_step n (DoCreateWriter now nid role) = Some n' ∧ sim (2 + N) n b no_events n'.
Proof using Hash_u64 Hfuel Hgroups Hmode uuid_inj.
  intros HN Hi. assert (sim (2 + N) n b no_events n) as Hn by (apply (sim_le N); [lia|by eapply sim_none]).
  cbn [Node.net_step]. unfold CreateWriter. destruct (nodes n !! nid) as [nd|] eqn:End; [|by exists n].
  destruct (has_channel role) eqn:Hc; cbn [negb]; [|by exists n].
  destruct (ob_nodes _ _ Hi _ _ End) as [Hno _].
  destruct (FillInAttr_spec N (topo n) (node_attr_ nd) role desc ltac:(lia) (ob_names _ _ Hi) Hno Hc) as (g & a & -> & Hg & Hr & Ha & _).
  cbn [mbind option_bind]. destruct (new_writer_inv N n b gone g a Hi Hg Hr Ha) as [Hi1 El].
  set (n1 := next _) in *. change (count (set_topo n (set_names (topo n) g))) with (count n).
  destruct (Writer_Init_sim (S N) now n1 (count n) (mkWriter a None false) b gone HN Hi1) as (n' & E & Ec & Er & Hr' & Hi');
    [apply lookup_insert_eq|done|].
  change (next (set_writer (set_topo n (set_names (topo n) g)) (count n) (mkWriter a None false))) with n1. rewrite E.
  exists n'. split; [done|]. apply (sim_still _ n b n' gone); [by apply Hi'|by etrans|rewrite Ec; cbn; lia|done].
Qed.

Lemma do_shutdown_writer N now n wid b gone :
  net_inv N n b gone → ∃ n', net_step n (DoShutdownWriter now wid) = Some n' ∧ sim N n b no_events n'.
Proof using Hash_u64 Hfuel Hgroups Hmode uuid_inj.
  intros Hi. pose proof (sim_none N n b gone Hi) as Hn.
  cbn [Node.net_step]. eexists. split; [done|]. destruct (writers n !! wid) as [w|] eqn:Ew; [|unfold Node.Writer_Shutdown; by rewrite Ew].
  destruct (w_init w) eqn:Ei; [|unfold Node.Writer_Shutdown; by rewrite Ew, Ei].
  destruct (Writer_Shutdown_inv N now n wid w gone b Hi (conj Ew Ei)) as (gone' & E1 & E2 & Hr & Ec & El & Hi').
  apply (sim_still _ n b _ gone'); [|done|lia|done]. rewrite (changes_writer_goes _ _ wid E2 El); [done|]. apply elem_of_live. by exists w.
Qed.

Lemma do_has_reader N n wid b gone :
  (N < fuel)%nat → net_inv N n b gone → ∃ n', net_step n (DoHasReader wid) = Some n' ∧ sim (S N) n b no_events n'.
Proof using Hash_u64 Hfuel Hgroups Hmode uuid_inj.
  intros HN Hi. assert (sim (S N) n b no_events n) as Hn by (apply (sim_le N); [lia|by eapply sim_none]).
  cbn [Node.net_step]. unfold Writer_HasReader. destruct (writers n !! wid) as [w|]; [|by exists n].
  destruct (w_init w); cbn [negb]; [|by exists n].
  destruct (channel_key_spec Hash Hash_u64 fuel Hfuel N (topo n) (get_str (channel_name (w_role w))) HN (ob_names _ _ Hi)) as (g & key & -> & Hg & _ & Hr).
  eexists. split; [done|]. apply (sim_still _ n b _ gone); [|done|cbn; lia|done]. rewrite changes_none by done. by apply net_inv_names.
Qed.

(** *** Readers *)

Lemma do_has_writer N n rid b gone :
  (N < fuel)%nat → net_inv N n b gone → ∃ n', net_step n (DoHasWriter rid) = Some n' ∧ sim (S N) n b no_events n'.
Proof using Hash_u64 Hfuel Hgroups Hmode uuid_inj.
  intros HN Hi. assert (sim (S N) n b no_events n) as Hn by (apply (sim_le N); [lia|by eapply sim_none]).
  cbn [Node.net_step]. unfold if_held. case_bool_decide; [|by exists n].
  unfold Reader_HasWriter. destruct (Reader.readers (rt n) !! rid) as [r|]; [|by exists n].
  destruct (reader_roles n !! rid) as [a|]; [|by exists n]. destruct (init_ r); cbn [negb]; [|by exists n].
  destruct (channel_key_spec Hash Hash_u64 fuel Hfuel N (topo n) (get_str (channel_name a)) HN (ob_names _ _ Hi)) as (g & key & -> & Hg & _ & Hr).
  eexists. split; [done|]. apply (sim_still _ n b _ gone); [|done|cbn; lia|done]. rewrite changes_none by done. by apply net_inv_names.
Qed.

(** The calls of the runtime in which readers come and go. *)
Lemma sim_calls N' n b n' gone ops :
  net_inv N' n' (foldl board_step b (changes n n')) gone → renamed (topo n) (topo n') →
  (count n <= count n' <= 2 + count n)%nat → rt_run (rt n) ops = Some (rt n') → (length ops <= 2)%nat →
  Forall rt_op_ok ops → Forall silent ops → sim N' n b no_events n'.
Proof.
  intros Hi Hr Hc E Hl Hok Hs. split; [done|done|by exists gone|]. exists ops. split; [done|]. split; [done|]. split; [lia|].
  intros p c ch _. by apply events_silent.
Qed.

Lemma Reader_Init_sim N now n rid r a b gone :
  (N < fuel)%nat → net_inv N n b gone → Reader.readers (rt n) !! rid = Some r → reader_roles n !! rid = Some a → init_ r = false →
  ∃ n' ok, Reader_Init now n rid = Some (n', ok) ∧ Init_task Hash fuel conf now (rt n) rid = Some (rt n', ok) ∧
    renamed (topo n) (topo n') ∧ (count n <= count n' <= S (count n))%nat ∧ nodes n' = nodes n ∧ held n' = held n ∧
    ∀ n0, receiver_ n0 = receiver_ n → live_writers n0 = live_writers n →
    net_inv (S N) n' (foldl board_step b (changes n0 n')) gone.
Proof using Hash_u64 Hfuel Hgroups Hmode uuid_inj.
  intros HN Hi Hr Ha Hinit.
  destruct (Reader_Init_inv N now n rid r a gone b HN Hi Hr Ha Hinit) as (n' & ok & E & Ei & Hren & Hc & El & Eno & Eh & Hok).
  exists n', ok. do 6 (split; [done|]). intros n0 E1 E2.
  assert (receiver_ n !! rid = None) as Hnone.
  { destruct (receiver_ n !! rid) eqn:Er; [|done]. destruct (ob_reader _ _ Hi _ _ Hr) as (_ & _ & a' & _ & _ & _ & Hrc).
    assert (init_ r = true) by (apply Hrc; by eexists). congruence. }
  destruct ok.
  - destruct Hok as (i & k & Erc & Ero & Hi'). rewrite (changes_reader_comes n0 n' rid k) by congruence.
    unfold reader_change. by rewrite Ero.
  - destruct Hok as [Erc Hi']. rewrite changes_none; [done|]. split; congruence.
Qed.

Lemma do_init_reader N now n rid b gone :
  (N < fuel)%nat → net_inv N n b gone → ∃ n', net_step n (DoInitReader now rid) = Some n' ∧ sim (S N) n b no_events n'.
Proof using Hash_u64 Hfuel Hgroups Hmode uuid_inj.
  intros HN Hi. assert (sim (S N) n b no_events n) as Hn by (apply (sim_le N); [lia|by eapply sim_none]).
  cbn [Node.net_step]. unfold if_held. case_bool_decide; [|by exists n].
  destruct (Reader.readers (rt n) !! rid) as [r|] eqn:Er; [|exists n; unfold Node.Reader_Init; by rewrite Er].
  destruct (reader_roles n !! rid) as [a|] eqn:Ea; [|exists n; unfold Node.Reader_Init; by rewrite Er, Ea].
  destruct (init_ r) eqn:Ei; [exists n; unfold Node.Reader_Init; by rewrite Er, Ea, Ei|].
  destruct (Reader_Init_sim N now n rid r a b gone HN Hi Er Ea Ei) as (n' & ok & -> & Et & Hren & Hc & _ & _ & Hi').
  exists n'. split; [done|]. apply (sim_calls _ n b n' gone [OpInit now rid]); [by apply Hi'|done|lia| |cbn; lia|by constructor|by constructor].
  unfold Reader.rt_run. cbn. by rewrite Et.
Qed.

Lemma do_shutdown N now n rid b gone :
  net_inv N n b gone → ∃ n', Reader_Shutdown now n rid = Some n' ∧ sim N n b no_events n' ∧ nodes n' = nodes n ∧ held n' = held n.
Proof using Hash_u64 Hfuel Hgroups Hmode uuid_inj.
  intros Hi. pose proof (sim_none N n b gone Hi) as Hn. unfold Node.Reader_Shutdown.
  destruct (Reader.readers (rt n) !! rid) as [r|] eqn:Er; [|by exists n].
  destruct (reader_roles n !! rid) as [a|] eqn:Ea; [|by exists n].
  destruct (init_ r) eqn:Ei; cbn [negb]; [|by exists n].
  destruct (Reader_Shutdown_inv N now n rid r a gone b Hi Er Ea Ei) as (n' & E & Et & Hren & Hc & El & Eno & Eh & Ero & Erc & Hs & Hi').
  unfold Node.Reader_Shutdown in E. rewrite Er, Ea, Ei in E. cbn [negb] in E. rewrite E. exists n'. split; [done|]. split; [|done].
  apply (sim_calls _ n b n' gone [OpShutdown rid]); [|done|lia| |cbn; lia|by constructor|by constructor].
  - rewrite (changes_reader_goes n n' rid) by done. unfold reader_change. by rewrite Ea.
  - unfold Reader.rt_run. cbn. by rewrite Et.
Qed.

Lemma do_shutdown_reader N now n rid b gone :
  net_inv N n b gone → ∃ n', net_step n (DoShutdownReader now rid) = Some n' ∧ sim N n b no_events n'.
Proof using Hash_u64 Hfuel Hgroups Hmode uuid_inj.
  intros Hi. cbn [Node.net_step]. unfold if_held. case_bool_decide; [|exists n; split; [done|by eapply sim_none]].
  destruct (do_shutdown N now n rid b gone Hi) as (n' & -> & Hs & _). by exists n'.
Qed.

(** The last pointer to a reader may be gone. *)
Lemma do_pointer N now n n1 rid b gone :
  net_inv N n b gone → same_but_nodes n n1 →
  (∀ nid nd, nodes n1 !! nid = Some nd → ∃ nd0, nodes n !! nid = Some nd0 ∧ node_attr_ nd = node_attr_ nd0 ∧
     (size (readers_ nd) <= count n)%nat) →
  ∃ n', release Hash env tname now n1 rid = Some n' ∧ sim N n b no_events n'.
Proof using Hash_u64 Hfuel Hgroups Hmode uuid_inj.
  intros Hi Hsame Hno. pose proof Hsame as (E1 & E2 & E3 & E4 & E5 & E6 & E7).
  assert (net_inv N n1 b gone) as Hi1 by by apply (net_inv_nodes N n).
  unfold release. destruct (owned n1 rid).
  - exists n1. split; [done|]. apply (sim_before N n n1); [done|]. by eapply sim_none.
  - destruct (do_shutdown N now n1 rid b gone Hi1) as (n' & -> & Hs & _). exists n'. split; [done|]. by apply (sim_before N n n1).
Qed.

Lemma nodes_as_before N n b gone : net_inv N n b gone →
  ∀ nid nd, nodes n !! nid = Some nd → ∃ nd0, nodes n !! nid = Some nd0 ∧ node_attr_ nd = node_attr_ nd0 ∧ (size (readers_ nd) <= count n)%nat.
Proof. intros Hi nid nd Hx. exists nd. split; [done|]. split; [done|]. by eapply (ob_nodes _ _ Hi). Qed.

Lemma do_release N now n rid b gone :
  net_inv N n b gone → ∃ n', net_step n (DoRelease now rid) = Some n' ∧ sim N n b no_events n'.
Proof using Hash_u64 Hfuel Hgroups Hmode uuid_inj.
  intros Hi. cbn [Node.net_step]. unfold if_held. case_bool_decide; [|exists n; split; [done|by eapply sim_none]].
  apply (do_pointer N now n (set_held n (held n ∖ {[rid]})) rid b gone Hi); [done|]. exact (nodes_as_before N n b gone Hi).
Qed.

Lemma do_delete_reader N now n nid channel b gone :
  net_inv N n b gone → ∃ n', net_step n (DoDeleteReader now nid channel) = Some n' ∧ sim N n b no_events n'.
Proof using Hash_u64 Hfuel Hgroups Hmode uuid_inj.
  intros Hi. pose proof (sim_none N n b gone Hi) as Hn. cbn [Node.net_step]. unfold Node_DeleteReader.
  destruct (nodes n !! nid) as [nd|] eqn:End; [|by exists n]. destruct (readers_ nd !! channel) as [rid|]; [|by exists n].
  set (n1 := set_node _ _ _). destruct (do_pointer N now n n1 rid b gone Hi) as (n' & E & Hs); [done| |].
  - apply (set_node_sizes N n b gone nid nd (count n)); [done|done| |lia].
    transitivity (size (readers_ nd)); [|by eapply (ob_nodes _ _ Hi)]. rewrite map_size_delete. destruct (readers_ nd !! channel); cbn; lia.
  - rewrite E. by exists n'.
Qed.

Lemma do_get_reader N n nid channel b gone :
  net_inv N n b gone → ∃ n', net_step n (DoGetReader nid channel) = Some n' ∧ sim N n b no_events n'.
Proof using Hash_u64 Hfuel Hgroups Hmode uuid_inj.
  intros Hi. pose proof (sim_none N n b gone Hi) as Hn. cbn [Node.net_step]. eexists. split; [done|]. unfold Node_GetReader.
  destruct (nodes n !! nid) as [nd|]; [|done]. destruct (readers_ nd !! channel) as [rid|]; [|done].
  apply (sim_after N n n b no_events (set_held n ({[rid]} ∪ held n))); [done|exact (nodes_as_before N n b gone Hi)|done].
Qed.

(** The coroutine of a new reader is an empty mailbox. *)
Lemma Init_mail N now r0 rid r r1 :
  (N < fuel)%nat → rt_inv Hash N r0 → Reader.readers r0 !! rid = Some r → init_ r = false →
  Init_task Hash fuel conf now r0 rid = Some (r1, true) →
  let p := fresh (sched (process r0)) in (p < fresh (sched (process r1)))%nat ∧
    (0 < pending_queue_size_ r < 2 ^ 32 → filter (λ c, c_routine c = p) (Reader.calls r0) = [] →
     mail r1 p rid (type_ r) (channel_id_ r) (pending_queue_size_ r) (reader_func_ r) mb_new []).
Proof using Hash_u64 Hfuel Hgroups.
  intros HN Hi Hr Hinit E. destruct (Init_task_spec Hash Hash_u64 fuel conf Hgroups Hfuel N r0 now rid r HN Hi Hr Hinit)
    as (w' & dv & q & ok & Ei & Hres). rewrite E in Ei. injection Ei as -> <-. cbn zeta. split.
  - cbn. rewrite (ir_fresh _ _ _ _ _ _ _ _ Hres). lia.
  - intros Hs Hno. by apply (init_mail Hash N).
Qed.

Lemma Impl_CreateReader_sim N now n nd nid role f size b gone :
  (S N < fuel)%nat → net_inv N n b gone → nodes n !! nid = Some nd →
  ∃ n' or, Impl_CreateReader Hash fuel conf host pid mode env uuid ty tname desc now n nd role f size = Some (n', or) ∧
    sim (2 + N) n b no_events n' ∧ nodes n' = nodes n ∧
    ∀ rid, or = Some rid → (count n < count n')%nat ∧ let p := fresh (sched (process (rt n))) in
      (p < fresh (sched (process (rt n'))))%nat ∧
      (0 < size < 2 ^ 32 → filter (λ c, c_routine c = p) (Reader.calls (rt n)) = [] →
       ∃ ch, named (topo n') KChannel ch (chan role) ∧ mail (rt n') p rid ty ch size f mb_new []).
Proof using Hash_u64 Hfuel Hgroups Hmode uuid_inj.
  intros HN Hi End. unfold Impl_CreateReader. destruct (has_channel role) eqn:Hc; cbn [negb].
  2: { exists n, None. split; [done|]. split; [apply (sim_le N); [lia|by eapply sim_none]|]. done. }
  destruct (ob_nodes _ _ Hi _ _ End) as [Hno _].
  destruct (FillInAttr_spec N (topo n) (node_attr_ nd) role desc ltac:(lia) (ob_names _ _ Hi) Hno Hc) as (g & a & -> & Hg & Hr & Ha & Hch).
  cbn [mbind option_bind]. destruct (new_reader_inv N n b gone g a f size Hi Hg Hr Ha) as (Hi1 & El & Hnone).
  set (n1 := new_reader _ _ _ _ _) in *. change (count (set_topo n (set_names (topo n) g))) with (count n).
  set (r := Reader_new (get_str (node_name a)) (get_str (channel_name a)) (get_num (channel_id a)) ty (Z.to_nat (depth (qos a).1)) f size).
  destruct (Reader_Init_sim (S N) now n1 (count n) r a b gone HN Hi1) as (n' & ok & E & Et & Hren & Hcn & Eno & Eh & Hi');
    [apply lookup_insert_eq|apply lookup_insert_eq|done|].
  change (new_reader ty (set_topo n (set_names (topo n) g)) a f size) with n1. rewrite E. cbn [mbind option_bind].
  exists n', (if ok then Some (count n) else None). split; [done|]. split; [|split; [done|]].
  - apply (sim_calls _ n b n' gone [OpNew (count n) (get_str (node_name a)) (get_str (channel_name a)) (get_num (channel_id a)) ty
      (Z.to_nat (depth (qos a).1)) f size; OpInit now (count n)]).
    + by apply Hi'.
    + by etrans.
    + cbn in Hcn. lia.
    + rewrite rt_run_cons. cbn [rt_step]. rewrite Hnone. cbn [mbind option_bind]. unfold Reader.rt_run. cbn [foldl mbind option_bind rt_step].
      by change (set_reader (rt n) (count n) _) with (rt n1); rewrite Et.
    + done.
    + destruct (ro_cid _ _ Ha) as [_ [Hu _]]. apply Forall_cons. split; [exact Hu|]. by apply Forall_singleton.
    + by repeat constructor.
  - intros rid Hor. cbn in Hcn. split; [lia|]. destruct ok; [|done]. injection Hor as <-.
    destruct (Init_mail (S N) now (rt n1) (count n) r (rt n')) as [Hf Hm]; [lia|apply Hi1|apply lookup_insert_eq|done|done|].
    cbn zeta. split; [exact Hf|]. intros Hsz Hnone0. exists (cid a). split; [|by apply Hm].
    rewrite <- Hch. apply Hren. by destruct (ro_cid _ _ Ha).
Qed.

Lemma CreateReader_sim N now n nid role f size b gone :
  (S N < fuel)%nat → net_inv N n b gone →
  ∃ n' or, CreateReader Hash fuel conf host pid mode env uuid ty tname desc now n nid role f size = Some (n', or) ∧
    sim (2 + N) n b no_events n' ∧
    ∀ rid, or = Some rid → let p := fresh (sched (process (rt n))) in
      (p < fresh (sched (process (rt n'))))%nat ∧
      (0 < size < 2 ^ 32 → filter (λ c, c_routine c = p) (Reader.calls (rt n)) = [] →
       ∃ ch, named (topo n') KChannel ch (chan role) ∧ mail (rt n') p rid ty ch size f mb_new []).
Proof using Hash_u64 Hfuel Hgroups Hmode uuid_inj.
  intros HN Hi. assert (sim (2 + N) n b no_events n) as Hn by (apply (sim_le N); [lia|by eapply sim_none]).
  unfold CreateReader. destruct (nodes n !! nid) as [nd|] eqn:End; [|by exists n, None].
  destruct (readers_ nd !! get_str (channel_name role)) as [rid|]; [by exists n, None|].
  destruct (Impl_CreateReader_sim N now n nd nid role f size b gone HN Hi End) as (n1 & or & -> & Hs & Eno & Hor).
  cbn [mbind option_bind]. destruct or as [rid|]; [|by exists n1, None].
  exists (set_held (set_node n1 nid (mkNode (node_attr_ nd) (<[get_str (channel_name role) := rid]> (readers_ nd)))) ({[rid]} ∪ held n1)), (Some rid).
  split; [done|]. destruct (Hor rid eq_refl) as [Hlt Hmail]. split.
  - apply (sim_after _ n n1); [done| |done]. cbn [nodes set_held set_node]. rewrite Eno.
    apply (set_node_sizes N n b gone nid nd (count n1)); [done|done| |lia].
    rewrite map_size_insert. destruct (ob_nodes _ _ Hi _ _ End) as [_ ?]. destruct (readers_ nd !! get_str (channel_name role)); cbn; lia.
  - intros rid' [= <-]. exact Hmail.
Qed.

Lemma do_create_reader N now n nid role f size b gone :
  (S N < fuel)%nat → net_inv N n b gone →
  ∃ n', net_step n (DoCreateReader now nid role f size) = Some n' ∧ sim (2 + N) n b no_events n'.
Proof using Hash_u64 Hfuel Hgroups Hmode uuid_inj.
  intros HN Hi. destruct (CreateReader_sim N now n nid role f size b gone HN Hi) as (n' & or & E & Hs & _).
  exists n'. split; [|done]. cbn [Node.net_step]. by rewrite E.
Qed.

(** *** Data, messages, turns *)

Lemma do_steady N n op b gone :
  (N < fuel)%nat → net_inv N n b gone → rt_op_ok op → steady op →
  ∃ r, rt_step Hash fuel conf (rt n) op = Some r ∧ net_inv (S N) (set_rt n r) b gone ∧
    ∀ ev : CrPtr → string → list MbEvent, (∀ p c ch, named (topo n) KChannel ch c → mb_event p ty ch (rt n) op = ev p c) →
      sim (S N) n b ev (set_rt n r).
Proof using Hash_u64 Hfuel Hgroups.
  intros HN Hi Hok Hs. destruct (steady_inv N n b gone op HN Hi Hok Hs) as (r & E & Hi'). exists r. split; [done|]. split; [done|].
  intros ev Hev. split; [done|cbn; lia|exists gone; by rewrite changes_none|]. exists [op]. split; [|split; [|split]].
  - unfold Reader.rt_run. cbn. by rewrite E.
  - by apply Forall_singleton.
  - cbn. lia.
  - intros p c ch Hc. cbn. rewrite E, app_nil_r. by apply Hev.
Qed.

Lemma do_reader_data N n rid d b gone :
  (N < fuel)%nat → net_inv N n b gone → ∃ n', net_step n (DoReaderData rid d) = Some n' ∧ sim (S N) n b no_events n'.
Proof using Hash_u64 Hfuel Hgroups.
  intros HN Hi. cbn [Node.net_step]. unfold if_held.
  case_bool_decide; [|exists n; split; [done|apply (sim_le N); [lia|by eapply sim_none]]].
  destruct (do_steady N n (OpData rid d) b gone HN Hi I I) as (r & E & _ & Hs). unfold rt_do. rewrite E. cbn [mbind option_bind].
  eexists. split; [done|]. by apply Hs.
Qed.

Lemma do_node_data N n nid d b gone :
  (N + count n < fuel)%nat → net_inv N n b gone →
  ∃ n', net_step n (DoNodeData nid d) = Some n' ∧ sim (N + count n) n b no_events n'.
Proof using Hash_u64 Hfuel Hgroups.
  intros HN Hi. cbn [Node.net_step]. unfold Node_data. set (ops := data_ops n nid d).
  assert (Forall rt_op_ok ops ∧ Forall steady ops ∧ Forall silent ops ∧ (length ops <= count n)%nat) as (H1 & H2 & H3 & H4).
  { unfold ops, data_ops. destruct (nodes n !! nid) as [nd|] eqn:End; [|by split_and!; [..|cbn; lia]].
    rewrite length_fmap, length_map_to_list. split_and!; [| | |by eapply (ob_nodes _ _ Hi)];
      apply Forall_forall; by intros op ([? ?] & -> & _)%list_elem_of_fmap. }
  destruct (steady_run N n b gone ops) as (r & E & Hi'); [lia|done|done|done|]. rewrite E. cbn [mbind option_bind].
  exists (set_rt n r). split; [done|]. apply (sim_le (N + length ops)); [lia|].
  split; [done|cbn; lia|exists gone; by rewrite changes_none|]. exists ops. split; [done|]. split; [done|]. split; [lia|].
  intros p c ch _. by apply events_silent.
Qed.

Lemma do_write N n wid m b gone :
  (N < fuel)%nat → net_inv N n b gone →
  ∃ n', net_step n (DoWrite wid m) = Some n' ∧
    sim (S N) n b (λ p c, if decide (b_writers b !! wid = Some (c, true)) then [Put m] else []) n'.
Proof using Hash_u64 Hfuel Hgroups.
  intros HN Hi. cbn [Node.net_step].
  destruct (Writer_Write_inv F SZ P N n wid m b gone HN Hi) as (n' & ok & ops & -> & E & Hok & Hl & Et & Ec & Erc & El & Hi' & _ & Hev).
  exists n'. split; [done|]. split; [by rewrite Et|lia|exists gone; by rewrite changes_none|].
  exists ops. split; [done|]. split; [done|]. split; [lia|done].
Qed.

(** ** Any sequence of calls *)


(** Every call succeeds, and the board says what it means to the mailboxes. *)
Lemma net_step_sim N n op b gone :
  (N + count n + 2 < fuel)%nat → net_inv N n b gone → net_op_ok op →
  ∃ n', net_step n op = Some n' ∧ sim (N + count n + 2) n b (λ p c, net_event p c n b op) n'.
Proof using Hash_u64 Hfuel Hgroups Hmode uuid_inj.
  intros HN Hi Hok.
  assert (∀ N' ev, (N' <= N + count n + 2)%nat → (∃ n', net_step n op = Some n' ∧ sim N' n b ev n') →
    ∃ n', net_step n op = Some n' ∧ sim (N + count n + 2) n b ev n') as Hle.
  { intros N' ev Hl (n' & E & Hs). exists n'. split; [done|]. by apply (sim_le N'). }
  destruct op.
  - apply (Hle (S N)); [lia|]. destruct (Node_new_inv N now n name b gone ltac:(lia) Hi) as (n' & k & E & Er & Hr & Hs & Hc & Hi').
    exists n'. cbn [Node.net_step]. rewrite E. split; [done|]. apply (sim_still _ n b n' gone); [by rewrite changes_none|done|lia|done].
  - apply (Hle (2 + N)%nat); [lia|]. apply (do_create_writer _ _ _ _ _ _ gone); [lia|done].
  - apply (Hle (2 + N)%nat); [lia|]. apply (do_create_reader _ _ _ _ _ _ _ _ gone); [lia|done].
  - apply (Hle (S N)); [lia|]. apply (do_init_writer _ _ _ _ _ gone); [lia|done].
  - apply (Hle N); [lia|]. by apply (do_shutdown_writer _ _ _ _ _ gone).
  - apply (Hle (S N)); [lia|]. apply (do_init_reader _ _ _ _ _ gone); [lia|done].
  - apply (Hle N); [lia|]. by apply (do_shutdown_reader _ _ _ _ _ gone).
  - apply (Hle N); [lia|]. by apply (do_release _ _ _ _ _ gone).
  - apply (Hle N); [lia|]. by apply (do_delete_reader _ _ _ _ _ _ gone).
  - apply (Hle N); [lia|]. by apply (do_get_reader _ _ _ _ _ gone).
  - apply (Hle (N + count n)%nat); [lia|]. apply (do_node_data _ _ _ _ _ gone); [lia|done].
  - apply (Hle (S N)); [lia|]. apply (do_reader_data _ _ _ _ _ gone); [lia|done].
  - apply (Hle (S N)); [lia|]. apply (do_write _ _ _ _ _ gone); [lia|done].
  - apply (Hle (S N)); [lia|]. apply (do_has_reader _ _ _ _ gone); [lia|done].
  - apply (Hle (S N)); [lia|]. apply (do_has_writer _ _ _ _ gone); [lia|done].
  - apply (Hle (S N)); [lia|]. destruct (do_steady N n (OpTurn now g slice) b gone ltac:(lia) Hi Hok I) as (r & E & _ & Hs).
    exists (set_rt n r). cbn [Node.net_step]. unfold rt_do. rewrite E. split; [done|]. by apply Hs.
  - apply (Hle (S N)); [lia|]. destruct (do_steady N n (OpTask now name) b gone ltac:(lia) Hi I I) as (r & E & _ & Hs).
    exists (set_rt n r). cbn [Node.net_step]. unfold rt_do. rewrite E. split; [done|]. by apply Hs.
Qed.

#[local] Abbreviation net_run := (net_run Hash fuel conf host ip pid mode env limit arena uuid ty tname desc F SZ P).
#[local] Abbreviation board_run := (board_run Hash fuel conf host ip pid mode env limit arena uuid ty tname desc F SZ P).
#[local] Abbreviation net_events := (net_events Hash fuel conf host ip pid mode env limit arena uuid ty tname desc F SZ P).

Lemma net_run_cons n op ops : net_run n (op :: ops) = n' ← net_step n op; net_run n' ops.
Proof.
  unfold Node.net_run. cbn [foldl mbind option_bind]. destruct (net_step n op); [done|].
  induction ops as [|o ops IH]; [done|exact IH].
Qed.

Lemma net_run_app n ops1 ops2 : net_run n (ops1 ++ ops2) = n' ← net_run n ops1; net_run n' ops2.
Proof.
  revert n. induction ops1 as [|op ops1 IH]; intros n; [done|]. cbn [app]. rewrite !net_run_cons.
  destruct (net_step n op); [apply IH|done].
Qed.

Lemma rt_run_app r ops1 ops2 : rt_run r (ops1 ++ ops2) = r' ← rt_run r ops1; rt_run r' ops2.
Proof.
  revert r. induction ops1 as [|op ops1 IH]; intros r; [done|]. cbn [app]. rewrite !rt_run_cons.
  destruct (rt_step Hash fuel conf r op); [apply IH|done].
Qed.

Lemma mb_events_app p ch r ops1 ops2 r' :
  rt_run r ops1 = Some r' → mb_events p ty ch r (ops1 ++ ops2) = mb_events p ty ch r ops1 ++ mb_events p ty ch r' ops2.
Proof.
  revert r. induction ops1 as [|op ops1 IH]; intros r; [by intros [= <-]|]. rewrite rt_run_cons. cbn [app Reader.mb_events].
  destruct (rt_step Hash fuel conf r op) as [r1|]; [|done]. cbn [mbind option_bind]. intros E. by rewrite (IH r1 E), app_assoc.
Qed.

Lemma board_run_cons n b op ops n' :
  net_step n op = Some n' → board_run n b (op :: ops) = board_run n' (foldl board_step b (changes n n')) ops.
Proof. intros E. cbn [Node.board_run]. by rewrite E. Qed.

(** What the calls [ops] may use up. *)
Definition cost (n : Net) (ops : list NetOp) : nat := length ops * (count n + 2 * length ops + 2).

(** A run succeeds; to the readers' runtime it is a run of calls of its own, in which the
    messages are those of the board's connections. *)
Lemma net_run_sim ops N n b gone :
  (N + cost n ops < fuel)%nat → net_inv N n b gone → Forall net_op_ok ops →
  ∃ n', net_run n ops = Some n' ∧ renamed (topo n) (topo n') ∧ (count n' <= count n + 2 * length ops)%nat ∧
    (∃ gone', net_inv (N + cost n ops) n' (board_run n b ops) gone') ∧
    ∃ rops, rt_run (rt n) rops = Some (rt n') ∧ Forall rt_op_ok rops ∧ (length rops <= cost n ops)%nat ∧
      ∀ p c ch, named (topo n) KChannel ch c → mb_events p ty ch (rt n) rops = net_events p c n b ops.
Proof using Hash_u64 Hfuel Hgroups Hmode uuid_inj.
  unfold cost. revert N n b gone. induction ops as [|op ops IH]; intros N n b gone HN Hi Hok.
  { exists n. split; [done|]. split; [done|]. split; [lia|]. split; [exists gone; cbn [length Nat.mul]; by rewrite Nat.add_0_r|].
    exists []. split; [done|]. split; [done|]. split; [cbn; lia|]. done. }
  apply Forall_cons in Hok as [Hop Hok]. cbn [length] in *.
  destruct (net_step_sim N n op b gone ltac:(nia) Hi Hop) as (n1 & E & [Hr Hc [gone1 Hi1] (ops1 & R1 & R2 & R3 & R4)]).
  destruct (IH (N + count n + 2)%nat n1 _ gone1 ltac:(nia) Hi1 Hok) as (n' & E' & Hr' & Hc' & (gone' & Hi') & ops2 & S1 & S2 & S3 & S4).
  exists n'. rewrite net_run_cons, E. split; [exact E'|]. split; [by etrans|]. split; [lia|]. rewrite (board_run_cons n b op ops n1 E).
  split; [exists gone'; apply (net_inv_le (N + count n + 2 + length ops * (count n1 + 2 * length ops + 2))); [nia|done]|].
  exists (ops1 ++ ops2). rewrite rt_run_app, R1. split; [exact S1|]. split; [by apply Forall_app|].
  split; [rewrite length_app; nia|]. intros p c ch Hn. rewrite (mb_events_app p ch (rt n) ops1 ops2 (rt n1) R1), (R4 p c ch Hn).
  cbn [Node.net_events]. rewrite E. f_equal. apply S4. by apply Hr.
Qed.

(** ** The theorems *)

#[local] Abbreviation net_new := (net_new conf host pid).

Lemma net_new_inv : net_inv 0 net_new board_new (λ _, False).
Proof.
  split; [split| |split|split|split|split]; try done.
  - apply rt_new_inv.
  - exists []. split; [|done]. intros k. assert (map_of (names (topo net_new)) k = ks_empty) as -> by by destruct k. split.
    + split; [apply ks_empty_inv|]. intros id name _ Hv. by rewrite ks_empty_view in Hv.
    + intros id _ [? Hv]. by rewrite ks_empty_view in Hv.
  - intros s. split; [intros Hs; by apply not_elem_of_nil in Hs|]. destruct s as [rid|wid]; [by intros [? ?]|by intros (w & ? & _)].
  - intros k _. split; [by intros []|done].
  - by intros wid w [? _].
  - by intros wid wid' w w' [? _].
  - intros key r Hr. by apply not_elem_of_nil in Hr.
  - by intros wid w [? _].
  - intros key r Hr. by apply not_elem_of_nil in Hr.
Qed.

(** What is enough fuel for [l] calls. *)
Definition enough (l : nat) : Prop := (2 * S l * S l < fuel)%nat.

Lemma reached ops :
  Forall net_op_ok ops → enough (length ops) →
  ∃ n N gone, net_run net_new ops = Some n ∧ net_inv N n (board_run net_new board_new ops) gone ∧
    (N <= 2 * length ops * S (length ops))%nat ∧ (count n <= 2 * length ops)%nat ∧
    ∀ p, (fresh (sched (process (rt n))) <= p)%nat → filter (λ c, c_routine c = p) (Reader.calls (rt n)) = [].
Proof using Hash_u64 Hfuel Hgroups Hmode uuid_inj.
  unfold enough. intros Hok Hf. destruct (net_run_sim ops 0 net_new board_new (λ _, False)) as (n & E & _ & Hc & (gone & Hi) & rops & R1 & R2 & R3 & _);
    [unfold cost; cbn [count Node.net_new]; nia|apply net_new_inv|done|].
  exists n, (0 + cost net_new ops)%nat, gone. split; [done|]. split; [done|]. unfold cost in *. cbn [count Node.net_new] in *.
  split; [nia|]. split; [lia|]. intros p Hp.
  destruct (run_all Hash Hash_u64 fuel conf Hgroups Hfuel 0 (rt_new conf) rops) as (r & E' & _ & Hg & _); [nia|done|by apply rt_new_inv|].
  change (rt net_new) with (rt_new conf) in R1. rewrite R1 in E'. injection E' as <-. destruct Hg as (_ & _ & Hg). by rewrite Hg.
Qed.

Lemma board_run_app n b ops1 ops2 n' :
  net_run n ops1 = Some n' → board_run n b (ops1 ++ ops2) = board_run n' (board_run n b ops1) ops2.
Proof.
  revert n b. induction ops1 as [|op ops1 IH]; intros n b; [by intros [= <-]|]. rewrite net_run_cons. cbn [app Node.board_run].
  destruct (net_step n op) as [n1|]; [|done]. cbn [mbind option_bind]. apply IH.
Qed.

(** [C1] The process is a switchboard.  Through any calls of its users on nodes, writers
    and readers and any turns of the processors, none of which gets stuck, a reader that a
    node creates at some point is called back, in its coroutine, with exactly the messages
    that a mailbox yields into which are put, as they are written, the messages of the
    writers of its channel that the switchboard connects; who is connected is told by the
    comings and goings of readers and writers alone.  So it gets them in the order in
    which they were written, each at most once. *)
Theorem process_switchboard ops1 now nid role f size ops2 :
  let op := DoCreateReader now nid role f size in
  Forall net_op_ok (ops1 ++ op :: ops2) → enough (length (ops1 ++ op :: ops2)) → 0 < size < 2 ^ 32 →
  ∃ n0 n1 n2 or, net_run net_new ops1 = Some n0 ∧
    CreateReader Hash fuel conf host pid mode env uuid ty tname desc now n0 nid role f size = Some (n1, or) ∧
    net_run n1 ops2 = Some n2 ∧
    let b := board_run net_new board_new (ops1 ++ [op]) in
    let p := fresh (sched (process (rt n0))) in
    let events := net_events p (chan role) n1 b ops2 in
    let mb := foldl (mb_step size) mb_new events in
    ∀ rid, or = Some rid → is_Some (routines (rt n2) !! p) →
      filter (λ c, c_routine c = p) (Reader.calls (rt n2)) = mkCall p rid f <$> mb_taken mb ∧
      mb_taken mb ++ mb_unread mb `sublist_of` puts events.
Proof using Hash_u64 Hfuel Hgroups Hmode uuid_inj.
  intros op [Hok1 [Hop Hok2]%Forall_cons]%Forall_app Hf Hsz. unfold enough in *. rewrite length_app in Hf. cbn [length] in Hf.
  destruct (reached ops1 Hok1) as (n0 & N & gone & E0 & Hi0 & HN & Hc0 & Hcalls); [unfold enough; nia|].
  destruct (CreateReader_sim N now n0 nid role f size _ gone ltac:(nia) Hi0) as (n1 & or & E1 & [_ Hc1 [gone1 Hi1] _] & Hor).
  assert (net_step n0 op = Some n1) as Es by (unfold op; cbn [Node.net_step]; by rewrite E1).
  assert (board_run net_new board_new (ops1 ++ [op]) = foldl board_step (board_run net_new board_new ops1) (changes n0 n1)) as Eb.
  { rewrite (board_run_app _ _ _ _ n0 E0). by rewrite (board_run_cons _ _ op [] n1 Es). }
  rewrite <- Eb in Hi1. set (b := board_run _ _ (ops1 ++ [op])) in *.
  destruct (net_run_sim ops2 (2 + N) n1 b gone1) as (n2 & E2 & _ & _ & _ & rops & R1 & R2 & R3 & R4); [unfold cost; nia|done|done|].
  exists n0, n1, n2, or. split; [done|]. split; [done|]. split; [done|]. cbn zeta. intros rid -> Hend.
  destruct (Hor rid eq_refl) as [Hp Hmail]. destruct (Hmail Hsz (Hcalls _ (le_n _))) as (ch & Hch & Hm).
  unfold cost in R3.
  destruct (run_all Hash Hash_u64 fuel conf Hgroups Hfuel (2 + N) (rt n1) rops) as (r & E' & _ & _ & Hrun);
    [nia|done|apply (ob_rt _ _ Hi1)|]. rewrite R1 in E'. injection E' as <-.
  destruct (Hrun _ rid ty ch size f mb_new [] (proj1 Hsz) ltac:(cbn; nia) Hp Hm Hend) as (hist & [_ Hcl]).
  rewrite (R4 _ (chan role) ch Hch) in Hcl. split; [exact Hcl|apply mb_sublist].
Qed.

(** [C20] When one reader of a channel is shut down, every writer of the channel falls
    silent: its messages reach no reader of the process, whoever else still reads there.
    [Write] answers true all the same. *)
Theorem one_leaves_all_silent ops now rid n r a :
  Forall net_op_ok ops → enough (S (length ops)) → net_run net_new ops = Some n →
  Reader.readers (rt n) !! rid = Some r → init_ r = true → reader_roles n !! rid = Some a →
  ∃ n1, Reader_Shutdown now n rid = Some n1 ∧ live_writers n1 = live_writers n ∧
    ∀ wid m, wid ∈ live_writers n → writer_channel n wid = chan a →
    ∃ n2, Node.Writer_Write ty tname F SZ P n1 wid m = Some (n2, true) ∧ rt n2 = rt n1.
Proof using Hash_u64 Hfuel Hgroups Hmode uuid_inj.
  intros Hok Hf E Er Ei Ea. unfold enough in Hf. destruct (reached ops Hok) as (n0 & N & gone & E0 & Hi & HN & _); [unfold enough; nia|].
  rewrite E in E0. injection E0 as <-. set (b := board_run net_new board_new ops) in *.
  destruct (Reader_Shutdown_inv N now n rid r a gone b Hi Er Ea Ei) as (n1 & E1 & _ & _ & _ & El & _ & _ & _ & _ & _ & Hi1).
  exists n1. split; [done|]. split; [done|]. intros wid m Hw Hch.
  destruct (proj1 (elem_of_live n wid) Hw) as (w & Hlw). destruct (wr_live _ _ _ Hi _ _ Hlw) as (k & on & _ & _ & _ & Hb & _).
  unfold writer_channel in Hch. rewrite (proj1 Hlw) in Hch. change (chan (w_role w) = chan a) in Hch.
  destruct (Writer_Write_inv F SZ P N n1 wid m _ gone ltac:(nia) Hi1) as (n2 & ok & ops2 & E2 & _ & _ & _ & _ & _ & _ & _ & _ & Hsilent & _).
  rewrite <- El in Hw. apply elem_of_live in Hw as (w1 & Hw1 & Hi2).
  exists n2. split.
  - rewrite E2. f_equal. f_equal. unfold Node.Writer_Write in E2. rewrite Hw1, Hi2 in E2.
    destruct (wr_live _ _ _ Hi1 _ _ (conj Hw1 Hi2)) as (k1 & on1 & _ & _ & (_ & h & Eh & _) & _). rewrite Eh in E2.
    destruct (Transmit h m) as [h' ms]. apply bind_Some in E2 as (x & _ & [= _ <-]). done.
  - apply Hsilent. intros c. cbn. rewrite lookup_fmap, Hb. cbn. rewrite switch_eq, decide_True by done. congruence.
Qed.
End board.

(** ** Witnesses *)

Definition demo_uuid (k : nat) : Z := 1000 + Z.of_nat k.
#[global] Instance demo_uuid_inj : Inj eq eq demo_uuid.
Proof. intros k k'. unfold demo_uuid. lia. Qed.

(** A process with a fixed environment; the messages of the arena and of other processes
    play no part here. *)
Section demo.
Abbreviation with_env f := (f demo_hash 700%nat demo_sched "h"%string "10.0.0.1"%string 7 (None : option CommunicationMode) (mkEnv true true true)
  (None : option Z) false demo_uuid 0 "T"%string (λ _ : string, EmptyString) (λ _ : nat, 1) (λ m : nat, Some [Z.of_nat m])
  (λ (_ : string) (l : list Z), Z.to_nat <$> head l)) (only parsing).
Definition demo_net_run : Net → list NetOp → option Net := with_env (@net_run).
Definition demo_net_step : Net → NetOp → option Net := with_env (@net_step).
Definition demo_board_run : Net → Board → list NetOp → Board := with_env (@board_run).
Definition demo_net_events : CrPtr → string → Net → Board → list NetOp → list MbEvent := with_env (@net_events).
End demo.
Definition demo_net : Net := net_new demo_sched "h" 7.
Definition demo_role (c : string) : RoleAttributes :=
  mkRoleAttributes None None None None (Some c) None None None None None None None None.
Definition turn : NetOp := DoTurn 0 "pool" Datatypes.id.

(** Node "beta" writes to channel "c1", as writer 2. *)
Definition demo_before : list NetOp :=
  [DoNode 0 "alpha"; DoNode 0 "beta"; DoCreateWriter 0 1 (demo_role "c1")].
(** Node "alpha" reads it, as reader 4. *)
Definition demo_create : NetOp := DoCreateReader 0 0 (demo_role "c1") (Some 40%nat) 5.
(** Then "beta" reads it too, as reader 6. *)
Definition demo_after : list NetOp :=
  [DoWrite 2 100; turn; turn; DoCreateReader 0 1 (demo_role "c1") (Some 41%nat) 5; DoWrite 2 101; turn; turn; turn; turn].
(** And stops reading. *)
Definition demo_last : list NetOp := [DoShutdownReader 0 6; DoWrite 2 102; turn; turn].

Definition net_after (ops : list NetOp) : Net := default demo_net (demo_net_run demo_net ops).

Definition demo_n0 : Net := net_after demo_before.
Definition demo_n1 : Net := net_after (demo_before ++ [demo_create]).
Definition demo_n2 : Net := net_after (demo_before ++ demo_create :: demo_after).
Definition demo_end_net : Net := net_after (demo_before ++ demo_create :: demo_after ++ demo_last).

Lemma demo_calls_fine : Forall net_op_ok (demo_before ++ demo_create :: demo_after ++ demo_last).
Proof.
  assert (net_op_ok turn) by by intros c.
  unfold demo_before, demo_after, demo_last. cbn [app]. repeat (apply Forall_cons; split; [done|]). apply Forall_nil. done.
Qed.

Lemma process_switchboard_witness :
  filter (λ c, c_routine c = 0%nat) (Reader.calls (rt demo_end_net)) = [mkCall 0 4 (Some 40%nat) 100; mkCall 0 4 (Some 40%nat) 101].
Proof.
  destruct (process_switchboard demo_hash demo_hash_u64 700 ltac:(lia) demo_sched ltac:(done) "h" "10.0.0.1" 7 None (mkEnv true true true) None false
    ltac:(done) demo_uuid _ 0 "T" (λ _, EmptyString) (λ _, 1) (λ m, Some [Z.of_nat m]) (λ _ l, Z.to_nat <$> head l)
    demo_before 0 0 (demo_role "c1") (Some 40%nat) 5 (demo_after ++ demo_last))
    as (n0 & n1 & n2 & or & E0 & E1 & E2 & H);
    [apply demo_calls_fine|unfold enough; cbn; lia|lia|].
  assert (demo_net_run demo_net demo_before = Some demo_n0) as F0 by (vm_compute; reflexivity).
  pose proof (eq_trans (eq_sym E0) F0) as G0. apply (inj Some) in G0 as ->.
  assert (CreateReader demo_hash 700 demo_sched "h" 7 None (mkEnv true true true) demo_uuid 0 "T" (λ _, EmptyString) 0 demo_n0 0 (demo_role "c1") (Some 40%nat) 5 = Some (demo_n1, Some 4%nat)) as F1 by (vm_compute; reflexivity).
  pose proof (eq_trans (eq_sym E1) F1) as G1. apply (inj Some), pair_eq in G1 as [-> ->].
  assert (demo_net_run demo_n1 (demo_after ++ demo_last) = Some demo_end_net) as F2 by (vm_compute; reflexivity).
  pose proof (eq_trans (eq_sym E2) F2) as G2. apply (inj Some) in G2 as ->.
  destruct (H 4%nat eq_refl) as [H1 _]; [vm_compute; eauto|]. etrans; [exact H1|]. vm_compute. reflexivity.
Defined.

Definition demo_shutdown (n : Net) (rid : nat) : option Net := Reader_Shutdown demo_hash (mkEnv true true true) "T" 0 n rid.
Definition demo_write (n : Net) (wid m : nat) : option (Net * bool) :=
  Writer_Write 0 "T" (λ _, 1) (λ m, Some [Z.of_nat m]) (λ _ l, Z.to_nat <$> head l) n wid m.

Lemma one_leaves_all_silent_witness :
  ∃ n1 n2, demo_shutdown demo_n2 6 = Some n1 ∧ (init_ <$> Reader.readers (rt n1) !! 4%nat) = Some true ∧
    demo_write n1 2 102 = Some (n2, true) ∧ rt n2 = rt n1.
Proof.
  destruct (one_leaves_all_silent demo_hash demo_hash_u64 700 ltac:(lia) demo_sched ltac:(done) "h" "10.0.0.1" 7 None (mkEnv true true true) None false
    ltac:(done) demo_uuid _ 0 "T" (λ _, EmptyString) (λ _, 1) (λ m, Some [Z.of_nat m]) (λ _ l, Z.to_nat <$> head l)
    (demo_before ++ demo_create :: demo_after) 0 6 demo_n2
    (default (Reader_new "" "" 0 0 0 None 0) (Reader.readers (rt demo_n2) !! 6%nat)) (default no_attributes (reader_roles demo_n2 !! 6%nat)))
    as (n1 & E1 & _ & H);
    [pose proof demo_calls_fine as Hok; by rewrite app_comm_cons, app_assoc in Hok; apply Forall_app in Hok as [Hok _]|unfold enough; cbn; lia
    |vm_compute; reflexivity|vm_compute; reflexivity|vm_compute; reflexivity|vm_compute; reflexivity|].
  destruct (H 2%nat 102%nat) as (n2 & E2 & Er); [vm_compute; eauto|vm_compute; reflexivity|].
  exists n1, n2. split; [exact E1|]. split; [|by split].
  assert (demo_shutdown demo_n2 6 = Some (net_after (demo_before ++ demo_create :: demo_after ++ [DoShutdownReader 0 6]))) as E4
    by (vm_compute; reflexivity).
  pose proof (eq_trans (eq_sym E1) E4) as E5. apply (inj Some) in E5 as ->. vm_compute. reflexivity.
Defined.
