(* ===== verification/RecordFile.v ===== *)
(** * Record files: data, bytes and sections (cyber/record/file/section.h,
    record_file_base, the section parts of record_file_writer.h and record_file_reader,
    header_builder)

    A record file is a header section padded to a fixed length, followed by sections,
    each a type and a size before a serialized message.  The messages (proto/record.proto)
    are records of the fields the code uses; their serialization is protobuf's, the
    interface [Codec] with the laws the code relies on.  The optional map and vehicle
    information of the header is left out.  Bytes are integers in [0, 256). *)

From stdpp Require Import base numbers list gmap strings.
From Stdlib Require Import ZArith Lia.
From S2P Require Import Prelude WireFormat.

Open Scope nat_scope.

(** ** Messages of proto/record.proto *)

Record SingleMessage := mkMessage { channel_name : string; time : Z; content : list Z }.
Record Channel := mkChannel { name : string; message_type : string; proto_desc : string }.
Record ChunkHeader := mkChunkHeader { begin_time : Z; end_time : Z; message_number : Z; raw_size : Z }.
Record ChunkBody := mkChunkBody { messages : list SingleMessage }.

(** [SectionType]; the number read from a file can be another. *)
Definition SECTION_HEADER : Z := 0.
Definition SECTION_CHUNK_HEADER : Z := 1.
Definition SECTION_CHUNK_BODY : Z := 2.
Definition SECTION_INDEX : Z := 3.
Definition SECTION_CHANNEL : Z := 4.

(** [SingleIndex]'s cache is a union. *)
Record ChannelCache := mkChannelCache {
  cc_message_number : Z; cc_name : string; cc_message_type : string; cc_proto_desc : string
}.
Inductive Cache :=
  | channel_cache (c : ChannelCache)
  | chunk_header_cache (h : ChunkHeader)
  | chunk_body_cache (message_number : Z).
Record SingleIndex := mkIndex { type_ : Z; position : Z; cache : option Cache }.
Definition Index := list SingleIndex.

Record Header := mkHeader {
  major_version : Z; minor_version : Z; compress : Z; chunk_interval : Z; segment_interval : Z;
  chunk_raw_size : Z; segment_raw_size : Z;
  index_position : Z; chunk_number : Z; channel_number : Z; h_begin_time : Z; h_end_time : Z;
  h_message_number : Z; size : Z; is_complete : bool
}.

(** A header with the settings of [h] and these counts. *)
Definition with_counts (h : Header) (index_position chunk_number channel_number begin_time end_time
    message_number size : Z) (is_complete : bool) : Header :=
  mkHeader (major_version h) (minor_version h) (compress h) (chunk_interval h) (segment_interval h)
    (chunk_raw_size h) (segment_raw_size h) index_position chunk_number channel_number begin_time
    end_time message_number size is_complete.

Definition set_size (h : Header) (n : Z) : Header :=
  with_counts h (index_position h) (chunk_number h) (channel_number h) (h_begin_time h) (h_end_time h)
    (h_message_number h) n (is_complete h).
Definition set_index_position (h : Header) (n : Z) : Header :=
  with_counts h n (chunk_number h) (channel_number h) (h_begin_time h) (h_end_time h)
    (h_message_number h) (size h) (is_complete h).
Definition set_is_complete (h : Header) (b : bool) : Header :=
  with_counts h (index_position h) (chunk_number h) (channel_number h) (h_begin_time h) (h_end_time h)
    (h_message_number h) (size h) b.
Definition set_channel_number (h : Header) (n : Z) : Header :=
  with_counts h (index_position h) (chunk_number h) n (h_begin_time h) (h_end_time h)
    (h_message_number h) (size h) (is_complete h).

(** [Header()], every field unset. *)
Definition Header_default : Header := mkHeader 0 0 0 0 0 0 0 0 0 0 0 0 0 0 false.

(** ** HeaderBuilder *)

Definition GetHeaderWith (chunk_interval chunk_raw_size segment_interval segment_raw_size : Z) : Header :=
  mkHeader 1 0 0 chunk_interval segment_interval chunk_raw_size segment_raw_size 0 0 0 0 0 0 0 false.
Definition CHUNK_INTERVAL_ : Z := 20 * 1000 * 1000 * 1000.
Definition SEGMENT_INTERVAL_ : Z := 60 * 1000 * 1000 * 1000.
Definition CHUNK_RAW_SIZE_ : Z := 16 * 1024 * 1024.
Definition SEGMENT_RAW_SIZE_ : Z := 2048 * 1024 * 1024.
Definition GetHeader : Header :=
  GetHeaderWith CHUNK_INTERVAL_ CHUNK_RAW_SIZE_ SEGMENT_INTERVAL_ SEGMENT_RAW_SIZE_.
Definition GetHeaderWithSegmentParams (segment_interval segment_raw_size : Z) : Header :=
  GetHeaderWith CHUNK_INTERVAL_ CHUNK_RAW_SIZE_ segment_interval segment_raw_size.
Definition GetHeaderWithChunkParams (chunk_interval chunk_raw_size : Z) : Header :=
  GetHeaderWith chunk_interval chunk_raw_size SEGMENT_INTERVAL_ SEGMENT_RAW_SIZE_.

(** ** Serialization *)

(** Protobuf's [SerializeToZeroCopyStream] and [ParseFromCodedStream] under a limit, from
    the bytes that follow in the file. *)
Class Codec (T : Type) := { encode : T → list Z; parse : Z → list Z → option T }.

(** Parsing what was serialized, with its length as the limit, gives it back. *)
Definition parses_back {T} `{Codec T} (m : T) : Prop :=
  ∀ rest, parse (Z.of_nat (length (encode m))) (encode m ++ rest) = Some m.

(** How many bytes a [FileInputStream] with this block size takes out of a file where
    [rest] bytes remain, and that a positive number of bytes there are is taken exactly. *)
Class Stream := { taken : Z → nat → nat }.
Class StreamLaws `{Stream} :=
  { taken_exact : ∀ n rest, 0 < n → n <= rest → taken (Z.of_nat n) rest = n }.

(** [ByteSizeLong()]. *)
Definition ByteSizeLong {T} `{Codec T} (m : T) : nat := length (encode m).

(** Which branch a section's type takes. *)
Ltac section_type :=
  repeat match goal with
    | |- context [(?a =? ?b)%Z] => let r := eval vm_compute in (a =? b)%Z in change (a =? b)%Z with r
    end; cbv iota.

(** ** The file under the writer *)

(** An open file: its bytes and the position. *)
Record Fd := mkFd { bytes : list Z; pos : nat }.

(** The place left on the disk: no file grows past [Some room] bytes. *)
Definition Room := option nat.

(** [write(fd, bs)]: what fits is written; the count, negative when nothing fits. *)
Definition write (room : Room) (fd : Fd) (bs : list Z) : Fd * Z :=
  let n := match room with Some r => length bs `min` (r - pos fd) | None => length bs end in
  if decide (n = 0 ∧ bs ≠ []) then (fd, (-1)%Z)
  else (mkFd (write_at (bytes fd) (pos fd) (take n bs)) (pos fd + n), Z.of_nat n).

(** [Section]: the bytes of the struct, four of them padding. *)
Definition section_length : nat := 16.
Definition HEADER_LENGTH : nat := 2048.
Definition Section_bytes (type size : Z) : list Z := le_bytes 4 type ++ [0; 0; 0; 0]%Z ++ le_bytes 8 size.
Definition Section_type (bs : list Z) : Z := i32 (of_le (read_at bs 0 4)).
Definition Section_size (bs : list Z) : Z := i64 (of_le (read_at bs 8 8)).

(** The padding of the header section. *)
Definition blank : list Z := 48%Z :: replicate (HEADER_LENGTH - 1) 0%Z.

(** [WriteSection(message)] of the given type.  The result of the serialization itself
    is not looked at.  For a header longer than [HEADER_LENGTH] the code would write past
    its array of blanks; the model then writes none. *)
Definition WriteSection {T} `{Codec T} (room : Room) (fd : Fd) (type : Z) (message : T) : Fd * bool :=
  let fd := if decide (type = SECTION_HEADER) then mkFd (bytes fd) 0 else fd in
  let '(fd, count) := write room fd (Section_bytes type (Z.of_nat (ByteSizeLong message))) in
  if (count <? 0)%Z then (fd, false)
  else if negb (count =? Z.of_nat section_length)%Z then (fd, false)
  else
    let '(fd, _) := write room fd (encode message) in
    if decide (type = SECTION_HEADER) then
      let n := HEADER_LENGTH - ByteSizeLong message in
      let '(fd, count) := write room fd (take n blank) in
      if (count <? 0)%Z then (fd, false)
      else if negb (count =? Z.of_nat n)%Z then (fd, false)
      else (fd, true)
    else (fd, true).

(** ** The file under the reader *)

Record FileReader := mkFileReader {
  file : list Z; rpos : nat; end_of_file_ : bool; r_header_ : Header; r_index_ : Index
}.

Definition SetPosition (r : FileReader) (position : Z) : FileReader * bool :=
  if (position <? 0)%Z then (r, false)
  else (mkFileReader (file r) (Z.to_nat position) (end_of_file_ r) (r_header_ r) (r_index_ r), true).

Definition advance (r : FileReader) (n : nat) (eof : bool) : FileReader :=
  mkFileReader (file r) (rpos r + n) eof (r_header_ r) (r_index_ r).

(** The bytes from the position on. *)
Definition ahead (r : FileReader) : list Z := drop (rpos r) (file r).

(** [ReadSection(section)]: the type and the size. *)
Definition ReadSection (r : FileReader) : FileReader * option (Z * Z) :=
  let count := section_length `min` length (ahead r) in
  if decide (count = 0) then (advance r 0 true, None)
  else if negb (bool_decide (count = section_length)) then (advance r count (end_of_file_ r), None)
  else (advance r count (end_of_file_ r), Some (Section_type (ahead r), Section_size (ahead r))).

Definition SkipSection (r : FileReader) (size : Z) : FileReader * bool :=
  if (2 ^ 63 - 1 - Z.of_nat (rpos r) <? size)%Z then (r, false)
  else SetPosition r (Z.of_nat (rpos r) + size)%Z.

(** For the examples: it never finds the end. *)
Definition never_at_end : FileReader → Z → bool := λ _ _, false.

(** [ReadSection<T>(size, message)].  What the stream finds at its end when parsing
    fails there is [at_end]. *)
Definition ReadSectionT {T} `{Codec T} `{Stream} (at_end : FileReader → Z → bool) (r : FileReader) (size : Z)
  : FileReader * option T :=
  if ((size <? - 2 ^ 31) || (2 ^ 31 - 1 <? size))%Z then (r, None)
  else
    match parse size (ahead r) with
    | None => (advance r (taken size (length (ahead r))) (at_end r size), None)
    | Some message =>
        let r := advance r (taken size (length (ahead r))) (end_of_file_ r) in
        if negb (Z.of_nat (ByteSizeLong message) =? size)%Z then (r, None) else (r, Some message)
    end.

(** ** Lemmas *)

Lemma length_Section_bytes type size : length (Section_bytes type size) = section_length.
Proof. unfold Section_bytes. by rewrite !length_app, !length_le_bytes. Qed.

Lemma Section_type_bytes type size rest : is_i32 type → Section_type (Section_bytes type size ++ rest) = type.
Proof.
  intros H. unfold Section_type, Section_bytes. rewrite <- !app_assoc.
  rewrite read_at_head by (by rewrite length_le_bytes). by apply of_le_i32.
Qed.

Lemma Section_size_bytes type size rest : is_i64 size → Section_size (Section_bytes type size ++ rest) = size.
Proof.
  intros H. unfold Section_size, Section_bytes. rewrite <- !app_assoc, app_assoc.
  rewrite read_at_app by (rewrite ?length_app, ?length_le_bytes; done).
  rewrite of_le_bytes. change (256 ^ Z.of_nat 8)%Z with (2 ^ 64)%Z.
  change (i64 (u64 size) = size). unfold i64, u64, is_i64 in *.
  rewrite Z.add_mod_idemp_l by lia. rewrite Z.mod_small by lia. lia.
Qed.

Lemma length_blank : length blank = HEADER_LENGTH.
Proof. reflexivity. Qed.

(** With room, a write is a [write_at]. *)
Lemma write_all fd bs :
  write None fd bs = (mkFd (write_at (bytes fd) (pos fd) bs) (pos fd + length bs), Z.of_nat (length bs)).
Proof.
  unfold write. rewrite firstn_all. case_decide as E; [|done]. destruct E as [E Hne].
  by destruct bs.
Qed.

(** Writing after a prefix, over what there was. *)
Lemma write_after pre rest bs :
  write None (mkFd (pre ++ rest) (length pre)) bs =
  (mkFd (pre ++ bs ++ drop (length bs) rest) (length pre + length bs), Z.of_nat (length bs)).
Proof.
  rewrite write_all. cbn. unfold write_at. rewrite take_app_length.
  by rewrite drop_app_ge, Nat.add_comm, Nat.add_sub by lia.
Qed.

(** A section's bytes, and those of a header section. *)
Definition section_of {T} `{Codec T} (type : Z) (m : T) : list Z :=
  Section_bytes type (Z.of_nat (ByteSizeLong m)) ++ encode m.
Definition header_section (h : Header) `{Codec Header} : list Z :=
  section_of SECTION_HEADER h ++ take (HEADER_LENGTH - ByteSizeLong h) blank.

Lemma length_section_of {T} `{Codec T} type (m : T) :
  length (section_of type m) = section_length + ByteSizeLong m.
Proof. unfold section_of. by rewrite length_app, length_Section_bytes. Qed.

Lemma length_header_section `{Codec Header} (h : Header) :
  ByteSizeLong h <= HEADER_LENGTH → length (header_section h) = section_length + HEADER_LENGTH.
Proof.
  intros Hh. unfold header_section. rewrite length_app, length_section_of, length_take, length_blank.
  lia.
Qed.

(** Dropping in two steps what two writes overwrite. *)
Lemma drop_two {A} (l : list A) n m : drop m (drop n l) = drop (n + m) l.
Proof. rewrite drop_drop. done. Qed.

Lemma WriteSection_after {T} `{Codec T} pre rest type (m : T) :
  type ≠ SECTION_HEADER →
  WriteSection None (mkFd (pre ++ rest) (length pre)) type m =
  (mkFd (pre ++ section_of type m ++ drop (length (section_of type m)) rest)
     (length pre + length (section_of type m)), true).
Proof.
  intros Ht. unfold WriteSection. rewrite !(decide_False (P := type = SECTION_HEADER)) by done. cbv zeta.
  rewrite write_after, length_Section_bytes. cbv iota beta.
  replace (Z.of_nat section_length <? 0)%Z with false by reflexivity. rewrite Z.eqb_refl. cbn [negb].
  rewrite app_assoc.
  replace (length pre + section_length) with
    (length (pre ++ Section_bytes type (Z.of_nat (ByteSizeLong m)))) by (rewrite length_app, length_Section_bytes; done).
  rewrite write_after, decide_False by done. cbv iota beta. rewrite length_section_of, drop_two. unfold section_of, ByteSizeLong.
  rewrite !length_app, length_Section_bytes, <- !app_assoc. by rewrite Nat.add_assoc.
Qed.

Lemma WriteSection_header `{Codec Header} fd (h : Header) :
  ByteSizeLong h <= HEADER_LENGTH →
  WriteSection None fd SECTION_HEADER h =
  (mkFd (header_section h ++ drop (section_length + HEADER_LENGTH) (bytes fd)) (section_length + HEADER_LENGTH), true).
Proof.
  intros Hh. unfold WriteSection. rewrite !(decide_True (P := SECTION_HEADER = SECTION_HEADER)) by done. cbv zeta.
  change (mkFd (bytes fd) 0) with (mkFd ([] ++ bytes fd) (length (@nil Z))).
  rewrite write_after, length_Section_bytes. cbv iota beta.
  replace (Z.of_nat section_length <? 0)%Z with false by reflexivity. rewrite Z.eqb_refl. cbn [negb app length].
  replace (0 + section_length) with
    (length (Section_bytes SECTION_HEADER (Z.of_nat (ByteSizeLong h)))) by (rewrite length_Section_bytes; done).
  rewrite write_after, decide_True by done. cbv iota beta. rewrite app_assoc.
  rewrite <- length_app. change (Section_bytes _ _ ++ encode h) with (section_of SECTION_HEADER h).
  rewrite write_after. cbv iota beta.
  assert (length (take (HEADER_LENGTH - ByteSizeLong h) blank) = HEADER_LENGTH - ByteSizeLong h) as Hlb
    by (rewrite length_take, length_blank; lia).
  rewrite Hlb. replace (Z.of_nat (HEADER_LENGTH - ByteSizeLong h) <? 0)%Z with false by (symmetry; apply Z.ltb_ge; lia).
  rewrite Z.eqb_refl. cbn [negb]. rewrite !drop_two. unfold header_section. rewrite length_section_of, <- app_assoc.
  unfold ByteSizeLong in *. do 2 f_equal; [do 3 f_equal|]; lia.
Qed.

(** Reading what was written: the reader before a section. *)
Lemma ReadSection_ahead r type size rest :
  is_i32 type → is_i64 size → ahead r = Section_bytes type size ++ rest →
  ReadSection r = (advance r section_length (end_of_file_ r), Some (type, size)) ∧
  ahead (advance r section_length (end_of_file_ r)) = rest.
Proof.
  intros Ht Hs Ha. split.
  - unfold ReadSection. rewrite Ha, length_app, length_Section_bytes.
    replace (section_length `min` (section_length + length rest)) with section_length by lia. cbv zeta.
    rewrite decide_False by done. rewrite bool_decide_eq_true_2 by done. cbn [negb].
    by rewrite Section_type_bytes, Section_size_bytes.
  - unfold ahead, advance in *. cbn [rpos file]. rewrite <- drop_two, Ha.
    by rewrite drop_app_length' by (by rewrite length_Section_bytes).
Qed.

Lemma ReadSectionT_ahead {T} `{Codec T} `{StreamLaws} at_end r (m : T) rest :
  parses_back m → 0 < ByteSizeLong m → (Z.of_nat (ByteSizeLong m) < 2 ^ 31)%Z → ahead r = encode m ++ rest →
  ReadSectionT at_end r (Z.of_nat (ByteSizeLong m)) =
    (advance r (ByteSizeLong m) (end_of_file_ r), Some m) ∧
  ahead (advance r (ByteSizeLong m) (end_of_file_ r)) = rest.
Proof.
  intros Hp Hpos Hmax Ha. split.
  - unfold ReadSectionT. replace (_ || _)%bool with false
      by (symmetry; apply orb_false_iff; split; apply Z.ltb_ge; lia).
    rewrite Ha. unfold ByteSizeLong in *. rewrite Hp, length_app, taken_exact by lia.
    by rewrite Z.eqb_refl.
  - unfold ahead, advance in *. cbn [rpos file]. rewrite <- drop_two, Ha.
    by rewrite drop_app_length' by done.
Qed.

Lemma SkipSection_ahead r n pre rest :
  ahead r = pre ++ rest → length pre = n → (Z.of_nat (rpos r + n) < 2 ^ 63)%Z →
  SkipSection r (Z.of_nat n) = (advance r n (end_of_file_ r), true) ∧
  ahead (advance r n (end_of_file_ r)) = rest.
Proof.
  intros Ha Hn Hmax. split.
  - unfold SkipSection, SetPosition. replace (_ <? _)%Z with false by (symmetry; apply Z.ltb_ge; lia).
    replace (_ <? 0)%Z with false by (symmetry; apply Z.ltb_ge; lia). unfold advance.
    by replace (Z.to_nat (Z.of_nat (rpos r) + Z.of_nat n)) with (rpos r + n) by lia.
  - unfold ahead, advance in *. cbn [rpos file]. rewrite <- drop_two, Ha.
    by rewrite drop_app_length' by done.
Qed.

(** A disk that fills up within a section's contents goes unnoticed: the section counts
    as written though its contents are not. *)
Theorem full_disk_unnoticed {T} `{Codec T} (fd : Fd) (type : Z) (m : T) :
  type ≠ SECTION_HEADER → pos fd = length (bytes fd) →
  WriteSection (Some (pos fd + section_length)) fd type m =
  (mkFd (bytes fd ++ Section_bytes type (Z.of_nat (ByteSizeLong m))) (pos fd + section_length), true).
Proof.
  intros Ht Hp. unfold WriteSection. rewrite decide_False by done. unfold write at 1.
  rewrite length_Section_bytes. replace (section_length `min` (pos fd + section_length - pos fd)) with section_length by lia.
  rewrite decide_False by (intros [? _]; done). cbv iota zeta beta.
  change (Z.of_nat section_length <? 0)%Z with false. rewrite Z.eqb_refl. cbn [negb].
  rewrite take_ge by (by rewrite length_Section_bytes). unfold write_at.
  rewrite Hp, take_ge, drop_ge by (rewrite ?length_Section_bytes; lia). rewrite app_nil_r.
  unfold write. cbn [pos]. rewrite Nat.sub_diag, Nat.min_0_r.
  destruct (decide (0 = 0 ∧ encode m ≠ [])); rewrite (decide_False (P := type = SECTION_HEADER)) by done; [done|].
  rewrite take_0, Nat.add_0_r. cbn [bytes]. unfold write_at.
  by rewrite take_ge, drop_ge, app_nil_r by (rewrite length_app, length_Section_bytes; cbn [length]; lia).
Qed.
