(* ===== verification/RecordWriter.v ===== *)
(** * Writing records (cyber/record/file/record_file_writer, record_writer)

    A file writer collects messages in the active chunk; when it is full it is swapped
    with the flush chunk, which a thread of its own writes to the file.  The caller's
    calls and the steps of that thread are interleaved: the thread holds the flush lock
    while it writes a chunk, so its step is one, and the calls swap under the same lock.
    The flag [in_writing_] is read without the lock, so what a call reads is an argument.
    [RecordWriter] cuts the messages into files. *)

From stdpp Require Import base numbers list gmap strings pretty.
From Stdlib Require Import ZArith Lia.
From S2P Require Import Prelude WireFormat RecordFile.

Open Scope nat_scope.

(** ** Chunk *)

Record Chunk := mkChunk { c_header : ChunkHeader; c_body : list SingleMessage }.

(** [Chunk()], and [clear()]. *)
Definition Chunk_new : Chunk := mkChunk (mkChunkHeader 0 0 0 0) [].

Definition Chunk_add (c : Chunk) (message : SingleMessage) : Chunk :=
  let h := c_header c in
  let b := if (begin_time h =? 0)%Z then time message else begin_time h in
  let b := if (time message <? b)%Z then time message else b in
  let e := if (end_time h <? time message)%Z then time message else end_time h in
  mkChunk (mkChunkHeader b e (u64 (message_number h + 1))
             (u64 (raw_size h + Z.of_nat (length (content message))))) (c_body c ++ [message]).

Definition Chunk_empty (c : Chunk) : bool := (message_number (c_header c) =? 0)%Z.

(** ** RecordFileWriter *)

Record FileWriter := mkWriter {
  w_fd : Fd; w_header : Header; w_index : Index; is_writing_ : bool;
  chunk_active_ : Chunk; chunk_flush_ : Chunk; channel_message_number_map_ : gmap string Z
}.

Definition FileWriter_new : FileWriter := mkWriter (mkFd [] 0) Header_default [] false Chunk_new Chunk_new ∅.

Definition set_file (w : FileWriter) (fd : Fd) (h : Header) (i : Index) : FileWriter :=
  mkWriter fd h i (is_writing_ w) (chunk_active_ w) (chunk_flush_ w) (channel_message_number_map_ w).
Definition set_chunks (w : FileWriter) (active flush : Chunk) : FileWriter :=
  mkWriter (w_fd w) (w_header w) (w_index w) (is_writing_ w) active flush (channel_message_number_map_ w).

(** [Open(path)] of a file that held the bytes [old]: they are not cut off. *)
Definition Open (w : FileWriter) (can_open : bool) (old : list Z) : FileWriter * bool :=
  if negb can_open then (w, false)
  else (mkWriter (mkFd old 0) (w_header w) (w_index w) true Chunk_new Chunk_new
          (channel_message_number_map_ w), true).

Section writer.
Context (room : Room).
Context `{Codec Header, Codec Channel, Codec ChunkHeader, Codec ChunkBody, Codec Index}.

(** [WriteSection<T>(message)], with the update of the file's size in the header. *)
Definition write_section {T} `{Codec T} (w : FileWriter) (type : Z) (message : T) : FileWriter * bool :=
  let '(fd, ok) := WriteSection room (w_fd w) type message in
  if ok then (set_file w fd (set_size (w_header w) (Z.of_nat (pos fd))) (w_index w), true)
  else (set_file w fd (w_header w) (w_index w), false).

Definition WriteHeader (w : FileWriter) (header : Header) : FileWriter * bool :=
  write_section (set_file w (w_fd w) header (w_index w)) SECTION_HEADER header.

(** The channels' numbers of messages are filled in, then the index is written. *)
Definition count_channel (numbers : gmap string Z) (i : SingleIndex) : SingleIndex :=
  if (type_ i =? SECTION_CHANNEL)%Z then
    match cache i with
    | Some (channel_cache c) =>
        match numbers !! cc_name c with
        | Some n => mkIndex (type_ i) (position i)
            (Some (channel_cache (mkChannelCache n (cc_name c) (cc_message_type c) (cc_proto_desc c))))
        | None => i
        end
    | _ => i
    end
  else i.

Definition WriteIndex (w : FileWriter) : FileWriter * bool :=
  let index : Index := count_channel (channel_message_number_map_ w) <$> w_index w in
  let h := set_index_position (w_header w) (Z.of_nat (pos (w_fd w))) in
  write_section (set_file w (w_fd w) h index) SECTION_INDEX index.

Definition WriteChannel (w : FileWriter) (channel : Channel) : FileWriter * bool :=
  let p := Z.of_nat (pos (w_fd w)) in
  let '(w, ok) := write_section w SECTION_CHANNEL channel in
  if negb ok then (w, false)
  else
    let h := set_channel_number (w_header w) (u64 (channel_number (w_header w) + 1)) in
    let c := mkChannelCache 0 (name channel) (message_type channel) (proto_desc channel) in
    (set_file w (w_fd w) h (w_index w ++ [mkIndex SECTION_CHANNEL p (Some (channel_cache c))]), true).

(** What [WriteChunk] does to the header. *)
Definition count_chunk (h : Header) (chunk_header : ChunkHeader) : Header :=
  with_counts h (index_position h) (u64 (chunk_number h + 1)) (channel_number h)
    (if (h_begin_time h =? 0)%Z then begin_time chunk_header else h_begin_time h)
    (end_time chunk_header) (u64 (h_message_number h + message_number chunk_header)) (size h) (is_complete h).

Definition WriteChunk (w : FileWriter) (chunk_header : ChunkHeader) (chunk_body : ChunkBody)
  : FileWriter * bool :=
  let p := Z.of_nat (pos (w_fd w)) in
  let '(w, ok) := write_section w SECTION_CHUNK_HEADER chunk_header in
  if negb ok then (w, false)
  else
    let w := set_file w (w_fd w) (w_header w)
               (w_index w ++ [mkIndex SECTION_CHUNK_HEADER p (Some (chunk_header_cache chunk_header))]) in
    let p := Z.of_nat (pos (w_fd w)) in
    let '(w, ok) := write_section w SECTION_CHUNK_BODY chunk_body in
    if negb ok then (w, false)
    else
      let n := u64 (i32 (Z.of_nat (length (messages chunk_body)))) in
      (set_file w (w_fd w) (count_chunk (w_header w) chunk_header)
         (w_index w ++ [mkIndex SECTION_CHUNK_BODY p (Some (chunk_body_cache n))]), true).

(** Whether [WriteMessage] hands the active chunk over. *)
Definition need_flush (h : Header) (active : Chunk) (in_writing : bool) (message : SingleMessage) : bool :=
  ((0 <? chunk_interval h) && (chunk_interval h <? u64 (time message - begin_time (c_header active))) ||
   negb in_writing && (0 <? chunk_raw_size h) && (chunk_raw_size h <? raw_size (c_header active)))%Z.

(** [WriteMessage(message)], where [in_writing_] reads [in_writing]. *)
Definition WriteMessage (w : FileWriter) (in_writing : bool) (message : SingleMessage) : FileWriter :=
  let active := Chunk_add (chunk_active_ w) message in
  let numbers :=
    match channel_message_number_map_ w !! channel_name message with
    | Some n => <[channel_name message := u64 (n + 1)]> (channel_message_number_map_ w)
    | None => <[channel_name message := 1%Z]> (channel_message_number_map_ w)
    end in
  let w := mkWriter (w_fd w) (w_header w) (w_index w) (is_writing_ w) active (chunk_flush_ w) numbers in
  if need_flush (w_header w) active in_writing message then set_chunks w (chunk_flush_ w) active
  else w.

(** One round of the flush thread. *)
Definition Flush (w : FileWriter) : FileWriter :=
  if negb (is_writing_ w) then w
  else if Chunk_empty (chunk_flush_ w) then w
  else
    let w := (WriteChunk w (c_header (chunk_flush_ w)) (mkChunkBody (c_body (chunk_flush_ w)))).1 in
    set_chunks w (chunk_active_ w) Chunk_new.

(** [Close()]: it waits for the flush thread, swaps the chunks once more, waits again. *)
Definition Close (w : FileWriter) : FileWriter :=
  if is_writing_ w then
    let w := Flush w in
    let w := set_chunks w (chunk_flush_ w) (chunk_active_ w) in
    let w := Flush w in
    let w := mkWriter (w_fd w) (w_header w) (w_index w) false (chunk_active_ w) (chunk_flush_ w)
               (channel_message_number_map_ w) in
    let w := (WriteIndex w).1 in
    (WriteHeader w (set_is_complete (w_header w) true)).1
  else w.

Definition GetMessageNumber (w : FileWriter) (channel_name : string) : Z :=
  default 0%Z (channel_message_number_map_ w !! channel_name).

(** Calls and rounds of the flush thread, interleaved. *)
Inductive Ev := EvChannel (c : Channel) | EvMessage (in_writing : bool) (m : SingleMessage) | EvFlush.

Definition ev (w : FileWriter) (e : Ev) : FileWriter :=
  match e with
  | EvChannel c => (WriteChannel w c).1
  | EvMessage iw m => WriteMessage w iw m
  | EvFlush => Flush w
  end.
Definition evs (w : FileWriter) (l : list Ev) : FileWriter := foldl ev w l.

(** A file from [Open()] to [Close()]; [old] is what the path held. *)
Definition record_file (old : list Z) (header : Header) (l : list Ev) : FileWriter :=
  Close (evs (WriteHeader (Open FileWriter_new true old).1 header).1 l).

End writer.

(** ** What is in a file *)

(** The parts of a file behind its header. *)
Inductive Item := IChannel (c : Channel) | IChunk (h : ChunkHeader) (b : ChunkBody).

Definition item_messages (it : Item) : list SingleMessage :=
  match it with IChannel _ => [] | IChunk _ b => messages b end.
Definition all_messages (items : list Item) : list SingleMessage := concat (item_messages <$> items).

(** The header after the items, but for the size. *)
Definition count_item (h : Header) (it : Item) : Header :=
  match it with
  | IChannel _ => set_channel_number h (u64 (channel_number h + 1))
  | IChunk ch _ => count_chunk h ch
  end.

(** ** Values the serialization is relied on for *)

Definition valid_message (m : SingleMessage) : Prop := is_u64 (time m) ∧ Forall is_byte (content m).
Definition valid_chunk_header (h : ChunkHeader) : Prop :=
  is_u64 (begin_time h) ∧ is_u64 (end_time h) ∧ is_u64 (message_number h) ∧ is_u64 (raw_size h).
Definition valid_body (b : ChunkBody) : Prop := Forall valid_message (messages b).
Definition valid_cache (c : Cache) : Prop :=
  match c with
  | channel_cache c => is_u64 (cc_message_number c)
  | chunk_header_cache h => valid_chunk_header h
  | chunk_body_cache n => is_u64 n
  end.
Definition valid_entry (i : SingleIndex) : Prop :=
  is_i32 (type_ i) ∧ is_u64 (position i) ∧ from_option valid_cache True (cache i).
Definition valid_header (h : Header) : Prop :=
  is_u32 (major_version h) ∧ is_u32 (minor_version h) ∧ is_i32 (compress h) ∧
  Forall is_u64 [chunk_interval h; segment_interval h; chunk_raw_size h; segment_raw_size h;
    index_position h; chunk_number h; channel_number h; h_begin_time h; h_end_time h;
    h_message_number h; size h].

(** What the code relies on of protobuf: valid messages can be parsed back; the ones
    with set fields take space, and no header takes more than [HEADER_LENGTH]. *)
Class RecordCodec `{Codec Header, Codec Channel, Codec ChunkHeader, Codec ChunkBody, Codec Index} := {
  header_codec : ∀ h, valid_header h → parses_back h;
  channel_codec : ∀ c : Channel, parses_back c;
  chunk_header_codec : ∀ h, valid_chunk_header h → parses_back h;
  body_codec : ∀ b, valid_body b → parses_back b;
  index_codec : ∀ i : Index, Forall valid_entry i → parses_back i;
  header_length : ∀ h, valid_header h → 0 < ByteSizeLong h <= HEADER_LENGTH;
  channel_length : ∀ c : Channel, 0 < ByteSizeLong c;
  chunk_header_length : ∀ h : ChunkHeader, 0 < ByteSizeLong h;
  body_length : ∀ b, messages b ≠ [] → 0 < ByteSizeLong b
}.

(** ** Chunks *)

(** The chunk that adding these messages makes. *)
Definition chunk_of (l : list SingleMessage) : Chunk := foldl Chunk_add Chunk_new l.

Lemma chunk_of_snoc l m : chunk_of (l ++ [m]) = Chunk_add (chunk_of l) m.
Proof. unfold chunk_of. by rewrite foldl_app. Qed.

Lemma chunk_of_body l : c_body (chunk_of l) = l.
Proof. induction l as [|m l IH] using rev_ind; [done|]. rewrite chunk_of_snoc. cbn. by rewrite IH. Qed.

Lemma chunk_of_number l : message_number (c_header (chunk_of l)) = u64 (Z.of_nat (length l)).
Proof.
  induction l as [|m l IH] using rev_ind; [done|]. rewrite chunk_of_snoc. cbn. rewrite IH, length_app. cbn.
  unfold u64. rewrite Z.add_mod_idemp_l by lia. f_equal. lia.
Qed.

Lemma chunk_of_valid l : Forall valid_message l → valid_chunk_header (c_header (chunk_of l)).
Proof.
  induction l as [|m l IH] using rev_ind.
  - intros _. unfold valid_chunk_header, is_u64. cbn. lia.
  - rewrite Forall_app, Forall_singleton. intros [Hl [Hm _]]. rewrite chunk_of_snoc.
    destruct (IH Hl) as (Hb & He & _ & _). unfold valid_chunk_header. cbn.
    split_and!; eauto with cyber; repeat case_match; done.
Qed.

(** The header bounds the times of the chunk's messages; below, only if none of them is
    zero, which [add()] takes for a time not set. *)
Lemma chunk_of_times l m :
  Forall (λ m, 0 <= time m)%Z l → m ∈ l →
  (time m <= end_time (c_header (chunk_of l)))%Z ∧
  (Forall (λ m, 0 < time m)%Z l → (0 < begin_time (c_header (chunk_of l)) <= time m)%Z).
Proof.
  intros Hl Hm. assert (0 <= end_time (c_header (chunk_of l)) ∧
    ∀ m, m ∈ l → (time m <= end_time (c_header (chunk_of l)))%Z ∧
    (Forall (λ m, 0 < time m)%Z l → (0 < begin_time (c_header (chunk_of l)) <= time m)%Z))%Z as [_ H];
    [|destruct (H m Hm) as [H1 H2]; split; [done|intros; by apply H2]].
  clear m Hm. induction l as [|x l IH] using rev_ind; [cbn; set_solver by lia|].
  apply Forall_app in Hl as [Hl Hx]. apply Forall_singleton in Hx. destruct (IH Hl) as [He H].
  rewrite chunk_of_snoc. cbn. split; [case_match; zbool; lia|]. intros m.
  rewrite elem_of_app, list_elem_of_singleton, Forall_app, Forall_singleton. intros Hm. split.
  - destruct Hm as [Hm| ->]; [|case_match; zbool; lia]. destruct (H m Hm). case_match; zbool; lia.
  - intros [Hpos Hx0]. destruct Hm as [Hm| ->].
    + destruct (H m Hm) as [_ Hb]. specialize (Hb Hpos). repeat case_match; zbool; lia.
    + destruct (decide (l = [])) as [->|Hne]; [cbn; repeat case_match; zbool; lia|].
      destruct l as [|y l]; [done|]. destruct (H y ltac:(set_solver)) as [_ Hb]. specialize (Hb Hpos).
      repeat case_match; zbool; lia.
Qed.

Lemma chunk_of_empty l : (Z.of_nat (length l) < 2 ^ 64)%Z → Chunk_empty (chunk_of l) = bool_decide (l = []).
Proof.
  intros Hl. unfold Chunk_empty. rewrite chunk_of_number, u64_small by (unfold is_u64; lia).
  destruct l as [|m l]; [done|]. rewrite bool_decide_eq_false_2 by done. apply Z.eqb_neq. cbn. lia.
Qed.

(** ** The layout of a file *)

Section layout.
Context `{CH : Codec Header, CC : Codec Channel, CK : Codec ChunkHeader, CB : Codec ChunkBody, CI : Codec Index}.
Context {RC : RecordCodec}.

Definition item_bytes (it : Item) : list Z :=
  match it with
  | IChannel c => section_of SECTION_CHANNEL c
  | IChunk h b => section_of SECTION_CHUNK_HEADER h ++ section_of SECTION_CHUNK_BODY b
  end.
Definition items_bytes (items : list Item) : list Z := concat (item_bytes <$> items).

(** The first byte behind the header. *)
Definition start : nat := section_length + HEADER_LENGTH.

Definition item_index (p : nat) (it : Item) : Index :=
  match it with
  | IChannel c =>
      [mkIndex SECTION_CHANNEL (Z.of_nat p)
         (Some (channel_cache (mkChannelCache 0 (name c) (message_type c) (proto_desc c))))]
  | IChunk h b =>
      [mkIndex SECTION_CHUNK_HEADER (Z.of_nat p) (Some (chunk_header_cache h));
       mkIndex SECTION_CHUNK_BODY (Z.of_nat (p + length (section_of SECTION_CHUNK_HEADER h)))
         (Some (chunk_body_cache (u64 (i32 (Z.of_nat (length (messages b)))))))]
  end.
Fixpoint items_index (p : nat) (items : list Item) : Index :=
  match items with
  | [] => []
  | it :: items => item_index p it ++ items_index (p + length (item_bytes it)) items
  end.

Lemma items_bytes_snoc items it : items_bytes (items ++ [it]) = items_bytes items ++ item_bytes it.
Proof. unfold items_bytes. rewrite fmap_app, concat_app. cbn. by rewrite app_nil_r. Qed.

Lemma items_index_snoc p items it :
  items_index p (items ++ [it]) = items_index p items ++ item_index (p + length (items_bytes items)) it.
Proof.
  revert p. induction items as [|x items IH]; intros p; cbn.
  - by rewrite app_nil_r, Nat.add_0_r.
  - rewrite IH, app_assoc. unfold items_bytes. cbn. by rewrite length_app, Nat.add_assoc.
Qed.

(** The writer's file holds these items behind the header it began with, and what is left
    of [old]; header and index are up to date. *)
Record laid (old : list Z) (h0 : Header) (items : list Item) (w : FileWriter) : Prop := {
  la_file : ∃ hs, length hs = start ∧
    w_fd w = mkFd (hs ++ items_bytes items ++ drop (start + length (items_bytes items)) old)
               (start + length (items_bytes items)) ∧ hs = header_section h0;
  la_header : w_header w = set_size (foldl count_item h0 items) (Z.of_nat (pos (w_fd w)));
  la_index : w_index w = items_index start items
}.

Lemma write_section_after {T} `{Codec T} w pre rest type (m : T) :
  type ≠ SECTION_HEADER → w_fd w = mkFd (pre ++ rest) (length pre) →
  write_section None w type m =
  (set_file w (mkFd (pre ++ section_of type m ++ drop (length (section_of type m)) rest)
                 (length pre + length (section_of type m)))
     (set_size (w_header w) (Z.of_nat (length pre + length (section_of type m)))) (w_index w), true).
Proof. intros Ht Hw. unfold write_section. by rewrite Hw, WriteSection_after. Qed.

Lemma set_size_set_size h n m : set_size (set_size h n) m = set_size h m.
Proof. done. Qed.

Lemma laid_channel old h0 items w c :
  laid old h0 items w →
  laid old h0 (items ++ [IChannel c]) (WriteChannel None w c).1 ∧
  (WriteChannel None w c).1 =
    mkWriter (w_fd (WriteChannel None w c).1) (w_header (WriteChannel None w c).1) (w_index (WriteChannel None w c).1)
      (is_writing_ w) (chunk_active_ w) (chunk_flush_ w) (channel_message_number_map_ w) ∧
  (WriteChannel None w c).2 = true.
Proof.
  intros [(hs & Hhs & Hfd & Hhd) Hh Hi]. unfold WriteChannel.
  rewrite (write_section_after w (hs ++ items_bytes items) (drop (start + length (items_bytes items)) old));
    [|done|rewrite Hfd, length_app, Hhs, <- app_assoc; done].
  cbn -[start]. split; [|split; done]. split; cbn -[start].
  - exists hs. split; [done|]. split; [|done]. rewrite items_bytes_snoc, !length_app, Hhs. cbn [item_bytes].
    by rewrite drop_drop, <- !app_assoc, !Nat.add_assoc.
  - rewrite foldl_app. cbn. rewrite Hh. done.
  - rewrite items_index_snoc, Hi, Hfd. done.
Qed.

Lemma laid_chunk old h0 items w h b :
  laid old h0 items w →
  laid old h0 (items ++ [IChunk h b]) (WriteChunk None w h b).1 ∧
  (WriteChunk None w h b).1 =
    mkWriter (w_fd (WriteChunk None w h b).1) (w_header (WriteChunk None w h b).1) (w_index (WriteChunk None w h b).1)
      (is_writing_ w) (chunk_active_ w) (chunk_flush_ w) (channel_message_number_map_ w) ∧
  (WriteChunk None w h b).2 = true.
Proof.
  intros [(hs & Hhs & Hfd & Hhd) Hh Hi]. unfold WriteChunk.
  rewrite (write_section_after w (hs ++ items_bytes items) (drop (start + length (items_bytes items)) old));
    [|done|rewrite Hfd, length_app, Hhs, <- app_assoc; done].
  cbn [negb].
  rewrite (write_section_after _ (hs ++ items_bytes items ++ section_of SECTION_CHUNK_HEADER h)
    (drop (length (section_of SECTION_CHUNK_HEADER h)) (drop (start + length (items_bytes items)) old)));
    [|done|cbn -[start]; by rewrite <- !app_assoc, !length_app, !Nat.add_assoc].
  cbn -[start]. split; [|split; done]. split; cbn -[start].
  - exists hs. split; [done|]. split; [|done]. rewrite items_bytes_snoc, !length_app, Hhs. cbn [item_bytes].
    by rewrite !drop_drop, !length_app, <- !app_assoc, !Nat.add_assoc.
  - rewrite foldl_app. cbn. rewrite Hh. done.
  - rewrite items_index_snoc, Hi, Hfd, <- app_assoc, length_app, Hhs. done.
Qed.

(** ** What a run keeps *)

Definition chunk_item (it : Item) : Prop :=
  match it with
  | IChannel _ => True
  | IChunk h b => messages b ≠ [] ∧ h = c_header (chunk_of (messages b))
  end.
Definition item_channel (it : Item) : option Channel :=
  match it with IChannel c => Some c | IChunk _ _ => None end.

(** How many of the messages are the channel's, as the writer counts them. *)
Definition count_of (ch : string) (l : list SingleMessage) : nat :=
  length (filter (λ m, channel_name m = ch) l).
Definition number_of (ch : string) (l : list SingleMessage) : option Z :=
  if decide (count_of ch l = 0) then None else Some (u64 (Z.of_nat (count_of ch l))).

(** The messages [written], in the file, in the flush chunk or in the active one, in
    this order when [ordered]; [chs] are the channels written. *)
Record held (ordered : bool) (old : list Z) (h0 : Header) (items : list Item) (written : list SingleMessage)
    (chs : list Channel) (w : FileWriter) : Prop := {
  he_laid : laid old h0 items w;
  he_items : Forall chunk_item items;
  he_active : chunk_active_ w = chunk_of (c_body (chunk_active_ w));
  he_flush : chunk_flush_ w = chunk_of (c_body (chunk_flush_ w));
  he_perm : all_messages items ++ c_body (chunk_flush_ w) ++ c_body (chunk_active_ w) ≡ₚ written;
  he_order : ordered = true →
    all_messages items ++ c_body (chunk_flush_ w) ++ c_body (chunk_active_ w) = written;
  he_writing : is_writing_ w = true;
  he_channels : omap item_channel items = chs;
  he_numbers : ∀ ch, channel_message_number_map_ w !! ch = number_of ch written
}.

(** Whether every call that swaps the chunks finds the flush chunk written. *)
Definition prompt_call (w : FileWriter) (iw : bool) (m : SingleMessage) : bool :=
  negb (need_flush (w_header w) (Chunk_add (chunk_active_ w) m) iw m) || Chunk_empty (chunk_flush_ w).
Fixpoint prompt (w : FileWriter) (l : list Ev) : bool :=
  match l with
  | [] => true
  | e :: l =>
      match e with EvMessage iw m => prompt_call w iw m | _ => true end && prompt (ev None w e) l
  end.

(** The messages and the channels of a run. *)
Definition ev_messages (l : list Ev) : list SingleMessage :=
  omap (λ e, match e with EvMessage _ m => Some m | _ => None end) l.
Definition ev_channels (l : list Ev) : list Channel :=
  omap (λ e, match e with EvChannel c => Some c | _ => None end) l.

Lemma all_messages_snoc items it : all_messages (items ++ [it]) = all_messages items ++ item_messages it.
Proof. unfold all_messages. rewrite fmap_app, concat_app. cbn. by rewrite app_nil_r. Qed.

Lemma count_of_snoc ch l m :
  count_of ch (l ++ [m]) = count_of ch l + (if decide (channel_name m = ch) then 1 else 0).
Proof. unfold count_of. rewrite filter_app, length_app. f_equal. rewrite filter_cons, filter_nil. by case_decide. Qed.

Lemma numbers_snoc (numbers : gmap string Z) written m :
  (∀ ch, numbers !! ch = number_of ch written) →
  ∀ ch, match numbers !! channel_name m with
        | Some n => <[channel_name m := u64 (n + 1)]> numbers
        | None => <[channel_name m := 1%Z]> numbers
        end !! ch = number_of ch (written ++ [m]).
Proof.
  intros Hn ch. rewrite Hn. unfold number_of. rewrite count_of_snoc.
  destruct (decide (channel_name m = ch)) as [<-|Hne].
  - rewrite (decide_False (P := _ + 1 = 0)) by lia. case_decide as E; rewrite lookup_insert_eq; f_equal.
    + by rewrite E.
    + unfold u64. rewrite Z.add_mod_idemp_l by lia. f_equal. lia.
  - rewrite Nat.add_0_r. case_decide; rewrite lookup_insert_ne by done; apply Hn.
Qed.

Lemma held_message ordered old h0 items written chs w iw m :
  held ordered old h0 items written chs w → (Z.of_nat (length written) < 2 ^ 64)%Z →
  held (ordered && prompt_call w iw m) old h0 items (written ++ [m]) chs (WriteMessage w iw m).
Proof.
  intros [[Hfd Hh Hi] Hit Ha Hf Hp Ho Hw Hc Hn] Hlen.
  assert (Chunk_add (chunk_active_ w) m = chunk_of (c_body (chunk_active_ w) ++ [m])) as Hadd
    by (rewrite Ha at 1; by rewrite chunk_of_snoc).
  pose proof (numbers_snoc _ _ m Hn) as Hn'. unfold WriteMessage. rewrite Hadd. unfold prompt_call. rewrite Hadd.
  cbv zeta. cbn [w_header]. destruct (need_flush _ _ iw m) eqn:E.
  - split; try done; cbn; rewrite ?chunk_of_body; try done.
    + rewrite <- Hp. solve_Permutation.
    + intros [Hord Hpr]%andb_true_iff. rewrite <- (Ho Hord). cbn in Hpr. rewrite Hf, chunk_of_empty in Hpr.
      * apply bool_decide_eq_true in Hpr. rewrite Hpr. cbn. by rewrite app_nil_r, app_assoc.
      * apply Permutation_length in Hp. rewrite !length_app in Hp. lia.
  - split; try done; cbn; rewrite ?chunk_of_body; try done.
    + rewrite <- Hp. solve_Permutation.
    + intros [Hord _]%andb_true_iff. rewrite <- (Ho Hord). by rewrite <- !app_assoc.
Qed.

Lemma held_channel ordered old h0 items written chs w c :
  held ordered old h0 items written chs w →
  held ordered old h0 (items ++ [IChannel c]) written (chs ++ [c]) (WriteChannel None w c).1.
Proof.
  intros [Hl Hit Ha Hf Hp Ho Hw Hc Hn]. destruct (laid_channel _ _ _ _ c Hl) as (Hl' & He & _).
  rewrite He in *. split; cbn; try done.
  - rewrite Forall_app, Forall_singleton. done.
  - by rewrite all_messages_snoc, app_nil_r.
  - intros. rewrite all_messages_snoc, app_nil_r. by apply Ho.
  - by rewrite omap_app, Hc.
Qed.

Lemma held_flush ordered old h0 items written chs w :
  held ordered old h0 items written chs w → (Z.of_nat (length written) < 2 ^ 64)%Z →
  ∃ items', held ordered old h0 items' written chs (Flush None w) ∧ c_body (chunk_flush_ (Flush None w)) = [] ∧
    chunk_active_ (Flush None w) = chunk_active_ w.
Proof.
  intros [Hl Hit Ha Hf Hp Ho Hw Hc Hn] Hlen. unfold Flush. rewrite Hw. cbn [negb].
  assert (Chunk_empty (chunk_flush_ w) = bool_decide (c_body (chunk_flush_ w) = [])) as ->.
  { rewrite Hf at 1. apply chunk_of_empty. apply Permutation_length in Hp. rewrite !length_app in Hp. lia. }
  case_bool_decide as E; [by exists items|].
  set (h := c_header (chunk_flush_ w)). set (b := mkChunkBody (c_body (chunk_flush_ w))).
  destruct (laid_chunk _ _ _ _ h b Hl) as (Hl' & He & _).
  exists (items ++ [IChunk h b]). rewrite He in *. split; [|done]. split; cbn; try done.
  - destruct Hl' as [Hfd Hh Hi]. split; [exact Hfd|exact Hh|exact Hi].
  - rewrite Forall_app, Forall_singleton. split; [done|]. split; [done|]. unfold h. by rewrite Hf at 1.
  - rewrite all_messages_snoc. cbn. by rewrite <- app_assoc.
  - intros. rewrite all_messages_snoc. cbn. rewrite <- app_assoc. by apply Ho.
  - by rewrite omap_app, Hc, app_nil_r.
Qed.

Lemma held_evs ordered old h0 items written chs w l :
  held ordered old h0 items written chs w → (Z.of_nat (length (written ++ ev_messages l)) < 2 ^ 64)%Z →
  ∃ items', held (ordered && prompt w l) old h0 items' (written ++ ev_messages l) (chs ++ ev_channels l)
    (evs None w l).
Proof.
  revert ordered items written chs w. induction l as [|e l IH]; intros ordered items written chs w Hh Hlen.
  - exists items. cbn. by rewrite andb_true_r, !app_nil_r.
  - assert (Z.of_nat (length written) < 2 ^ 64)%Z as Hlt by (rewrite length_app in Hlen; lia).
    unfold ev_messages, ev_channels in *. cbn [prompt evs foldl omap list_omap] in *. rewrite andb_assoc.
    destruct e as [c|iw m|]; cbn [ev] in *.
    + rewrite andb_true_r.
      destruct (IH _ _ _ _ _ (held_channel _ _ _ _ _ _ _ c Hh) Hlen) as [items' H']. exists items'.
      by rewrite <- app_assoc in H'.
    + destruct (IH _ _ _ _ _ (held_message _ _ _ _ _ _ _ iw m Hh Hlt)) as [items' H'].
      * by rewrite <- app_assoc.
      * exists items'. by rewrite <- app_assoc in H'.
    + rewrite andb_true_r. destruct (held_flush _ _ _ _ _ _ _ Hh Hlt) as (items1 & Hh1 & _).
      by apply (IH _ _ _ _ _ Hh1).
Qed.

(** ** A finished file *)

(** The index with the channels' numbers of messages. *)
Definition count_entry (written : list SingleMessage) (i : SingleIndex) : SingleIndex :=
  if (type_ i =? SECTION_CHANNEL)%Z then
    match cache i with
    | Some (channel_cache c) =>
        match number_of (cc_name c) written with
        | Some n => mkIndex (type_ i) (position i)
            (Some (channel_cache (mkChannelCache n (cc_name c) (cc_message_type c) (cc_proto_desc c))))
        | None => i
        end
    | _ => i
    end
  else i.
Definition final_index (written : list SingleMessage) (items : list Item) : Index :=
  count_entry written <$> items_index start items.

Definition final_header (h0 : Header) (items : list Item) (index : Index) : Header :=
  let p := start + length (items_bytes items) in
  set_is_complete
    (set_size (set_index_position (foldl count_item h0 items) (Z.of_nat p))
       (Z.of_nat (p + length (section_of SECTION_INDEX index)))) true.

Definition file_of (h : Header) (items : list Item) (index : Index) : list Z :=
  header_section h ++ items_bytes items ++ section_of SECTION_INDEX index.

Lemma count_item_settings h items :
  let h' := foldl count_item h items in
  h' = with_counts h (index_position h) (chunk_number h') (channel_number h') (h_begin_time h') (h_end_time h')
         (h_message_number h') (size h) (is_complete h).
Proof.
  cbv zeta. induction items as [|it items IH] using rev_ind; [by destruct h|].
  rewrite foldl_app. cbn [foldl]. set (h' := foldl count_item h items) in *. rewrite IH. by destruct it.
Qed.

Lemma count_item_valid h items :
  valid_header h → Forall chunk_item items → Forall valid_message (all_messages items) →
  valid_header (foldl count_item h items).
Proof.
  intros Hh. induction items as [|it items IH] using rev_ind; [done|].
  rewrite Forall_app, Forall_singleton, all_messages_snoc, Forall_app, foldl_app. intros [Hi Hit] [Hm Hmt].
  specialize (IH Hi Hm). cbn [foldl]. set (h' := foldl count_item h items) in *.
  destruct IH as (? & ? & ? & Hall). rewrite !Forall_cons in Hall. destruct_and!.
  destruct it as [c|ch b]; cbn in *.
  - unfold valid_header; cbn; rewrite !Forall_cons; split_and!; auto; eauto with cyber.
  - destruct Hit as [_ ->]. destruct (chunk_of_valid _ Hmt) as (? & ? & ? & ?).
    unfold valid_header; cbn; rewrite !Forall_cons; split_and!; auto; eauto with cyber. by case_match.
Qed.

Lemma final_header_valid h0 items index :
  valid_header h0 → Forall chunk_item items → Forall valid_message (all_messages items) →
  (Z.of_nat (start + length (items_bytes items) + length (section_of SECTION_INDEX index)) < 2 ^ 63)%Z →
  valid_header (final_header h0 items index).
Proof.
  intros Hh Hi Hm Hp. destruct (count_item_valid h0 items Hh Hi Hm) as (? & ? & ? & Hall).
  rewrite !Forall_cons in Hall. destruct_and!. unfold final_header, valid_header. cbn -[start section_of Z.of_nat Nat.add].
  rewrite !Forall_cons. split_and!; auto; unfold is_u64; lia.
Qed.

Lemma count_channel_entry numbers written (i : SingleIndex) :
  (∀ ch, numbers !! ch = number_of ch written) → count_channel numbers i = count_entry written i.
Proof. intros Hn. unfold count_channel, count_entry. repeat case_match; rewrite ?Hn in *; congruence. Qed.

(** Without a limit, writing does not shorten the file. *)
Lemma write_grows fd bs : length (bytes fd) <= length (bytes (write None fd bs).1).
Proof.
  rewrite write_all. cbn. unfold write_at. rewrite !length_app, length_take, length_drop. lia.
Qed.

Lemma WriteSection_grows {T} `{Codec T} fd type (m : T) :
  length (bytes fd) <= length (bytes (WriteSection None fd type m).1).
Proof.
  unfold WriteSection. set (fd0 := if decide _ then _ else fd).
  assert (bytes fd = bytes fd0) as -> by (unfold fd0; by case_decide).
  pose proof (write_grows fd0 (Section_bytes type (Z.of_nat (ByteSizeLong m)))) as Hg1.
  destruct (write None fd0 _) as [fd1 c1]. repeat (case_match; [done|]).
  pose proof (write_grows fd1 (encode m)) as Hg2. destruct (write None fd1 _) as [fd2 c2]. cbn in *.
  case_decide; [|cbn; lia].
  pose proof (write_grows fd2 (take (HEADER_LENGTH - ByteSizeLong m) blank)) as Hg3.
  destruct (write None fd2 _) as [fd3 c3]. cbn in *. repeat case_match; cbn; lia.
Qed.

(** The last steps of [Close()]: the index, *)
Lemma write_index old h0 items written w :
  laid old h0 items w → (∀ ch, channel_message_number_map_ w !! ch = number_of ch written) →
  let index := final_index written items in
  let p := start + length (items_bytes items) in
  let p' := p + length (section_of SECTION_INDEX index) in
  ∃ hs, length hs = start ∧
    (WriteIndex None w).1 = set_file w
      (mkFd (hs ++ items_bytes items ++ section_of SECTION_INDEX index ++ drop p' old) p')
      (set_size (set_index_position (foldl count_item h0 items) (Z.of_nat p)) (Z.of_nat p')) index.
Proof.
  intros [(hs & Hhs & Hfd & Hhd) Hh Hi] Hn index p p'. exists hs. split; [done|]. unfold WriteIndex.
  assert (count_channel (channel_message_number_map_ w) <$> w_index w = index) as ->.
  { rewrite Hi. apply list_fmap_ext. intros ? ? _. by apply count_channel_entry. }
  rewrite (write_section_after _ (hs ++ items_bytes items) (drop p old));
    [|done|cbn -[start]; rewrite Hfd, length_app, Hhs, <- app_assoc; done].
  cbn [fst set_file w_header w_fd w_index]. rewrite Hh, Hfd, length_app, Hhs, drop_drop, <- app_assoc. done.
Qed.

(** and the header. *)
Lemma close_layout old h0 items written w :
  laid old h0 items w → (∀ ch, channel_message_number_map_ w !! ch = number_of ch written) →
  Forall chunk_item items → valid_header h0 → Forall valid_message (all_messages items) →
  let index := final_index written items in
  let h := final_header h0 items index in
  let w := (WriteIndex None w).1 in
  let file := bytes (w_fd (WriteHeader None w (set_is_complete (w_header w) true)).1) in
  (Z.of_nat (length file) < 2 ^ 63)%Z →
  file = file_of h items index ++ drop (length (file_of h items index)) old.
Proof.
  intros Hl Hn Hit Hh0 Hm index h w' file.
  destruct (write_index old h0 items written w Hl Hn) as (hs & Hhs & Hw). fold index in Hw. fold w' in Hw.
  assert (set_is_complete (w_header w') true = h) as Hh' by (by rewrite Hw). intros Hp.
  assert (file = bytes (WriteSection None (w_fd w') SECTION_HEADER h).1) as Hfile.
  { unfold file, WriteHeader, write_section. cbn [set_file w_fd]. rewrite Hh'.
    by destruct (WriteSection None (w_fd w') SECTION_HEADER h) as [fd []]. }
  assert (valid_header h) as Hv.
  { apply final_header_valid; try done. fold index. eapply Z.le_lt_trans; [|exact Hp]. rewrite Hfile.
    pose proof (WriteSection_grows (w_fd w') SECTION_HEADER h) as Hg. rewrite Hw in Hg at 1.
    cbn [set_file w_fd bytes] in Hg. rewrite !length_app, Hhs in Hg. lia. }
  destruct (header_length h Hv). rewrite Hfile, WriteSection_header by lia. rewrite Hw.
  cbn [set_file fst w_fd bytes]. fold start. unfold file_of. rewrite !length_app, length_header_section by lia.
  fold start. rewrite <- !app_assoc. f_equal. rewrite drop_app_length' by done. by rewrite Nat.add_assoc.
Qed.

(** The state before the index is written. *)
Definition opened (old : list Z) (h0 : Header) : FileWriter :=
  (WriteHeader None (Open FileWriter_new true old).1 h0).1.

Lemma held_opened old h0 : valid_header h0 → held true old h0 [] [] [] (opened old h0).
Proof.
  intros Hv. destruct (header_length h0 Hv). unfold opened, WriteHeader, write_section.
  cbn [Open negb fst set_file w_fd]. rewrite WriteSection_header by lia. cbn [fst].
  split; cbn -[start]; try done. split; cbn -[start]; try done.
  exists (header_section h0). rewrite length_header_section by lia. split; [done|]. by rewrite Nat.add_0_r.
Qed.

Lemma held_swap ordered old h0 items written chs w :
  held ordered old h0 items written chs w → c_body (chunk_flush_ w) = [] →
  held ordered old h0 items written chs (set_chunks w (chunk_flush_ w) (chunk_active_ w)).
Proof.
  intros [[Hfd Hh Hi] Hit Ha Hf Hp Ho Hw Hc Hn] He. rewrite He in Hp, Ho. split; cbn; try done.
  - rewrite He, app_nil_r. done.
  - intros. rewrite He, app_nil_r. by apply Ho.
Qed.

(** A finished file holds what was written. *)
Lemma record_file_layout old h0 l :
  let w := record_file None old h0 l in
  valid_header h0 → Forall valid_message (ev_messages l) → (Z.of_nat (length (ev_messages l)) < 2 ^ 64)%Z →
  (Z.of_nat (length (bytes (w_fd w))) < 2 ^ 63)%Z →
  ∃ items,
    let index := final_index (ev_messages l) items in
    let file := file_of (final_header h0 items index) items index in
    bytes (w_fd w) = file ++ drop (length file) old ∧
    Forall chunk_item items ∧ all_messages items ≡ₚ ev_messages l ∧
    (prompt (opened old h0) l = true → all_messages items = ev_messages l) ∧
    omap item_channel items = ev_channels l.
Proof.
  intros w Hv Hm Hlen Hsize. unfold record_file in w. change (WriteHeader None _ h0).1 with (opened old h0) in w.
  destruct (held_evs true old h0 [] [] [] (opened old h0) l (held_opened old h0 Hv) Hlen) as [items1 Hh1].
  cbn [app] in Hh1. set (w1 := evs None (opened old h0) l) in *.
  destruct (held_flush _ _ _ _ _ _ _ Hh1 Hlen) as (items2 & Hh2 & Hf2 & _).
  pose proof (held_swap _ _ _ _ _ _ _ Hh2 Hf2) as Hh3.
  destruct (held_flush _ _ _ _ _ _ _ Hh3 Hlen) as (items & Hh4 & Hf4 & Ha4).
  cbn [set_chunks chunk_active_] in Ha4. exists items.
  pose proof Hh4 as [_ Hit _ _ Hp Ho Hwr Hc _]. rewrite Ha4, Hf4, Hf2, !app_nil_r in *. cbv zeta.
  split; [|split; [done|split; [done|split; [done|done]]]].
  assert (Forall valid_message (all_messages items)) as Hmi by (by rewrite Hp).
  unfold w, Close in Hsize |- *. destruct Hh1 as [_ _ _ _ _ _ Hw1 _ _]. rewrite Hw1 in *.
  set (w4 := Flush None _) in *.
  set (w5 := mkWriter (w_fd w4) (w_header w4) (w_index w4) false (chunk_active_ w4) (chunk_flush_ w4)
    (channel_message_number_map_ w4)) in *.
  assert (laid old h0 items w5) as Hl5 by (destruct Hh4 as [[] _ _ _ _ _ _ _ _]; by split).
  apply (close_layout old h0 items (ev_messages l) w5 Hl5); try done. by apply Hh4.
Qed.

End layout.
