(* ===== verification/RecordReader.v ===== *)
(** * Reading records (cyber/record/file/record_file_reader.cc, record_reader)

    The reader walks over the sections of a file and hands out the messages of the chunks
    whose times lie in a window.  The loops take fuel: they end on every file the writer
    makes, as the theorems show; a file whose sizes lead back can keep the code busy for
    ever. *)

From stdpp Require Import base numbers list gmap strings sorting.
From Stdlib Require Import ZArith Lia.
From S2P Require Import Prelude WireFormat RecordFile RecordWriter.

Open Scope nat_scope.

(** ** RecordFileReader and RecordReader *)

Record RecordReader := mkReader {
  file_reader_ : FileReader; is_valid_ : bool; header_ : Header; index_ : Index;
  channel_info_ : gmap string ChannelCache; reach_end_ : bool; chunk_ : ChunkBody; message_index_ : nat
}.

Section reader.
Context `{CH : Codec Header, CC : Codec Channel, CK : Codec ChunkHeader, CB : Codec ChunkBody, CI : Codec Index}.
Context `{ST : Stream}.
Context (at_end : FileReader → Z → bool).

Definition set_end_of_file (r : FileReader) (b : bool) : FileReader :=
  mkFileReader (file r) (rpos r) b (r_header_ r) (r_index_ r).

(** [Reset()] of the file reader: to the first byte behind the header. *)
Definition FileReader_Reset (r : FileReader) : FileReader * bool :=
  match SetPosition r (Z.of_nat (section_length + HEADER_LENGTH)) with
  | (r, true) => (set_end_of_file r false, true)
  | (r, false) => (r, false)
  end.

Definition ReadHeader (r : FileReader) : FileReader * bool :=
  match ReadSection r with
  | (r, None) => (r, false)
  | (r, Some (type, size)) =>
      if negb (type =? SECTION_HEADER)%Z then (r, false)
      else
        match ReadSectionT (T := Header) at_end r size with
        | (r, None) => (r, false)
        | (r, Some h) =>
            SetPosition (mkFileReader (file r) (rpos r) (end_of_file_ r) h (r_index_ r))
              (Z.of_nat (section_length + HEADER_LENGTH))
        end
  end.

Definition ReadIndex (r : FileReader) : FileReader * bool :=
  if negb (is_complete (r_header_ r)) then (r, false)
  else
    match SetPosition r (i64 (index_position (r_header_ r))) with
    | (r, false) => (r, false)
    | (r, true) =>
        match ReadSection r with
        | (r, None) => (r, false)
        | (r, Some (type, size)) =>
            if negb (type =? SECTION_INDEX)%Z then (r, false)
            else
              match ReadSectionT (T := Index) at_end r size with
              | (r, None) => (r, false)
              | (r, Some i) =>
                  ((FileReader_Reset (mkFileReader (file r) (rpos r) (end_of_file_ r) (r_header_ r) i)).1, true)
              end
        end
    end.

(** [Open(path)] of a file with these bytes, if it exists and can be opened. *)
Definition FileReader_Open (contents : option (list Z)) : FileReader * bool :=
  match contents with
  | None => (mkFileReader [] 0 false Header_default [], false)
  | Some bs => ReadHeader (mkFileReader bs 0 false Header_default [])
  end.

(** The channels of the index; the first entry of a name counts. *)
Definition add_channel_info (m : gmap string ChannelCache) (i : SingleIndex) : gmap string ChannelCache :=
  if negb (type_ i =? SECTION_CHANNEL)%Z then m
  else
    match cache i with
    | Some (channel_cache c) => match m !! cc_name c with Some _ => m | None => <[cc_name c := c]> m end
    | _ => m
    end.

(** [RecordReader(file)]. *)
Definition RecordReader_new (contents : option (list Z)) : RecordReader :=
  match FileReader_Open contents with
  | (r, false) => mkReader r false Header_default [] ∅ false (mkChunkBody []) 0
  | (r, true) =>
      let header := r_header_ r in
      let '(r, index, info) :=
        match ReadIndex r with
        | (r, true) => (r, r_index_ r, foldl add_channel_info ∅ (r_index_ r))
        | (r, false) => (r, [], ∅)
        end in
      mkReader (FileReader_Reset r).1 true header index info false (mkChunkBody []) 0
  end.

Definition RecordReader_Reset (r : RecordReader) : RecordReader :=
  mkReader (FileReader_Reset (file_reader_ r)).1 (is_valid_ r) (header_ r) (index_ r) (channel_info_ r)
    false (mkChunkBody []) 0.

Definition set_reader (r : RecordReader) (f : FileReader) (e : bool) (c : ChunkBody) : RecordReader :=
  mkReader f (is_valid_ r) (header_ r) (index_ r) (channel_info_ r) e c (message_index_ r).
Definition set_message_index (r : RecordReader) (i : nat) : RecordReader :=
  mkReader (file_reader_ r) (is_valid_ r) (header_ r) (index_ r) (channel_info_ r) (reach_end_ r) (chunk_ r) i.

(** [ReadNextChunk(begin_time, end_time)], in the loop with the flag
    [skip_next_chunk_body].  A body that cannot be read is taken to leave the new chunk
    empty. *)
Fixpoint ReadNextChunk (fuel : nat) (r : RecordReader) (begin_ end_ : Z) (skip : bool)
  : option (RecordReader * bool) :=
  match fuel with
  | O => None
  | S fuel =>
      if reach_end_ r then Some (r, false)
      else
        match ReadSection (file_reader_ r) with
        | (f, None) => Some (set_reader r f false (chunk_ r), false)
        | (f, Some (type, size)) =>
            if (type =? SECTION_INDEX)%Z then
              ReadNextChunk fuel (set_reader r (SkipSection f size).1 true (chunk_ r)) begin_ end_ skip
            else if (type =? SECTION_CHANNEL)%Z then
              match ReadSectionT (T := Channel) at_end f size with
              | (f, None) => Some (set_reader r f false (chunk_ r), false)
              | (f, Some _) => ReadNextChunk fuel (set_reader r f false (chunk_ r)) begin_ end_ skip
              end
            else if (type =? SECTION_CHUNK_HEADER)%Z then
              match ReadSectionT (T := ChunkHeader) at_end f size with
              | (f, None) => Some (set_reader r f false (chunk_ r), false)
              | (f, Some header) =>
                  let skip := if (end_time header <? begin_)%Z then true else skip in
                  if (end_ <? begin_time header)%Z then Some (set_reader r f false (chunk_ r), false)
                  else ReadNextChunk fuel (set_reader r f false (chunk_ r)) begin_ end_ skip
              end
            else if (type =? SECTION_CHUNK_BODY)%Z then
              if skip then
                ReadNextChunk fuel (set_reader r (SkipSection f size).1 false (chunk_ r)) begin_ end_ false
              else
                match ReadSectionT (T := ChunkBody) at_end f size with
                | (f, None) => Some (set_reader r f false (mkChunkBody []), false)
                | (f, Some body) => Some (set_reader r f false body, true)
                end
            else Some (set_reader r f false (chunk_ r), false)
        end
  end.

(** The loop over the current chunk from its [i]-th message on: where it stops and, if
    it returns there, what. *)
Fixpoint scan_chunk (begin_ end_ : Z) (i : nat) (l : list SingleMessage) : nat * option (option SingleMessage) :=
  match l with
  | [] => (i, None)
  | m :: l =>
      if (end_ <? time m)%Z then (i, Some None)
      else if (time m <? begin_)%Z then scan_chunk begin_ end_ (S i) l
      else (S i, Some (Some m))
  end.

(** [ReadMessage(message, begin_time, end_time)]: the message, if there is one. *)
Fixpoint ReadMessage (fuel : nat) (r : RecordReader) (begin_ end_ : Z) : option (RecordReader * option SingleMessage) :=
  match fuel with
  | O => None
  | S fuel' =>
      if negb (is_valid_ r) then Some (r, None)
      else if ((h_end_time (header_ r) <? begin_) || (end_ <? h_begin_time (header_ r)))%Z then Some (r, None)
      else
        match scan_chunk begin_ end_ (message_index_ r) (drop (message_index_ r) (messages (chunk_ r))) with
        | (i, Some res) => Some (set_message_index r i, res)
        | (i, None) =>
            match ReadNextChunk (S (length (file (file_reader_ r)))) (set_message_index r i) begin_ end_ false with
            | None => None
            | Some (r, false) => Some (r, None)
            | Some (r, true) => ReadMessage fuel' (set_message_index r 0) begin_ end_
            end
        end
  end.

(** The fuel for a file. *)
Definition fuel_of (r : RecordReader) : nat := S (length (file (file_reader_ r))).

(** Calling [ReadMessage] until it returns false. *)
Fixpoint read_all (n : nat) (r : RecordReader) (begin_ end_ : Z) : option (RecordReader * list SingleMessage) :=
  match n with
  | O => None
  | S n =>
      match ReadMessage (fuel_of r) r begin_ end_ with
      | None => None
      | Some (r, None) => Some (r, [])
      | Some (r, Some m) => '(r, l) ← read_all n r begin_ end_; Some (r, m :: l)
      end
  end.

Definition Reader_GetMessageNumber (r : RecordReader) (channel_name : string) : Z :=
  from_option cc_message_number 0%Z (channel_info_ r !! channel_name).
Definition Reader_GetMessageType (r : RecordReader) (channel_name : string) : string :=
  from_option cc_message_type EmptyString (channel_info_ r !! channel_name).
Definition Reader_GetProtoDesc (r : RecordReader) (channel_name : string) : string :=
  from_option cc_proto_desc EmptyString (channel_info_ r !! channel_name).
Definition Reader_GetChannelList (r : RecordReader) : gset string := dom (channel_info_ r).

End reader.

(** ** The messages a window shows *)

(** The next message of [l] in a window: messages before it are passed over, one behind
    it stops the search and stays. *)
Fixpoint next_in (begin_ end_ : Z) (l : list SingleMessage) : option SingleMessage * list SingleMessage :=
  match l with
  | [] => (None, [])
  | m :: l' =>
      if (end_ <? time m)%Z then (None, l)
      else if (time m <? begin_)%Z then next_in begin_ end_ l'
      else (Some m, l')
  end.

(** All of them, one after the other, and what remains. *)
Fixpoint up_to (end_ : Z) (l : list SingleMessage) : list SingleMessage :=
  match l with
  | [] => []
  | m :: l => if (end_ <? time m)%Z then [] else m :: up_to end_ l
  end.
Fixpoint beyond (end_ : Z) (l : list SingleMessage) : list SingleMessage :=
  match l with
  | [] => []
  | m :: l' => if (end_ <? time m)%Z then l else beyond end_ l'
  end.
Definition window (begin_ end_ : Z) (l : list SingleMessage) : list SingleMessage :=
  filter (λ m, (begin_ <= time m)%Z) (up_to end_ l).

(** ** Sections behind the header *)

Inductive Sect := SChannel (c : Channel) | SHeader (h : ChunkHeader) | SBody (b : ChunkBody).

Definition item_sects (it : Item) : list Sect :=
  match it with IChannel c => [SChannel c] | IChunk h b => [SHeader h; SBody b] end.
Definition sect_messages (s : Sect) : list SingleMessage := match s with SBody b => messages b | _ => [] end.
Definition sects_messages (l : list Sect) : list SingleMessage := concat (sect_messages <$> l).

(** What the windows [W] may conclude from a chunk's header. *)
Definition header_fits (W : Z → Z → Prop) (h : ChunkHeader) (b : ChunkBody) : Prop :=
  messages b ≠ [] ∧ ∀ begin_ end_, W begin_ end_ →
  ((end_time h < begin_)%Z → Forall (λ m, (time m < begin_)%Z) (messages b)) ∧
  ((end_ < begin_time h)%Z → Forall (λ m, (end_ < time m)%Z) (messages b)).

(** Every chunk header comes right before its body. *)
Fixpoint paired (W : Z → Z → Prop) (l : list Sect) : Prop :=
  match l with
  | [] => True
  | SHeader h :: r => match r with SBody b :: _ => header_fits W h b | _ => False end ∧ paired W r
  | _ :: r => paired W r
  end.

Lemma scan_chunk_next begin_ end_ i l rest :
  match scan_chunk begin_ end_ i l with
  | (i', Some res) => ∃ n, i' = i + n ∧ next_in begin_ end_ (l ++ rest) = (res, drop n l ++ rest)
  | (i', None) => i' = i + length l ∧ next_in begin_ end_ (l ++ rest) = next_in begin_ end_ rest
  end.
Proof.
  revert i. induction l as [|m l IH]; intros i; cbn; [by rewrite Nat.add_0_r|].
  destruct (end_ <? time m)%Z; [exists 0; by rewrite Nat.add_0_r|].
  destruct (time m <? begin_)%Z.
  - specialize (IH (S i)). destruct (scan_chunk begin_ end_ (S i) l) as [i' [res|]].
    + destruct IH as (n & -> & ->). exists (S n). split; [lia|done].
    + destruct IH as [-> ->]. split; [lia|done].
  - exists 1. split; [lia|done].
Qed.

Lemma next_in_skip begin_ end_ l rest :
  (begin_ <= end_)%Z → Forall (λ m, (time m < begin_)%Z) l → next_in begin_ end_ (l ++ rest) = next_in begin_ end_ rest.
Proof.
  intros Hbe. induction 1 as [|m l Hm Hl IH]; cbn; [done|].
  replace (end_ <? time m)%Z with false by (symmetry; apply Z.ltb_ge; lia).
  by replace (time m <? begin_)%Z with true by (symmetry; apply Z.ltb_lt; lia).
Qed.

Lemma next_in_stop begin_ end_ l rest :
  l ≠ [] → Forall (λ m, (end_ < time m)%Z) l → next_in begin_ end_ (l ++ rest) = (None, l ++ rest).
Proof.
  intros Hne Hl. destruct l as [|m l]; [done|]. apply Forall_cons in Hl as [Hm _]. cbn.
  by replace (end_ <? time m)%Z with true by (symmetry; apply Z.ltb_lt; lia).
Qed.

(** A message of a window and what remains. *)
Lemma next_in_window begin_ end_ l :
  (begin_ <= end_)%Z →
  match next_in begin_ end_ l with
  | (Some m, l') =>
      window begin_ end_ l = m :: window begin_ end_ l' ∧ beyond end_ l' = beyond end_ l ∧ length l' < length l
  | (None, l') => window begin_ end_ l = [] ∧ l' = beyond end_ l
  end.
Proof.
  intros Hbe. induction l as [|m l IH]; cbn; [done|]. unfold window in *. cbn.
  destruct (end_ <? time m)%Z eqn:E1; [done|]. zbool. rewrite filter_cons.
  destruct (time m <? begin_)%Z eqn:E2; zbool.
  - rewrite decide_False by lia. destruct (next_in begin_ end_ l) as [[x|] l']; [|done].
    destruct IH as (-> & -> & ?). split; [done|]. split; [done|lia].
  - rewrite decide_True by lia. split; [done|]. split; [done|lia].
Qed.

Lemma window_le_end begin_ end_ l :
  Forall (λ m, (time m <= end_)%Z) l → window begin_ end_ l = filter (λ m, (begin_ <= time m)%Z) l.
Proof.
  intros Hl. unfold window. f_equal. induction Hl as [|m l Hm Hl IH]; cbn; [done|].
  replace (end_ <? time m)%Z with false by (symmetry; apply Z.ltb_ge; lia). by rewrite IH.
Qed.

(** In the order of their times, a window shows all the messages in it. *)
Lemma window_sorted begin_ end_ l :
  StronglySorted (λ m n, (time m <= time n)%Z) l →
  window begin_ end_ l = filter (λ m, (begin_ <= time m <= end_)%Z) l.
Proof.
  intros Hs. unfold window. induction Hs as [|m l Hs IH Hm]; cbn [up_to]; [done|].
  destruct (end_ <? time m)%Z eqn:E; zbool.
  - rewrite filter_nil. symmetry. apply filter_none. intros x. rewrite elem_of_cons. rewrite Forall_forall in Hm.
    intros [->|Hx]; [lia|]. specialize (Hm x Hx). lia.
  - rewrite !filter_cons, IH. repeat case_decide; lia || done.
Qed.

Section reading.
Context `{CH : Codec Header, CC : Codec Channel, CK : Codec ChunkHeader, CB : Codec ChunkBody, CI : Codec Index}.
Context {RC : RecordCodec} `{ST : Stream} {SL : StreamLaws}.
Context (at_end : FileReader → Z → bool).

Definition sect_bytes (s : Sect) : list Z :=
  match s with
  | SChannel c => section_of SECTION_CHANNEL c
  | SHeader h => section_of SECTION_CHUNK_HEADER h
  | SBody b => section_of SECTION_CHUNK_BODY b
  end.
Definition sects_bytes (l : list Sect) : list Z := concat (sect_bytes <$> l).

(** The sections that can be read back: valid, and of a size that an int holds. *)
Definition readable (s : Sect) : Prop :=
  match s with
  | SChannel c => (Z.of_nat (ByteSizeLong c) < 2 ^ 31)%Z
  | SHeader h => valid_chunk_header h ∧ (Z.of_nat (ByteSizeLong h) < 2 ^ 31)%Z
  | SBody b => valid_body b ∧ messages b ≠ [] ∧ (Z.of_nat (ByteSizeLong b) < 2 ^ 31)%Z
  end.

(** The file reader stands before the sections [l] and the index, or is done. *)
Definition stands (index : Index) (f : FileReader) (done : bool) (l : list Sect) : Prop :=
  (Z.of_nat (length (file f)) < 2 ^ 63)%Z ∧ rpos f <= length (file f) ∧ Forall readable l ∧
  (Z.of_nat (ByteSizeLong index) < 2 ^ 63)%Z ∧
  if done then l = [] else ∃ tail, ahead f = sects_bytes l ++ section_of SECTION_INDEX index ++ tail.

Lemma advance_advance f n m e e' : advance (advance f n e) m e' = advance f (n + m) e'.
Proof. unfold advance. cbn. by rewrite Nat.add_assoc. Qed.

Lemma ahead_length f : length (ahead f) = length (file f) - rpos f.
Proof. unfold ahead. apply length_drop. Qed.

(** The reader before a section that was written. *)
Lemma section_ahead {T} `{Codec T} f type (m : T) rest :
  ahead f = section_of type m ++ rest → is_i32 type → (Z.of_nat (ByteSizeLong m) < 2 ^ 63)%Z →
  (Z.of_nat (length (file f)) < 2 ^ 63)%Z → rpos f <= length (file f) →
  let f1 := advance f section_length (end_of_file_ f) in
  let f2 := advance f (section_length + ByteSizeLong m) (end_of_file_ f) in
  ReadSection f = (f1, Some (type, Z.of_nat (ByteSizeLong m))) ∧
  SkipSection f1 (Z.of_nat (ByteSizeLong m)) = (f2, true) ∧ ahead f2 = rest ∧ rpos f2 <= length (file f) ∧
  (parses_back m → 0 < ByteSizeLong m → (Z.of_nat (ByteSizeLong m) < 2 ^ 31)%Z →
   ReadSectionT (T := T) at_end f1 (Z.of_nat (ByteSizeLong m)) = (f2, Some m)).
Proof.
  intros Ha Ht Hs Hf Hp f1 f2. unfold section_of in Ha. rewrite <- app_assoc in Ha.
  destruct (ReadSection_ahead f type (Z.of_nat (ByteSizeLong m)) (encode m ++ rest) Ht) as [Hr1 Hr1'];
    [unfold is_i64; lia|done|].
  assert (rpos f + section_length + ByteSizeLong m <= length (file f)).
  { pose proof (ahead_length f) as Hl. rewrite Ha, !length_app, length_Section_bytes in Hl.
    unfold ByteSizeLong. unfold section_length in *. lia. }
  destruct (SkipSection_ahead f1 (ByteSizeLong m) (encode m) rest) as [Hk Hk']; [done|done|cbn -[section_length]; lia|].
  unfold f1 in Hk, Hk'. rewrite advance_advance in Hk, Hk'. split; [done|]. split; [done|]. split; [done|].
  split; [cbn -[section_length]; lia|].
  intros Hb Hpos Hmax. destruct (ReadSectionT_ahead at_end f1 m (rest)) as [Hr3 _]; [done..|].
  rewrite Hr3. unfold f1. by rewrite advance_advance.
Qed.

Lemma index_ahead index f l :
  stands index f false l → ∃ tail, ahead f = sects_bytes l ++ section_of SECTION_INDEX index ++ tail.
Proof. intros (_ & _ & _ & _ & H). exact H. Qed.

(** The reader walks on over a section. *)
Definition after (r : RecordReader) (n : nat) (e : bool) (c : ChunkBody) : RecordReader :=
  set_reader r (advance (file_reader_ r) (section_length + n) (end_of_file_ (file_reader_ r))) e c.

(** What [ReadNextChunk] finds of the sections [l]. *)
Definition next_chunk (index : Index) (W : Z → Z → Prop) (begin_ end_ : Z) (r : RecordReader) (l : list Sect) (r' : RecordReader)
    (ok : bool) : Prop :=
  ∃ l', stands index (file_reader_ r') (reach_end_ r') l' ∧ paired W l' ∧
    r' = set_reader r (file_reader_ r') (reach_end_ r') (chunk_ r') ∧ file (file_reader_ r') = file (file_reader_ r) ∧
    length l' <= length l ∧
    (if ok
     then next_in begin_ end_ (sects_messages l) = next_in begin_ end_ (messages (chunk_ r') ++ sects_messages l') ∧
          length l' < length l
     else next_in begin_ end_ (sects_messages l) = (None, sects_messages l') ∧ chunk_ r' = chunk_ r).

Lemma next_chunk_cons index W begin_ end_ r n e l s r' ok :
  next_chunk index W begin_ end_ (after r n e (chunk_ r)) l r' ok →
  next_in begin_ end_ (sects_messages (s :: l)) = next_in begin_ end_ (sects_messages l) →
  next_chunk index W begin_ end_ r (s :: l) r' ok.
Proof.
  intros (l' & H1 & H2 & H3 & H4 & H5 & H6) Hs. exists l'. split_and!; try done; [cbn; lia|].
  rewrite Hs. destruct ok; [|done]. split; [apply H6|cbn; lia].
Qed.

Lemma sects_messages_cons s l : sects_messages (s :: l) = sect_messages s ++ sects_messages l.
Proof. done. Qed.

Section walk.
Context (index : Index) (W : Z → Z → Prop) (begin_ end_ : Z).
Context (HW : W begin_ end_) (Hbe : (begin_ <= end_)%Z).

(** What [ReadNextChunk] shall do from where the reader stands. *)
Definition walk_from (fuel : nat) (r : RecordReader) (l : list Sect) (skip : bool) : Prop :=
  length l + (if reach_end_ r then 0 else 1) < fuel →
  stands index (file_reader_ r) (reach_end_ r) l → paired W l →
  (skip = true → match l with SBody b :: _ => Forall (λ m, (time m < begin_)%Z) (messages b) | _ => False end) →
  ∃ r' ok, ReadNextChunk at_end fuel r begin_ end_ skip = Some (r', ok) ∧ next_chunk index W begin_ end_ r l r' ok.

Definition walks (fuel : nat) : Prop := ∀ r l skip, walk_from fuel r l skip.

(** The reader before a section: the bytes ahead of it, and that it stands again behind them. *)
Lemma stands_cons f s l :
  stands index f false (s :: l) → readable s ∧ ∃ rest, ahead f = sect_bytes s ++ rest ∧
  ∀ n, ahead (advance f (section_length + n) (end_of_file_ f)) = rest →
    rpos (advance f (section_length + n) (end_of_file_ f)) <= length (file f) →
    stands index (advance f (section_length + n) (end_of_file_ f)) false l.
Proof.
  intros (Hfile & Hpos & Hread & Hidx & tail & Ha). apply Forall_cons in Hread as [Hs Hread]. split; [done|].
  exists (sects_bytes l ++ section_of SECTION_INDEX index ++ tail).
  split; [unfold sects_bytes in Ha; cbn [fmap list_fmap concat] in Ha; by rewrite <- app_assoc in Ha|].
  intros n Hn Hp. split_and!; try done. by exists tail.
Qed.

(** At the index the reader has reached the end. *)
Lemma walk_index fuel r skip : walks fuel → reach_end_ r = false → walk_from (S fuel) r [] skip.
Proof.
  intros IH Er Hfuel Hst _ Hskip. rewrite Er in Hfuel, Hst. cbn [ReadNextChunk]. rewrite Er.
  pose proof Hst as (Hfile & Hpos & Hread & Hidx & tail & Ha). cbn in Ha.
  destruct skip; [by specialize (Hskip eq_refl)|].
  destruct (section_ahead _ _ _ _ Ha) as (-> & -> & _ & Hpos' & _); [done|done|done|done|].
  rewrite Z.eqb_refl. cbn [fst].
  destruct (IH (after r (ByteSizeLong index) true (chunk_ r)) [] false) as (r' & ok & Heq & Hn);
    [cbn in *; lia|by split_and!|done|done|]. exists r', ok. split; [exact Heq|].
  destruct Hn as (l' & Hn). by exists l'.
Qed.

(** A channel is read over. *)
Lemma walk_channel fuel r c l skip : walks fuel → reach_end_ r = false → walk_from (S fuel) r (SChannel c :: l) skip.
Proof.
  intros IH Er Hfuel Hst Hp Hskip. rewrite Er in Hfuel, Hst. cbn [ReadNextChunk]. rewrite Er.
  pose proof Hst as (Hfile & Hpos & _). apply stands_cons in Hst as (Hs & rest & Ha & Hnext).
  destruct skip; [by specialize (Hskip eq_refl)|]. cbn in Hs, Ha, Hfuel.
  destruct (section_ahead _ _ _ _ Ha) as (-> & _ & Ha' & Hpos' & Hrd); [done|lia|done|done|]. section_type.
  rewrite Hrd by (done || apply channel_codec || apply channel_length).
  destruct (IH (after r (ByteSizeLong c) false (chunk_ r)) l false) as (r' & ok & Heq & Hn);
    [cbn; lia|by apply Hnext|done|done|]. exists r', ok. split; [exact Heq|]. by eapply next_chunk_cons.
Qed.

(** A chunk header ends the walk or says whether its body is skipped. *)
Lemma walk_header fuel r h l skip : walks fuel → reach_end_ r = false → walk_from (S fuel) r (SHeader h :: l) skip.
Proof.
  intros IH Er Hfuel Hst Hp Hskip. rewrite Er in Hfuel, Hst. cbn [ReadNextChunk]. rewrite Er.
  pose proof Hst as (Hfile & Hpos & _). apply stands_cons in Hst as ([Hv Hmax] & rest & Ha & Hnext).
  destruct skip; [by specialize (Hskip eq_refl)|]. cbn in Ha, Hfuel.
  destruct (section_ahead _ _ _ _ Ha) as (-> & _ & Ha' & Hpos' & Hrd); [done|lia|done|done|]. section_type.
  rewrite Hrd by (done || (by apply chunk_header_codec) || apply chunk_header_length).
  destruct Hp as [Hb Hp]. destruct l as [|[| |b] l]; try done. destruct Hb as (Hne & Hb). destruct (Hb _ _ HW) as [Hlo Hhi].
  destruct (end_ <? begin_time h)%Z eqn:E; zbool.
  - exists (after r (ByteSizeLong h) false (chunk_ r)), false. split; [done|]. exists (SBody b :: l).
    split; [by apply Hnext|]. split; [done|]. split; [done|]. split; [done|].
    split; [cbn; lia|]. split; [|done].
    rewrite !sects_messages_cons. cbn [sect_messages app]. apply next_in_stop; [done|by apply Hhi].
  - destruct (IH (after r (ByteSizeLong h) false (chunk_ r)) (SBody b :: l) (end_time h <? begin_)%Z)
      as (r' & ok & Heq & Hn); [cbn in *; lia|by apply Hnext|done| |].
    { intros Hlt. zbool. by apply Hlo. }
    exists r', ok. split; [|by eapply next_chunk_cons]. rewrite <- Heq. unfold after. by destruct (end_time h <? begin_)%Z.
Qed.

(** A chunk body is skipped or is the one. *)
Lemma walk_body fuel r b l skip : walks fuel → reach_end_ r = false → walk_from (S fuel) r (SBody b :: l) skip.
Proof.
  intros IH Er Hfuel Hst Hp Hskip. rewrite Er in Hfuel, Hst. cbn [ReadNextChunk]. rewrite Er.
  pose proof Hst as (Hfile & Hpos & _). apply stands_cons in Hst as ((Hv & Hne & Hmax) & rest & Ha & Hnext).
  cbn in Ha, Hfuel.
  destruct (section_ahead _ _ _ _ Ha) as (-> & Hsk & Ha' & Hpos' & Hrd); [done|lia|done|done|]. section_type.
  destruct skip.
  - rewrite Hsk. cbn [fst].
    destruct (IH (after r (ByteSizeLong b) false (chunk_ r)) l false) as (r' & ok & Heq & Hn);
      [cbn; lia|by apply Hnext|done|done|]. exists r', ok. split; [exact Heq|]. eapply next_chunk_cons; [done|].
    rewrite sects_messages_cons. apply next_in_skip; [done|by apply Hskip].
  - rewrite Hrd by (done || (by apply body_codec) || (by apply body_length)).
    exists (after r (ByteSizeLong b) false b), true. split; [done|]. exists l.
    split; [by apply Hnext|]. split; [done|]. split; [done|]. split; [done|].
    split; [cbn; lia|]. split; [by rewrite sects_messages_cons|cbn; lia].
Qed.

(** [ReadNextChunk] walks to the next body that the window does not skip. *)
Lemma ReadNextChunk_spec fuel : walks fuel.
Proof.
  induction fuel as [|fuel IH]; intros r l skip; [intros Hfuel; lia|]. destruct (reach_end_ r) eqn:Er.
  { intros _ Hst _ _. rewrite Er in Hst. destruct Hst as (? & ? & ? & ? & ->). exists r, false. cbn [ReadNextChunk]. rewrite Er.
    split; [done|]. exists []. rewrite Er. unfold stands. split_and!; try done. destruct r; cbn in *; by rewrite Er. }
  destruct l as [|[c|h|b] l]; [by apply walk_index|by apply walk_channel|by apply walk_header|by apply walk_body].
Qed.
End walk.

(** ** Reading messages *)

(** The reader shows these messages next. *)
Definition shows (index : Index) (W : Z → Z → Prop) (r : RecordReader) (l : list Sect) (ms : list SingleMessage) : Prop :=
  is_valid_ r = true ∧ stands index (file_reader_ r) (reach_end_ r) l ∧ paired W l ∧
  ms = drop (message_index_ r) (messages (chunk_ r)) ++ sects_messages l.

Lemma stands_length index f done l : stands index f done l → length l + (if done then 0 else 1) <= length (file f).
Proof.
  intros (_ & _ & _ & _ & H). destruct done; [subst; cbn; lia|]. destruct H as [tail Ha].
  assert (length l <= length (sects_bytes l)) as Hl.
  { unfold sects_bytes. clear. induction l as [|s l IH]; cbn; [done|]. rewrite length_app.
    destruct s; cbn -[section_of]; rewrite length_section_of; unfold section_length; lia. }
  pose proof (ahead_length f) as E. rewrite Ha, !length_app, length_section_of in E. unfold section_length in E. lia.
Qed.

(** [ReadMessage] takes the next message of the window and leaves the rest. *)
Lemma ReadMessage_spec index W begin_ end_ fuel r l ms :
  W begin_ end_ → (begin_ <= end_)%Z → length l < fuel → shows index W r l ms →
  (begin_ <= h_end_time (header_ r))%Z → (h_begin_time (header_ r) <= end_)%Z →
  ∃ r' l', ReadMessage at_end fuel r begin_ end_ = Some (r', (next_in begin_ end_ ms).1) ∧
    shows index W r' l' (next_in begin_ end_ ms).2 ∧ header_ r' = header_ r ∧
    file (file_reader_ r') = file (file_reader_ r) ∧ channel_info_ r' = channel_info_ r.
Proof.
  intros HW Hbe. revert r l ms. induction fuel as [|fuel IH]; intros r l ms Hfuel (Hv & Hst & Hp & ->) Hb He; [lia|].
  cbn [ReadMessage]. rewrite Hv. cbn [negb].
  replace (_ || _)%bool with false by (symmetry; apply orb_false_iff; split; apply Z.ltb_ge; lia).
  pose proof (scan_chunk_next begin_ end_ (message_index_ r) (drop (message_index_ r) (messages (chunk_ r)))
    (sects_messages l)) as Hscan.
  destruct (scan_chunk _ _ _ _) as [i [res|]].
  - destruct Hscan as (n & -> & ->). exists (set_message_index r (message_index_ r + n)), l.
    split; [done|]. split; [|done]. split_and!; try done. cbn. by rewrite drop_drop.
  - destruct Hscan as [-> ->].
    destruct (ReadNextChunk_spec index W begin_ end_ HW Hbe (S (length (file (file_reader_ r))))
      (set_message_index r (message_index_ r + length (drop (message_index_ r) (messages (chunk_ r))))) l false)
      as (r1 & ok & -> & l1 & Hst1 & Hp1 & Hr1 & Hf1 & Hl1 & Hn); [|done|done|done|].
    { pose proof (stands_length _ _ _ _ Hst). cbn. lia. }
    cbn in Hf1. destruct ok.
    + destruct Hn as [-> Hlt].
      destruct (IH (set_message_index r1 0) l1 (messages (chunk_ r1) ++ sects_messages l1)) as (r2 & l2 & H1 & H2 & H3 & H4 & H5).
      * lia.
      * split_and!; try done. by rewrite Hr1.
      * by rewrite Hr1.
      * by rewrite Hr1.
      * exists r2, l2. split; [done|]. split; [done|]. cbn in H3, H4, H5. rewrite H3, H4, H5, Hr1. done.
    + destruct Hn as [-> Hc]. exists r1, l1. split; [done|]. split; [|by rewrite Hr1].
      split_and!; try done; [by rewrite Hr1|]. rewrite Hc. cbn [snd]. rewrite Hr1. cbn.
      rewrite drop_ge; [done|]. rewrite length_drop. lia.
Qed.

(** The whole window. *)
Lemma read_all_spec index W begin_ end_ n r l ms :
  W begin_ end_ → (begin_ <= end_)%Z → length ms < n → shows index W r l ms →
  (begin_ <= h_end_time (header_ r))%Z → (h_begin_time (header_ r) <= end_)%Z →
  ∃ r' l', read_all at_end n r begin_ end_ = Some (r', window begin_ end_ ms) ∧
    shows index W r' l' (beyond end_ ms) ∧ header_ r' = header_ r ∧ channel_info_ r' = channel_info_ r ∧
    file (file_reader_ r') = file (file_reader_ r).
Proof.
  intros HW Hbe. revert r l ms. induction n as [|n IH]; intros r l ms Hn Hs Hb He; [lia|].
  cbn [read_all]. pose proof Hs as (_ & Hst & _). pose proof (stands_length _ _ _ _ Hst) as Hlen.
  destruct (ReadMessage_spec index W begin_ end_ (fuel_of r) r l ms HW Hbe) as (r1 & l1 & -> & Hs1 & Hh1 & Hf1 & Hc1);
    [unfold fuel_of; lia|done|done|done|].
  pose proof (next_in_window begin_ end_ ms Hbe) as Hw. destruct (next_in begin_ end_ ms) as [[m|] ms1]; cbn [fst snd] in *.
  - destruct Hw as (-> & <- & Hlt).
    destruct (IH r1 l1 ms1) as (r2 & l2 & H2 & Hs2 & Hh2 & Hc2 & Hf2); [lia|done|by rewrite Hh1|by rewrite Hh1|].
    exists r2, l2. rewrite H2, Hh2, Hc2, Hf2. done.
  - destruct Hw as [-> <-]. by exists r1, l1.
Qed.

(** ** Opening a file the writer finished *)

Definition item_readable (it : Item) : Prop :=
  match it with
  | IChannel c => (Z.of_nat (ByteSizeLong c) < 2 ^ 31)%Z
  | IChunk h b => (Z.of_nat (ByteSizeLong h) < 2 ^ 31 ∧ Z.of_nat (ByteSizeLong b) < 2 ^ 31)%Z
  end.

Definition sects_of (items : list Item) : list Sect := concat (item_sects <$> items).

Lemma sects_of_bytes items : sects_bytes (sects_of items) = items_bytes items.
Proof.
  unfold sects_bytes, sects_of, items_bytes. induction items as [|it items IH]; cbn; [done|].
  rewrite fmap_app, concat_app, IH. f_equal. destruct it; cbn -[section_of]; by rewrite ?app_nil_r.
Qed.

Lemma sects_of_messages items : sects_messages (sects_of items) = all_messages items.
Proof.
  unfold sects_messages, sects_of, all_messages. induction items as [|it items IH]; cbn; [done|].
  rewrite fmap_app, concat_app, IH. f_equal. destruct it; cbn; by rewrite ?app_nil_r.
Qed.

Lemma sects_of_readable items :
  Forall chunk_item items → Forall item_readable items → Forall valid_message (all_messages items) →
  Forall readable (sects_of items).
Proof.
  unfold sects_of, all_messages. induction items as [|it items IH]; cbn; [done|].
  rewrite !Forall_cons, !Forall_app. intros [Hc Hcs] [Hr Hrs] [Hv Hvs]. split; [|by apply IH].
  destruct it as [c|h b]; cbn in *; [by apply Forall_singleton|]. destruct Hc as [Hne ->], Hr as [Hr1 Hr2].
  rewrite Forall_cons, Forall_singleton. cbn. split_and!; try done. by apply chunk_of_valid.
Qed.

(** With the default window chunk headers never matter; with any window they tell the
    truth if no time is zero. *)
Lemma sects_of_paired W items :
  Forall chunk_item items → Forall valid_message (all_messages items) →
  (∀ b e, W b e → b = 0 ∧ e = 2 ^ 64 - 1)%Z ∨ Forall (λ m, (0 < time m)%Z) (all_messages items) →
  paired W (sects_of items).
Proof.
  unfold sects_of, all_messages. intros Hc Hv Hw. induction items as [|it items IH]; cbn in *; [done|].
  rewrite !Forall_cons, !Forall_app in *. destruct Hc as [Hc Hcs], Hv as [Hv Hvs].
  assert (paired W (concat (item_sects <$> items))) as Hp by (apply IH; tauto).
  destruct it as [c|h b]; cbn in *; [done|]. split; [|done]. destruct Hc as [Hne ->]. split; [done|].
  assert (Forall (λ m, (0 <= time m)%Z) (messages b)) as Hpos.
  { eapply Forall_impl; [exact Hv|]. intros m [Hm _]. apply Hm. }
  destruct (chunk_of_valid _ Hv) as (Hb & He & _). unfold is_u64 in *.
  intros b0 e0 HW.
  split; intros Hlt; apply Forall_forall; intros m Hm; destruct (chunk_of_times _ m Hpos Hm) as [H1 H2].
  - lia.
  - destruct Hw as [Hw|[Hw _]]; [destruct (Hw _ _ HW) as [_ ->]; lia|]. specialize (H2 Hw). lia.
Qed.

Lemma parsed {T} `{Codec T} f (m : T) rest :
  ahead f = encode m ++ rest → parses_back m → (Z.of_nat (ByteSizeLong m) < 2 ^ 31)%Z →
  ∃ f', ReadSectionT (T := T) at_end f (Z.of_nat (ByteSizeLong m)) = (f', Some m) ∧ file f' = file f ∧
    r_header_ f' = r_header_ f ∧ r_index_ f' = r_index_ f.
Proof.
  intros Ha Hp Hm. unfold ReadSectionT. replace (_ || _)%bool with false
    by (symmetry; apply orb_false_iff; split; apply Z.ltb_ge; lia).
  rewrite Ha. unfold ByteSizeLong in *. rewrite Hp, Z.eqb_refl. by eexists.
Qed.

Lemma SetPosition_of_nat f (n : nat) :
  SetPosition f (Z.of_nat n) = (mkFileReader (file f) n (end_of_file_ f) (r_header_ f) (r_index_ f), true).
Proof.
  unfold SetPosition. replace (_ <? 0)%Z with false by (symmetry; apply Z.ltb_ge; lia). by rewrite Nat2Z.id.
Qed.

(** The header is read, and the position set behind it. *)
Lemma ReadHeader_spec h rest :
  valid_header h →
  ∃ eof, FileReader_Open at_end (Some (header_section h ++ rest)) =
    (mkFileReader (header_section h ++ rest) start eof h [], true).
Proof.
  intros Hv. destruct (header_length h Hv) as [Hpos Hmax].
  assert (Z.of_nat HEADER_LENGTH = 2048%Z) as HL by reflexivity.
  cbn [FileReader_Open]. unfold ReadHeader. set (f := mkFileReader _ _ _ _ _).
  destruct (ReadSection_ahead f SECTION_HEADER (Z.of_nat (ByteSizeLong h))
    (encode h ++ take (HEADER_LENGTH - ByteSizeLong h) blank ++ rest)) as [H1 H2];
    [done|unfold is_i64; lia| |].
  { unfold ahead, f. cbn [file rpos]. rewrite drop_0. unfold header_section, section_of. by rewrite <- !app_assoc. }
  rewrite H1. section_type. cbn [negb].
  destruct (parsed _ h _ H2 (header_codec h Hv)) as (f2 & -> & Hf2 & _ & Hi2); [lia|].
  rewrite SetPosition_of_nat. cbn -[start header_section]. rewrite Hf2, Hi2. exists (end_of_file_ f2). fold start.
done.
Qed.

(** The index is found where the header says, and the reader goes back. *)
Lemma ReadIndex_spec f (index : Index) pre tail :
  file f = pre ++ section_of SECTION_INDEX index ++ tail →
  is_complete (r_header_ f) = true → index_position (r_header_ f) = Z.of_nat (length pre) →
  (Z.of_nat (length (file f)) < 2 ^ 63)%Z → parses_back index → (Z.of_nat (ByteSizeLong index) < 2 ^ 31)%Z →
  ReadIndex at_end f = (mkFileReader (file f) start false (r_header_ f) index, true).
Proof.
  intros Hf Hc Hp Hlen Hb Hmax. unfold ReadIndex. rewrite Hc, Hp. cbn [negb].
  assert (length pre <= length (file f)) as Hpre by (rewrite Hf, length_app; lia).
  rewrite i64_small by (unfold is_i64; lia). rewrite SetPosition_of_nat.
  set (f1 := mkFileReader _ _ _ _ _).
  destruct (ReadSection_ahead f1 SECTION_INDEX (Z.of_nat (ByteSizeLong index)) (encode index ++ tail)) as [H1 H2];
    [done|unfold is_i64; lia| |].
  { unfold ahead, f1. cbn [file rpos]. rewrite Hf, drop_app_length. unfold section_of. by rewrite <- app_assoc. }
  rewrite H1. section_type. cbn [negb].
  destruct (parsed _ index _ H2 Hb Hmax) as (f2 & -> & Hf2 & Hh2 & _).
  unfold FileReader_Reset. rewrite SetPosition_of_nat. cbn -[start]. by rewrite Hf2, Hh2.
Qed.

(** A reader of a finished file. *)
Lemma RecordReader_new_spec h items index tail :
  let bs := file_of h items index ++ tail in
  let r := RecordReader_new at_end (Some bs) in
  valid_header h → is_complete h = true → index_position h = Z.of_nat (start + length (items_bytes items)) →
  parses_back index → (Z.of_nat (ByteSizeLong index) < 2 ^ 31)%Z → (Z.of_nat (length bs) < 2 ^ 63)%Z →
  r = mkReader (mkFileReader bs start false h index) true h index (foldl add_channel_info ∅ index) false
        (mkChunkBody []) 0.
Proof.
  intros bs r Hv Hc Hp Hb Hi Hlen. unfold r, RecordReader_new. destruct (header_length h Hv) as [_ Hmax].
  destruct (ReadHeader_spec h (items_bytes items ++ section_of SECTION_INDEX index ++ tail) Hv) as [eof He].
  replace (header_section h ++ items_bytes items ++ section_of SECTION_INDEX index ++ tail) with bs in He
    by (unfold bs, file_of; by rewrite <- !app_assoc).
  rewrite He. cbn [r_header_].
  rewrite (ReadIndex_spec _ index (header_section h ++ items_bytes items) tail); cbn [file r_header_];
    [|unfold bs, file_of; by rewrite <- !app_assoc|done| |done|done|done].
  - unfold FileReader_Reset. by rewrite SetPosition_of_nat.
  - rewrite Hp, length_app, length_header_section by lia. done.
Qed.

(** It shows the messages of the file. *)
Lemma new_reader_shows W h items index tail :
  let bs := file_of h items index ++ tail in
  let r := RecordReader_new at_end (Some bs) in
  valid_header h → is_complete h = true → index_position h = Z.of_nat (start + length (items_bytes items)) →
  parses_back index → (Z.of_nat (ByteSizeLong index) < 2 ^ 31)%Z → (Z.of_nat (length bs) < 2 ^ 63)%Z →
  Forall chunk_item items → Forall item_readable items → Forall valid_message (all_messages items) →
  (∀ b e, W b e → b = 0 ∧ e = 2 ^ 64 - 1)%Z ∨ Forall (λ m, (0 < time m)%Z) (all_messages items) →
  shows index W r (sects_of items) (all_messages items).
Proof.
  intros bs r Hv Hc Hp Hb Hi Hlen Hci Hr Hm Hw. unfold r, bs. rewrite RecordReader_new_spec by done.
  destruct (header_length h Hv) as [_ Hmax].
  split; [done|]. split; [|split; [by apply sects_of_paired|by rewrite sects_of_messages]].
  assert (length bs = start + length (items_bytes items) + length (section_of SECTION_INDEX index) + length tail) as Hbs.
  { unfold bs, file_of. rewrite !length_app, length_header_section by lia. fold start. lia. }
  split; [done|]. split; [cbn [file_reader_ file rpos]; fold bs; lia|]. split; [by apply sects_of_readable|].
  split; [lia|]. cbn [reach_end_ file_reader_]. exists tail. unfold ahead. cbn [file rpos].
  unfold file_of. rewrite <- !app_assoc, drop_app_length' by (rewrite length_header_section by lia; done).
  by rewrite sects_of_bytes.
Qed.

(** ** The index and the header of a finished file *)

(** An index entry for the channel. *)
Definition entry_of (ch : string) (i : SingleIndex) : option ChannelCache :=
  if (type_ i =? SECTION_CHANNEL)%Z then
    match cache i with
    | Some (channel_cache c) => if decide (cc_name c = ch) then Some c else None
    | _ => None
    end
  else None.

Lemma channel_info_lookup (index : Index) m ch :
  foldl add_channel_info m index !! ch =
  match m !! ch with Some c => Some c | None => head (omap (entry_of ch) index) end.
Proof.
  revert m. induction index as [|i index IH]; intros m; cbn [foldl omap list_omap].
  - by destruct (m !! ch).
  - rewrite IH. unfold add_channel_info, entry_of. destruct (type_ i =? SECTION_CHANNEL)%Z; cbn [negb]; [|done].
    destruct (cache i) as [[c| |]|]; try done. destruct (decide (cc_name c = ch)) as [<-|Hne].
    + destruct (m !! cc_name c) as [d|] eqn:E; [by rewrite E|]. by rewrite lookup_insert_eq.
    + destruct (m !! cc_name c); [done|]. by rewrite lookup_insert_ne.
Qed.

(** The entries of the items have valid fields, and those of the channels their counts. *)
Lemma items_index_entries p items :
  Forall chunk_item items → Forall valid_message (all_messages items) →
  (Z.of_nat (p + length (items_bytes items)) < 2 ^ 63)%Z →
  Forall valid_entry (items_index p items) ∧
  (∀ i c, i ∈ items_index p items → cache i = Some (channel_cache c) → cc_message_number c = 0%Z) ∧
  ∀ c, c ∈ omap item_channel items → ∃ i, i ∈ items_index p items ∧ type_ i = SECTION_CHANNEL ∧
    cache i = Some (channel_cache (mkChannelCache 0 (name c) (message_type c) (proto_desc c))).
Proof.
  revert p. unfold all_messages, items_bytes. induction items as [|it items IH]; intros p Hc Hv Hp; [set_solver|].
  cbn in Hc, Hv, Hp. rewrite Forall_cons in Hc. rewrite Forall_app in Hv. rewrite length_app in Hp.
  destruct Hc as [Hc Hcs], Hv as [Hv Hvs]. cbn [items_index].
  destruct (IH (p + length (item_bytes it)) Hcs Hvs ltac:(lia)) as (H1 & H2 & H3).
  destruct it as [c|h b]; cbn [item_index item_bytes app] in *.
  - split_and!.
    + constructor; [|done]. unfold valid_entry, is_i32, is_u64. cbn. unfold SECTION_CHANNEL, is_u64. lia.
    + intros i c' [-> | Hi]%elem_of_cons; [cbn; intros [= <-]; done|by apply H2].
    + cbn. intros c' [-> | Hc']%elem_of_cons; [eexists; split; [by left|done]|].
      destruct (H3 c' Hc') as (i & Hi & ?). exists i. split; [by right|done].
  - destruct Hc as [_ ->]. rewrite length_app in Hp. split_and!.
    + constructor; [|constructor; [|done]].
      * split; [done|]. split; [unfold is_u64; cbn; lia|]. by apply chunk_of_valid.
      * split; [done|]. split; [unfold is_u64; cbn -[section_of Z.of_nat Nat.add]; lia|]. cbn. eauto with cyber.
    + intros i c' [-> |[-> |Hi]%elem_of_cons]%elem_of_cons; [done|done|by apply H2].
    + cbn. intros c' Hc'. destruct (H3 c' Hc') as (i & Hi & ?). exists i. split; [by do 2 right|done].
Qed.

Lemma number_of_default ch l : (Z.of_nat (length l) < 2 ^ 64)%Z → default 0%Z (number_of ch l) = Z.of_nat (count_of ch l).
Proof.
  intros Hl. unfold number_of. case_decide as E; cbn; [by rewrite E|]. apply u64_small.
  assert (count_of ch l <= length l) by (unfold count_of; apply length_filter). unfold is_u64. lia.
Qed.

Lemma final_index_info (written : list SingleMessage) items c :
  (Z.of_nat (length written) < 2 ^ 64)%Z → Forall chunk_item items → Forall valid_message (all_messages items) →
  (Z.of_nat (start + length (items_bytes items)) < 2 ^ 63)%Z → c ∈ omap item_channel items →
  from_option cc_message_number 0%Z (foldl add_channel_info ∅ (final_index written items) !! name c) =
  Z.of_nat (count_of (name c) written).
Proof.
  intros Hl Hc Hv Hp Hin. destruct (items_index_entries start items Hc Hv Hp) as (_ & H2 & H3).
  rewrite channel_info_lookup, lookup_empty.
  assert (∀ d, d ∈ omap (entry_of (name c)) (final_index written items) →
    cc_message_number d = Z.of_nat (count_of (name c) written)) as Hall.
  { intros d (i & (j & -> & Hj)%list_elem_of_fmap & Hi)%list_elem_of_omap. rewrite <- number_of_default by done.
    unfold count_entry, entry_of in Hi. destruct (type_ j =? SECTION_CHANNEL)%Z eqn:Et; [|by rewrite Et in Hi].
    destruct (cache j) as [[e| |]|] eqn:Ec; rewrite ?Ec, ?Et in Hi; try done.
    destruct (number_of (cc_name e) written) as [n|] eqn:En; cbn in Hi; rewrite ?Et, ?Ec in Hi;
      (case_decide as Hn; [|done]); injection Hi as <-; cbn in *; rewrite <- Hn, En; [done|by apply (H2 j)]. }
  destruct (omap (entry_of (name c)) (final_index written items)) as [|d l'] eqn:E; [|apply Hall; by left].
  exfalso. destruct (H3 c Hin) as (i & Hi & Ht & Hcache).
  assert (is_Some (entry_of (name c) (count_entry written i))) as [d Hd].
  { unfold entry_of, count_entry. rewrite Ht, Z.eqb_refl, Hcache. destruct (number_of _ written); cbn;
      rewrite ?Ht, ?Hcache; cbn; rewrite decide_True by done; eauto. }
  assert (d ∈ omap (entry_of (name c)) (final_index written items)) as Hx; [|rewrite E in Hx; set_solver].
  apply list_elem_of_omap. exists (count_entry written i). split; [|done]. apply list_elem_of_fmap. eauto.
Qed.

Lemma final_index_valid (written : list SingleMessage) items :
  Forall chunk_item items → Forall valid_message (all_messages items) →
  (Z.of_nat (start + length (items_bytes items)) < 2 ^ 63)%Z →
  Forall valid_entry (final_index written items).
Proof.
  intros Hc Hv Hp. destruct (items_index_entries start items Hc Hv Hp) as (H1 & _ & _).
  apply Forall_fmap. eapply Forall_impl; [exact H1|]. intros i (Ht & Hpos & Hi). unfold compose, count_entry.
  destruct (type_ i =? SECTION_CHANNEL)%Z; [|by split].
  destruct (cache i) as [[c| |]|] eqn:Ec; try (split; [done|by rewrite Ec]).
  unfold number_of. case_decide; [split; [done|by rewrite Ec]|]. split; [done|]. cbn. eauto with cyber.
Qed.

(** The counts in the header. *)
Lemma header_counts h items :
  is_u64 (h_message_number h) → is_u64 (channel_number h) → Forall chunk_item items →
  h_message_number (foldl count_item h items) = u64 (h_message_number h + Z.of_nat (length (all_messages items))) ∧
  channel_number (foldl count_item h items) = u64 (channel_number h + Z.of_nat (length (omap item_channel items))).
Proof.
  intros Hm Hc. induction items as [|it items IH] using rev_ind.
  - intros _. cbn. by rewrite !Z.add_0_r, !u64_small.
  - rewrite Forall_app, Forall_singleton. intros [Hcs Hci]. specialize (IH Hcs) as [IHm IHc].
    rewrite foldl_app, all_messages_snoc, omap_app, !length_app. cbn [foldl]. set (h' := foldl count_item h items) in *.
    destruct it as [c|ch b]; cbn.
    + rewrite IHm, IHc. split; [f_equal; lia|]. unfold u64. rewrite Z.add_mod_idemp_l by lia. f_equal. lia.
    + destruct Hci as [_ ->]. rewrite chunk_of_number, IHm, IHc. split; [|f_equal; lia].
      unfold u64. rewrite <- Z.add_mod by lia. f_equal. lia.
Qed.

(** In the order of the times, the header spans the messages. *)
Lemma header_spans h items :
  h_begin_time h = 0%Z → Forall chunk_item items → Forall (λ m, (0 < time m)%Z) (all_messages items) →
  StronglySorted (λ m n, (time m <= time n)%Z) (all_messages items) →
  Forall (λ m, (h_begin_time (foldl count_item h items) <= time m <= h_end_time (foldl count_item h items))%Z)
    (all_messages items).
Proof.
  intros Hh Hc Hpos Hs. set (P := λ items, Forall (λ m, (h_begin_time (foldl count_item h items) <= time m <=
    h_end_time (foldl count_item h items))%Z) (all_messages items) ∧
    (h_begin_time (foldl count_item h items) = 0%Z ↔ all_messages items = [])).
  assert (P items) as [H _]; [|exact H]. revert Hc Hpos Hs.
  induction items as [|it items IH] using rev_ind; [by split|].
  rewrite Forall_app, Forall_singleton, all_messages_snoc, Forall_app.
  intros [Hcs Hc] [Hps Hp] Hs. apply StronglySorted_app in Hs as (Hlt & Hs & Hsb).
  destruct (IH Hcs Hps Hs) as [IH1 IH2]. unfold P. rewrite foldl_app, all_messages_snoc. cbn [foldl].
  set (h' := foldl count_item h items) in *. destruct it as [c|ch b]; cbn in *; [by rewrite app_nil_r|].
  destruct Hc as [Hne ->].
  assert (Forall (λ m, (0 <= time m)%Z) (messages b)) as Hp0 by (eapply Forall_impl; [exact Hp|]; cbn; lia).
  assert (∀ m, m ∈ messages b → (0 < begin_time (c_header (chunk_of (messages b))) <= time m ∧ time m <=
    end_time (c_header (chunk_of (messages b))))%Z) as Hb.
  { intros m Hm. destruct (chunk_of_times _ m Hp0 Hm) as [H1 H2]. specialize (H2 Hp). lia. }
  destruct (messages b) as [|x l] eqn:Eb; [done|]. pose proof (Hb x ltac:(by left)) as Hx.
  rewrite Forall_app, !Forall_forall in *. split; [split|].
  - intros m Hm. specialize (IH1 m Hm). specialize (Hlt m x Hm ltac:(by left)).
    case_match; zbool; [|lia]. rewrite (proj1 IH2) in Hm by done. by apply not_elem_of_nil in Hm.
  - intros m Hm. specialize (Hb m Hm). case_match; zbool; [lia|].
    destruct (all_messages items) as [|y ys] eqn:Ey.
    + destruct IH2 as [_ IH2]. specialize (IH2 eq_refl). lia.
    + specialize (IH1 y ltac:(by left)). specialize (Hlt y m ltac:(by left) Hm). lia.
  - split; [case_match; zbool; lia|]. intros E. by destruct (all_messages items).
Qed.

(** What a reader of a finished file starts from. *)
Lemma finished_file old h0 l :
  let w := record_file None old h0 l in
  valid_header h0 → Forall valid_message (ev_messages l) → (Z.of_nat (length (ev_messages l)) < 2 ^ 64)%Z →
  (Z.of_nat (length (bytes (w_fd w))) < 2 ^ 63)%Z →
  ∃ items, let index := final_index (ev_messages l) items in
    all_messages items ≡ₚ ev_messages l ∧
    (prompt (opened old h0) l = true → all_messages items = ev_messages l) ∧
    omap item_channel items = ev_channels l ∧
    bytes (w_fd w) = file_of (final_header h0 items index) items index ++
                     drop (length (file_of (final_header h0 items index) items index)) old ∧
    Forall chunk_item items ∧ Forall valid_message (all_messages items) ∧
    (Z.of_nat (start + length (items_bytes items) + length (section_of SECTION_INDEX index)) < 2 ^ 63)%Z ∧
    valid_header (final_header h0 items index) ∧ parses_back index.
Proof.
  intros w Hv Hm Hl Hlen. destruct (record_file_layout old h0 l Hv Hm Hl Hlen) as (items & Hb & Hc & Hp & Ho & Hch).
  exists items. set (index := final_index (ev_messages l) items) in *. cbv zeta.
  assert (Forall valid_message (all_messages items)) as Hmi by (by rewrite Hp).
  assert (Z.of_nat (start + length (items_bytes items) + length (section_of SECTION_INDEX index)) < 2 ^ 63)%Z as Hsz.
  { eapply Z.le_lt_trans; [|exact Hlen]. unfold w. rewrite Hb. unfold file_of. rewrite !length_app.
    assert (start <= length (header_section (final_header h0 items index))) as Hge; [|lia].
    unfold header_section. rewrite length_app, length_section_of, length_take, length_blank. unfold start. lia. }
  split; [done|]. split; [done|]. split; [done|]. split; [done|]. split; [done|]. split; [done|]. split; [done|].
  split; [by apply final_header_valid|]. apply index_codec, final_index_valid; [done|done|lia].
Qed.

(** With the default window everything shown is read. *)
Lemma shown_whole index n r l ms :
  shows index (λ b e, b = 0 ∧ e = 2 ^ 64 - 1)%Z r l ms → valid_header (header_ r) →
  Forall valid_message ms → length ms < n →
  ∃ r', read_all at_end n r 0 (2 ^ 64 - 1) = Some (r', ms).
Proof.
  intros Hs (_ & _ & _ & Hv) Hm Hn. rewrite !Forall_cons in Hv. unfold is_u64 in Hv.
  destruct (read_all_spec index (λ b e, b = 0 ∧ e = 2 ^ 64 - 1)%Z 0 (2 ^ 64 - 1) n r l ms ltac:(done) ltac:(lia) Hn Hs)
    as (r' & _ & Hr' & _); [lia|lia|].
  exists r'. rewrite Hr', window_le_end.
  - rewrite filter_all; [done|]. intros m Hx. rewrite Forall_forall in Hm. apply (Hm m Hx).
  - eapply Forall_impl; [exact Hm|]. intros m [Hx _]. unfold is_u64 in Hx. lia.
Qed.

(** A reader of a finished file, and what it shows, whatever the windows [W] it will be
    asked for; with the default one no time matters. *)
Lemma finished_shows (W : Z → Z → Prop) old h0 l :
  let w := record_file None old h0 l in
  let written := ev_messages l in
  valid_header h0 → Forall valid_message written → (Z.of_nat (length written) < 2 ^ 64)%Z →
  (Z.of_nat (length (bytes (w_fd w))) < 2 ^ 63)%Z →
  ∃ items, let index := final_index written items in
    let h := final_header h0 items index in
    all_messages items ≡ₚ written ∧
    (prompt (opened old h0) l = true → all_messages items = written) ∧
    omap item_channel items = ev_channels l ∧
    Forall chunk_item items ∧ Forall valid_message (all_messages items) ∧ valid_header h ∧
    (Z.of_nat (start + length (items_bytes items)) < 2 ^ 63)%Z ∧
    (Forall item_readable items → (Z.of_nat (ByteSizeLong index) < 2 ^ 31)%Z →
     let r := RecordReader_new at_end (Some (bytes (w_fd w))) in
     r = mkReader (mkFileReader (bytes (w_fd w)) start false h index) true h index
           (foldl add_channel_info ∅ index) false (mkChunkBody []) 0 ∧
     ((∀ b e, W b e → b = 0 ∧ e = 2 ^ 64 - 1)%Z ∨ Forall (λ m, (0 < time m)%Z) written →
      shows index W r (sects_of items) (all_messages items))).
Proof.
  intros w written Hv Hm Hl Hlen.
  destruct (finished_file old h0 l Hv Hm Hl Hlen) as (items & Hp & Ho & Hch & Hb & Hc & Hmi & Hsz & Hvf & Hpi).
  exists items. fold written in Hp, Ho, Hb, Hsz, Hvf, Hpi. cbv zeta. fold w in Hb.
  set (index := final_index written items) in *. set (h := final_header h0 items index) in *.
  split_and!; try done; [lia|]. intros Hr Hi. rewrite Hb in Hlen |- *.
  rewrite (RecordReader_new_spec h items index _ Hvf eq_refl eq_refl Hpi Hi Hlen). split; [done|].
  intros HW. rewrite <- (RecordReader_new_spec h items index _ Hvf eq_refl eq_refl Hpi Hi Hlen).
  apply new_reader_shows; try done. destruct HW as [HW|HW]; [by left|right; by rewrite Hp].
Qed.

(** [C6] Recording and reading back: whatever channels and messages are written, however
    the flush thread is scheduled between the calls and whatever the file held before,
    the finished file holds exactly the messages written, in the order written when the
    flush thread keeps up; and if no section outgrows an int, a reader of the file
    returns exactly these messages and then stops, and knows the counts of messages in
    all and of every channel. *)
Theorem record_roundtrip (old : list Z) (h0 : Header) (l : list Ev) :
  let w := record_file None old h0 l in
  let written := ev_messages l in
  valid_header h0 → h_message_number h0 = 0%Z → Forall valid_message written →
  (Z.of_nat (length written) < 2 ^ 64)%Z → (Z.of_nat (length (bytes (w_fd w))) < 2 ^ 63)%Z →
  ∃ items, all_messages items ≡ₚ written ∧ (prompt (opened old h0) l = true → all_messages items = written) ∧
    omap item_channel items = ev_channels l ∧
    let index := final_index written items in
    (Forall item_readable items → (Z.of_nat (ByteSizeLong index) < 2 ^ 31)%Z →
     let r := RecordReader_new at_end (Some (bytes (w_fd w))) in
     is_valid_ r = true ∧
     (∃ r', read_all at_end (S (length written)) r 0 (2 ^ 64 - 1) = Some (r', all_messages items)) ∧
     h_message_number (header_ r) = Z.of_nat (length written) ∧
     ∀ c, c ∈ ev_channels l → Reader_GetMessageNumber r (name c) = Z.of_nat (count_of (name c) written)).
Proof.
  intros w written Hv Hmn Hm Hl Hlen.
  destruct (finished_shows (λ b e, b = 0 ∧ e = 2 ^ 64 - 1)%Z old h0 l Hv Hm Hl Hlen)
    as (items & Hp & Ho & Hch & Hc & Hmi & Hvf & Hsz & Hread). fold written w in Hp, Ho, Hvf, Hread.
  exists items. split; [done|]. split; [done|]. split; [done|]. intros index Hr Hi r.
  fold index in Hvf, Hread. set (h := final_header h0 items index) in *.
  destruct (Hread Hr Hi) as [Hnew Hs]. fold r in Hnew, Hs. specialize (Hs ltac:(by left)).
  destruct (header_counts h0 items) as [Hnum _]; [destruct Hv as (_ & _ & _ & Hv); rewrite !Forall_cons in Hv; tauto|
    destruct Hv as (_ & _ & _ & Hv); rewrite !Forall_cons in Hv; tauto|done|].
  split; [by rewrite Hnew|]. split; [|split].
  - apply (shown_whole index _ _ _ _ Hs); [by rewrite Hnew|done|]. apply Permutation_length in Hp. lia.
  - rewrite Hnew. cbn [header_]. change (h_message_number h) with (h_message_number (foldl count_item h0 items)).
    rewrite Hnum, Hmn. apply Permutation_length in Hp. rewrite Hp. apply u64_small. unfold is_u64. lia.
  - intros c Hin. unfold Reader_GetMessageNumber. rewrite Hnew. apply final_index_info; [done|done|done|lia|].
    by rewrite Hch.
Qed.

Lemma read_all_outside n r begin_ end_ :
  0 < n → is_valid_ r = true →
  (h_end_time (header_ r) < begin_ ∨ end_ < h_begin_time (header_ r))%Z →
  read_all at_end n r begin_ end_ = Some (r, []).
Proof.
  intros Hn Hv Ho. destruct n as [|n]; [lia|]. cbn [read_all]. unfold fuel_of. cbn [ReadMessage]. rewrite Hv.
  cbn [negb]. replace (_ || _)%bool with true; [done|]. symmetry. apply orb_true_iff.
  destruct Ho; [left|right]; by apply Z.ltb_lt.
Qed.

(** Reading a window: if the messages were recorded in the order of their times,
    none of them at time zero, and the flush thread kept up, then a reader asked for the
    messages between two times returns exactly those, in order; the headers it skips
    chunks by never hide one. *)
Theorem record_window (old : list Z) (h0 : Header) (l : list Ev) (begin_ end_ : Z) :
  let w := record_file None old h0 l in
  let written := ev_messages l in
  valid_header h0 → h_begin_time h0 = 0%Z → Forall valid_message written →
  (Z.of_nat (length written) < 2 ^ 64)%Z → (Z.of_nat (length (bytes (w_fd w))) < 2 ^ 63)%Z →
  StronglySorted (λ m n, (time m <= time n)%Z) written → Forall (λ m, (0 < time m)%Z) written →
  prompt (opened old h0) l = true → (begin_ <= end_)%Z →
  ∃ items, all_messages items = written ∧
    (Forall item_readable items → (Z.of_nat (ByteSizeLong (final_index written items)) < 2 ^ 31)%Z →
     ∃ r', read_all at_end (S (length written)) (RecordReader_new at_end (Some (bytes (w_fd w)))) begin_ end_ =
           Some (r', filter (λ m, (begin_ <= time m <= end_)%Z) written)).
Proof.
  intros w written Hv Hbt Hm Hl Hlen Hs Hpos Hpr Hbe.
  destruct (finished_shows (λ _ _, True) old h0 l Hv Hm Hl Hlen)
    as (items & _ & Ho & _ & Hc & Hmi & Hvf & Hsz & Hread). fold written w in Ho, Hvf, Hread.
  specialize (Ho Hpr). exists items. split; [done|]. intros Hr Hi.
  set (index := final_index written items) in *. set (h := final_header h0 items index) in *.
  destruct (Hread Hr Hi) as [Hnew Hsh]. specialize (Hsh ltac:(by right)). rewrite Ho in Hsh.
  set (r := RecordReader_new at_end (Some (bytes (w_fd w)))) in *.
  rewrite <- Ho in Hs, Hpos. pose proof (header_spans h0 items Hbt Hc Hpos Hs) as Hspan. rewrite Ho in Hs, Hspan.
  assert (header_ r = h) as Hh by (by rewrite Hnew).
  destruct (decide (h_end_time h < begin_ ∨ end_ < h_begin_time h)%Z) as [Hout|Hin].
  - exists r. rewrite read_all_outside by (lia || (by rewrite Hnew) || (by rewrite Hh)). do 2 f_equal. symmetry.
    apply filter_none. intros m Hx. rewrite Forall_forall in Hspan. specialize (Hspan m Hx).
    change (h_end_time h) with (h_end_time (foldl count_item h0 items)) in Hout.
    change (h_begin_time h) with (h_begin_time (foldl count_item h0 items)) in Hout. lia.
  - rewrite <- window_sorted by done. destruct (read_all_spec index (λ _ _, True) begin_ end_ (S (length written)) r (sects_of items) written)
      as (r' & _ & Hr' & _); [done|done|lia|exact Hsh|rewrite Hh; lia|rewrite Hh; lia|by exists r'].
Qed.

End reading.

(** ** A serialization for the examples *)

Module Sample.

(** Bits of a positive, behind a first byte. *)
Fixpoint bits (p : positive) : list Z :=
  match p with xH => [] | xO p => 0%Z :: bits p | xI p => 1%Z :: bits p end.
Fixpoint of_bits (l : list Z) : positive :=
  match l with [] => xH | b :: l => if (b =? 0)%Z then xO (of_bits l) else xI (of_bits l) end.
Lemma of_bits_bits p : of_bits (bits p) = p.
Proof. induction p as [p IH|p IH|]; cbn; by rewrite ?IH. Qed.

Definition to_bytes {T} `{Countable T} (m : T) : list Z := 7%Z :: bits (countable.encode m).
(** Fewer bytes than the size are not taken for a message. *)
Definition of_bytes {T} `{Countable T} (size : Z) (l : list Z) : option T :=
  if (Z.of_nat (length l) <? size)%Z then None
  else match take (Z.to_nat size) l with _ :: l => decode (of_bits l) | [] => None end.

Lemma of_to_bytes {T} `{Countable T} (m : T) rest :
  of_bytes (Z.of_nat (length (to_bytes m))) (to_bytes m ++ rest) = Some m.
Proof.
  unfold of_bytes. replace (_ <? _)%Z with false by (symmetry; apply Z.ltb_ge; rewrite length_app; lia).
  rewrite Nat2Z.id, take_app_length. unfold to_bytes. by rewrite of_bits_bits, decode_encode.
Qed.

#[local] Instance message_eq : EqDecision SingleMessage. Proof. solve_decision. Defined.
#[local] Instance message_countable : Countable SingleMessage.
Proof. by refine (inj_countable' (λ m, (channel_name m, time m, content m)) (λ '(a, b, c), mkMessage a b c) _); intros []. Defined.
#[local] Instance channel_eq : EqDecision Channel. Proof. solve_decision. Defined.
#[local] Instance channel_countable : Countable Channel.
Proof. by refine (inj_countable' (λ m, (name m, message_type m, proto_desc m)) (λ '(a, b, c), mkChannel a b c) _); intros []. Defined.
#[local] Instance chunk_header_eq : EqDecision ChunkHeader. Proof. solve_decision. Defined.
#[local] Instance chunk_header_countable : Countable ChunkHeader.
Proof.
  by refine (inj_countable' (λ m, (begin_time m, end_time m, message_number m, raw_size m))
    (λ '(a, b, c, d), mkChunkHeader a b c d) _); intros [].
Defined.
#[local] Instance body_eq : EqDecision ChunkBody. Proof. solve_decision. Defined.
#[local] Instance body_countable : Countable ChunkBody.
Proof. by refine (inj_countable' messages mkChunkBody _); intros []. Defined.
#[local] Instance channel_cache_eq : EqDecision ChannelCache. Proof. solve_decision. Defined.
#[local] Instance channel_cache_countable : Countable ChannelCache.
Proof.
  by refine (inj_countable' (λ m, (cc_message_number m, cc_name m, cc_message_type m, cc_proto_desc m))
    (λ '(a, b, c, d), mkChannelCache a b c d) _); intros [].
Defined.
#[local] Instance cache_eq : EqDecision Cache. Proof. solve_decision. Defined.
#[local] Instance cache_countable : Countable Cache.
Proof.
  by refine (inj_countable'
    (λ c, match c with channel_cache c => inl c | chunk_header_cache h => inr (inl h) | chunk_body_cache n => inr (inr n) end)
    (λ s, match s with inl c => channel_cache c | inr (inl h) => chunk_header_cache h | inr (inr n) => chunk_body_cache n end) _);
    intros [].
Defined.
#[local] Instance entry_eq : EqDecision SingleIndex. Proof. solve_decision. Defined.
#[local] Instance entry_countable : Countable SingleIndex.
Proof. by refine (inj_countable' (λ m, (type_ m, position m, cache m)) (λ '(a, b, c), mkIndex a b c) _); intros []. Defined.

#[export] Instance channel_codec_s : Codec Channel := {| encode := to_bytes; parse := of_bytes |}.
#[export] Instance chunk_header_codec_s : Codec ChunkHeader := {| encode := to_bytes; parse := of_bytes |}.
#[export] Instance body_codec_s : Codec ChunkBody := {| encode := to_bytes; parse := of_bytes |}.
#[export] Instance index_codec_s : Codec Index := {| encode := to_bytes (T := list SingleIndex); parse := of_bytes (T := list SingleIndex) |}.

(** A header as its fields, eight bytes each. *)
Definition fields (h : Header) : list Z :=
  [if is_complete h then 1%Z else 0%Z; major_version h; minor_version h; compress h; chunk_interval h;
    segment_interval h; chunk_raw_size h; segment_raw_size h; index_position h; chunk_number h; channel_number h;
    h_begin_time h; h_end_time h; h_message_number h; size h].
Definition header_bytes (h : Header) : list Z := concat (le_bytes 8 <$> fields h).
Definition field (l : list Z) (i : nat) : Z := of_le (read_at l (8 * i) 8).
Definition header_parse (n : Z) (l : list Z) : option Header :=
  Some (mkHeader (field l 1) (field l 2) (i32 (field l 3)) (field l 4) (field l 5) (field l 6) (field l 7) (field l 8)
    (field l 9) (field l 10) (field l 11) (field l 12) (field l 13) (field l 14) (negb (field l 0 =? 0)%Z)).
#[export] Instance header_codec_s : Codec Header := {| encode := header_bytes; parse := header_parse |}.
#[export] Instance stream_s : Stream := {| taken := λ n rest, Z.to_nat n `min` rest |}.
#[export] Instance stream_laws_s : StreamLaws.
Proof. split. intros n rest H1 H2. cbn. lia. Qed.

Lemma field_nth xs i x rest :
  xs !! i = Some x → field (concat (le_bytes 8 <$> xs) ++ rest) i = u64 x.
Proof.
  unfold field, u64. change (2 ^ 64)%Z with (256 ^ Z.of_nat 8)%Z. rewrite <- (of_le_bytes 8). intros Hx. f_equal.
  revert i Hx. induction xs as [|y xs IH]; intros i Hx; [done|]. cbn [fmap list_fmap concat].
  rewrite <- app_assoc. destruct i as [|i].
  - injection Hx as ->. rewrite Nat.mul_0_r. apply read_at_head. by rewrite length_le_bytes.
  - rewrite <- (IH i Hx). unfold read_at.
    replace (8 * S i) with (length (le_bytes 8 y) + 8 * i) by (rewrite length_le_bytes; lia). by rewrite drop_app_add.
Qed.

Lemma header_parses h : valid_header h → parses_back h.
Proof.
  intros (H1 & H2 & H3 & Hall) rest. rewrite !Forall_cons in Hall. destruct_and!.
  cbn [encode parse header_codec_s]. unfold header_parse, header_bytes.
  assert (∀ z, is_u32 z → u64 z = z) as Hu by (unfold is_u32; intros; apply u64_small; unfold is_u64; lia).
  assert (i32 (u64 (compress h)) = compress h) as Hi.
  { unfold i32, u64, is_i32 in *. rewrite <- Zplus_mod_idemp_l, Z.mod_mod_divide by (by exists (2 ^ 32)%Z).
    rewrite Zplus_mod_idemp_l, Z.mod_small; lia. }
  do 15 (erewrite field_nth; [|reflexivity]).
  rewrite Hi, (Hu (major_version h)), (Hu (minor_version h)) by done.
  replace (negb (u64 (if is_complete h then 1 else 0) =? 0)%Z) with (is_complete h) by (by destruct (is_complete h)).
  rewrite !u64_small by done. by destruct h.
Qed.

#[export] Instance codec_laws_s : RecordCodec.
Proof.
  split.
  - apply header_parses.
  - intros c rest. apply (of_to_bytes c).
  - intros h _ rest. apply (of_to_bytes h).
  - intros b _ rest. apply (of_to_bytes b).
  - intros i _ rest. apply (of_to_bytes (T := list SingleIndex) i).
  - intros h _. unfold ByteSizeLong. cbn [encode header_codec_s]. unfold header_bytes.
    rewrite length_concat. cbn -[Nat.mul]. unfold HEADER_LENGTH. lia.
  - intros c. cbn. lia.
  - intros h. cbn. lia.
  - intros b _. cbn. lia.
Qed.

(** Three messages, the second one filling a chunk; the old file was longer than nothing. *)
Definition header0 : Header := GetHeaderWithChunkParams 0 5.
Definition m1 : SingleMessage := mkMessage "a" 10 [1; 2; 3]%Z.
Definition m2 : SingleMessage := mkMessage "b" 20 [4; 5; 6; 7]%Z.
Definition m3 : SingleMessage := mkMessage "a" 30 [8]%Z.
Definition run : list Ev :=
  [EvChannel (mkChannel "a" "T" "d"); EvMessage false m1; EvMessage false m2; EvFlush; EvMessage true m3].

Lemma header0_valid : valid_header header0.
Proof. unfold valid_header, is_u32, is_i32. cbn. rewrite !Forall_cons. unfold is_u64. split_and!; try done; lia. Qed.
Lemma run_valid : Forall valid_message (ev_messages run).
Proof. repeat constructor; unfold is_u64, is_byte; cbn; lia. Qed.

Example run_read :
  let r := RecordReader_new never_at_end (Some (bytes (w_fd (record_file None [1; 2; 3]%Z header0 run)))) in
  snd <$> read_all never_at_end 4 r 0 (2 ^ 64 - 1) = Some [m1; m2; m3] ∧
  snd <$> read_all never_at_end 4 r 15 25 = Some [m2] ∧
  chunk_number (header_ r) = 2%Z ∧ Reader_GetMessageNumber r "a" = 2%Z.
Proof. vm_compute. done. Qed.

End Sample.
Import Sample.

Lemma record_roundtrip_witness :
  ∃ items, all_messages items ≡ₚ [Sample.m1; Sample.m2; Sample.m3] ∧
    (prompt (opened [1; 2; 3]%Z Sample.header0) Sample.run = true → all_messages items = [Sample.m1; Sample.m2; Sample.m3]).
Proof.
  destruct (record_roundtrip never_at_end [1; 2; 3]%Z Sample.header0 Sample.run) as (items & H1 & H2 & _).
  - apply Sample.header0_valid.
  - reflexivity.
  - apply Sample.run_valid.
  - reflexivity.
  - vm_compute. reflexivity.
  - exists items. split; [exact H1|exact H2].
Defined.

Lemma record_window_witness :
  ∃ items, all_messages items = [Sample.m1; Sample.m2; Sample.m3] ∧
    (Forall item_readable items → (Z.of_nat (ByteSizeLong (final_index (ev_messages Sample.run) items)) < 2 ^ 31)%Z →
     ∃ r', read_all never_at_end 4 (RecordReader_new never_at_end (Some (bytes (w_fd (record_file None [1; 2; 3]%Z Sample.header0 Sample.run)))))
             15 25 = Some (r', [Sample.m2])).
Proof.
  apply (record_window never_at_end [1; 2; 3]%Z Sample.header0 Sample.run 15 25).
  - apply Sample.header0_valid.
  - reflexivity.
  - apply Sample.run_valid.
  - reflexivity.
  - vm_compute. reflexivity.
  - repeat constructor; cbn; lia.
  - repeat constructor; cbn; lia.
  - vm_compute. reflexivity.
  - lia.
Defined.

(** When the flush thread does not keep up, two full chunks in a row are written in
    the wrong order: the second swap takes the unwritten chunk back.  The header then
    carries the end time of the chunk written last, and a reader asked for a window
    behind it does not find the message that lies there. *)
Theorem late_flush_reorders :
  let a := mkMessage "c" 10 [1; 2; 3; 4; 5; 6]%Z in
  let b := mkMessage "c" 20 [1; 2; 3; 4; 5; 6]%Z in
  let w := record_file None [] Sample.header0 [EvMessage false a; EvMessage false b; EvFlush] in
  let r := RecordReader_new never_at_end (Some (bytes (w_fd w))) in
  snd <$> read_all never_at_end 3 r 0 (2 ^ 64 - 1) = Some [b; a] ∧
  h_end_time (header_ r) = 10%Z ∧
  snd <$> read_all never_at_end 3 r 15 25 = Some [].
Proof. vm_compute. done. Qed.
