(* ===== verification/Player.v ===== *)
(** * Playing records (tools/cyber_recorder/player/play_task, play_task_buffer,
    play_task_producer, play_task_consumer, play_param.h)

    A producer turns the messages a viewer shows into tasks, each with the time it is to
    be played, and puts them into a buffer sorted by that time; a consumer takes the first
    task, waits for its time, writes its message and removes the first task.  The two
    threads and the user's commands are interleaved.  The clock and what the viewer shows
    are arguments; [sleep_for] sleeps at least as long as it is asked to; what a double
    makes of a time is the argument [scale] (the division by the rate). *)

From stdpp Require Import base numbers list gmap strings sorting.
From Stdlib Require Import ZArith Lia.
From S2P Require Import Prelude WireFormat RecordFile RecordWriter RecordReader.

Open Scope Z_scope.

(** ** Tasks and their buffer *)

Record PlayTask := mkTask { msg_ : SingleMessage; msg_real_time_ns_ : Z; msg_play_time_ns_ : Z }.

(** [PlayTaskBuffer], a multimap: a task goes behind those of the same time. *)
Definition Buffer := list PlayTask.
Fixpoint Push (tasks : Buffer) (t : PlayTask) : Buffer :=
  match tasks with
  | [] => [t]
  | x :: rest => if msg_play_time_ns_ t <? msg_play_time_ns_ x then t :: tasks else x :: Push rest t
  end.
Definition Front (tasks : Buffer) : option PlayTask := head tasks.
Definition PopFront (tasks : Buffer) : Buffer := tail tasks.

(** ** PlayParam, and what the producer makes of it *)

Record PlayParam := mkParam {
  is_play_all_channels : bool; is_loop_playback : bool; begin_time_ns : Z; base_begin_time_ns : Z; end_time_ns : Z;
  preload_time_s : Z; channels_to_play : gset string; black_channels : gset string
}.

Definition kMinTaskBufferSize : Z := 500.
Definition kPreloadTimeSec : Z := 3.
Definition kPauseSleepNanoSec : Z := 100000000.

(** What [ReadRecordInfo] collects: the number of messages, the types of the channels,
    the readers to play and the span of their times. *)
Record RecordInfo := mkInfo {
  total_msg_num_ : Z; msg_types_ : gmap string string; record_readers_ : list RecordReader;
  earliest_begin_time_ : Z; latest_end_time_ : Z
}.
Definition RecordInfo_new : RecordInfo := mkInfo 0 ∅ [] (2 ^ 64 - 1) 0.

Definition channel_info (p : PlayParam) (r : RecordReader) (i : RecordInfo) (ch : string) : RecordInfo :=
  if bool_decide (ch ∈ black_channels p) then
    mkInfo (u64 (total_msg_num_ i - Reader_GetMessageNumber r ch)) (msg_types_ i) (record_readers_ i)
      (earliest_begin_time_ i) (latest_end_time_ i)
  else
    let n := if negb (is_play_all_channels p) && bool_decide (ch ∈ channels_to_play p)
             then u64 (total_msg_num_ i + Reader_GetMessageNumber r ch) else total_msg_num_ i in
    mkInfo n (<[ch := Reader_GetMessageType r ch]> (msg_types_ i)) (record_readers_ i)
      (earliest_begin_time_ i) (latest_end_time_ i).

Definition reader_info (p : PlayParam) (i : RecordInfo) (r : RecordReader) : RecordInfo :=
  if negb (is_valid_ r) then i
  else if negb (is_complete (header_ r)) then i
  else
    let i := foldl (channel_info p r) i (elements (Reader_GetChannelList r)) in
    let h := header_ r in
    mkInfo (if is_play_all_channels p then u64 (total_msg_num_ i + h_message_number h) else total_msg_num_ i)
      (msg_types_ i) (record_readers_ i ++ [r])
      (if h_begin_time h <? earliest_begin_time_ i then h_begin_time h else earliest_begin_time_ i)
      (if latest_end_time_ i <? h_end_time h then h_end_time h else latest_end_time_ i).

(** [ReadRecordInfo()], with the readers of the files to play. *)
Definition ReadRecordInfo (p : PlayParam) (files : list RecordReader) : RecordInfo * bool :=
  if bool_decide (files = []) then (RecordInfo_new, false)
  else (foldl (reader_info p) RecordInfo_new files, true).

(** [UpdatePlayParam()]; [start_ns] are the nanoseconds of [start_time_s], if positive. *)
Definition UpdatePlayParam (p : PlayParam) (i : RecordInfo) (start_ns : option Z) : PlayParam * bool :=
  let '(b, base) :=
    if begin_time_ns p <? earliest_begin_time_ i then (earliest_begin_time_ i, earliest_begin_time_ i)
    else (begin_time_ns p, base_begin_time_ns p) in
  let b := match start_ns with Some n => u64 (base + n) | None => b end in
  let e := if latest_end_time_ i <? end_time_ns p then latest_end_time_ i else end_time_ns p in
  let q preload := mkParam (is_play_all_channels p) (is_loop_playback p) b base e preload (channels_to_play p) (black_channels p) in
  if e <=? b then (q (preload_time_s p), false)
  else (q (if preload_time_s p =? 0 then kPreloadTimeSec else preload_time_s p), true).

(** [CreateWriters()]: the channels that get a writer. *)
Definition record_info_channel : string := "/apollo/cyber/record_info".
Definition writes (p : PlayParam) (ch : string) : bool :=
  (is_play_all_channels p || bool_decide (ch ∈ channels_to_play p)) && negb (bool_decide (ch ∈ black_channels p)).
Definition CreateWriters (p : PlayParam) (i : RecordInfo) : gset string :=
  {[record_info_channel]} ∪ filter (λ ch, writes p ch = true) (dom (msg_types_ i)).

(** ** The two threads *)

(** What does not change while they run. *)
Record Play := mkPlay {
  param : PlayParam; preload_size : Z; writers_ : gset string; shown : list SingleMessage; scale : Z → Z
}.

(** The producer is before a pass over the viewer, within one with these messages to
    come, or has ended; the consumer looks for a task, has one, has played it, or has
    ended. *)
Inductive ProducerAt := PBefore | PWithin (itr : list SingleMessage) | PEnded.
Inductive ConsumerAt := CLooks | CHas (t : PlayTask) | CPlayed (t : PlayTask) | CEnded.

Record State := mkState {
  tasks_ : Buffer;
  producer_stopped_ : bool; loop_num : Z; producer_at : ProducerAt;
  consumer_stopped_ : bool; is_paused_ : bool; is_playonce_ : bool;
  base_msg_play_time_ns_ : Z; base_msg_real_time_ns_ : Z; last_played_msg_real_time_ns_ : Z;
  base_real_time_ns : Z; accumulated_pause_time_ns : Z; consumer_at : ConsumerAt;
  clock : Z; played : list (PlayTask * Z)
}.

(** Both threads just started. *)
Definition State_new (clock : Z) : State :=
  mkState [] false 0 PBefore false false false 0 0 0 0 0 CLooks clock [].

Definition set_producer (s : State) (b : Buffer) (stopped : bool) (n : Z) (at_ : ProducerAt) : State :=
  mkState b stopped n at_ (consumer_stopped_ s) (is_paused_ s) (is_playonce_ s) (base_msg_play_time_ns_ s)
    (base_msg_real_time_ns_ s) (last_played_msg_real_time_ns_ s) (base_real_time_ns s) (accumulated_pause_time_ns s)
    (consumer_at s) (clock s) (played s).
Definition set_consumer (s : State) (b : Buffer) (at_ : ConsumerAt) : State :=
  mkState b (producer_stopped_ s) (loop_num s) (producer_at s) (consumer_stopped_ s) (is_paused_ s) (is_playonce_ s)
    (base_msg_play_time_ns_ s) (base_msg_real_time_ns_ s) (last_played_msg_real_time_ns_ s) (base_real_time_ns s)
    (accumulated_pause_time_ns s) at_ (clock s) (played s).

Section play.
Context (c : Play).

Definition loop_time_ns : Z := u64 (end_time_ns (param c) - begin_time_ns (param c)).
Definition plus_time_ns (loop_num : Z) : Z := u64 (loop_num * loop_time_ns).

Definition task_of (loop_num : Z) (m : SingleMessage) : PlayTask :=
  mkTask m (time m) (u64 (time m + plus_time_ns loop_num)).

(** [PlayTaskProducer::ThreadFunc()], one message or one pass per step; it waits while
    the buffer is full. *)
Definition produce (s : State) : option State :=
  match producer_at s with
  | PBefore =>
      if producer_stopped_ s then Some (set_producer s (tasks_ s) true (loop_num s) PEnded)
      else Some (set_producer s (tasks_ s) false (loop_num s) (PWithin (shown c)))
  | PWithin itr =>
      if producer_stopped_ s then Some (set_producer s (tasks_ s) true (loop_num s) PEnded)
      else
        match itr with
        | [] =>
            if negb (is_loop_playback (param c)) then Some (set_producer s (tasks_ s) true (loop_num s) PEnded)
            else Some (set_producer s (tasks_ s) false (u32 (loop_num s + 1)) PBefore)
        | m :: itr =>
            if preload_size c <? Z.of_nat (length (tasks_ s)) then None
            else
              let b := if bool_decide (channel_name m ∈ writers_ c) then Push (tasks_ s) (task_of (loop_num s) m)
                       else tasks_ s in
              Some (set_producer s b false (loop_num s) (PWithin itr))
        end
  | PEnded => None
  end.

(** [PlayTaskConsumer::ThreadFunc()].  A task is taken, if there is one; *)
Definition take_front (s : State) : option State :=
  match consumer_at s with
  | CLooks =>
      if consumer_stopped_ s then Some (set_consumer s (tasks_ s) CEnded)
      else
        match Front (tasks_ s) with
        | None => None
        | Some t => Some (set_consumer s (tasks_ s) (CHas t))
        end
  | _ => None
  end.

(** the first one sets the base, and the thread sleeps until its time, *)
Definition first_sleep (s : State) (t : PlayTask) : Z :=
  if begin_time_ns (param c) <? msg_play_time_ns_ t then scale c (u64 (msg_play_time_ns_ t - begin_time_ns (param c))) else 0.

(** or gives up when it is stopped meanwhile; *)
Definition stop_waiting (s : State) : option State :=
  match consumer_at s with
  | CHas t =>
      if (base_msg_play_time_ns_ s =? 0) && (begin_time_ns (param c) <? msg_play_time_ns_ t) && consumer_stopped_ s
      then Some (set_consumer s (tasks_ s) CEnded) else None
  | _ => None
  end.

(** then it sleeps for what is left of the task's interval at [now], and plays it at
    [later]; [based] is when the base was set. *)
Definition sleep_ns (base acc base_play : Z) (t : PlayTask) (now : Z) : Z :=
  let task_interval_ns := scale c (u64 (msg_play_time_ns_ t - base_play)) in
  let real_time_interval_ns := u64 (u64 (now - base) - acc) in
  if real_time_interval_ns <? task_interval_ns then task_interval_ns - real_time_interval_ns else 0.
Definition play_task (s : State) (based now later : Z) : option State :=
  match consumer_at s with
  | CHas t =>
      let first := base_msg_play_time_ns_ s =? 0 in
      let base_play := if first then msg_play_time_ns_ t else base_msg_play_time_ns_ s in
      let base_msg_real := if first then msg_real_time_ns_ t else base_msg_real_time_ns_ s in
      let base := if first then based else base_real_time_ns s in
      let slept := if first then bool_decide (clock s + first_sleep s t <= based <= now) else bool_decide (clock s <= now) in
      if slept && bool_decide (now + sleep_ns base (accumulated_pause_time_ns s) base_play t now <= later) then
        Some (mkState (tasks_ s) (producer_stopped_ s) (loop_num s) (producer_at s) (consumer_stopped_ s) (is_paused_ s) false
          base_play base_msg_real (msg_real_time_ns_ t) base (accumulated_pause_time_ns s) (CPlayed t) later
          (played s ++ [(t, later)]))
      else None
  | _ => None
  end.

(** and while it is paused waits, before it removes the first task. *)
Definition keep_paused (s : State) (now : Z) : option State :=
  match consumer_at s with
  | CPlayed t =>
      if is_paused_ s && negb (consumer_stopped_ s) && negb (is_playonce_ s) &&
         bool_decide (clock s + kPauseSleepNanoSec <= now)
      then Some (mkState (tasks_ s) (producer_stopped_ s) (loop_num s) (producer_at s) (consumer_stopped_ s) (is_paused_ s)
             (is_playonce_ s) (base_msg_play_time_ns_ s) (base_msg_real_time_ns_ s) (last_played_msg_real_time_ns_ s)
             (base_real_time_ns s) (u64 (accumulated_pause_time_ns s + kPauseSleepNanoSec)) (CPlayed t) now (played s))
      else None
  | _ => None
  end.
Definition pop_task (s : State) : option State :=
  match consumer_at s with
  | CPlayed _ =>
      if is_paused_ s && negb (consumer_stopped_ s) && negb (is_playonce_ s) then None
      else Some (set_consumer s (PopFront (tasks_ s)) CLooks)
  | _ => None
  end.

(** The user's commands: [Pause], [Continue], [PlayOnce], and the flags of [Stop]. *)
Definition set_flags (s : State) (paused once producer_stop consumer_stop : bool) : State :=
  mkState (tasks_ s) producer_stop (loop_num s) (producer_at s) consumer_stop paused once (base_msg_play_time_ns_ s)
    (base_msg_real_time_ns_ s) (last_played_msg_real_time_ns_ s) (base_real_time_ns s) (accumulated_pause_time_ns s)
    (consumer_at s) (clock s) (played s).

Inductive Step :=
  | Produce | TakeFront | GiveUp | PlayAt (based now later : Z) | KeepPaused (now : Z) | Pop
  | Pause | Continue | PlayOnce | StopProducer | StopConsumer.

Definition step (s : State) (a : Step) : option State :=
  match a with
  | Produce => produce s
  | TakeFront => take_front s
  | GiveUp => stop_waiting s
  | PlayAt based now later => play_task s based now later
  | KeepPaused now => keep_paused s now
  | Pop => pop_task s
  | Pause => Some (set_flags s true (is_playonce_ s) (producer_stopped_ s) (consumer_stopped_ s))
  | Continue => Some (set_flags s false (is_playonce_ s) (producer_stopped_ s) (consumer_stopped_ s))
  | PlayOnce => Some (set_flags s (is_paused_ s) true (producer_stopped_ s) (consumer_stopped_ s))
  | StopProducer => Some (set_flags s (is_paused_ s) (is_playonce_ s) true (consumer_stopped_ s))
  | StopConsumer => Some (set_flags s (is_paused_ s) (is_playonce_ s) (producer_stopped_ s) true)
  end.

Fixpoint run (s : State) (l : list Step) : option State :=
  match l with [] => Some s | a :: l => s ← step s a; run s l end.

End play.

(** ** The order of playing *)

Definition no_later (t u : PlayTask) : Prop := msg_play_time_ns_ t <= msg_play_time_ns_ u.

(** What comes last in time goes last. *)
Lemma push_last (b : Buffer) t : Forall (λ x, no_later x t) b → Push b t = b ++ [t].
Proof.
  induction 1 as [|x b Hx Hb IH]; [done|]. cbn. unfold no_later in Hx.
  rewrite (proj2 (Z.ltb_ge _ _)) by lia. by rewrite IH.
Qed.

Lemma sorted_last (l : list PlayTask) t : StronglySorted no_later (l ++ [t]) → Forall (λ x, no_later x t) l.
Proof.
  intros Hs. apply StronglySorted_app in Hs as (Hlt & _ & _). apply Forall_forall. intros x Hx. apply Hlt; [done|by left].
Qed.

Lemma sorted_prefix (l k : list PlayTask) : l `prefix_of` k → StronglySorted no_later k → StronglySorted no_later l.
Proof. intros [r ->] Hs. apply StronglySorted_app in Hs as (_ & Hl & _). done. Qed.

Section order.
Context (c : Play).

(** The tasks of one pass over the viewer, and of the first [n]. *)
Definition has_writer (m : SingleMessage) : Prop := channel_name m ∈ writers_ c.
Definition pass (n : nat) : list PlayTask := task_of c (Z.of_nat n) <$> filter has_writer (shown c).
Definition passes (n : nat) : list PlayTask := concat (pass <$> seq 0 n).

Lemma passes_S n : passes (S n) = passes n ++ pass n.
Proof. unfold passes. rewrite seq_S, fmap_app, concat_app. cbn. by rewrite app_nil_r. Qed.

Let b := begin_time_ns (param c).
Let e := end_time_ns (param c).

Context (Hbe : 0 < b <= e).
Context (Hsorted : StronglySorted (λ m n, time m <= time n) (shown c)).
Context (Hwithin : Forall (λ m, b <= time m <= e) (shown c)).

Context (Hscale : ∀ n, 0 <= n → 0 <= scale c n).

(** The times of the first [N] passes are 64-bit ones. *)
Definition fits (N : nat) : Prop := Z.of_nat N < 2 ^ 32 ∧ e + Z.of_nat N * (e - b) < 2 ^ 64.

Lemma plus_time N n : fits N → (n <= N)%nat → plus_time_ns c (Z.of_nat n) = Z.of_nat n * (e - b).
Proof using Hbe.
  intros [HN Hf] Hn. unfold plus_time_ns, loop_time_ns. fold e b.
  rewrite (u64_small (e - b)) by (unfold is_u64; nia). apply u64_small. unfold is_u64. nia.
Qed.

Lemma task_time N n m : fits N → (n <= N)%nat → m ∈ shown c →
  msg_play_time_ns_ (task_of c (Z.of_nat n) m) = time m + Z.of_nat n * (e - b).
Proof using Hbe Hwithin.
  intros HN Hn Hm. cbn. rewrite (plus_time N) by done. rewrite Forall_forall in Hwithin. specialize (Hwithin m Hm).
  apply u64_small. unfold is_u64. destruct HN as [_ Hf]. nia.
Qed.

Lemma pass_sorted N n : fits N → (n <= N)%nat →
  StronglySorted no_later (pass n) ∧
  Forall (λ t, b + Z.of_nat n * (e - b) <= msg_play_time_ns_ t <= e + Z.of_nat n * (e - b)) (pass n).
Proof using Hbe Hsorted Hwithin.
  intros HN Hn. split.
  - unfold pass. pose proof (task_time N n) as Ht. revert Ht Hsorted. generalize (shown c). clear -HN Hn. intros l Ht Hs.
    induction Hs as [|m l Hs IH Hm]; [constructor|]. rewrite filter_cons.
    assert (StronglySorted no_later (task_of c (Z.of_nat n) <$> filter has_writer l)) as IHl.
    { apply IH. intros x H1 H2 Hx. apply Ht; [done|done|by right]. }
    case_decide; [|done]. cbn [fmap list_fmap]. constructor; [done|]. apply Forall_fmap, Forall_forall.
    intros x [_ Hx]%list_elem_of_filter. unfold compose, no_later.
    rewrite !Ht by (done || (by left) || (by right)). rewrite Forall_forall in Hm. specialize (Hm x Hx). lia.
  - unfold pass. apply Forall_fmap, Forall_forall. intros m [_ Hm]%list_elem_of_filter. unfold compose.
    rewrite (task_time N) by done. rewrite Forall_forall in Hwithin. specialize (Hwithin m Hm). lia.
Qed.

Lemma passes_sorted N n : fits N → (n <= S N)%nat →
  StronglySorted no_later (passes n) ∧
  Forall (λ t, b <= msg_play_time_ns_ t <= e + Z.of_nat (n - 1) * (e - b)) (passes n).
Proof using Hbe Hsorted Hwithin.
  intros HN. induction n as [|n IH]; intros Hn; [split; constructor|]. rewrite passes_S.
  destruct (IH ltac:(lia)) as [Hs Hf]. destruct (pass_sorted N n HN ltac:(lia)) as [Hps Hpf].
  replace (S n - 1)%nat with n by lia. split.
  - apply StronglySorted_app. split; [|done]. intros x y Hx Hy. rewrite Forall_forall in Hf, Hpf.
    specialize (Hf x Hx). specialize (Hpf y Hy). unfold no_later. destruct n as [|n]; [by apply not_elem_of_nil in Hx|].
    replace (S n - 1)%nat with n in Hf by lia. nia.
  - apply Forall_app. split; (eapply Forall_impl; [eassumption|]); cbn; intros t Ht; nia.
Qed.

(** ** What the threads keep *)

(** [k] passes are over, the tasks [pushed] have been put into the buffer; those not
    played and removed are in it.  In [clean] runs nobody stops the producer. *)
Record playing (clean : bool) (k : nat) (pushed : list PlayTask) (s : State) : Prop := {
  pl_loop : loop_num s = Z.of_nat k;
  pl_once : is_loop_playback (param c) = false → k = 0%nat;
  pl_producer :
    match producer_at s with
    | PBefore => pushed = passes k
    | PWithin itr => ∃ pre, shown c = pre ++ itr ∧ pushed = passes k ++ (task_of c (Z.of_nat k) <$> filter has_writer pre)
    | PEnded => pushed `prefix_of` passes (S k) ∧ (clean = true → pushed = passes (S k))
    end;
  pl_clean : clean = true → producer_stopped_ s = true → producer_at s = PEnded;
  pl_consumer :
    match consumer_at s with
    | CLooks | CEnded => (played s).*1 ++ tasks_ s = pushed
    | CHas t => (played s).*1 ++ tasks_ s = pushed ∧ Front (tasks_ s) = Some t
    | CPlayed t => ∃ p0 at_, played s = p0 ++ [(t, at_)] ∧ p0.*1 ++ tasks_ s = pushed ∧ Front (tasks_ s) = Some t
    end
}.

Lemma pushed_prefix clean k pushed s : playing clean k pushed s → pushed `prefix_of` passes (S k).
Proof using.
  intros [_ _ Hp _ _]. rewrite passes_S. destruct (producer_at s) as [|itr|]; [subst; by apply prefix_app_r| |].
  - destruct Hp as (pre & Hs & ->). apply prefix_app. unfold pass. rewrite Hs, filter_app, fmap_app. by apply prefix_app_r.
  - destruct Hp as [Hp _]. by rewrite passes_S in Hp.
Qed.

Lemma played_prefix clean k pushed s : playing clean k pushed s → (played s).*1 `prefix_of` pushed.
Proof using.
  intros [_ _ _ _ Hc]. destruct (consumer_at s) as [|t|t|].
  - subst. by apply prefix_app_r.
  - destruct Hc as [<- _]. by apply prefix_app_r.
  - destruct Hc as (p0 & at_ & -> & <- & Hf). destruct (tasks_ s) as [|x b']; [done|]. cbn in Hf. injection Hf as ->.
    rewrite fmap_app. cbn. apply prefix_app. by exists b'.
  - subst. by apply prefix_app_r.
Qed.

Lemma playing_new clean t0 : playing clean 0 [] (State_new t0).
Proof using. by split. Qed.

(** Steps of the consumer and commands leave the producer alone. *)
Lemma playing_frame clean k pushed s s' :
  playing clean k pushed s → loop_num s' = loop_num s → producer_at s' = producer_at s →
  (clean = true → producer_stopped_ s' = producer_stopped_ s) →
  match consumer_at s' with
  | CLooks | CEnded => (played s').*1 ++ tasks_ s' = pushed
  | CHas t => (played s').*1 ++ tasks_ s' = pushed ∧ Front (tasks_ s') = Some t
  | CPlayed t => ∃ p0 at_, played s' = p0 ++ [(t, at_)] ∧ p0.*1 ++ tasks_ s' = pushed ∧ Front (tasks_ s') = Some t
  end → playing clean k pushed s'.
Proof using.
  intros [H1 H2 H3 H4 H5] Hl Hp Hst Hc. split; [by rewrite Hl|done|by rewrite Hp| |done].
  intros Hcl Hs'. rewrite Hp. apply H4; [done|]. by rewrite <- Hst.
Qed.

(** Steps of the producer that push nothing. *)
Lemma playing_produce clean k pushed s at_ stopped n k' :
  playing clean k pushed s → n = Z.of_nat k' → (is_loop_playback (param c) = false → k' = 0%nat) →
  match at_ with
  | PBefore => pushed = passes k'
  | PWithin itr => ∃ pre, shown c = pre ++ itr ∧ pushed = passes k' ++ (task_of c (Z.of_nat k') <$> filter has_writer pre)
  | PEnded => pushed `prefix_of` passes (S k') ∧ (clean = true → pushed = passes (S k'))
  end → (stopped = true → at_ = PEnded) → playing clean k' pushed (set_producer s (tasks_ s) stopped n at_).
Proof using. intros [H1 H2 H3 H4 H5] -> Hl Hp Hs. split; [done|done|done|by intros _|done]. Qed.

(** A task pushed goes last. *)
Lemma playing_push clean N k pushed s t itr :
  fits N → (k <= N)%nat → playing clean k pushed s → (pushed ++ [t]) `prefix_of` passes (S k) →
  (∃ pre, shown c = pre ++ itr ∧ pushed ++ [t] = passes k ++ (task_of c (Z.of_nat k) <$> filter has_writer pre)) →
  playing clean k (pushed ++ [t]) (set_producer s (Push (tasks_ s) t) false (loop_num s) (PWithin itr)).
Proof using Hbe Hsorted Hwithin.
  intros HN Hk [H1 H2 H3 H4 H5] Hpre Hitr. destruct (passes_sorted N (S k) HN ltac:(lia)) as [Hs _].
  pose proof (sorted_last _ _ (sorted_prefix _ _ Hpre Hs)) as Hlast.
  assert (Forall (λ x, no_later x t) (tasks_ s)) as Hb.
  { assert (∃ l, l ++ tasks_ s = pushed) as [l Hl].
    { destruct (consumer_at s); [by eexists|by eexists; apply H5| |by eexists].
      destruct H5 as (p0 & at_ & _ & H5 & _). by eexists. }
    rewrite <- Hl, Forall_app in Hlast. apply Hlast. }
  split; cbn; [done|done|done|done|]. rewrite push_last by done.
  destruct (consumer_at s) as [|u|u|]; rewrite ?app_assoc.
  - by rewrite H5.
  - destruct H5 as [-> Hf]. split; [done|]. destruct (tasks_ s); [done|exact Hf].
  - destruct H5 as (p0 & at_ & Hp0 & H5 & Hf). exists p0, at_. split; [done|]. split; [by rewrite app_assoc, H5|].
    destruct (tasks_ s); [done|exact Hf].
  - by rewrite H5.
Qed.

Lemma produce_playing clean N k pushed s s' :
  fits N → (k < N)%nat → playing clean k pushed s → produce c s = Some s' →
  ∃ k' pushed', (k <= k' <= S k)%nat ∧ playing clean k' pushed' s'.
Proof using Hbe Hsorted Hwithin.
  intros HN Hk Hpl Hs. pose proof (pushed_prefix _ _ _ _ Hpl) as Hpre. pose proof Hpl as [H1 H2 H3 H4 _].
  unfold produce in Hs. destruct (producer_at s) as [|itr|] eqn:Ha; [| |done].
  - exists k, pushed. split; [lia|]. destruct (producer_stopped_ s) eqn:Est; injection Hs as <-.
    + apply (playing_produce clean k); [done..| |done]. split; [done|]. intros Hcl. by specialize (H4 Hcl eq_refl).
    + apply (playing_produce clean k); [done..| |done]. exists []. split; [done|]. rewrite H3. cbn. by rewrite app_nil_r.
  - destruct (producer_stopped_ s) eqn:Est.
    { injection Hs as <-. exists k, pushed. split; [lia|]. apply (playing_produce clean k); [done..| |done].
      split; [done|]. intros Hcl. by specialize (H4 Hcl eq_refl). }
    destruct H3 as (pre & Hsh & Hpu). destruct itr as [|m itr].
    + assert (pushed = passes (S k)) as Hfull by (rewrite app_nil_r in Hsh; by rewrite passes_S, Hpu, <- Hsh).
      destruct (is_loop_playback (param c)) eqn:El; injection Hs as <-.
      * exists (S k), pushed. split; [lia|]. apply (playing_produce clean k); [done| |congruence|done|done].
        rewrite H1. replace (Z.of_nat k + 1) with (Z.of_nat (S k)) by lia. apply u32_small. unfold is_u32. destruct HN. lia.
      * exists k, pushed. split; [lia|]. apply (playing_produce clean k); [done|done|by rewrite El| |done]. by split.
    + destruct (preload_size c <? _); [done|]. injection Hs as <-. exists k.
      assert (shown c = (pre ++ [m]) ++ itr) as Hsh' by (by rewrite <- app_assoc).
      case_bool_decide as Hw.
      * set (t := task_of c (Z.of_nat k) m).
        replace (task_of c (loop_num s) m) with t by (unfold t; by rewrite H1).
        exists (pushed ++ [t]). split; [lia|].
        assert (pushed ++ [t] = passes k ++ (task_of c (Z.of_nat k) <$> filter has_writer (pre ++ [m]))) as He.
        { rewrite filter_app, filter_cons, decide_True, fmap_app by done. cbn. by rewrite Hpu, <- app_assoc. }
        apply (playing_push clean N); [done|lia|done| |by exists (pre ++ [m])].
        rewrite He, passes_S. apply prefix_app. unfold pass. rewrite Hsh', (filter_app _ (pre ++ [m])), fmap_app.
        by apply prefix_app_r.
      * exists pushed. split; [lia|]. apply (playing_produce clean k); [done..| |done]. exists (pre ++ [m]). split; [done|].
        rewrite filter_app, filter_cons, decide_False by done. by rewrite filter_nil, app_nil_r.
Qed.

Lemma step_playing clean N k pushed s a s' :
  fits N → (k < N)%nat → playing clean k pushed s → (clean = true → a ≠ StopProducer) → step c s a = Some s' →
  ∃ k' pushed', (k <= k' <= S k)%nat ∧ playing clean k' pushed' s'.
Proof using Hbe Hsorted Hwithin.
  intros HN Hk Hpl Hcl Hs. destruct a as [| | |based now later|now| | | | | |]; cbn in Hs;
    [by apply (produce_playing clean N k pushed s)|..]; exists k, pushed; (split; [lia|]); pose proof (pl_consumer _ _ _ _ Hpl) as Hc.
  - unfold take_front in Hs. destruct (consumer_at s) eqn:Ea; try done. destruct (consumer_stopped_ s).
    + injection Hs as <-. by apply (playing_frame clean k pushed s).
    + destruct (Front (tasks_ s)) as [t|] eqn:Ef; [|done]. injection Hs as <-. by apply (playing_frame clean k pushed s).
  - unfold stop_waiting in Hs. destruct (consumer_at s) eqn:Ea; try done. case_match; [|done]. injection Hs as <-.
    apply (playing_frame clean k pushed s); try done. apply Hc.
  - unfold play_task in Hs. destruct (consumer_at s) as [|t|t|] eqn:Ea; try done. destruct (_ && _); [|done]. injection Hs as <-.
    apply (playing_frame clean k pushed s); try done. cbn. exists (played s), later. split; [done|]. exact Hc.
  - unfold keep_paused in Hs. destruct (consumer_at s) as [|t|t|] eqn:Ea; try done. case_match; [|done]. injection Hs as <-.
    by apply (playing_frame clean k pushed s).
  - unfold pop_task in Hs. destruct (consumer_at s) as [|t|t|] eqn:Ea; try done. case_match; [done|]. injection Hs as <-.
    apply (playing_frame clean k pushed s); try done. cbn. destruct Hc as (p0 & at_ & -> & <- & Hf).
    destruct (tasks_ s) as [|x r]; [done|]. cbn in Hf. injection Hf as ->. rewrite fmap_app. cbn. by rewrite <- app_assoc.
  - injection Hs as <-. by apply (playing_frame clean k pushed s).
  - injection Hs as <-. by apply (playing_frame clean k pushed s).
  - injection Hs as <-. by apply (playing_frame clean k pushed s).
  - injection Hs as <-. apply (playing_frame clean k pushed s); try done. intros Hx. by specialize (Hcl Hx).
  - injection Hs as <-. by apply (playing_frame clean k pushed s).
Qed.

Lemma run_playing clean N k pushed s l s' :
  fits N → (k + length l <= N)%nat → playing clean k pushed s → (clean = true → StopProducer ∉ l) → run c s l = Some s' →
  ∃ k' pushed', playing clean k' pushed' s'.
Proof using Hbe Hsorted Hwithin.
  intros HN. revert k pushed s. induction l as [|a l IH]; intros k pushed s Hk Hpl Hcl Hr; cbn in Hr, Hk;
    [injection Hr as <-; eauto|].
  destruct (step c s a) as [s1|] eqn:Hs; [|done]. cbn in Hr.
  destruct (step_playing clean N k pushed s a s1 HN ltac:(lia) Hpl) as (k' & pushed' & Hk' & Hpl'); [|done|].
  { intros Hx ->. apply (Hcl Hx). by left. }
  apply (IH k' pushed' s1); [lia|done| |done]. intros Hx Hin. apply (Hcl Hx). by right.
Qed.

(** ** The times of playing *)

(** The user's clock is a 64-bit one. *)
Definition in_time (a : Step) : Prop :=
  match a with PlayAt _ _ later => later < 2 ^ 64 | KeepPaused now => now < 2 ^ 64 | _ => True end.

Section times.
(** [t], played at [at1], is the first task; the base is no earlier than [t0] and the sleep
    before the first task, and no later than [at1]. *)
Record first_based (t0 base : Z) (t : PlayTask) (at1 : Z) : Prop := {
  fb_start : t0 <= base;
  fb_sleep : b < msg_play_time_ns_ t → t0 + scale c (msg_play_time_ns_ t - b) <= base;
  fb_played : base <= at1
}.

(** The base is set by the first task; pauses are not longer than the time since then;
    and no task was played before its time.  The threads started at [t0]. *)
Context (t0 : Z).
Record timely (s : State) : Prop := {
  ti_clock : 0 <= t0 <= clock s ∧ clock s < 2 ^ 64 ∧ 0 <= base_msg_play_time_ns_ s;
  ti_new : base_msg_play_time_ns_ s = 0 → accumulated_pause_time_ns s = 0 ∧ played s = [];
  ti_based : base_msg_play_time_ns_ s ≠ 0 →
    0 <= base_real_time_ns s ∧ 0 <= accumulated_pause_time_ns s ∧
    base_real_time_ns s + accumulated_pause_time_ns s <= clock s ∧
    ∃ t at1, head (played s) = Some (t, at1) ∧ msg_play_time_ns_ t = base_msg_play_time_ns_ s ∧
      first_based t0 (base_real_time_ns s) t at1;
  ti_played : ∀ t at_, (t, at_) ∈ played s →
    base_real_time_ns s + scale c (msg_play_time_ns_ t - base_msg_play_time_ns_ s) <= at_
}.

(** The sleep of a task is long enough. *)
Lemma sleep_long_enough base acc base_play t now later :
  0 <= base → 0 <= acc → base + acc <= now < 2 ^ 64 → 0 <= base_play <= msg_play_time_ns_ t → msg_play_time_ns_ t < 2 ^ 64 →
  now + sleep_ns c base acc base_play t now <= later →
  base + acc + scale c (msg_play_time_ns_ t - base_play) <= later.
Proof using.
  intros Hb Ha Hn Hp Ht Hl. unfold sleep_ns in Hl.
  rewrite (u64_small (now - base)), (u64_small (now - base - acc)), (u64_small (_ - base_play)) in Hl
    by (unfold is_u64; lia).
  destruct (_ <? _) eqn:E in Hl; zbool; lia.
Qed.

(** Where a task is had, it is not before the base. *)
Lemma has_after_base clean N k pushed s t :
  fits N → (k <= N)%nat → playing clean k pushed s → timely s → consumer_at s = CHas t →
  0 < msg_play_time_ns_ t < 2 ^ 64 ∧ base_msg_play_time_ns_ s <= msg_play_time_ns_ t.
Proof using Hbe Hsorted Hwithin.
  intros HN Hk Hpl Hti Hc. destruct (passes_sorted N (S k) HN ltac:(lia)) as [Hs Hf].
  pose proof (pushed_prefix _ _ _ _ Hpl) as Hpre. pose proof (sorted_prefix _ _ Hpre Hs) as Hsp.
  destruct Hpre as [r Hr]. rewrite Hr, Forall_app in Hf. destruct Hf as [Hf _].
  pose proof (pl_consumer _ _ _ _ Hpl) as Hco. rewrite Hc in Hco. destruct Hco as [Hpu Hfr].
  destruct (tasks_ s) as [|x b']; [done|]. injection Hfr as ->. rewrite <- Hpu in Hf, Hsp. rewrite Forall_app, Forall_cons in Hf.
  destruct Hf as (_ & Ht & _). replace (S k - 1)%nat with k in Ht by lia.
  assert (Z.of_nat k * (e - b) <= Z.of_nat N * (e - b)) as Hkn.
  { apply Z.mul_le_mono_nonneg_r; lia. }
  assert (0 < msg_play_time_ns_ t < 2 ^ 64) as Ht64 by (destruct HN; lia). split; [done|].
  destruct (decide (base_msg_play_time_ns_ s = 0)) as [->|Hne]; [lia|].
  destruct (ti_based s Hti Hne) as (_ & _ & _ & u & at1 & Hu & <- & _).
  apply StronglySorted_app in Hsp as (Hlt & _ & _). apply (Hlt u t); [|by left].
  destruct (played s) as [|[??] ?]; [done|]. injection Hu as -> ->. by left.
Qed.

Lemma head_snoc {A} (l : list A) x y : head l = Some y → head (l ++ [x]) = Some y.
Proof. by destruct l. Qed.

Lemma play_timely clean N k pushed s based now later s' :
  fits N → (k <= N)%nat → playing clean k pushed s → timely s → later < 2 ^ 64 → play_task c s based now later = Some s' →
  timely s'.
Proof using Hbe Hsorted Hwithin Hscale.
  intros HN Hk Hpl Hti Hlater Hs. unfold play_task in Hs. destruct (consumer_at s) as [|t|t|] eqn:Ea; try done.
  destruct (has_after_base clean N k pushed s t HN Hk Hpl Hti Ea) as [Ht Hb].
  pose proof Hti as [Hc Hnew Hbased Hpd]. destruct (_ && _) eqn:Eg in Hs; [|done]. injection Hs as <-.
  apply andb_true_iff in Eg as [Esl Eln]. apply bool_decide_eq_true in Eln.
  assert (∀ base acc bp, 0 <= sleep_ns c base acc bp t now) as Hsn
    by (intros; unfold sleep_ns; cbv zeta; destruct (_ <? _) eqn:E; zbool; lia).
  destruct (base_msg_play_time_ns_ s =? 0) eqn:E0; zbool; apply bool_decide_eq_true in Esl.
  - destruct (Hnew E0) as [Hacc Hnil]. rewrite Hacc in *. specialize (Hsn based 0 (msg_play_time_ns_ t)).
    assert (0 <= first_sleep c s t ∧ (b < msg_play_time_ns_ t → first_sleep c s t = scale c (msg_play_time_ns_ t - b))) as [Hfs Hfe].
    { unfold first_sleep. fold b. destruct (b <? _) eqn:Eb; zbool; [|split; [lia|intros; lia]].
      rewrite u64_small by (unfold is_u64; lia). split; [apply Hscale; lia|done]. }
    pose proof (sleep_long_enough based 0 (msg_play_time_ns_ t) t now later ltac:(lia) ltac:(lia) ltac:(lia) ltac:(lia) ltac:(lia) Eln) as Hsl.
    split; cbn; [lia|intros; lia| |].
    + intros _. rewrite Hnil. split_and!; try lia. exists t, later. split; [done|]. split; [done|].
      split; [lia|intros Hlt; rewrite <- (Hfe Hlt); lia|lia].
    + rewrite Hnil. intros u at_ [= <- <-]%list_elem_of_singleton. lia.
  - destruct (Hbased E0) as (Hb1 & Hb2 & Hb3 & u & at1 & Hu & Hut).
    specialize (Hsn (base_real_time_ns s) (accumulated_pause_time_ns s) (base_msg_play_time_ns_ s)).
    pose proof (sleep_long_enough (base_real_time_ns s) (accumulated_pause_time_ns s) (base_msg_play_time_ns_ s) t now later
      Hb1 Hb2 ltac:(lia) ltac:(lia) ltac:(lia) Eln) as Hsl.
    split; cbn; [lia|done| |].
    + intros _. split_and!; try lia. exists u, at1. split; [by apply head_snoc|done].
    + intros v at_ [Hv|[= <- <-]%list_elem_of_singleton]%elem_of_app; [by apply Hpd|lia].
Qed.

Lemma timely_frame s s' :
  timely s → clock s' = clock s → base_msg_play_time_ns_ s' = base_msg_play_time_ns_ s →
  base_real_time_ns s' = base_real_time_ns s → accumulated_pause_time_ns s' = accumulated_pause_time_ns s →
  played s' = played s → timely s'.
Proof using. intros [H1 H2 H3 H4] E1 E2 E3 E4 E5. split; rewrite ?E1, ?E2, ?E3, ?E4, ?E5; done. Qed.

Lemma step_timely clean N k pushed s a s' :
  fits N → (k <= N)%nat → playing clean k pushed s → timely s → in_time a → step c s a = Some s' → timely s'.
Proof using Hbe Hsorted Hwithin Hscale.
  intros HN Hk Hpl Hti Hin Hs. destruct a as [| | |based now later|now| | | | | |]; cbn in Hs, Hin;
    try (by injection Hs as <-; apply (timely_frame s)).
  - unfold produce in Hs. repeat case_match; try done; injection Hs as <-; by apply (timely_frame s).
  - unfold take_front in Hs. repeat case_match; try done; injection Hs as <-; by apply (timely_frame s).
  - unfold stop_waiting in Hs. repeat case_match; try done; injection Hs as <-; by apply (timely_frame s).
  - by apply (play_timely clean N k pushed s based now later).
  - unfold keep_paused in Hs. destruct (consumer_at s) as [|t|t|] eqn:Ea; try done.
    destruct (_ && bool_decide _) eqn:Eg in Hs; [|done]. injection Hs as <-. apply andb_true_iff in Eg as [_ Eg].
    apply bool_decide_eq_true in Eg. destruct Hti as [H1 H2 H3 H4]. unfold kPauseSleepNanoSec in *.
    assert (base_msg_play_time_ns_ s ≠ 0) as Hne.
    { intros E. destruct (H2 E) as [_ Hnil]. pose proof (pl_consumer _ _ _ _ Hpl) as Hc. rewrite Ea in Hc.
      destruct Hc as (p0 & at_ & Hp & _). rewrite Hnil in Hp. by destruct p0. }
    destruct (H3 Hne) as (Hb1 & Hb2 & Hb3 & Hb4).
    assert (u64 (accumulated_pause_time_ns s + 100000000) = accumulated_pause_time_ns s + 100000000) as Hacc
      by (apply u64_small; unfold is_u64; lia).
    split; cbn; [lia|done| |done]. intros _. rewrite Hacc. split_and!; [lia|lia|lia|done].
  - unfold pop_task in Hs. repeat case_match; try done; injection Hs as <-; by apply (timely_frame s).
Qed.

Lemma run_timely clean N k pushed s l s' :
  fits N → (k + length l <= N)%nat → playing clean k pushed s → (clean = true → StopProducer ∉ l) → timely s →
  Forall in_time l → run c s l = Some s' → timely s'.
Proof using Hbe Hsorted Hwithin Hscale.
  intros HN Hk Hpl Hcl Hti Hin. revert k pushed s Hk Hpl Hti. induction Hin as [|a l Ha Hl IH]; intros k pushed s Hk Hpl Hti Hr;
    cbn in Hr, Hk; [by injection Hr as <-|].
  destruct (step c s a) as [s1|] eqn:Hs; [|done]. cbn in Hr.
  assert (clean = true → a ≠ StopProducer) as Hca by (intros Hx ->; apply (Hcl Hx); by left).
  destruct (step_playing clean N k pushed s a s1 HN ltac:(lia) Hpl Hca Hs) as (k' & pushed' & Hk' & Hpl').
  assert (timely s1) as Hti1 by (apply (step_timely clean N k pushed s a); (lia || done)).
  apply (IH ltac:(intros Hx Hn; apply (Hcl Hx); by right) k' pushed' s1); (lia || done).
Qed.

End times.

(** [C23] Playing a record without preloading ([ThreadFunc] of the producer; the one that
    preloads may play the first message twice, see [preload_first_twice]): however the
    producer, the consumer and the user's commands interleave, pauses, single steps and
    stops included, what has been played are the first of the viewer's messages on
    channels with a writer, pass by pass when it loops, each once a pass and in order; the first
    one no earlier than its distance from the begin time after the start, and every one
    no earlier than its distance from the first after a moment [base] before the first was
    played, distances divided by the rate; and when the producer has ended by itself and
    the buffer is empty, all are. *)
Theorem player_plays_in_order (N : nat) (l : list Step) (t0 : Z) (s : State) :
  fits N → (length l <= N)%nat → 0 <= t0 < 2 ^ 64 → Forall in_time l → run c (State_new t0) l = Some s →
  (∃ n, (played s).*1 `prefix_of` passes n) ∧
  (∀ t1 at1, head (played s) = Some (t1, at1) →
   ∃ base, t0 <= base <= at1 ∧
     (begin_time_ns (param c) < msg_play_time_ns_ t1 →
      t0 + scale c (msg_play_time_ns_ t1 - begin_time_ns (param c)) <= base) ∧
     ∀ t at_, (t, at_) ∈ played s → base + scale c (msg_play_time_ns_ t - msg_play_time_ns_ t1) <= at_) ∧
  (is_loop_playback (param c) = false → StopProducer ∉ l → producer_at s = PEnded → tasks_ s = [] →
   (played s).*1 = pass 0).
Proof using Hbe Hsorted Hwithin Hscale.
  intros HN Hl Ht0 Hin Hr. split_and!.
  - destruct (run_playing false N 0 [] (State_new t0) l s HN Hl (playing_new _ _) ltac:(done) Hr) as (k & pushed & Hpl).
    exists (S k). etrans; [by eapply played_prefix|by eapply pushed_prefix].
  - intros t1 at1 Hhd. assert (timely t0 (State_new t0)) as Hnew
      by (split; cbn; [lia|done|done|intros t at_ Ht; by apply not_elem_of_nil in Ht]).
    pose proof (run_timely t0 false N 0 [] (State_new t0) l s HN Hl (playing_new _ _) ltac:(done) Hnew Hin Hr) as [_ H2 H3 H4].
    destruct (decide (base_msg_play_time_ns_ s = 0)) as [E|Hne]; [destruct (H2 E) as [_ Hn]; by rewrite Hn in Hhd|].
    destruct (H3 Hne) as (_ & _ & _ & t & at' & Hhd' & Hbt & [F1 F2 F3]). rewrite Hhd in Hhd'. injection Hhd' as <- <-.
    rewrite Hbt. exists (base_real_time_ns s). split; [lia|]. rewrite <- Hbt at 1 2. by split.
  - intros Hlp Hst He Hb.
    destruct (run_playing true N 0 [] (State_new t0) l s HN Hl (playing_new _ _) ltac:(done) Hr) as (k & pushed & Hpl).
    destruct Hpl as [_ Ho Hp _ Hc]. rewrite He in Hp. rewrite (Ho Hlp) in Hp. destruct Hp as [_ Hp]. specialize (Hp eq_refl).
    unfold passes in Hp. cbn in Hp. rewrite app_nil_r in Hp. rewrite Hb in Hc. rewrite <- Hp.
    destruct (consumer_at s) as [|t|t|]; rewrite ?app_nil_r in Hc; try done; [by destruct Hc|].
    by destruct Hc as (? & ? & _ & _ & ?).
Qed.

End order.

(** ** Preloading *)

Section preload.
Context (c : Play).

Definition push_message (tasks : Buffer) (m : SingleMessage) : Buffer :=
  if bool_decide (channel_name m ∈ writers_ c) then Push tasks (mkTask m (time m) (time m)) else tasks.

(** The loop of [FillPlayTaskBuffer()], from the iterator at [m] with [ahead] still to be
    shown: the buffer, the iterator that is kept, if one is, and what is ahead. *)
Fixpoint fill_loop (tasks : Buffer) (m : SingleMessage) (ahead : list SingleMessage)
  : Buffer * option SingleMessage * list SingleMessage :=
  if kMinTaskBufferSize * 2 <? Z.of_nat (length tasks) then (tasks, Some m, ahead)
  else
    match ahead with
    | [] => (push_message tasks m, None, [])
    | m' :: ahead' => fill_loop (push_message tasks m) m' ahead'
    end.

(** [FillPlayTaskBuffer()] of a new viewer: the buffer, the viewer's current iterator and
    what is ahead. *)
Definition FillPlayTaskBuffer : Buffer * option SingleMessage * list SingleMessage :=
  match shown c with
  | [] => ([], None, [])
  | m :: ahead =>
      let '(tasks, kept, ahead) := fill_loop [] m ahead in
      (tasks, Some (default m kept), ahead)
  end.

(** The messages [ThreadFuncUnderPreloadMode()] pushes after it, from the current iterator on. *)
Definition preload_rest : list SingleMessage :=
  let '(_, curr_itr, ahead) := FillPlayTaskBuffer in option_list curr_itr ++ ahead.

Lemma fill_loop_spec tasks m ahead tasks' kept ahead' :
  fill_loop tasks m ahead = (tasks', kept, ahead') →
  ∃ pre, m :: ahead = pre ++ option_list kept ++ ahead' ∧ tasks' = foldl push_message tasks pre ∧ (kept = None → ahead' = []).
Proof.
  revert tasks m. induction ahead as [|m' ahead IH]; intros tasks m Hf; cbn in Hf;
    (case_match; [injection Hf as <- <- <-; by exists []|]).
  - injection Hf as <- <- <-. by exists [m].
  - destruct (IH _ _ Hf) as (pre & Hp & -> & Hk). exists (m :: pre). by rewrite Hp.
Qed.

(** Preloading and the thread after it push each message once, unless preloading has
    come to the end: then the iterator it began with is still the current one, and the
    first message is pushed a second time. *)
Theorem preload_pushes :
  ∃ pre, FillPlayTaskBuffer.1.1 = foldl push_message [] pre ∧
    ((pre ++ preload_rest = shown c) ∨ (pre = shown c ∧ preload_rest = take 1 (shown c))).
Proof.
  unfold preload_rest, FillPlayTaskBuffer. destruct (shown c) as [|m ahead]; [exists []; split; [done|by left]|].
  destruct (fill_loop [] m ahead) as [[tasks kept] ahead'] eqn:Hf. cbn.
  destruct (fill_loop_spec _ _ _ _ _ _ Hf) as (pre & Hp & -> & Hk). exists pre. split; [done|].
  destruct kept as [m'|]; [left; by rewrite Hp|]. right. rewrite (Hk eq_refl) in Hp |- *. cbn in Hp. rewrite app_nil_r in Hp. done.
Qed.

End preload.

(** ** Examples *)

Module PlaySample.
Definition p1 : SingleMessage := mkMessage "a" 10 [1].
Definition p2 : SingleMessage := mkMessage "b" 15 [2].
Definition p3 : SingleMessage := mkMessage "a" 20 [3].
Definition played_param : PlayParam := mkParam true false 10 10 20 3 ∅ {["b"]}.
Definition sample : Play := mkPlay played_param 500 {["a"]} [p1; p2; p3] (λ n, n).
(** The consumer is paused after the first message, then continues. *)
Definition sample_run : list Step :=
  [Produce; Produce; TakeFront; PlayAt 1000 1000 1001; Pause; Produce; KeepPaused 100002000; Produce; Produce; Continue; Pop;
   TakeFront; PlayAt 0 100002000 100002010; Pop; TakeFront].
Definition sample_run' : list Step := take 14 sample_run.
End PlaySample.
Import PlaySample.

Definition sample_end : State :=
  mkState [] true 0 PEnded false false false 10 10 20 1000 100000000 CLooks 100002010
    [(task_of sample 0 p1, 1001); (task_of sample 0 p3, 100002010)].
Lemma sample_runs : run sample (State_new 900) sample_run' = Some sample_end.
Proof. vm_compute. reflexivity. Qed.
Lemma sample_fits : fits sample 14.
Proof. unfold fits. cbn. lia. Qed.
Lemma sample_never_stopped : StopProducer ∉ sample_run'.
Proof. unfold sample_run'. cbn. rewrite !not_elem_of_cons. split_and!; try discriminate. apply not_elem_of_nil. Qed.

Lemma player_plays_in_order_witness :
  (played sample_end).*1 = pass sample 0 ∧
  ∃ base, 900 <= base <= 1001 ∧ base + (20 - 10) <= 100002010.
Proof.
  destruct (player_plays_in_order sample) with (N := 14%nat) (l := sample_run') (t0 := 900) (s := sample_end) as (_ & H2 & H3).
  - cbn. lia.
  - repeat constructor; cbn; lia.
  - repeat constructor; cbn; lia.
  - cbn. lia.
  - apply sample_fits.
  - cbn. lia.
  - lia.
  - repeat constructor; cbn; lia.
  - apply sample_runs.
  - split; [exact (H3 eq_refl sample_never_stopped eq_refl eq_refl)|].
    destruct (H2 (task_of sample 0 p1) 1001 eq_refl) as (base & Hb & _ & Ht). exists base. split; [exact Hb|].
    apply (Ht (task_of sample 0 p3)). right. left.
Defined.

(** A recording that is short enough to be preloaded in full plays its first message twice. *)
Theorem preload_first_twice : preload_rest sample = [p1] ∧ FillPlayTaskBuffer sample = ([mkTask p1 10 10; mkTask p3 20 20], Some p1, []).
Proof. vm_compute. done. Qed.

(** Were a task pushed before the one being played, that one would be removed unplayed,
    and the one played would be played again. *)
Theorem early_task_swallowed (t u : PlayTask) :
  msg_play_time_ns_ u < msg_play_time_ns_ t →
  Front [t] = Some t ∧ Front (PopFront (Push [t] u)) = Some t.
Proof. intros H. cbn. by rewrite (proj2 (Z.ltb_lt _ _)). Qed.

(** Where only some channels are played, the messages of a channel that is not are taken
    off a count they were never added to. *)
Theorem black_channel_underflow (p : PlayParam) (r : RecordReader) (ch : string) :
  is_play_all_channels p = false → ch ∈ black_channels p → 0 < Reader_GetMessageNumber r ch < 2 ^ 64 →
  total_msg_num_ (channel_info p r RecordInfo_new ch) = 2 ^ 64 - Reader_GetMessageNumber r ch.
Proof.
  intros Hp Hb Hn. unfold channel_info. rewrite bool_decide_eq_true_2 by done. cbn. unfold u64.
  rewrite <- (Z_mod_plus_full _ 1), Z.mod_small; lia.
Qed.
