(* ===== verification/RecordTools.v ===== *)
(** * Cutting and recovering records (tools/cyber_recorder/spliter.cc, recoverer.cc)

    Both tools walk over the sections of one file and hand channels and messages to the
    writer of another.  They never look at the writer again, so what [Proc()] does is the
    list of the calls it makes; any run of the writer with these calls, its flush thread
    between them, is a run of the tool. *)

From stdpp Require Import base numbers list gmap strings sorting.
From Stdlib Require Import ZArith Lia.
From S2P Require Import Prelude WireFormat RecordFile RecordWriter RecordReader.

Open Scope nat_scope.

(** ** What a tool asks of its writer *)

Inductive Call := CallHeader (h : Header) | CallChannel (c : Channel) | CallMessage (m : SingleMessage).

(** What [Proc()] returns, and the calls on the output file, if it was opened. *)
Record Outcome := mkOutcome { returned : bool; output : option (list Call) }.

(** [Open(output_file)], then [WriteHeader(new_hdr)], then the calls [rest] makes. *)
Definition with_output (opens header_written : bool) (rest : option (bool * list Call)) : option Outcome :=
  if negb opens then Some (mkOutcome false None)
  else if negb header_written then Some (mkOutcome false (Some [CallHeader GetHeader]))
  else '(ok, calls) ← rest; Some (mkOutcome ok (Some (CallHeader GetHeader :: calls))).

(** The calls before those of the rest of a loop. *)
Definition emit (calls : list Call) (rest : option (bool * list Call)) : option (bool * list Call) :=
  '(ok, l) ← rest; Some (ok, calls ++ l).

(** ** Spliter *)

Record Spliter := mkSpliter {
  white_channels_ : list string; black_channels_ : list string; begin_time_ : Z; end_time_ : Z
}.

(** [std::find(l.begin(), l.end(), ch) != l.end()]. *)
Definition find (ch : string) (l : list string) : bool := existsb (String.eqb ch) l.

Definition params_ok (s : Spliter) : bool :=
  negb (end_time_ s <=? begin_time_ s)%Z &&
  negb (existsb (λ ch, find ch (black_channels_ s)) (white_channels_ s)).

Definition selected (s : Spliter) (ch : string) : bool :=
  (bool_decide (white_channels_ s = []) || find ch (white_channels_ s)) && negb (find ch (black_channels_ s)).

Definition in_range (s : Spliter) (m : SingleMessage) : bool :=
  negb ((time m <? begin_time_ s) || (end_time_ s <? time m))%Z.

(** The tests of the chunk and the file headers. *)
Definition out_of_range (s : Spliter) (begin_ end_ : Z) : bool :=
  ((end_ <? begin_time_ s) || (end_time_ s <? begin_))%Z.

(** ** Recoverer *)

Definition mem_channel (chs : list string) (c : Channel) : bool := find (name c) chs.

(** The channels of the index that are not known yet. *)
Fixpoint index_channels (chs : list string) (index : Index) : list string * list Call :=
  match index with
  | [] => (chs, [])
  | i :: index =>
      if negb (type_ i =? SECTION_CHANNEL)%Z then index_channels chs index
      else
        let c := match cache i with
                 | Some (channel_cache c) => mkChannel (cc_name c) (cc_message_type c) (cc_proto_desc c)
                 | _ => mkChannel EmptyString EmptyString EmptyString
                 end in
        if mem_channel chs c then index_channels chs index
        else
          let '(chs, l) := index_channels (chs ++ [name c]) index in (chs, CallChannel c :: l)
  end.

Section tools.
Context `{CH : Codec Header, CC : Codec Channel, CK : Codec ChunkHeader, CB : Codec ChunkBody, CI : Codec Index}.
Context `{ST : Stream}.
Context (at_end : FileReader → Z → bool).

(** The loop of [Spliter::Proc], with the flag [skip_next_chunk_body]; a write of a
    message never fails. *)
Fixpoint split_loop (fuel : nat) (s : Spliter) (f : FileReader) (skip : bool) : option (bool * list Call) :=
  match fuel with
  | O => None
  | S fuel =>
      if end_of_file_ f then Some (true, [])
      else
        match ReadSection f with
        | (_, None) => Some (false, [])
        | (f, Some (type, size)) =>
            if (type =? SECTION_INDEX)%Z then Some (true, [])
            else if (type =? SECTION_CHANNEL)%Z then
              match ReadSectionT (T := Channel) at_end f size with
              | (_, None) => Some (false, [])
              | (f, Some c) =>
                  emit (if selected s (name c) then [CallChannel c] else []) (split_loop fuel s f skip)
              end
            else if (type =? SECTION_CHUNK_HEADER)%Z then
              match ReadSectionT (T := ChunkHeader) at_end f size with
              | (_, None) => Some (false, [])
              | (f, Some h) =>
                  split_loop fuel s f (if out_of_range s (begin_time h) (end_time h) then true else skip)
              end
            else if (type =? SECTION_CHUNK_BODY)%Z then
              if skip then split_loop fuel s (SkipSection f size).1 false
              else
                match ReadSectionT (T := ChunkBody) at_end f size with
                | (_, None) => Some (false, [])
                | (f, Some b) =>
                    emit (CallMessage <$> filter (λ m, selected s (channel_name m) && in_range s m) (messages b))
                      (split_loop fuel s f skip)
                end
            else split_loop fuel s f skip
        end
  end.

(** [Spliter::Proc()] on an input file with these bytes. *)
Definition Spliter_Proc (fuel : nat) (s : Spliter) (input : option (list Z)) (opens header_written : bool) : option Outcome :=
  if negb (params_ok s) then Some (mkOutcome false None)
  else
    match FileReader_Open at_end input with
    | (_, false) => Some (mkOutcome false None)
    | (f, true) =>
        if out_of_range s (h_begin_time (r_header_ f)) (h_end_time (r_header_ f)) then Some (mkOutcome false None)
        else with_output opens header_written (split_loop fuel s (FileReader_Reset f).1 false)
    end.

(** The loop of [Recoverer::Proc]: what cannot be read is passed over. *)
Fixpoint recover_loop (fuel : nat) (f : FileReader) (chs : list string) : option (bool * list Call) :=
  match fuel with
  | O => None
  | S fuel =>
      if end_of_file_ f then Some (true, [])
      else
        match ReadSection f with
        | (f, None) => recover_loop fuel f chs
        | (f, Some (type, size)) =>
            if (type =? SECTION_INDEX)%Z then Some (true, [])
            else if (type =? SECTION_CHANNEL)%Z then
              match ReadSectionT (T := Channel) at_end f size with
              | (f, None) => recover_loop fuel f chs
              | (f, Some c) =>
                  if mem_channel chs c then recover_loop fuel f chs
                  else emit [CallChannel c] (recover_loop fuel f (chs ++ [name c]))
              end
            else if (type =? SECTION_CHUNK_HEADER)%Z then
              recover_loop fuel (ReadSectionT (T := ChunkHeader) at_end f size).1 chs
            else if (type =? SECTION_CHUNK_BODY)%Z then
              match ReadSectionT (T := ChunkBody) at_end f size with
              | (f, None) => recover_loop fuel f chs
              | (f, Some b) => emit (CallMessage <$> messages b) (recover_loop fuel f chs)
              end
            else Some (false, [])
        end
  end.

(** [Recoverer::Proc()]. *)
Definition Recoverer_Proc (fuel : nat) (input : option (list Z)) (opens header_written : bool) : option Outcome :=
  match FileReader_Open at_end input with
  | (_, false) => Some (mkOutcome false None)
  | (f, true) =>
      let '(f, found) := ReadIndex at_end f in
      let '(chs, calls) := if found then index_channels [] (r_index_ f) else ([], []) in
      with_output opens header_written (emit calls (recover_loop fuel (FileReader_Reset f).1 chs))
  end.

End tools.

(** ** What the calls write *)

Definition call_messages (l : list Call) : list SingleMessage :=
  omap (λ c, match c with CallMessage m => Some m | _ => None end) l.
Definition call_channels (l : list Call) : list Channel :=
  omap (λ c, match c with CallChannel c => Some c | _ => None end) l.

(** The calls in a run of the writer; rounds of the flush thread are none. *)
Definition ev_call (e : Ev) : option Call :=
  match e with EvChannel c => Some (CallChannel c) | EvMessage _ m => Some (CallMessage m) | EvFlush => None end.
Definition performs (l : list Ev) (calls : list Call) : Prop := omap ev_call l = calls.

Lemma performs_messages l calls : performs l calls → ev_messages l = call_messages calls.
Proof. intros <-. induction l as [|[c|iw m|] l IH]; [done| | |]; try exact IH; cbn; f_equal; exact IH. Qed.
Lemma performs_channels l calls : performs l calls → ev_channels l = call_channels calls.
Proof. intros <-. induction l as [|[c|iw m|] l IH]; [done| | |]; try exact IH; cbn; f_equal; exact IH. Qed.

Lemma call_messages_app l k : call_messages (l ++ k) = call_messages l ++ call_messages k.
Proof. apply omap_app. Qed.
Lemma call_channels_app l k : call_channels (l ++ k) = call_channels l ++ call_channels k.
Proof. apply omap_app. Qed.
Lemma call_messages_of l : call_messages (CallMessage <$> l) = l.
Proof. induction l as [|m l IH]; [done|]. cbn. f_equal. exact IH. Qed.
Lemma call_channels_of l : call_channels (CallMessage <$> l) = [].
Proof. induction l as [|m l IH]; [done|]. exact IH. Qed.

Lemma call_messages_channels l : call_messages (CallChannel <$> l) = [].
Proof. induction l as [|c l IH]; [done|]. exact IH. Qed.
Lemma call_channels_channels l : call_channels (CallChannel <$> l) = l.
Proof. induction l as [|c l IH]; [done|]. cbn. f_equal. exact IH. Qed.

(** The channels of sections; those with a name that was not there before. *)
Definition sect_channel (s : Sect) : option Channel := match s with SChannel c => Some c | _ => None end.
Fixpoint fresh (chs : list string) (l : list Channel) : list Channel :=
  match l with
  | [] => []
  | c :: l => if mem_channel chs c then fresh chs l else c :: fresh (chs ++ [name c]) l
  end.

(** What the tools write for the sections they read. *)
Definition split_sect (s : Spliter) (x : Sect) : list Call :=
  match x with
  | SChannel c => if selected s (name c) then [CallChannel c] else []
  | SHeader _ => []
  | SBody b => CallMessage <$> filter (λ m, selected s (channel_name m) && in_range s m) (messages b)
  end.
Definition split_calls (s : Spliter) (l : list Sect) : list Call := concat (split_sect s <$> l).
Fixpoint recover_calls (chs : list string) (l : list Sect) : list Call :=
  match l with
  | [] => []
  | SChannel c :: l =>
      if mem_channel chs c then recover_calls chs l else CallChannel c :: recover_calls (chs ++ [name c]) l
  | SHeader _ :: l => recover_calls chs l
  | SBody b :: l => (CallMessage <$> messages b) ++ recover_calls chs l
  end.

Lemma split_messages s l :
  call_messages (split_calls s l) = filter (λ m, selected s (channel_name m) && in_range s m) (sects_messages l).
Proof.
  unfold split_calls, sects_messages. induction l as [|x l IH]; [done|]. cbn [fmap list_fmap concat].
  rewrite call_messages_app, IH, filter_app. f_equal. destruct x as [c|h|b]; cbn [split_sect sect_messages].
  - by case_match.
  - done.
  - apply call_messages_of.
Qed.

Lemma split_channels s l :
  call_channels (split_calls s l) = filter (λ c, selected s (name c)) (omap sect_channel l).
Proof.
  unfold split_calls. induction l as [|x l IH]; [done|]. cbn [fmap list_fmap concat].
  rewrite call_channels_app, IH. destruct x as [c|h|b]; cbn [split_sect omap list_omap sect_channel].
  - rewrite filter_cons. case_match eqn:E; case_decide as D; rewrite ?E in D; done.
  - done.
  - by rewrite call_channels_of.
Qed.

Lemma recover_messages chs l : call_messages (recover_calls chs l) = sects_messages l.
Proof.
  unfold sects_messages. revert chs. induction l as [|[c|h|b] l IH]; intros chs; cbn [recover_calls]; [done|..].
  - destruct (mem_channel chs c); apply IH.
  - apply IH.
  - rewrite call_messages_app, call_messages_of, IH. done.
Qed.

Lemma recover_channels chs l : call_channels (recover_calls chs l) = fresh chs (omap sect_channel l).
Proof.
  revert chs. induction l as [|[c|h|b] l IH]; intros chs; cbn [recover_calls omap list_omap sect_channel fresh]; [done|..].
  - destruct (mem_channel chs c); [apply IH|]. cbn. f_equal. apply IH.
  - apply IH.
  - rewrite call_channels_app, call_channels_of. apply IH.
Qed.

Lemma sects_of_channels items : omap sect_channel (sects_of items) = omap item_channel items.
Proof.
  unfold sects_of. induction items as [|[c|h b] items IH]; cbn; [done|by rewrite IH|by rewrite IH].
Qed.

(** ** The loops end *)

Section ends.
Context `{CH : Codec Header, CC : Codec Channel, CK : Codec ChunkHeader, CB : Codec ChunkBody, CI : Codec Index}.
Context `{ST : Stream}.
Context (at_end : FileReader → Z → bool).

Lemma emit_some calls rest : is_Some rest → is_Some (emit calls rest).
Proof. intros [[ok l] ->]. by eexists. Qed.

Lemma ahead_advance f n e : ahead (advance f n e) = drop n (ahead f).
Proof. unfold ahead, advance. cbn. by rewrite drop_drop. Qed.

(** Reading a message takes nothing back. *)
Lemma ReadSectionT_forward {T} `{Codec T} f size :
  ∃ n e, (ReadSectionT (T := T) at_end f size).1 = advance f n e.
Proof.
  unfold ReadSectionT. case_match; [exists 0, (end_of_file_ f); unfold advance; rewrite Nat.add_0_r; by destruct f|].
  destruct (parse size (ahead f)) as [m|]; [|by do 2 eexists]. case_match; by do 2 eexists.
Qed.

(** The bytes ahead and the round that finds none. *)
Definition to_go (f : FileReader) : nat := length (ahead f) + (if end_of_file_ f then 0 else 1).

Lemma to_go_section {T} `{Codec T} f size n :
  section_length <= length (ahead f) → n = section_length →
  to_go (ReadSectionT (T := T) at_end (advance f n (end_of_file_ f)) size).1 < to_go f.
Proof.
  intros Hl ->. destruct (ReadSectionT_forward (T := T) (advance f section_length (end_of_file_ f)) size) as (m & e & ->).
  unfold to_go. rewrite !ahead_advance, !length_drop. cbn [end_of_file_ advance]. unfold section_length in *.
  destruct e, (end_of_file_ f); lia.
Qed.

Lemma recover_loop_ends fuel f chs : to_go f < fuel → is_Some (recover_loop at_end fuel f chs).
Proof.
  revert f chs. induction fuel as [|fuel IH]; intros f chs Hf; [lia|]. cbn [recover_loop].
  destruct (end_of_file_ f) eqn:He; [by eexists|]. unfold ReadSection. case_decide as Hc.
  { apply IH. unfold to_go in *. rewrite ahead_advance, length_drop, He in *. cbn [end_of_file_ advance]. lia. }
  case_bool_decide as Hn; cbn [negb].
  2:{ apply IH. unfold to_go in *. rewrite ahead_advance, length_drop in *. cbn [end_of_file_ advance]. lia. }
  assert (section_length <= length (ahead f)) as Hl by lia.
  pose proof (λ T (c : Codec T) size, to_go_section (T := T) f size _ Hl Hn) as Hgo. rewrite He in *.
  repeat case_match; try (by eexists); try apply emit_some; apply IH;
    eapply Nat.lt_le_trans; try (match goal with H : _ = (?x, _) |- to_go ?x < _ => rewrite <- (f_equal fst H : _ = x) end; apply Hgo); try apply Hgo; lia.
Qed.

(** No operation of the reader changes the file. *)
Lemma ReadSection_file f : file (ReadSection f).1 = file f.
Proof. unfold ReadSection. repeat case_match; done. Qed.
Lemma SetPosition_file f n : file (SetPosition f n).1 = file f.
Proof. unfold SetPosition. by case_match. Qed.
Lemma ReadSectionT_file {T} `{Codec T} f size : file (ReadSectionT (T := T) at_end f size).1 = file f.
Proof. destruct (ReadSectionT_forward (T := T) f size) as (n & e & ->). done. Qed.
Lemma Reset_file f : file (FileReader_Reset f).1 = file f.
Proof.
  unfold FileReader_Reset. pose proof (SetPosition_file f (Z.of_nat (section_length + HEADER_LENGTH))) as H.
  by destruct (SetPosition f _) as [f' []].
Qed.

Lemma Open_file bs : file (FileReader_Open at_end (Some bs)).1 = bs.
Proof.
  cbn [FileReader_Open]. unfold ReadHeader. set (f0 := mkFileReader bs _ _ _ _).
  pose proof (ReadSection_file f0) as H1. destruct (ReadSection f0) as [f1 [[type size]|]]; [|done].
  cbn in H1. change (file f1 = bs) in H1. case_match; [done|]. pose proof (ReadSectionT_file (T := Header) f1 size) as H2.
  destruct (ReadSectionT at_end f1 size) as [f2 [h|]]; cbn [fst] in *; [rewrite SetPosition_file; cbn [file]|]; congruence.
Qed.

Lemma ReadIndex_file f : file (ReadIndex at_end f).1 = file f.
Proof.
  unfold ReadIndex. case_match; [done|].
  pose proof (SetPosition_file f (i64 (index_position (r_header_ f)))) as H1.
  destruct (SetPosition f _) as [f1 []]; [|done]. cbn in H1.
  pose proof (ReadSection_file f1) as H2. destruct (ReadSection f1) as [f2 [[type size]|]]; cbn in H2; [|cbn; congruence].
  case_match; [cbn; congruence|]. pose proof (ReadSectionT_file (T := Index) f2 size) as H3.
  destruct (ReadSectionT at_end f2 size) as [f3 [i|]]; cbn [fst] in *; [rewrite Reset_file; cbn [file]|]; congruence.
Qed.

(** [C39] The recoverer ends on every file: whatever the bytes, even if sizes lead
    nowhere, sections are broken or nothing can be parsed, [Proc()] returns after at
    most one round of its loop per byte and one more. *)
Theorem recover_ends (bs : list Z) (opens header_written : bool) :
  is_Some (Recoverer_Proc at_end (length bs + 2) (Some bs) opens header_written).
Proof.
  unfold Recoverer_Proc. pose proof (Open_file bs) as Ho.
  destruct (FileReader_Open at_end (Some bs)) as [f []]; [|by eexists]. cbn in Ho.
  pose proof (ReadIndex_file f) as Hi. destruct (ReadIndex at_end f) as [g found]. cbn in Hi.
  destruct (if found then _ else _) as [chs calls]. unfold with_output. repeat case_match; try by eexists.
  assert (is_Some (recover_loop at_end (length bs + 2) (FileReader_Reset g).1 chs)) as [[ok l] ->]; [|by eexists].
  apply recover_loop_ends. unfold to_go, ahead. rewrite length_drop, Reset_file, Hi, Ho. case_match; lia.
Qed.

End ends.

(** ** Reading what was written *)

(** A serialized message cut off is not parsed into one of its full size, and a stream
    asked for more bytes than there are takes all there are. *)
Definition torn {T} `{Codec T} (m : T) : Prop :=
  ∀ k m', k < ByteSizeLong m → parse (Z.of_nat (ByteSizeLong m)) (take k (encode m)) = Some m' →
  ByteSizeLong m' ≠ ByteSizeLong m.
Class TornCodec `{Codec Channel, Codec ChunkHeader, Codec ChunkBody} := {
  channel_torn : ∀ c : Channel, torn c;
  chunk_header_torn : ∀ h, valid_chunk_header h → torn h;
  body_torn : ∀ b, valid_body b → torn b
}.
Class TornStream `{Stream} := { taken_rest : ∀ n rest, rest < n → taken (Z.of_nat n) rest = rest }.

Section reading.
Context `{CH : Codec Header, CC : Codec Channel, CK : Codec ChunkHeader, CB : Codec ChunkBody, CI : Codec Index}.
Context {RC : RecordCodec} `{ST : Stream} {SL : StreamLaws}.
Context (at_end : FileReader → Z → bool).

Definition sect_size (x : Sect) : nat :=
  match x with SChannel c => ByteSizeLong c | SHeader h => ByteSizeLong h | SBody b => ByteSizeLong b end.
Definition sect_type (x : Sect) : Z :=
  match x with
  | SChannel _ => SECTION_CHANNEL | SHeader _ => SECTION_CHUNK_HEADER | SBody _ => SECTION_CHUNK_BODY
  end.
Definition sect_read (f f' : FileReader) (x : Sect) : Prop :=
  let n := Z.of_nat (sect_size x) in
  match x with
  | SChannel c => ReadSectionT (T := Channel) at_end f n = (f', Some c)
  | SHeader h => ReadSectionT (T := ChunkHeader) at_end f n = (f', Some h)
  | SBody b => ReadSectionT (T := ChunkBody) at_end f n = (f', Some b)
  end.

Lemma length_sect_bytes x : length (sect_bytes x) = section_length + sect_size x.
Proof. destruct x; apply length_section_of. Qed.

(** A whole section ahead is read, or skipped. *)
Lemma read_sect f x rest :
  readable x → ahead f = sect_bytes x ++ rest → (Z.of_nat (length (file f)) < 2 ^ 63)%Z →
  rpos f <= length (file f) →
  let f1 := advance f section_length (end_of_file_ f) in
  let f2 := advance f (section_length + sect_size x) (end_of_file_ f) in
  ReadSection f = (f1, Some (sect_type x, Z.of_nat (sect_size x))) ∧
  SkipSection f1 (Z.of_nat (sect_size x)) = (f2, true) ∧ ahead f2 = rest ∧ rpos f2 <= length (file f) ∧
  sect_read f1 f2 x.
Proof.
  intros Hr Ha Hf Hp f1 f2.
  destruct x as [c|h|b]; cbn [readable sect_bytes sect_size sect_type sect_read] in *.
  - destruct (section_ahead at_end f _ c rest Ha) as (H1 & H2 & H3 & H4 & H5); [done|lia|done|done|].
    split_and!; try done. apply H5; [apply channel_codec|apply channel_length|done].
  - destruct Hr as [Hv Hm].
    destruct (section_ahead at_end f _ h rest Ha) as (H1 & H2 & H3 & H4 & H5); [done|lia|done|done|].
    split_and!; try done. apply H5; [by apply chunk_header_codec|apply chunk_header_length|done].
  - destruct Hr as (Hv & Hne & Hm).
    destruct (section_ahead at_end f _ b rest Ha) as (H1 & H2 & H3 & H4 & H5); [done|lia|done|done|].
    split_and!; try done. apply H5; [by apply body_codec|by apply body_length|done].
Qed.

(** The reader before the sections of a file the writer finished. *)
Lemma stands_sect index f x l :
  stands index f false (x :: l) →
  let f1 := advance f section_length (end_of_file_ f) in
  let f2 := advance f (section_length + sect_size x) (end_of_file_ f) in
  ReadSection f = (f1, Some (sect_type x, Z.of_nat (sect_size x))) ∧
  SkipSection f1 (Z.of_nat (sect_size x)) = (f2, true) ∧ sect_read f1 f2 x ∧ stands index f2 false l.
Proof.
  intros Hst. pose proof Hst as (Hf & Hp & _). apply stands_cons in Hst as (Hr & rest & Ha & Hnext).
  destruct (read_sect f x rest Hr Ha Hf Hp) as (H1 & H2 & H3 & H4 & H5). split_and!; try done. by apply Hnext.
Qed.

Lemma stands_index index f :
  stands index f false [] → ∃ f', ReadSection f = (f', Some (SECTION_INDEX, Z.of_nat (ByteSizeLong index))).
Proof.
  intros (Hf & Hp & _ & Hi & tail & Ha). cbn in Ha.
  destruct (section_ahead at_end f _ index tail Ha) as (H1 & _); [done|done|done|done|]. by eexists.
Qed.

(** *** The spliter *)

Lemma emit_Some calls ok l : emit calls (Some (ok, l)) = Some (ok, calls ++ l).
Proof. done. Qed.

(** A chunk the window leaves out has nothing that would be written. *)
Lemma skipped_nothing s (b : ChunkBody) :
  Forall (λ m, (time m < begin_time_ s ∨ end_time_ s < time m)%Z) (messages b) → split_sect s (SBody b) = [].
Proof.
  intros Hb. cbn. rewrite filter_none; [done|]. intros m Hm. rewrite Forall_forall in Hb. specialize (Hb m Hm).
  unfold in_range. rewrite Is_true_true, andb_true_iff. intros [_ Hr]. zbool. lia.
Qed.

(** It writes what it should of all the sections, skipping chunk bodies or not. *)
Lemma split_loop_spec index s fuel f skip l :
  let W b e := (b = begin_time_ s ∧ e = end_time_ s)%Z in
  (begin_time_ s < end_time_ s)%Z → length l < fuel → end_of_file_ f = false → stands index f false l → paired W l →
  (skip = true → match l with SBody b :: _ => split_sect s (SBody b) = [] | _ => False end) →
  split_loop at_end fuel s f skip = Some (true, split_calls s l).
Proof.
  intros W Hbe. revert f skip l. induction fuel as [|fuel IH]; intros f skip l Hfuel He Hst Hp Hskip; [lia|].
  cbn [split_loop]. rewrite He. destruct l as [|x l].
  { destruct (stands_index _ _ Hst) as [f' ->]. by section_type. }
  destruct (stands_sect _ _ _ _ Hst) as (-> & Hsk & Hrd & Hst'). cbn in Hfuel.
  pose proof (λ skip, IH (advance f (section_length + sect_size x) (end_of_file_ f)) skip l ltac:(lia) He Hst') as IHl. clear IH. unfold split_calls. cbn [fmap list_fmap concat].
  destruct x as [c|h|b]; cbn [sect_type sect_read] in *; section_type.
  - destruct skip; [by specialize (Hskip eq_refl)|]. rewrite Hrd, IHl by done. by rewrite emit_Some.
  - destruct skip; [by specialize (Hskip eq_refl)|]. rewrite Hrd.
    destruct Hp as [Hb Hp]. destruct l as [|[| |b] l]; try done. apply IHl; [done|].
    destruct (out_of_range s (begin_time h) (end_time h)) eqn:E; [intros _|done].
    destruct Hb as [_ Hb]. destruct (Hb _ _ (conj eq_refl eq_refl)) as [Hlo Hhi]. apply skipped_nothing.
    unfold out_of_range in E. apply orb_true_iff in E as [E|E]; zbool.
    + eapply Forall_impl; [by apply Hlo|]. intros m ?. by left.
    + eapply Forall_impl; [by apply Hhi|]. intros m ?. by right.
  - destruct skip.
    + rewrite Hsk, (Hskip eq_refl). by apply IHl.
    + rewrite Hrd, IHl by done. by rewrite emit_Some.
Qed.

(** *** The recoverer *)

Lemma recover_sect fuel f x rest chs :
  readable x → ahead f = sect_bytes x ++ rest → (Z.of_nat (length (file f)) < 2 ^ 63)%Z →
  rpos f <= length (file f) → end_of_file_ f = false →
  let f2 := advance f (section_length + sect_size x) (end_of_file_ f) in
  recover_loop at_end (S fuel) f chs =
  match x with
  | SChannel c =>
      if mem_channel chs c then recover_loop at_end fuel f2 chs
      else emit [CallChannel c] (recover_loop at_end fuel f2 (chs ++ [name c]))
  | SHeader _ => recover_loop at_end fuel f2 chs
  | SBody b => emit (CallMessage <$> messages b) (recover_loop at_end fuel f2 chs)
  end.
Proof.
  intros Hr Ha Hf Hp He f2. destruct (read_sect f x rest Hr Ha Hf Hp) as (H1 & _ & _ & _ & H5).
  cbn [recover_loop]. rewrite H1, He. rewrite He in H5.
  destruct x as [c|h|b]; cbn [sect_type sect_read] in *; section_type; unfold f2; by rewrite H5, He.
Qed.

(** At the end of the file two rounds are enough. *)
Lemma recover_at_end fuel f chs : 1 < fuel → ahead f = [] → recover_loop at_end fuel f chs = Some (true, []).
Proof.
  intros Hfuel Ha. destruct fuel as [|[|fuel]]; [lia|lia|]. cbn [recover_loop]. destruct (end_of_file_ f); [done|].
  unfold ReadSection. rewrite Ha. by rewrite decide_True by done.
Qed.

(** All sections of a file with an index. *)
Lemma recover_whole index fuel f l chs :
  length l < fuel → end_of_file_ f = false → stands index f false l →
  recover_loop at_end fuel f chs = Some (true, recover_calls chs l).
Proof.
  revert f l chs. induction fuel as [|fuel IH]; intros f l chs Hfuel He Hst; [lia|]. destruct l as [|x l].
  { cbn [recover_loop]. rewrite He. destruct (stands_index _ _ Hst) as [f' ->]. by section_type. }
  destruct (stands_sect _ _ _ _ Hst) as (_ & _ & _ & Hst'). pose proof Hst as (Hf & Hp & _).
  apply stands_cons in Hst as (Hr & rest & Ha & _). rewrite (recover_sect fuel f x rest chs Hr Ha Hf Hp He).
  cbn in Hfuel. destruct x as [c|h|b]; cbn [recover_calls]; repeat case_match;
    rewrite (IH _ l) by (done || lia); by rewrite ?emit_Some.
Qed.

(** The sections that lie whole within the first [n] bytes. *)
Fixpoint whole (n : nat) (l : list Sect) : list Sect :=
  match l with
  | [] => []
  | x :: l => if length (sect_bytes x) <=? n then x :: whole (n - length (sect_bytes x)) l else []
  end.

Lemma whole_all n l : length (sects_bytes l) <= n → whole n l = l.
Proof.
  revert n. unfold sects_bytes. induction l as [|x l IH]; intros n Hn; [done|]. cbn in Hn |- *.
  rewrite length_app in Hn. rewrite (proj2 (Nat.leb_le _ _)) by lia. f_equal. apply IH. lia.
Qed.

Lemma whole_prefix n l : whole n l `prefix_of` l.
Proof.
  revert n. induction l as [|x l IH]; intros n; [done|]. cbn. case_match; [|apply prefix_nil].
  apply prefix_cons, IH.
Qed.

Context {TS : TornStream} {TC : TornCodec}.

(** The reader before a section that was cut off: it finds no whole section, or one
    whose message it cannot read; then nothing is left. *)
Lemma torn_message {T} `{Codec T} f (m : T) k :
  torn m → (Z.of_nat (ByteSizeLong m) < 2 ^ 31)%Z → k < ByteSizeLong m → ahead f = take k (encode m) →
  ∃ f', ReadSectionT (T := T) at_end f (Z.of_nat (ByteSizeLong m)) = (f', None) ∧ ahead f' = [].
Proof using TS CC CK CB.
  intros Ht Hm Hk Ha. unfold ReadSectionT. replace (_ || _)%bool with false
    by (symmetry; apply orb_false_iff; split; apply Z.ltb_ge; lia).
  assert (length (ahead f) = k) as Hl by (rewrite Ha, length_take; unfold ByteSizeLong in Hk; lia).
  rewrite taken_rest by lia. rewrite Ha.
  destruct (parse _ _) as [m'|] eqn:Ep.
  - specialize (Ht k m' Hk Ep). rewrite (proj2 (Z.eqb_neq _ _)) by lia. eexists. split; [done|].
    rewrite ahead_advance. apply drop_ge. rewrite Hl, length_take. unfold ByteSizeLong in Hk. lia.
  - eexists. split; [done|]. rewrite ahead_advance. apply drop_ge. rewrite Hl, length_take. unfold ByteSizeLong in Hk. lia.
Qed.

Lemma torn_section {T} `{Codec T} f type (m : T) k :
  torn m → is_i32 type → (Z.of_nat (ByteSizeLong m) < 2 ^ 31)%Z → k < length (section_of type m) →
  ahead f = take k (section_of type m) →
  (∃ f', ReadSection f = (f', None) ∧ ahead f' = []) ∨
  (∃ f1 f', ReadSection f = (f1, Some (type, Z.of_nat (ByteSizeLong m))) ∧
     ReadSectionT (T := T) at_end f1 (Z.of_nat (ByteSizeLong m)) = (f', None) ∧ ahead f' = []).
Proof using TS CC CK CB.
  intros Ht Hty Hm Hk Ha. destruct (decide (k < section_length)) as [Hlt|Hge].
  - left. assert (length (ahead f) = k) as Hl by (rewrite Ha, length_take; lia). unfold ReadSection. rewrite Hl.
    replace (section_length `min` k) with k by lia. case_decide as E; [|rewrite bool_decide_eq_false_2 by lia]; cbn [negb].
    + eexists. split; [done|]. rewrite ahead_advance. apply drop_ge. lia.
    + eexists. split; [done|]. rewrite ahead_advance. apply drop_ge. lia.
  - right. rewrite length_section_of in Hk. unfold section_of in Ha.
    rewrite take_app_ge in Ha by (rewrite length_Section_bytes; lia). rewrite length_Section_bytes in Ha.
    assert (is_i64 (Z.of_nat (ByteSizeLong m))) as Hi.
    { unfold is_i64. lia. }
    destruct (ReadSection_ahead f type (Z.of_nat (ByteSizeLong m)) _ Hty Hi Ha) as [H1 H2].
    assert (k - section_length < ByteSizeLong m) as Hk' by lia.
    destruct (torn_message _ m (k - section_length) Ht Hm Hk' H2) as (f' & H3 & H4).
    by exists (advance f section_length (end_of_file_ f)), f'.
Qed.

Lemma recover_cut_off fuel f x k chs :
  readable x → k < length (sect_bytes x) → ahead f = take k (sect_bytes x) → end_of_file_ f = false →
  to_go f < fuel → recover_loop at_end fuel f chs = Some (true, []).
Proof using TC TS.
  intros Hr Hk Ha He Hgo. unfold to_go in Hgo. rewrite He in Hgo.
  destruct (decide (ahead f = [])) as [E|E]; [apply recover_at_end; [lia|done]|].
  destruct (ahead f) as [|z zs] eqn:El; [done|]. cbn in Hgo. rewrite <- El in Ha. clear E El z.
  destruct fuel as [|fuel]; [lia|]. cbn [recover_loop]. rewrite He.
  destruct x as [c|h|b]; cbn [readable sect_bytes] in *.
  - destruct (torn_section f SECTION_CHANNEL c k) as [(f' & -> & H2)|(f1 & f' & -> & H2 & H3)]; try done;
      [apply channel_torn|apply recover_at_end; [lia|done]|]. section_type. rewrite H2. apply recover_at_end; [lia|done].
  - destruct Hr as [Hv Hm].
    destruct (torn_section f SECTION_CHUNK_HEADER h k) as [(f' & -> & H2)|(f1 & f' & -> & H2 & H3)]; try done;
      [by apply chunk_header_torn|apply recover_at_end; [lia|done]|]. section_type. rewrite H2. apply recover_at_end; [lia|done].
  - destruct Hr as (Hv & _ & Hm).
    destruct (torn_section f SECTION_CHUNK_BODY b k) as [(f' & -> & H2)|(f1 & f' & -> & H2 & H3)]; try done;
      [by apply body_torn|apply recover_at_end; [lia|done]|]. section_type. rewrite H2. apply recover_at_end; [lia|done].
Qed.

(** The sections of a file cut off after [n] bytes of them. *)
Lemma recover_torn_loop fuel f n l chs :
  to_go f < fuel → end_of_file_ f = false → Forall readable l → ahead f = take n (sects_bytes l) →
  (Z.of_nat (length (file f)) < 2 ^ 63)%Z → rpos f <= length (file f) →
  recover_loop at_end fuel f chs = Some (true, recover_calls chs (whole n l)).
Proof using TC TS SL RC.
  revert f n l chs. induction fuel as [|fuel IH]; intros f n l chs Hgo He Hr Ha Hf Hp; [lia|].
  destruct l as [|x l].
  { unfold sects_bytes in Ha. cbn in Ha. rewrite take_nil in Ha. apply recover_at_end; [|done].
    unfold to_go in Hgo. rewrite He in Hgo. lia. }
  apply Forall_cons in Hr as [Hx Hr]. unfold sects_bytes in Ha. cbn [fmap list_fmap concat whole] in *.
  destruct (length (sect_bytes x) <=? n) eqn:E; [apply Nat.leb_le in E|apply Nat.leb_gt in E].
  - rewrite take_app_ge in Ha by done. fold (sects_bytes l) in Ha.
    rewrite (recover_sect fuel f x _ chs Hx Ha Hf Hp He). destruct (read_sect f x _ Hx Ha Hf Hp) as (_ & _ & H3 & H4 & _).
    set (f2 := advance _ _ _) in *.
    assert (to_go f2 < fuel) as Hgo2.
    { unfold to_go in *. rewrite Ha, length_app, length_sect_bytes, He in Hgo.
      change (end_of_file_ f2) with (end_of_file_ f). rewrite H3, length_sect_bytes, He. unfold section_length in *. lia. }
    destruct x as [c|h|b]; cbn [recover_calls]; repeat case_match; rewrite (IH f2 _ l) by done; by rewrite ?emit_Some.
  - rewrite take_app_le in Ha by lia. by apply (recover_cut_off _ _ x n).
Qed.

End reading.

(** ** Proc *)

Section tools_write.
Context `{CH : Codec Header, CC : Codec Channel, CK : Codec ChunkHeader, CB : Codec ChunkBody, CI : Codec Index}.
Context {RC : RecordCodec} `{ST : Stream} {SL : StreamLaws}.
Context (at_end : FileReader → Z → bool).

(** The run [l] of the writer, from the tool's header to its end, makes a file with these
    messages and channels, and a reader returns the messages. *)
Definition reads_back (old : list Z) (l : list Ev) (ms : list SingleMessage) (cs : list Channel) : Prop :=
  let w := record_file None old GetHeader l in
  (Z.of_nat (length (bytes (w_fd w))) < 2 ^ 63)%Z →
  ∃ items, all_messages items ≡ₚ ms ∧ (prompt (opened old GetHeader) l = true → all_messages items = ms) ∧
    omap item_channel items = cs ∧
    (Forall item_readable items → (Z.of_nat (ByteSizeLong (final_index ms items)) < 2 ^ 31)%Z →
     ∃ r', read_all at_end (S (length ms)) (RecordReader_new at_end (Some (bytes (w_fd w)))) 0 (2 ^ 64 - 1) =
           Some (r', all_messages items)).

Lemma GetHeader_valid : valid_header GetHeader.
Proof. unfold valid_header, is_u32, is_i32, GetHeader. cbn. rewrite !Forall_cons. unfold is_u64. split_and!; try done; lia. Qed.

Lemma performs_reads_back old l calls :
  performs l calls → Forall valid_message (call_messages calls) →
  (Z.of_nat (length (call_messages calls)) < 2 ^ 64)%Z →
  reads_back old l (call_messages calls) (call_channels calls).
Proof.
  intros Hl. rewrite <- (performs_messages _ _ Hl), <- (performs_channels _ _ Hl). intros Hm Hn.
  unfold reads_back. intros Hlen.
  destruct (finished_shows at_end (λ b e, b = 0 ∧ e = 2 ^ 64 - 1)%Z old GetHeader l GetHeader_valid Hm Hn Hlen)
    as (items & Hp & Ho & Hch & _ & Hmi & Hvf & _ & Hread).
  exists items. split_and!; try done. intros Hr Hi. destruct (Hread Hr Hi) as [Hnew Hs]. specialize (Hs ltac:(by left)).
  apply (shown_whole at_end _ _ _ _ _ Hs); [by rewrite Hnew|done|]. apply Permutation_length in Hp. lia.
Qed.

(** The file reader after [Reset()], and the one of a valid record reader after [Open()]. *)
Lemma Reset_start f : (FileReader_Reset f).1 = mkFileReader (file f) start false (r_header_ f) (r_index_ f).
Proof. unfold FileReader_Reset. by rewrite SetPosition_of_nat. Qed.

Lemma valid_opened bs r :
  RecordReader_new at_end (Some bs) = r → is_valid_ r = true →
  ∃ f, FileReader_Open at_end (Some bs) = (f, true) ∧ r_header_ f = header_ r ∧ file f = bs ∧
    (if (ReadIndex at_end f).2 then r_index_ (ReadIndex at_end f).1 else []) = index_ r.
Proof.
  pose proof (Open_file at_end bs) as Hf. intros <-. unfold RecordReader_new.
  destruct (FileReader_Open at_end (Some bs)) as [f []]; [|done]. intros _. exists f. split; [done|].
  split; [|split; [done|]]; by destruct (ReadIndex at_end f) as [g []].
Qed.

(** [C34] Splitting a record whose messages were recorded in the order of their times,
    none at time zero, by a writer whose flush thread kept up with the chunks: the spliter
    writes exactly the messages of the channels its lists select, within its times, and
    exactly the channels the lists select, each in the order recorded, though it skips
    chunks by their headers; it refuses a time range before the output is opened only if
    no message lies in it.  Its output file, however the flush thread ran, reads back as
    these messages.  (Without the last proviso it may refuse a range that has messages:
    [late_flush_refuses_range].) *)
Theorem split_copies_window (s : Spliter) (old : list Z) (h0 : Header) (l : list Ev) :
  let w := record_file None old h0 l in
  let written := ev_messages l in
  let bs := bytes (w_fd w) in
  params_ok s = true → valid_header h0 → h_begin_time h0 = 0%Z → Forall valid_message written →
  (Z.of_nat (length written) < 2 ^ 64)%Z → (Z.of_nat (length bs) < 2 ^ 63)%Z →
  StronglySorted (λ m n, (time m <= time n)%Z) written → Forall (λ m, (0 < time m)%Z) written →
  prompt (opened old h0) l = true →
  ∃ items, all_messages items = written ∧
    (Forall item_readable items → (Z.of_nat (ByteSizeLong (final_index written items)) < 2 ^ 31)%Z →
     ∃ o, Spliter_Proc at_end (length bs) s (Some bs) true true = Some o ∧
     match output o with
     | None => returned o = false ∧ filter (in_range s) written = []
     | Some calls =>
         let wanted := filter (λ m, selected s (channel_name m) && in_range s m) written in
         let channels := filter (λ c, selected s (name c)) (ev_channels l) in
         returned o = true ∧ ∃ calls', calls = CallHeader GetHeader :: calls' ∧
         call_messages calls' = wanted ∧ call_channels calls' = channels ∧
         ∀ old' l', performs l' calls' → reads_back old' l' wanted channels
     end).
Proof.
  intros w written bs Hs Hv Hbt Hm Hl Hlen Hsort Hpos Hpr.
  destruct (finished_shows at_end (λ b e, b = begin_time_ s ∧ e = end_time_ s)%Z old h0 l Hv Hm Hl Hlen)
    as (items & _ & Ho & Hch & Hc & Hmi & Hvf & Hsz & Hread). specialize (Ho Hpr). fold written w bs in Ho, Hvf, Hread.
  exists items. split; [done|]. intros Hr Hi. destruct (Hread Hr Hi) as [Hnew Hsh]. specialize (Hsh ltac:(by right)).
  set (h := final_header h0 items _) in *. rewrite <- Ho in Hsort, Hpos.
  pose proof (header_spans h0 items Hbt Hc Hpos Hsort) as Hspan. rewrite Ho in Hspan.
  destruct (valid_opened bs _ Hnew eq_refl) as (f & Hf1 & Hf2 & Hf3 & _). cbn [header_] in Hf2.
  destruct Hsh as (_ & Hst & Hp & _). rewrite Hnew in Hst. cbn [file_reader_ reach_end_] in Hst.
  unfold Spliter_Proc. rewrite Hs, Hf1, Hf2, Reset_start, Hf3. cbn [negb].
  change (h_begin_time h) with (h_begin_time (foldl count_item h0 items)).
  change (h_end_time h) with (h_end_time (foldl count_item h0 items)).
  destruct (out_of_range s _ _) eqn:Er.
  { eexists. split; [done|]. split; [done|]. apply filter_none. intros m Hx. rewrite Forall_forall in Hspan.
    specialize (Hspan m Hx). unfold out_of_range in Er. apply orb_true_iff in Er. unfold in_range.
    rewrite Is_true_true. intros Hin. zbool. destruct Er; zbool; lia. }
  pose proof (stands_length _ _ _ _ Hst) as Hfuel. cbn [file] in Hfuel.
  rewrite (split_loop_spec at_end (final_index written items) s _ _ false (sects_of items)); try done;
    [|unfold params_ok in Hs; zbool; lia|lia].
  eexists. split; [done|]. split; [done|]. exists (split_calls s (sects_of items)).
  assert (call_messages (split_calls s (sects_of items)) =
    filter (λ m, selected s (channel_name m) && in_range s m) written) as Hcm
    by (by rewrite split_messages, sects_of_messages, Ho).
  assert (call_channels (split_calls s (sects_of items)) = filter (λ c, selected s (name c)) (ev_channels l)) as Hcc
    by (by rewrite split_channels, sects_of_channels, Hch).
  split_and!; try done. rewrite <- Hcm, <- Hcc. intros old' l' Hl'. apply performs_reads_back; [done|..]; rewrite Hcm.
  - apply Forall_forall. intros m [_ Hx]%list_elem_of_filter. by eapply Forall_forall in Hm.
  - pose proof (length_filter (λ m, selected s (channel_name m) && in_range s m) written). lia.
Qed.

(** *** Recovering *)

Lemma find_In ch l : find ch l = true ↔ ch ∈ l.
Proof.
  unfold find. rewrite existsb_exists. split.
  - intros (x & Hx & ->%String.eqb_eq). by apply list_elem_of_In.
  - intros Hx. exists ch. rewrite String.eqb_refl. split; [by apply list_elem_of_In|done].
Qed.

(** Every channel is known after the fresh ones are. *)
Lemma fresh_known chs l c : name c ∈ chs ∨ c ∈ l → mem_channel (chs ++ (name <$> fresh chs l)) c = true.
Proof.
  unfold mem_channel. rewrite find_In. revert chs. induction l as [|d l IH]; intros chs; cbn [fresh].
  - rewrite app_nil_r. intros [H|H]; [done|by apply not_elem_of_nil in H].
  - rewrite elem_of_cons. destruct (mem_channel chs d) eqn:Ed; unfold mem_channel in Ed.
    + rewrite find_In in Ed. intros [H|[->|H]]; apply IH; by (left + right).
    + cbn [fmap list_fmap]. rewrite cons_middle, app_assoc.
      intros H. apply IH. rewrite elem_of_app, list_elem_of_singleton. destruct H as [H|[->|H]]; auto.
Qed.

Lemma recover_known chs l :
  (∀ c, c ∈ omap sect_channel l → mem_channel chs c = true) → call_channels (recover_calls chs l) = [].
Proof.
  rewrite recover_channels. induction (omap sect_channel l) as [|c cs IH]; intros H; [done|]. cbn [fresh].
  rewrite (H c) by (by left). apply IH. intros d Hd. apply H. by right.
Qed.

(** The channels of a finished file's index are those of the file. *)
Lemma count_entry_channel written p n nm t d :
  ∃ k, count_entry written (mkIndex SECTION_CHANNEL p (Some (channel_cache (mkChannelCache n nm t d)))) =
    mkIndex SECTION_CHANNEL p (Some (channel_cache (mkChannelCache k nm t d))).
Proof.
  unfold count_entry. cbn [type_ cache]. rewrite Z.eqb_refl. cbn [cc_name].
  destruct (number_of nm written) as [k|]; eauto.
Qed.

Lemma index_channels_spec chs written p items :
  index_channels chs (count_entry written <$> items_index p items) =
  (chs ++ (name <$> fresh chs (omap item_channel items)), CallChannel <$> fresh chs (omap item_channel items)).
Proof.
  revert chs p. induction items as [|[c|h b] items IH]; intros chs p; cbn [items_index item_index app omap list_omap item_channel].
  - cbn. by rewrite app_nil_r.
  - cbn [fmap list_fmap fresh]. destruct (count_entry_channel written (Z.of_nat p) 0 (name c) (message_type c) (proto_desc c)) as [k ->].
    cbn [index_channels type_ cache cc_name cc_message_type cc_proto_desc]. rewrite Z.eqb_refl. cbn [negb].
    replace (mkChannel (name c) (message_type c) (proto_desc c)) with c by (by destruct c).
    destruct (mem_channel chs c); rewrite IH; [done|]. cbn. by rewrite <- app_assoc.
  - cbn [fmap list_fmap index_channels]. unfold count_entry at 1 2. cbn [type_ cache]. cbn. apply IH.
Qed.

(** The calls of the loop write what the sections hold. *)
Lemma recovered_reads_back old l kept ms :
  performs l (recover_calls [] kept) → sects_messages kept `prefix_of` ms → Forall valid_message ms →
  (Z.of_nat (length ms) < 2 ^ 64)%Z →
  reads_back old l (sects_messages kept) (fresh [] (omap sect_channel kept)).
Proof.
  intros Hl [rest ->] Hm Hn. rewrite Forall_app, length_app in *.
  rewrite <- (recover_messages [] kept), <- recover_channels. apply performs_reads_back; [done|..]; rewrite recover_messages;
    [apply Hm|lia].
Qed.

(** Recovering a finished record: the recoverer returns true and writes exactly the
    messages of the file, in its order, and each channel once, found by the index.  Its
    output file reads back as these messages. *)
Theorem recover_finished_file (old : list Z) (h0 : Header) (l : list Ev) :
  let w := record_file None old h0 l in
  let written := ev_messages l in
  let bs := bytes (w_fd w) in
  valid_header h0 → Forall valid_message written →
  (Z.of_nat (length written) < 2 ^ 64)%Z → (Z.of_nat (length bs) < 2 ^ 63)%Z →
  ∃ items, all_messages items ≡ₚ written ∧ (prompt (opened old h0) l = true → all_messages items = written) ∧
    (Forall item_readable items → (Z.of_nat (ByteSizeLong (final_index written items)) < 2 ^ 31)%Z →
     ∃ calls, Recoverer_Proc at_end (length bs) (Some bs) true true =
       Some (mkOutcome true (Some (CallHeader GetHeader :: calls))) ∧
     call_messages calls = all_messages items ∧ call_channels calls = fresh [] (ev_channels l) ∧
     ∀ old' l', performs l' calls → reads_back old' l' (call_messages calls) (call_channels calls)).
Proof.
  intros w written bs Hv Hm Hl Hlen.
  destruct (finished_shows at_end (λ b e, b = 0 ∧ e = 2 ^ 64 - 1)%Z old h0 l Hv Hm Hl Hlen)
    as (items & Hp & Ho & Hch & Hc & Hmi & _ & _ & Hread). fold written w bs in Hp, Ho, Hread.
  exists items. split; [done|]. split; [done|]. intros Hr Hi. destruct (Hread Hr Hi) as [Hnew Hsh].
  destruct (Hsh ltac:(by left)) as (_ & Hst & _). rewrite Hnew in Hst. cbn [file_reader_ reach_end_] in Hst.
  destruct (valid_opened bs _ Hnew eq_refl) as (f & Hf1 & _ & Hf3 & Hix). cbn [index_] in Hix.
  pose proof (ReadIndex_file at_end f) as Hg. pose proof (stands_length _ _ _ _ Hst) as Hfuel. cbn [file] in Hfuel.
  unfold Recoverer_Proc. rewrite Hf1. destruct (ReadIndex at_end f) as [g found]. cbn [fst snd] in *.
  replace (if found then index_channels [] (r_index_ g) else ([], []))
    with (index_channels [] (if found then r_index_ g else [])) by (by destruct found).
  rewrite Hix. unfold final_index. rewrite index_channels_spec, Hch. cbn [app].
  set (known := name <$> fresh [] (ev_channels l)). rewrite Reset_start, Hg, Hf3. cbn [with_output negb].
  rewrite (recover_whole at_end (final_index written items) (length bs) _ (sects_of items) known); [|lia|done|done].
  rewrite emit_Some. eexists. split; [done|].
  assert (call_messages ((CallChannel <$> fresh [] (ev_channels l)) ++ recover_calls known (sects_of items)) = all_messages items) as Hcm
    by (rewrite call_messages_app, recover_messages, sects_of_messages, call_messages_channels; done).
  rewrite Hcm. split; [done|]. split; [|intros old' l' Hl'; rewrite <- Hcm; apply performs_reads_back; [done|..]; rewrite Hcm;
    [done|by rewrite Hp]].
  rewrite call_channels_app, call_channels_channels, recover_known; [by rewrite app_nil_r|].
  rewrite sects_of_channels, Hch. intros c Hin. apply (fresh_known [] (ev_channels l)). by right.
Qed.

Context {TS : TornStream} {TC : TornCodec}.

(** A file without an index, cut off behind its header. *)
Lemma recover_torn_bytes h items k rest :
  valid_header h → is_complete h = false → Forall readable (sects_of items) →
  let bs := header_section h ++ take k (items_bytes items) in
  (Z.of_nat (length bs) < 2 ^ 63)%Z → length bs + 1 < rest →
  Recoverer_Proc at_end rest (Some bs) true true =
  Some (mkOutcome true (Some (CallHeader GetHeader :: recover_calls [] (whole k (sects_of items))))).
Proof.
  intros Hv Hc Hr bs Hlen Hfuel. unfold Recoverer_Proc.
  destruct (ReadHeader_spec at_end h (take k (items_bytes items)) Hv) as [eof He]. fold bs in He. rewrite He.
  unfold ReadIndex. cbn [r_header_]. rewrite Hc. cbn [negb]. rewrite Reset_start. cbn [file r_header_ r_index_ with_output].
  destruct (header_length h Hv) as [_ Hmax].
  set (f := mkFileReader _ _ _ _ _).
  assert (ahead f = take k (sects_bytes (sects_of items))) as Ha.
  { unfold ahead, f. cbn [file rpos]. unfold bs. rewrite drop_app_length' by (rewrite length_header_section by lia; done).
    by rewrite sects_of_bytes. }
  rewrite (recover_torn_loop at_end rest f k (sects_of items) []); try done.
  - unfold to_go. rewrite ahead_length. change (end_of_file_ f) with false. change (file f) with bs. cbv iota. lia.
  - change (file f) with bs. change (rpos f) with start. unfold bs. rewrite length_app, length_header_section by lia.
    unfold start. lia.
Qed.

Lemma sects_messages_prefix l k : l `prefix_of` k → sects_messages l `prefix_of` sects_messages k.
Proof. intros [r ->]. unfold sects_messages. rewrite fmap_app, concat_app. by apply prefix_app_r. Qed.

(** [C7] Recovering a torn record: if a process recording to a new file dies at any
    moment and any part of the file behind its header is lost, the recoverer returns true
    and writes exactly the messages of the chunk bodies that lie whole in what is left, in
    the file's order: recorded messages, none more often than it was recorded; all that
    had been flushed if nothing of the file is lost; and, if the flush thread kept up with
    the chunks, the first ones recorded, in the order recorded (otherwise a later chunk
    may be saved and an earlier one lost: [recover_late_flush]; and for a file that is
    not new: [recover_stale_file]).  It writes each channel found, once.  Its output file
    is a complete record that reads back as these messages. *)
Theorem recover_torn_file (h0 : Header) (l : list Ev) (k : nat) :
  let w := evs None (opened [] h0) l in
  let written := ev_messages l in
  let unflushed := c_body (chunk_flush_ w) ++ c_body (chunk_active_ w) in
  let bs := take k (bytes (w_fd w)) in
  valid_header h0 → is_complete h0 = false → Forall valid_message written →
  (Z.of_nat (length written) < 2 ^ 64)%Z → (Z.of_nat (length (bytes (w_fd w))) < 2 ^ 63)%Z →
  start <= k →
  ∃ items, bytes (w_fd w) = header_section h0 ++ items_bytes items ∧
    all_messages items ++ unflushed ≡ₚ written ∧
    (prompt (opened [] h0) l = true → all_messages items ++ unflushed = written) ∧
    omap item_channel items = ev_channels l ∧
    (Forall item_readable items →
     let kept := whole (k - start) (sects_of items) in
     ∃ calls, Recoverer_Proc at_end (length bs + 2) (Some bs) true true =
       Some (mkOutcome true (Some (CallHeader GetHeader :: calls))) ∧
     call_messages calls = sects_messages kept ∧
     (∃ lost, call_messages calls ++ lost ++ unflushed ≡ₚ written) ∧
     (prompt (opened [] h0) l = true → call_messages calls `prefix_of` written) ∧
     (length (bytes (w_fd w)) <= k → call_messages calls = all_messages items) ∧
     call_channels calls = fresh [] (omap sect_channel kept) ∧
     ∀ old' l', performs l' calls → reads_back old' l' (call_messages calls) (call_channels calls)).
Proof.
  intros w written unflushed bs Hv Hc Hm Hl Hlen Hk.
  destruct (held_evs true [] h0 [] [] [] _ l (held_opened [] h0 Hv) Hl) as [items Hh].
  cbn [app andb] in Hh. fold w in Hh. destruct Hh as [[(hs & Hhs & Hfd & ->) _ _] Hit _ _ Hp Ho _ Hch _].
  fold written unflushed in Ho, Hp. rewrite drop_nil, app_nil_r in Hfd.
  assert (bytes (w_fd w) = header_section h0 ++ items_bytes items) as Hb by (by rewrite Hfd).
  exists items. split_and!; try done. intros Hr kept.
  assert (bs = header_section h0 ++ take (k - start) (items_bytes items)) as Hbs
    by (unfold bs; rewrite Hb, take_app_ge, Hhs by lia; done).
  rewrite <- Hp, Forall_app in Hm. destruct Hm as [Hmi _].
  assert (sects_messages kept `prefix_of` all_messages items) as Hpre.
  { rewrite <- sects_of_messages. apply sects_messages_prefix, whole_prefix. }
  exists (recover_calls [] kept). rewrite recover_messages, recover_channels. split_and!; try done.
  - rewrite Hbs. apply recover_torn_bytes; [done|done|by apply sects_of_readable| |lia].
    rewrite <- Hbs. unfold bs. rewrite length_take. lia.
  - destruct Hpre as [lost Hlost]. exists lost. by rewrite app_assoc, <- Hlost.
  - intros Hpr. rewrite <- (Ho Hpr). by apply prefix_app_r.
  - intros Hall. unfold kept. rewrite whole_all; [apply sects_of_messages|]. rewrite sects_of_bytes.
    rewrite Hb, length_app, Hhs in Hall. lia.
  - intros old' l' Hl'. apply (recovered_reads_back _ _ _ (all_messages items)); try done.
    apply Permutation_length in Hp. rewrite length_app in Hp. lia.
Qed.

End tools_write.

(** ** Examples *)

Module ToolSample.
Import RecordReader.Sample.

Lemma of_bytes_torn {T} `{Countable T} (m : T) k :
  k < length (to_bytes m) → of_bytes (T := T) (Z.of_nat (length (to_bytes m))) (take k (to_bytes m)) = None.
Proof.
  intros Hk. unfold of_bytes. rewrite (proj2 (Z.ltb_lt _ _)); [done|]. rewrite length_take. lia.
Qed.

Lemma to_bytes_torn {T} `{Countable T} (m : T) :
  torn (H := {| encode := to_bytes; parse := of_bytes |}) m.
Proof. intros k m' Hk Hp. change (of_bytes (Z.of_nat (length (to_bytes m))) (take k (to_bytes m)) = Some m') in Hp. by rewrite of_bytes_torn in Hp. Qed.

#[export] Instance torn_codec_s : TornCodec.
Proof. split; intros; apply to_bytes_torn. Qed.
#[export] Instance torn_stream_s : TornStream.
Proof. split. intros n rest H. cbn. lia. Qed.

(** The finished file of [run] without the channel "b", and its messages before 25; the
    file as the process left it when it died after the run, but for its last byte: the
    second message's chunk is lost. *)
Definition no_b : Spliter := mkSpliter [] ["b"] 5 25.
Definition run_file : list Z := bytes (w_fd (record_file None [] header0 run)).
Definition dead_file : list Z :=
  bytes (w_fd (evs None (opened [] header0) (EvMessage false m2 :: EvFlush :: EvMessage false m2 :: EvFlush :: run))).

Example split_run :
  Spliter_Proc never_at_end (length run_file) no_b (Some run_file) true true =
  Some (mkOutcome true (Some [CallHeader GetHeader; CallChannel (mkChannel "a" "T" "d"); CallMessage m1])).
Proof. vm_compute. done. Qed.

Example recover_dead :
  (λ o, call_messages (default [] (output o))) <$> Recoverer_Proc never_at_end (length dead_file + 2) (Some (take (length dead_file - 1) dead_file)) true true =
  Some [m2; m2].
Proof. vm_compute. done. Qed.

(** Two messages that fill a chunk each, and one flush after both: the second message
    swaps the chunks before the first one's is written. *)
Definition six (t : Z) : SingleMessage := mkMessage "c" t [1; 2; 3; 4; 5; 6]%Z.
Definition late : list Ev := [EvMessage false (six 10); EvMessage false (six 20); EvFlush].

(** A chunk body whose size leads back to the chunk header before it. *)
Definition spin_header : Header := with_counts header0 0 0 0 1 30 0 0 false.
Definition spin_chunk : ChunkHeader := mkChunkHeader 1 5 1 1.
Definition spin_size : Z := - Z.of_nat (length (section_of SECTION_CHUNK_HEADER spin_chunk) + section_length).
Definition spin_file : list Z :=
  header_section spin_header ++ section_of SECTION_CHUNK_HEADER spin_chunk ++ Section_bytes SECTION_CHUNK_BODY spin_size.
Definition spin_split : Spliter := mkSpliter [] [] 10 20.

End ToolSample.
Import RecordReader.Sample ToolSample.

(** A reader at the start of the sections of [spin_file], and one behind its chunk header. *)
Definition spin_reader : FileReader := mkFileReader spin_file start false spin_header [].
Definition spin_next : FileReader :=
  advance spin_reader (section_length + ByteSizeLong spin_chunk) false.

Lemma spin_round fuel :
  split_loop never_at_end fuel spin_split spin_reader false = None ∧ split_loop never_at_end fuel spin_split spin_next true = None.
Proof.
  induction fuel as [|fuel [IH1 IH2]]; [done|]. split; cbn [split_loop].
  - assert (ReadSection spin_reader = (advance spin_reader section_length false,
      Some (SECTION_CHUNK_HEADER, Z.of_nat (ByteSizeLong spin_chunk)))) as -> by (vm_compute; done).
    assert (ReadSectionT never_at_end (advance spin_reader section_length false) (Z.of_nat (ByteSizeLong spin_chunk)) =
      (spin_next, Some spin_chunk)) as Hr by (vm_compute; done).
    change (end_of_file_ spin_reader) with false. cbv iota beta. section_type.
    rewrite Hr. exact IH2.
  - assert (ReadSection spin_next = (advance spin_next section_length false,
      Some (SECTION_CHUNK_BODY, spin_size))) as -> by (vm_compute; done).
    assert ((SkipSection (advance spin_next section_length false) spin_size).1 = spin_reader) as Hr by (vm_compute; done).
    change (end_of_file_ spin_next) with false. cbv iota beta. section_type.
    rewrite Hr. exact IH1.
Qed.

(** The spliter need not end: where a chunk that is skipped has a body whose size leads
    back to the chunk's header, it goes round for ever, however long it runs. *)
Theorem spliter_spins (fuel : nat) :
  Spliter_Proc never_at_end fuel spin_split (Some spin_file) true true = None.
Proof.
  unfold Spliter_Proc. assert (params_ok spin_split = true) as -> by done.
  assert (FileReader_Open never_at_end (Some spin_file) = (spin_reader, true)) as -> by (vm_compute; done).
  assert (out_of_range spin_split (h_begin_time (r_header_ spin_reader)) (h_end_time (r_header_ spin_reader)) = false)
    as -> by done.
  assert ((FileReader_Reset spin_reader).1 = spin_reader) as -> by (vm_compute; done).
  unfold with_output. cbn [negb]. by rewrite (proj1 (spin_round fuel)).
Qed.

(** A flush thread that comes too late puts a later chunk in the file before an earlier
    one: if the process dies then, the recoverer saves the second message and not the
    first. *)
Theorem recover_late_flush :
  (λ o, call_messages (default [] (output o))) <$>
    Recoverer_Proc never_at_end 10000 (Some (bytes (w_fd (evs None (opened [] header0) late)))) true true =
  Some [six 20].
Proof. vm_compute. done. Qed.

(** The writer does not truncate the file it opens (no O_TRUNC): if it dies soon after
    it opened an older record, the recoverer returns the messages of the older one. *)
Theorem recover_stale_file :
  (λ o, call_messages (default [] (output o))) <$>
    Recoverer_Proc never_at_end 10000 (Some (bytes (w_fd (evs None (opened run_file header0) [])))) true true =
  Some [m1; m2; m3].
Proof. vm_compute. done. Qed.

(** On the finished file of the late run the chunks are out of order and its header
    says it ends with the first message: the spliter refuses a range in which the second
    one lies. *)
Theorem late_flush_refuses_range :
  Spliter_Proc never_at_end 10000 (mkSpliter [] [] 15 25) (Some (bytes (w_fd (record_file None [] header0 late)))) true true =
    Some (mkOutcome false None) ∧
  filter (in_range (mkSpliter [] [] 15 25)) (ev_messages late) = [six 20].
Proof. vm_compute. done. Qed.

Lemma split_copies_window_witness :
  ∃ items, all_messages items = [Sample.m1; Sample.m2; Sample.m3] ∧
    (Forall item_readable items →
     (Z.of_nat (ByteSizeLong (final_index (ev_messages Sample.run) items)) < 2 ^ 31)%Z →
     ∃ o, Spliter_Proc never_at_end (length run_file) no_b (Some run_file) true true = Some o).
Proof.
  destruct (split_copies_window never_at_end no_b [] Sample.header0 Sample.run) as (items & H1 & H2).
  - reflexivity.
  - apply Sample.header0_valid.
  - reflexivity.
  - apply Sample.run_valid.
  - reflexivity.
  - vm_compute. reflexivity.
  - repeat constructor; cbn; lia.
  - repeat constructor; cbn; lia.
  - vm_compute. reflexivity.
  - exists items. split; [exact H1|]. intros Hr Hi. destruct (H2 Hr Hi) as (o & Ho & _). exists o. exact Ho.
Defined.

Lemma recover_torn_file_witness :
  ∃ items, all_messages items `prefix_of` [Sample.m1; Sample.m2; Sample.m3] ∧
    (Forall item_readable items → ∃ calls,
     let bs := take 2100 (bytes (w_fd (evs None (opened [] Sample.header0) Sample.run))) in
     Recoverer_Proc never_at_end (length bs + 2) (Some bs) true true =
       Some (mkOutcome true (Some (CallHeader GetHeader :: calls))) ∧
     call_messages calls `prefix_of` [Sample.m1; Sample.m2; Sample.m3]).
Proof.
  destruct (recover_torn_file never_at_end Sample.header0 Sample.run 2100) as (items & _ & _ & H1 & _ & H2).
  - apply Sample.header0_valid.
  - reflexivity.
  - apply Sample.run_valid.
  - reflexivity.
  - vm_compute. reflexivity.
  - unfold start, HEADER_LENGTH, section_length. lia.
  - assert (prompt (opened [] Sample.header0) Sample.run = true) as Hp by (vm_compute; reflexivity).
    specialize (H1 Hp). exists items. split; [eexists; symmetry; exact H1|]. intros Hr.
    destruct (H2 Hr) as (calls & H3 & _ & _ & H5 & _). exists calls. split; [exact H3|]. exact (H5 Hp).
Defined.

Lemma recover_finished_file_witness :
  ∃ items, all_messages items ≡ₚ [Sample.m1; Sample.m2; Sample.m3] ∧
    (Forall item_readable items →
     (Z.of_nat (ByteSizeLong (final_index (ev_messages Sample.run) items)) < 2 ^ 31)%Z →
     ∃ calls, Recoverer_Proc never_at_end (length run_file) (Some run_file) true true =
       Some (mkOutcome true (Some (CallHeader GetHeader :: calls))) ∧
       call_channels calls = [mkChannel "a" "T" "d"]).
Proof.
  destruct (recover_finished_file never_at_end [] Sample.header0 Sample.run) as (items & H1 & _ & H2).
  - apply Sample.header0_valid.
  - apply Sample.run_valid.
  - reflexivity.
  - vm_compute. reflexivity.
  - exists items. split; [exact H1|]. intros Hr Hi. destruct (H2 Hr Hi) as (calls & H3 & _ & H4 & _).
    exists calls. split; [exact H3|exact H4].
Defined.
