(* ===== verification/RecordSegments.v ===== *)
(** * RecordWriter: channels and segments (cyber/record/record_writer)

    The record writer keeps the channels it has seen and cuts the messages into files:
    when a segment has become too long or too large, its file is closed and a new one
    opened, which gets all channels again.  The files closed so far are kept in order
    with their contents; the date in a file's name, whether a path can be opened and
    what it held are arguments. *)

From stdpp Require Import base numbers list gmap strings pretty.
From Stdlib Require Import ZArith Lia.
From S2P Require Import Prelude WireFormat RecordFile RecordWriter RecordReader.

Open Scope nat_scope.

Record RecordWriter := mkRecordWriter {
  header_ : Header; file_ : string; is_opened_ : bool; path_ : string;
  segment_raw_size_ : Z; segment_begin_time_ : Z; file_index_ : Z;
  numbers_ : gmap string Z; types_ : gmap string string; descs_ : gmap string string;
  file_writer_ : FileWriter; closed : list (string * list Z)
}.

(** [RecordWriter(header)]; the default constructor takes [GetHeader]. *)
Definition RecordWriter_new (header : Header) : RecordWriter :=
  mkRecordWriter header EmptyString false EmptyString 0 0 0 ∅ ∅ ∅ FileWriter_new [].

(** [std::setw(5) << std::setfill('0')]. *)
Fixpoint zeros (n : nat) : string := match n with O => EmptyString | S n => ("0" +:+ zeros n)%string end.
Definition padded (n : Z) : string :=
  let s := pretty n in (zeros (5 - String.length s) +:+ s)%string.
Definition segment_path (file : string) (index : Z) (date : string) : string :=
  (file +:+ "." +:+ padded index +:+ "." +:+ date)%string.

Section segments.
Context (room : Room).
Context `{CH : Codec Header, CC : Codec Channel, CK : Codec ChunkHeader, CB : Codec ChunkBody, CI : Codec Index}.
Context (can_open : string → bool) (held_before : string → list Z).

(** What a path holds now. *)
Definition holds (w : RecordWriter) (path : string) : list Z :=
  match filter (λ '(p, _), p = path) (reverse (closed w)) with
  | (_, bs) :: _ => bs
  | [] => held_before path
  end.

(** The current file is closed. *)
Definition close_file (w : RecordWriter) : list (string * list Z) :=
  closed w ++ [(path_ w, bytes (w_fd (Close room (file_writer_ w))))].

(** [Open(file)] at this date. *)
Definition RW_Open (w : RecordWriter) (file date : string) : RecordWriter * bool :=
  let path := if ((0 <? segment_interval (header_ w)) || (0 <? segment_raw_size (header_ w)))%Z
              then segment_path file 0 date else file in
  let mk o fw c := mkRecordWriter (header_ w) file o path (segment_raw_size_ w) (segment_begin_time_ w) 1
                   (numbers_ w) (types_ w) (descs_ w) fw c in
  match Open FileWriter_new (can_open path) (holds w path) with
  | (fw, false) => (mk (is_opened_ w) fw (closed w), false)
  | (fw, true) =>
      match WriteHeader room fw (header_ w) with
      | (fw, false) =>
          (mk (is_opened_ w) (Close room fw) (closed w ++ [(path, bytes (w_fd (Close room fw)))]), false)
      | (fw, true) => (mk true fw (closed w), true)
      end
  end.

Definition RW_Close (w : RecordWriter) : RecordWriter :=
  if is_opened_ w then
    mkRecordWriter (header_ w) (file_ w) false (path_ w) (segment_raw_size_ w) (segment_begin_time_ w) (file_index_ w)
      (numbers_ w) (types_ w) (descs_ w) (Close room (file_writer_ w)) (close_file w)
  else w.

(** The channels are written again, in the order of the map, until one fails. *)
Fixpoint write_channels (fw : FileWriter) (chs : list Channel) : FileWriter * bool :=
  match chs with
  | [] => (fw, true)
  | c :: chs =>
      match WriteChannel room fw c with
      | (fw, true) => write_channels fw chs
      | (fw, false) => (fw, false)
      end
  end.

Definition known_channels (w : RecordWriter) : list Channel :=
  (λ ch, mkChannel ch (default EmptyString (types_ w !! ch)) (default EmptyString (descs_ w !! ch))) <$>
    (map_to_list (numbers_ w)).*1.

(** [SplitOutfile()]: a new file, after the current one was closed. *)
Definition SplitOutfile (w : RecordWriter) (date : string) : RecordWriter * bool :=
  let index := if (99999 <? file_index_ w)%Z then 0%Z else file_index_ w in
  let path := segment_path (file_ w) index date in
  let mk fw := mkRecordWriter (header_ w) (file_ w) (is_opened_ w) path 0 0 (u32 (index + 1))
                 (numbers_ w) (types_ w) (descs_ w) fw (closed w) in
  match Open FileWriter_new (can_open path) (holds w path) with
  | (fw, false) => (mk fw, false)
  | (fw, true) =>
      match WriteHeader room fw (header_ w) with
      | (fw, false) => (mk fw, false)
      | (fw, true) => let '(fw, ok) := write_channels fw (known_channels w) in (mk fw, ok)
      end
  end.

Definition IsNewChannel (w : RecordWriter) (ch : string) : bool := bool_decide (numbers_ w !! ch = None).

Definition set_file_writer (w : RecordWriter) (fw : FileWriter) : RecordWriter :=
  mkRecordWriter (header_ w) (file_ w) (is_opened_ w) (path_ w) (segment_raw_size_ w) (segment_begin_time_ w)
    (file_index_ w) (numbers_ w) (types_ w) (descs_ w) fw (closed w).

(** [OnNewChannel]. *)
Definition OnNewChannel (w : RecordWriter) (ch message_type proto_desc : string) : RecordWriter :=
  mkRecordWriter (header_ w) (file_ w) (is_opened_ w) (path_ w) (segment_raw_size_ w) (segment_begin_time_ w)
    (file_index_ w) (<[ch := 0%Z]> (numbers_ w)) (<[ch := message_type]> (types_ w)) (<[ch := proto_desc]> (descs_ w))
    (file_writer_ w) (closed w).

Definition RW_WriteChannel (w : RecordWriter) (ch message_type proto_desc : string) : RecordWriter * bool :=
  if IsNewChannel w ch then
    let w := OnNewChannel w ch message_type proto_desc in
    let '(fw, ok) := WriteChannel room (file_writer_ w) (mkChannel ch message_type proto_desc) in
    (set_file_writer w fw, ok)
  else (w, true).

(** [OnNewMessage]: only channels that were written are counted. *)
Definition OnNewMessage (w : RecordWriter) (ch : string) : RecordWriter :=
  mkRecordWriter (header_ w) (file_ w) (is_opened_ w) (path_ w) (segment_raw_size_ w) (segment_begin_time_ w)
    (file_index_ w) (alter (λ n, u64 (n + 1)) ch (numbers_ w)) (types_ w) (descs_ w) (file_writer_ w) (closed w).

(** Whether the segment is full after this message. *)
Definition segment_full (h : Header) (raw_size begin_time time : Z) : bool :=
  ((0 <? segment_interval h) && (segment_interval h <? u64 (time - begin_time)) ||
   (0 <? segment_raw_size h) && (segment_raw_size h <? raw_size))%Z.

(** The segment's first time, zero standing for none. *)
Definition segment_begin (b time : Z) : Z :=
  let b := if (b =? 0)%Z then time else b in
  if (time <? b)%Z then time else b.

(** [WriteMessage(message)]. *)
Definition RW_WriteMessage (w : RecordWriter) (in_writing : bool) (date : string) (message : SingleMessage)
  : RecordWriter * bool :=
  let w := OnNewMessage w (channel_name message) in
  let fw := WriteMessage (file_writer_ w) in_writing message in
  let raw := u64 (segment_raw_size_ w + Z.of_nat (length (content message))) in
  let b := segment_begin (segment_begin_time_ w) (time message) in
  let w := mkRecordWriter (header_ w) (file_ w) (is_opened_ w) (path_ w) raw b (file_index_ w) (numbers_ w)
             (types_ w) (descs_ w) fw (closed w) in
  if segment_full (header_ w) raw b (time message) then
    let w := mkRecordWriter (header_ w) (file_ w) (is_opened_ w) (path_ w) raw b (file_index_ w) (numbers_ w)
               (types_ w) (descs_ w) (file_writer_ w) (close_file w) in
    SplitOutfile w date
  else (w, true).

(** [WriteMessage<MessageT>]: [type] is the message's type name, [content] what it
    serializes to, if it does. *)
Definition RW_WriteMessageT (w : RecordWriter) (in_writing : bool) (date ch type proto_desc : string)
    (content : option (list Z)) (time : Z) : RecordWriter * bool :=
  let '(w, ok) :=
    match default EmptyString (types_ w !! ch) with
    | EmptyString => RW_WriteChannel w ch type proto_desc
    | known => (w, bool_decide (type = known))
    end in
  if negb ok then (w, false)
  else
    match content with
    | None => (w, false)
    | Some bs => RW_WriteMessage w in_writing date (mkMessage ch time bs)
    end.

Definition SetSizeOfFileSegmentation (w : RecordWriter) (size_kilobytes : Z) : RecordWriter * bool :=
  if is_opened_ w then (w, false)
  else
    let h := header_ w in
    (mkRecordWriter (mkHeader (major_version h) (minor_version h) (compress h) (chunk_interval h) (segment_interval h)
       (chunk_raw_size h) (u64 (size_kilobytes * 1024)) (index_position h) (chunk_number h) (channel_number h)
       (h_begin_time h) (h_end_time h) (h_message_number h) (size h) (is_complete h))
       (file_ w) false (path_ w) (segment_raw_size_ w) (segment_begin_time_ w) (file_index_ w) (numbers_ w)
       (types_ w) (descs_ w) (file_writer_ w) (closed w), true).

Definition SetIntervalOfFileSegmentation (w : RecordWriter) (time_sec : Z) : RecordWriter * bool :=
  if is_opened_ w then (w, false)
  else
    let h := header_ w in
    (mkRecordWriter (mkHeader (major_version h) (minor_version h) (compress h) (chunk_interval h)
       (u64 (time_sec * 1000000000)) (chunk_raw_size h) (segment_raw_size h) (index_position h) (chunk_number h)
       (channel_number h) (h_begin_time h) (h_end_time h) (h_message_number h) (size h) (is_complete h))
       (file_ w) false (path_ w) (segment_raw_size_ w) (segment_begin_time_ w) (file_index_ w) (numbers_ w)
       (types_ w) (descs_ w) (file_writer_ w) (closed w), true).

Definition RW_GetMessageNumber (w : RecordWriter) (ch : string) : Z := default 0%Z (numbers_ w !! ch).
Definition RW_GetMessageType (w : RecordWriter) (ch : string) : string := default EmptyString (types_ w !! ch).
Definition RW_GetProtoDesc (w : RecordWriter) (ch : string) : string := default EmptyString (descs_ w !! ch).
Definition RW_GetChannelList (w : RecordWriter) : gset string := dom (numbers_ w).

(** The calls of a client between [Open()] and [Close()], and rounds of the flush thread. *)
Inductive Op :=
  | OChannel (ch message_type proto_desc : string)
  | OMessage (in_writing : bool) (date : string) (m : SingleMessage)
  | OFlush.

Definition op (w : RecordWriter) (o : Op) : RecordWriter :=
  match o with
  | OChannel ch t d => (RW_WriteChannel w ch t d).1
  | OMessage iw date m => (RW_WriteMessage w iw date m).1
  | OFlush => set_file_writer w (Flush room (file_writer_ w))
  end.
Definition op_messages (l : list Op) : list SingleMessage :=
  omap (λ o, match o with OMessage _ _ m => Some m | _ => None end) l.

(** From [Open()] to [Close()]. *)
Definition record (header : Header) (file date : string) (l : list Op) : RecordWriter :=
  RW_Close (foldl op (RW_Open (RecordWriter_new header) file date).1 l).

End segments.

(** ** Segments *)

(** The bytes of messages. *)
Definition payload (l : list SingleMessage) : Z := foldr (λ m n, Z.of_nat (length (content m)) + n)%Z 0%Z l.

(** Every message's channel was written before. *)
Fixpoint declared (known : gset string) (l : list Op) : bool :=
  match l with
  | [] => true
  | OChannel ch _ _ :: l => declared ({[ ch ]} ∪ known) l
  | OMessage _ _ m :: l => bool_decide (channel_name m ∈ known) && declared known l
  | OFlush :: l => declared known l
  end.

Section proofs.
Context `{CH : Codec Header, CC : Codec Channel, CK : Codec ChunkHeader, CB : Codec ChunkBody, CI : Codec Index}.
Context {RC : RecordCodec}.
Context (can_open : string → bool) (held_before : string → list Z) (Hopen : ∀ p, can_open p = true).
Context (h : Header) (Hh : valid_header h).

Lemma payload_app l k : payload (l ++ k) = (payload l + payload k)%Z.
Proof. unfold payload. induction l as [|m l IH]; cbn; [done|]. rewrite IH. lia. Qed.
Lemma payload_nonneg l : (0 <= payload l)%Z.
Proof. unfold payload. induction l as [|m l IH]; cbn; lia. Qed.

(** With room, sections other than headers are always written. *)
Lemma WriteSection_ok {T} `{Codec T} fd type (m : T) :
  type ≠ SECTION_HEADER → (WriteSection None fd type m).2 = true.
Proof.
  intros Ht. unfold WriteSection. rewrite decide_False by done. rewrite write_all, length_Section_bytes.
  cbn [Z.ltb Z.compare negb]. change (Z.of_nat section_length =? Z.of_nat section_length)%Z with true. cbn [negb].
  change (Z.of_nat section_length <? 0)%Z with false. rewrite write_all. by rewrite decide_False.
Qed.

Lemma WriteChannel_ok w c : (WriteChannel None w c).2 = true.
Proof.
  unfold WriteChannel, write_section. pose proof (WriteSection_ok (w_fd w) SECTION_CHANNEL c) as H.
  destruct (WriteSection None (w_fd w) SECTION_CHANNEL c) as [fd ok]. cbn in *. by rewrite H.
Qed.

Lemma write_channels_ok fw chs : write_channels None fw chs = (evs None fw (EvChannel <$> chs), true).
Proof.
  revert fw. induction chs as [|c chs IH]; intros fw; [done|]. cbn.
  pose proof (WriteChannel_ok fw c) as H. destruct (WriteChannel None fw c) as [fw' ok]. cbn in *. subst ok. apply IH.
Qed.

(** A new file is open, its header written. *)
Lemma fresh_file old :
  Open FileWriter_new true old = ((Open FileWriter_new true old).1, true) ∧
  WriteHeader None (Open FileWriter_new true old).1 h = (opened old h, true).
Proof.
  split; [done|]. unfold opened, WriteHeader, write_section. destruct (header_length h Hh).
  rewrite WriteSection_header by lia. done.
Qed.

(** The bytes of a finished segment. *)
Definition segment_file (s : list Z * list Ev) : list Z := bytes (w_fd (record_file None s.1 h s.2)).
Definition channel_names (l : list Ev) : list string := name <$> ev_channels l.

(** A segment: within its size but for the last message, and with the channels of its
    messages where they were written. *)
Definition segment_ok (decl : bool) (l : list Ev) : Prop :=
  (0 < segment_raw_size h → payload (removelast (ev_messages l)) <= segment_raw_size h)%Z ∧
  (decl = true → ∀ m, m ∈ ev_messages l → channel_name m ∈ channel_names l).

Record segments (decl : bool) (segs : list (list Z * list Ev)) (old : list Z) (cur : list Ev)
    (written : list SingleMessage) (w : RecordWriter) : Prop := {
  se_header : header_ w = h;
  se_opened : is_opened_ w = true;
  se_closed : (closed w).*2 = segment_file <$> segs;
  se_current : file_writer_ w = evs None (opened old h) cur;
  se_messages : concat ((λ s, ev_messages s.2) <$> segs) ++ ev_messages cur = written;
  se_segments : Forall (λ s, segment_ok decl s.2) segs;
  se_size : segment_raw_size_ w = payload (ev_messages cur);
  se_limit : (0 < segment_raw_size h → payload (ev_messages cur) <= segment_raw_size h)%Z;
  se_known : ∀ ch, ch ∈ dom (numbers_ w) → ch ∈ channel_names cur;
  se_decl : decl = true → ∀ m, m ∈ ev_messages cur → channel_name m ∈ channel_names cur
}.

Lemma ev_messages_app l k : ev_messages (l ++ k) = ev_messages l ++ ev_messages k.
Proof. apply omap_app. Qed.
Lemma channel_names_app l k : channel_names (l ++ k) = channel_names l ++ channel_names k.
Proof. unfold channel_names, ev_channels. by rewrite omap_app, fmap_app. Qed.
Lemma evs_snoc fw l e : evs None fw (l ++ [e]) = ev None (evs None fw l) e.
Proof. unfold evs. by rewrite foldl_app. Qed.

Lemma channel_segments decl segs old cur written w ch t d :
  segments decl segs old cur written w →
  ∃ cur', segments decl segs old cur' written (RW_WriteChannel None w ch t d).1.
Proof.
  intros [H1 H2 H3 H4 H5 H6 H7 H8 H9 H10]. unfold RW_WriteChannel. case_match; [|by exists cur].
  exists (cur ++ [EvChannel (mkChannel ch t d)]).
  destruct (WriteChannel None (file_writer_ (OnNewChannel w ch t d)) (mkChannel ch t d)) as [fw ok] eqn:E.
  change (file_writer_ (OnNewChannel w ch t d)) with (file_writer_ w) in E.
  assert (ev_messages (cur ++ [EvChannel (mkChannel ch t d)]) = ev_messages cur) as Hem
    by (rewrite ev_messages_app; apply app_nil_r).
  split; rewrite ?Hem, ?channel_names_app; cbn; try done.
  - rewrite evs_snoc, <- H4. cbn. by rewrite E.
  - intros x. rewrite dom_insert, elem_of_union, elem_of_app, elem_of_singleton. intros [->|Hx]; [|left; by apply H9].
    right. cbn. by left.
  - intros Hd m Hm. apply elem_of_app. left. by apply H10.
Qed.

Lemma flush_segments decl segs old cur written w :
  segments decl segs old cur written w →
  segments decl segs old (cur ++ [EvFlush]) written (set_file_writer w (Flush None (file_writer_ w))).
Proof.
  intros [H1 H2 H3 H4 H5 H6 H7 H8 H9 H10].
  assert (ev_messages (cur ++ [EvFlush]) = ev_messages cur) as Hem by (rewrite ev_messages_app; apply app_nil_r).
  assert (channel_names (cur ++ [EvFlush]) = channel_names cur) as Hcn by (rewrite channel_names_app; apply app_nil_r).
  split; rewrite ?Hem, ?Hcn; cbn; try done. by rewrite evs_snoc, H4.
Qed.

(** A new segment begins with the known channels. *)
Lemma split_segments decl segs written w date :
  header_ w = h → is_opened_ w = true → (closed w).*2 = segment_file <$> segs →
  concat ((λ s, ev_messages s.2) <$> segs) = written → Forall (λ s, segment_ok decl s.2) segs →
  ∃ old cur, segments decl segs old cur written (SplitOutfile None can_open held_before w date).1.
Proof.
  intros H1 H2 H3 H4 H5. unfold SplitOutfile. rewrite Hopen.
  set (path := segment_path _ _ _). set (old := holds held_before w path).
  destruct (fresh_file old) as [Ho Hfresh]. rewrite Ho. cbv iota beta. rewrite H1, Hfresh. cbv iota beta. rewrite write_channels_ok.
  exists old, (EvChannel <$> known_channels w). cbn [fst].
  assert (∀ chs : list Channel, ev_messages (EvChannel <$> chs) = []) as Hem by (by intros chs; induction chs).
  assert (∀ chs : list Channel, channel_names (EvChannel <$> chs) = name <$> chs) as Hcn.
  { unfold channel_names, ev_channels. intros chs. f_equal. induction chs as [|c chs IH]; cbn; [done|]. by f_equal. }
  split; rewrite ?Hem; cbn; try done.
  - by rewrite app_nil_r.
  - lia.
  - intros ch Hch. rewrite Hcn. unfold known_channels. rewrite <- !list_fmap_compose. apply list_elem_of_fmap.
    apply elem_of_dom in Hch as [n Hn]. exists (ch, n). split; [done|]. by apply elem_of_map_to_list.
  - intros _ m Hm. by apply not_elem_of_nil in Hm.
Qed.

Lemma message_segments decl segs old cur written w iw date m :
  segments decl segs old cur written w → (payload (written ++ [m]) < 2 ^ 64)%Z →
  (decl = true → channel_name m ∈ dom (numbers_ w)) →
  ∃ segs' old' cur', segments decl segs' old' cur' (written ++ [m])
    (RW_WriteMessage None can_open held_before w iw date m).1.
Proof.
  intros [H1 H2 H3 H4 H5 H6 H7 H8 H9 H10] Hp Hd. unfold RW_WriteMessage.
  assert (ev_messages (cur ++ [EvMessage iw m]) = ev_messages cur ++ [m]) as Hem by (by rewrite ev_messages_app).
  assert (channel_names (cur ++ [EvMessage iw m]) = channel_names cur) as Hcn
    by (rewrite channel_names_app; apply app_nil_r).
  assert (payload (ev_messages cur ++ [m]) < 2 ^ 64)%Z as Hcur.
  { rewrite <- H5, <- app_assoc, payload_app in Hp. pose proof (payload_nonneg (concat ((λ s, ev_messages s.2) <$> segs))). lia. }
  assert (u64 (segment_raw_size_ w + Z.of_nat (length (content m))) = payload (ev_messages cur ++ [m])) as Hraw.
  { rewrite H7, payload_app in *. pose proof (payload_nonneg (ev_messages cur)). cbn. rewrite Z.add_0_r.
    apply u64_small. cbn in Hcur. unfold is_u64. lia. }
  assert (WriteMessage (file_writer_ w) iw m = evs None (opened old h) (cur ++ [EvMessage iw m])) as Hfw
    by (by rewrite evs_snoc, H4).
  assert (decl = true → ∀ x, x ∈ ev_messages cur ++ [m] → channel_name x ∈ channel_names cur) as Hdecl.
  { intros E x [Hx| ->%list_elem_of_singleton]%elem_of_app; [by apply H10|]. by apply H9, Hd. }
  assert (∀ ch, ch ∈ dom (alter (λ n, u64 (n + 1)) (channel_name m) (numbers_ w)) → ch ∈ channel_names cur) as Hknown
    by (intros ch; rewrite dom_alter; apply H9).
  cbn -[segment_full segment_begin WriteMessage]. rewrite Hraw, Hfw, H1. destruct (segment_full h _ _ _) eqn:Ef.
  - set (s := (old, cur ++ [EvMessage iw m])).
    destruct (split_segments decl (segs ++ [s]) (written ++ [m]) (mkRecordWriter h (file_ w) (is_opened_ w) (path_ w)
      (payload (ev_messages cur ++ [m])) (segment_begin (segment_begin_time_ w) (time m)) (file_index_ w)
      (alter (λ n, u64 (n + 1)) (channel_name m) (numbers_ w)) (types_ w) (descs_ w)
      (evs None (opened old h) (cur ++ [EvMessage iw m])) (closed w ++ [(path_ w, segment_file s)])) date)
      as (old' & cur' & Hs); cbn; try done.
    + rewrite !fmap_app, H3. done.
    + rewrite fmap_app, concat_app. cbn [fmap list_fmap concat s snd]. by rewrite app_nil_r, Hem, app_assoc, H5.
    + apply Forall_app. split; [done|]. apply Forall_singleton. split; cbn [s snd]; rewrite Hem, ?Hcn; [|done].
      by rewrite removelast_last.
    + exists (segs ++ [s]), old', cur'. exact Hs.
  - exists segs, old, (cur ++ [EvMessage iw m]). split; rewrite ?Hem, ?Hcn; cbn; try done.
    + by rewrite app_assoc, H5.
    + intros Hlim. unfold segment_full in Ef. apply orb_false_iff in Ef as [_ Ef].
      apply andb_false_iff in Ef as [Ef|Ef]; apply Z.ltb_ge in Ef; lia.
Qed.

Lemma split_numbers w date : numbers_ (SplitOutfile None can_open held_before w date).1 = numbers_ w.
Proof.
  unfold SplitOutfile. destruct (Open _ _ _) as [fw []]; [|done]. destruct (WriteHeader _ _ _) as [fw' []]; [|done].
  by destruct (write_channels _ _ _).
Qed.

Lemma known_after_message w iw date m :
  dom (numbers_ (RW_WriteMessage None can_open held_before w iw date m).1) = dom (numbers_ w).
Proof.
  unfold RW_WriteMessage. cbv zeta. destruct (segment_full _ _ _ _); rewrite ?split_numbers; apply dom_alter_L.
Qed.

Lemma ops_segments decl segs old cur written w l :
  segments decl segs old cur written w → (payload (written ++ op_messages l) < 2 ^ 64)%Z →
  (decl = true → declared (dom (numbers_ w)) l = true) →
  ∃ segs' old' cur', segments decl segs' old' cur' (written ++ op_messages l) (foldl (op None can_open held_before) w l).
Proof.
  revert segs old cur written w. induction l as [|o l IH]; intros segs old cur written w Hs Hp Hd.
  - exists segs, old, cur. by rewrite app_nil_r.
  - destruct o as [ch t d|iw date m|]; cbn [foldl op] in *.
    + destruct (channel_segments _ _ _ _ _ _ ch t d Hs) as [cur' Hs']. apply (IH _ _ _ _ _ Hs' Hp).
      intros E. specialize (Hd E). cbn in Hd. unfold RW_WriteChannel, IsNewChannel. case_bool_decide as En.
      * destruct (WriteChannel _ _ _). cbn. by rewrite dom_insert_L.
      * cbn. replace (dom (numbers_ w)) with ({[ ch ]} ∪ dom (numbers_ w)); [done|].
        apply subseteq_union_1_L, singleton_subseteq_l, elem_of_dom. by destruct (numbers_ w !! ch).
    + change (op_messages (OMessage iw date m :: l)) with ([m] ++ op_messages l) in *. rewrite app_assoc in *.
      assert (decl = true → channel_name m ∈ dom (numbers_ w) ∧ declared (dom (numbers_ w)) l = true) as Hd'.
      { intros E. specialize (Hd E). cbn in Hd. apply andb_true_iff in Hd as [Hx Hd]. by apply bool_decide_eq_true in Hx. }
      destruct (message_segments _ _ _ _ _ _ iw date m Hs) as (segs' & old' & cur' & Hs').
      * rewrite payload_app in Hp. pose proof (payload_nonneg (op_messages l)). lia.
      * intros E. by apply Hd'.
      * apply (IH _ _ _ _ _ Hs' Hp). intros E. rewrite known_after_message. by apply Hd'.
    + apply (IH _ _ _ _ _ (flush_segments _ _ _ _ _ _ Hs) Hp). done.
Qed.

(** [C35] Segments: however long the recording and however it is cut into files, the files
    closed in the end are each the finished file of a run of its own, so that each can be
    read back; together they hold every message written, once and in order; no file but
    for its last message is larger than the segment size; and if every channel is written
    before its first message, every file describes the channels of all its messages. *)
Theorem record_segments (file date : string) (l : list Op) :
  (payload (op_messages l) < 2 ^ 64)%Z →
  let w := record None can_open held_before h file date l in
  ∃ segs, (closed w).*2 = segment_file <$> segs ∧
    concat ((λ s, ev_messages s.2) <$> segs) = op_messages l ∧
    Forall (λ s, segment_ok (declared ∅ l) s.2) segs.
Proof.
  intros Hp w. set (w0 := (RW_Open None can_open held_before (RecordWriter_new h) file date).1).
  assert (∃ old, segments (declared ∅ l) [] old [] [] w0) as [old Hs].
  { unfold w0, RW_Open. rewrite Hopen. cbn [header_ RecordWriter_new]. set (path := if (_ || _)%bool then _ else _).
    destruct (fresh_file (holds held_before (RecordWriter_new h) path)) as [Ho Hf]. rewrite Ho. cbv iota beta zeta. rewrite Hf.
    exists (holds held_before (RecordWriter_new h) path). split; cbn; try done; try lia; set_solver. }
  assert (numbers_ w0 = ∅) as Hn0.
  { unfold w0, RW_Open. cbv zeta. destruct (Open _ _ _) as [fw []]; [|done]. by destruct (WriteHeader _ _ _) as [fw' []]. }
  destruct (ops_segments _ _ _ _ _ _ l Hs Hp) as (segs & old' & cur & [H1 H2 H3 H4 H5 H6 H7 H8 H9 H10]);
    [by rewrite Hn0, dom_empty_L|].
  exists (segs ++ [(old', cur)]). unfold w, record, RW_Close. fold w0. rewrite H2. cbn [closed].
  unfold close_file. split_and!.
  - rewrite !fmap_app, H3, H4. done.
  - rewrite fmap_app, concat_app. cbn [fmap list_fmap concat snd]. by rewrite app_nil_r, H5.
  - apply Forall_app. split; [done|]. apply Forall_singleton. split; cbn [snd]; [|done]. intros Hlim. specialize (H8 Hlim).
    etrans; [|exact H8]. destruct (ev_messages cur) as [|x xs] using rev_ind; [done|].
    rewrite removelast_last, payload_app. pose proof (payload_nonneg [x]). lia.
Qed.

End proofs.

Import Sample.

(** Segments of at most five bytes: the second message fills the first. *)
Definition header5 : Header := GetHeaderWithSegmentParams 0 5.
Definition ops : list Op :=
  [OChannel "a" "T" "d"; OChannel "b" "T" "d"; OMessage false "d" m1; OMessage false "e" m2; OFlush; OMessage false "f" m3].

Lemma record_segments_witness :
  let w := record None (λ _, true) (λ _, []) header5 "f" "d" ops in
  ∃ segs, (closed w).*2 = segment_file header5 <$> segs ∧
    concat ((λ s, ev_messages s.2) <$> segs) = [m1; m2; m3] ∧
    Forall (λ s, segment_ok header5 true s.2) segs.
Proof.
  apply (record_segments (λ _, true) (λ _, []) (λ _, eq_refl) header5).
  - unfold valid_header, is_u32, is_i32. cbn. rewrite !Forall_cons. unfold is_u64. split_and!; try done; lia.
  - cbn. lia.
Defined.

Example segments_paths :
  (closed (record None (λ _, true) (λ _, []) header5 "f" "d" ops)).*1 = ["f.00000.d"; "f.00001.e"]%string.
Proof. vm_compute. reflexivity. Qed.
