(* ===== verification/RecordViewer.v ===== *)
(** * Viewing records (cyber/record/record_viewer)

    A viewer plays the messages of several record files in the order of their times: it
    asks every reader for the messages of one window of a second after the other and
    keeps them in a buffer sorted by time.  The loops take fuel, [n] for those over
    messages and [wf] for the one over windows. *)

From stdpp Require Import base numbers list gmap strings sorting.
From Stdlib Require Import ZArith Lia.
From S2P Require Import Prelude WireFormat RecordFile RecordWriter RecordReader.

Open Scope nat_scope.

Record Viewer := mkViewer {
  begin_time_ : Z; end_time_ : Z; channels_ : gset string; channel_list_ : gset string;
  readers_ : list RecordReader; readers_finished_ : list bool; curr_begin_time_ : Z;
  msg_buffer_ : list SingleMessage
}.

Definition kStepTimeNanoSec : Z := 1000000000.
Definition kBufferMinSize : nat := 128.

(** [std::multimap::emplace]: behind the messages of the same time. *)
Fixpoint emplace (buf : list SingleMessage) (m : SingleMessage) : list SingleMessage :=
  match buf with
  | [] => [m]
  | x :: buf' => if (time m <? time x)%Z then m :: buf else x :: emplace buf' m
  end.

(** The order the readers are sorted by. *)
Definition reader_before (r s : RecordReader) : Prop :=
  let a := header_ r in let b := header_ s in
  if decide (h_begin_time a = h_begin_time b) then (h_end_time a <= h_end_time b)%Z
  else (h_begin_time a <= h_begin_time b)%Z.
#[export] Instance reader_before_dec : RelDecision reader_before.
Proof. intros r s. unfold reader_before. cbv zeta. destruct (decide _); apply _. Defined.

(** [Init()]: the channels, and the readers in order. *)
Definition Init (v : Viewer) : Viewer :=
  mkViewer (begin_time_ v) (end_time_ v) (channels_ v)
    (foldr (λ r l, (Reader_GetChannelList r ∩ channels_ v) ∪ l) (channel_list_ v) (readers_ v))
    (merge_sort reader_before (readers_ v)) (replicate (length (readers_ v)) false) (curr_begin_time_ v) (msg_buffer_ v).

(** [UpdateTime()]: the window of the viewer within those of the valid readers. *)
Definition UpdateTime (v : Viewer) : Viewer :=
  let valid := filter (λ r, is_valid_ r = true) (readers_ v) in
  let min_begin := foldl (λ b r, if (h_begin_time (header_ r) <? b)%Z then h_begin_time (header_ r) else b) (2 ^ 64 - 1)%Z valid in
  let max_end := foldl (λ e r, if (e <? h_end_time (header_ r))%Z then h_end_time (header_ r) else e) 0%Z valid in
  let b := if (begin_time_ v <? min_begin)%Z then min_begin else begin_time_ v in
  let e := if (max_end <? end_time_ v)%Z then max_end else end_time_ v in
  mkViewer b e (channels_ v) (channel_list_ v) (readers_ v) (readers_finished_ v) b (msg_buffer_ v).

(** [RecordViewer(readers, begin_time, end_time, channels)]. *)
Definition Viewer_new (readers : list RecordReader) (begin_ end_ : Z) (channels : gset string) : Viewer :=
  UpdateTime (Init (mkViewer begin_ end_ channels ∅ readers [] 0 [])).

Definition IsValid (v : Viewer) : bool := negb (end_time_ v <? begin_time_ v)%Z.

Section viewer.
Context `{CH : Codec Header, CC : Codec Channel, CK : Codec ChunkHeader, CB : Codec ChunkBody, CI : Codec Index}.
Context `{ST : Stream}.
Context (at_end : FileReader → Z → bool).

Definition Viewer_Reset (v : Viewer) : Viewer :=
  mkViewer (begin_time_ v) (end_time_ v) (channels_ v) (channel_list_ v) (RecordReader_Reset <$> readers_ v)
    (replicate (length (readers_finished_ v)) false) (begin_time_ v) [].

(** Readers whose files end before the window are finished and reset. *)
Definition finish (this_begin : Z) (r : RecordReader) (fin : bool) : RecordReader * bool :=
  if (negb fin && (h_end_time (header_ r) <? this_begin)%Z)%bool then (RecordReader_Reset r, true) else (r, fin).

(** The others are read until they have no more messages in the window. *)
Fixpoint read_windows (n : nat) (this_begin this_end : Z) (l : list (RecordReader * bool)) (buf : list SingleMessage)
  : option (list (RecordReader * bool) * list SingleMessage) :=
  match l with
  | [] => Some ([], buf)
  | (r, true) :: l => '(l, buf) ← read_windows n this_begin this_end l buf; Some ((r, true) :: l, buf)
  | (r, false) :: l =>
      '(r, ms) ← read_all at_end n r this_begin this_end;
      '(l, buf) ← read_windows n this_begin this_end l (foldl emplace buf ms);
      Some ((r, false) :: l, buf)
  end.

(** The first loop of a round. *)
Definition finish_all (this_begin : Z) (v : Viewer) : list (RecordReader * bool) :=
  (λ '(r, fin), finish this_begin r fin) <$> zip (readers_ v) (readers_finished_ v).

(** [FillBuffer()]. *)
Fixpoint FillBuffer (wf n : nat) (v : Viewer) : option (Viewer * bool) :=
  match wf with
  | O => None
  | S wf =>
      if ((curr_begin_time_ v <=? end_time_ v)%Z && bool_decide (length (msg_buffer_ v) < kBufferMinSize))%bool then
        let this_begin := curr_begin_time_ v in
        let this_end := u64 (this_begin + kStepTimeNanoSec) in
        let this_end := if (end_time_ v <? this_end)%Z then end_time_ v else this_end in
        match read_windows n this_begin this_end (finish_all this_begin v) (msg_buffer_ v) with
        | None => None
        | Some (l, buf) =>
            FillBuffer wf n (mkViewer (begin_time_ v) (end_time_ v) (channels_ v) (channel_list_ v) l.*1 l.*2
              (u64 (this_end + 1)) buf)
        end
      else Some (v, negb (bool_decide (msg_buffer_ v = [])))
  end.

Definition set_buffer (v : Viewer) (buf : list SingleMessage) : Viewer :=
  mkViewer (begin_time_ v) (end_time_ v) (channels_ v) (channel_list_ v) (readers_ v) (readers_finished_ v)
    (curr_begin_time_ v) buf.

(** Whether the client asked for the message's channel. *)
Definition wanted (channels : gset string) (m : SingleMessage) : bool :=
  bool_decide (channels = ∅) || bool_decide (channel_name m ∈ channels).

(** [Update(message)]: the next message the client asked for, if there is one. *)
Fixpoint Update (fuel wf n : nat) (v : Viewer) : option (Viewer * option SingleMessage) :=
  match fuel with
  | O => None
  | S fuel =>
      match (if decide (msg_buffer_ v = []) then FillBuffer wf n v else Some (v, true)) with
      | None => None
      | Some (v, false) => Some (v, None)
      | Some (v, true) =>
          match msg_buffer_ v with
          | [] => Some (v, None)
          | m :: buf =>
              let v := set_buffer v buf in
              if wanted (channels_ v) m then Some (v, Some m) else Update fuel wf n v
          end
      end
  end.

(** From [begin()] to [end()]: the messages an iterator shows. *)
Fixpoint play_on (fuel wf n : nat) (v : Viewer) : option (list SingleMessage) :=
  match fuel with
  | O => None
  | S fuel =>
      match Update n wf n v with
      | None => None
      | Some (_, None) => Some []
      | Some (v, Some m) => l ← play_on fuel wf n v; Some (m :: l)
      end
  end.
Definition play (wf n : nat) (v : Viewer) : option (list SingleMessage) :=
  let v := Viewer_Reset v in
  if IsValid v then play_on n wf n v else Some [].

End viewer.

(** ** The buffer *)

Definition earlier (m n : SingleMessage) : Prop := (time m <= time n)%Z.

Lemma emplace_perm buf m : emplace buf m ≡ₚ m :: buf.
Proof.
  induction buf as [|x buf IH]; cbn; [done|]. destruct (time m <? time x)%Z; [done|].
  rewrite IH. apply Permutation_swap.
Qed.

Lemma buffer_sorted buf m : StronglySorted earlier buf → StronglySorted earlier (emplace buf m).
Proof.
  induction 1 as [|x buf Hs IH Hx]; cbn; [by repeat constructor|].
  destruct (time m <? time x)%Z eqn:E; zbool.
  - constructor; [by constructor|]. constructor; [unfold earlier; lia|].
    eapply Forall_impl; [exact Hx|]. unfold earlier. cbn. lia.
  - constructor; [done|]. rewrite emplace_perm. constructor; [unfold earlier; lia|done].
Qed.

Lemma emplaces_perm buf l : foldl emplace buf l ≡ₚ buf ++ l.
Proof.
  revert buf. induction l as [|m l IH]; intros buf; cbn; [by rewrite app_nil_r|].
  rewrite IH, emplace_perm. cbn. apply Permutation_middle.
Qed.

Lemma emplaces_sorted buf l : StronglySorted earlier buf → StronglySorted earlier (foldl emplace buf l).
Proof. revert buf. induction l as [|m l IH]; intros buf Hs; cbn; [done|]. by apply IH, buffer_sorted. Qed.

(** Messages added to a sorted list from a time on. *)
Lemma sorted_extend (out buf buf' : list SingleMessage) :
  StronglySorted earlier (out ++ buf) → StronglySorted earlier buf' →
  (∀ m n, m ∈ out → n ∈ buf' → earlier m n) → StronglySorted earlier (out ++ buf').
Proof.
  intros Hs Hb Hle. apply StronglySorted_app. apply StronglySorted_app in Hs as (_ & Hs & _). done.
Qed.

Lemma sorted_filter (P : SingleMessage → Prop) `{∀ m, Decision (P m)} l :
  StronglySorted earlier l → StronglySorted earlier (filter P l).
Proof.
  induction 1 as [|m l Hs IH Hm]; [constructor|]. rewrite filter_cons. case_decide; [|done].
  constructor; [done|]. by apply Forall_filter_sub.
Qed.

(** Cutting a list at a time. *)
Lemma filter_cut (a b c : Z) (l : list SingleMessage) :
  (a <= b)%Z → (b <= c + 1)%Z →
  filter (λ m, a <= time m < c + 1)%Z l ≡ₚ filter (λ m, a <= time m < b)%Z l ++ filter (λ m, b <= time m <= c)%Z l.
Proof.
  intros Hab Hbc. induction l as [|m l IH]; [done|]. rewrite !filter_cons.
  repeat case_decide; try lia; rewrite IH; [done|apply Permutation_middle|done].
Qed.

Lemma filter_concat (P : SingleMessage → Prop) `{∀ m, Decision (P m)} (ls : list (list SingleMessage)) :
  filter P (concat ls) = concat (filter P <$> ls).
Proof. induction ls as [|l ls IH]; cbn; [done|]. by rewrite filter_app, IH. Qed.

Lemma up_to_beyond e l : l = up_to e l ++ beyond e l.
Proof. induction l as [|m l IH]; cbn; [done|]. case_match; cbn; [done|]. by f_equal. Qed.
Lemma up_to_le e l : Forall (λ m, (time m <= e)%Z) (up_to e l).
Proof. induction l as [|m l IH]; cbn; [done|]. case_match; zbool; by constructor. Qed.

Section playing.
Context `{CH : Codec Header, CC : Codec Channel, CK : Codec ChunkHeader, CB : Codec ChunkBody, CI : Codec Index}.
Context {RC : RecordCodec} `{ST : Stream} {SL : StreamLaws}.
Context (at_end : FileReader → Z → bool).

Definition any (_ _ : Z) : Prop := True.

(** A reader of a file with the messages [all], in the order of their times and within
    the times of the header, which can be read from the start again. *)
Record plays (r : RecordReader) (all rest : list SingleMessage) : Prop := {
  pl_shows : ∃ index l, shows index any r l rest;
  pl_reset : ∃ index l, shows index any (RecordReader_Reset r) l all;
  pl_sorted : StronglySorted earlier all;
  pl_span : Forall (λ m, (h_begin_time (header_ r) <= time m <= h_end_time (header_ r))%Z) all
}.

(** It still has all its messages from the time [curr] on. *)
Definition ready (curr : Z) (r : RecordReader) (all : list SingleMessage) : Prop :=
  ∃ gone rest, all = gone ++ rest ∧ plays r all rest ∧ Forall (λ m, (time m < curr)%Z) gone.

Lemma shows_reset index W r r' l all :
  shows index W (RecordReader_Reset r) l all → is_valid_ r' = true →
  file (file_reader_ r') = file (file_reader_ r) → shows index W (RecordReader_Reset r') l all.
Proof.
  intros (_ & Hst & Hp & ->) Hv Hf. split; [done|]. split; [|split; [done|done]].
  unfold RecordReader_Reset, FileReader_Reset in *. cbn [file_reader_ reach_end_] in *. rewrite SetPosition_of_nat in *.
  cbn [fst] in *. destruct Hst as (H1 & H2 & H3 & H4 & tail & Ha). unfold stands, ahead in *. cbn -[start] in *.
  rewrite Hf. split_and!; try done. by exists tail.
Qed.

Lemma ready_reset curr curr' r all : ready curr r all → ready curr' (RecordReader_Reset r) all.
Proof.
  intros (gone & rest & -> & [(i & l & Hs) (i' & l' & Hr) Hso Hsp] & _). exists [], (gone ++ rest).
  split; [done|]. split; [|done]. split; [by exists i', l'| |done|done]. exists i', l'.
  eapply shows_reset; [exact Hr|apply Hs|]. cbn. unfold FileReader_Reset. by rewrite SetPosition_of_nat.
Qed.

(** A reader asked for a window. *)
Lemma read_ready n b e r all :
  ready b r all → (b <= e)%Z → length all < n →
  ∃ r', read_all at_end n r b e = Some (r', filter (λ m, b <= time m <= e)%Z all) ∧ ready (e + 1) r' all ∧
    header_ r' = header_ r.
Proof.
  intros (gone & rest & Hall & [(i & l & Hs) (i' & l' & Hr) Hso Hsp] & Hg) Hbe Hn.
  assert (Forall (λ m, (time m < e + 1)%Z) gone) as Hg' by (eapply Forall_impl; [exact Hg|]; cbn; lia).
  destruct (decide (h_end_time (header_ r) < b ∨ e < h_begin_time (header_ r))%Z) as [Ho|Hi].
  - exists r. rewrite read_all_outside by (done || lia || apply Hs). split; [|split; [|done]].
    + do 2 f_equal. symmetry. apply filter_none. intros m Hm. rewrite Forall_forall in Hsp. specialize (Hsp m Hm). lia.
    + exists gone, rest. split; [done|]. split; [|done]. split; [by exists i, l|by exists i', l'|done|done].
  - assert (StronglySorted earlier rest) as Hsr by (rewrite Hall in Hso; by apply StronglySorted_app in Hso as (_ & _ & ?)).
    destruct (read_all_spec at_end i any b e n r l rest) as (r' & l2 & H2 & Hs2 & Hh2 & _ & Hf2);
      [done|done|rewrite Hall, length_app in Hn; lia|done|lia|lia|].
    exists r'. rewrite H2. split; [|split; [|done]].
    + do 2 f_equal. rewrite window_sorted by done. rewrite Hall, filter_app, (filter_none _ gone); [done|].
      intros m Hm. rewrite Forall_forall in Hg. specialize (Hg m Hm). lia.
    + exists (gone ++ up_to e rest), (beyond e rest). split; [by rewrite <- app_assoc, <- up_to_beyond|]. split.
      * split; [by exists i, l2| |done|by rewrite Hh2]. exists i', l'. eapply shows_reset; [exact Hr|apply Hs2|done].
      * apply Forall_app. split; [done|]. eapply Forall_impl; [apply up_to_le|]. cbn. lia.
Qed.

(** A reader and whether it is finished. *)
Definition slot_ready (curr : Z) (x : RecordReader * bool) (all : list SingleMessage) : Prop :=
  ready curr x.1 all ∧ (x.2 = true → (h_end_time (header_ x.1) < curr)%Z).

Lemma slot_mono curr curr' x all : (curr <= curr')%Z → slot_ready curr x all → slot_ready curr' x all.
Proof.
  intros Hle [(gone & rest & Hall & Hp & Hg) Hf]. split; [|intros E; specialize (Hf E); lia].
  exists gone, rest. split; [done|]. split; [done|]. eapply Forall_impl; [exact Hg|]. cbn. lia.
Qed.

Lemma finish_slots curr l alls :
  Forall2 (slot_ready curr) l alls → Forall2 (slot_ready curr) ((λ '(r, fin), finish curr r fin) <$> l) alls.
Proof.
  intros H. rewrite Forall2_fmap_l. eapply Forall2_impl; [exact H|]. intros [r fin] all [Hr Hf]. unfold compose, finish.
  destruct (negb fin && _)%bool eqn:E; [|by split]. zbool. split; [by eapply ready_reset|done].
Qed.

(** A window over all readers. *)
Lemma read_windows_spec n b e l alls buf :
  (b <= e)%Z → Forall (λ all, length all < n) alls → Forall2 (slot_ready b) l alls →
  ∃ l' buf', read_windows at_end n b e l buf = Some (l', buf') ∧ Forall2 (slot_ready (e + 1)) l' alls ∧
    buf' ≡ₚ buf ++ filter (λ m, b <= time m <= e)%Z (concat alls) ∧
    (StronglySorted earlier buf → StronglySorted earlier buf').
Proof.
  intros Hbe Hn H. revert buf Hn. induction H as [|[r fin] all l alls [Hr Hf] H IH]; intros buf Hn.
  - exists [], buf. rewrite app_nil_r. done.
  - apply Forall_cons in Hn as [Hn0 Hn]. cbn [concat]. rewrite filter_app. cbn [fst snd] in *. destruct fin; cbn [read_windows].
    + destruct (IH buf Hn) as (l' & buf' & -> & Hl & Hb & Hs). exists ((r, true) :: l'), buf'. split; [done|].
      split; [constructor; [|done]|split; [|done]].
      * apply (slot_mono b); [lia|by split].
      * rewrite Hb, (filter_none _ all); [done|]. destruct Hr as (? & ? & _ & [_ _ _ Hsp] & _). intros m Hm.
        rewrite Forall_forall in Hsp. specialize (Hsp m Hm). specialize (Hf eq_refl). lia.
    + destruct (read_ready n b e r all Hr Hbe Hn0) as (r' & -> & Hr' & Hh). cbn [mbind option_bind].
      destruct (IH (foldl emplace buf (filter (λ m, b <= time m <= e)%Z all)) Hn) as (l' & buf' & -> & Hl & Hb & Hs).
      exists ((r', false) :: l'), buf'. split; [done|]. split; [by constructor|]. split.
      * by rewrite Hb, emplaces_perm, <- app_assoc.
      * intros Hso. apply Hs. by apply emplaces_sorted.
Qed.

(** ** The viewer over its run *)

Context (alls : list (list SingleMessage)).

(** [out] are the messages taken from the buffer so far. *)
Record viewing (v : Viewer) (out : list SingleMessage) : Prop := {
  vi_length : length (readers_ v) = length (readers_finished_ v);
  vi_readers : Forall2 (slot_ready (curr_begin_time_ v)) (zip (readers_ v) (readers_finished_ v)) alls;
  vi_sorted : StronglySorted earlier (out ++ msg_buffer_ v);
  vi_messages : out ++ msg_buffer_ v ≡ₚ
    filter (λ m, begin_time_ v <= time m < curr_begin_time_ v)%Z (concat alls);
  vi_curr : (0 <= begin_time_ v <= curr_begin_time_ v ∧ curr_begin_time_ v <= end_time_ v + 1)%Z;
  vi_end : (end_time_ v + kStepTimeNanoSec < 2 ^ 64)%Z
}.

(** What stays as it was. *)
Definition same_view (v v' : Viewer) : Prop :=
  begin_time_ v' = begin_time_ v ∧ end_time_ v' = end_time_ v ∧ channels_ v' = channels_ v.

Lemma viewing_times v out m : viewing v out → m ∈ out ++ msg_buffer_ v → (time m < curr_begin_time_ v)%Z.
Proof. intros [_ _ _ Hm _ _]. rewrite Hm, list_elem_of_filter. lia. Qed.

(** One round of [FillBuffer()]. *)
Lemma fill_round n v out :
  viewing v out → Forall (λ all, length all < n) alls → (curr_begin_time_ v <= end_time_ v)%Z →
  let this_end := if (end_time_ v <? u64 (curr_begin_time_ v + kStepTimeNanoSec))%Z then end_time_ v
                  else u64 (curr_begin_time_ v + kStepTimeNanoSec) in
  ∃ l buf, read_windows at_end n (curr_begin_time_ v) this_end (finish_all (curr_begin_time_ v) v) (msg_buffer_ v) = Some (l, buf) ∧
    let v' := mkViewer (begin_time_ v) (end_time_ v) (channels_ v) (channel_list_ v) l.*1 l.*2 (u64 (this_end + 1)) buf in
    viewing v' out ∧
    ((curr_begin_time_ v + kStepTimeNanoSec < curr_begin_time_ v')%Z ∨ curr_begin_time_ v' = (end_time_ v + 1)%Z).
Proof.
  intros Hv Hn Hle this_end. pose proof Hv as [Hlen Hr Hs Hm Hc He].
  assert (u64 (curr_begin_time_ v + kStepTimeNanoSec) = curr_begin_time_ v + kStepTimeNanoSec)%Z as Hu
    by (apply u64_small; unfold is_u64, kStepTimeNanoSec in *; lia).
  assert (curr_begin_time_ v <= this_end <= end_time_ v ∧
    (this_end = curr_begin_time_ v + kStepTimeNanoSec ∨ this_end = end_time_ v))%Z as [Hte Hor].
  { unfold this_end. rewrite Hu. unfold kStepTimeNanoSec in *. case_match; zbool; lia. }
  clearbody this_end.
  destruct (read_windows_spec n (curr_begin_time_ v) this_end (finish_all (curr_begin_time_ v) v) alls (msg_buffer_ v))
    as (l & buf & -> & Hl & Hb & Hso); [lia|done|by apply finish_slots|].
  exists l, buf. split; [done|]. cbv zeta.
  assert (u64 (this_end + 1) = this_end + 1)%Z as Hu'
    by (apply u64_small; unfold is_u64, kStepTimeNanoSec in *; lia).
  split; [|cbn; rewrite Hu'; lia].
  apply StronglySorted_app in Hs as Hs'. destruct Hs' as (Hlt & _ & Hsb).
  split; cbn; rewrite ?Hu'; try (done || lia).
  - by rewrite !length_fmap.
  - by rewrite zip_fst_snd.
  - apply (sorted_extend out (msg_buffer_ v)); [done|by apply Hso|]. intros x y Hx. rewrite Hb, elem_of_app, list_elem_of_filter.
    intros [Hy|[Hy _]]; [by apply Hlt|]. unfold earlier.
    pose proof (viewing_times v out x Hv ltac:(apply elem_of_app; by left)). lia.
  - rewrite Hb, app_assoc, Hm, <- filter_cut by lia. done.
Qed.

Lemma FillBuffer_spec wf n v out :
  viewing v out → Forall (λ all, length all < n) alls →
  (end_time_ v + 1 - curr_begin_time_ v + kStepTimeNanoSec <= kStepTimeNanoSec * Z.of_nat wf)%Z →
  ∃ v' ok, FillBuffer at_end wf n v = Some (v', ok) ∧ viewing v' out ∧ same_view v v' ∧
    ok = negb (bool_decide (msg_buffer_ v' = [])) ∧
    (curr_begin_time_ v <= curr_begin_time_ v')%Z ∧
    (msg_buffer_ v' = [] → curr_begin_time_ v' = (end_time_ v' + 1)%Z).
Proof.
  intros Hv Hn. revert v Hv. induction wf as [|wf IH]; intros v Hv Hw.
  { pose proof (vi_curr _ _ Hv). unfold kStepTimeNanoSec in Hw. lia. }
  cbn [FillBuffer]. pose proof (vi_curr _ _ Hv) as Hc.
  destruct ((curr_begin_time_ v <=? end_time_ v)%Z && bool_decide (length (msg_buffer_ v) < kBufferMinSize))%bool eqn:E.
  - apply andb_true_iff in E as [E _]. zbool.
    destruct (fill_round n v out Hv Hn E) as (l & buf & -> & Hv' & Hor).
    destruct (IH _ Hv') as (v' & ok & -> & H1 & H2 & H3 & H4 & H5).
    { cbn [curr_begin_time_ end_time_] in *. set (c := u64 _) in *. clearbody c. unfold kStepTimeNanoSec in *. destruct Hor; lia. }
    exists v', ok. split; [done|]. split; [done|]. split; [done|]. split; [done|]. split; [|done].
    cbn [curr_begin_time_ end_time_] in *. unfold kStepTimeNanoSec in *. lia.
  - exists v, (negb (bool_decide (msg_buffer_ v = []))). split; [done|]. split; [done|]. split; [done|]. split; [done|].
    split; [done|]. intros Eb. rewrite Eb in E. apply andb_false_iff in E as [E|E]; [zbool; lia|].
    apply bool_decide_eq_false in E. exfalso. apply E. unfold kBufferMinSize. cbn. lia.
Qed.

(** All messages in the viewer's window. *)
Definition in_view (v : Viewer) : list SingleMessage :=
  filter (λ m, begin_time_ v <= time m < end_time_ v + 1)%Z (concat alls).

Lemma viewing_le v out : viewing v out → length out + length (msg_buffer_ v) <= length (in_view v).
Proof.
  intros [_ _ _ Hm Hc _]. rewrite <- length_app, Hm. unfold in_view.
  rewrite (filter_cut _ (curr_begin_time_ v) (end_time_ v)), length_app by lia. lia.
Qed.

(** The viewer has shown everything. *)
Definition played (v : Viewer) (out : list SingleMessage) : Prop :=
  viewing v out ∧ msg_buffer_ v = [] ∧ curr_begin_time_ v = (end_time_ v + 1)%Z.

Lemma viewing_pop v out m buf :
  viewing v out → msg_buffer_ v = m :: buf → viewing (set_buffer v buf) (out ++ [m]).
Proof.
  intros [H1 H2 H3 H4 H5 H6] E. rewrite E in *. split; cbn; try done; by rewrite <- app_assoc.
Qed.

Lemma Update_spec fuel wf n v out :
  viewing v out → Forall (λ all, length all < n) alls →
  (end_time_ v + 1 - begin_time_ v + kStepTimeNanoSec <= kStepTimeNanoSec * Z.of_nat wf)%Z →
  length (in_view v) < length out + fuel →
  ∃ v' res skipped, Update at_end fuel wf n v = Some (v', res) ∧ same_view v v' ∧
    Forall (λ m, wanted (channels_ v) m = false) skipped ∧
    match res with
    | Some m => wanted (channels_ v) m = true ∧ viewing v' (out ++ skipped ++ [m])
    | None => played v' (out ++ skipped)
    end.
Proof.
  intros Hv Hn. revert v out Hv. induction fuel as [|fuel IH]; intros v out Hv Hw Hf.
  { pose proof (viewing_le _ _ Hv). lia. }
  cbn [Update].
  assert (∃ v1, (if decide (msg_buffer_ v = []) then FillBuffer at_end wf n v else Some (v, true)) =
    Some (v1, negb (bool_decide (msg_buffer_ v1 = []))) ∧ viewing v1 out ∧ same_view v v1 ∧
    (msg_buffer_ v1 = [] → curr_begin_time_ v1 = (end_time_ v1 + 1)%Z)) as (v1 & -> & Hv1 & Hsv & Hend).
  { case_decide as E.
    - destruct (FillBuffer_spec wf n v out Hv Hn) as (v1 & ok & -> & H1 & H2 & -> & _ & H5);
        [pose proof (vi_curr _ _ Hv); lia|]. by exists v1.
    - exists v. by rewrite bool_decide_eq_false_2. }
  pose proof Hsv as (Hsb & Hse & Hsc). destruct (msg_buffer_ v1) as [|m buf] eqn:Eb.
  - rewrite bool_decide_eq_true_2 by done. cbn [negb]. exists v1, None, []. rewrite app_nil_r.
    split; [done|]. split; [done|]. split; [done|]. split; [done|]. split; [done|by apply Hend].
  - rewrite bool_decide_eq_false_2 by done. cbn [negb]. pose proof (viewing_pop _ _ _ _ Hv1 Eb) as Hv2.
    change (channels_ (set_buffer v1 buf)) with (channels_ v1). rewrite Hsc. destruct (wanted (channels_ v) m) eqn:Ew.
    + exists (set_buffer v1 buf), (Some m), []. done.
    + destruct (IH (set_buffer v1 buf) (out ++ [m]) Hv2) as (v' & res & skipped & Hup & Hsv' & Hsk & Hres).
      * cbn. by rewrite Hsb, Hse.
      * rewrite length_app. unfold in_view in *. cbn. rewrite Hsb, Hse. lia.
      * exists v', res, (m :: skipped). split; [done|]. unfold same_view in *. cbn in Hsv', Hsk, Hres.
        split; [destruct Hsv' as (-> & -> & ->); done|]. split; [constructor; [done|by rewrite <- Hsc]|].
        rewrite Hsc in Hres. destruct res as [x|]; rewrite <- app_assoc in Hres; done.
Qed.

Lemma play_on_spec fuel wf n v out :
  viewing v out → Forall (λ all, length all < n) alls → length (in_view v) < n →
  (end_time_ v + 1 - begin_time_ v + kStepTimeNanoSec <= kStepTimeNanoSec * Z.of_nat wf)%Z →
  length (in_view v) < length out + fuel →
  ∃ v' rest, play_on at_end fuel wf n v = Some (filter (λ m, wanted (channels_ v) m = true) rest) ∧
    same_view v v' ∧ played v' (out ++ rest).
Proof.
  intros Hv Hn. revert v out Hv. induction fuel as [|fuel IH]; intros v out Hv Hn' Hw Hf.
  { pose proof (viewing_le _ _ Hv). lia. }
  cbn [play_on]. destruct (Update_spec n wf n v out Hv Hn Hw ltac:(lia)) as (v1 & res & skipped & -> & Hsv & Hsk & Hres).
  assert (filter (λ m, wanted (channels_ v) m = true) skipped = []) as Hnone.
  { apply filter_none. intros m Hm. rewrite Forall_forall in Hsk. by rewrite (Hsk m Hm). }
  pose proof Hsv as (Hsb & Hse & Hsc). destruct res as [m|].
  - destruct Hres as [Hm Hv1]. destruct (IH v1 _ Hv1) as (v' & rest & -> & Hsv' & Hp).
    + unfold in_view in *. by rewrite Hsb, Hse.
    + by rewrite Hsb, Hse.
    + rewrite !length_app. unfold in_view in *. rewrite Hsb, Hse. cbn. lia.
    + exists v', (skipped ++ [m] ++ rest). split; [|split].
      * cbn [mbind option_bind]. rewrite filter_app, Hnone, Hsc. cbn [app]. by rewrite filter_cons_True.
      * unfold same_view in *. destruct Hsv' as (-> & -> & ->). done.
      * by rewrite <- !app_assoc in Hp.
  - exists v1, skipped. by rewrite Hnone.
Qed.

End playing.

Section theorem.
Context `{CH : Codec Header, CC : Codec Channel, CK : Codec ChunkHeader, CB : Codec ChunkBody, CI : Codec Index}.
Context {RC : RecordCodec} `{ST : Stream} {SL : StreamLaws}.
Context (at_end : FileReader → Z → bool).

(** A reader of a finished file, fresh, plays its messages. *)
Lemma new_reader_plays h items index tail :
  let bs := file_of h items index ++ tail in
  let r := RecordReader_new at_end (Some bs) in
  valid_header h → is_complete h = true → index_position h = Z.of_nat (start + length (items_bytes items)) →
  parses_back index → (Z.of_nat (ByteSizeLong index) < 2 ^ 31)%Z → (Z.of_nat (length bs) < 2 ^ 63)%Z →
  Forall chunk_item items → Forall item_readable items → Forall valid_message (all_messages items) →
  Forall (λ m, (0 < time m)%Z) (all_messages items) → StronglySorted earlier (all_messages items) →
  Forall (λ m, (h_begin_time h <= time m <= h_end_time h)%Z) (all_messages items) →
  plays r (all_messages items) (all_messages items).
Proof.
  intros bs r Hv Hc Hp Hb Hi Hlen Hci Hr Hm Hpos Hso Hsp.
  assert (shows index any r (sects_of items) (all_messages items)) as Hs
    by (apply new_reader_shows; try done; by right).
  assert (r = mkReader (mkFileReader bs start false h index) true h index (foldl add_channel_info ∅ index) false
    (mkChunkBody []) 0) as Hnew by (by apply RecordReader_new_spec).
  split; [by eexists _, _| |done|by rewrite Hnew]. exists index, (sects_of items).
  replace (RecordReader_Reset r) with r; [done|]. rewrite Hnew. unfold RecordReader_Reset, FileReader_Reset. cbn [file_reader_].
  by rewrite SetPosition_of_nat.
Qed.

Lemma min_begin_le (b : Z) (rs : list RecordReader) r :
  let f := λ b r, if (h_begin_time (header_ r) <? b)%Z then h_begin_time (header_ r) else b in
  (foldl f b rs <= b)%Z ∧ (r ∈ rs → (foldl f b rs <= h_begin_time (header_ r))%Z).
Proof.
  intros f. revert b. induction rs as [|x rs IH]; intros b; cbn; [set_solver by lia|].
  destruct (IH (f b x)) as [H1 H2]. assert (f b x <= b ∧ f b x <= h_begin_time (header_ x))%Z
    by (unfold f; case_match; zbool; lia).
  split; [lia|]. intros [->|Hr]%elem_of_cons; [lia|by apply H2].
Qed.

Lemma max_end_ge (e c : Z) (rs : list RecordReader) r :
  let f := λ e r, if (e <? h_end_time (header_ r))%Z then h_end_time (header_ r) else e in
  (e <= foldl f e rs)%Z ∧ (r ∈ rs → (h_end_time (header_ r) <= foldl f e rs)%Z) ∧
  ((e <= c)%Z → (∀ r, r ∈ rs → (h_end_time (header_ r) <= c)%Z) → (foldl f e rs <= c)%Z).
Proof.
  intros f. revert e. induction rs as [|x rs IH]; intros e; cbn; [set_solver by lia|].
  destruct (IH (f e x)) as (H1 & H2 & H3). assert (e <= f e x ∧ h_end_time (header_ x) <= f e x)%Z
    by (unfold f; case_match; zbool; lia).
  split; [lia|]. split; [intros [->|Hr]%elem_of_cons; [lia|by apply H2]|].
  intros He Hr. apply H3; [|set_solver]. specialize (Hr x ltac:(by left)). unfold f. case_match; lia.
Qed.

Lemma elem_of_concat {A} (x : A) ls : x ∈ concat ls ↔ ∃ l, x ∈ l ∧ l ∈ ls.
Proof. induction ls as [|l ls IH]; cbn; [set_solver|]. rewrite elem_of_app, IH. set_solver. Qed.

Lemma concat_perm {A} (ls ks : list (list A)) : ls ≡ₚ ks → concat ls ≡ₚ concat ks.
Proof.
  induction 1 as [|l ls ks _ IH|l k ls|ls ks js _ IH1 _ IH2]; cbn; [done|by rewrite IH| |by etrans].
  rewrite !app_assoc. by rewrite (Permutation_app_comm k l).
Qed.

(** The readers after [Reset()], none finished. *)
Lemma reset_slots curr (ps : list (RecordReader * list SingleMessage)) :
  Forall (λ p, plays p.1 p.2 p.2) ps →
  Forall2 (slot_ready curr) (zip (RecordReader_Reset <$> ps.*1) (replicate (length ps) false)) ps.*2.
Proof.
  induction 1 as [|[r all] ps Hp _ IH]; cbn; [constructor|]. constructor; [|done]. split; [|done].
  cbn in *. apply (ready_reset 0). exists [], all. done.
Qed.

(** Sorting the readers moves their messages along. *)
Lemma sorted_readers (ps : list (RecordReader * list SingleMessage)) :
  ∃ ps', ps' ≡ₚ ps ∧ merge_sort reader_before ps.*1 = ps'.*1.
Proof.
  destruct (Permutation_map_inv fst ps (merge_sort_Permutation reader_before ps.*1)) as (ps' & H1 & H2).
  exists ps'. by split.
Qed.

(** The viewer's times: narrowed to those of the files, which loses no message. *)
Lemma viewer_times (ps : list (RecordReader * list SingleMessage)) (b e : Z) (channels : gset string) :
  Forall (λ p, plays p.1 p.2 p.2) ps →
  Forall (λ p, 0 <= h_end_time (header_ p.1) < 2 ^ 64 - kStepTimeNanoSec)%Z ps →
  let v := Viewer_new ps.*1 b e channels in
  (b <= begin_time_ v)%Z ∧ (end_time_ v + kStepTimeNanoSec < 2 ^ 64)%Z ∧ curr_begin_time_ v = begin_time_ v ∧
  ∀ m, m ∈ concat ps.*2 → (b <= time m <= e)%Z ↔ (begin_time_ v <= time m < end_time_ v + 1)%Z.
Proof.
  intros Hpl Hend v. destruct (sorted_readers ps) as (ps' & Hp & Hsort). unfold v, Viewer_new, Init, UpdateTime.
  cbn -[kStepTimeNanoSec]. rewrite Hsort.
  assert (filter (λ r, is_valid_ r = true) ps'.*1 = ps'.*1) as ->.
  { apply filter_all. intros r ([r' all] & -> & Hr)%list_elem_of_fmap. rewrite Hp in Hr. rewrite Forall_forall in Hpl.
    destruct (Hpl _ Hr) as [(i & l & Hs) _ _ _]. apply Hs. }
  set (mb := foldl _ (2 ^ 64 - 1)%Z _). set (me := foldl _ 0%Z _).
  assert (me <= 2 ^ 64 - kStepTimeNanoSec - 1)%Z as Hme.
  { apply (max_end_ge 0 _ ps'.*1 (RecordReader_new at_end None)); [unfold kStepTimeNanoSec; lia|].
    intros r ([r' all] & -> & Hr)%list_elem_of_fmap. rewrite Hp in Hr. rewrite Forall_forall in Hend.
    specialize (Hend _ Hr). cbn in *. lia. }
  split; [case_match; zbool; lia|]. split; [case_match; zbool; lia|]. split; [done|].
  intros m (all & Hm & ([r' all'] & -> & Hr)%list_elem_of_fmap)%elem_of_concat. cbn in Hm.
  assert (r' ∈ ps'.*1) as Hin by (apply list_elem_of_fmap; exists (r', all'); by rewrite Hp).
  pose proof (proj2 (min_begin_le (2 ^ 64 - 1) ps'.*1 r') Hin) as H1. fold mb in H1.
  pose proof (proj1 (proj2 (max_end_ge 0 0 ps'.*1 r')) Hin) as H2. fold me in H2.
  rewrite Forall_forall in Hpl. destruct (Hpl _ Hr) as [_ _ _ Hsp]. rewrite Forall_forall in Hsp. specialize (Hsp m Hm).
  cbn in Hsp. case_match; case_match; zbool; lia.
Qed.

(** [C22] A viewer over any number of recordings plays exactly the messages of all of them
    that lie in its time window and on the channels asked for, each once, in the order of
    their times, and then ends; provided the messages of each file are in the order of
    their times. *)
Theorem viewer_plays_in_order (ps : list (RecordReader * list SingleMessage)) (b e : Z) (channels : gset string)
    (wf n : nat) :
  Forall (λ p, plays p.1 p.2 p.2) ps →
  Forall (λ p, 0 <= h_end_time (header_ p.1) < 2 ^ 64 - kStepTimeNanoSec)%Z ps → (0 <= b)%Z →
  length (concat ps.*2) < n →
  let v := Viewer_new ps.*1 b e channels in
  (end_time_ v + 1 - begin_time_ v + kStepTimeNanoSec <= kStepTimeNanoSec * Z.of_nat wf)%Z →
  ∃ out, play at_end wf n v = Some out ∧ StronglySorted earlier out ∧
    out ≡ₚ filter (λ m, wanted channels m = true) (filter (λ m, b <= time m <= e)%Z (concat ps.*2)).
Proof.
  intros Hpl Hend Hb Hn v Hwf.
  destruct (viewer_times ps b e channels Hpl Hend) as (Hvb & Hve & Hvc & Hin). fold v in Hvb, Hve, Hvc, Hin.
  rewrite (filter_ext_in (λ m, b <= time m <= e)%Z (λ m, begin_time_ v <= time m < end_time_ v + 1)%Z) by (intros m Hm; by apply Hin).
  destruct (sorted_readers ps) as (ps' & Hp & Hsort). unfold play, IsValid.
  change (end_time_ (Viewer_Reset v) <? begin_time_ (Viewer_Reset v))%Z with (end_time_ v <? begin_time_ v)%Z.
  destruct (end_time_ v <? begin_time_ v)%Z eqn:Ev; zbool; cbn [negb].
  { exists []. split; [done|]. split; [constructor|]. rewrite (filter_none (λ m, _ <= _ < _)%Z); [done|]. intros m _. lia. }
  assert (readers_ v = ps'.*1 ∧ readers_finished_ v = replicate (length ps') false) as [Hrs Hfin].
  { unfold v, Viewer_new, Init, UpdateTime. cbn. by rewrite Hsort, length_fmap, (Permutation_length Hp). }
  assert (channels_ v = channels) as Hch by done. clearbody v.
  assert (Forall (λ p, plays p.1 p.2 p.2) ps') as Hpl' by (by rewrite Hp).
  assert (concat ps'.*2 ≡ₚ concat ps.*2) as Hcat by (apply concat_perm; by rewrite Hp).
  assert (viewing ps'.*2 (Viewer_Reset v) []) as Hv0.
  { split; cbn; rewrite ?Hrs, ?Hfin, ?length_replicate; try done; try lia.
    - by rewrite !length_fmap.
    - by apply reset_slots.
    - constructor.
    - rewrite filter_none; [done|]. intros m _. lia. }
  assert (length (in_view ps'.*2 (Viewer_Reset v)) <= length (concat ps.*2)) as Hle
    by (unfold in_view; rewrite length_filter, Hcat; done).
  destruct (play_on_spec at_end ps'.*2 n wf n (Viewer_Reset v) [] Hv0) as (v' & rest & -> & (Hsb & Hse & _) & Hpd).
  - apply Forall_forall. intros all Hall. eapply Nat.le_lt_trans; [|exact Hn]. rewrite <- Hcat.
    apply list_elem_of_split in Hall as (l1 & l2 & ->). rewrite concat_app. cbn. rewrite !length_app. lia.
  - lia.
  - done.
  - cbn. lia.
  - destruct Hpd as ([_ _ Hs Hm _ _] & Hb' & Hc'). rewrite Hb', Hc', Hsb, Hse, app_nil_r in *. cbn [app] in *.
    eexists. split; [done|]. change (channels_ (Viewer_Reset v)) with (channels_ v). rewrite Hch. split.
    + by apply sorted_filter.
    + by rewrite Hm, Hcat.
Qed.

End theorem.

(** ** Two recordings *)

Import Sample.

Definition items_a : list Item :=
  [IChannel (mkChannel "a" "T" "d");
   IChunk (c_header (chunk_of [m1; m2])) (mkChunkBody [m1; m2]); IChunk (c_header (chunk_of [m3])) (mkChunkBody [m3])].
Definition m4 : SingleMessage := mkMessage "b" 15 [9]%Z.
Definition items_b : list Item := [IChunk (c_header (chunk_of [m4])) (mkChunkBody [m4])].

(** A finished recording of these items. *)
Definition recording (items : list Item) : list Z :=
  let index := final_index (all_messages items) items in file_of (final_header header0 items index) items index.
Definition reader_of (items : list Item) : RecordReader := RecordReader_new never_at_end (Some (recording items)).

Lemma recording_a : bytes (w_fd (record_file None [] header0 run)) = recording items_a.
Proof. vm_compute. reflexivity. Qed.

Lemma reader_plays items :
  let index := final_index (all_messages items) items in
  valid_header (final_header header0 items index) → Forall chunk_item items →
  Forall item_readable items → Forall valid_message (all_messages items) →
  Forall (λ m, (0 < time m)%Z) (all_messages items) → StronglySorted earlier (all_messages items) →
  (Z.of_nat (ByteSizeLong index) < 2 ^ 31)%Z → (Z.of_nat (length (recording items)) < 2 ^ 63)%Z →
  plays (reader_of items) (all_messages items) (all_messages items).
Proof.
  intros index Hv Hc Hr Hm Hp Hs Hi Hl. unfold reader_of, recording. rewrite <- (app_nil_r (file_of _ _ _)).
  apply new_reader_plays; try done.
  - intros rest. apply (of_to_bytes (T := list SingleIndex)).
  - by rewrite app_nil_r.
  - by apply header_spans.
Qed.

Lemma reader_a_plays : plays (reader_of items_a) [m1; m2; m3] [m1; m2; m3].
Proof.
  apply (reader_plays items_a).
  - apply final_header_valid; [apply header0_valid| |apply run_valid|vm_compute; reflexivity]. by repeat constructor.
  - by repeat constructor.
  - repeat constructor; vm_compute; reflexivity.
  - apply run_valid.
  - repeat constructor; cbn; lia.
  - repeat constructor; unfold earlier; cbn; lia.
  - vm_compute. reflexivity.
  - vm_compute. reflexivity.
Qed.

Lemma reader_b_plays : plays (reader_of items_b) [m4] [m4].
Proof.
  assert (Forall valid_message [m4]) as Hm by (repeat constructor; unfold is_u64, is_byte; cbn; lia).
  apply (reader_plays items_b).
  - apply final_header_valid; [apply header0_valid| |exact Hm|vm_compute; reflexivity]. by repeat constructor.
  - by repeat constructor.
  - repeat constructor; vm_compute; reflexivity.
  - exact Hm.
  - repeat constructor; cbn; lia.
  - repeat constructor; unfold earlier; cbn; lia.
  - vm_compute. reflexivity.
  - vm_compute. reflexivity.
Qed.

Lemma viewer_plays_in_order_witness :
  ∃ out, play never_at_end 2 5 (Viewer_new [(reader_of items_a, [m1; m2; m3]); (reader_of items_b, [m4])].*1 12 100 ∅) = Some out ∧
    StronglySorted earlier out ∧ out ≡ₚ [m2; m3; m4].
Proof.
  destruct (viewer_plays_in_order never_at_end [(reader_of items_a, [m1; m2; m3]); (reader_of items_b, [m4])] 12 100 ∅ 2 5)
    as (out & H1 & H2 & H3).
  - constructor; [exact reader_a_plays|constructor; [exact reader_b_plays|constructor]].
  - repeat constructor; vm_compute; done.
  - lia.
  - cbn. lia.
  - vm_compute. done.
  - exists out. split; [exact H1|]. split; [exact H2|]. rewrite H3. vm_compute. reflexivity.
Defined.

Example play_two : play never_at_end 2 5 (Viewer_new [reader_of items_a; reader_of items_b] 12 100 ∅) = Some [m4; m2; m3].
Proof. vm_compute. reflexivity. Qed.

(** A recording whose messages are not in the order of their times, as in the test
    [iterator_test_reverse]: the message at 5 s is beyond the viewer's first window and
    ends the reading of its chunk there; when its window comes, the message at 1 s behind
    it is too early to be shown.  If each is in a chunk of its own, the header says the
    recording ends before it begins, and the viewer shows nothing. *)
Definition at_second (s : Z) (content : list Z) : SingleMessage := mkMessage "c" (s * 1000000000) content.
Definition reversed (content : list Z) : list Ev :=
  [EvMessage false (at_second 5 content); EvFlush; EvMessage false (at_second 1 content); EvFlush].
Definition reader_after (l : list Ev) : RecordReader :=
  RecordReader_new never_at_end (Some (bytes (w_fd (record_file None [] header0 l)))).
Theorem reversed_recording_loses :
  play never_at_end 20 5 (Viewer_new [reader_after (reversed [1; 2]%Z)] 0 (2 ^ 63) ∅) = Some [at_second 5 [1; 2]%Z] ∧
  play never_at_end 20 5 (Viewer_new [reader_after (reversed [1; 2; 3; 4; 5; 6]%Z)] 0 (2 ^ 63) ∅) = Some [].
Proof. vm_compute. done. Qed.
